(* ===== verification/_CoqProject ===== *)
-Q . S2P
Prelude.v
Text.v
Net.v
Frame.v
Select.v
Ladder.v
Mobile.v
Float64.v
FlowReport.v
FlowEvents.v
Policy.v
Packet.v
Filter.v
FilterProps.v
FilterSim.v
Ipam.v
AclFilter.v
AclProps.v
ForwardFilter.v
ForwardProps.v
ForwardInstall.v
CoordAcl.v
CoordProps.v
CoordForward.v
CoordForwardProps.v
Traffic.v
PfFilter.v
PfProps.v
AppConnectors.v
ConnectorProps.v
CoordRules.v
RulesProps.v
Ingress.v
IngressProps.v
HeaderProps.v
Relay.v
RelayProps.v
Dns.v
DnsProps.v
Resources.v
ResourcesProps.v
Routes.v
RoutesProps.v
Posture.v
PostureProps.v
PostureExact.v
OrgDns.v
OrgDnsProps.v
OrgDnsStable.v
Topology.v
Json.v
ChangeDrafts.v
DraftProps.v
DraftRows.v
DraftPublish.v
Pq.v
PqExchange.v
PqSession.v
PqRuntime.v
PqDevice.v
PqBlock.v
PqState.v
PqPolicy.v
Config.v
ConfigCheck.v
ConfigProps.v
ConfigSecrecy.v
PublicIngress.v
PublicIngressProps.v
IngressFeed.v
