(* ===== verification/Prelude.v ===== *)
(** * Verification of the BlakTail control and data plane

    BlakTail is a mesh VPN.  A coordinator hands every device a peer map (peers,
    their addresses and the grants between them), agents enforce it, and relays
    carry ciphertext where no direct path exists.  This library models the pure
    decision logic of that system in Rocq and proves it correct.

    ** Parts of the program and where they are modelled

    - [Prelude] (this file): results and the [?] operator, machine integers,
      byte strings, durations, hash-map iteration, shared tactics and lemmas.
    - [Text], [Net]: the parts of the Rust standard library the source uses:
      string operations on UTF-8 bytes, number parsing and printing,
      [IpAddr] with its parser, printer and CIDR masks.
    - [Frame]: [blaktail-relay-proto/src/frame.rs], the helpers of [lib.rs], and
      the node id text of [mobile.rs].
    - [Select]: [blaktail-relay-proto/src/select.rs], relay choice and back-off.
    - [Ladder]: [blaktail-relay-proto/src/ladder.rs], the UDP/WebSocket ladder
      of a relay link and the direct/relay path of a peer.
    - [Mobile]: [blaktail-relay-proto/src/mobile.rs], the relay session of the
      phone clients, on top of [Frame], [Select] and [Ladder].
    - [Float64], [FlowReport]: [blaktail-ios-wg/src/flow_report.rs] and the
      validation of [blaktail-coord/src/flows.rs] at the other end.
    - [FlowEvents]: [blaktail-ios-wg/src/flow_events.rs].
    - [Policy], [Packet], [Filter]: [blaktail-ios-wg/src/filter.rs], in three
      parts: the compiled grants, the packet parser, and the connection tracker.
      [FilterProps] and [FilterSim] hold the proofs about the tracker.
    - [Ipam]: [blaktail-coord/src/ipam.rs], address pools and allocation.
    - [AclFilter], [AclProps]: [blaktaild/src/acl_filter.rs], the iptables chain
      and the sshd policy of the Linux agent, and their proofs.
    - [ForwardFilter], [ForwardProps], [ForwardInstall]:
      [blaktaild/src/forward_filter.rs], the allow-list for traffic a routing peer
      forwards, with the log rules of [flow_capture.rs]: the definitions, the
      verdicts of the planned chain, and its installation command by command.
    - [CoordAcl], [CoordProps]: the policy engine of [blaktail-coord/src/lib.rs]:
      the ACL document, its validation and tests, the evaluator, and the
      compilation into the grants of a peer map ([shares.rs] and
      [policy_explain.rs] where they take part).
    - [CoordForward], [CoordForwardProps]: [blaktail-coord/src/forwarding.rs], the
      allow-list of a routing peer compiled from resources, routes and names.
    - [Traffic]: [blaktaild/src/traffic.rs], report windows and kernel counters.
    - [PfFilter], [PfProps]: [blaktaild/src/pf_filter.rs], the macOS anchor.
    - [AppConnectors], [ConnectorProps]: [blaktail-coord/src/app_connectors.rs],
      resolution reports of domain connectors and their leases.
    - [CoordRules], [RulesProps]: [permissions.rs], [tailnet_lock.rs],
      [connectors.rs], [https_services.rs] and [https_fallback.rs] of the
      coordinator.
    - [Ingress], [IngressProps], [HeaderProps]: [blaktail-ingress/src]: the
      limiter, the route table, header rules, session cookies and the decisions of
      the proxy.
    - [Relay], [RelayProps]: [blaktail-relay/src/lib.rs], the relay's hub:
      registration with tokens, forwarding, pings, rate limits and reaping, and
      the queue bound of [wss.rs].
    - [Dns], [DnsProps]: [blaktaild/src/dns.rs], the agent's name server: records
      and zones from the peer map, the message parser, answers, split routes.
    - [Resources], [ResourcesProps]: [blaktail-coord/src/resources.rs], the
      resource API, selection of the routing peer, the console view, the
      distribution to clients and the liveness check.
    - [Routes], [RoutesProps]: advertised and approved subnet routes of
      [blaktail-coord/src/lib.rs] and [admin.rs], and the routes of an
      organisation as a whole, together with [Resources].
    - [Posture], [PostureProps], [PostureExact]: [posture.rs] and [posture_integrations.rs] of the
      coordinator: check definitions, evaluation, deadlines, matching of provider
      records, hardware pins.
    - [OrgDns], [OrgDnsProps], [OrgDnsStable]: [org_dns.rs] of the coordinator and
      the stored document of [lib.rs] and [dns_workspace.rs]: canonical form, the
      device's snapshot, the explanation of a name, revisions and rollback.
    - [Topology]: [topology.rs] with [device_flow] of [policy_explain.rs], the
      devices and the paths between them.
    - [Json], [ChangeDrafts], [DraftProps], [DraftRows], [DraftPublish]:
      [change_drafts.rs] with the writers it calls: drafts of policy, resources and DNS, their preview and
      publication, and their proofs.
    - [Pq], [PqExchange], [PqSession]: the hybrid key exchange of
      [blaktaild/src/pq.rs], its two halves and its two sessions over a network.
    - [PqRuntime], [PqDevice], [PqBlock], [PqState]: the rest of [pq.rs]: what an agent
      keeps and reports per peer, rotation, persistence, and the chain that blocks a
      pair without its required key.
    - [PqPolicy]: [blaktail-coord/src/post_quantum.rs], which pairs use such keys.
    - [PublicIngress], [PublicIngressProps], [IngressFeed]:
      [blaktail-coord/src/public_ingress.rs] with [designations.rs], the administration
      of the public routes, and the feed of [config_loop] and [coord.rs] of
      [blaktail-ingress] that [Ingress] serves from, with its proofs.
    - [Config], [ConfigCheck], [ConfigProps], [ConfigSecrecy]:
      [blaktail-config/src/lib.rs], the configuration every service loads: defaults,
      the file, the environment, secrets, validation, the redacted dump and reload,
      and their proofs.

    The coordinator compiles a policy ([CoordAcl]) into the grants of each
    device's peer map and, for routing peers, into a forward filter
    ([CoordForward]), from the resources and routes that [Resources] and [Routes]
    administer; policy conditions on device state come from [Posture].  A device's
    packets go through [Filter], which asks [Policy] about new inbound flows and records [FlowEvents]; the same grants reach a Linux device as the
    chain of [AclFilter] and a Mac as the anchor of [PfFilter], and a forward filter
    reaches its router as the chain of [ForwardFilter].  Counters leave the device
    as a [FlowReport], on a computer through [Traffic].  Packets
    that cannot go directly go through the [Mobile] session to a [Relay], with the
    frames of [Frame] at both ends.  Names are resolved on the device by [Dns],
    with the zones and routes an organisation publishes through [OrgDns].  A change
    draft ([ChangeDrafts]) writes policy, resources and DNS in one transaction, after
    a preview that compares the paths of the [Topology].  [PqPolicy] tells the agents of a
    pair whether to agree on a hybrid key; they run the exchange of [Pq] under the
    control of [PqRuntime], which blocks the pair through [PqDevice] where it must.
    The public routes of an organisation ([PublicIngress]) reach the proxy of [Ingress]
    through the feed of [IngressFeed].  Every service starts from a configuration of
    [Config].

    ** How the code is represented

    - A struct is a [Record] with the source's fields (prefixed where names
      clash), an enum an [Inductive], a method a function from the old state to
      the new one and the result.  [Result] is [result], [Option] is [option].
    - Strings are lists of UTF-8 bytes; bytes and fixed-width integers are [Z] in
      their range.  Plain addition on counters wraps ([u64_add]), saturating
      addition saturates; additions whose operands the code bounds are exact.
    - A [HashMap] is a [gmap]; where the source iterates over one, the order is an
      argument ([HashIter]) and the theorems hold for every order.
    - Instants and durations are integers (nanoseconds in the relay protocol,
      seconds in the filter); clock reads and random values are arguments.
    - Loops are structural recursion over the list they walk, or over an explicit
      budget that is the loop's own bound: 8 IPv6 extension headers
      ([MAX_EXT_HEADERS]), 65536 allocation probes ([MAX_ALLOC_PROBES]), the
      eviction queue of the flow table.  No fuel is invented, so no theorem
      depends on it.
    - Code that runs commands is a [Prog], a tree of commands and what is done with
      their replies, so that theorems can speak of every state it passes through
      and of every command that may fail.
    - A table of the coordinator's database is a list of records, a query a filter
      over it in row order, a transaction that fails leaves the tables as they were.
      A handler that reads before its transaction takes the tables of each read.
    - A shared [Arc] is a handle into a store ([Ingress.Routes]), so that the same
      route seen by the table, a request and a tunnel is one object.
    - Indexing that could panic is a value: [Packet] parses in a monad with a
      [Panic] outcome, [CoordForward.complement] returns [None] where recursion
      past the last bit would, [FlowEvents.build] returns [None] where [clamp] would
      panic, and theorems exclude these outcomes.

    ** What the theorems show

    - Policy and filtering: the compiled rules decide as the grants say; over all
      sequences of operations nothing unsolicited is admitted, replies are, all
      tables stay bounded, diagnostics never change a verdict and record nothing
      when off; the Linux chain admits what the userspace filter admits, and besides
      it exactly the key exchange port and the SSH logins left to sshd.
      A concrete run shows that a fragmented reply loses its later fragments.
    - Forwarding: the planned chain decides as the filter says; while it is
      replaced, whatever commands fail, the old or the new rules are in force, unless
      an earlier replacement left a jump to its staging chain behind; the
      replacement succeeds where commands do; each reject is logged by a rule with
      its matches.  A concrete run shows that the guarantee is lost for the
      install that follows a failed rename.
    - Coordinator: a compiled grant means what the rules say, and composed with the
      device's filter the policy is what is enforced; validated documents keep
      their own tests; SSH logins agree; whatever a router forwards was granted to
      the client that sent it; the complement of a default route is exact.
      Concrete policies show where the evaluator and the compiler disagree.
    - Mac filter: the anchor and the Linux chain agree on every new flow, and its
      text has exactly the planned rules.
    - Connectors: every lease is a single safe host of bounded life; a report with
      an unsafe answer fails closed for its connector (and only for it, which a
      concrete run shows); an accepted one leases exactly its answers.
    - Rule books: an admission signature binds its statement (short of an
      unescaped separator), host routes cover exactly their address.
    - Ingress: whatever is forwarded was authorised, takes a permit and names to the
      service only the user the gate recognised; withdrawn routes never come
      back and a silent coordinator darkens the table; a service can trust the
      headers the ingress adds, a client learns nothing from the headers it gets;
      session cookies round-trip; the limiter is bounded.
    - Relay: it forwards only between registered nodes and only what they sent, it
      does forward that, and strangers cannot grow its tables.
    - Names: no query makes the name server panic or exceed a datagram; device names
      resolve as the peer map says, and only names without an address are denied;
      private names never leave the device.
    - Organisation DNS: for each answer the console announces for a name, what the
      device's name server does with it; the canonical form of a document without
      one-label zones and unusual labels is stable, so the stored document
      implements a history of such documents with rollback.  Concrete documents show
      where explanation and device part, a record that moves when it is read back,
      and a long alias loop that is accepted.
    - Change drafts: under any interleaving a publication applies the draft that was
      read, on the live documents it is based on, all of it or nothing, and every
      resource row then says what the draft says; closed drafts
      never change; no path opens or closes without a confirmation.  Concrete
      documents show what the checks and the risk flags miss.
    - Hybrid keys: honest peers agree; a side that accepts ran the same exchange as its
      partner, short of a collision the theorem names; on any network the initiator ends
      with a key only if the responder installed it; exchanges begun after a key was
      installed use newer epochs; a required pair without a key is dropped by the chain,
      default routes and the exchange port of any host apart; both agents of a pair are
      told the same; agents' reports are accepted.  Concrete runs show a refusal that
      ends a pair's exchanges, a block that is lost after a failed command, a key
      that stays on the device after a failed clearing, and an epoch installed again by
      a session that was in flight.
    - Resources and routes: every sequence of requests, with advertisements that read
      and write in separate steps, keeps routes apart as long as no approval is
      withdrawn between the two steps or made through the automation API, so no
      prefix is handed to two routers; the console shows what is distributed; the
      selected routing peer is the best one; a failover is announced; public
      prefixes need an owner's confirmation; validation is sound.  Concrete runs
      show an approval path without the overlap test, an advertisement that brings a
      withdrawn approval back, a failover of name
      connectors nobody is told of, and a name resource shown but not distributed.
    - Posture: a check passes exactly when its requirements are met, by a reference
      that reads versions, ages and provider records on its own ([PostureExact]);
      results that
      will lapse carry a deadline, and deadlines fire; a provider's record speaks
      for one device; reports never take another device's identity; the check
      table is well formed.  Concrete runs show a lapse that falls after its
      deadline's wake-up and a refused device let in by an outage.
    - Traffic: counts add up to the kernel's counters, reports tile the time
      counting was on.
    - Parsing: the packet parser never panics and reads the wire format back;
      relay frames, addresses and node ids round-trip; relay lists keep only
      approved relays; sshd policies cannot be injected into.
    - Relays: choice, fail-over, fail-back and back-off follow their rules; the
      link ladder refines a history-based specification; paths demote and promote
      as documented; sessions stay bounded and only the active relay delivers.
      A concrete run shows a withdrawn relay becoming active again.
    - Addresses: overlap and containment are exact; allocation is the first free
      host, and what it returns is valid and unused.
    - Reports: what an agent uploads, the coordinator accepts; caps keep the
      busiest records and the newest events; body screening is exact.
    - Public routes: nothing goes public unless an owner typed its name, stored routes
      stay valid, and what an ingress serves was live less than 58 seconds ago.
    - Configuration: the dump and the errors of loading are independent of secret
      values; a reload compares every field the service reads and notices a rotated
      secret; what validates guards its metrics, secrets and URLs, the agent's included.

    ** Assumptions

    SHA-256 and UUID syntax are arguments of the definitions that use them.
    [iptables] is the class [AclProps.Iptables], whose laws are the documented
    matching of [-s], [-p], [--dport] and [-j]; an instance shows they can hold.
    [ForwardProps.IptablesForward] says the same of forwarded packets, with [-d]
    and [NFLOG]; [ForwardInstall.IptablesRunner] says that a command that succeeds
    has its documented effect on the tables ([effect]) and one that fails has none.
    [PfProps.Pf] says the same of the rules the Mac agent writes.
    [Ingress.HeaderMapOps] and [HeaderMapLaws] are what the code relies on of
    [http::HeaderMap]; URL and authority parsing are arguments.  HMAC, base64 and
    JSON are arguments; where a theorem needs it, HMAC is assumed injective on
    messages or base64 and JSON to round-trip, as hypotheses with an instance.
    The IDNA conversions are arguments; [OrgDnsProps.IdnaLaws] says what the code
    relies on of [domain_to_ascii].  [ChangeDrafts.Codecs] collects JSON text, the
    decoding of documents, IDNA and SHA-256 for the drafts.
    [Pq.Crypto] is what the exchange uses of SHA-256, HKDF, HMAC, X25519, ML-KEM, base64
    and JSON, [PqExchange.CryptoLaws] the documented laws (agreement, decapsulation,
    round trips, sizes), with an instance; nothing is assumed of the hash functions,
    theorems name the inputs that would have to collide.  [PqRuntime.Host] is the
    WireGuard device and the state file; [PqBlock.PqFilter] and [PqBlock.TableRunner] say of
    the block chain what the classes above say of theirs.
    [Config.ConfigHost] is what the configuration uses of the TOML and URL parsers, the
    tracing filter, SHA-256 and the file system; nothing is assumed of them but that
    two loads that are compared use the same ones.
    A packet is followed from the agent's first jump in [FORWARD]; rules other
    programs put in front of it are outside the model.
    The userspace agreement theorem assumes that peers own distinct addresses and
    that routes carry no blanks, and says nothing about ICMP of the wrong family.
    Posture is stated for checks that pass validation, as stored ones do.

    ** What is not modelled

    Sockets, WireGuard devices and WireGuard's own key exchange, the C interface and its locking,
    the HTTP handlers of the coordinator and most of its database code,
    serialization beyond the fields a theorem needs, TLS, the OIDC login flow and
    the upstream connection of the ingress, the adapters that fetch provider
    records, and the applications that are not written in Rust.  Of the pure logic
    the support bundle of [blaktail-config], address renumbering and remote access are
    not modelled. *)

From Stdlib Require Export ZArith Lia Ascii String.
From stdpp Require Export base tactics numbers list gmap option strings ssreflect.

#[global] Open Scope Z_scope.
#[global] Set Default Goal Selector "!".

(** ** Results

    Rust's [Result<A, E>] and its [?] operator. *)

Inductive result (E A : Type) : Type :=
| Ok (a : A)
| Err (e : E).
Arguments Ok {E A} a.
Arguments Err {E A} e.

Definition result_bind {E A B : Type} (r : result E A) (k : A → result E B) : result E B :=
  match r with
  | Ok a => k a
  | Err e => Err e
  end.

Definition ok_or {E A : Type} (o : option A) (e : E) : result E A :=
  match o with
  | Some a => Ok a
  | None => Err e
  end.

Definition result_ok {E A : Type} (r : result E A) : option A :=
  match r with
  | Ok a => Some a
  | Err _ => None
  end.

Definition is_ok {E A : Type} (r : result E A) : bool :=
  match r with
  | Ok _ => true
  | Err _ => false
  end.

(** [if b { return Err(e) }] *)
Definition reject_if {E} (b : bool) (e : E) : result E unit := if b then Err e else Ok tt.

(** [for x in xs { f(x)?; }] *)
Fixpoint try_each {E A : Type} (f : A → result E ()) (xs : list A) : result E () :=
  match xs with
  | [] => Ok ()
  | x :: xs => result_bind (f x) (λ _, try_each f xs)
  end.

(** [xs.iter().map(f).collect::<Result<Vec<_>, _>>()] *)
Fixpoint try_collect {E A B : Type} (f : A → result E B) (xs : list A) : result E (list B) :=
  match xs with
  | [] => Ok []
  | x :: xs => result_bind (f x) (λ y, result_bind (try_collect f xs) (λ ys, Ok (y :: ys)))
  end.

Declare Scope rust_scope.
Delimit Scope rust_scope with rust.
Notation "'let?' x ':=' e 'in' k" := (result_bind e (λ x, k))
  (at level 10, x pattern, k at level 200) : rust_scope.
#[global] Open Scope rust_scope.

(** ** Machine integers

    Unsigned integers are values of [Z] inside their range.  Plain [+] on a
    fixed-width integer wraps in the release profile; [saturating_add] stops
    at the maximum. *)

Definition U8_MAX : Z := 255.
Definition U16_MAX : Z := 65535.
Definition U32_MAX : Z := 4294967295.
Definition U64_MAX : Z := 18446744073709551615.
Definition U128_MAX : Z := 340282366920938463463374607431768211455.

Definition is_u8 (z : Z) : Prop := 0 ≤ z ≤ U8_MAX.
Definition is_u16 (z : Z) : Prop := 0 ≤ z ≤ U16_MAX.
Definition is_u32 (z : Z) : Prop := 0 ≤ z ≤ U32_MAX.
Definition is_u64 (z : Z) : Prop := 0 ≤ z ≤ U64_MAX.
Definition is_u128 (z : Z) : Prop := 0 ≤ z ≤ U128_MAX.

Definition u64_add (a b : Z) : Z := (a + b) mod (U64_MAX + 1).
Definition sat_add_u32 (a b : Z) : Z := Z.min U32_MAX (a + b).
Definition sat_add_u64 (a b : Z) : Z := Z.min U64_MAX (a + b).

(** Big-endian digits of a number in base [B]: [n] digits, and back. *)
Fixpoint be_limbs (B : Z) (n : nat) (z : Z) : list Z :=
  match n with
  | O => []
  | S n => be_limbs B n (z / B) ++ [z mod B]
  end.

Definition from_limbs (B : Z) (l : list Z) : Z := foldl (λ acc b, acc * B + b) 0 l.

(** [to_be_bytes] on [n] bytes and [from_be_bytes]. *)
Abbreviation be_bytes := (be_limbs 256).
Abbreviation from_be := (from_limbs 256).

(** A byte string; [Vec<u8>], [&[u8]] and fixed-size byte arrays. *)
Abbreviation bytes := (list Z).
Definition wf_bytes (bs : bytes) : Prop := Forall is_u8 bs.

(** Length of a slice as a [usize] value. *)
Definition len {A} (l : list A) : Z := Z.of_nat (length l).

(** [&s[a..b]] for in-range indices, and [s.get(a..b)]. *)
Definition slice {A} (a b : nat) (l : list A) : list A := take (b - a) (drop a l).
Definition get_range {A} (a b : nat) (l : list A) : option (list A) :=
  if (a <=? b)%nat && (b <=? length l)%nat then Some (slice a b l) else None.

(** Durations and instants, in nanoseconds; [Instant::duration_since]
    saturates at zero. *)
Definition secs (n : Z) : Z := n * 1000000000.
Definition duration_since (later earlier : Z) : Z := Z.max 0 (later - earlier).

(** ** Hash-map iteration

    [HashMap::iter] visits every entry once in an unspecified order.  A
    [HashIter] is a choice of that order; theorems hold for every instance. *)
Class HashIter (K : Type) `{Countable K} := {
  hash_iter : ∀ {V : Type}, gmap K V → list (K * V);
  hash_iter_perm : ∀ {V : Type} (m : gmap K V), hash_iter m ≡ₚ map_to_list m
}.

(** The order of [map_to_list], for executable examples. *)
#[export] Program Instance sorted_iter (K : Type) `{Countable K} : HashIter K | 100 := {
  hash_iter := λ V m, map_to_list m
}.
Next Obligation. done. Qed.

(** ** Automation *)

Create HintDb rust.
Create Rewrite HintDb rust.

(** Turn the boolean tests of a code path into propositions for [lia]. *)
Ltac to_prop :=
  repeat match goal with
  | H : andb _ _ = true |- _ => apply andb_true_iff in H as [? ?]
  | H : orb _ _ = false |- _ => apply orb_false_iff in H as [? ?]
  | H : negb _ = true |- _ => apply negb_true_iff in H
  | H : negb _ = false |- _ => apply negb_false_iff in H
  | H : bool_decide _ = true |- _ => apply bool_decide_eq_true in H
  | H : bool_decide _ = false |- _ => apply bool_decide_eq_false in H
  | H : (_ <? _) = true |- _ => apply Z.ltb_lt in H
  | H : (_ <? _) = false |- _ => apply Z.ltb_ge in H
  | H : (_ <=? _) = true |- _ => apply Z.leb_le in H
  | H : (_ <=? _) = false |- _ => apply Z.leb_gt in H
  | H : (_ =? _) = true |- _ => apply Z.eqb_eq in H
  | H : (_ =? _) = false |- _ => apply Z.eqb_neq in H
  | H : (_ <? _)%nat = true |- _ => apply Nat.ltb_lt in H
  | H : (_ <? _)%nat = false |- _ => apply Nat.ltb_ge in H
  | H : (_ <=? _)%nat = true |- _ => apply Nat.leb_le in H
  | H : (_ <=? _)%nat = false |- _ => apply Nat.leb_gt in H
  | H : (_ =? _)%nat = true |- _ => apply Nat.eqb_eq in H
  | H : (_ =? _)%nat = false |- _ => apply Nat.eqb_neq in H
  end.

(** Unfold the machine-integer constants and finish with [lia]. *)
Ltac mlia :=
  unfold is_u8, is_u16, is_u32, is_u64, is_u128, secs, duration_since, sat_add_u32, sat_add_u64,
    U8_MAX, U16_MAX, U32_MAX, U64_MAX, U128_MAX, len in *; lia.

(** [lia] on goals with division and remainder by constants. *)
Ltac dlia := Z.to_euclidean_division_equations; lia.

(** Case analysis on every test of the goal or of a hypothesis. *)
Ltac split_ifs := repeat (case_match; to_prop); simplify_eq/=; try done.

(** ** Shared lemmas *)

Lemma if_same {A} (b : bool) (x : A) : (if b then x else x) = x.
Proof. by destruct b. Qed.

Lemma length_be_limbs B n z : length (be_limbs B n z) = n.
Proof. revert z; induction n as [|n IH]; intros z; simpl; [done|]. rw length_app IH /=. lia. Qed.

Lemma from_limbs_snoc B bs b : from_limbs B (bs ++ [b]) = from_limbs B bs * B + b.
Proof. unfold from_limbs. by rw foldl_app. Qed.

Lemma from_limbs_app B bs cs :
  from_limbs B (bs ++ cs) = from_limbs B bs * B ^ len cs + from_limbs B cs.
Proof.
  unfold len. induction cs as [|c cs IH] using rev_ind.
  { rw app_nil_r /=. unfold from_limbs. simpl. lia. }
  rw app_assoc !from_limbs_snoc IH length_app /= Nat2Z.inj_add Z.pow_add_r; lia.
Qed.

Lemma from_limbs_be B n z : 0 < B → 0 ≤ z < B ^ Z.of_nat n → from_limbs B (be_limbs B n z) = z.
Proof.
  intros HB. revert z; induction n as [|n IH]; intros z Hz; simpl.
  { unfold from_limbs; simpl in *; lia. }
  rw from_limbs_snoc IH.
  - pose proof (Z_div_mod_eq_full z B). lia.
  - rw Nat2Z.inj_succ Z.pow_succ_r in Hz; [|lia].
    split; [apply Z.div_pos; lia|]. apply Z.div_lt_upper_bound; lia.
Qed.

Lemma be_limbs_bound B n z : 0 < B → Forall (λ x, 0 ≤ x < B) (be_limbs B n z).
Proof.
  intros HB. revert z; induction n as [|n IH]; intros z; simpl; [constructor|].
  apply Forall_app; split; [apply IH|]. constructor; [|done]. by apply Z.mod_pos_bound.
Qed.

Lemma from_limbs_bound B bs :
  0 < B → Forall (λ x, 0 ≤ x < B) bs → 0 ≤ from_limbs B bs < B ^ len bs.
Proof.
  intros HB. induction bs as [|b bs IH] using rev_ind; intros Hwf; [by vm_compute|].
  apply Forall_app in Hwf as [Hbs [Hb _]%Forall_cons].
  rw from_limbs_snoc. unfold len in *. rw length_app Nat2Z.inj_add Z.pow_add_r; [|lia..].
  specialize (IH Hbs). change (Z.of_nat (length [b])) with 1. rw Z.pow_1_r. nia.
Qed.

Lemma be_limbs_from B bs :
  0 < B → Forall (λ x, 0 ≤ x < B) bs → be_limbs B (length bs) (from_limbs B bs) = bs.
Proof.
  intros HB. induction bs as [|b bs IH] using rev_ind; intros Hwf; [done|].
  apply Forall_app in Hwf as [Hbs [Hb _]%Forall_cons].
  rw length_app Nat.add_comm /= from_limbs_snoc.
  rw Z.add_comm Z.div_add; [|lia]. rw (Z.div_small b); [|lia].
  rw Z.mod_add; [|lia]. rw Z.mod_small; [|lia]. by rw Z.add_0_l IH.
Qed.

Lemma wf_bytes_limbs bs : wf_bytes bs ↔ Forall (λ x, 0 ≤ x < 256) bs.
Proof. apply Forall_iff. intros x. mlia. Qed.

Lemma be_bytes_wf n z : wf_bytes (be_bytes n z).
Proof. apply wf_bytes_limbs, be_limbs_bound. lia. Qed.

Lemma from_be_bound bs : wf_bytes bs → 0 ≤ from_be bs < 256 ^ len bs.
Proof. intros ?%wf_bytes_limbs. apply from_limbs_bound; [lia|done]. Qed.

Lemma be_bytes_from_be bs : wf_bytes bs → be_bytes (length bs) (from_be bs) = bs.
Proof. intros ?%wf_bytes_limbs. apply be_limbs_from; [lia|done]. Qed.

Lemma from_be_inj bs cs :
  wf_bytes bs → wf_bytes cs → length bs = length cs → from_be bs = from_be cs → bs = cs.
Proof.
  intros Hb Hc Hl Heq. rw -(be_bytes_from_be bs) // -(be_bytes_from_be cs) // Hl Heq //.
Qed.

Lemma hash_iter_elem {K V} `{HashIter K} (m : gmap K V) k v :
  (k, v) ∈ hash_iter m ↔ m !! k = Some v.
Proof. rw hash_iter_perm. apply elem_of_map_to_list. Qed.

Lemma reject_if_ok {E} b (e : E) : reject_if b e = Ok tt ↔ b = false.
Proof. unfold reject_if. by destruct b. Qed.

Lemma bind_ok {E A B} (r : result E A) (k : A → result E B) b :
  result_bind r k = Ok b ↔ ∃ a, r = Ok a ∧ k a = Ok b.
Proof. destruct r; simpl; naive_solver. Qed.

Lemma then_ok {E B} (r : result E unit) (k : result E B) b : result_bind r (λ _, k) = Ok b ↔ r = Ok tt ∧ k = Ok b.
Proof. destruct r as [[]|]; simpl; naive_solver. Qed.

Lemma try_each_ok {E A} (f : A → result E ()) xs :
  try_each f xs = Ok () ↔ Forall (λ x, f x = Ok ()) xs.
Proof.
  induction xs as [|x xs IH]; simpl; [by split; constructor|].
  rw Forall_cons -IH. destruct (f x) as [[]|e]; simpl; [tauto|].
  split; [done|]. by intros [? _].
Qed.

Lemma try_collect_ok {E A B} (f : A → result E B) xs ys :
  try_collect f xs = Ok ys ↔ Forall2 (λ x y, f x = Ok y) xs ys.
Proof.
  revert ys; induction xs as [|x xs IH]; intros ys; simpl.
  { split; [intros [= <-]; constructor|by inversion 1]. }
  split.
  - destruct (f x) as [y|e] eqn:Hx; [|done]. simpl.
    destruct (try_collect f xs) as [zs|e] eqn:Hxs; [|done].
    intros [= <-]. constructor; [done|]. by apply IH.
  - intros (y & ys' & Hy & Hys%IH & ->)%Forall2_cons_inv_l. by rw Hy /= Hys.
Qed.

Lemma try_collect_elem {E A B} (f : A → result E B) xs ys y :
  try_collect f xs = Ok ys → y ∈ ys → ∃ x, x ∈ xs ∧ f x = Ok y.
Proof.
  rw try_collect_ok list_elem_of_lookup. intros Hf [i Hi]. destruct (Forall2_lookup_r _ _ _ _ _ Hf Hi) as (x & Hx & Hy).
  exists x. split; [by eapply list_elem_of_lookup_2|done].
Qed.

Lemma try_collect_length {E A B} (f : A → result E B) xs ys : try_collect f xs = Ok ys → length ys = length xs.
Proof. rw try_collect_ok. intros Hf. symmetry. by eapply Forall2_length. Qed.

Lemma ok_or_ok {E A} (o : option A) (e : E) x : ok_or o e = Ok x ↔ o = Some x.
Proof. destruct o; simpl; split; congruence. Qed.

Lemma reject_if_unit {E} b (e : E) u : reject_if b e = Ok u → b = false.
Proof. by destruct b. Qed.

(** Membership in the results of the standard list functions. *)
Lemma filter_elem {A} (f : A → bool) l x : x ∈ List.filter f l ↔ x ∈ l ∧ f x = true.
Proof. by rw !list_elem_of_In filter_In. Qed.

Lemma list_filter_nil {A} (f : A → bool) l : (∀ x, x ∈ l → f x = false) → List.filter f l = [].
Proof.
  intros Hf. destruct (List.filter f l) as [|y k] eqn:He; [done|]. assert (y ∈ List.filter f l) as [Hy Ht]%filter_elem by (rw He; constructor).
  by rw Hf in Ht.
Qed.

Lemma find_elem {A} (f : A → bool) l x : List.find f l = Some x → x ∈ l ∧ f x = true.
Proof. intros H%find_some. by rw list_elem_of_In. Qed.

Lemma find_none_elem {A} (f : A → bool) l x : List.find f l = None → x ∈ l → f x = false.
Proof. intros H ?%list_elem_of_In. by eapply find_none. Qed.

Lemma find_filter {A} (f g : A → bool) l : List.find f (List.filter g l) = List.find (λ x, g x && f x) l.
Proof. induction l as [|x l IH]; simpl; [done|]. destruct (g x); simpl; [by destruct (f x)|done]. Qed.

Lemma filter_map_comm {A B} (g : A → B) (f : B → bool) l : List.filter f (map g l) = map g (List.filter (λ x, f (g x)) l).
Proof. induction l as [|x l IH]; simpl; [done|]. rw IH. by destruct (f (g x)). Qed.

Lemma nodup_key {A B} (f : A → B) l x y : NoDup (map f l) → x ∈ l → y ∈ l → f x = f y → x = y.
Proof.
  intros Hnd Hx Hy Heq. apply list_elem_of_lookup in Hx as [i Hi], Hy as [j Hj]. assert (i = j) as ->; [|congruence].
  eapply NoDup_lookup; [exact Hnd|rw list_lookup_fmap Hi //|rw list_lookup_fmap Hj /= Heq //].
Qed.

Lemma nodup_filter_key {A B} (f : A → B) g l : NoDup (map f l) → NoDup (map f (List.filter g l)).
Proof.
  induction l as [|x l IH]; simpl; [done|]. intros [Hx Hl]%NoDup_cons. destruct (g x); simpl; [|by apply IH].
  apply NoDup_cons. split; [|by apply IH]. intros (y & Hxy & [Hy _]%filter_elem)%list_elem_of_fmap. apply Hx, list_elem_of_fmap. eauto.
Qed.

Lemma existsb_elem {A} (f : A → bool) l : existsb f l = true ↔ ∃ x, x ∈ l ∧ f x = true.
Proof. rw existsb_exists. by setoid_rewrite list_elem_of_In. Qed.

Lemma existsb_false {A} (f : A → bool) l : existsb f l = false ↔ ∀ x, x ∈ l → f x = false.
Proof.
  split.
  - intros H x Hx. destruct (f x) eqn:Hf; [|done]. rw -H. symmetry. apply existsb_elem; eauto.
  - intros H. destruct (existsb f l) eqn:He; [|done]. apply existsb_elem in He as (x & Hx & Hf). by rw H // in Hf.
Qed.

Lemma flat_map_elem {A B} (f : A → list B) l y : y ∈ flat_map f l ↔ ∃ x, x ∈ l ∧ y ∈ f x.
Proof. rw list_elem_of_In in_flat_map. by setoid_rewrite list_elem_of_In. Qed.

(** The middle of three concatenated lists, addressed by position. *)
Lemma slice_middle {A} (l1 l2 l3 : list A) a b :
  a = length l1 → b = (length l1 + length l2)%nat → slice a b (l1 ++ l2 ++ l3) = l2.
Proof.
  intros -> ->. unfold slice. rw drop_app_length. apply take_app_length'. lia.
Qed.

Lemma slice_last {A} (l1 l2 : list A) a b :
  a = length l1 → b = (length l1 + length l2)%nat → slice a b (l1 ++ l2) = l2.
Proof. intros Ha Hb. rw -{1}(app_nil_r l2). by apply slice_middle. Qed.

Lemma take_drop_next {A} n m k (l : list A) :
  k = (n + m)%nat → take m (drop n l) ++ drop k l = drop n l.
Proof. intros ->. rw -drop_drop. apply take_drop. Qed.

#[export] Hint Rewrite @length_be_limbs @from_limbs_snoc : rust.
#[export] Hint Resolve be_bytes_wf : rust.

#[global] Opaque be_limbs.
