(* ===== verification/Text.v ===== *)
(** * Rust text

    The parts of [str], [char] and the integer parsers that the source uses.
    A Rust string is its UTF-8 byte sequence, a [list Z]; every operation below
    that looks at characters only distinguishes ASCII characters, except
    [trim], which knows the multi-byte encodings of Unicode white space. *)

From S2P Require Import Prelude.

Abbreviation str := (list Z).

(** A string literal. *)
Definition lit (s : string) : str := map (λ c, Z.of_N (N_of_ascii c)) (list_ascii_of_string s).

(** [a == "literal"] *)
Definition seq_b (a : str) (b : string) : bool := bool_decide (a = lit b).

(** ** Characters *)

Definition is_ascii_digit (c : Z) : bool := (48 <=? c) && (c <=? 57).
Definition is_ascii_lowercase (c : Z) : bool := (97 <=? c) && (c <=? 122).
Definition is_ascii_uppercase (c : Z) : bool := (65 <=? c) && (c <=? 90).
Definition is_ascii_alphabetic (c : Z) : bool := is_ascii_lowercase c || is_ascii_uppercase c.
Definition is_ascii_alphanumeric (c : Z) : bool := is_ascii_alphabetic c || is_ascii_digit c.
Definition is_ascii (s : str) : bool := forallb (λ c, c <? 128) s.

Definition ascii_lower (c : Z) : Z := if is_ascii_uppercase c then c + 32 else c.
Definition to_ascii_lowercase (s : str) : str := map ascii_lower s.
Definition eq_ignore_ascii_case (s t : str) : bool :=
  bool_decide (to_ascii_lowercase s = to_ascii_lowercase t).

(** [char::to_digit(radix)] for a radix of at most 16. *)
Definition to_digit (radix c : Z) : option Z :=
  let d := if is_ascii_digit c then c - 48
           else if is_ascii_lowercase c then c - 87
           else if is_ascii_uppercase c then c - 55
           else radix in
  if d <? radix then Some d else None.

(** [char::from_digit] for a digit below 16 (lowercase). *)
Definition from_digit (d : Z) : Z := if d <? 10 then 48 + d else 87 + d.

(** ** Searching and splitting *)

Fixpoint strip_prefix (p s : str) : option str :=
  match p, s with
  | [], _ => Some s
  | a :: p, b :: s => if a =? b then strip_prefix p s else None
  | _ :: _, [] => None
  end.

Definition starts_with (p s : str) : bool := bool_decide (is_Some (strip_prefix p s)).
Definition ends_with (p s : str) : bool := starts_with (reverse p) (reverse s).

Definition contains_char (c : Z) (s : str) : bool := existsb (Z.eqb c) s.

Fixpoint contains_str (p s : str) : bool :=
  starts_with p s || match s with [] => false | _ :: s => contains_str p s end.

(** [s.split_once(c)] *)
Fixpoint split_once (c : Z) (s : str) : option (str * str) :=
  match s with
  | [] => None
  | d :: s =>
      if c =? d then Some ([], s)
      else match split_once c s with
           | Some (a, b) => Some (d :: a, b)
           | None => None
           end
  end.

(** [s.split(c)]: always at least one piece. *)
Fixpoint split (c : Z) (s : str) : list str :=
  match s with
  | [] => [[]]
  | d :: s =>
      if c =? d then [] :: split c s
      else match split c s with
           | piece :: rest => (d :: piece) :: rest
           | [] => [[d]]
           end
  end.

(** [s.lines()]: pieces between line feeds, without a trailing carriage
    return, and without the empty piece after a final line feed. *)
Definition strip_cr (l : str) : str :=
  match last l with
  | Some c => if c =? 13 then removelast l else l
  | None => l
  end.

Definition lines (s : str) : list str :=
  let pieces := split 10 s in
  let pieces := match last pieces with Some [] => removelast pieces | _ => pieces end in
  map strip_cr pieces.

Fixpoint join (sep : str) (l : list str) : str :=
  match l with
  | [] => []
  | [s] => s
  | s :: l => s ++ sep ++ join sep l
  end.

(** ** Trimming *)

(** UTF-8 encodings of the characters with the Unicode White_Space property. *)
Definition white_space : list str :=
  [[9]; [10]; [11]; [12]; [13]; [32]; [194; 133]; [194; 160]; [225; 154; 128];
   [226; 128; 128]; [226; 128; 129]; [226; 128; 130]; [226; 128; 131]; [226; 128; 132];
   [226; 128; 133]; [226; 128; 134]; [226; 128; 135]; [226; 128; 136]; [226; 128; 137];
   [226; 128; 138]; [226; 128; 168]; [226; 128; 169]; [226; 128; 175]; [226; 129; 159];
   [227; 128; 128]].

Fixpoint strip_one (pats : list str) (s : str) : option str :=
  match pats with
  | [] => None
  | p :: pats => match strip_prefix p s with Some r => Some r | None => strip_one pats s end
  end.

Fixpoint strip_many (pats : list str) (fuel : nat) (s : str) : str :=
  match fuel with
  | O => s
  | S fuel => match strip_one pats s with Some r => strip_many pats fuel r | None => s end
  end.

Definition trim_start (s : str) : str := strip_many white_space (length s) s.
Definition trim_end (s : str) : str := reverse (strip_many (map reverse white_space) (length s) (reverse s)).
Definition trim (s : str) : str := trim_end (trim_start s).

(** [s.split_whitespace()] *)
Definition flush (cur : str) : list str := match cur with [] => [] | _ => [cur] end.

Fixpoint words (fuel : nat) (cur s : str) : list str :=
  match fuel with
  | O => flush cur
  | S fuel =>
      match strip_one white_space s with
      | Some rest => flush cur ++ words fuel [] rest
      | None => match s with
                | [] => flush cur
                | c :: s => words fuel (cur ++ [c]) s
                end
      end
  end.

Definition split_whitespace (s : str) : list str := words (length s) [] s.

(** [s.find(p)] as what follows the first occurrence: [&s[s.find(p)? + p.len()..]] *)
Fixpoint after (p s : str) : option str :=
  match strip_prefix p s with
  | Some r => Some r
  | None => match s with
            | [] => None
            | _ :: s => after p s
            end
  end.

(** [s.trim_end_matches(c)] *)
Definition trim_end_matches (c : Z) (s : str) : str := reverse (strip_many [[c]] (length s) (reverse s)).

(** ** Numbers *)

(** The digit loop of [from_str_radix], with its overflow checks. *)
Fixpoint digits_value (radix max acc : Z) (s : str) : option Z :=
  match s with
  | [] => Some acc
  | c :: s =>
      match to_digit radix c with
      | None => None
      | Some d =>
          if max <? acc * radix + d then None else digits_value radix max (acc * radix + d) s
      end
  end.

(** [u8/u16/...::from_str_radix]: an optional [+], then at least one digit. *)
Definition parse_uint (radix max : Z) (s : str) : option Z :=
  match s with
  | [] => None
  | c :: r =>
      if c =? 43 then match r with [] => None | _ => digits_value radix max 0 r end
      else digits_value radix max 0 s
  end.

Definition parse_u8 (s : str) : option Z := parse_uint 10 U8_MAX s.
Definition parse_u16 (s : str) : option Z := parse_uint 10 U16_MAX s.
Definition parse_u64 (s : str) : option Z := parse_uint 10 U64_MAX s.

(** Digits of a non-negative number, most significant first; [fuel] bounds
    the number of digits. *)
Fixpoint show_fuel (radix : Z) (fuel : nat) (z : Z) : str :=
  match fuel with
  | O => []
  | S fuel =>
      if z <? radix then [from_digit z]
      else show_fuel radix fuel (z / radix) ++ [from_digit (z mod radix)]
  end.

(** [z.to_string()] for unsigned integers and [{z:x}]; a number has at most
    as many digits as bits. *)
Definition show_radix (radix z : Z) : str := show_fuel radix (S (Z.to_nat (Z.log2 z))) z.
Definition dec (z : Z) : str := show_radix 10 z.
Definition hex (z : Z) : str := show_radix 16 z.

(** [{b:02x}] for a byte. *)
Definition hex02 (b : Z) : str := [from_digit (b / 16); from_digit (b mod 16)].

(** [{z:08x}] *)
Definition hex_pad (width : nat) (z : Z) : str :=
  replicate (width - length (hex z)) 48 ++ hex z.

(** [z.to_string()] for signed integers. *)
Definition dec_signed (z : Z) : str := if z <? 0 then 45 :: dec (- z) else dec z.

(** ** Lemmas *)

(** Characters that are neither white space nor part of a white-space
    encoding: visible ASCII. *)
Definition graphic (c : Z) : Prop := 33 ≤ c ≤ 126.

Lemma strip_prefix_app p s : strip_prefix p (p ++ s) = Some s.
Proof. induction p as [|c p IH]; simpl; [done|]. by rw Z.eqb_refl. Qed.

Lemma strip_prefix_Some p s r : strip_prefix p s = Some r ↔ s = p ++ r.
Proof.
  split; [|by intros ->; apply strip_prefix_app].
  revert s; induction p as [|c p IH]; intros [|d s]; simpl; try by intros [= ->].
  case_match; [|done]. to_prop. intros ->%IH. by subst.
Qed.

Lemma starts_with_true p s : starts_with p s = true ↔ ∃ r, s = p ++ r.
Proof.
  unfold starts_with. rw bool_decide_eq_true. split.
  - intros [r Hr%strip_prefix_Some]. by exists r.
  - intros [r ->]. exists r. apply strip_prefix_app.
Qed.

(** A pattern list whose patterns all begin outside the visible range never
    matches a visible string. *)
Lemma strip_one_graphic pats s :
  Forall (λ p, match p with c :: _ => ¬ graphic c | [] => False end) pats →
  match s with c :: _ => graphic c | [] => True end →
  strip_one pats s = None.
Proof.
  intros Hp Hs. induction Hp as [|p pats Hc _ IH]; simpl; [done|].
  destruct p as [|c p]; [done|]. destruct s as [|d s]; simpl; [done|].
  destruct (Z.eqb_spec c d); [by subst|done].
Qed.

Lemma strip_many_graphic pats n s :
  Forall (λ p, match p with c :: _ => ¬ graphic c | [] => False end) pats →
  match s with c :: _ => graphic c | [] => True end →
  strip_many pats n s = s.
Proof. intros Hp Hs. destruct n; simpl; [done|]. by rw strip_one_graphic. Qed.

Lemma white_space_not_graphic :
  Forall (λ p, match p with c :: _ => ¬ graphic c | [] => False end) white_space.
Proof. unfold graphic. repeat constructor; lia. Qed.

Lemma white_space_rev_not_graphic :
  Forall (λ p, match p with c :: _ => ¬ graphic c | [] => False end) (map reverse white_space).
Proof. unfold graphic. repeat constructor; simpl; lia. Qed.

Lemma trim_graphic s : Forall graphic s → trim s = s.
Proof.
  intros Hs. unfold trim, trim_start.
  rw strip_many_graphic; [|exact white_space_not_graphic|by destruct Hs].
  unfold trim_end. rw strip_many_graphic.
  - by rw reverse_involutive.
  - exact white_space_rev_not_graphic.
  - assert (Forall graphic (reverse s)) as Hr by (by apply Forall_reverse). by destruct Hr.
Qed.

Lemma split_once_app c s t :
  c ∉ s → split_once c (s ++ c :: t) = Some (s, t).
Proof.
  induction s as [|d s IH]; simpl; intros Hc; [by rw Z.eqb_refl|].
  apply not_elem_of_cons in Hc as [Hd Hc]. rw IH //. by rw (proj2 (Z.eqb_neq c d)).
Qed.

Lemma split_once_None c s : c ∉ s → split_once c s = None.
Proof.
  induction s as [|d s IH]; simpl; intros Hc; [done|].
  apply not_elem_of_cons in Hc as [Hd Hc]. rw IH //. by rw (proj2 (Z.eqb_neq c d)).
Qed.

Lemma split_once_Some c s a b : split_once c s = Some (a, b) → s = a ++ c :: b ∧ c ∉ a.
Proof.
  revert a; induction s as [|d s IH]; simpl; intros a; [done|].
  destruct (Z.eqb_spec c d) as [->|Hne].
  { intros [= <- <-]. split; [done|]. apply not_elem_of_nil. }
  destruct (split_once c s) as [[a' b']|]; [|done]. intros [= <- <-].
  destruct (IH _ eq_refl) as [-> Ha]. split; [done|]. by apply not_elem_of_cons.
Qed.

Lemma contains_char_true c s : contains_char c s = true ↔ c ∈ s.
Proof.
  unfold contains_char. rw existsb_exists. rw list_elem_of_In. split.
  - intros (x & Hx & ->%Z.eqb_eq). done.
  - intros Hc. exists c. by rw Z.eqb_refl.
Qed.

Lemma contains_char_false c s : contains_char c s = false ↔ c ∉ s.
Proof. rw -contains_char_true. by destruct (contains_char c s). Qed.

Lemma to_digit_from_digit radix d :
  radix ≤ 16 → 0 ≤ d < radix → to_digit radix (from_digit d) = Some d.
Proof.
  intros Hr Hd.
  unfold to_digit, from_digit, is_ascii_digit, is_ascii_lowercase, is_ascii_uppercase.
  repeat case_match; to_prop; try (f_equal; lia); exfalso;
    repeat match goal with H : andb _ _ = false |- _ => apply andb_false_iff in H as [?|?] end;
    to_prop; lia.
Qed.

Lemma digits_value_app radix max acc s t :
  digits_value radix max acc (s ++ t) =
    digits_value radix max acc s ≫= λ v, digits_value radix max v t.
Proof.
  revert acc; induction s as [|c s IH]; intros acc; simpl; [done|].
  destruct (to_digit radix c); [|done]. by case_match.
Qed.

Lemma show_fuel_parse radix max n z :
  2 ≤ radix ≤ 16 → 0 ≤ z ≤ max → z < 2 ^ Z.of_nat n →
  digits_value radix max 0 (show_fuel radix n z) = Some z.
Proof.
  intros Hr. revert z; induction n as [|n IH]; intros z Hz Hn; simpl.
  { f_equal. simpl in Hn. lia. }
  case_match; to_prop.
  { simpl. rw to_digit_from_digit; [|lia..]. case_match; to_prop; [lia|]. done. }
  rw Nat2Z.inj_succ Z.pow_succ_r in Hn; [|lia].
  assert (0 ≤ z / radix ≤ max ∧ z / radix < 2 ^ Z.of_nat n) as [Hz' Hn'].
  { repeat split; [apply Z.div_pos; lia| |apply Z.div_lt_upper_bound; nia].
    transitivity z; [|lia]. apply Z.div_le_upper_bound; nia. }
  rw digits_value_app (IH _ Hz' Hn') /=.
  pose proof (Z.mod_pos_bound z radix) as Hm. pose proof (Z_div_mod_eq_full z radix) as Hd.
  rw to_digit_from_digit; [|lia..].
  replace (z / radix * radix + z mod radix) with z by lia.
  case_match; to_prop; [lia|done].
Qed.

Lemma show_radix_parse radix max z :
  2 ≤ radix ≤ 16 → 0 ≤ z ≤ max → digits_value radix max 0 (show_radix radix z) = Some z.
Proof.
  intros Hr Hz. apply show_fuel_parse; [done..|].
  rw Nat2Z.inj_succ Z2Nat.id; [|apply Z.log2_nonneg].
  destruct (decide (z = 0)) as [->|]; [done|]. apply Z.log2_spec. lia.
Qed.

Lemma from_digit_range d : 0 ≤ d < 16 → 48 ≤ from_digit d ≤ 57 ∨ 97 ≤ from_digit d ≤ 102.
Proof. unfold from_digit. case_match; to_prop; lia. Qed.

(** Every printed digit is a digit character of its radix. *)
Lemma show_fuel_digits radix n z :
  2 ≤ radix ≤ 16 → 0 ≤ z →
  Forall (λ c, ∃ d, 0 ≤ d < radix ∧ c = from_digit d) (show_fuel radix n z).
Proof.
  intros Hr. revert z; induction n as [|n IH]; intros z Hz; simpl; [done|].
  case_match; to_prop.
  { constructor; [|done]. exists z. lia. }
  apply Forall_app; split; [apply IH, Z.div_pos; lia|]. constructor; [|done].
  exists (z mod radix). split; [apply Z.mod_pos_bound; lia|done].
Qed.

Lemma show_radix_digits radix z :
  2 ≤ radix ≤ 16 → 0 ≤ z →
  Forall (λ c, ∃ d, 0 ≤ d < radix ∧ c = from_digit d) (show_radix radix z).
Proof. apply show_fuel_digits. Qed.

Lemma show_fuel_not_nil radix n z : show_fuel radix (S n) z ≠ [].
Proof. simpl. case_match; [done|]. intros [_ ?]%app_nil. done. Qed.

Lemma show_radix_not_nil radix z : show_radix radix z ≠ [].
Proof. apply show_fuel_not_nil. Qed.

Lemma dec_digits z : 0 ≤ z → Forall (λ c, 48 ≤ c ≤ 57) (dec z).
Proof.
  intros Hz. eapply Forall_impl; [apply show_radix_digits; lia|].
  intros c (d & Hd & ->). unfold from_digit. case_match; to_prop; lia.
Qed.

Lemma hex_digits z : 0 ≤ z → Forall (λ c, 48 ≤ c ≤ 57 ∨ 97 ≤ c ≤ 102) (hex z).
Proof.
  intros Hz. eapply Forall_impl; [apply show_radix_digits; lia|].
  intros c (d & Hd & ->). by apply from_digit_range.
Qed.

(** ** Splitting *)

Lemma join_cons sep s l :
  join sep (s :: l) = s ++ match l with [] => [] | _ => sep ++ join sep l end.
Proof. destruct l; simpl; [by rw app_nil_r|done]. Qed.

Lemma split_app c l rest : c ∉ l → split c (l ++ c :: rest) = l :: split c rest.
Proof.
  induction l as [|d l IH]; intros Hl; cbn [app split]; [by rw Z.eqb_refl|].
  apply not_elem_of_cons in Hl as [Hc Hl]. rw (proj2 (Z.eqb_neq c d)) //. by rw IH.
Qed.

Lemma split_none c l : c ∉ l → split c l = [l].
Proof.
  induction l as [|d l IH]; intros Hl; cbn [split]; [done|].
  apply not_elem_of_cons in Hl as [Hc Hl]. rw (proj2 (Z.eqb_neq c d)) //. by rw IH.
Qed.

Lemma split_join c l : l ≠ [] → Forall (λ s, c ∉ s) l → split c (join [c] l) = l.
Proof.
  intros Hn Hl. induction Hl as [|s l Hs Hl IH]; [done|]. rw join_cons. destruct l as [|t l].
  - rw app_nil_r. by apply split_none.
  - cbn [app]. rw split_app //. by rw IH.
Qed.

Lemma not_in_join c sep l : c ∉ sep → Forall (λ s, c ∉ s) l → c ∉ join sep l.
Proof.
  intros Hsep. induction 1 as [|s l Hs Hl IH]; [apply not_elem_of_nil|]. rw join_cons.
  apply not_elem_of_app; split; [done|]. destruct l; [apply not_elem_of_nil|].
  by apply not_elem_of_app.
Qed.

Lemma dec_not_in c z : 0 ≤ z → ¬ (48 ≤ c ≤ 57) → c ∉ dec z.
Proof. intros Hz Hc Hin. by pose proof (proj1 (Forall_forall _ _) (dec_digits z Hz) c Hin). Qed.

(** Printing an unsigned integer and parsing it back. *)
Lemma parse_uint_dec max z : 0 ≤ z ≤ max → parse_uint 10 max (dec z) = Some z.
Proof.
  intros Hz. pose proof (show_radix_parse 10 max z ltac:(lia) Hz) as Hp.
  pose proof (dec_digits z ltac:(lia)) as Hd. pose proof (show_radix_not_nil 10 z) as Hn.
  unfold parse_uint, dec in *. destruct (show_radix 10 z) as [|c s] eqn:Hs; [done|].
  apply Forall_cons in Hd as [Hc _]. case_match; to_prop; [lia|]. done.
Qed.

Lemma seq_b_eq a b : seq_b a b = true ↔ a = lit b.
Proof. apply bool_decide_eq_true. Qed.

Lemma seq_b_lit b : seq_b (lit b) b = true.
Proof. by apply seq_b_eq. Qed.

Lemma digits_value_bound radix max acc s v :
  0 ≤ acc ≤ max → 0 ≤ radix → digits_value radix max acc s = Some v → 0 ≤ v ≤ max.
Proof.
  intros Ha Hr. revert acc Ha; induction s as [|c s IH]; simpl; intros acc Ha; [by intros [= <-]|].
  destruct (to_digit radix c) as [d|] eqn:Hd; [|done]. case_match; [done|]. to_prop.
  apply IH. split; [|lia]. assert (0 ≤ d); [|nia].
  unfold to_digit, is_ascii_digit, is_ascii_lowercase, is_ascii_uppercase in Hd.
  repeat case_match; to_prop; simplify_eq; lia.
Qed.

Lemma parse_uint_bound radix max s v :
  0 ≤ max → 0 ≤ radix → parse_uint radix max s = Some v → 0 ≤ v ≤ max.
Proof.
  intros Hm Hr. unfold parse_uint. repeat case_match; try done;
    intros Hv; eapply digits_value_bound; try exact Hv; lia.
Qed.

#[export] Hint Resolve dec_digits hex_digits : rust.
