(* ===== verification/Net.v ===== *)
(** * Network addresses

    [std::net::IpAddr] and [SocketAddr]: representation, the address parser
    behind [str::parse::<IpAddr>()], [Display], and the classification
    predicates the source calls.  An IPv4 address is its [u32] value and an
    IPv6 address its [u128] value, as [u32::from] and [u128::from] give them. *)

From S2P Require Import Prelude Text.

Inductive IpAddr : Type :=
| V4 (a : Z)
| V6 (a : Z).

#[export] Instance IpAddr_eq_dec : EqDecision IpAddr.
Proof. solve_decision. Defined.

#[export] Instance IpAddr_countable : Countable IpAddr.
Proof.
  refine (inj_countable'
    (λ ip, match ip with V4 a => inl a | V6 a => inr a end)
    (λ s, match s with inl a => V4 a | inr a => V6 a end) _).
  by intros [].
Defined.

Definition wf_ip (ip : IpAddr) : Prop :=
  match ip with
  | V4 a => is_u32 a
  | V6 a => is_u128 a
  end.

Record SocketAddr := mkSocketAddr { ip : IpAddr; port : Z }.

#[export] Instance SocketAddr_eq_dec : EqDecision SocketAddr.
Proof. solve_decision. Defined.

Definition is_ipv4 (a : IpAddr) : bool := match a with V4 _ => true | V6 _ => false end.
Definition is_ipv6 (a : IpAddr) : bool := negb (is_ipv4 a).

Definition v4_octets (a : Z) : list Z := be_bytes 4 a.
Definition v6_octets (a : Z) : list Z := be_bytes 16 a.
Definition segments (a : Z) : list Z := be_limbs 65536 8 a.

Definition to_ipv6_mapped (a : Z) : Z := 65535 * 2 ^ 32 + a.
Definition to_ipv4_mapped (a : Z) : option Z :=
  if a / 2 ^ 32 =? 65535 then Some (a mod 2 ^ 32) else None.

Definition to_canonical (a : IpAddr) : IpAddr :=
  match a with
  | V6 b => match to_ipv4_mapped b with Some c => V4 c | None => a end
  | V4 _ => a
  end.

Definition is_loopback (a : IpAddr) : bool :=
  match a with V4 b => b / 2 ^ 24 =? 127 | V6 b => b =? 1 end.
Definition is_unspecified (a : IpAddr) : bool := match a with V4 b => b =? 0 | V6 b => b =? 0 end.
Definition is_multicast (a : IpAddr) : bool :=
  match a with
  | V4 b => (224 <=? b / 2 ^ 24) && (b / 2 ^ 24 <=? 239)
  | V6 b => b / 2 ^ 120 =? 255
  end.
Definition is_link_local_v4 (b : Z) : bool := b / 2 ^ 16 =? 169 * 256 + 254.

(** ** Parsing

    A reader takes the remaining input and gives a value with the rest; a
    failed reader consumes nothing. *)

Fixpoint span_digits (radix : Z) (s : str) : str * str :=
  match s with
  | [] => ([], [])
  | c :: r =>
      match to_digit radix c with
      | Some _ => let '(a, b) := span_digits radix r in (c :: a, b)
      | None => ([], s)
      end
  end.

Definition read_number (radix : Z) (max_digits : nat) (zero_prefix : bool) (max : Z) (s : str) :
    option (Z * str) :=
  let '(ds, rest) := span_digits radix s in
  if (length ds =? 0)%nat || (max_digits <? length ds)%nat then None
  else if negb zero_prefix && bool_decide (head ds = Some 48) && (1 <? length ds)%nat then None
  else match digits_value radix max 0 ds with
       | Some v => Some (v, rest)
       | None => None
       end.

Definition read_given_char (c : Z) (s : str) : option str :=
  match s with
  | d :: r => if c =? d then Some r else None
  | [] => None
  end.

Definition read_separator {A} (sep : Z) (first : bool) (inner : str → option (A * str)) (s : str) :
    option (A * str) :=
  if first then inner s else read_given_char sep s ≫= inner.

Definition read_octet : str → option (Z * str) := read_number 10 3 false U8_MAX.

Fixpoint read_octets (todo : nat) (first : bool) (s : str) : option (list Z * str) :=
  match todo with
  | O => Some ([], s)
  | S todo =>
      match read_separator 46 first read_octet s with
      | Some (o, r) =>
          match read_octets todo false r with
          | Some (os, r) => Some (o :: os, r)
          | None => None
          end
      | None => None
      end
  end.

Definition read_ipv4 (s : str) : option (Z * str) :=
  match read_octets 4 true s with
  | Some (os, r) => Some (from_be os, r)
  | None => None
  end.

Fixpoint read_groups (todo : nat) (first : bool) (s : str) : list Z * bool * str :=
  match todo with
  | O => ([], false, s)
  | S todo =>
      let v4 := if (1 <=? todo)%nat then read_separator 58 first read_ipv4 s else None in
      match v4 with
      | Some (a, r) => ([a / 65536; a mod 65536], true, r)
      | None =>
          match read_separator 58 first (read_number 16 4 true U16_MAX) s with
          | Some (g, r) => let '(gs, f, r) := read_groups todo false r in (g :: gs, f, r)
          | None => ([], false, s)
          end
      end
  end.

Definition read_ipv6 (s : str) : option (Z * str) :=
  let '(h, h4, r) := read_groups 8 true s in
  if (length h =? 8)%nat then Some (from_limbs 65536 h, r)
  else if h4 then None
  else match read_given_char 58 r ≫= read_given_char 58 with
       | None => None
       | Some r =>
           let '(t, _, r) := read_groups (7 - length h) true r in
           Some (from_limbs 65536 (h ++ replicate (8 - length h - length t) 0 ++ t), r)
       end.

(** [s.parse::<IpAddr>().ok()] *)
Definition parse_ip (s : str) : option IpAddr :=
  match read_ipv4 s with
  | Some (a, r) => match r with [] => Some (V4 a) | _ => None end
  | None =>
      match read_ipv6 s with
      | Some (a, r) => match r with [] => Some (V6 a) | _ => None end
      | None => None
      end
  end.

(** ** Printing *)

Definition show_v4 (a : Z) : str := join (lit ".") (map dec (v4_octets a)).

(** The first longest run of zero groups: the loop of [Display for Ipv6Addr]
    with its [longest] and [current] spans. *)
Fixpoint zero_run (i cur_start cur_len best_start best_len : nat) (gs : list Z) : nat * nat :=
  match gs with
  | [] => (best_start, best_len)
  | g :: gs =>
      if g =? 0 then
        let cur_start := if (cur_len =? 0)%nat then i else cur_start in
        let cur_len := S cur_len in
        if (best_len <? cur_len)%nat
        then zero_run (S i) cur_start cur_len cur_start cur_len gs
        else zero_run (S i) cur_start cur_len best_start best_len gs
      else zero_run (S i) 0 0 best_start best_len gs
  end.

Definition show_groups (gs : list Z) : str := join (lit ":") (map hex gs).

Definition show_v6 (a : Z) : str :=
  match to_ipv4_mapped a with
  | Some b => lit "::ffff:" ++ show_v4 b
  | None =>
      let gs := segments a in
      let '(start, n) := zero_run 0 0 0 0 0 gs in
      if (1 <? n)%nat
      then show_groups (take start gs) ++ lit "::" ++ show_groups (drop (start + n) gs)
      else show_groups gs
  end.

Definition show_ip (a : IpAddr) : str := match a with V4 b => show_v4 b | V6 b => show_v6 b end.

(** ** CIDR arithmetic

    [u32::MAX << (32 - prefix)] and its [u128] counterpart, with the
    special case for a zero prefix that avoids the over-wide shift. *)
Definition prefix_mask (width prefix : Z) : Z :=
  if prefix =? 0 then 0
  else Z.land (Z.shiftl (2 ^ width - 1) (width - prefix)) (2 ^ width - 1).

Definition mask_value (width prefix a : Z) : Z := Z.land a (prefix_mask width prefix).

#[global] Arguments read_octet : simpl never.
#[global] Arguments read_ipv4 : simpl never.
#[global] Arguments read_number : simpl never.
#[global] Arguments show_v4 : simpl never.
#[global] Arguments dec : simpl never.
#[global] Arguments hex : simpl never.

(** ** Lemmas *)

Definition not_digit_first (radix : Z) (s : str) : Prop :=
  match s with c :: _ => to_digit radix c = None | [] => True end.

Lemma span_digits_app radix ds rest :
  Forall (λ c, is_Some (to_digit radix c)) ds → not_digit_first radix rest →
  span_digits radix (ds ++ rest) = (ds, rest).
Proof.
  intros Hd Hr. induction Hd as [|c ds [d Hc] _ IH]; simpl.
  - destruct rest as [|c rest]; simpl; [done|]. simpl in Hr. by rw Hr.
  - by rw Hc IH.
Qed.

(** A printed number has no more digits than the largest value allows. *)
Lemma show_fuel_length radix n z k :
  2 ≤ radix → 0 ≤ z < radix ^ Z.of_nat k → (0 < k)%nat → (length (show_fuel radix n z) ≤ k)%nat.
Proof.
  intros Hr. revert z k; induction n as [|n IH]; intros z k Hz Hk; simpl; [lia|].
  case_match; to_prop; [simpl; lia|].
  destruct k as [|k]; [lia|]. rw length_app /=.
  rw Nat2Z.inj_succ Z.pow_succ_r in Hz; [|lia].
  assert (0 < k)%nat by (destruct k; simpl in Hz; lia).
  assert (0 ≤ z / radix < radix ^ Z.of_nat k) as Hd.
  { split; [apply Z.div_pos; lia|]. apply Z.div_lt_upper_bound; lia. }
  specialize (IH (z / radix) k Hd ltac:(done)). lia.
Qed.

(** The first printed digit is zero only for the number zero. *)
Lemma show_fuel_head radix n z :
  2 ≤ radix ≤ 16 → 0 < z → z < 2 ^ Z.of_nat n → head (show_fuel radix n z) ≠ Some 48.
Proof.
  intros Hr. revert z; induction n as [|n IH]; intros z Hz Hn; simpl; [done|].
  case_match; to_prop.
  - intros [= Hd]. unfold from_digit in Hd. case_match; to_prop; lia.
  - rw Nat2Z.inj_succ Z.pow_succ_r in Hn; [|lia].
    assert (0 < z / radix) by (apply Z.div_str_pos; lia).
    assert (z / radix < 2 ^ Z.of_nat n) as Hlt by (apply Z.div_lt_upper_bound; nia).
    specialize (IH (z / radix) ltac:(done) Hlt).
    destruct n as [|n]; [simpl in Hlt; lia|].
    destruct (show_fuel radix (S n) (z / radix)) as [|c s] eqn:Hs; [|done].
    by apply show_fuel_not_nil in Hs.
Qed.

Lemma read_number_show radix k zp max z rest :
  2 ≤ radix ≤ 16 → (0 < k)%nat → 0 ≤ z ≤ max → z < radix ^ Z.of_nat k →
  not_digit_first radix rest →
  read_number radix k zp max (show_radix radix z ++ rest) = Some (z, rest).
Proof.
  intros Hr Hk Hz Hzk Hrest. unfold read_number.
  rw span_digits_app //; last first.
  { eapply Forall_impl; [apply show_radix_digits; lia|].
    intros c (d & Hd & ->). rw to_digit_from_digit; [done|lia..]. }
  rw (proj2 (Nat.eqb_neq _ _)) /=; last first.
  { pose proof (show_radix_not_nil radix z). by destruct (show_radix radix z). }
  rw (proj2 (Nat.ltb_ge _ _)); last (apply show_fuel_length; lia).
  rw show_radix_parse //.
  destruct (negb zp && bool_decide (head (show_radix radix z) = Some 48)
            && (1 <? length (show_radix radix z))%nat) eqn:Hzero; [|done].
  exfalso. to_prop. destruct (decide (z = 0)) as [->|Hne].
  - unfold show_radix in *. simpl in *. rw (proj2 (Z.ltb_lt 0 radix)) in H0; simpl in *; lia.
  - apply (show_fuel_head radix (S (Z.to_nat (Z.log2 z))) z); [lia..| |done].
    rw Nat2Z.inj_succ Z2Nat.id; [apply Z.log2_spec; lia|apply Z.log2_nonneg].
Qed.

Lemma read_number_no_digit radix k zp max s :
  not_digit_first radix s → read_number radix k zp max s = None.
Proof. unfold read_number. destruct s as [|c s]; simpl; [done|]. by intros ->. Qed.

Lemma read_octet_dec o rest :
  is_u8 o → not_digit_first 10 rest → read_octet (dec o ++ rest) = Some (o, rest).
Proof. intros Ho Hr. apply read_number_show; [mlia|lia|mlia|mlia|done]. Qed.

Lemma read_separator_first {A} c (inner : str → option (A * str)) s :
  read_separator c true inner s = inner s.
Proof. done. Qed.

Lemma read_separator_next {A} c (inner : str → option (A * str)) s :
  read_separator c false inner (c :: s) = inner s.
Proof. unfold read_separator, read_given_char. by rw Z.eqb_refl. Qed.

Lemma read_separator_none {A} c (inner : str → option (A * str)) s :
  match s with d :: _ => d ≠ c | [] => True end → read_separator c false inner s = None.
Proof.
  unfold read_separator, read_given_char. destruct s as [|d s]; [done|].
  intros Hd. by rw (proj2 (Z.eqb_neq c d)).
Qed.

(** Octets in decimal, separated by dots, are read back in full. *)
Lemma read_octets_show os first rest :
  Forall is_u8 os → not_digit_first 10 rest → os ≠ [] →
  read_octets (length os) first
    ((if first then [] else [46]) ++ join (lit ".") (map dec os) ++ rest) = Some (os, rest).
Proof.
  intros Hos Hr. revert first. induction Hos as [|o os Ho _ IH]; intros first Hne; [done|].
  cbn [length read_octets map]. rw join_cons.
  assert (read_separator 46 first read_octet
    ((if first then [] else [46]) ++
     (dec o ++ match map dec os with [] => [] | _ => lit "." ++ join (lit ".") (map dec os) end)
     ++ rest) = Some (o, match os with [] => rest
                         | _ => 46 :: join (lit ".") (map dec os) ++ rest end)) as ->.
  { rw -app_assoc.
    assert (∀ s, read_separator 46 first read_octet ((if first then [] else [46]) ++ s)
                 = read_octet s) as -> by (by destruct first; intros s; [|apply read_separator_next]).
    destruct os; apply read_octet_dec; done. }
  destruct os as [|o' os]; [done|]. specialize (IH false ltac:(done)).
  change ([46] ++ ?x) with (46 :: x) in IH. by rw IH.
Qed.

(** IPv4 addresses survive printing and reading, whatever follows. *)
Lemma read_ipv4_show a rest :
  is_u32 a → not_digit_first 10 rest → read_ipv4 (show_v4 a ++ rest) = Some (a, rest).
Proof.
  intros Ha Hr. unfold read_ipv4, show_v4, v4_octets.
  pose proof (read_octets_show (be_bytes 4 a) true rest (be_bytes_wf 4 a) Hr) as Ho.
  rw length_be_limbs app_nil_l in Ho. rw Ho.
  - by rw from_limbs_be; [|lia|mlia].
  - intros Hn. by apply (f_equal length) in Hn; rw length_be_limbs in Hn.
Qed.

Lemma parse_ip_show_v4 a : is_u32 a → parse_ip (show_v4 a) = Some (V4 a).
Proof.
  intros Ha. unfold parse_ip. rw -(app_nil_r (show_v4 a)) read_ipv4_show //.
Qed.

(** *** IPv6 *)

Definition no_dot_first (s : str) : Prop := match s with c :: _ => c ≠ 46 | [] => True end.

(** What may follow a list of groups without being read as one more group. *)
Definition group_stop (s : str) : Prop := s = [] ∨ ∃ r, s = 58 :: 58 :: r.

Lemma read_octet_rest s o r : read_octet s = Some (o, r) → r = (span_digits 10 s).2.
Proof.
  unfold read_octet, read_number. destruct (span_digits 10 s) as [ds rest].
  repeat case_match; intros; by simplify_eq/=.
Qed.

Lemma span_digits_no_dot h rest :
  Forall (λ c, c ≠ 46) h → group_stop rest ∨ not_digit_first 10 rest ∧ no_dot_first rest →
  no_dot_first (span_digits 10 (h ++ rest)).2.
Proof.
  intros Hh Hr. induction Hh as [|c h Hc _ IH]; simpl.
  - destruct Hr as [[->|[r ->]]|[Hd Hn]]; [done..|].
    destruct rest as [|c rest]; [done|]. simpl in *. by rw Hd.
  - case_match; [|done]. by destruct (span_digits 10 (h ++ rest)).
Qed.

(** A run of characters without a dot is not the start of a dotted quad. *)
Lemma read_ipv4_no_dot h rest :
  Forall (λ c, c ≠ 46) h → group_stop rest ∨ not_digit_first 10 rest ∧ no_dot_first rest →
  read_ipv4 (h ++ rest) = None.
Proof.
  intros Hh Hr. unfold read_ipv4. cbn [read_octets]. rw read_separator_first.
  destruct (read_octet (h ++ rest)) as [[o r]|] eqn:Ho; [|done].
  apply read_octet_rest in Ho. pose proof (span_digits_no_dot h rest Hh Hr) as Hn.
  rw -Ho in Hn. by rw read_separator_none.
Qed.

Lemma hex_no_dot g : 0 ≤ g → Forall (λ c, c ≠ 46) (hex g).
Proof. intros Hg. eapply Forall_impl; [by apply hex_digits|]. simpl. lia. Qed.

Lemma show_groups_no_dot gs : Forall is_u16 gs → Forall (λ c, c ≠ 46) (show_groups gs).
Proof.
  unfold show_groups. intros Hgs. induction Hgs as [|g gs Hg _ IH]; [done|].
  cbn [map]. rw join_cons. apply Forall_app; split; [apply hex_no_dot; mlia|].
  destruct gs; [done|]. by constructor.
Qed.

Lemma read_hex g rest :
  is_u16 g → not_digit_first 16 rest →
  read_number 16 4 true U16_MAX (hex g ++ rest) = Some (g, rest).
Proof. intros Hg Hr. apply read_number_show; [lia|lia|mlia|mlia|done]. Qed.

Lemma read_groups_stop k first rest : group_stop rest → read_groups k first rest = ([], false, rest).
Proof.
  intros Hs. destruct k as [|k]; [done|]. cbn [read_groups].
  assert (∀ A (f : str → option (A * str)),
    f [] = None → (∀ r, f (58 :: r) = None) → read_separator 58 first f rest = None) as Hnone.
  { intros A f Hn Hc. destruct Hs as [->|[r ->]], first; rw ?read_separator_next; done || apply Hc. }
  rw (Hnone _ read_ipv4); [|done..]. rw (Hnone _ (read_number 16 4 true U16_MAX)); [|done..].
  by rw if_same.
Qed.

(** Groups in hexadecimal, separated by colons, are read back in full. *)
Lemma read_groups_show gs k first rest :
  Forall is_u16 gs → (length gs ≤ k)%nat → gs ≠ [] → group_stop rest →
  read_groups k first ((if first then [] else [58]) ++ show_groups gs ++ rest) = (gs, false, rest).
Proof.
  unfold show_groups. intros Hgs Hk Hne Hrest. revert k first Hk Hne.
  induction Hgs as [|g gs Hg Hgs IH]; intros k first Hk Hne; [done|].
  destruct k as [|k]; [simpl in Hk; lia|]. cbn [read_groups map]. rw join_cons -app_assoc.
  set (tl := match gs with [] => rest | _ => 58 :: join (lit ":") (map hex gs) ++ rest end).
  replace (match map hex gs with [] => [] | _ => lit ":" ++ join (lit ":") (map hex gs) end ++ rest)
    with tl by (by destruct gs).
  assert (∀ A (f : str → option (A * str)) s,
    read_separator 58 first f ((if first then [] else [58]) ++ s) = f s) as Hsep
    by (intros A f s; destruct first; [done|apply read_separator_next]).
  rw !Hsep.
  assert (not_digit_first 16 tl ∧ not_digit_first 10 tl ∧ no_dot_first tl) as (Ht & Ht' & Ht'').
  { unfold tl. destruct gs; [|done]. by destruct Hrest as [->|[r ->]]. }
  rw read_hex // read_ipv4_no_dot; [|apply hex_no_dot; mlia|by right].
  rw if_same. unfold tl. destruct gs as [|g' gs]; [by rw read_groups_stop|].
  specialize (IH k false ltac:(simpl in *; lia) ltac:(done)).
  change ([58] ++ ?x) with (58 :: x) in IH. by rw IH.
Qed.

(** The span [Display] elides lies inside the groups and holds only zeros. *)
Definition zeros_at (gs : list Z) (start n : nat) : Prop :=
  (start + n ≤ length gs)%nat ∧ ∀ j, (start ≤ j < start + n)%nat → gs !! j = Some 0.

Lemma zero_run_spec done_ gs cs cl bs bl :
  (cl ≠ 0%nat → (cs + cl = length done_)%nat) →
  zeros_at (done_ ++ gs) cs cl ∨ cl = 0%nat → zeros_at (done_ ++ gs) bs bl →
  let '(start, n) := zero_run (length done_) cs cl bs bl gs in zeros_at (done_ ++ gs) start n.
Proof.
  revert done_ cs cl bs bl; induction gs as [|g gs IH]; intros done_ cs cl bs bl Hcs Hc Hb; [done|].
  rw cons_middle app_assoc in Hc, Hb |- *. cbn [zero_run].
  assert (length (done_ ++ [g]) = S (length done_)) as Hl by (rw length_app /=; lia).
  rw -Hl. destruct (Z.eqb_spec g 0) as [->|]; last first.
  { apply IH; [done|by right|done]. }
  set (cs' := if (cl =? 0)%nat then length done_ else cs).
  assert (cs' + S cl = length (done_ ++ [0%Z]))%nat as Hcs'.
  { unfold cs'. rw Hl. destruct (Nat.eqb_spec cl 0); lia. }
  assert (zeros_at ((done_ ++ [0]) ++ gs) cs' (S cl)) as Hz.
  { split; [rw length_app; lia|]. intros j Hj.
    destruct (decide (j = length done_)) as [->|].
    - rw -app_assoc list_lookup_middle //.
    - destruct Hc as [[_ Hc]| ->]; [|lia]. unfold cs' in *.
      destruct (Nat.eqb_spec cl 0); [lia|]. apply Hc. lia. }
  destruct (bl <? S cl)%nat; apply IH; try done; by left.
Qed.

Lemma zero_run_top gs :
  let '(start, n) := zero_run 0 0 0 0 0 gs in zeros_at gs start n.
Proof.
  assert (zeros_at gs 0 0) by (split; lia).
  by apply (zero_run_spec [] gs 0 0 0 0); [|right|].
Qed.

Lemma zeros_at_split gs start n :
  zeros_at gs start n → gs = take start gs ++ replicate n 0 ++ drop (start + n) gs.
Proof.
  intros [Hl Hz]. rw -{1}(take_drop start gs). f_equal.
  rw -{1}(take_drop n (drop start gs)) drop_drop. f_equal.
  apply list_eq. intros i. destruct (decide (i < n)%nat) as [Hi|Hi].
  - rw lookup_take_lt // lookup_drop lookup_replicate_2 //. apply Hz. lia.
  - rw lookup_take_ge; [|lia]. symmetry. apply lookup_ge_None. rw length_replicate. lia.
Qed.

Lemma segments_u16 a : Forall is_u16 (segments a).
Proof. eapply Forall_impl; [apply be_limbs_bound; lia|]. simpl. mlia. Qed.

Lemma from_segments a : is_u128 a → from_limbs 65536 (segments a) = a.
Proof. intros Ha. apply from_limbs_be; [lia|mlia]. Qed.

(** [read_ipv6] on the text of two group lists around an elided run. *)
Lemma read_ipv6_elided h t n :
  Forall is_u16 h → Forall is_u16 t → (length h + n + length t = 8)%nat → (1 < n)%nat →
  read_ipv6 (show_groups h ++ lit "::" ++ show_groups t) =
    Some (from_limbs 65536 (h ++ replicate n 0 ++ t), []).
Proof.
  intros Hh Ht Hl Hn. unfold read_ipv6.
  assert (read_groups 8 true (show_groups h ++ lit "::" ++ show_groups t)
          = (h, false, lit "::" ++ show_groups t)) as ->.
  { destruct h as [|g h]; [apply read_groups_stop; right; by eexists|].
    apply (read_groups_show (g :: h) 8 true); [done|lia|done|right; by eexists]. }
  rw (proj2 (Nat.eqb_neq _ _)); [|lia]. change (lit "::") with [58; 58].
  cbn -[read_groups from_limbs Nat.sub].
  assert (read_groups (7 - length h) true (show_groups t) = (t, false, [])) as ->.
  { destruct t as [|g t]; [by apply read_groups_stop; left|].
    rw -{1}(app_nil_r (show_groups (g :: t))).
    apply (read_groups_show (g :: t) _ true); [done|simpl in *; lia|done|by left]. }
  do 2 f_equal. by replace (8 - length h - length t)%nat with n by lia.
Qed.

Lemma read_ipv6_full gs :
  Forall is_u16 gs → length gs = 8%nat → read_ipv6 (show_groups gs) = Some (from_limbs 65536 gs, []).
Proof.
  intros Hg Hl. unfold read_ipv6. rw -{1}(app_nil_r (show_groups gs)).
  rw (read_groups_show gs 8 true []); [by rw Hl|done|lia|by intros ->|by left].
Qed.

Lemma read_ipv6_mapped b :
  is_u32 b → read_ipv6 (lit "::ffff:" ++ show_v4 b) = Some (to_ipv6_mapped b, []).
Proof.
  intros Hb. unfold read_ipv6. rw read_groups_stop; [|right; by eexists].
  change (lit "::ffff:" ++ show_v4 b) with (58 :: 58 :: (hex 65535 ++ (58 :: show_v4 b))).
  change (read_given_char 58 (58 :: 58 :: ?s) ≫= read_given_char 58) with (Some s).
  cbn [length Nat.eqb Nat.sub read_groups Nat.leb].
  rw !read_separator_first read_ipv4_no_dot; [|by apply hex_no_dot|by right].
  rw read_hex // !read_separator_next -(app_nil_r (show_v4 b)) read_ipv4_show //.
  do 2 f_equal. unfold from_limbs, to_ipv6_mapped. cbn [length Nat.sub replicate app foldl].
  pose proof (Z_div_mod_eq_full b 65536). lia.
Qed.

Lemma show_v6_no_ipv4 a : is_u128 a → read_ipv4 (show_v6 a) = None.
Proof.
  intros Ha. unfold show_v6. case_match.
  { change (lit "::ffff:" ++ ?x) with ([] ++ (58 :: 58 :: (lit "ffff:" ++ x))).
    apply read_ipv4_no_dot; [done|]. left; right; by eexists. }
  pose proof (segments_u16 a) as Hs. destruct (zero_run 0 0 0 0 0 (segments a)) as [start n].
  case_match.
  - change (lit "::") with [58; 58]. apply read_ipv4_no_dot; [|left; right; by eexists].
    apply show_groups_no_dot. by apply Forall_take.
  - rw -(app_nil_r (show_groups _)). apply read_ipv4_no_dot; [by apply show_groups_no_dot|].
    left. by left.
Qed.

Lemma read_ipv6_show a : is_u128 a → read_ipv6 (show_v6 a) = Some (a, []).
Proof.
  intros Ha. unfold show_v6, to_ipv4_mapped. destruct (Z.eqb_spec (a / 2 ^ 32) 65535) as [Hm|Hm].
  - rw read_ipv6_mapped; last (unfold is_u32, U32_MAX; dlia). unfold to_ipv6_mapped. do 2 f_equal. dlia.
  - pose proof (zero_run_top (segments a)) as Hz. pose proof (segments_u16 a) as Hs.
    assert (length (segments a) = 8%nat) as Hl by apply length_be_limbs.
    destruct (zero_run 0 0 0 0 0 (segments a)) as [start n]. case_match; to_prop.
    + assert (start + n ≤ 8)%nat by (destruct Hz; lia).
      rw (read_ipv6_elided _ _ n).
      * rw -zeros_at_split // from_segments //.
      * by apply Forall_take.
      * by apply Forall_drop.
      * rw length_take length_drop. lia.
      * done.
    + rw read_ipv6_full // from_segments //.
Qed.

(** Parsing the printed form of an address gives the address back. *)
Lemma parse_show_ip a : wf_ip a → parse_ip (show_ip a) = Some a.
Proof.
  destruct a as [a|a]; simpl; intros Ha; [by apply parse_ip_show_v4|].
  unfold parse_ip. by rw show_v6_no_ipv4 // read_ipv6_show.
Qed.

(** *** CIDR arithmetic *)

Lemma prefix_mask_testbit w p i :
  0 ≤ p ≤ w → Z.testbit (prefix_mask w p) i = (w - p <=? i) && (i <? w).
Proof.
  intros Hp. unfold prefix_mask. destruct (Z.eqb_spec p 0) as [->|Hp0].
  { rw Z.testbit_0_l. lia. }
  replace (2 ^ w - 1) with (Z.ones w) by (rw Z.ones_equiv; lia). rw Z.land_spec. destruct (Z.ltb_spec i 0) as [Hi|Hi].
  { rw Z.testbit_neg_r //. simpl. lia. }
  rw Z.shiftl_spec //. rw !Z.testbit_ones; [|lia..].
  destruct (Z.leb_spec 0 (i - (w - p))), (Z.ltb_spec (i - (w - p)) w), (Z.ltb_spec i w),
    (Z.leb_spec (w - p) i), (Z.leb_spec 0 i); simpl; lia.
Qed.

(** Masking clears the host bits. *)
Lemma mask_value_div w p a :
  0 ≤ p ≤ w → 0 ≤ a < 2 ^ w → mask_value w p a = a / 2 ^ (w - p) * 2 ^ (w - p).
Proof.
  intros Hp Ha. unfold mask_value. rw -Z.shiftr_div_pow2; [|lia]. rw -Z.shiftl_mul_pow2; [|lia].
  apply Z.bits_inj'. intros i Hi. rw Z.land_spec prefix_mask_testbit // Z.shiftl_spec //.
  destruct (Z.leb_spec (w - p) i); simpl.
  - rw Z.shiftr_spec; [|lia]. replace (i - (w - p) + (w - p)) with i by lia.
    destruct (Z.ltb_spec i w); [apply andb_true_r|]. rw andb_false_r. symmetry.
    destruct (decide (a = 0)) as [->|]; [apply Z.testbit_0_l|].
    apply Z.bits_above_log2; [lia|]. apply Z.log2_lt_pow2; [lia|].
    eapply Z.lt_le_trans; [apply Ha|]. apply Z.pow_le_mono_r; lia.
  - rw andb_false_r Z.testbit_neg_r //. lia.
Qed.

(** Two addresses agree under a mask exactly when they lie in the same
    aligned block. *)
Lemma mask_value_eq w p a b :
  0 ≤ p ≤ w → 0 ≤ a < 2 ^ w → 0 ≤ b < 2 ^ w →
  mask_value w p a = mask_value w p b ↔ a / 2 ^ (w - p) = b / 2 ^ (w - p).
Proof.
  intros Hp Ha Hb. rw !mask_value_div //. split; [|by intros ->].
  assert (0 < 2 ^ (w - p)) by (apply Z.pow_pos_nonneg; lia). nia.
Qed.

Lemma mask_value_bound w p a :
  0 ≤ p ≤ w → 0 ≤ a < 2 ^ w → 0 ≤ mask_value w p a ≤ a.
Proof.
  intros Hp Ha. rw mask_value_div //. assert (0 < 2 ^ (w - p)) by (apply Z.pow_pos_nonneg; lia).
  pose proof (Z_div_mod_eq_full a (2 ^ (w - p))). pose proof (Z.mod_pos_bound a (2 ^ (w - p))).
  split; [|lia]. assert (0 ≤ a / 2 ^ (w - p)) by (apply Z.div_pos; lia). nia.
Qed.

(** ** What the parser returns is an address *)

Lemma read_number_bound radix k zp max s v r :
  0 ≤ radix → 0 ≤ max → read_number radix k zp max s = Some (v, r) → 0 ≤ v ≤ max.
Proof.
  intros Hr Hm. unfold read_number. destruct (span_digits radix s) as [ds rest].
  do 2 (case_match; [done|]). destruct (digits_value radix max 0 ds) as [v'|] eqn:Hv; [|done].
  intros [= <- _]. eapply digits_value_bound; [| |exact Hv]; lia.
Qed.

Lemma read_separator_inv {A} sep first (inner : str → option (A * str)) s x :
  read_separator sep first inner s = Some x → ∃ s', inner s' = Some x.
Proof.
  unfold read_separator. destruct first; [eauto|].
  destruct (read_given_char sep s); simpl; [eauto|done].
Qed.

Lemma read_octets_wf n first s os r :
  read_octets n first s = Some (os, r) → wf_bytes os ∧ length os = n.
Proof.
  revert first s os; induction n as [|n IH]; intros first s os; simpl; [intros [= <- _]; by split; [constructor|]|].
  destruct (read_separator _ _ _ _) as [[o r1]|] eqn:Ho; [|done].
  apply read_separator_inv in Ho as [s' Ho].
  destruct (read_octets n false r1) as [[os' r2]|] eqn:Hos; [|done]. intros [= <- <-].
  apply IH in Hos as [Hw Hl]. split; [|simpl; lia]. constructor; [|done].
  unfold is_u8. eapply read_number_bound; [..|exact Ho]; mlia.
Qed.

Lemma read_ipv4_wf s a r : read_ipv4 s = Some (a, r) → is_u32 a.
Proof.
  unfold read_ipv4. destruct (read_octets 4 true s) as [[os r']|] eqn:Ho; [|done].
  intros [= <- _]. apply read_octets_wf in Ho as [Hw Hl]. apply from_be_bound in Hw.
  unfold len in Hw. rw Hl in Hw. mlia.
Qed.

Definition is_group (g : Z) : Prop := 0 ≤ g < 65536.

Lemma read_groups_wf n first s gs f r :
  read_groups n first s = (gs, f, r) → Forall is_group gs ∧ (length gs ≤ n)%nat.
Proof.
  revert first s gs f r; induction n as [|n IH]; intros first s gs f r; cbn [read_groups].
  { intros [= <- _ _]. by split; [constructor|simpl; lia]. }
  destruct (if (1 <=? n)%nat then _ else None) as [[a r1]|] eqn:H4.
  - intros [= <- _ _]. destruct (Nat.leb_spec 1 n); [|done].
    apply read_separator_inv in H4 as [s' Ha]. apply read_ipv4_wf in Ha.
    split; [|simpl; lia]. unfold is_u32, U32_MAX in Ha. repeat constructor; unfold is_group; dlia.
  - destruct (read_separator 58 first (read_number 16 4 true U16_MAX) s) as [[g r1]|] eqn:Hg.
    + destruct (read_groups n false r1) as [[gs' f'] r2] eqn:Hgs. intros [= <- _ _].
      apply IH in Hgs as [Hw Hl]. split; [|simpl; lia]. constructor; [|done].
      apply read_separator_inv in Hg as [s' Hg]. apply read_number_bound in Hg; [|mlia..].
      unfold is_group. mlia.
    + intros [= <- _ _]. by split; [constructor|simpl; lia].
Qed.

Lemma from_groups_u128 gs : Forall is_group gs → length gs = 8%nat → is_u128 (from_limbs 65536 gs).
Proof.
  intros Hw Hl. apply from_limbs_bound in Hw; [|lia]. unfold len in Hw. rw Hl in Hw.
  unfold is_u128, U128_MAX. change (65536 ^ Z.of_nat 8) with 340282366920938463463374607431768211456 in Hw. lia.
Qed.

Lemma read_ipv6_wf s a r : read_ipv6 s = Some (a, r) → is_u128 a.
Proof.
  unfold read_ipv6. destruct (read_groups 8 true s) as [[h h4] r1] eqn:Hh.
  apply read_groups_wf in Hh as [Hw Hl].
  case_match eqn:H8; [to_prop; intros [= <- _]; by apply from_groups_u128|]. to_prop.
  case_match; [done|]. destruct (read_given_char 58 r1 ≫= _) as [r2|]; [|done].
  destruct (read_groups (7 - length h) true r2) as [[t f] r3] eqn:Ht.
  apply read_groups_wf in Ht as [Hwt Hlt]. intros [= <- _]. apply from_groups_u128.
  - apply Forall_app; split; [done|]. apply Forall_app; split; [|done].
    apply Forall_replicate. unfold is_group. lia.
  - rw !length_app length_replicate. lia.
Qed.

Lemma parse_ip_wf s a : parse_ip s = Some a → wf_ip a.
Proof.
  unfold parse_ip. destruct (read_ipv4 s) as [[b r]|] eqn:H4.
  - destruct r; [|done]. intros [= <-]. by eapply read_ipv4_wf.
  - destruct (read_ipv6 s) as [[b r]|] eqn:H6; [|done]. destruct r; [|done].
    intros [= <-]. by eapply read_ipv6_wf.
Qed.

(** ** Printed addresses *)

(** Hexadecimal digits, dots and colons. *)
Definition addr_char (c : Z) : Prop := 48 ≤ c ≤ 57 ∨ 97 ≤ c ≤ 102 ∨ c = 46 ∨ c = 58.

#[export] Instance addr_char_dec c : Decision (addr_char c).
Proof. unfold addr_char. apply _. Defined.

Lemma join_Forall (P : Z → Prop) sep l : Forall P sep → Forall (Forall P) l → Forall P (join sep l).
Proof.
  intros Hs Hl. induction Hl as [|s l Hh Hl IH]; [constructor|]. rw join_cons.
  apply Forall_app; split; [done|]. destruct l; [constructor|]. by apply Forall_app.
Qed.

Lemma show_v4_chars a : Forall addr_char (show_v4 a).
Proof.
  apply join_Forall; [by apply (bool_decide_unpack _); vm_compute|]. apply Forall_map.
  eapply Forall_impl; [apply be_bytes_wf|]. intros o Ho. simpl.
  eapply Forall_impl; [apply dec_digits; mlia|]. unfold addr_char. simpl. lia.
Qed.

Lemma show_groups_chars gs : Forall (λ g, 0 ≤ g < 65536) gs → Forall addr_char (show_groups gs).
Proof.
  intros Hg. apply join_Forall; [by apply (bool_decide_unpack _); vm_compute|]. apply Forall_map.
  eapply Forall_impl; [exact Hg|]. intros o Ho. simpl in *.
  eapply Forall_impl; [apply hex_digits; lia|]. unfold addr_char. simpl. lia.
Qed.

Lemma show_ip_chars a : Forall addr_char (show_ip a).
Proof.
  destruct a as [a|a]; simpl; [apply show_v4_chars|]. unfold show_v6.
  destruct (to_ipv4_mapped a).
  { apply Forall_app; split; [by apply (bool_decide_unpack _); vm_compute|apply show_v4_chars]. }
  pose proof (be_limbs_bound 65536 8 a ltac:(lia)) as Hg. fold (segments a) in Hg.
  destruct (zero_run 0 0 0 0 0 (segments a)) as [start n]. case_match; [|by apply show_groups_chars].
  apply Forall_app; split; [by apply show_groups_chars, Forall_take|].
  apply Forall_app; split; [by apply (bool_decide_unpack _); vm_compute|]. by apply show_groups_chars, Forall_drop.
Qed.

Lemma show_ip_graphic a : Forall graphic (show_ip a).
Proof. eapply Forall_impl; [apply show_ip_chars|]. unfold addr_char, graphic. simpl. lia. Qed.

Lemma show_ip_no_slash a : 47 ∉ show_ip a.
Proof. intros Hin. pose proof (proj1 (Forall_forall _ _) (show_ip_chars a) 47 Hin) as Hc. unfold addr_char in Hc. lia. Qed.
