(* ===== verification/Frame.v ===== *)
(** * Relay wire format

    [blaktail-relay-proto/src/frame.rs], with the helpers of [lib.rs]
    ([is_australian_region], [hex_decode]) and the node-id text form of
    [mobile.rs].  A frame is a byte list; a [NodeId] is a list of 16 bytes. *)

From S2P Require Import Prelude Text Net.

Definition REGISTER : Z := 1.
Definition SEND : Z := 2.
Definition FORWARDED : Z := 3.
Definition PING : Z := 4.
Definition OBSERVED : Z := 5.
Definition DIRECT : Z := 6.
Definition PUNCH : Z := 7.
Definition PUNCH_ACK : Z := 8.

Definition ID_LEN : nat := 16.
Definition TOKEN_LEN : nat := 32.
Definition EXPIRY_LEN : nat := 8.
Definition HEADER : nat := 1 + ID_LEN.
Definition REGISTER_FRAME : nat := HEADER + EXPIRY_LEN + TOKEN_LEN.
Definition OBSERVED_FRAME : nat := HEADER + 1 + 16 + 2.
Definition MAX_PAYLOAD : Z := 2048.
Definition MAX_SEND_FRAME : Z := Z.of_nat HEADER + MAX_PAYLOAD.

Abbreviation NodeId := bytes.
Definition wf_node_id (id : NodeId) : Prop := wf_bytes id ∧ length id = ID_LEN.

Definition register_frame (id : NodeId) (expires_at_unix : Z) (token : bytes) : bytes :=
  [REGISTER] ++ id ++ be_bytes EXPIRY_LEN expires_at_unix ++ token.

Definition ping_frame (id : NodeId) : bytes := [PING] ++ id.

Definition send_frame (destination : NodeId) (payload : bytes) : option bytes :=
  if MAX_PAYLOAD <? len payload then None else Some ([SEND] ++ destination ++ payload).

(** [out[at..at + src.len()].copy_from_slice(src)] *)
Definition copy_at (at_ : nat) (src out : bytes) : bytes :=
  take at_ out ++ src ++ drop (at_ + length src) out.

(** The returned length together with the caller's buffer afterwards. *)
Definition write_send_frame (destination : NodeId) (payload out : bytes) : option Z * bytes :=
  let n := Z.of_nat HEADER + len payload in
  if (MAX_PAYLOAD <? len payload) || (len out <? n) then (None, out)
  else
    let out := copy_at 0 [SEND] out in
    let out := copy_at 1 destination out in
    let out := copy_at HEADER payload out in
    (Some n, out).

Definition parse_forwarded (frame : bytes) : option (NodeId * bytes) :=
  if (len frame <? Z.of_nat HEADER) || (MAX_SEND_FRAME <? len frame)
     || negb (bool_decide (frame !! 0%nat = Some FORWARDED)) then None
  else Some (slice 1 HEADER frame, drop HEADER frame).

Definition observed_frame (id : NodeId) (observed : SocketAddr) : bytes :=
  [OBSERVED] ++ id
  ++ match ip observed with
     | V4 v4 => [4] ++ v6_octets (to_ipv6_mapped v4)
     | V6 v6 => [6] ++ v6_octets v6
     end
  ++ be_bytes 2 (port observed).

Definition parse_observed (frame : bytes) (node_id : NodeId) : option SocketAddr :=
  if negb (length frame =? OBSERVED_FRAME)%nat
     || negb (bool_decide (frame !! 0%nat = Some OBSERVED))
     || negb (bool_decide (slice 1 HEADER frame = node_id)) then None
  else
    let v6 := from_be (slice (HEADER + 1) (HEADER + 17) frame) in
    family ← frame !! HEADER;
    ip ← (if family =? 4 then V4 <$> to_ipv4_mapped v6
          else if family =? 6 then Some (V6 v6)
          else None);
    let port := from_be (slice (HEADER + 17) OBSERVED_FRAME frame) in
    if port =? 0 then None else Some (mkSocketAddr ip port).

(** ** [lib.rs] *)

Definition australian_regions : list str :=
  [lit "ap-southeast-2"; lit "australiaeast"; lit "australiasoutheast";
   lit "australia-southeast1"; lit "australia-southeast2"].

Definition is_australian_region (region : str) : bool :=
  bool_decide (to_ascii_lowercase (trim region) ∈ australian_regions).

Fixpoint hex_pairs (input : str) : option bytes :=
  match input with
  | [] => Some []
  | [_] => None
  | a :: b :: rest =>
      match parse_uint 16 U8_MAX [a; b] with
      | None => None
      | Some v => cons v <$> hex_pairs rest
      end
  end.

Definition hex_decode (input : str) : option bytes :=
  if negb (Nat.even (length input)) || negb (is_ascii input) then None else hex_pairs input.

(** ** Node ids as UUID text ([mobile.rs]) *)

Definition format_node_id (id : NodeId) : str :=
  let h := concat (map hex02 id) in
  slice 0 8 h ++ lit "-" ++ slice 8 12 h ++ lit "-" ++ slice 12 16 h ++ lit "-"
  ++ slice 16 20 h ++ lit "-" ++ drop 20 h.

Definition parse_node_id (text : str) : option NodeId :=
  let h := filter (λ c, c ≠ 45) text in
  if negb (length h =? ID_LEN * 2)%nat then None
  else
    bs ← hex_decode h;
    if (length bs =? ID_LEN)%nat then Some bs else None.

(** ** Lemmas *)

Lemma observed_frame_length id addr :
  length id = ID_LEN → length (observed_frame id addr) = OBSERVED_FRAME.
Proof.
  intros Hid. unfold observed_frame, v6_octets.
  destruct (ip addr); cbv iota; rewrite -> !length_app, !length_be_limbs, Hid; done.
Qed.

(** The fields of a frame laid out as the wire format says. *)
Lemma observed_layout t id fam octets prt :
  length id = ID_LEN → length octets = 16%nat → length prt = 2%nat →
  let f : bytes := [t] ++ id ++ ([fam] ++ octets) ++ prt in
  length f = OBSERVED_FRAME ∧ f !! 0%nat = Some t ∧ slice 1 HEADER f = id ∧
  f !! HEADER = Some fam ∧ slice (HEADER + 1) (HEADER + 17) f = octets ∧
  slice (HEADER + 17) OBSERVED_FRAME f = prt.
Proof.
  intros Hid Ho Hp. unfold OBSERVED_FRAME, HEADER, ID_LEN in *. simpl. repeat split.
  - rw !length_app /= length_app. lia.
  - apply (slice_middle [t] id); simpl; lia.
  - apply list_lookup_middle. lia.
  - change (slice 18 34 ((t :: id) ++ [fam] ++ octets ++ prt) = octets).
    rw app_assoc. apply slice_middle; rw length_app /=; lia.
  - change (slice 34 36 ((t :: id) ++ (fam :: octets) ++ prt) = prt).
    rw app_assoc. apply slice_last; rw length_app /=; lia.
Qed.

(** Conversely, a frame of the right length is its fields. *)
Lemma observed_split (f : bytes) :
  length f = OBSERVED_FRAME →
  ∃ t id fam octets prt, f = [t] ++ id ++ ([fam] ++ octets) ++ prt ∧
    length id = ID_LEN ∧ length octets = 16%nat ∧ length prt = 2%nat.
Proof.
  unfold OBSERVED_FRAME, HEADER, ID_LEN. intros Hf.
  destruct f as [|t f]; [done|]. injection Hf as Hf.
  assert (length (drop 16 f) = 19%nat) as Hd by (rw length_drop; lia).
  destruct (drop 16 f) as [|fam r] eqn:Hr; [done|]. injection Hd as Hd.
  exists t, (take 16 f), fam, (take 16 r), (drop 16 r).
  rw !length_take !length_drop. repeat split; [|lia..].
  rw -app_assoc take_drop. cbn [app]. f_equal. by rw -{1}(take_drop 16 f) Hr.
Qed.

(** What [parse_observed] does on a frame given by its fields. *)
Lemma parse_observed_fields t id fam octets prt node_id :
  length id = ID_LEN → length octets = 16%nat → length prt = 2%nat →
  parse_observed ([t] ++ id ++ ([fam] ++ octets) ++ prt) node_id =
    if bool_decide (t = OBSERVED) && bool_decide (id = node_id) then
      ip ← (if fam =? 4 then V4 <$> to_ipv4_mapped (from_be octets)
            else if fam =? 6 then Some (V6 (from_be octets)) else None);
      if from_be prt =? 0 then None else Some (mkSocketAddr ip (from_be prt))
    else None.
Proof.
  intros Hid Ho Hp. unfold parse_observed.
  destruct (observed_layout t id fam octets prt Hid Ho Hp) as (-> & -> & -> & -> & -> & ->).
  rw Nat.eqb_refl. cbn [negb orb].
  assert (bool_decide (Some t = Some OBSERVED) = bool_decide (t = OBSERVED)) as ->
    by (apply bool_decide_ext; naive_solver).
  by destruct (bool_decide (t = OBSERVED)), (bool_decide (id = node_id)).
Qed.

Lemma to_ipv4_mapped_spec v a :
  is_u32 a → to_ipv4_mapped v = Some a ↔ v = to_ipv6_mapped a.
Proof.
  intros Ha. unfold to_ipv4_mapped, to_ipv6_mapped, is_u32, U32_MAX in *. split.
  - case_match; [|done]. to_prop. intros [= <-]. dlia.
  - intros ->. rw (proj2 (Z.eqb_eq _ _)); [f_equal|]; dlia.
Qed.

Lemma to_ipv4_mapped_u32 v a : to_ipv4_mapped v = Some a → is_u32 a.
Proof.
  unfold to_ipv4_mapped, is_u32, U32_MAX. case_match; [|done]. intros [= <-].
  pose proof (Z.mod_pos_bound v (2 ^ 32)). lia.
Qed.

Lemma v6_octets_inv v : is_u128 v → from_be (v6_octets v) = v.
Proof. intros Hv. apply from_limbs_be; [lia|mlia]. Qed.

Lemma be_bytes2_inv p : is_u16 p → from_be (be_bytes 2 p) = p.
Proof. intros Hp. apply from_limbs_be; [lia|mlia]. Qed.

Lemma v6_octets_from octets :
  wf_bytes octets → length octets = 16%nat → v6_octets (from_be octets) = octets.
Proof. intros Hw Hl. unfold v6_octets. rw -Hl. by apply be_bytes_from_be. Qed.

Lemma be_bytes2_from prt :
  wf_bytes prt → length prt = 2%nat → be_bytes 2 (from_be prt) = prt.
Proof. intros Hw Hl. rw -Hl. by apply be_bytes_from_be. Qed.

Lemma to_ipv6_mapped_u128 a : is_u32 a → is_u128 (to_ipv6_mapped a).
Proof. unfold to_ipv6_mapped. mlia. Qed.

Definition wf_addr (a : SocketAddr) : Prop := wf_ip (ip a) ∧ is_u16 (port a).

(** OBSERVED replies round-trip and are canonical: a byte string parses to
    an address for node [id] exactly when it is the frame the relay builds for
    that node and address, and the port is not zero. *)
Theorem parse_observed_iff (f : bytes) (id : NodeId) (addr : SocketAddr) :
  wf_bytes f → wf_node_id id → wf_addr addr →
  parse_observed f id = Some addr ↔ f = observed_frame id addr ∧ port addr ≠ 0.
Proof.
  intros Hf [Hid Hidl] [Hip Hport]. split.
  - intros Hp. assert (length f = OBSERVED_FRAME) as Hl.
    { unfold parse_observed in Hp. destruct (Nat.eqb_spec (length f) OBSERVED_FRAME); done. }
    destruct (observed_split f Hl) as (t & id' & fam & octets & prt & -> & Hid' & Ho & Hprt).
    rw parse_observed_fields // in Hp.
    case_match; [|done]. to_prop. subst t id'.
    apply Forall_app in Hf as [_ [_ [[_ Hwo]%Forall_app Hwp]%Forall_app]%Forall_app].
    apply bind_Some in Hp as (a & Ha & Hp). case_match; [done|]. to_prop. simplify_eq/=.
    split; [|done]. unfold observed_frame. cbn [ip port]. rw be_bytes2_from //.
    destruct (Z.eqb_spec fam 4) as [->|]; [|destruct (Z.eqb_spec fam 6) as [->|]; [|done]].
    + apply fmap_Some in Ha as (b & Hb & ->). simpl in Hip.
      apply to_ipv4_mapped_spec in Hb; [|done]. rw -Hb v6_octets_from //.
    + simplify_eq. rw v6_octets_from //.
  - intros [-> Hne]. unfold observed_frame. destruct addr as [a p]. simpl in Hip, Hport, Hne.
    cbn [ip port]. destruct a as [a|a]; simpl in Hip; rw parse_observed_fields //;
      rw ?bool_decide_eq_true_2 //; cbn [andb Z.eqb Pos.eqb]; rw ?be_bytes2_inv ?v6_octets_inv //;
      try by apply to_ipv6_mapped_u128.
    + rw (proj2 (to_ipv4_mapped_spec _ a Hip) eq_refl) /=. by rw (proj2 (Z.eqb_neq p 0)).
    + simpl. by rw (proj2 (Z.eqb_neq p 0)).
Qed.

Lemma parse_observed_iff_witness :
  let id := replicate 16 7 in let addr := mkSocketAddr (V4 3405803785) 3478 in
  parse_observed (observed_frame id addr) id = Some addr.
Proof.
  intros id addr. apply parse_observed_iff; [| | |done].
  - apply Forall_forall. vm_compute. intros x Hx. repeat (apply elem_of_cons in Hx as [->|Hx]; [done|]).
    by apply not_elem_of_nil in Hx.
  - split; [|done]. apply Forall_replicate. done.
  - done.
Defined.

Lemma parse_forwarded_inv (f : bytes) source payload :
  parse_forwarded f = Some (source, payload) →
  f = [FORWARDED] ++ source ++ payload ∧ length source = ID_LEN ∧ len payload ≤ MAX_PAYLOAD.
Proof.
  unfold parse_forwarded, MAX_SEND_FRAME, HEADER, ID_LEN, len.
  repeat case_match; [done|]. to_prop. intros [= <- <-]. destruct f as [|t f]; [done|].
  simpl in *. simplify_eq. rw /slice /= drop_0 take_drop length_take length_drop.
  repeat split; lia.
Qed.

(** A FORWARDED frame splits into source and payload exactly when it is the
    type byte, a 16-byte id and at most [MAX_PAYLOAD] payload bytes. *)
Theorem parse_forwarded_iff (f : bytes) (source : NodeId) (payload : bytes) :
  parse_forwarded f = Some (source, payload) ↔
  f = [FORWARDED] ++ source ++ payload ∧ length source = ID_LEN ∧ len payload ≤ MAX_PAYLOAD.
Proof.
  split; [apply parse_forwarded_inv|].
  unfold parse_forwarded, MAX_SEND_FRAME, HEADER, ID_LEN, len.
  - intros (-> & Hs & Hp). rw !length_app Hs. cbn [length].
    destruct (Z.ltb_spec (Z.of_nat (1 + (16 + length payload))) (Z.of_nat (1 + 16))); [lia|].
    destruct (Z.ltb_spec (Z.of_nat (1 + 16) + MAX_PAYLOAD) (Z.of_nat (1 + (16 + length payload)))); [lia|].
    rw bool_decide_eq_true_2 //=. do 2 f_equal.
    + apply (slice_middle [FORWARDED]); simpl; lia.
    + rw drop_app_ge; [|lia]. by rw Hs drop_0.
Qed.

(** The allocation-free writer agrees with [send_frame]: it writes exactly that
    frame at the front of the buffer and leaves the rest of it alone, and it
    fails, leaving the buffer untouched, when [send_frame] fails or the frame does not fit. *)
Theorem write_send_frame_correct (d : NodeId) (payload out : bytes) :
  length d = ID_LEN →
  write_send_frame d payload out =
    match send_frame d payload with
    | Some f => if len f <=? len out then (Some (len f), f ++ drop (length f) out) else (None, out)
    | None => (None, out)
    end.
Proof.
  intros Hd. unfold write_send_frame, send_frame, HEADER, len.
  destruct (Z.ltb_spec MAX_PAYLOAD (Z.of_nat (length payload))); [done|]. cbn [orb].
  rw !length_app Hd. unfold ID_LEN in *. cbn [length].
  assert (Z.of_nat (1 + (16 + length payload)) = Z.of_nat (1 + 16) + Z.of_nat (length payload)) as ->
    by lia.
  destruct (Z.ltb_spec (Z.of_nat (length out)) (Z.of_nat (1 + 16) + Z.of_nat (length payload))),
    (Z.leb_spec (Z.of_nat (1 + 16) + Z.of_nat (length payload)) (Z.of_nat (length out)));
    [lia|done| |lia].
  f_equal. unfold copy_at. cbn [take app length]. rw !Hd. cbn [drop Nat.add].
  destruct out as [|o out]; [simpl in *; lia|]. cbn [drop take app].
  rw (take_app_length' d) // -app_assoc. do 3 f_equal. rw take_0 app_nil_l.
  rw drop_app_ge; [|lia]. rw Hd drop_drop. f_equal. lia.
Qed.

Lemma write_send_frame_correct_witness :
  write_send_frame (replicate 16 9) [1; 2] (replicate 20 0)
    = (Some 19, [2] ++ replicate 16 9 ++ [1; 2] ++ [0]).
Proof. rw write_send_frame_correct; [vm_compute; reflexivity|reflexivity]. Defined.

(** *** Hexadecimal and node-id text *)

Lemma parse_hex02 b : is_u8 b → parse_uint 16 U8_MAX (hex02 b) = Some b.
Proof.
  intros Hb. unfold is_u8, U8_MAX in Hb.
  assert (0 ≤ b / 16 < 16 ∧ 0 ≤ b mod 16 < 16 ∧ b = b / 16 * 16 + b mod 16) as (Hh & Hl & Heq) by dlia.
  pose proof (from_digit_range _ Hh). unfold hex02, parse_uint.
  rw (proj2 (Z.eqb_neq _ 43)); [|lia]. cbn [digits_value].
  rw !to_digit_from_digit; [|lia..]. rw Z.mul_0_l Z.add_0_l -Heq.
  rw (proj2 (Z.ltb_ge _ _)); [|mlia]. by rw (proj2 (Z.ltb_ge _ _)); [|mlia].
Qed.

Lemma hex_pairs_hex02 bs : wf_bytes bs → hex_pairs (concat (map hex02 bs)) = Some bs.
Proof.
  induction 1 as [|b bs Hb _ IH]; [done|]. pose proof (parse_hex02 b Hb) as Hp.
  unfold hex02 in *. cbn [map concat app hex_pairs]. by rw Hp IH.
Qed.

Lemma hex02_chars b : is_u8 b → Forall (λ c, 48 ≤ c ≤ 102) (hex02 b).
Proof.
  intros Hb. unfold is_u8, U8_MAX in Hb. unfold hex02.
  assert (0 ≤ b / 16 < 16 ∧ 0 ≤ b mod 16 < 16) as [Hh Hl] by dlia.
  pose proof (from_digit_range _ Hh). pose proof (from_digit_range _ Hl).
  repeat constructor; lia.
Qed.

Lemma concat_hex02 bs :
  wf_bytes bs →
  Forall (λ c, 48 ≤ c ≤ 102) (concat (map hex02 bs)) ∧
  length (concat (map hex02 bs)) = (2 * length bs)%nat.
Proof.
  induction 1 as [|b bs Hb _ [IHf IHl]]; [done|]. cbn [map concat]. split.
  - apply Forall_app; split; [by apply hex02_chars|done].
  - rw length_app IHl. simpl. lia.
Qed.

Lemma hex_decode_hex02 bs : wf_bytes bs → hex_decode (concat (map hex02 bs)) = Some bs.
Proof.
  intros Hbs. destruct (concat_hex02 bs Hbs) as [Hc Hl]. unfold hex_decode.
  rw Hl Nat.even_mul. simpl. assert (is_ascii (concat (map hex02 bs)) = true) as ->.
  { apply forallb_forall.
    intros c Hin%list_elem_of_In. rw Forall_forall in Hc. apply Hc in Hin. lia. }
  by apply hex_pairs_hex02.
Qed.

Lemma filter_no_dash (s : str) : Forall (λ c, 48 ≤ c ≤ 102) s → filter (λ c, c ≠ 45) s = s.
Proof.
  induction 1 as [|c s Hc _ IH]; [done|]. rw filter_cons_True; [|lia]. by rw IH.
Qed.

(** Node ids survive the UUID text form: parsing the canonical lowercase text
    of a 16-byte id gives the id back. *)
Theorem node_id_roundtrip (id : NodeId) :
  wf_node_id id → parse_node_id (format_node_id id) = Some id.
Proof.
  intros [Hw Hl]. destruct (concat_hex02 id Hw) as [Hc Hlen].
  unfold parse_node_id, format_node_id, slice. set (h := concat (map hex02 id)) in *.
  assert (filter (λ c, c ≠ 45) (lit "-") = []) as Hdash by done.
  rw !filter_app !Hdash !app_nil_l !filter_no_dash;
    [|repeat first [apply Forall_take | apply Forall_drop | done]..].
  assert (take (8 - 0) (drop 0 h) ++ take (12 - 8) (drop 8 h) ++ take (16 - 12) (drop 12 h)
    ++ take (20 - 16) (drop 16 h) ++ drop 20 h = h) as ->.
  { rw (take_drop_next 16) // (take_drop_next 12) // (take_drop_next 8) // (take_drop_next 0) //. }
  rw Hlen Hl. unfold ID_LEN. cbn [Nat.mul Nat.add Nat.eqb negb].
  unfold h. rw hex_decode_hex02 //. simpl. by rw Hl.
Qed.

Lemma node_id_roundtrip_witness :
  parse_node_id (lit "00010203-0405-0607-0809-0a0b0c0d0eff")
  = Some [0; 1; 2; 3; 4; 5; 6; 7; 8; 9; 10; 11; 12; 13; 14; 255].
Proof.
  apply (node_id_roundtrip [0; 1; 2; 3; 4; 5; 6; 7; 8; 9; 10; 11; 12; 13; 14; 255]).
  split; [|reflexivity]. repeat constructor; vm_compute; discriminate.
Defined.

(** [hex_decode] accepts a plus sign in place of a high digit, which its
    comment rules out: [u8::from_str_radix] takes an optional sign. *)
Theorem hex_decode_accepts_sign (d : Z) :
  0 ≤ d < 16 → hex_decode [43; from_digit d] = Some [d].
Proof.
  intros Hd. pose proof (from_digit_range d Hd) as Hr. unfold hex_decode.
  assert (is_ascii [43; from_digit d] = true) as ->.
  { unfold is_ascii. simpl. rw andb_true_r. lia. }
  cbn [length Nat.even negb orb hex_pairs parse_uint Z.eqb Pos.eqb digits_value].
  rw to_digit_from_digit; [|lia..]. rw Z.mul_0_l Z.add_0_l.
  by rw (proj2 (Z.ltb_ge _ _)); [|mlia].
Qed.

Lemma hex_decode_accepts_sign_witness : hex_decode (lit "+f") = Some [15].
Proof. apply (hex_decode_accepts_sign 15). lia. Defined.
