(* ===== verification/Select.v ===== *)
(** * Relay selection with back-off

    [blaktail-relay-proto/src/select.rs].  The selector is generic in the key
    that identifies a relay, as in the source.  Instants and durations are
    nanoseconds in [Z]. *)

From S2P Require Import Prelude.

Definition BASE_COOLDOWN : Z := secs 30.
Definition MAX_COOLDOWN : Z := secs 600.

(** [Duration::MAX] *)
Definition DURATION_MAX : Z := secs U64_MAX + 999999999.

Record Failure := mkFailure { strikes : Z; retry_at : Z }.

Record Selector (K : Type) `{Countable K} := mkSelector {
  failures : gmap K Failure;
  failovers : Z;
  failbacks : Z
}.
Arguments mkSelector {K _ _} _ _ _.
Arguments failures {K _ _} _.
Arguments failovers {K _ _} _.
Arguments failbacks {K _ _} _.

(** [Iterator::find] *)
Fixpoint find {A} (p : A → bool) (l : list A) : option A :=
  match l with
  | [] => None
  | x :: l => if p x then Some x else find p l
  end.

(** [Iterator::take_while] *)
Fixpoint take_while {A} (p : A → bool) (l : list A) : list A :=
  match l with
  | [] => []
  | x :: l => if p x then x :: take_while p l else []
  end.

(** The order of [Option<Instant>]: [None] is least. *)
Definition opt_lt (a b : option Z) : bool :=
  match a, b with
  | None, Some _ => true
  | Some x, Some y => x <? y
  | _, None => false
  end.

(** [Iterator::min_by_key]: the first element with the least key. *)
Definition min_by_key {A} (key : A → option Z) (l : list A) : option A :=
  match l with
  | [] => None
  | x :: l => Some (foldl (λ best y, if opt_lt (key y) (key best) then y else best) x l)
  end.

Section selector.
Context {K : Type} `{Countable K}.
Implicit Types (s : Selector K) (relay active : K) (candidates : list K) (now : Z).

Definition default_selector : Selector K := mkSelector ∅ 0 0.

Definition cooling s relay now : bool :=
  match failures s !! relay with
  | Some failure => now <? retry_at failure
  | None => false
  end.

Definition retry_key s relay : option Z := retry_at <$> failures s !! relay.

Definition choose s candidates now : option K :=
  match find (λ relay, negb (cooling s relay now)) candidates with
  | Some relay => Some relay
  | None => min_by_key (retry_key s) candidates
  end.

Definition cooldown_for (strikes : Z) : Z :=
  Z.min (Z.min DURATION_MAX (BASE_COOLDOWN * Z.shiftl 1 (Z.min (strikes - 1) 10))) MAX_COOLDOWN.

Definition record_failure s relay now : Selector K * Z :=
  let n := match failures s !! relay with
           | Some failure => sat_add_u32 (strikes failure) 1
           | None => 1
           end in
  let cooldown := cooldown_for n in
  (mkSelector (<[relay := mkFailure n (now + cooldown)]> (failures s)) (failovers s) (failbacks s),
   cooldown).

Definition record_healthy s relay : Selector K :=
  mkSelector (delete relay (failures s)) (failovers s) (failbacks s).

Definition failback_target s active candidates now : option K :=
  find (λ relay, negb (cooling s relay now))
    (take_while (λ relay, negb (bool_decide (relay = active))) candidates).

Definition note_failover s : Selector K :=
  mkSelector (failures s) (u64_add (failovers s) 1) (failbacks s).

Definition note_failback s : Selector K :=
  mkSelector (failures s) (failovers s) (u64_add (failbacks s) 1).

(** The cooldowns a relay gets when it fails at the given times in turn. *)
Fixpoint failure_cooldowns s relay (times : list Z) : list Z :=
  match times with
  | [] => []
  | now :: times =>
      let '(s, cooldown) := record_failure s relay now in
      cooldown :: failure_cooldowns s relay times
  end.

(** ** Lemmas *)

Lemma find_Some {A} (p : A → bool) l x :
  find p l = Some x ↔
  ∃ pre post, l = pre ++ x :: post ∧ Forall (λ y, p y = false) pre ∧ p x = true.
Proof.
  induction l as [|y l IH]; simpl.
  { split; [done|]. intros (pre & post & Heq & _). by destruct pre. }
  destruct (p y) eqn:Hy.
  - split; [intros [= ->]; by exists [], l|].
    intros (pre & post & Heq & Hpre & Hx). destruct pre as [|z pre]; simplify_eq/=; [done|].
    apply Forall_cons in Hpre as [? _]. congruence.
  - rw IH. split.
    + intros (pre & post & -> & Hpre & Hx). exists (y :: pre), post. by repeat constructor.
    + intros (pre & post & Heq & Hpre & Hx). destruct pre as [|z pre]; simplify_eq/=; [congruence|].
      apply Forall_cons in Hpre as [? ?]. by exists pre, post.
Qed.

Lemma find_None {A} (p : A → bool) l : find p l = None ↔ Forall (λ y, p y = false) l.
Proof.
  induction l as [|y l IH]; simpl; [by split; constructor|].
  rw Forall_cons. destruct (p y); [|by rw IH; split; [|intros []]].
  by split; [|intros [? _]].
Qed.

Lemma take_while_prefix {A} (p : A → bool) l :
  ∃ rest, l = take_while p l ++ rest ∧ Forall (λ y, p y = true) (take_while p l) ∧
    match rest with x :: _ => p x = false | [] => True end.
Proof.
  induction l as [|y l (rest & Heq & Hp & Hr)]; simpl; [by exists []|].
  destruct (p y) eqn:Hy; [|by exists (y :: l)].
  exists rest. rw /= -Heq. by repeat constructor.
Qed.

Lemma opt_lt_irrefl a : opt_lt a a = false.
Proof. destruct a; simpl; [apply Z.ltb_irrefl|done]. Qed.

Lemma opt_lt_trans a b c : opt_lt a b = true → opt_lt b c = true → opt_lt a c = true.
Proof. destruct a, b, c; simpl; try done. lia. Qed.

Lemma opt_le_lt_trans a b c : opt_lt b a = false → opt_lt b c = true → opt_lt a c = true.
Proof. destruct a, b, c; simpl; try done. lia. Qed.

(** [min_by_key] returns the first element whose key is least: strictly below
    every earlier key and not above any later one. *)
Lemma min_by_key_Some {A} (key : A → option Z) l m :
  min_by_key key l = Some m →
  ∃ pre post, l = pre ++ m :: post ∧
    Forall (λ y, opt_lt (key m) (key y) = true) pre ∧
    Forall (λ y, opt_lt (key y) (key m) = false) post.
Proof.
  destruct l as [|x l]; [done|]. cbn [min_by_key]. intros [= <-].
  induction l as [|y l IH] using rev_ind; simpl; [by exists [], []|].
  rw foldl_app /=. destruct IH as (pre & post & Heq & Hpre & Hpost).
  set (m := foldl _ x l) in *. destruct (opt_lt (key y) (key m)) eqn:Hy.
  - exists (x :: l), []. split; [done|]. split; [|done].
    rw Heq. apply Forall_app; split; [|constructor; [done|]].
      * eapply Forall_impl; [exact Hpre|]. intros z Hz. by eapply opt_lt_trans.
      * eapply Forall_impl; [exact Hpost|]. simpl. intros z Hz.
        destruct (key y), (key m), (key z); simpl in *; try done. lia.
  - exists pre, (post ++ [y]). rw app_comm_cons Heq -app_assoc. split; [done|]. split; [done|].
    apply Forall_app. split; [done|]. by constructor.
Qed.

Lemma min_by_key_elem {A} (key : A → option Z) l m : min_by_key key l = Some m → m ∈ l.
Proof. intros (pre & post & -> & _)%min_by_key_Some. set_solver. Qed.

Lemma choose_elem s candidates now r : choose s candidates now = Some r → r ∈ candidates.
Proof.
  unfold choose. destruct (find _ candidates) as [x|] eqn:Hf.
  - intros [= <-]. apply find_Some in Hf as (pre & post & -> & _). set_solver.
  - apply min_by_key_elem.
Qed.

(** A relay is chosen whenever one is configured. *)
Lemma choose_some s candidates now : candidates ≠ [] → is_Some (choose s candidates now).
Proof.
  intros Hne. unfold choose. destruct (find _ candidates); [done|]. by destruct candidates.
Qed.

(** A cooling relay is chosen only when every candidate is cooling. *)
Lemma choose_avoids_cooling s candidates now r other :
  choose s candidates now = Some r → other ∈ candidates → cooling s other now = false →
  cooling s r now = false.
Proof.
  unfold choose. intros Hr Ho Hc. destruct (find _ candidates) as [x|] eqn:Hf; simplify_eq.
  - by apply find_Some in Hf as (_ & _ & _ & _ & ?%negb_true_iff).
  - apply find_None in Hf. rw Forall_forall in Hf. apply Hf, negb_false_iff in Ho. congruence.
Qed.

Lemma choose_nil s now : choose s [] now = None.
Proof. done. Qed.

(** The choice every client makes: with no candidates there is none; otherwise
    it is the first candidate that is not cooling down, and when all are
    cooling the first of those whose back-off ends earliest. *)
Theorem choose_spec s candidates now :
  match choose s candidates now with
  | None => candidates = []
  | Some r =>
      ∃ pre post, candidates = pre ++ r :: post ∧ Forall (λ y, cooling s y now = true) pre ∧
        (cooling s r now = false ∨
         Forall (λ y, cooling s y now = true) candidates ∧
         Forall (λ y, opt_lt (retry_key s r) (retry_key s y) = true) pre ∧
         Forall (λ y, opt_lt (retry_key s y) (retry_key s r) = false) post)
  end.
Proof.
  unfold choose. destruct (find _ candidates) as [r|] eqn:Hf.
  - apply find_Some in Hf as (pre & post & -> & Hpre & Hr%negb_true_iff).
    exists pre, post. split; [done|]. split; [|by left].
    eapply Forall_impl; [exact Hpre|]. simpl. by intros y ?%negb_false_iff.
  - apply find_None in Hf.
    assert (Forall (λ y, cooling s y now = true) candidates) as Hall.
    { eapply Forall_impl; [exact Hf|]. simpl. by intros y ?%negb_false_iff. }
    destruct (min_by_key _ candidates) as [r|] eqn:Hm; [|by destruct candidates].
    apply min_by_key_Some in Hm as (pre & post & -> & Hpre & Hpost).
    exists pre, post. split; [done|]. split; [by apply Forall_app in Hall as [? _]|]. by right.
Qed.

(** Fail-back proposes a relay only ahead of the active one in the coordinator's
    order, only once its back-off has ended, and the first such relay. *)
Theorem failback_target_spec s active candidates now r :
  failback_target s active candidates now = Some r ↔
  ∃ pre post, candidates = pre ++ r :: post ∧ active ∉ pre ∧ r ≠ active ∧
    Forall (λ y, cooling s y now = true) pre ∧ cooling s r now = false.
Proof.
  unfold failback_target. rw find_Some.
  destruct (take_while_prefix (λ relay, negb (bool_decide (relay = active))) candidates)
    as (rest & Heq & Hp & Hrest).
  assert (∀ l : list K, Forall (λ y, negb (bool_decide (y = active)) = true) l → ¬ (active ∈ l)) as Hnot.
  { intros l Hl Hin. rw Forall_forall in Hl. apply Hl in Hin. by rw bool_decide_eq_true_2 in Hin. }
  split.
  - intros (pre & post & Htw & Hpre & Hr%negb_true_iff). rw Htw in Heq, Hp.
    apply Forall_app in Hp as [Hp1 [Hp2 _]%Forall_cons].
    exists pre, (post ++ rest). split; [by rw Heq -app_assoc|]. split; [by apply Hnot|].
    split; [by to_prop|]. split; [|done].
    eapply Forall_impl; [exact Hpre|]. simpl. by intros y ?%negb_false_iff.
  - intros (pre & post & -> & Ha & Hne & Hpre & Hr). clear Heq Hp Hrest rest.
    exists pre, (take_while (λ relay, negb (bool_decide (relay = active))) post).
    repeat split; [|by eapply Forall_impl; [exact Hpre|]; intros y ->|by rw Hr].
    clear Hpre Hr. induction pre as [|y pre IH]; simpl.
    + by rw bool_decide_eq_false_2.
    + apply not_elem_of_cons in Ha as [? ?]. rw bool_decide_eq_false_2 //=. by rw IH.
Qed.

Lemma cooldown_closed n :
  1 ≤ n → cooldown_for (Z.min U32_MAX n) = Z.min MAX_COOLDOWN (BASE_COOLDOWN * 2 ^ (n - 1)).
Proof.
  intros Hn. unfold cooldown_for. rw Z.shiftl_1_l.
  assert (BASE_COOLDOWN * 2 ^ Z.min (Z.min U32_MAX n - 1) 10 ≤ DURATION_MAX) as Hmax.
  { assert (2 ^ Z.min (Z.min U32_MAX n - 1) 10 ≤ 2 ^ 10) by (apply Z.pow_le_mono_r; lia).
    unfold BASE_COOLDOWN, DURATION_MAX, secs, U64_MAX. lia. }
  rw (Z.min_r DURATION_MAX) //. unfold U32_MAX, MAX_COOLDOWN, BASE_COOLDOWN, secs.
  destruct (decide (n - 1 ≤ 10)) as [Hle|Hgt].
  - rw (Z.min_r 4294967295); [|lia]. rw (Z.min_l (n - 1)) //. lia.
  - assert (2 ^ 10 ≤ 2 ^ (n - 1)) by (apply Z.pow_le_mono_r; lia).
    rw (Z.min_r _ 10); [|lia]. change (2 ^ 10) with 1024 in *. lia.
Qed.

Lemma failure_cooldowns_closed s relay times (k : nat) :
  strikes <$> failures s !! relay = (if (k =? 0)%nat then None else Some (Z.min U32_MAX (Z.of_nat k))) →
  failure_cooldowns s relay times =
    (λ i : nat, Z.min MAX_COOLDOWN (BASE_COOLDOWN * 2 ^ Z.of_nat i)) <$> seq k (length times).
Proof.
  revert s k; induction times as [|now times IH]; intros s k Hk; [done|].
  cbn [failure_cooldowns length seq fmap list_fmap]. unfold record_failure.
  set (n := match failures s !! relay with Some f => _ | None => 1 end).
  assert (n = Z.min U32_MAX (Z.of_nat (S k))) as Hn.
  { unfold n. destruct (failures s !! relay) as [f|]; simpl in Hk; destruct (Nat.eqb_spec k 0); simplify_eq.
    - rw Hk. mlia.
    - done. }
  rw Hn cooldown_closed; [|lia]. f_equal.
  - do 3 f_equal. lia.
  - apply IH. by rw /= lookup_insert_eq.
Qed.

(** Back-off: a relay that keeps failing without a healthy answer in between is
    cooled for 30 s, 60 s, 120 s, ... doubling each time up to ten minutes,
    however many times it fails and whenever the failures happen. *)
Theorem backoff_doubles_and_caps s relay times :
  failure_cooldowns (record_healthy s relay) relay times =
    (λ i : nat, Z.min (secs 600) (secs 30 * 2 ^ Z.of_nat i)) <$> seq 0 (length times).
Proof.
  apply (failure_cooldowns_closed _ _ _ 0). by rw /= lookup_delete_eq.
Qed.

(** A relay that has just been recorded healthy is not cooling. *)
Lemma record_healthy_not_cooling s relay now : cooling (record_healthy s relay) relay now = false.
Proof. unfold cooling. by rw /= lookup_delete_eq. Qed.

Lemma record_healthy_other s relay other now :
  relay ≠ other → cooling (record_healthy s relay) other now = cooling s other now.
Proof. intros Hne. unfold cooling. by rw /= lookup_delete_ne. Qed.

(** A relay that has just failed cools down for at least 30 s. *)
Lemma record_failure_cools s relay now t :
  t < now + BASE_COOLDOWN → (match failures s !! relay with Some f => 0 ≤ strikes f | None => True end) →
  cooling (record_failure s relay now).1 relay t = true.
Proof.
  intros Ht Hs. unfold cooling. rw /= lookup_insert_eq /=.
  set (n := match failures s !! relay with Some f => _ | None => 1 end).
  assert (1 ≤ n) as Hn by (unfold n; destruct (failures s !! relay); mlia).
  assert (BASE_COOLDOWN ≤ cooldown_for n); [|lia].
  unfold cooldown_for. rw Z.shiftl_1_l.
  assert (2 ^ 0 ≤ 2 ^ Z.min (n - 1) 10) by (apply Z.pow_le_mono_r; lia).
  unfold BASE_COOLDOWN, MAX_COOLDOWN, DURATION_MAX, secs, U64_MAX. lia.
Qed.

Lemma cooling_record_failure_other s relay other now t :
  relay ≠ other → cooling (record_failure s relay now).1 other t = cooling s other t.
Proof. intros Hne. unfold cooling. by rw /= lookup_insert_ne. Qed.

End selector.
