(* ===== verification/Ladder.v ===== *)
(** * Link and path hysteresis

    [blaktail-relay-proto/src/ladder.rs]: [LinkLadder] decides whether relay
    frames travel over UDP or the WebSocket fallback, [PeerPath] whether one
    peer is reached directly or through the relay.  Each method is a function
    on the record; a method with a return value gives it with the new record. *)

From S2P Require Import Prelude Text.

Definition WSS_AFTER_UDP_MISSES : Z := 3.
Definition UDP_AFTER_HITS : Z := 3.
Definition FAST_ROUND : Z := secs 5.
Definition STEADY_ROUND : Z := secs 25.
Definition RELAY_HEALTH : Z := secs 50.

Inductive Link := Udp | Wss.

#[export] Instance Link_eq_dec : EqDecision Link.
Proof. solve_decision. Defined.

Definition transport_label (l : Link) : str :=
  match l with
  | Udp => lit "relay"
  | Wss => lit "relay-wss"
  end.

Record LinkLadder := mkLadder {
  link : Link;
  wss_available : bool;
  answered : bool;
  misses : Z;
  hits : Z
}.

Module LinkLadder.

Definition new (wss_available : bool) : LinkLadder := mkLadder Udp wss_available false 0 0.

Definition set_wss_available (l : LinkLadder) (available : bool) : LinkLadder :=
  mkLadder (if available then link l else Udp) available (answered l) (misses l) (hits l).

Definition udp_answered (l : LinkLadder) : LinkLadder :=
  mkLadder (link l) (wss_available l) true (misses l) (hits l).

Definition end_round (l : LinkLadder) : LinkLadder * Link :=
  let '(misses, hits) :=
    if answered l then (0, sat_add_u32 (hits l) 1) else (sat_add_u32 (misses l) 1, 0) in
  let link :=
    match link l with
    | Udp => if wss_available l && (WSS_AFTER_UDP_MISSES <=? misses) then Wss else Udp
    | Wss => if UDP_AFTER_HITS <=? hits then Udp else Wss
    end in
  (mkLadder link (wss_available l) false misses hits, link).

Definition udp_proven (l : LinkLadder) : bool := 0 <? hits l.

Definition round_length (l : LinkLadder) : Z :=
  match link l with
  | Udp => if 0 <? hits l then STEADY_ROUND else FAST_ROUND
  | Wss => STEADY_ROUND
  end.

End LinkLadder.

(** ** Per-peer path *)

Definition DIRECT_SILENCE : Z := secs 15.
Definition DIRECT_RETRY_EVERY : Z := secs 30.
Definition DIRECT_PROBE_WINDOW : Z := secs 10.
Definition DIRECT_PROMOTE_HITS : Z := 2.

Inductive PathMode := Direct | Relay.

#[export] Instance PathMode_eq_dec : EqDecision PathMode.
Proof. solve_decision. Defined.

Record Route := mkRoute { direct : bool; relay : bool }.

Record PeerPath := mkPath {
  mode : PathMode;
  has_direct : bool;
  unanswered_since : option Z;
  probe_until : option Z;
  next_probe : option Z;
  path_hits : Z
}.

Module PeerPath.

Definition new (has_direct : bool) : PeerPath :=
  mkPath (if has_direct then Direct else Relay) has_direct None None None 0.

Definition set_has_direct (p : PeerPath) (has_direct : bool) : PeerPath :=
  mkPath (if has_direct then mode p else Relay) has_direct
    (unanswered_since p) (probe_until p) (next_probe p) (path_hits p).

Definition route (p : PeerPath) (now : Z) (relay_ready : bool) : PeerPath * Route :=
  if negb relay_ready then (p, mkRoute (has_direct p) false)
  else match mode p with
  | Direct =>
      let since := default now (unanswered_since p) in
      if duration_since now since <? DIRECT_SILENCE then
        (mkPath Direct (has_direct p) (Some since) (probe_until p) (next_probe p) (path_hits p),
         mkRoute true false)
      else
        (mkPath Relay (has_direct p) (Some since) None (Some (now + DIRECT_RETRY_EVERY)) 0,
         mkRoute false true)
  | Relay =>
      if negb (has_direct p) then (p, mkRoute false true)
      else
        let open := match probe_until p with Some until => now <? until | None => false end in
        if open then (p, mkRoute true true)
        else
          let due := match next_probe p with Some at_ => at_ <=? now | None => true end in
          if due then
            (mkPath Relay (has_direct p) (unanswered_since p) (Some (now + DIRECT_PROBE_WINDOW))
               (Some (now + DIRECT_RETRY_EVERY)) 0,
             mkRoute true true)
          else (p, mkRoute false true)
  end.

Definition direct_received (p : PeerPath) : PeerPath :=
  if bool_decide (mode p = Relay) && has_direct p then
    let hits := sat_add_u32 (path_hits p) 1 in
    if DIRECT_PROMOTE_HITS <=? hits
    then mkPath Direct (has_direct p) None None (next_probe p) 0
    else mkPath Relay (has_direct p) None (probe_until p) (next_probe p) hits
  else mkPath (mode p) (has_direct p) None (probe_until p) (next_probe p) (path_hits p).

End PeerPath.

(** ** Specification of the link ladder

    The abstract machine remembers how every closed probe round went and
    decides from that history alone. *)

Module LadderSpec.

Record state := mk {
  s_link : Link;
  s_available : bool;
  s_answered : bool;
  s_history : list bool   (** most recent round first *)
}.

Inductive op := Answered | EndRound | SetWss (available : bool).

Definition last_three (b : bool) (h : list bool) : bool :=
  bool_decide (take 3 h = replicate 3 b).

Definition step (s : state) (o : op) : state :=
  match o with
  | Answered => mk (s_link s) (s_available s) true (s_history s)
  | SetWss available => mk (if available then s_link s else Udp) available (s_answered s) (s_history s)
  | EndRound =>
      let h := s_answered s :: s_history s in
      mk (match s_link s with
          | Udp => if s_available s && last_three false h then Wss else Udp
          | Wss => if last_three true h then Udp else Wss
          end) (s_available s) false h
  end.

(** The implementation's reading of the same operations. *)
Definition impl_step (l : LinkLadder) (o : op) : LinkLadder :=
  match o with
  | Answered => LinkLadder.udp_answered l
  | EndRound => (LinkLadder.end_round l).1
  | SetWss available => LinkLadder.set_wss_available l available
  end.

(** Length of the leading run of [b]. *)
Fixpoint run (b : bool) (h : list bool) : nat :=
  match h with
  | [] => O
  | x :: h => if Bool.eqb x b then S (run b h) else O
  end.

Definition refines (l : LinkLadder) (s : state) : Prop :=
  link l = s_link s ∧ wss_available l = s_available s ∧ answered l = s_answered s ∧
  misses l = Z.min U32_MAX (Z.of_nat (run false (s_history s))) ∧
  hits l = Z.min U32_MAX (Z.of_nat (run true (s_history s))).

#[local] Arguments last_three : simpl never.

Lemma last_three_run b h : last_three b h = (3 <=? Z.of_nat (run b h)).
Proof.
  unfold last_three. apply eq_true_iff_eq. rw bool_decide_eq_true Z.leb_le.
  destruct h as [|[] [|[] [|[] h]]], b; simpl; (split; [intros [=]; lia|]); intros; done || lia.
Qed.

Lemma run_cap b h : (3 <=? Z.min U32_MAX (Z.of_nat (run b h))) = last_three b h.
Proof. rw last_three_run. mlia. Qed.

Lemma refines_step l s o : refines l s → refines (impl_step l o) (step s o).
Proof.
  intros (Hl & Ha & Han & Hm & Hh). destruct o as [| |available]; unfold refines; simpl.
  - done.
  - unfold LinkLadder.end_round. rw Hl Ha Han. destruct (s_answered s); simpl;
      (split_and!; [|done|done| |]).
    all: rw ?Hm ?Hh.
    all: try (unfold sat_add_u32; unfold U32_MAX; lia).
    + unfold WSS_AFTER_UDP_MISSES, UDP_AFTER_HITS.
      rw (_ : sat_add_u32 (Z.min U32_MAX (Z.of_nat (run true (s_history s)))) 1
              = Z.min U32_MAX (Z.of_nat (run true (true :: s_history s)))); last (simpl; mlia).
      by rw run_cap.
    + unfold WSS_AFTER_UDP_MISSES, UDP_AFTER_HITS.
      rw (_ : sat_add_u32 (Z.min U32_MAX (Z.of_nat (run false (s_history s)))) 1
              = Z.min U32_MAX (Z.of_nat (run false (false :: s_history s)))); last (simpl; mlia).
      by rw run_cap.
  - by rw Hl.
Qed.

Definition initial (available : bool) : state := mk Udp available false [].

Lemma refines_run l s ops : refines l s → refines (foldl impl_step l ops) (foldl step s ops).
Proof. revert l s; induction ops as [|o ops IH]; intros l s Hr; [done|]. by apply IH, refines_step. Qed.

Lemma refines_new available : refines (LinkLadder.new available) (initial available).
Proof. done. Qed.

(** [C38] The counters of [LinkLadder] implement the history-based rule: after any
    sequence of operations the ladder uses the same link as the machine that
    leaves UDP only after three silent rounds in a row with a WebSocket
    endpoint approved, and returns only after three answered rounds in a row. *)
Theorem ladder_refines_history (available : bool) (ops : list op) :
  link (foldl impl_step (LinkLadder.new available) ops)
    = s_link (foldl step (initial available) ops).
Proof. apply (refines_run _ _ ops (refines_new available)). Qed.

(** States the ladder can reach. *)
Inductive reachable : LinkLadder → Prop :=
| reach_new available : reachable (LinkLadder.new available)
| reach_step l o : reachable l → reachable (impl_step l o).

(** The WebSocket link is used only while an approved endpoint exists, and
    the two counters are never both positive. *)
Theorem ladder_invariant (l : LinkLadder) :
  reachable l →
  (link l = Wss → wss_available l = true) ∧
  0 ≤ misses l ≤ U32_MAX ∧ 0 ≤ hits l ≤ U32_MAX ∧ (misses l = 0 ∨ hits l = 0).
Proof.
  induction 1 as [available|l o _ (Hw & Hm & Hh & H0)]; [simpl; split; [done|mlia]|].
  destruct o as [| |available]; simpl.
  - done.
  - unfold LinkLadder.end_round. destruct (answered l); simpl; (split; [|mlia]);
      destruct (link l); repeat case_match; to_prop; try done; auto.
  - split; [|done]. by destruct available.
Qed.

Lemma ladder_invariant_witness :
  let l := foldl impl_step (LinkLadder.new true) [EndRound; EndRound; EndRound] in
  link l = Wss ∧ wss_available l = true.
Proof.
  intros l. split; [reflexivity|]. apply (ladder_invariant l); [|reflexivity].
  unfold l. cbn [foldl]. repeat (apply reach_step). apply reach_new.
Defined.

End LadderSpec.

(** ** Properties of the per-peer path *)

Module PathProps.

Inductive event := Outbound (now : Z) (relay_ready : bool) | Received | SetDirect (b : bool).

Definition step (p : PeerPath) (e : event) : PeerPath :=
  match e with
  | Outbound now relay_ready => (PeerPath.route p now relay_ready).1
  | Received => PeerPath.direct_received p
  | SetDirect b => PeerPath.set_has_direct p b
  end.

Inductive reachable : PeerPath → Prop :=
| reach_new b : reachable (PeerPath.new b)
| reach_step p e : reachable p → reachable (step p e).

(** Directness is only ever assumed with an endpoint, and promotion happens
    before the hit counter can reach its threshold. *)
Definition path_inv (p : PeerPath) : Prop :=
  (mode p = Direct → has_direct p = true) ∧ 0 ≤ path_hits p < DIRECT_PROMOTE_HITS.

Lemma path_inv_new b : path_inv (PeerPath.new b).
Proof. destruct b; unfold path_inv; simpl; split; done. Qed.

Lemma path_inv_step p e : path_inv p → path_inv (step p e).
Proof.
  intros [Hd Hh]. unfold path_inv, DIRECT_PROMOTE_HITS in *. destruct e as [now ready| |b]; simpl.
  - unfold PeerPath.route. destruct ready; simpl; [|done].
    destruct (mode p) eqn:Hm; simpl.
    + case_match; simpl; (split; [done|lia]).
    + destruct (has_direct p) eqn:Hd'; simpl; [|rw Hm; done].
      repeat case_match; simpl; rw ?Hm; (split; [done|lia]).
  - unfold PeerPath.direct_received, DIRECT_PROMOTE_HITS. case_match; to_prop; simpl.
    + case_match; to_prop; simpl; (split; [done|mlia]).
    + done.
  - by destruct b.
Qed.

Lemma path_reachable_inv p : reachable p → path_inv p.
Proof. induction 1; [apply path_inv_new|by apply path_inv_step]. Qed.

(** No datagram is black-holed or sent nowhere: on every reachable path a
    datagram goes directly only when the peer has a direct endpoint, through
    the relay only when a relay is ready, and it goes somewhere unless there
    is neither. *)
Theorem route_total_and_sound (p : PeerPath) (now : Z) (relay_ready : bool) :
  reachable p →
  let r := (PeerPath.route p now relay_ready).2 in
  (direct r = true → has_direct p = true) ∧ (relay r = true → relay_ready = true) ∧
  (has_direct p = true ∨ relay_ready = true → direct r = true ∨ relay r = true).
Proof.
  intros [Hd _]%path_reachable_inv. unfold PeerPath.route. destruct relay_ready; simpl; [|naive_solver].
  destruct (mode p) eqn:Hm; simpl.
  - specialize (Hd eq_refl). case_match; naive_solver.
  - destruct (has_direct p); simpl; [|naive_solver]. repeat case_match; naive_solver.
Qed.

Lemma route_total_and_sound_witness :
  let p := PeerPath.new false in
  direct (PeerPath.route p 0 true).2 = true ∨ relay (PeerPath.route p 0 true).2 = true.
Proof.
  intros p. destruct (route_total_and_sound p 0 true (reach_new false)) as (_ & _ & Hgo).
  apply Hgo. right. reflexivity.
Defined.

(** A run of outbound datagrams at the given times with the relay ready. *)
Fixpoint routes (p : PeerPath) (times : list Z) : list Route :=
  match times with
  | [] => []
  | t :: times => let '(p, r) := PeerPath.route p t true in r :: routes p times
  end.

Lemma length_routes p times : length (routes p times) = length times.
Proof.
  revert p; induction times as [|t times IH]; intros p; [done|].
  simpl. destruct (PeerPath.route p t true). by rw /= IH.
Qed.

Lemma routes_direct_silence p t0 times :
  mode p = Direct → unanswered_since p = Some t0 →
  Forall (λ t, t < t0 + DIRECT_SILENCE) times →
  Forall (λ r, r = mkRoute true false) (routes p times).
Proof.
  intros Hm Hu Ht. revert p Hm Hu. induction Ht as [|t times Hlt _ IH]; intros p Hm Hu; [done|].
  simpl. unfold PeerPath.route. rw /= Hm Hu /=.
  assert ((duration_since t t0 <? DIRECT_SILENCE) = true) as -> by (unfold DIRECT_SILENCE in *; mlia).
  constructor; [done|]. by apply IH.
Qed.

Lemma routes_relayed_quiet p until times :
  mode p = Relay → probe_until p = None → next_probe p = Some until →
  Forall (λ t, t < until) times →
  Forall (λ r, r = mkRoute false true) (routes p times).
Proof.
  intros Hm Hp Hn Ht. induction Ht as [|t times Hlt _ IH]; [done|].
  simpl. unfold PeerPath.route. rw /= Hm Hp Hn. destruct (has_direct p); simpl.
  - rw (proj2 (Z.leb_gt _ _)) //. by constructor.
  - by constructor.
Qed.

(** Demotion needs sustained silence: from a fresh direct path, datagrams sent
    within 15 s of the first unanswered one all go direct; the first one sent
    later switches to the relay, and for the following 30 s everything is
    relayed without probing the direct endpoint. *)
Theorem demotion_timing (t0 t1 : Z) (early late : list Z) :
  Forall (λ t, t < t0 + secs 15) early → t0 + secs 15 ≤ t1 →
  Forall (λ t, t < t1 + secs 30) late →
  ∃ ds rs, routes (PeerPath.new true) (t0 :: early ++ t1 :: late)
             = mkRoute true false :: ds ++ mkRoute false true :: rs ∧
    length ds = length early ∧
    Forall (λ r, r = mkRoute true false) ds ∧ Forall (λ r, r = mkRoute false true) rs.
Proof.
  intros He H1 Hl.
  assert (∀ p, mode p = Direct → unanswered_since p = Some t0 →
    ∃ p', mode p' = Direct ∧ unanswered_since p' = Some t0 ∧
      ∀ rest, routes p (early ++ rest) = routes p early ++ routes p' rest) as Hsplit.
  { clear Hl. induction He as [|t early Ht _ IH]; intros p Hm Hu; [by exists p|].
    simpl. unfold PeerPath.route. rw /= Hm Hu /=.
    assert ((duration_since t t0 <? DIRECT_SILENCE) = true) as -> by (unfold DIRECT_SILENCE; mlia).
    edestruct (IH (mkPath Direct (has_direct p) (Some t0) (probe_until p) (next_probe p) (path_hits p)))
      as (p' & Hm' & Hu' & Heq); [done..|].
    exists p'. split; [done|]. split; [done|]. intros rest. by rw Heq. }
  set (p0 := mkPath Direct true (Some t0) None None 0).
  destruct (Hsplit p0 eq_refl eq_refl) as (p' & Hm' & Hu' & Heq).
  cbn [routes]. unfold PeerPath.route at 1. simpl.
  assert ((duration_since t0 t0 <? DIRECT_SILENCE) = true) as -> by (unfold DIRECT_SILENCE; mlia).
  rw Heq. cbn [routes]. unfold PeerPath.route at 1. rw /= Hm' Hu' /=.
  assert ((duration_since t1 t0 <? DIRECT_SILENCE) = false) as -> by (unfold DIRECT_SILENCE; mlia).
  eexists _, _. split; [done|]. split_and!.
  - apply length_routes.
  - by apply (routes_direct_silence _ t0).
  - by apply (routes_relayed_quiet _ (t1 + DIRECT_RETRY_EVERY)).
Qed.

Lemma demotion_timing_witness :
  ∃ ds rs, routes (PeerPath.new true) [secs 0; secs 14; secs 16; secs 20]
             = mkRoute true false :: ds ++ mkRoute false true :: rs ∧ length ds = 1%nat.
Proof.
  destruct (demotion_timing (secs 0) (secs 16) [secs 14] [secs 20]) as (ds & rs & Heq & Hl & _).
  - repeat constructor.
  - vm_compute. discriminate.
  - repeat constructor.
  - exists ds, rs. split; [exact Heq|exact Hl].
Defined.

(** Promotion needs repeated proof: while relayed, a direct datagram moves the
    peer back to the direct path only if another was already counted in the
    current probe, so one stray datagram after demotion never does. *)
Theorem promotion_needs_two_hits (p : PeerPath) :
  reachable p → mode p = Relay → has_direct p = true →
  mode (PeerPath.direct_received p) = (if path_hits p =? 1 then Direct else Relay) ∧
  (path_hits p = 0 → mode (PeerPath.direct_received (PeerPath.direct_received p)) = Direct).
Proof.
  intros [_ Hh]%path_reachable_inv Hm Hd. unfold DIRECT_PROMOTE_HITS in Hh.
  unfold PeerPath.direct_received. rw Hm Hd. rw bool_decide_eq_true_2 //=.
  assert (path_hits p = 0 ∨ path_hits p = 1) as [->| ->] by lia; by split.
Qed.

Lemma promotion_needs_two_hits_witness :
  let p := PeerPath.set_has_direct (PeerPath.new false) true in
  mode (PeerPath.direct_received p) = Relay.
Proof.
  intros p. apply (promotion_needs_two_hits p); try reflexivity.
  apply (reach_step _ (SetDirect true)). apply reach_new.
Defined.

End PathProps.
