(* ===== verification/Mobile.v ===== *)
(** * Mobile relay session

    [blaktail-relay-proto/src/mobile.rs]: the session object the iOS and
    Android hosts drive.  [MobileRelay] is a record with the source's fields;
    each [&mut self] method returns the new record, with its result if any.
    The hash map of peers is a [gmap] and its iteration order a [HashIter]. *)

From S2P Require Import Prelude Text Net Frame Select Ladder.

Definition RELAY_GRACE : Z := secs 35.
Definition FAILBACK_PROBE : Z := secs 10.
Definition MAX_PEERS : nat := 4096.
Definition MAX_RELAYS : nat := 16.
Definition MAX_QUEUED_CONTROL : nat := 16.

Abbreviation PublicKey := bytes.

Record RelayOption := mkRelayOption {
  ro_endpoint : str;
  ro_region : str;
  ro_wss : option str
}.

Definition parse_relay_line (line : str) : option RelayOption :=
  match split 9 line with
  | endpoint :: region :: rest =>
      let endpoint := trim endpoint in
      let region := trim region in
      let wss := match rest with
                 | [] => None
                 | url :: _ => let url := trim url in
                               if bool_decide (url = []) then None else Some url
                 end in
      if bool_decide (endpoint = []) || negb (is_australian_region region) then None
      else
        Some (mkRelayOption endpoint region
                (match wss with
                 | Some url => if starts_with (lit "wss://") url && negb (contains_char 64 url)
                               then Some url else None
                 | None => None
                 end))
  | _ => None
  end.

Definition parse_relay_lines (text : str) : list RelayOption :=
  take MAX_RELAYS (omap parse_relay_line (lines text)).

Record Control := mkControl { c_link : Link; c_endpoint : str; c_frame : bytes }.

Record Outbound := mkOutbound { o_direct : bool; o_relay : option Link }.

Record Status := mkStatus {
  transport : str;
  relay_endpoint : option str;
  status_link : option Link;
  wss_url : option str;
  relay_healthy : bool;
  peers_direct : Z;
  peers_relayed : Z;
  status_failovers : Z
}.

Record Peer := mkPeer { p_id : NodeId; p_path : PeerPath; p_active : bool }.

Record Active := mkActive {
  a_endpoint : str;
  a_wss : option str;
  a_ladder : LinkLadder;
  a_started : Z;
  a_last_seen : option Z;
  a_round_ends : Z
}.

Record Failback := mkFailback { f_endpoint : str; f_until : Z }.

Record MobileRelay := mkMobile {
  self_id : NodeId;
  token : bytes;
  expires_at_unix : Z;
  allow_wss : bool;
  relays : list RelayOption;
  selector : Selector str;
  active : option Active;
  failback : option Failback;
  peers : gmap PublicKey Peer;
  control : list Control
}.

(** Assignments to single fields. *)
Definition set_relays (m : MobileRelay) t e rs :=
  mkMobile (self_id m) t e (allow_wss m) rs (selector m) (active m) (failback m) (peers m) (control m).
Definition set_selector (m : MobileRelay) s :=
  mkMobile (self_id m) (token m) (expires_at_unix m) (allow_wss m) (relays m) s (active m)
    (failback m) (peers m) (control m).
Definition set_active (m : MobileRelay) a :=
  mkMobile (self_id m) (token m) (expires_at_unix m) (allow_wss m) (relays m) (selector m) a
    (failback m) (peers m) (control m).
Definition set_failback (m : MobileRelay) f :=
  mkMobile (self_id m) (token m) (expires_at_unix m) (allow_wss m) (relays m) (selector m) (active m)
    f (peers m) (control m).
Definition set_peers (m : MobileRelay) ps :=
  mkMobile (self_id m) (token m) (expires_at_unix m) (allow_wss m) (relays m) (selector m) (active m)
    (failback m) ps (control m).
Definition set_control (m : MobileRelay) c :=
  mkMobile (self_id m) (token m) (expires_at_unix m) (allow_wss m) (relays m) (selector m) (active m)
    (failback m) (peers m) c.

Module MobileRelay.
Section ops.
Context `{!HashIter bytes}.
Implicit Types (m : MobileRelay) (now : Z).

Definition new (self_id : NodeId) (allow_wss : bool) : MobileRelay :=
  mkMobile self_id (replicate TOKEN_LEN 0) 0 allow_wss [] default_selector None None ∅ [].

Definition candidates m : list str := map ro_endpoint (relays m).

Definition find_relay m (endpoint : str) : option RelayOption :=
  find (λ r, bool_decide (ro_endpoint r = endpoint)) (relays m).

(** [while self.control.len() + 2 > MAX_QUEUED_CONTROL { pop_front }] *)
Fixpoint make_room (q : list Control) : list Control :=
  match q with
  | [] => []
  | c :: r => if (MAX_QUEUED_CONTROL <? length q + 2)%nat then make_room r else q
  end.

Definition push_probe m (l : Link) (endpoint : str) : MobileRelay :=
  if expires_at_unix m =? 0 then m
  else set_control m
    (make_room (control m)
     ++ [mkControl l endpoint (register_frame (self_id m) (expires_at_unix m) (token m));
         mkControl l endpoint (ping_frame (self_id m))]).

Definition queue_registration m : MobileRelay :=
  match active m with
  | None => m
  | Some a =>
      let on_wss := bool_decide (link (a_ladder a) = Wss) && negb (LinkLadder.udp_proven (a_ladder a)) in
      let m := push_probe m Udp (a_endpoint a) in
      if on_wss then push_probe m Wss (a_endpoint a) else m
  end.

Definition wss_of m (r : option RelayOption) : option str :=
  match r with
  | Some r => if allow_wss m then ro_wss r else None
  | None => None
  end.

Definition is_some {A} (o : option A) : bool := match o with Some _ => true | None => false end.

Definition activate m (endpoint : str) now : MobileRelay :=
  let wss := wss_of m (find_relay m endpoint) in
  let ladder := LinkLadder.new (is_some wss) in
  queue_registration
    (set_active m (Some (mkActive endpoint wss ladder now None (now + LinkLadder.round_length ladder)))).

Definition activate_choice m now : MobileRelay :=
  match choose (selector m) (candidates m) now with
  | Some endpoint => activate m endpoint now
  | None => m
  end.

Definition configure m (token' : bytes) (expires' : Z) (relays' : list RelayOption) now : MobileRelay :=
  let token_changed :=
    negb (bool_decide (token' = token m)) || negb (expires' =? expires_at_unix m) in
  let m := set_relays m token' expires' relays' in
  let still_listed := match active m with Some a => find_relay m (a_endpoint a) | None => None end in
  match active m, still_listed with
  | Some a, Some r =>
      let wss := wss_of m (Some r) in
      let a := mkActive (a_endpoint a) wss (LinkLadder.set_wss_available (a_ladder a) (is_some wss))
                 (a_started a) (a_last_seen a) (a_round_ends a) in
      let m := set_active m (Some a) in
      if token_changed then queue_registration m else m
  | _, _ => activate_choice (set_active m None) now
  end.

Definition set_peer m (public_key : PublicKey) (id : NodeId) (has_direct : bool) : MobileRelay :=
  match peers m !! public_key with
  | Some p =>
      set_peers m (<[public_key := mkPeer id (PeerPath.set_has_direct (p_path p) has_direct) true]> (peers m))
  | None =>
      if (MAX_PEERS <=? size (peers m))%nat then m
      else set_peers m (<[public_key := mkPeer id (PeerPath.new has_direct) true]> (peers m))
  end.

Definition begin_peer_refresh m : MobileRelay :=
  set_peers m ((λ p, mkPeer (p_id p) (p_path p) false) <$> peers m).

Definition end_peer_refresh m : MobileRelay :=
  set_peers m (filter (λ kp, p_active kp.2 = true) (peers m)).

Definition relay_ready m : bool := is_some (active m) && (0 <? expires_at_unix m).

Definition active_link m : option Link := (λ a, link (a_ladder a)) <$> active m.

Definition outbound m (peer : PublicKey) now : MobileRelay * Outbound :=
  let ready := relay_ready m in
  let l := active_link m in
  match peers m !! peer with
  | None => (m, mkOutbound true None)
  | Some p =>
      let '(path, r) := PeerPath.route (p_path p) now ready in
      (set_peers m (<[peer := mkPeer (p_id p) path (p_active p)]> (peers m)),
       mkOutbound (direct r) (if relay r then l else None))
  end.

Definition relayed_peer_ids m : list NodeId :=
  if negb (relay_ready m) then []
  else map (λ kp, p_id kp.2)
         (filter (λ kp, mode (p_path kp.2) = Relay) (hash_iter (peers m))).

Definition peer_id m (peer : PublicKey) : option NodeId := p_id <$> peers m !! peer.

Definition direct_received m (peer : PublicKey) : MobileRelay :=
  match peers m !! peer with
  | None => m
  | Some p =>
      set_peers m (<[peer := mkPeer (p_id p) (PeerPath.direct_received (p_path p)) (p_active p)]> (peers m))
  end.

Definition observed m (l : Link) (endpoint : str) now : MobileRelay :=
  let probed := match l, failback m with
                | Udp, Some f => bool_decide (f_endpoint f = endpoint) && (now <? f_until f)
                | _, _ => false
                end in
  if probed then
    let m := set_failback m None in
    let m := set_selector m (note_failback (record_healthy (selector m) endpoint)) in
    activate m endpoint now
  else
    match active m with
    | None => m
    | Some a =>
        let matches := match l with
                       | Udp => bool_decide (a_endpoint a = endpoint)
                       | Wss => is_some (a_wss a)
                       end in
        if negb matches then m
        else
          let ladder := match l with
                        | Udp => LinkLadder.udp_answered (a_ladder a)
                        | Wss => a_ladder a
                        end in
          let m := set_active m (Some (mkActive (a_endpoint a) (a_wss a) ladder (a_started a)
                                         (Some now) (a_round_ends a))) in
          set_selector m (record_healthy (selector m) (a_endpoint a))
    end.

Definition inbound m (data : bytes) (l : Link) (endpoint : str) now :
    MobileRelay * option (PublicKey * bytes) :=
  match parse_observed data (self_id m) with
  | Some _ => (observed m l endpoint now, None)
  | None =>
      match parse_forwarded data with
      | None => (m, None)
      | Some (source, payload) =>
          let from_active :=
            match active m with
            | None => false
            | Some a => match l with
                        | Udp => bool_decide (a_endpoint a = endpoint)
                        | Wss => bool_decide (link (a_ladder a) = Wss)
                        end
            end in
          if negb from_active then (m, None)
          else
            (m, (λ kp, (kp.1, payload))
                <$> find (λ kp, bool_decide (p_id kp.2 = source)) (hash_iter (peers m)))
      end
  end.

Definition healthy (a : Active) now : bool :=
  match a_last_seen a with
  | None => duration_since now (a_started a) <? RELAY_GRACE
  | Some seen => duration_since now seen <? RELAY_HEALTH
  end.

(** The end of a probe round, when one is due. *)
Definition close_round m (a : Active) now : MobileRelay :=
  if a_round_ends a <=? now then
    let ladder := (LinkLadder.end_round (a_ladder a)).1 in
    let a := mkActive (a_endpoint a) (a_wss a) ladder (a_started a) (a_last_seen a)
               (now + LinkLadder.round_length ladder) in
    queue_registration (set_active m (Some a))
  else m.

(** Expiry of a fail-back probe, or the start of one. *)
Definition step_failback m now : MobileRelay :=
  match failback m with
  | Some f =>
      if f_until f <=? now then
        let m := set_failback m None in
        set_selector m (record_failure (selector m) (f_endpoint f) now).1
      else m
  | None =>
      match active m with
      | None => m
      | Some a =>
          match failback_target (selector m) (a_endpoint a) (candidates m) now with
          | None => m
          | Some target =>
              push_probe (set_failback m (Some (mkFailback target (now + FAILBACK_PROBE)))) Udp target
          end
      end
  end.

Definition tick m now : MobileRelay :=
  if bool_decide (relays m = []) || (expires_at_unix m =? 0) then set_active m None
  else
    let m := match active m with None => activate_choice m now | Some _ => m end in
    match active m with
    | None => m
    | Some a =>
        if negb (healthy a now) then
          let m := set_selector m (record_failure (selector m) (a_endpoint a) now).1 in
          let m := set_selector m (note_failover (selector m)) in
          activate_choice (set_active m None) now
        else step_failback (close_round m a now) now
    end.

Definition poll m : MobileRelay * option Control :=
  match control m with
  | [] => (m, None)
  | c :: rest => (set_control m rest, Some c)
  end.

Definition status m now : Status :=
  let ready := relay_ready m in
  let is_relayed (kp : PublicKey * Peer) := bool_decide (mode (p_path kp.2) = Relay) && ready in
  let relayed := len (List.filter is_relayed (hash_iter (peers m))) in
  let direct := len (List.filter (λ kp, negb (is_relayed kp)) (hash_iter (peers m))) in
  let l := active_link m in
  mkStatus
    (if relayed =? 0 then (if direct =? 0 then lit "none" else lit "direct")
     else match l with
          | Some l => transport_label l
          | None => lit "direct"
          end)
    (a_endpoint <$> active m)
    l
    (match active m with
     | Some a => if bool_decide (link (a_ladder a) = Wss) then a_wss a else None
     | None => None
     end)
    (match active m with
     | Some a => match a_last_seen a with
                 | Some seen => duration_since now seen <? RELAY_HEALTH
                 | None => false
                 end
     | None => false
     end)
    direct relayed (failovers (selector m)).

End ops.
End MobileRelay.

(** ** Session invariants *)

Module MobileProps.
Import MobileRelay.
Section props.
Context `{!HashIter bytes}.
Implicit Types (m : MobileRelay) (now : Z).

(** Everything the host can do to a session. *)
Inductive op :=
| Configure (token' : bytes) (expires' : Z) (relays' : list RelayOption) (now : Z)
| SetPeer (key : PublicKey) (id : NodeId) (has_direct : bool)
| BeginRefresh
| EndRefresh
| SendTo (key : PublicKey) (now : Z)
| DirectFrom (key : PublicKey)
| FromRelay (data : bytes) (l : Link) (endpoint : str) (now : Z)
| Tick (now : Z)
| Poll.

Definition step m (o : op) : MobileRelay :=
  match o with
  | Configure t e rs now => configure m t e rs now
  | SetPeer k id d => set_peer m k id d
  | BeginRefresh => begin_peer_refresh m
  | EndRefresh => end_peer_refresh m
  | SendTo k now => (outbound m k now).1
  | DirectFrom k => direct_received m k
  | FromRelay data l e now => (inbound m data l e now).1
  | Tick now => tick m now
  | Poll => (poll m).1
  end.

Inductive reachable : MobileRelay → Prop :=
| reach_new id allow : reachable (new id allow)
| reach_step m o : reachable m → reachable (step m o).

(** The active relay's ladder may use the WebSocket only with an approved
    endpoint, which exists only on platforms that can open one. *)
Definition wf_active m (a : Active) : Prop :=
  wss_available (a_ladder a) = is_some (a_wss a) ∧
  (link (a_ladder a) = Wss → wss_available (a_ladder a) = true) ∧
  (allow_wss m = false → a_wss a = None).

Record inv m : Prop := mkInv {
  inv_control : (length (control m) ≤ MAX_QUEUED_CONTROL)%nat;
  inv_peers : (size (peers m) ≤ MAX_PEERS)%nat;
  inv_active : ∀ a, active m = Some a → wf_active m a;
  inv_paths : map_Forall (λ _ p, PathProps.path_inv (p_path p)) (peers m);
  inv_strikes : map_Forall (λ _ f, 1 ≤ strikes f) (failures (selector m))
}.

Lemma make_room_length q : (length (make_room q) ≤ 14)%nat.
Proof.
  induction q as [|c q IH]; simpl; [lia|]. unfold MAX_QUEUED_CONTROL. case_match; [done|].
  to_prop. simpl in *. lia.
Qed.

(** Two states that agree on everything but the control queue. *)
Definition same_but_control m m' : Prop :=
  self_id m' = self_id m ∧ token m' = token m ∧ expires_at_unix m' = expires_at_unix m ∧
  allow_wss m' = allow_wss m ∧ relays m' = relays m ∧ selector m' = selector m ∧
  active m' = active m ∧ failback m' = failback m ∧ peers m' = peers m.

Lemma push_probe_frame m l e : same_but_control m (push_probe m l e).
Proof. unfold push_probe. by case_match. Qed.

Lemma queue_registration_frame m : same_but_control m (queue_registration m).
Proof.
  unfold queue_registration. destruct (active m); [|done].
  destruct (_ && _); [|apply push_probe_frame].
  unfold push_probe. simpl. by repeat case_match.
Qed.

Lemma push_probe_inv m l e : inv m → inv (push_probe m l e).
Proof.
  intros [Hc Hp Ha Hpa Hs]. unfold push_probe. case_match; [done|].
  split; simpl; try done. pose proof (make_room_length (control m)).
  rw length_app /=. unfold MAX_QUEUED_CONTROL. lia.
Qed.

Lemma queue_registration_inv m : inv m → inv (queue_registration m).
Proof.
  intros Hi. unfold queue_registration. destruct (active m); [|done].
  destruct (_ && _); repeat apply push_probe_inv; done.
Qed.

Lemma set_active_inv m a :
  inv m → match a with Some a => wf_active m a | None => True end → inv (set_active m a).
Proof.
  intros [Hc Hp Ha Hpa Hs] Hwf. split; simpl; try done. by intros a' ->.
Qed.

Lemma set_selector_inv m s :
  inv m → map_Forall (λ _ f, 1 ≤ strikes f) (failures s) → inv (set_selector m s).
Proof. intros [Hc Hp Ha Hpa Hs] Hwf. by split. Qed.

Lemma set_failback_inv m f : inv m → inv (set_failback m f).
Proof. intros [Hc Hp Ha Hpa Hs]. by split. Qed.

Lemma wf_active_new m e now t :
  wf_active m (mkActive e (wss_of m (find_relay m e))
    (LinkLadder.new (is_some (wss_of m (find_relay m e)))) now None t).
Proof.
  split; [done|]. split; [done|]. simpl. intros Ha. unfold wss_of. rw Ha. by case_match.
Qed.

Lemma activate_inv m e now : inv m → inv (activate m e now).
Proof. intros Hi. apply queue_registration_inv, set_active_inv; [done|]. apply wf_active_new. Qed.

Lemma activate_choice_inv m now : inv m → inv (activate_choice m now).
Proof. intros Hi. unfold activate_choice. case_match; [by apply activate_inv|done]. Qed.

Lemma record_failure_strikes (s : Selector str) e now :
  map_Forall (λ _ f, 1 ≤ strikes f) (failures s) →
  map_Forall (λ _ f, 1 ≤ strikes f) (failures (record_failure s e now).1).
Proof.
  intros Hs. simpl. apply map_Forall_insert_2; [|done]. simpl.
  destruct (failures s !! e) as [f|] eqn:Hf; [|lia]. apply Hs in Hf. simpl in Hf. mlia.
Qed.

Lemma record_healthy_strikes (s : Selector str) e :
  map_Forall (λ _ f, 1 ≤ strikes f) (failures s) →
  map_Forall (λ _ f, 1 ≤ strikes f) (failures (record_healthy s e)).
Proof. intros Hs. by apply map_Forall_delete. Qed.

Lemma set_relays_inv m t e rs : inv m → inv (set_relays m t e rs).
Proof. intros [Hc Hp Ha Hpa Hs]. by split. Qed.

Lemma configure_inv m t e rs now : inv m → inv (configure m t e rs now).
Proof.
  intros Hi. unfold configure. pose proof (set_relays_inv m t e rs Hi) as Hr.
  set (m1 := set_relays m t e rs) in *. destruct (active m1) as [a|] eqn:Ha; last first.
  { by apply activate_choice_inv, set_active_inv. }
  destruct (find_relay m1 (a_endpoint a)) as [r|]; last by apply activate_choice_inv, set_active_inv.
  assert (inv (set_active m1 (Some (mkActive (a_endpoint a) (wss_of m1 (Some r))
    (LinkLadder.set_wss_available (a_ladder a) (is_some (wss_of m1 (Some r))))
    (a_started a) (a_last_seen a) (a_round_ends a))))) as Hset.
  { apply set_active_inv; [done|]. split; [done|]. split; simpl.
    - by destruct (if allow_wss m then ro_wss r else None).
    - by intros ->. }
  case_match; [by apply queue_registration_inv|done].
Qed.

Lemma set_peers_inv m ps :
  inv m → (size ps ≤ MAX_PEERS)%nat →
  map_Forall (λ _ p, PathProps.path_inv (p_path p)) ps → inv (set_peers m ps).
Proof. intros [Hc Hp Ha Hpa Hs] ? ?. by split. Qed.

(** Replacing the entry of a known peer. *)
Lemma update_peer_inv m k p p' :
  inv m → peers m !! k = Some p → PathProps.path_inv (p_path p') →
  inv (set_peers m (<[k := p']> (peers m))).
Proof.
  intros Hi Hk Hp. apply set_peers_inv; [done| |].
  - rw map_size_insert_Some //. apply Hi.
  - apply map_Forall_insert_2; [done|apply Hi].
Qed.

Lemma set_peer_inv m k id d : inv m → inv (set_peer m k id d).
Proof.
  intros Hi. unfold set_peer. destruct (peers m !! k) as [p|] eqn:Hk.
  - eapply update_peer_inv; [done..|]. simpl.
    apply (PathProps.path_inv_step (p_path p) (PathProps.SetDirect d)). by apply (inv_paths m Hi) in Hk.
  - case_match; [done|]. to_prop. apply set_peers_inv; [done| |].
    + rw map_size_insert_None //.
    + apply map_Forall_insert_2; [apply PathProps.path_inv_new|apply Hi].
Qed.

Lemma peer_refresh_inv m : inv m → inv (begin_peer_refresh m) ∧ inv (end_peer_refresh m).
Proof.
  intros Hi. split; apply set_peers_inv; try done.
  - rw map_size_fmap. apply Hi.
  - intros k p (p0 & <- & Hp0)%lookup_fmap_Some. by apply (inv_paths m Hi) in Hp0.
  - etransitivity; [|apply (inv_peers m Hi)]. apply map_subseteq_size, map_filter_subseteq.
  - intros k p [Hp _]%map_lookup_filter_Some. by apply (inv_paths m Hi) in Hp.
Qed.

Lemma observed_inv m l e now : inv m → inv (observed m l e now).
Proof.
  intros Hi. unfold observed. set (probed := match l with Udp => _ | Wss => _ end). destruct probed.
  { apply activate_inv, set_selector_inv; [by apply set_failback_inv|].
    apply record_healthy_strikes, Hi. }
  destruct (active m) as [a|] eqn:Ha; [|done]. apply (inv_active m Hi) in Ha as (Hw & Hl & Hn).
  case_match; [done|]. apply set_selector_inv; [|apply record_healthy_strikes, Hi].
  apply set_active_inv; [done|]. by destruct l.
Qed.

Lemma close_round_inv m a now : inv m → active m = Some a → inv (close_round m a now).
Proof.
  intros Hi Ha. unfold close_round. case_match; [|done].
  apply (inv_active m Hi) in Ha as (Hw & Hl & Hn).
  apply queue_registration_inv, set_active_inv; [done|].
  unfold wf_active, LinkLadder.end_round. simpl.
  destruct (answered (a_ladder a)); simpl; (split; [done|]; split; [|done]);
    destruct (link (a_ladder a)); repeat case_match; to_prop; auto; done.
Qed.

Lemma step_failback_inv m now : inv m → inv (step_failback m now).
Proof.
  intros Hi. unfold step_failback. destruct (failback m) as [f|].
  - case_match; [|done]. apply set_selector_inv; [by apply set_failback_inv|].
    apply record_failure_strikes, Hi.
  - destruct (active m); [|done]. case_match; [|done]. by apply push_probe_inv, set_failback_inv.
Qed.

Lemma tick_inv m now : inv m → inv (tick m now).
Proof.
  intros Hi. unfold tick. case_match; [by apply set_active_inv|].
  set (m1 := match active m with None => _ | Some _ => m end).
  assert (inv m1) as Hi1 by (unfold m1; destruct (active m); [done|by apply activate_choice_inv]).
  destruct (active m1) as [a|] eqn:Ha; [|done]. case_match.
  - apply activate_choice_inv, set_active_inv; [|done].
    apply set_selector_inv; [apply set_selector_inv; [done|]|]; apply record_failure_strikes, Hi1.
  - by apply step_failback_inv, close_round_inv.
Qed.

Lemma poll_inv m : inv m → inv (poll m).1.
Proof.
  intros Hi. unfold poll. destruct (control m) eqn:Hq; simpl; [done|].
  destruct Hi as [Hc Hp Ha Hpa Hs]. rw Hq /= in Hc. split; simpl; try done. lia.
Qed.

Lemma step_inv m o : inv m → inv (step m o).
Proof.
  intros Hi. destruct o as [t e rs now|k id d| | |k now|k|data l e now|now|]; simpl.
  - by apply configure_inv.
  - by apply set_peer_inv.
  - by apply peer_refresh_inv.
  - by apply peer_refresh_inv.
  - unfold outbound. destruct (peers m !! k) as [p|] eqn:Hk; [|done].
    pose proof (PathProps.path_inv_step (p_path p) (PathProps.Outbound now (relay_ready m))) as Hp.
    simpl in Hp. destruct (PeerPath.route _ _ _) as [path r]. simpl in *.
    eapply update_peer_inv; [done..|]. apply Hp. by apply (inv_paths m Hi) in Hk.
  - unfold direct_received. destruct (peers m !! k) as [p|] eqn:Hk; [|done].
    eapply update_peer_inv; [done..|].
    apply (PathProps.path_inv_step (p_path p) PathProps.Received). by apply (inv_paths m Hi) in Hk.
  - unfold inbound. repeat case_match; simpl; try done. by apply observed_inv.
  - by apply tick_inv.
  - by apply poll_inv.
Qed.

Lemma reachable_inv m : reachable m → inv m.
Proof.
  induction 1 as [id allow|m o _ IH]; [|by apply step_inv].
  split; simpl; try done; [unfold MAX_QUEUED_CONTROL; lia|rw map_size_empty; unfold MAX_PEERS; lia].
Qed.

(** Bounds and link discipline of a session: after any sequence of host calls the
    control queue holds at most 16 frames and the peer table at most 4096
    peers, and a platform without WebSockets is never told to use one. *)
Theorem session_bounded m :
  reachable m →
  (length (control m) ≤ 16)%nat ∧ (size (peers m) ≤ 4096)%nat ∧
  (allow_wss m = false → active_link m ≠ Some Wss) ∧
  (∀ a, active m = Some a → link (a_ladder a) = Wss → is_Some (a_wss a)).
Proof.
  intros [Hc Hp Ha _ _]%reachable_inv. split; [done|]. split; [done|].
  assert (∀ a, active m = Some a → link (a_ladder a) = Wss → is_Some (a_wss a)) as Hwss.
  { intros a Ham Hl. destruct (Ha a Ham) as (Hw & Hav & _). rw Hav // in Hw. by destruct (a_wss a). }
  split; [|done]. unfold active_link. intros Hallow (a & Ham & Hl)%fmap_Some.
  destruct (Hwss a Ham) as [u Hu]; [done|]. destruct (Ha a Ham) as (_ & _ & Hn).
  by rw Hn in Hu.
Qed.

(** [C33] Only the active relay delivers traffic, and only for known peers: when
    [inbound] hands a payload to the host, the frame was a well-formed
    FORWARDED frame whose source id belongs to the returned peer, it came
    over the active relay, and the session state did not change. *)
Theorem inbound_authentic m (data : bytes) (l : Link) (endpoint : str) now m' key payload :
  inbound m data l endpoint now = (m', Some (key, payload)) →
  m' = m ∧
  (∃ p, peers m !! key = Some p ∧ data = [FORWARDED] ++ p_id p ++ payload) ∧
  (∃ a, active m = Some a ∧
        match l with Udp => a_endpoint a = endpoint | Wss => link (a_ladder a) = Wss end).
Proof.
  unfold inbound. destruct (parse_observed data (self_id m)); [done|].
  destruct (parse_forwarded data) as [[source pl]|] eqn:Hf; [|done].
  destruct (active m) as [a|] eqn:Ha; [|done]. case_match eqn:Hfrom; [done|].
  intros [= <- (kp & Hfind & [= -> ->])%fmap_Some]. split; [done|].
  apply find_Some in Hfind as (pre & post & Hit & _ & Hid). to_prop. split.
  - exists kp.2. split.
    + apply hash_iter_elem. destruct kp. rw Hit. set_solver.
    + rw Hid. by apply parse_forwarded_inv in Hf as [? _].
  - exists a. split; [done|]. destruct l; to_prop; done.
Qed.

Lemma activate_active m e now :
  ∃ a, active (activate m e now) = Some a ∧ a_endpoint a = e ∧ a_last_seen a = None.
Proof.
  unfold activate. set (m1 := set_active m _).
  destruct (queue_registration_frame m1) as (_ & _ & _ & _ & _ & _ & -> & _). by eexists.
Qed.

Lemma activate_choice_active m now :
  relays m ≠ [] →
  ∃ a, active (activate_choice m now) = Some a ∧
       choose (selector m) (candidates m) now = Some (a_endpoint a).
Proof.
  intros Hr. unfold activate_choice.
  destruct (choose_some (selector m) (candidates m) now) as [e He].
  { unfold candidates. by destruct (relays m). }
  rw He. destruct (activate_active m e now) as (a & Ha & He' & _). exists a. by rw He'.
Qed.

Lemma push_probe_active m l e : active (push_probe m l e) = active m.
Proof. apply push_probe_frame. Qed.

(** A session with a capability and at least one advertised relay always has
    an active relay after a tick: it never gives up on relaying. *)
Theorem tick_keeps_a_relay m now :
  relays m ≠ [] → expires_at_unix m ≠ 0 → is_Some (active (tick m now)).
Proof.
  intros Hr He. unfold tick. rw bool_decide_eq_false_2 // (proj2 (Z.eqb_neq _ _)) //=.
  set (m1 := match active m with None => _ | Some _ => m end).
  assert (is_Some (active m1)) as [a Ha].
  { unfold m1. destruct (active m) eqn:Hm; [by eexists|].
    destruct (activate_choice_active m now Hr) as (a & -> & _). done. }
  rw Ha. assert (relays m1 = relays m) as Hrel.
  { unfold m1. destruct (active m); [done|]. unfold activate_choice. case_match; [|done].
    apply (queue_registration_frame (set_active m _)). }
  case_match.
  - set (m2 := set_active _ None). destruct (activate_choice_active m2 now) as (b & -> & _); [|done].
    unfold m2. simpl. by rw Hrel.
  - set (m2 := close_round m1 a now). assert (is_Some (active m2)) as Hact.
    { unfold m2, close_round. case_match; [|done].
      set (m3 := set_active m1 _). destruct (queue_registration_frame m3) as (_&_&_&_&_&_& -> &_).
      done. }
    unfold step_failback. destruct (failback m2); [by case_match|].
    destruct (active m2) eqn:Hm2; [|done]. case_match; [|by rw Hm2].
    rw push_probe_active. simpl. by rw Hm2.
Qed.

(** Fail-over: when the active relay has been silent too long and some other
    advertised relay is not cooling down, a tick records the failure and
    activates a relay that is not cooling and is not the failed one. *)
Theorem tick_fails_over m now a other :
  reachable m → relays m ≠ [] → expires_at_unix m ≠ 0 →
  active m = Some a → healthy a now = false →
  other ∈ candidates m → other ≠ a_endpoint a → cooling (selector m) other now = false →
  ∃ b, active (tick m now) = Some b ∧ a_endpoint b ≠ a_endpoint a ∧
       a_endpoint b ∈ candidates m ∧ cooling (selector m) (a_endpoint b) now = false ∧
       cooling (selector (tick m now)) (a_endpoint a) now = true.
Proof.
  intros Hreach Hr He Ha Hh Ho Hne Hcool.
  unfold tick. rw bool_decide_eq_false_2 // (proj2 (Z.eqb_neq _ _)) //.
  rw Ha. cbv zeta. rw Ha Hh. cbn [orb negb].
  set (s2 := note_failover _). set (m2 := set_active _ None).
  assert (∀ x, cooling s2 x now = cooling (record_failure (selector m) (a_endpoint a) now).1 x now)
    as Hs2 by done.
  assert (cooling s2 (a_endpoint a) now = true) as Hself.
  { rw Hs2. apply record_failure_cools; [unfold BASE_COOLDOWN, secs; lia|].
    destruct (failures (selector m) !! a_endpoint a) as [f|] eqn:Hf; [|done].
    pose proof (inv_strikes m (reachable_inv m Hreach) _ _ Hf) as Hst. simpl in Hst. lia. }
  destruct (activate_choice_active m2 now) as (b & Hb & Hch); [done|].
  exists b. rw Hb. simpl in Hch. change (candidates m2) with (candidates m) in Hch.
  assert (cooling s2 (a_endpoint b) now = false) as Hbc.
  { eapply choose_avoids_cooling; [exact Hch|exact Ho|]. by rw Hs2 cooling_record_failure_other. }
  assert (a_endpoint b ≠ a_endpoint a) as Hnb by congruence.
  repeat split; [done|by eapply choose_elem| |].
  - by rw Hs2 cooling_record_failure_other in Hbc.
  - unfold activate_choice. simpl. rw Hch. unfold activate.
    set (m3 := set_active m2 _). by destruct (queue_registration_frame m3) as (_&_&_&_&_& -> &_).
Qed.

End props.

(** ** Concrete sessions *)

Definition relay_a : RelayOption := mkRelayOption (lit "a.example.au:3478") (lit "ap-southeast-2") None.
Definition relay_b : RelayOption := mkRelayOption (lit "b.example.au:3478") (lit "australiaeast") None.
Definition node : NodeId := replicate 16 1.
Definition observed_reply : bytes := observed_frame node (mkSocketAddr (V4 3405803785) 40000).
Definition start : MobileRelay := new node false.
Definition configured : MobileRelay :=
  step start (Configure (replicate 32 5) 100 [relay_a; relay_b] (secs 0)).

Lemma configured_reachable : reachable configured.
Proof. apply reach_step, reach_new. Qed.

Lemma session_bounded_witness : (length (control configured) ≤ 16)%nat.
Proof. apply (session_bounded configured configured_reachable). Defined.

Definition with_peer : MobileRelay := step configured (SetPeer (replicate 32 9) (replicate 16 2) true).

Lemma inbound_authentic_witness :
  inbound with_peer ([FORWARDED] ++ replicate 16 2 ++ [7; 7]) Udp (lit "a.example.au:3478") 0
    = (with_peer, Some (replicate 32 9, [7; 7])) ∧
  ∃ p, peers with_peer !! replicate 32 9 = Some p.
Proof.
  assert (inbound with_peer ([FORWARDED] ++ replicate 16 2 ++ [7; 7]) Udp (lit "a.example.au:3478") 0
    = (with_peer, Some (replicate 32 9, [7; 7]))) as Hin by (vm_compute; reflexivity).
  split; [exact Hin|].
  destruct (inbound_authentic _ _ _ _ _ _ _ _ Hin) as (_ & (p & Hp & _) & _). by exists p.
Defined.

Lemma tick_keeps_a_relay_witness : is_Some (active (tick configured (secs 100))).
Proof. apply tick_keeps_a_relay; vm_compute; discriminate. Defined.

Lemma tick_fails_over_witness :
  ∃ b, active (tick configured (secs 36)) = Some b ∧ a_endpoint b ≠ lit "a.example.au:3478".
Proof.
  destruct (active configured) as [a|] eqn:Ha; [|vm_compute in Ha; discriminate].
  vm_compute in Ha. injection Ha as Ha.
  destruct (tick_fails_over configured (secs 36) a (lit "b.example.au:3478"))
    as (b & Hb & Hne & _).
  - apply configured_reachable.
  - vm_compute. discriminate.
  - vm_compute. discriminate.
  - vm_compute. by rewrite <- Ha.
  - rewrite <- Ha. vm_compute. reflexivity.
  - vm_compute. set_solver.
  - rewrite <- Ha. vm_compute. discriminate.
  - vm_compute. reflexivity.
  - exists b. split; [exact Hb|]. by rewrite <- Ha in Hne.
Defined.

(** The host's calls: relay A fails, B takes over and answers, a fail-back
    probe to A starts, the coordinator withdraws A, and A's answer arrives. *)
Definition withdrawn_run : list op :=
  [Configure (replicate 32 5) 100 [relay_a; relay_b] (secs 0);
   Tick (secs 36);
   FromRelay observed_reply Udp (ro_endpoint relay_b) (secs 40);
   Tick (secs 67);
   Configure (replicate 32 5) 100 [relay_b] (secs 68);
   FromRelay observed_reply Udp (ro_endpoint relay_a) (secs 70)].

Lemma run_reachable `{!HashIter bytes} m ops : reachable m → reachable (foldl step m ops).
Proof. revert m; induction ops as [|o ops IH]; intros m Hm; [done|]. by apply IH, reach_step. Qed.

(** A relay the coordinator has withdrawn can become the active relay: a
    pending fail-back probe survives [configure], so a late answer activates
    an endpoint that is no longer advertised. *)
Theorem withdrawn_relay_reactivated :
  ∃ m a, reachable m ∧ active m = Some a ∧ a_endpoint a ∉ candidates m.
Proof.
  exists (foldl step start withdrawn_run).
  destruct (active (foldl step start withdrawn_run)) as [a|] eqn:Ha; [|vm_compute in Ha; discriminate].
  exists a. split; [apply run_reachable, reach_new|]. split; [done|].
  vm_compute in Ha. injection Ha as <-. apply (bool_decide_unpack _). vm_compute. exact I.
Qed.

End MobileProps.

(** ** The relay list *)

Definition approved_relay (r : RelayOption) : Prop :=
  ro_endpoint r ≠ [] ∧ is_australian_region (ro_region r) = true ∧
  (∀ url, ro_wss r = Some url → starts_with (lit "wss://") url = true ∧ 64 ∉ url).

Lemma parse_relay_line_approved line r : parse_relay_line line = Some r → approved_relay r.
Proof.
  unfold parse_relay_line. destruct (split 9 line) as [|e [|rg rest]]; [done..|].
  destruct (bool_decide (trim e = []) || _) eqn:Hok; [done|]. to_prop.
  intros [= <-]. unfold approved_relay. simpl. split; [done|]. split; [done|].
  set (wss := match rest with [] => None | _ => _ end). clearbody wss. intros url Hurl.
  destruct wss as [u|]; [|done]. case_match; [|done]. to_prop. simplify_eq.
  split; [done|]. by apply contains_char_false.
Qed.

(** Whatever text the coordinator sends, the parsed relay list has at most 16
    entries, each with a non-empty endpoint in an approved Australian region
    and, if it has a WebSocket URL at all, one that starts with [wss://] and
    carries no credentials. *)
Theorem parse_relay_lines_approved (text : str) :
  (length (parse_relay_lines text) ≤ MAX_RELAYS)%nat ∧
  Forall approved_relay (parse_relay_lines text).
Proof.
  unfold parse_relay_lines. split; [rw length_take; lia|]. apply Forall_take.
  apply Forall_forall. intros r (line & _ & Hr)%list_elem_of_omap. by eapply parse_relay_line_approved.
Qed.
