(* ===== verification/Float64.v ===== *)
(** * Binary64 arithmetic

    Rust's [f64] on the operations the source uses, through the Standard
    Library's executable IEEE 754 model [SpecFloat] (53 bits of precision,
    exponents below 1024, round to nearest even). *)

From Stdlib Require Import SpecFloat.
From S2P Require Import Prelude.

Abbreviation f64 := spec_float.

Definition f64_of_Z (z : Z) : f64 := binary_normalize 53 1024 z 0 false.
Definition f64_add (x y : f64) : f64 := SFadd 53 1024 x y.
Definition f64_sub (x y : f64) : f64 := SFsub 53 1024 x y.
Definition f64_mul (x y : f64) : f64 := SFmul 53 1024 x y.
Definition f64_div (x y : f64) : f64 := SFdiv 53 1024 x y.
Definition f64_ltb (x y : f64) : bool := SFltb x y.
Definition f64_leb (x y : f64) : bool := SFleb x y.

Definition f64_is_finite (x : f64) : bool :=
  match x with
  | S754_zero _ | S754_finite _ _ _ => true
  | S754_infinity _ | S754_nan => false
  end.

Definition f64_is_nan (x : f64) : bool := match x with S754_nan => true | _ => false end.

(** [f64::min] and [f64::max]: a NaN operand is ignored. *)
Definition f64_min (x y : f64) : f64 :=
  if f64_is_nan x then y else if f64_is_nan y then x else if f64_ltb x y then x else y.
Definition f64_max (x y : f64) : f64 :=
  if f64_is_nan x then y else if f64_is_nan y then x else if f64_ltb x y then y else x.

(** [Duration::as_secs_f64] of a duration in nanoseconds. *)
Definition as_secs_f64 (d : Z) : f64 :=
  f64_add (f64_of_Z (d / 1000000000)) (f64_div (f64_of_Z (d mod 1000000000)) (f64_of_Z 1000000000)).

(** [flow_report::sampled] and [flow_events::sampled]: the same body. *)
Definition sampled (rate : f64) (draw : Z) : bool :=
  if negb (f64_is_finite rate) || f64_leb rate (f64_of_Z 0) then false
  else f64_leb (f64_of_Z 1) rate
       || f64_ltb (f64_div (f64_of_Z draw) (f64_of_Z U64_MAX)) rate.

(** [flows::should_sample] of the coordinator. *)
Definition should_sample (rate : f64) (uniform : Z) : bool :=
  if f64_leb rate (f64_of_Z 0) then false
  else if f64_leb (f64_of_Z 1) rate then true
  else f64_ltb (f64_div (f64_of_Z uniform) (f64_of_Z U64_MAX)) rate.

(** For every finite rate the agent keeps exactly what the coordinator keeps. *)
Lemma sampled_agrees rate draw : f64_is_finite rate = true → sampled rate draw = should_sample rate draw.
Proof.
  intros Hf. unfold sampled, should_sample. rw Hf /=.
  destruct (f64_leb rate (f64_of_Z 0)); [done|]. by destruct (f64_leb (f64_of_Z 1) rate).
Qed.

Lemma sampled_full draw : sampled (f64_of_Z 1) draw = true.
Proof. reflexivity. Qed.
