(* ===== verification/FlowReport.v ===== *)
(** * Traffic counters: the agent's upload and the coordinator's checks

    [blaktail-ios-wg/src/flow_report.rs] builds the upload body from local
    counters; [blaktail-coord/src/flows.rs] validates what arrives.  SHA-256
    and UUID parsing come from third-party crates and are parameters. *)

From Stdlib Require Import SpecFloat Sorted.
From S2P Require Import Prelude Text Float64.

Definition MAX_RECORDS : nat := 500.
Definition MAX_BUCKET_SECS : Z := 3600.
Definition DYNAMIC_PORTS : Z := 49152.

Record FlowCount := mkFlowCount {
  fc_peer_id : option str;
  fc_direction : str;
  fc_proto : str;
  fc_port : Z;
  fc_allowed : bool;
  fc_bytes : Z;
  fc_packets : Z
}.

Record UploadRecord := mkUploadRecord {
  ur_org_id : str;
  ur_device_id : str;
  ur_service : str;
  ur_start_bucket : Z;
  ur_end_bucket : Z;
  ur_proto : str;
  ur_port : Z;
  ur_bytes : Z;
  ur_packets : Z;
  ur_transport : str;
  ur_decision : str;
  ur_peer_id : option str;
  ur_direction : str
}.

Definition service_label (proto : str) (port : Z) : str :=
  if seq_b proto "icmp" then lit "icmp"
  else if seq_b proto "other" then lit "other"
  else if seq_b proto "all" then lit "any"
  else if seq_b proto "tunnel" then lit "tunnel"
  else
    let tcp := seq_b proto "tcp" in
    let udp := seq_b proto "udp" in
    if port =? 0 then lit "unknown"
    else if tcp && (port =? 22) then lit "ssh"
    else if port =? 53 then lit "dns"
    else if tcp && (port =? 80) then lit "http"
    else if tcp && (port =? 443) then lit "https"
    else if udp && (port =? 443) then lit "quic"
    else if tcp && (port =? 3389) then lit "rdp"
    else if tcp && (port =? 445) then lit "smb"
    else if port =? 88 then lit "kerberos"
    else if tcp && ((port =? 389) || (port =? 636)) then lit "ldap"
    else if udp && (port =? 123) then lit "ntp"
    else if udp && (port =? 5353) then lit "mdns"
    else if tcp && ((port =? 25) || (port =? 587) || (port =? 993)) then lit "mail"
    else if tcp && ((port =? 3306) || (port =? 5432) || (port =? 1433)) then lit "database"
    else if tcp && ((port =? 8080) || (port =? 8000)) then lit "http-alt"
    else if tcp && (port =? 8443) then lit "https-alt"
    else if udp && (port =? 51820) then lit "wireguard"
    else if tcp && (port =? 51822) then lit "pq-psk"
    else if port <? 1024 then lit "system"
    else if port <? DYNAMIC_PORTS then lit "registered"
    else lit "dynamic".

(** [(peer, direction, protocol, port class, allowed)] *)
Definition MergeKey : Type := option str * str * str * Z * bool.

#[export] Instance MergeKey_eq_dec : EqDecision MergeKey.
Proof. unfold MergeKey. apply _. Defined.

(** The derived [Ord] of a merge key: lexicographic, byte order on strings. *)
Fixpoint str_compare (a b : str) : comparison :=
  match a, b with
  | [], [] => Eq
  | [], _ => Lt
  | _, [] => Gt
  | x :: a, y :: b => match x ?= y with Eq => str_compare a b | c => c end
  end.

Definition then_cmp (c d : comparison) : comparison := match c with Eq => d | _ => c end.

Definition opt_str_compare (a b : option str) : comparison :=
  match a, b with
  | None, None => Eq
  | None, Some _ => Lt
  | Some _, None => Gt
  | Some a, Some b => str_compare a b
  end.

Definition bool_compare (a b : bool) : comparison :=
  match a, b with
  | false, true => Lt
  | true, false => Gt
  | _, _ => Eq
  end.

Definition key_compare (a b : MergeKey) : comparison :=
  let '(p, d, r, t, l) := a in
  let '(p', d', r', t', l') := b in
  then_cmp (opt_str_compare p p') (then_cmp (str_compare d d')
    (then_cmp (str_compare r r') (then_cmp (t ?= t') (bool_compare l l')))).

(** The [BTreeMap], as its entries in key order; [entry(k).or_default()] with
    the saturating additions of the loop body. *)
Abbreviation Merged := (list (MergeKey * (Z * Z))).

Fixpoint merge_entry (k : MergeKey) (b p : Z) (m : Merged) : Merged :=
  match m with
  | [] => [(k, (sat_add_u64 0 b, sat_add_u64 0 p))]
  | (k', (b', p')) :: rest =>
      match key_compare k k' with
      | Lt => (k, (sat_add_u64 0 b, sat_add_u64 0 p)) :: m
      | Eq => (k', (sat_add_u64 b' b, sat_add_u64 p' p)) :: rest
      | Gt => (k', (b', p')) :: merge_entry k b p rest
      end
  end.

(** [sort_by] is a stable sort; [le x y] says [x] need not come after [y]. *)
Fixpoint insert_sorted {A} (le : A → A → bool) (x : A) (l : list A) : list A :=
  match l with
  | [] => [x]
  | y :: l => if le x y then x :: y :: l else y :: insert_sorted le x l
  end.

Definition sort_by {A} (le : A → A → bool) (l : list A) : list A := foldr (insert_sorted le) [] l.

(** [b.packets.cmp(&a.packets).then(b.bytes.cmp(&a.bytes))] is not [Greater]. *)
Definition busier (a b : UploadRecord) : bool :=
  (ur_packets b <? ur_packets a)
  || ((ur_packets b =? ur_packets a) && (ur_bytes b <=? ur_bytes a)).

Record Bucket := mkBucket {
  bk_org_id : str;
  bk_device_id : str;
  bk_start : Z;
  bk_end : Z;
  bk_transport : str;
  bk_relayed_peers : list str;
  bk_relay_transport : str;
  bk_sampling_rate : f64
}.

(** Protocol and port class of a counter. *)
Definition merge_class (proto : str) (port : Z) : str * Z :=
  if seq_b proto "tcp" || seq_b proto "udp" then
    (if port =? 0 then (lit "all", 0) else (proto, Z.min port DYNAMIC_PORTS))
  else if seq_b proto "icmp" then (lit "icmp", 0)
  else if seq_b proto "all" then (lit "all", 0)
  else if seq_b proto "tunnel" then (lit "tunnel", 0)
  else (lit "other", 0).

Definition merge_count (m : Merged) (c : FlowCount) : Merged :=
  if (fc_bytes c =? 0) && (fc_packets c =? 0) then m
  else
    let '(proto, port) := merge_class (fc_proto c) (fc_port c) in
    let direction := if seq_b (fc_direction c) "outbound" then lit "outbound" else lit "inbound" in
    merge_entry (fc_peer_id c, direction, proto, port, fc_allowed c) (fc_bytes c) (fc_packets c) m.

Definition bucket_end (b : Bucket) : Z := Z.max (bk_end b) (bk_start b).
Definition bucket_start (b : Bucket) : Z :=
  Z.max (Z.max (bk_start b) (bucket_end b - MAX_BUCKET_SECS)) 0.

Definition to_record (b : Bucket) (e : MergeKey * (Z * Z)) : UploadRecord :=
  let '((peer_id, direction, proto, port, allowed), (bytes, packets)) := e in
  mkUploadRecord (bk_org_id b) (bk_device_id b) (service_label proto port)
    (bucket_start b) (bucket_end b)
    (if seq_b proto "tunnel" then lit "all" else proto) port bytes packets
    (match peer_id with
     | Some peer => if bool_decide (peer ∈ bk_relayed_peers b) then bk_relay_transport b else bk_transport b
     | None => bk_transport b
     end)
    (if allowed then lit "allowed" else lit "denied") peer_id direction.

(** The text both sides hash: [{}|{}|{}|{}|{}|{}]. *)
Definition draw_text (org device : str) (start : Z) (service proto : str) (port : Z) : str :=
  join (lit "|") [org; device; dec_signed start; service; proto; dec port].

Section upload.
Variable sha256 : bytes → bytes.

Definition sample_draw (r : UploadRecord) : Z :=
  from_be (take 8 (sha256 (draw_text (ur_org_id r) (ur_device_id r) (ur_start_bucket r)
                             (ur_service r) (ur_proto r) (ur_port r)))).

Definition build (b : Bucket) (counts : list FlowCount) : list UploadRecord :=
  let merged := foldl merge_count [] counts in
  let records := List.filter (λ r, sampled (bk_sampling_rate b) (sample_draw r))
                   (map (to_record b) merged) in
  take MAX_RECORDS (sort_by busier records).

End upload.

(** ** Coordinator validation ([flows.rs]) *)

Module Flows.

Definition MAX_FLOW_BATCH : Z := 500.
Definition MAX_SERVICE_CHARS : Z := 32.

Inductive FlowError :=
| BatchTooLarge (found : Z)
| MissingField (name : str)
| BucketRange (start end_ : Z)
| BucketTooWide (spanned : Z)
| BadProtocol (proto : str)
| BadPort (port : Z) (proto : str)
| PayloadField (key : str)
| BadService
| BadPeer.

Inductive FlowTransport := Direct | UdpRelay | HttpsRelay.
Inductive FlowDirection := Inbound | Outbound.
Inductive FlowDecision := Allowed | Denied.

Record FlowRecord := mkFlowRecord {
  org_id : str;
  device_id : str;
  service : str;
  start_bucket : Z;
  end_bucket : Z;
  proto : str;
  port : Z;
  bytes_ : Z;
  packets : Z;
  transport : FlowTransport;
  decision : FlowDecision;
  peer_id : option str;
  direction : option FlowDirection
}.

Definition is_blank (s : str) : bool := bool_decide (trim s = []).

Definition service_char (c : Z) : bool :=
  is_ascii_lowercase c || is_ascii_digit c || (c =? 45) || (c =? 95).

Section validate.
Variable uuid_ok : str → bool.

Definition validate (r : FlowRecord) : result FlowError () :=
  if is_blank (org_id r) then Err (MissingField (lit "org_id"))
  else if is_blank (device_id r) then Err (MissingField (lit "device_id"))
  else if is_blank (service r) then Err (MissingField (lit "service"))
  else if (MAX_SERVICE_CHARS <? len (service r)) || negb (forallb service_char (service r))
       then Err BadService
  else if (start_bucket r <? 0) || (end_bucket r <? 0) || (end_bucket r <? start_bucket r)
       then Err (BucketRange (start_bucket r) (end_bucket r))
  else if MAX_BUCKET_SECS <? end_bucket r - start_bucket r
       then Err (BucketTooWide (end_bucket r - start_bucket r))
  else
    let? _ :=
      (if seq_b (proto r) "tcp" || seq_b (proto r) "udp" then
         if port r =? 0 then Err (BadPort (port r) (proto r)) else Ok ()
       else if seq_b (proto r) "icmp" || seq_b (proto r) "other" || seq_b (proto r) "all" then
         if negb (port r =? 0) then Err (BadPort (port r) (proto r)) else Ok ()
       else Err (BadProtocol (proto r))) in
    match peer_id r with
    | Some peer => if uuid_ok peer then Ok () else Err BadPeer
    | None => Ok ()
    end.

Definition validate_batch (records : list FlowRecord) : result FlowError () :=
  if MAX_FLOW_BATCH <? len records then Err (BatchTooLarge (len records))
  else try_each validate records.

End validate.

(** *** Payload keys in the raw upload *)

Definition FORBIDDEN_FLOW_KEYS : list str :=
  map lit ["url"; "uri"; "path"; "payload"; "payload_b64"; "body"; "content"; "headers";
           "cookie"; "query"; "dns_query"; "qname"; "host"; "hostname"; "sni"]%string.

(** [serde_json::Value], with object members in iteration order. *)
Inductive json :=
| JNull
| JBool (b : bool)
| JNumber (text : str)
| JString (s : str)
| JArray (items : list json)
| JObject (members : list (str * json)).

Fixpoint validate_flow_json (value : json) : result FlowError () :=
  match value with
  | JObject members =>
      (fix go (ms : list (str * json)) : result FlowError () :=
         match ms with
         | [] => Ok ()
         | (key, nested) :: ms =>
             if bool_decide (key ∈ FORBIDDEN_FLOW_KEYS) then Err (PayloadField key)
             else let? _ := validate_flow_json nested in go ms
         end) members
  | JArray items =>
      (fix go (l : list json) : result FlowError () :=
         match l with
         | [] => Ok ()
         | item :: l => let? _ := validate_flow_json item in go l
         end) items
  | _ => Ok ()
  end.

(** The coordinator's draw ([traffic.rs]). *)
Definition sample_draw (sha256 : bytes → bytes) (r : FlowRecord) : Z :=
  from_be (take 8 (sha256 (draw_text (org_id r) (device_id r) (start_bucket r)
                             (service r) (proto r) (port r)))).

End Flows.

(** ** The wire between them

    How the coordinator's serde derives read a record the agent serialised:
    unit variants in snake case, the rest field by field. *)

Definition decode_transport (s : str) : option Flows.FlowTransport :=
  if seq_b s "direct" then Some Flows.Direct
  else if seq_b s "udp_relay" then Some Flows.UdpRelay
  else if seq_b s "https_relay" then Some Flows.HttpsRelay
  else None.

Definition decode_decision (s : str) : option Flows.FlowDecision :=
  if seq_b s "allowed" then Some Flows.Allowed
  else if seq_b s "denied" then Some Flows.Denied
  else None.

Definition decode_direction (s : str) : option Flows.FlowDirection :=
  if seq_b s "inbound" then Some Flows.Inbound
  else if seq_b s "outbound" then Some Flows.Outbound
  else None.

Definition decode_record (r : UploadRecord) : option Flows.FlowRecord :=
  t ← decode_transport (ur_transport r);
  d ← decode_decision (ur_decision r);
  dir ← decode_direction (ur_direction r);
  Some (Flows.mkFlowRecord (ur_org_id r) (ur_device_id r) (ur_service r) (ur_start_bucket r)
          (ur_end_bucket r) (ur_proto r) (ur_port r) (ur_bytes r) (ur_packets r) t d
          (ur_peer_id r) (Some dir)).

(** ** Lemmas *)

Lemma insert_sorted_perm {A} (le : A → A → bool) x l : insert_sorted le x l ≡ₚ x :: l.
Proof.
  induction l as [|y l IH]; simpl; [done|]. case_match; [done|]. rw IH. apply Permutation_swap.
Qed.

Lemma sort_by_perm {A} (le : A → A → bool) l : sort_by le l ≡ₚ l.
Proof.
  induction l as [|x l IH]; simpl; [done|]. by rw insert_sorted_perm IH.
Qed.

Lemma insert_sorted_sorted {A} (le : A → A → bool) x l :
  (∀ a b, le a b = false → le b a = true) →
  (∀ a b c, le a b = true → le b c = true → le a c = true) →
  Sorted (λ a b, le a b = true) l → Sorted (λ a b, le a b = true) (insert_sorted le x l).
Proof.
  intros Htot Htr Hs. induction Hs as [|y l Hs IH Hhd]; simpl; [by repeat constructor|].
  destruct (le x y) eqn:Hxy; [by repeat constructor|]. constructor; [done|].
  destruct l as [|z l]; simpl; [by constructor; apply Htot|].
  inversion Hhd; subst. case_match; constructor; [by apply Htot|done].
Qed.

Lemma sort_by_sorted {A} (le : A → A → bool) l :
  (∀ a b, le a b = false → le b a = true) →
  (∀ a b c, le a b = true → le b c = true → le a c = true) →
  Sorted (λ a b, le a b = true) (sort_by le l).
Proof.
  intros Htot Htr. induction l; simpl; [constructor|]. by apply insert_sorted_sorted.
Qed.

Lemma busier_total a b : busier a b = false → busier b a = true.
Proof. unfold busier. lia. Qed.

Lemma busier_trans a b c : busier a b = true → busier b c = true → busier a c = true.
Proof. unfold busier. lia. Qed.

Lemma merge_entry_Forall (P : MergeKey → Prop) k b p m :
  P k → Forall (λ e, P e.1) m → Forall (λ e, P e.1) (merge_entry k b p m).
Proof.
  intros Hk. induction 1 as [|[k' [b' p']] m Hk' Hm IH]; simpl; [by repeat constructor|].
  case_match; repeat constructor; done.
Qed.

(** A merge key the coordinator's port and protocol rules accept. *)
Definition class_ok (proto : str) (port : Z) : Prop :=
  (proto = lit "tcp" ∨ proto = lit "udp") ∧ 0 < port ∨
  (proto = lit "icmp" ∨ proto = lit "all" ∨ proto = lit "tunnel" ∨ proto = lit "other") ∧ port = 0.

Lemma merge_class_ok proto port :
  0 ≤ port → class_ok (merge_class proto port).1 (merge_class proto port).2.
Proof.
  intros Hp. unfold merge_class, class_ok, seq_b, DYNAMIC_PORTS.
  repeat case_bool_decide; subst; simpl; repeat case_match; to_prop; simpl; naive_solver lia.
Qed.

Lemma service_label_ok proto port :
  Flows.is_blank (service_label proto port) = false ∧
  (Flows.MAX_SERVICE_CHARS <? len (service_label proto port)) = false ∧
  forallb Flows.service_char (service_label proto port) = true.
Proof. unfold service_label. repeat case_match; split_and!; vm_compute; reflexivity. Qed.

Definition key_ok (uuid_ok : str → bool) (k : MergeKey) : Prop :=
  let '(peer, direction, proto, port, _) := k in
  class_ok proto port ∧ (direction = lit "inbound" ∨ direction = lit "outbound") ∧
  (∀ id, peer = Some id → uuid_ok id = true).

Definition count_ok (uuid_ok : str → bool) (c : FlowCount) : Prop :=
  0 ≤ fc_port c ∧ (∀ id, fc_peer_id c = Some id → uuid_ok id = true).

Lemma merge_counts_ok uuid_ok counts m :
  Forall (count_ok uuid_ok) counts → Forall (λ e, key_ok uuid_ok e.1) m →
  Forall (λ e, key_ok uuid_ok e.1) (foldl merge_count m counts).
Proof.
  intros Hc. revert m. induction Hc as [|c counts [Hp Hu] _ IH]; intros m Hm; [done|].
  simpl. apply IH. unfold merge_count. case_match; [done|].
  pose proof (merge_class_ok (fc_proto c) (fc_port c) Hp) as Hcl.
  destruct (merge_class _ _) as [proto port]. apply merge_entry_Forall; [|done].
  simpl. split; [done|]. split; [|done]. case_match; naive_solver.
Qed.

(** The parts of a bucket the host supplies. *)
Record bucket_ok (b : Bucket) : Prop := mkBucketOk {
  bok_org : Flows.is_blank (bk_org_id b) = false;
  bok_device : Flows.is_blank (bk_device_id b) = false;
  bok_end : 0 ≤ bk_end b;
  bok_transport : is_Some (decode_transport (bk_transport b));
  bok_relay : is_Some (decode_transport (bk_relay_transport b))
}.

Lemma bucket_window b :
  0 ≤ bk_end b →
  0 ≤ bucket_start b ≤ bucket_end b ∧ bucket_end b - bucket_start b ≤ MAX_BUCKET_SECS.
Proof. unfold bucket_start, bucket_end, MAX_BUCKET_SECS. lia. Qed.

Lemma to_record_valid uuid_ok b e :
  bucket_ok b → key_ok uuid_ok e.1 →
  ∃ r, decode_record (to_record b e) = Some r ∧ Flows.validate uuid_ok r = Ok ().
Proof.
  intros [Ho Hd He [t Ht] [rt Hrt]] Hk. destruct e as [[[[[peer dir] proto] port] allowed] [bs ps]].
  destruct Hk as (Hcl & Hdir & Hu). unfold decode_record. cbn -[lit service_label seq_b decode_transport decode_decision decode_direction].
  set (tr := match peer with Some p => _ | None => bk_transport b end).
  assert (is_Some (decode_transport tr)) as [t' ->].
  { unfold tr. destruct peer; [case_match|]; by eexists. }
  assert (is_Some (decode_direction dir)) as [d ->] by (destruct Hdir as [->| ->]; by eexists).
  assert (is_Some (decode_decision (if allowed then lit "allowed" else lit "denied"))) as [dc ->]
    by (destruct allowed; by eexists).
  eexists. split; [done|]. unfold Flows.validate. cbn -[lit service_label seq_b bucket_start bucket_end].
  destruct (service_label_ok proto port) as (Hs1 & Hs2 & Hs3).
  destruct (bucket_window b He) as [Hw1 Hw2]. rw Ho Hd Hs1 Hs2 Hs3. cbn [negb orb].
  rw (proj2 (Z.ltb_ge _ 0)); [|lia]. rw (proj2 (Z.ltb_ge (bucket_end b) 0)); [|lia].
  rw (proj2 (Z.ltb_ge (bucket_end b) (bucket_start b))); [|lia]. cbn [orb].
  rw (proj2 (Z.ltb_ge MAX_BUCKET_SECS _)) //.
  assert (match peer with Some p => if uuid_ok p then Ok () else Err Flows.BadPeer | None => Ok () end
          = Ok ()) as ->.
  { destruct peer as [p|]; [|done]. by rw Hu. }
  destruct Hcl as [[[-> | ->] Hp]|[[-> | [-> | [-> | ->]]] ->]]; cbn; rw ?(proj2 (Z.eqb_neq port 0)) //; lia.
Qed.

(** Both sides hash the same text. *)
Lemma decode_record_draw sha256 r fr :
  decode_record r = Some fr → Flows.sample_draw sha256 fr = sample_draw sha256 r.
Proof.
  unfold decode_record.
  by intros (t & _ & (d & _ & (dir & _ & [= <-])%bind_Some)%bind_Some)%bind_Some.
Qed.

Lemma build_elem sha256 b counts r :
  r ∈ build sha256 b counts →
  ∃ e, e ∈ foldl merge_count [] counts ∧ r = to_record b e ∧
       sampled (bk_sampling_rate b) (sample_draw sha256 r) = true.
Proof.
  unfold build. set (rs := List.filter _ _). intros Hr.
  assert (r ∈ rs) as Hrs.
  { rw -(sort_by_perm busier rs) -(take_drop MAX_RECORDS (sort_by busier rs)). set_solver. }
  apply list_elem_of_In, filter_In in Hrs as [Hrs Hs]. apply in_map_iff in Hrs as (e & <- & He).
  exists e. split; [by apply list_elem_of_In|done].
Qed.

(** Agent and coordinator agree: whatever the local counters, every record of
    an upload decodes, the batch passes the coordinator's validation, and each
    record the agent kept is one the coordinator's sampler keeps too. *)
Theorem upload_accepted (sha256 : bytes → bytes) (uuid_ok : str → bool) (b : Bucket)
    (counts : list FlowCount) :
  bucket_ok b → Forall (count_ok uuid_ok) counts → f64_is_finite (bk_sampling_rate b) = true →
  ∃ rs, mapM decode_record (build sha256 b counts) = Some rs ∧
    Flows.validate_batch uuid_ok rs = Ok () ∧
    Forall (λ r, should_sample (bk_sampling_rate b) (Flows.sample_draw sha256 r) = true) rs.
Proof.
  intros Hb Hc Hf. pose proof (merge_counts_ok uuid_ok counts [] Hc (Forall_nil_2 _)) as Hm.
  assert (∀ r, r ∈ build sha256 b counts → ∃ fr, decode_record r = Some fr ∧
    Flows.validate uuid_ok fr = Ok () ∧
    should_sample (bk_sampling_rate b) (Flows.sample_draw sha256 fr) = true) as Hall.
  { intros r (e & He & -> & Hs)%build_elem. rw Forall_forall in Hm. specialize (Hm e He).
    destruct (to_record_valid uuid_ok b e Hb Hm) as (fr & Hdec & Hval). exists fr.
    split; [done|]. split; [done|]. rw sampled_agrees // in Hs. by rw (decode_record_draw _ _ _ Hdec). }
  assert (length (build sha256 b counts) ≤ 500)%nat as Hlen by (unfold build, MAX_RECORDS; rw length_take; lia).
  assert (∃ rs, mapM decode_record (build sha256 b counts) = Some rs) as [rs Hrs].
  { apply mapM_is_Some, Forall_forall. intros r (fr & Hdec & _)%Hall. by exists fr. }
  exists rs. split; [done|]. apply mapM_Some in Hrs.
  assert (Forall (λ fr, Flows.validate uuid_ok fr = Ok () ∧
    should_sample (bk_sampling_rate b) (Flows.sample_draw sha256 fr) = true) rs) as Hok.
  { apply Forall_forall. intros fr Hfr. apply list_elem_of_lookup in Hfr as [i Hi].
    destruct (Forall2_lookup_r _ _ _ _ _ Hrs Hi) as (r & Hr & Hdec).
    destruct (Hall r) as (fr' & Hdec' & Hv & Hs); [by eapply list_elem_of_lookup_2|].
    by simplify_eq. }
  apply Forall_and in Hok as [Hv Hs]. split; [|done]. unfold Flows.validate_batch.
  rw (proj2 (Z.ltb_ge _ _)); [by apply try_each_ok|].
  apply Forall2_length in Hrs. unfold Flows.MAX_FLOW_BATCH, len. lia.
Qed.

Definition demo_bucket : Bucket :=
  mkBucket (lit "org") (lit "dev") 100 130 (lit "direct") [] (lit "udp_relay") (f64_of_Z 1).

Lemma upload_accepted_witness :
  ∃ rs, mapM decode_record
          (build (λ _, replicate 32 0) demo_bucket
             [mkFlowCount (Some (lit "peer")) (lit "inbound") (lit "tcp") 0 true 10 1]) = Some rs ∧
    Flows.validate_batch (λ _, true) rs = Ok ().
Proof.
  destruct (upload_accepted (λ _, replicate 32 0) (λ _, true) demo_bucket
    [mkFlowCount (Some (lit "peer")) (lit "inbound") (lit "tcp") 0 true 10 1]) as (rs & H1 & H2 & _).
  - split; try (vm_compute; reflexivity); try (vm_compute; eexists; reflexivity).
    vm_compute. discriminate.
  - repeat constructor. simpl. lia.
  - vm_compute. reflexivity.
  - exists rs. split; [exact H1|exact H2].
Defined.

(** Over the batch cap the busiest records are kept: an upload has at most 500
    records, in decreasing order of packets and then bytes, and everything
    left out is no busier than anything kept. *)
Theorem build_keeps_busiest (sha256 : bytes → bytes) (b : Bucket) (counts : list FlowCount) :
  (length (build sha256 b counts) ≤ MAX_RECORDS)%nat ∧
  ∃ dropped,
    build sha256 b counts ++ dropped ≡ₚ
      List.filter (λ r, sampled (bk_sampling_rate b) (sample_draw sha256 r))
        (map (to_record b) (foldl merge_count [] counts)) ∧
    ∀ kept out, kept ∈ build sha256 b counts → out ∈ dropped → busier kept out = true.
Proof.
  unfold build. set (rs := List.filter _ _). split; [rw length_take; lia|].
  exists (drop MAX_RECORDS (sort_by busier rs)). rw take_drop. split; [apply sort_by_perm|].
  pose proof (sort_by_sorted busier rs busier_total busier_trans) as Hs.
  apply Sorted_StronglySorted in Hs; [|intros x y z; apply busier_trans].
  rw -(take_drop MAX_RECORDS (sort_by busier rs)) in Hs. intros kept out Hk Ho.
  revert Hs Hk Ho. generalize (drop MAX_RECORDS (sort_by busier rs)) as d.
  induction (take MAX_RECORDS (sort_by busier rs)) as [|x l IH]; intros d Hs Hk Ho;
    [by apply not_elem_of_nil in Hk|].
  simpl in Hs. apply StronglySorted_inv in Hs as [Hs Hx]. apply elem_of_cons in Hk as [->|Hk].
  - rw Forall_forall in Hx. apply Hx. set_solver.
  - by apply (IH d).
Qed.

(** No forbidden key at any depth. *)
Inductive clean : Flows.json → Prop :=
| clean_null : clean Flows.JNull
| clean_bool b : clean (Flows.JBool b)
| clean_number t : clean (Flows.JNumber t)
| clean_string s : clean (Flows.JString s)
| clean_array items : Forall clean items → clean (Flows.JArray items)
| clean_object members :
    Forall (λ kv, kv.1 ∉ Flows.FORBIDDEN_FLOW_KEYS ∧ clean kv.2) members → clean (Flows.JObject members).

Lemma result_bind_ok {E A B} (r : result E A) (k : A → result E B) b :
  result_bind r k = Ok b ↔ ∃ a, r = Ok a ∧ k a = Ok b.
Proof. destruct r; simpl; naive_solver. Qed.

(** Payload screening is exact: an upload body passes exactly when no object in
    it, at any depth, has one of the forbidden keys. *)
Theorem validate_flow_json_exact : ∀ (v : Flows.json),
  Flows.validate_flow_json v = Ok () ↔ clean v.
Proof.
  fix IH 1. intros v. destruct v as [|b|t|s|items|members]; simpl; try (split; by constructor).
  - transitivity (Forall clean items).
    + induction items as [|i items IHi]; [by split; constructor|].
      rw Forall_cons result_bind_ok -IHi. specialize (IH i). split.
      * intros ([] & Hi & Hr). by split; [apply IH|].
      * intros [Hi Hr]. exists (). split; [by apply IH|done].
    + split; [by constructor|by inversion 1].
  - transitivity (Forall (λ kv, kv.1 ∉ Flows.FORBIDDEN_FLOW_KEYS ∧ clean kv.2) members).
    + induction members as [|[k i] members IHi]; [by split; constructor|].
      rw Forall_cons /= -IHi. specialize (IH i). case_bool_decide as Hk; [naive_solver|].
      rw result_bind_ok. split.
      * intros ([] & Hi & Hr). split; [|done]. split; [done|]. by apply IH.
      * intros [[_ Hi] Hr]. exists (). split; [by apply IH|done].
    + split; [by constructor|by inversion 1].
Qed.
