(* ===== verification/FlowEvents.v ===== *)
(** * Per-flow traffic events

    [blaktail-ios-wg/src/flow_events.rs] (also compiled into [blaktaild]): the
    event record, the bounded buffer between uploads, and the upload builder.
    SHA-256 is a parameter. *)

From Stdlib Require Import SpecFloat.
From S2P Require Import Prelude Text Net Select Float64 FlowReport.

Definition MAX_BATCH : nat := 1000.
Definition MAX_BUFFERED : nat := 4096.
Definition MAX_WINDOW_SECS : Z := 3600.

Inductive Kind := Start | End | Drop.
Inductive Direction := Inbound | Outbound.

#[export] Instance Kind_eq_dec : EqDecision Kind.
Proof. solve_decision. Defined.
#[export] Instance Direction_eq_dec : EqDecision Direction.
Proof. solve_decision. Defined.

Record FlowEvent := mkFlowEvent {
  flow_id : str;
  kind : Kind;
  at_ : Z;
  direction : Direction;
  protocol : str;
  protocol_number : option Z;
  icmp_type : option Z;
  icmp_code : option Z;
  src_ip : str;
  src_port : Z;
  dst_ip : str;
  dst_port : Z;
  peer_id : option str;
  connection_type : str;
  rx_bytes : Z;
  tx_bytes : Z;
  rx_packets : Z;
  tx_packets : Z;
  rule_hint : option str;
  aggregated : bool
}.

(** Assignments to fields of an event. *)
Definition set_peer_id (e : FlowEvent) p :=
  mkFlowEvent (flow_id e) (kind e) (at_ e) (direction e) (protocol e) (protocol_number e) (icmp_type e)
    (icmp_code e) (src_ip e) (src_port e) (dst_ip e) (dst_port e) p (connection_type e)
    (rx_bytes e) (tx_bytes e) (rx_packets e) (tx_packets e) (rule_hint e) (aggregated e).
Definition set_counters (e : FlowEvent) rb tb rp tp :=
  mkFlowEvent (flow_id e) (kind e) (at_ e) (direction e) (protocol e) (protocol_number e) (icmp_type e)
    (icmp_code e) (src_ip e) (src_port e) (dst_ip e) (dst_port e) (peer_id e) (connection_type e)
    rb tb rp tp (rule_hint e) (aggregated e).
Definition set_hint (e : FlowEvent) h :=
  mkFlowEvent (flow_id e) (kind e) (at_ e) (direction e) (protocol e) (protocol_number e) (icmp_type e)
    (icmp_code e) (src_ip e) (src_port e) (dst_ip e) (dst_port e) (peer_id e) (connection_type e)
    (rx_bytes e) (tx_bytes e) (rx_packets e) (tx_packets e) h (aggregated e).
Definition set_at (e : FlowEvent) t :=
  mkFlowEvent (flow_id e) (kind e) t (direction e) (protocol e) (protocol_number e) (icmp_type e)
    (icmp_code e) (src_ip e) (src_port e) (dst_ip e) (dst_port e) (peer_id e) (connection_type e)
    (rx_bytes e) (tx_bytes e) (rx_packets e) (tx_packets e) (rule_hint e) (aggregated e).
Definition set_connection (e : FlowEvent) c :=
  mkFlowEvent (flow_id e) (kind e) (at_ e) (direction e) (protocol e) (protocol_number e) (icmp_type e)
    (icmp_code e) (src_ip e) (src_port e) (dst_ip e) (dst_port e) (peer_id e) c
    (rx_bytes e) (tx_bytes e) (rx_packets e) (tx_packets e) (rule_hint e) (aggregated e).
Definition set_aggregated (e : FlowEvent) a :=
  mkFlowEvent (flow_id e) (kind e) (at_ e) (direction e) (protocol e) (protocol_number e) (icmp_type e)
    (icmp_code e) (src_ip e) (src_port e) (dst_ip e) (dst_port e) (peer_id e) (connection_type e)
    (rx_bytes e) (tx_bytes e) (rx_packets e) (tx_packets e) (rule_hint e) a.

Definition protocol_label (number : Z) : str * option Z :=
  if number =? 6 then (lit "tcp", None)
  else if number =? 17 then (lit "udp", None)
  else if number =? 1 then (lit "icmp", None)
  else if number =? 58 then (lit "icmpv6", None)
  else (lit "other", Some number).

Definition event (flow_id : str) (kind : Kind) (at_ : Z) (direction : Direction) (proto : Z)
    (source destination : IpAddr * Z) (icmp : option (Z * Z)) : FlowEvent :=
  let '(protocol, protocol_number) := protocol_label proto in
  let ports := seq_b protocol "tcp" || seq_b protocol "udp" in
  let icmp := if seq_b protocol "icmp" || seq_b protocol "icmpv6"
              then Some (default (if seq_b protocol "icmp" then (8, 0) else (128, 0)) icmp)
              else None in
  mkFlowEvent flow_id kind at_ direction protocol protocol_number (fst <$> icmp) (snd <$> icmp)
    (show_ip source.1) (if ports then source.2 else 0)
    (show_ip destination.1) (if ports then destination.2 else 0)
    None (lit "p2p") 0 0 0 0 None false.

Definition uploadable (e : FlowEvent) : bool :=
  if seq_b (protocol e) "tcp" || seq_b (protocol e) "udp"
  then negb (dst_port e =? 0) && (negb (src_port e =? 0) || aggregated e)
  else true.

(** ** The buffer *)

Record Buffer := mkBuffer { events : list FlowEvent; overflow : Z }.

Module Buffer.

Definition default : Buffer := mkBuffer [] 0.

Definition push (b : Buffer) (e : FlowEvent) : Buffer :=
  if (MAX_BUFFERED <=? length (events b))%nat
  then mkBuffer (drop 1 (events b) ++ [e]) (u64_add (overflow b) 1)
  else mkBuffer (events b ++ [e]) (overflow b).

Definition clear (b : Buffer) : Buffer := mkBuffer [] 0.

(** [buffer.take(max)]; [None] stands for [usize::MAX]. *)
Definition take_events (b : Buffer) (max : option nat) : Buffer * list FlowEvent :=
  let count := match max with Some n => Nat.min (length (events b)) n | None => length (events b) end in
  (mkBuffer (drop count (events b)) (overflow b), take count (events b)).

End Buffer.

(** ** Uploads *)

Record Window := mkWindow {
  w_org_id : str;
  w_device_id : str;
  w_start : Z;
  w_end : Z;
  w_sampling_rate : f64;
  w_relayed_peers : list str
}.

Record Upload := mkUpload {
  u_org_id : str;
  u_window_start : Z;
  u_window_end : Z;
  u_events : list FlowEvent
}.

(** [x.clamp(lo, hi)], which panics when [lo > hi]. *)
Definition clamp (lo hi x : Z) : option Z :=
  if hi <? lo then None else Some (Z.min hi (Z.max lo x)).

Definition window_end (w : Window) : Z := Z.max (w_end w) (w_start w).
Definition window_start (w : Window) : Z :=
  Z.max (Z.max (w_start w) (window_end w - MAX_WINDOW_SECS)) 0.

(** The closure that clamps an event's time and marks relayed peers. *)
Definition stamp (w : Window) (e : FlowEvent) : option FlowEvent :=
  t ← clamp (window_start w) (window_end w) (at_ e);
  let e := set_at e t in
  let relayed := match peer_id e with
                 | Some peer => bool_decide (peer ∈ w_relayed_peers w)
                 | None => false
                 end in
  Some (if seq_b (connection_type e) "p2p" && relayed then set_connection e (lit "relay") else e).

Section build.
Variable sha256 : bytes → bytes.

Definition sample_draw (org_id reporter_id flow : str) : Z :=
  from_be (take 8 (sha256 (org_id ++ lit "|" ++ reporter_id ++ lit "|" ++ flow))).

(** [None] is the panic of [clamp]. *)
Definition build (w : Window) (evs : list FlowEvent) : option Upload :=
  let kept := List.filter (λ e, uploadable e
                && sampled (w_sampling_rate w) (sample_draw (w_org_id w) (w_device_id w) (flow_id e))) evs in
  es ← mapM (stamp w) (take MAX_BATCH kept);
  Some (mkUpload (w_org_id w) (window_start w) (window_end w) es).

End build.

(** ** Aggregated events from per-rule counters *)

Definition agg_id_char (c : Z) : bool := is_ascii_alphanumeric c || (c =? 45).

Definition agg_event (peer_addresses : gmap str (list IpAddr)) (own : list IpAddr)
    (window_start window_end : Z) (count : FlowCount) : option FlowEvent :=
  if (fc_bytes count =? 0) && (fc_packets count =? 0) then None
  else
    proto ← (if seq_b (fc_proto count) "tcp" then Some 6
             else if seq_b (fc_proto count) "udp" then Some 17
             else if seq_b (fc_proto count) "icmp" then Some 1
             else None);
    if ((proto =? 6) || (proto =? 17)) && (fc_port count =? 0) then None
    else
      peer ← fc_peer_id count;
      addresses ← peer_addresses !! peer;
      remote ← head addresses;
      local ← find (λ a, Bool.eqb (is_ipv4 a) (is_ipv4 remote)) own;
      let inbound := negb (seq_b (fc_direction count) "outbound") in
      let '(source, destination) :=
        if inbound then ((remote, 0), (local, fc_port count)) else ((local, 0), (remote, fc_port count)) in
      let proto := if (proto =? 1) && is_ipv6 remote then 58 else proto in
      let id := lit "agg-" ++ dec_signed window_start ++ lit "-" ++ peer ++ lit "-" ++ fc_proto count
                ++ lit "-" ++ dec (fc_port count) ++ lit "-"
                ++ (if fc_allowed count then lit "a" else lit "d") in
      let e := event (take 64 (List.filter agg_id_char id))
                 (if fc_allowed count then Start else Drop) window_start
                 (if inbound then Inbound else Outbound) proto source destination None in
      let e := set_aggregated (set_peer_id (set_at e window_end) (Some peer)) true in
      Some (if inbound
            then set_counters e (fc_bytes count) (tx_bytes e) (fc_packets count) (tx_packets e)
            else set_counters e (rx_bytes e) (fc_bytes count) (rx_packets e) (fc_packets count)).

Definition aggregated_events (counts : list FlowCount) (peer_addresses : gmap str (list IpAddr))
    (own : list IpAddr) (window_start window_end : Z) : list FlowEvent :=
  omap (agg_event peer_addresses own window_start window_end) counts.

(** ** Properties *)

Definition pushed (b : Buffer) (es : list FlowEvent) : Buffer := foldl Buffer.push b es.

Lemma push_bounded b e :
  (length (events b) ≤ MAX_BUFFERED)%nat → (length (events (Buffer.push b e)) ≤ MAX_BUFFERED)%nat.
Proof.
  intros Hb. unfold Buffer.push. case_match; to_prop; simpl; rw length_app /=; [|lia].
  rw length_drop. unfold MAX_BUFFERED in *. lia.
Qed.

(** The last [n] elements of a list. *)
Definition newest {A} (n : nat) (l : list A) : list A := drop (length l - n) l.

Lemma push_newest b l e :
  events b = newest MAX_BUFFERED l → events (Buffer.push b e) = newest MAX_BUFFERED (l ++ [e]).
Proof.
  unfold newest. intros Hb. assert (1 ≤ MAX_BUFFERED)%nat by (unfold MAX_BUFFERED; lia).
  assert (length (events b) = Nat.min MAX_BUFFERED (length l)) as Hl by (rw Hb length_drop; lia).
  rw length_app /=. unfold Buffer.push.
  destruct (Nat.leb_spec MAX_BUFFERED (length (events b))); simpl; rw Hb.
  - rw drop_drop. rw drop_app_le; [|lia]. do 2 f_equal. lia.
  - rw drop_app_le; [|lia]. do 2 f_equal. lia.
Qed.

(** The event buffer keeps exactly the newest 4096 events, oldest first, and
    counts (modulo the counter's width) every event it had to drop. *)
Theorem buffer_keeps_newest (es : list FlowEvent) :
  events (pushed Buffer.default es) = newest MAX_BUFFERED es ∧
  overflow (pushed Buffer.default es) = (len es - len (newest MAX_BUFFERED es)) mod (U64_MAX + 1).
Proof.
  induction es as [|e es [IHe IHo]] using rev_ind; [done|].
  unfold pushed in *. rw foldl_app. split; [by apply push_newest|].
  set (b := foldl Buffer.push Buffer.default es) in *. clearbody b.
  assert (1 ≤ MAX_BUFFERED)%nat as HM by (unfold MAX_BUFFERED; lia).
  change (foldl Buffer.push b [e]) with (Buffer.push b e).
  unfold Buffer.push, newest, len in *. rw IHe. clear IHe.
  generalize dependent MAX_BUFFERED. intros M IHo HM.
  rw !length_drop !length_app in IHo |- *.
  destruct (Nat.leb_spec M (length es - (length es - M))); simpl; rw IHo.
  - unfold u64_add. rw Zplus_mod_idemp_l. apply (f_equal (λ x, x mod _)). lia.
  - apply (f_equal (λ x, x mod _)). lia.
Qed.

Lemma clamp_spec lo hi x y : clamp lo hi x = Some y → lo ≤ y ≤ hi ∧ (lo ≤ x ≤ hi → y = x).
Proof. unfold clamp. case_match; [done|]. to_prop. intros [= <-]. lia. Qed.

#[export] Instance relayed_dec w e : Decision (∃ p, peer_id e = Some p ∧ p ∈ w_relayed_peers w).
Proof.
  destruct (peer_id e) as [p|]; [|right; by intros (? & ? & ?)].
  destruct (decide (p ∈ w_relayed_peers w)); [left; eauto|right; by intros (? & [= <-] & ?)].
Defined.

(** What stamping may change: the time, and the connection type of a peer
    reached through a relay. *)
Definition stamped (w : Window) (e e' : FlowEvent) : Prop :=
  window_start w ≤ at_ e' ≤ window_end w ∧
  (window_start w ≤ at_ e ≤ window_end w → at_ e' = at_ e) ∧
  e' = set_connection (set_at e (at_ e')) (connection_type e') ∧
  connection_type e' =
    (if decide (connection_type e = lit "p2p" ∧ ∃ p, peer_id e = Some p ∧ p ∈ w_relayed_peers w)
     then lit "relay" else connection_type e).

Lemma stamp_total w e : window_start w ≤ window_end w → ∃ e', stamp w e = Some e'.
Proof.
  intros Hw. unfold stamp, clamp. destruct (Z.ltb_spec (window_end w) (window_start w)); [lia|].
  simpl. eauto.
Qed.

Lemma stamp_stamped w e e' : stamp w e = Some e' → stamped w e e'.
Proof.
  unfold stamp. destruct (clamp _ _ (at_ e)) as [t|] eqn:Ht; simpl; [|done].
  apply clamp_spec in Ht as [Ht Heq]. intros [= <-].
  assert (∀ b : bool, at_ (if b then set_connection (set_at e t) (lit "relay") else set_at e t) = t)
    as Hat by by intros [].
  unfold stamped. rw Hat. split_and!; [lia..|done| |].
  - destruct e; simpl. by case_match.
  - destruct (decide _) as [[Hc (p & Hp & Hin)]|Hn]; case_match eqn:Hb; simpl; try done; to_prop.
    + exfalso. rw Hp Hc in Hb. simpl in Hb. rw bool_decide_true // in Hb.
    + exfalso. apply Hn. simpl in *. destruct (peer_id e) as [p|]; [|done]. to_prop.
      split; [by apply seq_b_eq|eauto].
Qed.

(** An upload built at or after the epoch never panics and is one the
    coordinator takes: a window of at most an hour that does not start before
    the epoch, and the first 1000 events that are uploadable and drawn by the
    sampling rate, in order, unchanged but for a time moved into the window and
    a [p2p] mark that becomes [relay] exactly for relayed peers. *)
Theorem build_within_window sha256 (w : Window) (evs : list FlowEvent) (Hw : 0 ≤ window_end w) :
  ∃ u, build sha256 w evs = Some u ∧
    u_org_id u = w_org_id w ∧
    0 ≤ u_window_start u ≤ u_window_end u ∧
    u_window_end u - u_window_start u ≤ MAX_WINDOW_SECS ∧
    Forall2 (stamped w)
      (take MAX_BATCH (List.filter (λ e, uploadable e && sampled (w_sampling_rate w)
         (sample_draw sha256 (w_org_id w) (w_device_id w) (flow_id e))) evs))
      (u_events u).
Proof.
  assert (0 ≤ window_start w ≤ window_end w ∧ window_end w - window_start w ≤ MAX_WINDOW_SECS)
    as [Hs Hlen] by (unfold window_start, window_end, MAX_WINDOW_SECS in *; lia).
  unfold build. set (kept := take _ _). clearbody kept.
  assert (∃ es, mapM (stamp w) kept = Some es) as [es Hes].
  { apply mapM_is_Some_2, Forall_forall. intros e _. apply stamp_total. lia. }
  rw Hes /=. eexists. split; [done|]. simpl. split_and!; [done|lia..|].
  apply mapM_Some in Hes. eapply Forall2_impl; [done|]. apply stamp_stamped.
Qed.

Lemma build_within_window_witness :
  let w := mkWindow (lit "o") (lit "d") 100 50 (S754_finite false 1 0) [lit "p"] in
  let e := set_peer_id (event (lit "f") Start 7 Inbound 6 (V4 167772161, 5) (V4 167772162, 80) None)
             (Some (lit "p")) in
  ∃ u e', build (λ _, []) w [e] = Some u ∧ u_events u = [e'] ∧ at_ e' = 100
          ∧ connection_type e' = lit "relay".
Proof.
  intros w e. destruct (build_within_window (λ _, []) w [e]) as (u & Hu & _).
  { by vm_compute. }
  exists u. revert Hu. vm_compute. intros [= <-]. by eexists.
Defined.
