(* ===== verification/Policy.v ===== *)
(** * The compiled inbound policy

    The policy half of [blaktail-ios-wg/src/filter.rs]: the coordinator's peer
    grants, their compilation into first-match rules, and the verdict for a new
    inbound flow. *)

From S2P Require Import Prelude Text Net.

Definition TCP : Z := 6.
Definition UDP : Z := 17.
Definition ICMP : Z := 1.
Definition ICMPV6 : Z := 58.

Record Ingress := mkIngress {
  all : bool;
  tcp : list str;
  udp : list str;
  icmp : bool;
  deny_tcp : list str;
  deny_udp : list str;
  deny_icmp : bool;
  ssh_users : list str;
  ssh_deny_users : list str
}.

(** [Ingress { all: true, ..Ingress::default() }] *)
Definition ingress_all : Ingress := mkIngress true [] [] false [] [] false [] [].

Record PqHint := mkPqHint { pq_mode : str; pq_capable : bool }.

Record PolicyPeer := mkPolicyPeer {
  pp_id : str;
  pp_allowed_ips : list str;
  pp_ingress : option Ingress;
  pp_pq : option PqHint
}.

Definition port_range (spec : str) : option (Z * Z) :=
  let spec := trim spec in
  if seq_b spec "*" then Some (1, U16_MAX)
  else match split_once 45 spec with
       | Some (s, e) =>
           s ← parse_u16 s;
           e ← parse_u16 e;
           if negb (s =? 0) && negb (e =? 0) && (s <=? e) then Some (s, e) else None
       | None =>
           port ← parse_u16 spec;
           if negb (port =? 0) then Some (port, port) else None
       end.

Definition ssh_restricted (ingress : Ingress) : bool :=
  let unrestricted := (length (ssh_users ingress) =? 1)%nat
                      && bool_decide (head (ssh_users ingress) = Some (lit "*"))
                      && (length (ssh_deny_users ingress) =? 0)%nat in
  negb (length (ssh_users ingress) =? 0)%nat && negb unrestricted.

Inductive Proto := Tcp | Udp | Icmp | Any.

Record Rule := mkRule { r_proto : Proto; r_ports : Z * Z; r_accept : bool }.

Definition in_range (r : Z * Z) (port : Z) : bool := (r.1 <=? port) && (port <=? r.2).

Definition rule_matches (r : Rule) (proto port : Z) : bool :=
  match r_proto r with
  | Any => true
  | Icmp => (proto =? ICMP) || (proto =? ICMPV6)
  | Tcp => (proto =? TCP) && in_range (r_ports r) port
  | Udp => (proto =? UDP) && in_range (r_ports r) port
  end.

Record Prefix := mkPrefix { network : IpAddr; bits : Z }.

Module Prefix.

Definition parse (value : str) : option Prefix :=
  '(address, b) ← split_once 47 value;
  net ← parse_ip (trim address);
  b ← parse_u8 (trim b);
  let max := if is_ipv4 net then 32 else 128 in
  if b <=? max then Some (mkPrefix net b) else None.

Definition contains (p : Prefix) (address : IpAddr) : bool :=
  match network p, address with
  | V4 net, V4 a => mask_value 32 (bits p) net =? mask_value 32 (bits p) a
  | V6 net, V6 a => mask_value 128 (bits p) net =? mask_value 128 (bits p) a
  | _, _ => false
  end.

Definition host (p : Prefix) : option IpAddr :=
  let full := if is_ipv4 (network p) then 32 else 128 in
  if bits p =? full then Some (network p) else None.

End Prefix.

Record Source := mkSource { s_peer : option str; s_rules : list Rule }.

Record Policy := mkPolicy {
  enforce : bool;
  sources : gmap IpAddr (list Source);
  routes : list (Prefix * str)
}.

Definition pol_peer_id (id : str) : option str :=
  let id := trim id in
  if (length id =? 0)%nat then None else Some id.

Definition range_rules (proto : Proto) (accept : bool) (specs : list str) : list Rule :=
  map (λ r, mkRule proto r accept) (omap port_range specs).

Definition compile_rules (ingress : Ingress) (pq_port : option Z) : list Rule :=
  let pq := match pq_port with Some port => [mkRule Tcp (port, port) true] | None => [] end in
  let denied := if ssh_restricted ingress
                   && negb (existsb (λ spec, seq_b spec "22") (deny_tcp ingress))
                then deny_tcp ingress ++ [lit "22"] else deny_tcp ingress in
  let rules := pq ++ range_rules Tcp false denied ++ range_rules Udp false (deny_udp ingress)
               ++ (if deny_icmp ingress then [mkRule Icmp (0, 0) false] else []) in
  if all ingress then rules ++ [mkRule Any (0, 0) true]
  else rules ++ range_rules Tcp true (tcp ingress) ++ range_rules Udp true (udp ingress)
       ++ (if icmp ingress then [mkRule Icmp (0, 0) true] else []).

Module Policy.

Definition allow_all : Policy := mkPolicy false ∅ [].
Definition deny_all : Policy := mkPolicy true ∅ [].

(** [policy.sources.entry(host).or_default().push(source)] *)
Definition push_source (m : gmap IpAddr (list Source)) (s : Source) (h : IpAddr) :
    gmap IpAddr (list Source) :=
  <[h := default [] (m !! h) ++ [s]]> m.

Definition pq_applies (peer : PolicyPeer) : bool :=
  match pp_pq peer with
  | Some pq => pq_capable pq && negb (length (pq_mode pq) =? 0)%nat && negb (seq_b (pq_mode pq) "off")
  | None => false
  end.

(** The loop body of [compile]. *)
Definition compile_peer (pq_port : option Z) (policy : Policy) (peer : PolicyPeer) : Policy :=
  let id := pol_peer_id (pp_id peer) in
  let prefixes := omap Prefix.parse (pp_allowed_ips peer) in
  let routes := match id with
                | Some id => routes policy ++ map (λ p, (p, id)) prefixes
                | None => routes policy
                end in
  if negb (enforce policy) then mkPolicy (enforce policy) (sources policy) routes
  else
    let ingress := default ingress_all (pp_ingress peer) in
    let pq := if pq_applies peer then pq_port else None in
    let rules := compile_rules ingress pq in
    mkPolicy (enforce policy)
      (foldl (λ m h, push_source m (mkSource id rules) h) (sources policy) (omap Prefix.host prefixes))
      routes.

Definition compile (peers : list PolicyPeer) (pq_port : option Z) : Policy :=
  foldl (compile_peer pq_port)
    (mkPolicy (existsb (λ p, bool_decide (is_Some (pp_ingress p))) peers) ∅ []) peers.

Definition peer_for (p : Policy) (address : IpAddr) : option str :=
  match sources p !! address ≫= find (λ e, bool_decide (is_Some (s_peer e))) with
  | Some entry => s_peer entry
  | None => snd <$> find (λ r, Prefix.contains r.1 address) (routes p)
  end.

Inductive hint := AclAllow | AclDenyRule | AclDefault.

Definition hint_text (h : hint) : str :=
  match h with
  | AclAllow => lit "acl:allow"
  | AclDenyRule => lit "acl:deny-rule"
  | AclDefault => lit "acl:default"
  end.

(** The two nested loops: the first matching rule of the first entry that has
    one. *)
Fixpoint first_match (entries : list Source) (proto port : Z) : option (Source * Rule) :=
  match entries with
  | [] => None
  | e :: entries =>
      match find (λ r, rule_matches r proto port) (s_rules e) with
      | Some r => Some (e, r)
      | None => first_match entries proto port
      end
  end.

Definition decide_with_hint (p : Policy) (source : IpAddr) (proto port : Z) : bool * option str * hint :=
  match sources p !! source ≫= λ entries, first_match entries proto port with
  | Some (entry, rule) =>
      let allow := negb (enforce p) || r_accept rule in
      (allow, s_peer entry, if allow then AclAllow else AclDenyRule)
  | None => (negb (enforce p), peer_for p source, AclDefault)
  end.

Definition decide (p : Policy) (source : IpAddr) (proto port : Z) : bool * option str :=
  let '(allow, peer, _) := decide_with_hint p source proto port in (allow, peer).

End Policy.

(** ** What a grant means

    The specification the compiled rules implement: explicit denies (and the
    closed SSH port of a user-limited grant) beat accepts, the post-quantum
    exchange port beats both, and whatever no rule names has no verdict. *)

Module PolicySpec.

Definition lists_port (specs : list str) (port : Z) : bool :=
  existsb (λ s, match port_range s with Some r => in_range r port | None => false end) specs.

Definition is_icmp (proto : Z) : bool := (proto =? ICMP) || (proto =? ICMPV6).

Definition denies (i : Ingress) (proto port : Z) : bool :=
  ((proto =? TCP) && (lists_port (deny_tcp i) port || ssh_restricted i && (port =? 22)))
  || ((proto =? UDP) && lists_port (deny_udp i) port)
  || (is_icmp proto && deny_icmp i).

Definition grants (i : Ingress) (proto port : Z) : bool :=
  all i
  || ((proto =? TCP) && lists_port (tcp i) port)
  || ((proto =? UDP) && lists_port (udp i) port)
  || (is_icmp proto && icmp i).

Definition pq_opens (pq : option Z) (proto port : Z) : bool :=
  match pq with Some p => (proto =? TCP) && (port =? p) | None => false end.

Definition ingress_verdict (i : Ingress) (pq : option Z) (proto port : Z) : option bool :=
  if pq_opens pq proto port then Some true
  else if denies i proto port then Some false
  else if grants i proto port then Some true
  else None.

Definition peer_hosts (p : PolicyPeer) : list IpAddr :=
  omap Prefix.host (omap Prefix.parse (pp_allowed_ips p)).

Definition peer_verdict (pq_port : option Z) (p : PolicyPeer) (proto port : Z) : option bool :=
  ingress_verdict (default ingress_all (pp_ingress p)) (if Policy.pq_applies p then pq_port else None)
    proto port.

(** The first peer, in map order, that owns the source address and has a
    verdict. *)
Fixpoint peers_verdict (pq_port : option Z) (peers : list PolicyPeer) (source : IpAddr)
    (proto port : Z) : option (option str * bool) :=
  match peers with
  | [] => None
  | p :: peers =>
      match (if bool_decide (source ∈ peer_hosts p) then peer_verdict pq_port p proto port else None) with
      | Some v => Some (pol_peer_id (pp_id p), v)
      | None => peers_verdict pq_port peers source proto port
      end
  end.

Definition enforcing (peers : list PolicyPeer) : bool :=
  existsb (λ p, bool_decide (is_Some (pp_ingress p))) peers.

End PolicySpec.

(** ** Proofs *)

Lemma port_range_bounds spec lo hi : port_range spec = Some (lo, hi) → 1 ≤ lo ≤ hi ∧ hi ≤ U16_MAX.
Proof.
  unfold port_range. destruct (seq_b (trim spec) "*"); [intros [= <- <-]; mlia|].
  destruct (split_once 45 (trim spec)) as [[s e]|].
  - destruct (parse_u16 s) as [a|] eqn:Hs; simpl; [|done]. destruct (parse_u16 e) as [b|] eqn:He; simpl; [|done].
    apply parse_uint_bound in Hs; [|mlia..]. apply parse_uint_bound in He; [|mlia..].
    case_match; [|done]. to_prop. intros [= <- <-]. mlia.
  - destruct (parse_u16 (trim spec)) as [port|] eqn:Hp; simpl; [|done].
    apply parse_uint_bound in Hp; [|mlia..]. case_match; [|done]. to_prop. intros [= <- <-]. mlia.
Qed.

Module PolicyProps.
Import PolicySpec.

Definition verdict (rs : list Rule) (proto port : Z) : option bool :=
  r_accept <$> find (λ r, rule_matches r proto port) rs.

Definition or_else {A} (o1 o2 : option A) : option A := match o1 with Some _ => o1 | None => o2 end.

Lemma verdict_app rs1 rs2 proto port :
  verdict (rs1 ++ rs2) proto port = or_else (verdict rs1 proto port) (verdict rs2 proto port).
Proof.
  unfold verdict. induction rs1 as [|r rs1 IH]; simpl; [by destruct (find _ rs2)|].
  by destruct (rule_matches r proto port).
Qed.

Lemma verdict_range pr acc specs proto port n :
  (∀ ports, rule_matches (mkRule pr ports acc) proto port = (proto =? n) && in_range ports port) →
  verdict (range_rules pr acc specs) proto port =
  if (proto =? n) && lists_port specs port then Some acc else None.
Proof.
  intros Hm. unfold verdict, range_rules, lists_port.
  induction specs as [|s specs IH]; simpl; [by rw andb_false_r|].
  destruct (port_range s) as [r|]; simpl; [|done].
  rw Hm. destruct (proto =? n); simpl in *; [|done].
  by destruct (in_range r port).
Qed.

Lemma verdict_tcp acc specs proto port :
  verdict (range_rules Tcp acc specs) proto port =
  if (proto =? TCP) && lists_port specs port then Some acc else None.
Proof. by apply verdict_range. Qed.

Lemma verdict_udp acc specs proto port :
  verdict (range_rules Udp acc specs) proto port =
  if (proto =? UDP) && lists_port specs port then Some acc else None.
Proof. by apply verdict_range. Qed.

Lemma verdict_icmp (b acc : bool) proto port :
  verdict (if b then [mkRule Icmp (0, 0) acc] else []) proto port =
  if is_icmp proto && b then Some acc else None.
Proof.
  unfold verdict. destruct b; simpl; [|by rw andb_false_r].
  rw andb_true_r. change (rule_matches _ proto port) with (is_icmp proto). by destruct (is_icmp proto).
Qed.

Lemma verdict_pq pq proto port :
  verdict (match pq with Some p => [mkRule Tcp (p, p) true] | None => [] end) proto port =
  if pq_opens pq proto port then Some true else None.
Proof.
  destruct pq as [p|]; [|done]. unfold verdict, pq_opens. simpl. unfold rule_matches, in_range. simpl.
  assert ((p <=? port) && (port <=? p) = (port =? p)) as -> by lia. by repeat case_match.
Qed.

(** Closing port 22 once is the same as adding it to the denied ports. *)
Lemma lists_port_ssh i port :
  lists_port (if ssh_restricted i && negb (existsb (λ spec, seq_b spec "22") (deny_tcp i))
              then deny_tcp i ++ [lit "22"] else deny_tcp i) port =
  lists_port (deny_tcp i) port || ssh_restricted i && (port =? 22).
Proof.
  assert (∀ s, (match port_range (lit "22") with Some r => in_range r s | None => false end)
               = (s =? 22)) as H22.
  { intros s. assert (port_range (lit "22") = Some (22, 22)) as -> by by vm_compute.
    unfold in_range. simpl. lia. }
  unfold lists_port. destruct (ssh_restricted i); simpl; [|by rw orb_false_r].
  destruct (existsb _ (deny_tcp i)) eqn:He; simpl.
  - destruct (port =? 22) eqn:Hp; [|by rw orb_false_r]. rw orb_true_r.
    apply existsb_exists in He as (s & Hs & ->%seq_b_eq). apply existsb_exists.
    exists (lit "22"). split; [done|]. by rw H22.
  - rw existsb_app. cbn [existsb]. by rw H22 orb_false_r.
Qed.

Lemma compile_rules_verdict i pq proto port :
  verdict (compile_rules i pq) proto port = ingress_verdict i pq proto port.
Proof.
  unfold ingress_verdict, denies, grants, compile_rules.
  destruct (all i); rw !verdict_app !verdict_tcp !verdict_udp !verdict_icmp verdict_pq lists_port_ssh;
    by repeat case_match.
Qed.

Lemma first_match_app es1 es2 proto port :
  Policy.first_match (es1 ++ es2) proto port =
  or_else (Policy.first_match es1 proto port) (Policy.first_match es2 proto port).
Proof. induction es1 as [|e es1 IH]; simpl; [done|]. by case_match. Qed.

(** The entries a peer contributes to a source address: one per host prefix
    that names it. *)
Definition peer_source (pq_port : option Z) (p : PolicyPeer) : Source :=
  mkSource (pol_peer_id (pp_id p))
    (compile_rules (default ingress_all (pp_ingress p)) (if Policy.pq_applies p then pq_port else None)).

Definition peer_entries (pq_port : option Z) (h : IpAddr) (p : PolicyPeer) : list Source :=
  map (λ _, peer_source pq_port p) (filter (λ a, a = h) (peer_hosts p)).

Lemma push_sources_lookup m s hs h :
  default [] (foldl (λ m h, Policy.push_source m s h) m hs !! h) =
  default [] (m !! h) ++ map (λ _, s) (filter (λ a, a = h) hs).
Proof.
  revert m; induction hs as [|a hs IH]; intros m; simpl; [by rw app_nil_r|].
  rw IH. unfold Policy.push_source. rw filter_cons.
  destruct (decide (a = h)) as [->|Hne].
  - rw lookup_insert_eq /=. by rw -app_assoc.
  - by rw lookup_insert_ne.
Qed.

Lemma compile_fold pq peers p0 :
  enforce p0 = true →
  let p := foldl (Policy.compile_peer pq) p0 peers in
  enforce p = true ∧
  ∀ h, default [] (sources p !! h) = default [] (sources p0 !! h) ++ flat_map (peer_entries pq h) peers.
Proof.
  revert p0; induction peers as [|q peers IH]; intros p0 He; simpl; [split; [done|]; intros h; by rw app_nil_r|].
  destruct (IH (Policy.compile_peer pq p0 q)) as [He' Hs]; [unfold Policy.compile_peer; by rw He|].
  split; [done|]. intros h. rw Hs. unfold Policy.compile_peer. rw He /= push_sources_lookup.
  by rw app_assoc.
Qed.

Lemma compile_open pq peers p0 :
  enforce p0 = false →
  let p := foldl (Policy.compile_peer pq) p0 peers in enforce p = false ∧ sources p = sources p0.
Proof.
  revert p0; induction peers as [|q peers IH]; intros p0 He; simpl; [done|].
  destruct (IH (Policy.compile_peer pq p0 q)) as [-> ->]; unfold Policy.compile_peer; by rw He.
Qed.

Lemma peer_entries_match pq h p proto port :
  (λ '(e, r), (s_peer e, r_accept r)) <$> Policy.first_match (peer_entries pq h p) proto port =
  if bool_decide (h ∈ peer_hosts p)
  then (λ v, (pol_peer_id (pp_id p), v)) <$> peer_verdict pq p proto port else None.
Proof.
  unfold peer_entries, peer_verdict. rw -compile_rules_verdict. unfold verdict.
  assert (∀ n, Policy.first_match (replicate n (peer_source pq p)) proto port =
    match n with O => None
    | _ => (λ r, (peer_source pq p, r)) <$> find (λ r, rule_matches r proto port)
             (s_rules (peer_source pq p)) end) as Hr.
  { intros [|n]; [done|]. induction n as [|n IH]; simpl in *; destruct (find _ _); done. }
  change (map ?f ?l) with (f <$> l). rw (const_fmap _ _ (peer_source pq p)); [|done]. rw Hr.
  destruct (length _) as [|n] eqn:Hl.
  - rw bool_decide_false //. intros Hin. apply length_zero_iff_nil in Hl.
    assert (h ∈ filter (λ a, a = h) (peer_hosts p)) as Hin' by by apply list_elem_of_filter.
    rw Hl in Hin'. by apply elem_of_nil in Hin'.
  - rw bool_decide_true; [by destruct (find _ _)|].
    assert (∃ x, x ∈ filter (λ a, a = h) (peer_hosts p)) as [x [-> Hx]%list_elem_of_filter]; [|done].
    destruct (filter _ _) as [|x l]; [done|]. exists x. constructor.
Qed.

Lemma entries_match pq h peers proto port :
  (λ '(e, r), (s_peer e, r_accept r)) <$>
    Policy.first_match (flat_map (peer_entries pq h) peers) proto port =
  peers_verdict pq peers h proto port.
Proof.
  induction peers as [|p peers IH]; simpl; [done|]. rw first_match_app.
  pose proof (peer_entries_match pq h p proto port) as Hp.
  destruct (Policy.first_match (peer_entries pq h p) proto port) as [[e r]|]; simpl in *.
  - destruct (bool_decide _); [|done]. destruct (peer_verdict pq p proto port); simpl in *; congruence.
  - rw IH. destruct (bool_decide _); [|done]. by destruct (peer_verdict pq p proto port).
Qed.

Lemma compile_decision peers pq_port source proto port :
  let p := Policy.compile peers pq_port in
  Policy.decide_with_hint p source proto port =
  if enforcing peers then
    match peers_verdict pq_port peers source proto port with
    | Some (peer, v) => (v, peer, if v then Policy.AclAllow else Policy.AclDenyRule)
    | None => (false, Policy.peer_for p source, Policy.AclDefault)
    end
  else (true, Policy.peer_for p source, Policy.AclDefault).
Proof.
  intros p. unfold Policy.decide_with_hint, p, Policy.compile. fold (enforcing peers).
  destruct (enforcing peers).
  - destruct (compile_fold pq_port peers (mkPolicy true ∅ [])) as [He Hs]; [done|].
    set (p' := foldl _ _ _) in *. clearbody p'. specialize (Hs source). rw lookup_empty app_nil_l in Hs.
    rw -(entries_match pq_port source) -Hs He.
    destruct (sources p' !! source) as [es|]; simpl; [|done].
    by destruct (Policy.first_match es proto port) as [[e r]|].
  - destruct (compile_open pq_port peers (mkPolicy false ∅ [])) as [He Hs]; [done|].
    by rw He Hs.
Qed.

(** [C5] The compiled policy decides exactly as the grants say.  When no peer
    carries grants everything is admitted.  Otherwise the first peer of the map
    that owns the source address and has a verdict decides and is named, where a
    verdict is: open for the post-quantum exchange port, else closed for a denied
    port, protocol or user-limited SSH, else open for a granted one; and a flow
    without any verdict is refused. *)
Theorem compile_decides_grants peers pq_port source proto port :
  let p := Policy.compile peers pq_port in
  Policy.decide_with_hint p source proto port =
  if enforcing peers then
    match peers_verdict pq_port peers source proto port with
    | Some (peer, v) => (v, peer, if v then Policy.AclAllow else Policy.AclDenyRule)
    | None => (false, Policy.peer_for p source, Policy.AclDefault)
    end
  else (true, Policy.peer_for p source, Policy.AclDefault).
Proof. apply compile_decision. Qed.

End PolicyProps.
