(* ===== verification/Packet.v ===== *)
(** * IP packet parsing

    The parser of [blaktail-ios-wg/src/filter.rs]: IPv4 and IPv6 headers, the
    IPv6 extension-header walk, fragments, TCP/UDP ports, ICMP, and the
    truncated packet quoted inside an ICMP error.  The parser works in the
    [result] monad: [Err Malformed] is Rust's [None], [Err Panic] an index out
    of bounds. *)

From S2P Require Import Prelude Net Policy.

Definition MAX_EXT_HEADERS : nat := 8.

Inductive stop := Malformed | Panic.
Abbreviation attempt := (result stop).

Definition get_byte (data : bytes) (i : nat) : attempt Z := ok_or (data !! i) Malformed.
(** [data[i]] *)
Definition index (data : bytes) (i : nat) : attempt Z := ok_or (data !! i) Panic.
(** [&data[..n]] *)
Definition prefix_of (data : bytes) (n : nat) : attempt bytes :=
  if (n <=? length data)%nat then Ok (take n data) else Err Panic.
(** [data[a..b]] *)
Definition index_range (data : bytes) (a b : nat) : attempt bytes := ok_or (get_range a b data) Panic.

Record FragmentKey := mkFragmentKey {
  fk_source : IpAddr;
  fk_destination : IpAddr;
  fk_proto : Z;
  fk_ident : Z
}.

Inductive Fragment :=
| Whole
| First (key : FragmentKey)
| Later (key : FragmentKey).

Definition is_later (f : Fragment) : bool := match f with Later _ => true | _ => false end.

Inductive L4 :=
| Ports (source destination flags : Z)
| IcmpMsg (kind ident : Z) (body : nat)
| Other.

Record Packet := mkPacket {
  p_source : IpAddr;
  p_destination : IpAddr;
  p_proto : Z;
  p_l4 : L4;
  p_fragment : Fragment;
  p_len : nat
}.

Definition be16 (data : bytes) (at_ : nat) : attempt Z :=
  let? a := get_byte data at_ in
  let? b := get_byte data (at_ + 1) in
  Ok (from_be [a; b]).

Record header := mkHeader {
  h_source : IpAddr;
  h_destination : IpAddr;
  h_proto : Z;
  h_offset : nat;
  h_fragment : Fragment;
  h_data : bytes
}.

Definition parse_v4_header (data : bytes) : attempt header :=
  let? b0 := get_byte data 0 in
  let ihl := (Z.to_nat (Z.land b0 15) * 4)%nat in
  let? total := be16 data 2 in
  let total := Z.to_nat total in
  if (ihl <? 20)%nat || (total <? ihl)%nat || (length data <? total)%nat then Err Malformed
  else
    let? data := prefix_of data total in
    let? proto := index data 9 in
    let? src := index_range data 12 16 in
    let? dst := index_range data 16 20 in
    let source := V4 (from_be src) in
    let destination := V4 (from_be dst) in
    let? flags := be16 data 6 in
    let? ident := be16 data 4 in
    let key := mkFragmentKey source destination proto ident in
    let fragment := if negb (Z.land flags 8191 =? 0) then Later key
                    else if negb (Z.land flags 8192 =? 0) then First key
                    else Whole in
    Ok (mkHeader source destination proto ihl fragment data).

Definition parse_v6_header (data : bytes) : attempt header :=
  if (length data <? 40)%nat then Err Malformed
  else
    let? payload := be16 data 4 in
    let total := (40 + Z.to_nat payload)%nat in
    if (length data <? total)%nat then Err Malformed
    else
      let? data := prefix_of data total in
      let? src := index_range data 8 24 in
      let? dst := index_range data 24 40 in
      let? proto := index data 6 in
      Ok (mkHeader (V6 (from_be src)) (V6 (from_be dst)) proto 40 Whole data).

(** The header length of an extension header and the fragment state it
    leaves, or [None] when [proto] is not an extension header. *)
Definition ext_header (data : bytes) (source destination : IpAddr) (proto : Z) (offset : nat)
    (fragment : Fragment) : attempt (option (nat * Fragment)) :=
  if (proto =? 0) || (proto =? 43) || (proto =? 60) then
    let? b := get_byte data (offset + 1) in Ok (Some ((Z.to_nat b + 1) * 8, fragment)%nat)
  else if proto =? 51 then
    let? b := get_byte data (offset + 1) in Ok (Some ((Z.to_nat b + 2) * 4, fragment)%nat)
  else if proto =? 44 then
    let? field := be16 data (offset + 2) in
    let? ident := ok_or (get_range (offset + 4) (offset + 8) data) Malformed in
    let? next := get_byte data offset in
    let key := mkFragmentKey source destination next (from_be ident) in
    Ok (Some (8%nat, if negb (Z.shiftr field 3 =? 0) then Later key
                     else if negb (Z.land field 1 =? 0) then First key
                     else fragment))
  else Ok None.

(** The extension-header loop; [room] headers may still be walked. *)
Fixpoint walk (room : nat) (data : bytes) (source destination : IpAddr) (proto : Z) (offset : nat)
    (fragment : Fragment) : attempt (Z * nat * Fragment) :=
  let? step := ext_header data source destination proto offset fragment in
  match step with
  | None => Ok (proto, offset, fragment)
  | Some (header_len, fragment) =>
      match room with
      | O => Err Malformed
      | S room =>
          let? proto := get_byte data offset in
          let offset := (offset + header_len)%nat in
          if (length data <? offset)%nat then Err Malformed
          else if is_later fragment then Ok (proto, offset, fragment)
          else walk room data source destination proto offset fragment
      end
  end.

Definition icmp_header (data : bytes) (offset : nat) : attempt L4 :=
  let? _ := be16 data (offset + 6) in
  let? kind := index data offset in
  let? ident := be16 data (offset + 4) in
  Ok (IcmpMsg kind ident (offset + 8)).

Definition parse_l4 (data : bytes) (source : IpAddr) (proto : Z) (offset : nat) (fragment : Fragment)
    (embedded : bool) : attempt L4 :=
  if is_later fragment then Ok Other
  else if proto =? TCP then
    if negb embedded && (length data <? offset + 20)%nat then Err Malformed
    else
      let? s := be16 data offset in
      let? d := be16 data (offset + 2) in
      Ok (Ports s d (default 0 (data !! (offset + 13)%nat)))
  else if proto =? UDP then
    let? _ := be16 data (offset + 6) in
    let? s := be16 data offset in
    let? d := be16 data (offset + 2) in
    Ok (Ports s d 0)
  else if (proto =? ICMP) && is_ipv4 source then icmp_header data offset
  else if (proto =? ICMPV6) && is_ipv6 source then icmp_header data offset
  else Ok Other.

Definition parse_packet (data : bytes) (embedded : bool) : attempt Packet :=
  let? b0 := get_byte data 0 in
  let version := Z.shiftr b0 4 in
  let? h := (if version =? 4 then parse_v4_header data
             else if version =? 6 then parse_v6_header data
             else Err Malformed) in
  let? (proto, offset, fragment) :=
    (if is_ipv6 (h_source h)
     then walk MAX_EXT_HEADERS (h_data h) (h_source h) (h_destination h) (h_proto h) (h_offset h)
            (h_fragment h)
     else Ok (h_proto h, h_offset h, h_fragment h)) in
  let? l4 := parse_l4 (h_data h) (h_source h) proto offset fragment embedded in
  Ok (mkPacket (h_source h) (h_destination h) proto l4 fragment (length (h_data h))).

Definition parse (data : bytes) : option Packet := result_ok (parse_packet data false).

Definition is_echo_request (proto kind : Z) : bool :=
  ((proto =? ICMP) && (kind =? 8)) || ((proto =? ICMPV6) && (kind =? 128)).
Definition is_echo (proto kind : Z) : bool :=
  is_echo_request proto kind || ((proto =? ICMP) && (kind =? 0)) || ((proto =? ICMPV6) && (kind =? 129)).
Definition is_error (proto kind : Z) : bool :=
  ((proto =? ICMP) && ((kind =? 3) || (kind =? 11) || (kind =? 12)))
  || ((proto =? ICMPV6) && ((1 <=? kind) && (kind <=? 4))).

(** [copy.get_mut(a..a + src.len())?.copy_from_slice(src)] *)
Definition write_at (a : nat) (src : bytes) (data : bytes) : attempt bytes :=
  if (a + length src <=? length data)%nat
  then Ok (take a data ++ src ++ drop (a + length src) data) else Err Malformed.

Definition u16_try_from (n : nat) : attempt Z :=
  if Z.of_nat n <=? U16_MAX then Ok (Z.of_nat n) else Err Malformed.

Definition parse_embedded (data : bytes) : attempt Packet :=
  let? b0 := get_byte data 0 in
  let version := Z.shiftr b0 4 in
  let? copy :=
    (if version =? 4 then
       let? n := u16_try_from (length data) in
       let? copy := write_at 2 (be_bytes 2 n) data in
       write_at 6 [0; 0] copy
     else if version =? 6 then
       let? payload := (if (length data <? 40)%nat then Err Malformed else u16_try_from (length data - 40)) in
       write_at 4 (be_bytes 2 payload) data
     else Err Malformed) in
  let? p := parse_packet copy true in
  Ok (mkPacket (p_source p) (p_destination p) (p_proto p) (p_l4 p) Whole (p_len p)).

(** ** Proofs *)

Module PacketProps.

Definition safe {A} (r : attempt A) : Prop := r ≠ Err Panic.

Lemma safe_bind {A B} (r : attempt A) (k : A → attempt B) :
  safe r → (∀ a, r = Ok a → safe (k a)) → safe (result_bind r k).
Proof. intros Hr Hk. destruct r as [a|[]]; simpl; [by apply Hk|done..]. Qed.

Lemma safe_malformed {A} (o : option A) : safe (ok_or o Malformed).
Proof. by destruct o. Qed.

Lemma safe_get data i : safe (get_byte data i).
Proof. apply safe_malformed. Qed.

Lemma safe_be16 data i : safe (be16 data i).
Proof. unfold be16, get_byte. by destruct (data !! i), (data !! (i + 1)%nat). Qed.

Lemma index_ok data i : (i < length data)%nat → ∃ b, index data i = Ok b.
Proof. intros [b Hb]%lookup_lt_is_Some_2. exists b. unfold index. by rw Hb. Qed.

Lemma index_range_ok data a b :
  (a ≤ b)%nat → (b ≤ length data)%nat → index_range data a b = Ok (slice a b data).
Proof.
  intros Ha Hb. unfold index_range, get_range.
  by rw (proj2 (Nat.leb_le a b) Ha) (proj2 (Nat.leb_le b (length data)) Hb).
Qed.

Lemma safe_index data i : (i < length data)%nat → safe (index data i).
Proof. by intros [b ->]%index_ok. Qed.

Lemma safe_index_range data a b : (a ≤ b)%nat → (b ≤ length data)%nat → safe (index_range data a b).
Proof. intros ??. by rw index_range_ok. Qed.

Lemma prefix_of_ok data n d : prefix_of data n = Ok d → d = take n data ∧ length d = n.
Proof.
  unfold prefix_of. case_match; to_prop; [|done]. intros [= <-]. rw length_take. split; [done|lia].
Qed.

Lemma safe_prefix_of data n : (n ≤ length data)%nat → safe (prefix_of data n).
Proof. intros H. unfold prefix_of. by rw (proj2 (Nat.leb_le _ _) H). Qed.

Lemma be16_ok data i n :
  be16 data i = Ok n → ∃ a b, data !! i = Some a ∧ data !! (i + 1)%nat = Some b ∧ n = from_be [a; b].
Proof.
  unfold be16, get_byte. destruct (data !! i) as [a|] eqn:Ha; simpl; [|done].
  destruct (data !! (i + 1)%nat) as [b|] eqn:Hb; simpl; [|done]. intros [= <-]. eauto 10.
Qed.

Lemma be16_room data i n : be16 data i = Ok n → (i + 1 < length data)%nat.
Proof. intros (a & b & _ & Hb & _)%be16_ok. by apply lookup_lt_Some in Hb. Qed.

Ltac step_safe :=
  lazymatch goal with
  | |- safe (result_bind _ _) => apply safe_bind; [|intros ? ?]
  | |- safe (Ok _) => done
  | |- safe (Err Malformed) => done
  | |- safe (get_byte _ _) => apply safe_get
  | |- safe (be16 _ _) => apply safe_be16
  | |- safe (ok_or _ Malformed) => apply safe_malformed
  | |- safe (if ?b then _ else _) => destruct b eqn:?; to_prop
  | |- safe (match ?x with _ => _ end) => destruct x
  end.

Lemma safe_v4_header data : safe (parse_v4_header data).
Proof.
  unfold parse_v4_header. repeat step_safe; [apply safe_prefix_of; lia|..];
    repeat match goal with H : prefix_of _ _ = Ok _ |- _ => apply prefix_of_ok in H as [_ ?] end.
  - apply safe_index. lia.
  - apply safe_index_range; lia.
  - apply safe_index_range; lia.
Qed.

Lemma safe_v6_header data : safe (parse_v6_header data).
Proof.
  unfold parse_v6_header. repeat step_safe; [apply safe_prefix_of; lia|..];
    repeat match goal with H : prefix_of _ _ = Ok _ |- _ => apply prefix_of_ok in H as [_ ?] end.
  - apply safe_index_range; lia.
  - apply safe_index_range; lia.
  - apply safe_index. lia.
Qed.

Lemma safe_ext_header data s d proto offset f : safe (ext_header data s d proto offset f).
Proof. unfold ext_header. repeat step_safe. Qed.

Lemma safe_walk room data s d proto offset f : safe (walk room data s d proto offset f).
Proof.
  revert proto offset f; induction room as [|room IH]; intros proto offset f; simpl;
    (apply safe_bind; [apply safe_ext_header|intros [[n f']|] _]); repeat step_safe; apply IH.
Qed.

Lemma safe_icmp data offset : safe (icmp_header data offset).
Proof.
  unfold icmp_header. repeat step_safe. apply safe_index.
  match goal with H : be16 _ _ = _ |- _ => apply be16_room in H end. lia.
Qed.

Lemma safe_l4 data s proto offset f e : safe (parse_l4 data s proto offset f e).
Proof. unfold parse_l4. repeat step_safe; apply safe_icmp. Qed.

Lemma safe_packet data e : safe (parse_packet data e).
Proof.
  unfold parse_packet. apply safe_bind; [apply safe_get|intros b0 _].
  apply safe_bind; [repeat step_safe; [apply safe_v4_header|apply safe_v6_header]|intros h _].
  apply safe_bind; [repeat step_safe; apply safe_walk|intros [[proto offset] f] _].
  apply safe_bind; [apply safe_l4|done].
Qed.

(** No packet, however malformed, makes the parser index out of bounds: not
    a received packet, and not the packet quoted inside an ICMP error. *)
Theorem parser_never_panics (data : bytes) (embedded : bool) :
  parse_packet data embedded ≠ Err Panic ∧ parse_embedded data ≠ Err Panic.
Proof.
  split; [apply safe_packet|]. change (safe (parse_embedded data)).
  unfold parse_embedded, u16_try_from, write_at. repeat step_safe; apply safe_packet.
Qed.

Lemma v4_header_len data h : parse_v4_header data = Ok h → (length (h_data h) ≤ length data)%nat.
Proof.
  unfold parse_v4_header. intros H.
  repeat match goal with
  | H : result_bind ?r _ = Ok _ |- _ => destruct r eqn:?; simpl in H; [|done]
  | H : (if ?b then _ else _) = Ok _ |- _ => destruct b eqn:?; [done|]
  | H : prefix_of _ _ = Ok _ |- _ => apply prefix_of_ok in H as [-> _]
  end. injection H as <-. simpl. rw length_take. lia.
Qed.

Lemma v6_header_len data h : parse_v6_header data = Ok h → (length (h_data h) ≤ length data)%nat.
Proof.
  unfold parse_v6_header. intros H.
  repeat match goal with
  | H : (if ?b then _ else _) = Ok _ |- _ => destruct b eqn:?; [done|]
  | H : result_bind ?r _ = Ok _ |- _ => destruct r eqn:?; simpl in H; [|done]
  | H : prefix_of _ _ = Ok _ |- _ => apply prefix_of_ok in H as [-> _]
  end. injection H as <-. simpl. rw length_take. lia.
Qed.

(** The filter slices the input to the parsed length; it always fits. *)
Lemma parse_packet_len data e p : parse_packet data e = Ok p → (p_len p ≤ length data)%nat.
Proof.
  unfold parse_packet. intros H.
  destruct (get_byte data 0) as [b0|]; simpl in H; [|done].
  destruct (if _ =? 4 then _ else _) as [h|] eqn:Hh; simpl in H; [|done].
  destruct (if is_ipv6 _ then _ else _) as [[[proto offset] f]|]; simpl in H; [|done].
  destruct (parse_l4 _ _ _ _ _ _); simpl in H; [|done]. injection H as <-. simpl.
  repeat case_match; [by apply v4_header_len|by apply v6_header_len|done].
Qed.

(** ** Reading back a wire packet *)

(** An IPv4 packet with [options] in its header, as it stands on the wire. *)
Definition v4_wire (tos ident flags ttl proto csum src dst : Z) (options payload : bytes) : bytes :=
  [69 + len options / 4; tos] ++ be_bytes 2 (20 + len options + len payload) ++ be_bytes 2 ident
  ++ be_bytes 2 flags ++ [ttl; proto] ++ be_bytes 2 csum ++ be_bytes 4 src ++ be_bytes 4 dst
  ++ options ++ payload.

Definition ports_wire (sport dport : Z) (rest : bytes) : bytes :=
  be_bytes 2 sport ++ be_bytes 2 dport ++ rest.

Lemma be2 n : is_u16 n → ∃ h l, be_bytes 2 n = [h; l] ∧ from_be [h; l] = n.
Proof.
  intros Hn. pose proof (length_be_limbs 256 2 n) as Hl.
  destruct (be_bytes 2 n) as [|h [|l [|]]] eqn:Hb; simplify_eq/=. exists h, l. split; [done|].
  rw -Hb. apply from_limbs_be; mlia.
Qed.

Lemma be4 n : is_u32 n → ∃ a b c d, be_bytes 4 n = [a; b; c; d] ∧ from_be [a; b; c; d] = n.
Proof.
  intros Hn. pose proof (length_be_limbs 256 4 n) as Hl.
  destruct (be_bytes 4 n) as [|a [|b [|c [|d [|]]]]] eqn:Hb; simplify_eq/=. exists a, b, c, d.
  split; [done|]. rw -Hb. apply from_limbs_be; mlia.
Qed.

Lemma be16_app l1 h l l2 i : i = length l1 → be16 (l1 ++ h :: l :: l2) i = Ok (from_be [h; l]).
Proof.
  intros ->. unfold be16, get_byte. rw list_lookup_middle // lookup_app_r; [|lia].
  by replace (length l1 + 1 - length l1)%nat with 1%nat by lia.
Qed.

Definition v4_fragment (flags proto ident src dst : Z) : Fragment :=
  let key := mkFragmentKey (V4 src) (V4 dst) proto ident in
  if negb (Z.land flags 8191 =? 0) then Later key
  else if negb (Z.land flags 8192 =? 0) then First key else Whole.

Lemma length_wire tos ident flags ttl proto csum src dst options payload :
  length (v4_wire tos ident flags ttl proto csum src dst options payload)
  = (20 + length options + length payload)%nat.
Proof. unfold v4_wire. rewrite -> !length_app, !length_be_limbs. simpl. lia. Qed.

(** The header part of the packet, in front of the payload. *)
Lemma wire_split tos ident flags ttl proto csum src dst options payload :
  ∃ hdr, v4_wire tos ident flags ttl proto csum src dst options payload = hdr ++ payload
         ∧ length hdr = (20 + length options)%nat.
Proof.
  unfold v4_wire. rewrite -> !app_assoc. eexists. split; [done|].
  rewrite -> !length_app, !length_be_limbs. simpl. lia.
Qed.

Section wire.
Context (tos ident flags ttl proto csum src dst : Z) (options payload pad : bytes).
Context (Hident : is_u16 ident) (Hflags : is_u16 flags) (Hcsum : is_u16 csum).
Context (Hsrc : is_u32 src) (Hdst : is_u32 dst).
Context (words : nat) (Hopt : length options = (words * 4)%nat) (Hwords : (words ≤ 10)%nat).
Context (Htotal : 20 + len options + len payload ≤ U16_MAX).

Let wire := v4_wire tos ident flags ttl proto csum src dst options payload.

Lemma first_byte : Z.land (69 + len options / 4) 15 = 5 + Z.of_nat words
  ∧ Z.shiftr (69 + len options / 4) 4 = 4.
Proof using Hopt Hwords.
  change 15 with (Z.ones 4). rw Z.land_ones; [|lia]. rw Z.shiftr_div_pow2; [|lia].
  assert (len options / 4 = Z.of_nat words) as -> by (unfold len; rw Hopt; dlia).
  change (2 ^ 4) with 16. split; dlia.
Qed.

Lemma parse_v4_wire :
  parse_v4_header (wire ++ pad) =
  Ok (mkHeader (V4 src) (V4 dst) proto (20 + length options) (v4_fragment flags proto ident src dst) wire).
Proof using All.
  destruct first_byte as [Hb _].
  destruct (be2 (20 + len options + len payload)) as (t1 & t2 & Ht & Htv); [mlia|].
  destruct (be2 ident) as (i1 & i2 & Hi & Hiv); [done|].
  destruct (be2 flags) as (f1 & f2 & Hf & Hfv); [done|].
  destruct (be2 csum) as (c1 & c2 & Hc & _); [done|].
  destruct (be4 src) as (s1 & s2 & s3 & s4 & Hs & Hsv); [done|].
  destruct (be4 dst) as (d1 & d2 & d3 & d4 & Hd & Hdv); [done|].
  assert (length wire = (20 + length options + length payload)%nat) as Hlen.
  { apply length_wire. }
  assert (Z.to_nat (20 + len options + len payload) = length wire) as Hn by (rw Hlen; unfold len; lia).
  assert (prefix_of (wire ++ pad) (length wire) = Ok wire) as Hp.
  { unfold prefix_of. rw (proj2 (Nat.leb_le _ _)); [|rw length_app; lia]. by rw take_app_length. }
  revert Hlen Hn Hp. unfold wire, v4_wire. rw Ht Hi Hf Hc Hs Hd.
  intros Hlen Hn Hp. cbn [app] in *. unfold parse_v4_header.
  change (get_byte (?b :: _) 0) with (Ok (E := stop) b). cbn [result_bind].
  change (be16 (_ :: _ :: t1 :: t2 :: ?r) 2) with (Ok (E := stop) (from_be [t1; t2])).
  rw Htv Hb. cbn [result_bind]. rw Hn Hp. cbn [result_bind].
  rw (proj2 (Nat.ltb_ge _ 20)); [|lia]. rw (proj2 (Nat.ltb_ge _ (Z.to_nat (5 + Z.of_nat words) * 4))); [|lia].
  rw (proj2 (Nat.ltb_ge _ _)); [|simpl; rw !length_app; simpl in Hlen; rw length_app in Hlen; lia].
  cbn [orb].
  set (r := options ++ payload).
  set (w := _ :: tos :: _).
  change (index w 9) with (Ok (E := stop) proto).
  change (index_range w 12 16) with (Ok (E := stop) [s1; s2; s3; s4]).
  change (index_range w 16 20) with (Ok (E := stop) [d1; d2; d3; d4]).
  change (be16 w 6) with (Ok (E := stop) (from_be [f1; f2])).
  change (be16 w 4) with (Ok (E := stop) (from_be [i1; i2])).
  cbn [result_bind]. rw Hsv Hdv Hfv Hiv. do 2 f_equal. lia.
Qed.

Lemma parse_packet_v4_wire e :
  parse_packet (wire ++ pad) e =
  let f := v4_fragment flags proto ident src dst in
  let? l4 := parse_l4 wire (V4 src) proto (20 + length options) f e in
  Ok (mkPacket (V4 src) (V4 dst) proto l4 f (length wire)).
Proof using All.
  pose proof parse_v4_wire as Hh. destruct first_byte as [_ Hv].
  unfold parse_packet.
  assert (get_byte (wire ++ pad) 0 = Ok (69 + len options / 4)) as -> by done.
  cbn [result_bind]. rw Hv Hh. done.
Qed.

End wire.

Lemma parse_l4_ports hdr sport dport rest src proto f off :
  is_u16 sport → is_u16 dport → is_later f = false → off = length hdr →
  (proto = TCP ∧ (16 ≤ length rest)%nat ∨ proto = UDP ∧ (4 ≤ length rest)%nat) →
  parse_l4 (hdr ++ ports_wire sport dport rest) src proto off f false =
  Ok (Ports sport dport (if proto =? TCP then default 0 (rest !! 9%nat) else 0)).
Proof.
  intros Hs Hd Hf -> Hp. unfold parse_l4, ports_wire. rw Hf.
  destruct (be2 sport) as (s1 & s2 & -> & Hsv); [done|].
  destruct (be2 dport) as (d1 & d2 & -> & Hdv); [done|]. cbn [app].
  assert (be16 (hdr ++ s1 :: s2 :: d1 :: d2 :: rest) (length hdr) = Ok sport) as ->
    by (rw be16_app // Hsv //).
  assert (be16 (hdr ++ s1 :: s2 :: d1 :: d2 :: rest) (length hdr + 2) = Ok dport) as ->.
  { rw -Hdv. rewrite <- (be16_app (hdr ++ [s1; s2]) d1 d2 rest (length hdr + 2)).
    - by rw -app_assoc.
    - rw length_app /=. lia. }
  destruct Hp as [[-> Hl]|[-> Hl]]; simpl.
  - rw (proj2 (Nat.ltb_ge _ _)); [|rw length_app /=; lia].
    rw lookup_app_r; [|lia]. by replace (length hdr + 13 - length hdr)%nat with 13%nat by lia.
  - destruct rest as [|r1 [|r2 [|r3 [|r4 rest]]]]; simpl in Hl; [lia..|].
    assert (be16 (hdr ++ s1 :: s2 :: d1 :: d2 :: r1 :: r2 :: r3 :: r4 :: rest) (length hdr + 6)
            = Ok (from_be [r3; r4])) as ->; [|done].
    rewrite <- (be16_app (hdr ++ [s1; s2; d1; d2; r1; r2]) r3 r4 rest (length hdr + 6)).
    + by rw -app_assoc.
    + rw length_app /=. lia.
Qed.

(** The parser reads the wire format back: a well-formed IPv4 packet with any
    header options, carrying a TCP or UDP header, alone or as a first fragment
    and with any trailing link padding, parses to its addresses, protocol, ports
    and TCP flags, its fragment state, and its own length without the padding. *)
Theorem parse_reads_v4_ports tos ident flags ttl proto csum src dst options sport dport rest pad words
    (Hident : is_u16 ident) (Hflags : is_u16 flags) (Hcsum : is_u16 csum)
    (Hsrc : is_u32 src) (Hdst : is_u32 dst) (Hsp : is_u16 sport) (Hdp : is_u16 dport)
    (Hopt : length options = (words * 4)%nat) (Hwords : (words ≤ 10)%nat)
    (Htotal : 24 + len options + len rest ≤ U16_MAX)
    (Hl4 : proto = TCP ∧ (16 ≤ length rest)%nat ∨ proto = UDP ∧ (4 ≤ length rest)%nat)
    (Hoffset : Z.land flags 8191 = 0) :
  let payload := ports_wire sport dport rest in
  parse (v4_wire tos ident flags ttl proto csum src dst options payload ++ pad) =
  Some (mkPacket (V4 src) (V4 dst) proto
          (Ports sport dport (if proto =? TCP then default 0 (rest !! 9%nat) else 0))
          (if Z.land flags 8192 =? 0 then Whole
           else First (mkFragmentKey (V4 src) (V4 dst) proto ident))
          (24 + length options + length rest)).
Proof.
  intros payload.
  assert (length payload = (4 + length rest)%nat) as Hpl.
  { unfold payload, ports_wire. rewrite -> !length_app, !length_be_limbs. lia. }
  unfold parse. rw (parse_packet_v4_wire _ _ _ _ _ _ _ _ _ _ _ Hident Hflags Hcsum Hsrc Hdst words);
    [|done|done|unfold len in *; lia].
  cbv zeta. rw length_wire.
  destruct (wire_split tos ident flags ttl proto csum src dst options payload) as (hdr & -> & Hh).
  unfold payload in *. rw parse_l4_ports //.
  - simpl. unfold v4_fragment. rw Hoffset Hpl /=. destruct (Z.land flags 8192 =? 0); simpl; do 2 f_equal; lia.
  - unfold v4_fragment. rw Hoffset /=. by case_match.
Qed.

Lemma parse_reads_v4_ports_witness :
  parse (v4_wire 0 7 8192 64 UDP 0 167772161 167772162 [1; 1; 1; 1] (ports_wire 5353 53 [0; 8; 0; 0])
         ++ [0; 0])
  = Some (mkPacket (V4 167772161) (V4 167772162) UDP (Ports 5353 53 0)
            (First (mkFragmentKey (V4 167772161) (V4 167772162) UDP 7)) 32).
Proof.
  apply (parse_reads_v4_ports 0 7 8192 64 UDP 0 167772161 167772162 [1; 1; 1; 1] 5353 53 [0; 8; 0; 0]
           [0; 0] 1); try mlia; try done. right. split; [done|simpl; lia].
Defined.

End PacketProps.
