(* ===== verification/Filter.v ===== *)
(** * The inbound packet filter

    The connection tracker of [blaktail-ios-wg/src/filter.rs]: flow states,
    fragments, traffic counters and flow events around the compiled policy.
    Operations take the filter and return the new one.  Times are seconds since
    the filter's epoch, as the source passes them to [inbound] and [outbound]. *)

From S2P Require Import Prelude Text Net FlowReport FlowEvents Policy Packet.

Definition MAX_STATES : nat := 16384.
Definition MAX_TRAFFIC_KEYS : nat := 1024.
Definition MAX_FRAGMENTS : nat := 256.
Definition MAX_PENDING_DROPS : nat := 512.
Definition DYNAMIC_PORTS : Z := 49152.
Definition TCP_NEW_SECS : Z := 120.
Definition TCP_ESTABLISHED_SECS : Z := 7200.
Definition TCP_FIN_SECS : Z := 120.
Definition TCP_RST_SECS : Z := 10.
Definition UDP_NEW_SECS : Z := 60.
Definition UDP_REPLIED_SECS : Z := 180.
Definition ICMP_SECS : Z := 30.
Definition OTHER_SECS : Z := 600.
Definition FRAGMENT_SECS : Z := 30.
Definition PURGE_EVERY_SECS : Z := 10.

#[global] Arguments MAX_STATES : simpl never.
#[global] Arguments MAX_TRAFFIC_KEYS : simpl never.
#[global] Arguments MAX_FRAGMENTS : simpl never.
#[global] Arguments MAX_PENDING_DROPS : simpl never.

Module Dir.
Inductive Direction := Inbound | Outbound.
End Dir.
#[export] Instance Dir_eq_dec : EqDecision Dir.Direction.
Proof. solve_decision. Defined.
#[export] Instance Dir_countable : Countable Dir.Direction.
Proof.
  refine (inj_countable' (λ d, match d with Dir.Inbound => true | Dir.Outbound => false end)
    (λ b : bool, if b then Dir.Inbound else Dir.Outbound) _).
  by intros [].
Defined.

Record FlowKey := mkFlowKey {
  k_proto : Z;
  k_local : IpAddr;
  k_remote : IpAddr;
  k_local_port : Z;
  k_remote_port : Z
}.
#[export] Instance FlowKey_eq_dec : EqDecision FlowKey.
Proof. solve_decision. Defined.
#[export] Instance FlowKey_countable : Countable FlowKey.
Proof.
  refine (inj_countable'
    (λ k, (k_proto k, k_local k, k_remote k, k_local_port k, k_remote_port k))
    (λ '(a, b, c, d, e), mkFlowKey a b c d e) _).
  by intros [].
Defined.

#[export] Instance FragmentKey_eq_dec : EqDecision FragmentKey.
Proof. solve_decision. Defined.
#[export] Instance FragmentKey_countable : Countable FragmentKey.
Proof.
  refine (inj_countable' (λ k, (fk_source k, fk_destination k, fk_proto k, fk_ident k))
    (λ '(a, b, c, d), mkFragmentKey a b c d) _).
  by intros [].
Defined.

Record FlowStats := mkFlowStats {
  fs_id : Z;
  fs_last_seen : Z;
  fs_rx_bytes : Z;
  fs_tx_bytes : Z;
  fs_rx_packets : Z;
  fs_tx_packets : Z
}.

Record State := mkState {
  initiator : Dir.Direction;
  st_peer : option str;
  service_port : Z;
  replied : bool;
  expires : Z;
  generation : Z;
  flow : option FlowStats
}.

Record DropKey := mkDropKey {
  d_source : IpAddr;
  d_destination : IpAddr;
  d_proto : Z;
  d_source_port : Z;
  d_destination_port : Z
}.
#[export] Instance DropKey_eq_dec : EqDecision DropKey.
Proof. solve_decision. Defined.
#[export] Instance DropKey_countable : Countable DropKey.
Proof.
  refine (inj_countable'
    (λ k, (d_source k, d_destination k, d_proto k, d_source_port k, d_destination_port k))
    (λ '(a, b, c, d, e), mkDropKey a b c d e) _).
  by intros [].
Defined.

Record TrafficKey := mkTrafficKey {
  t_peer : option str;
  t_direction : Dir.Direction;
  t_proto : Z;
  t_port : Z;
  t_allowed : bool
}.
#[export] Instance TrafficKey_eq_dec : EqDecision TrafficKey.
Proof. solve_decision. Defined.
#[export] Instance TrafficKey_countable : Countable TrafficKey.
Proof.
  refine (inj_countable' (λ k, (t_peer k, t_direction k, t_proto k, t_port k, t_allowed k))
    (λ '(a, b, c, d, e), mkTrafficKey a b c d e) _).
  by intros [].
Defined.

Record FragmentState := mkFragmentState {
  fr_allow : bool;
  fr_counter : option TrafficKey;
  fr_expires : Z
}.

Record Counter := mkCounter { c_bytes : Z; c_packets : Z }.

Record TrafficSample := mkTrafficSample {
  ts_peer_id : option str;
  ts_direction : Dir.Direction;
  ts_proto : str;
  ts_port : Z;
  ts_decision : str;
  ts_bytes : Z;
  ts_packets : Z
}.

Record TrafficReport := mkTrafficReport { samples : list TrafficSample; report_overflow : Z }.

Definition proto_label (proto : Z) : str :=
  if proto =? TCP then lit "tcp"
  else if proto =? UDP then lit "udp"
  else if (proto =? ICMP) || (proto =? ICMPV6) then lit "icmp"
  else lit "other".

Definition port_class (port : Z) : Z := Z.min port DYNAMIC_PORTS.

(** The filter.  [epoch] is an instant in nanoseconds. *)
Record Filter := mkFilter {
  f_policy : Policy;
  f_states : gmap FlowKey State;
  f_order : list (FlowKey * Z);
  f_generation : Z;
  f_fragments : gmap FragmentKey FragmentState;
  f_traffic : option (gmap TrafficKey Counter);
  f_overflow : Z;
  f_last_purge : Z;
  f_epoch : Z;
  f_epoch_unix : Z;
  f_events : option Buffer;
  f_drops : gmap DropKey FlowEvent;
  f_drop_overflow : Z;
  f_next_flow : Z;
  f_instance : Z;
  f_bucket_started : Z;
  f_events_since : Z
}.

(** Assignments to groups of fields. *)
Definition set_tracking (f : Filter) states order gen :=
  mkFilter (f_policy f) states order gen (f_fragments f) (f_traffic f) (f_overflow f) (f_last_purge f)
    (f_epoch f) (f_epoch_unix f) (f_events f) (f_drops f) (f_drop_overflow f) (f_next_flow f)
    (f_instance f) (f_bucket_started f) (f_events_since f).
Definition set_states (f : Filter) states := set_tracking f states (f_order f) (f_generation f).
Definition set_order (f : Filter) order := set_tracking f (f_states f) order (f_generation f).
Definition set_fragments (f : Filter) fragments :=
  mkFilter (f_policy f) (f_states f) (f_order f) (f_generation f) fragments (f_traffic f) (f_overflow f)
    (f_last_purge f) (f_epoch f) (f_epoch_unix f) (f_events f) (f_drops f) (f_drop_overflow f)
    (f_next_flow f) (f_instance f) (f_bucket_started f) (f_events_since f).
Definition set_pol (f : Filter) policy :=
  mkFilter policy (f_states f) (f_order f) (f_generation f) (f_fragments f) (f_traffic f) (f_overflow f)
    (f_last_purge f) (f_epoch f) (f_epoch_unix f) (f_events f) (f_drops f) (f_drop_overflow f)
    (f_next_flow f) (f_instance f) (f_bucket_started f) (f_events_since f).
Definition set_last_purge (f : Filter) now :=
  mkFilter (f_policy f) (f_states f) (f_order f) (f_generation f) (f_fragments f) (f_traffic f)
    (f_overflow f) now (f_epoch f) (f_epoch_unix f) (f_events f) (f_drops f) (f_drop_overflow f)
    (f_next_flow f) (f_instance f) (f_bucket_started f) (f_events_since f).
Definition set_counts (f : Filter) traffic overflow :=
  mkFilter (f_policy f) (f_states f) (f_order f) (f_generation f) (f_fragments f) traffic overflow
    (f_last_purge f) (f_epoch f) (f_epoch_unix f) (f_events f) (f_drops f) (f_drop_overflow f)
    (f_next_flow f) (f_instance f) (f_bucket_started f) (f_events_since f).
Definition set_log (f : Filter) events drops drop_overflow next_flow :=
  mkFilter (f_policy f) (f_states f) (f_order f) (f_generation f) (f_fragments f) (f_traffic f)
    (f_overflow f) (f_last_purge f) (f_epoch f) (f_epoch_unix f) events drops drop_overflow
    next_flow (f_instance f) (f_bucket_started f) (f_events_since f).
Definition set_events (f : Filter) events :=
  set_log f events (f_drops f) (f_drop_overflow f) (f_next_flow f).
Definition set_windows (f : Filter) bucket since :=
  mkFilter (f_policy f) (f_states f) (f_order f) (f_generation f) (f_fragments f) (f_traffic f)
    (f_overflow f) (f_last_purge f) (f_epoch f) (f_epoch_unix f) (f_events f) (f_drops f)
    (f_drop_overflow f) (f_next_flow f) (f_instance f) bucket since.

Definition set_flow (s : State) fl :=
  mkState (initiator s) (st_peer s) (service_port s) (replied s) (expires s) (generation s) fl.

Definition initial_timeout (proto : Z) : Z :=
  if proto =? TCP then TCP_NEW_SECS
  else if proto =? UDP then UDP_NEW_SECS
  else if (proto =? ICMP) || (proto =? ICMPV6) then ICMP_SECS
  else OTHER_SECS.

Definition inbound_key (packet : Packet) : option FlowKey :=
  match p_l4 packet with
  | Ports s d _ => Some (mkFlowKey (p_proto packet) (p_destination packet) (p_source packet) d s)
  | IcmpMsg kind ident _ =>
      if is_echo (p_proto packet) kind
      then Some (mkFlowKey (p_proto packet) (p_destination packet) (p_source packet) ident 0) else None
  | Other => Some (mkFlowKey (p_proto packet) (p_destination packet) (p_source packet) 0 0)
  end.

Definition outbound_key (packet : Packet) : option FlowKey :=
  match p_l4 packet with
  | Ports s d _ => Some (mkFlowKey (p_proto packet) (p_source packet) (p_destination packet) s d)
  | IcmpMsg kind ident _ =>
      if is_echo (p_proto packet) kind
      then Some (mkFlowKey (p_proto packet) (p_source packet) (p_destination packet) ident 0) else None
  | Other => Some (mkFlowKey (p_proto packet) (p_source packet) (p_destination packet) 0 0)
  end.

Module Filter.
Section filter.
Context `{!HashIter FlowKey} `{!HashIter DropKey} `{!HashIter TrafficKey}.

(** The clock reads and the process id are arguments. *)
Definition new (instant unix_now instance : Z) : Filter :=
  mkFilter Policy.allow_all ∅ [] 0 ∅ None 0 0 instant unix_now None ∅ 0 0 instance 0 0.

Definition unix (f : Filter) (now : Z) : Z := f_epoch_unix f + now.

Definition flow_id (f : Filter) (id : Z) : str :=
  lit "u" ++ hex_pad 8 (f_instance f) ++ lit "-" ++ hex id.

Definition flow_event (f : Filter) (key : FlowKey) (state : State) (kind : Kind) (at_ : Z) :
    option FlowEvent :=
  stats ← flow state;
  let lcl := (k_local key, k_local_port key) in
  let rmt := (k_remote key, k_remote_port key) in
  let '(direction, source, destination) :=
    match initiator state with
    | Dir.Inbound => (FlowEvents.Inbound, rmt, lcl)
    | Dir.Outbound => (FlowEvents.Outbound, lcl, rmt)
    end in
  let e := event (flow_id f (fs_id stats)) kind at_ direction (k_proto key) source destination None in
  let e := set_peer_id e (st_peer state) in
  Some (match kind with
        | End => set_counters e (fs_rx_bytes stats) (fs_tx_bytes stats) (fs_rx_packets stats)
                   (fs_tx_packets stats)
        | _ => e
        end).

Definition emit (f : Filter) (e : option FlowEvent) : Filter :=
  match f_events f, e with
  | Some b, Some e => set_events f (Some (Buffer.push b e))
  | _, _ => f
  end.

Definition ended (f : Filter) (key : FlowKey) (state : State) : Filter :=
  match f_events f with
  | None => f
  | Some _ =>
      let at_ := unix f (match flow state with Some stats => fs_last_seen stats | None => 0 end) in
      emit f (flow_event f key state End at_)
  end.

(** [for (key, state) in ended { self.ended(&key, &state); }] *)
Definition ended_all (f : Filter) (l : list (FlowKey * State)) : Filter :=
  foldl (λ f e, ended f e.1 e.2) f l.

Definition dropped (f : Filter) (packet : Packet) (peer : option str) (hint : str) (now : Z) : Filter :=
  match f_events f with
  | None => f
  | Some _ =>
      let '(source_port, destination_port, icmp) :=
        match p_l4 packet with
        | Ports s d _ => (s, d, None)
        | IcmpMsg kind _ _ => (0, 0, Some kind)
        | Other => (0, 0, None)
        end in
      let key := mkDropKey (p_source packet) (p_destination packet) (p_proto packet) source_port
                   destination_port in
      match f_drops f !! key with
      | Some e =>
          let e := set_counters e (sat_add_u64 (rx_bytes e) (Z.of_nat (p_len packet))) (tx_bytes e)
                     (sat_add_u64 (rx_packets e) 1) (tx_packets e) in
          set_log f (f_events f) (<[key := e]> (f_drops f)) (f_drop_overflow f) (f_next_flow f)
      | None =>
          if (MAX_PENDING_DROPS <=? size (f_drops f))%nat
          then set_log f (f_events f) (f_drops f) (u64_add (f_drop_overflow f) 1) (f_next_flow f)
          else
            let next := u64_add (f_next_flow f) 1 in
            let e := event (flow_id f next) Drop (unix f now) FlowEvents.Inbound (p_proto packet)
                       (p_source packet, source_port) (p_destination packet, destination_port)
                       ((λ kind, (kind, 0)) <$> icmp) in
            let e := set_hint (set_peer_id e peer) (Some hint) in
            let e := set_counters e (Z.of_nat (p_len packet)) (tx_bytes e) 1 (tx_packets e) in
            set_log f (f_events f) (<[key := e]> (f_drops f)) (f_drop_overflow f) next
      end
  end.

Definition take_events (f : Filter) : Filter * list FlowEvent :=
  match f_events f with
  | None => (f, [])
  | Some b =>
      let b := foldl Buffer.push b (snd <$> hash_iter (f_drops f)) in
      let '(b, es) := Buffer.take_events b (Some MAX_BATCH) in
      (set_log f (Some b) ∅ (f_drop_overflow f) (f_next_flow f), es)
  end.

Definition restore_events (f : Filter) (es : list FlowEvent) : Filter :=
  match f_events f with
  | None => f
  | Some b =>
      let '(b, rest) := Buffer.take_events b None in
      set_events f (Some (foldl Buffer.push b (es ++ rest)))
  end.

Definition pending_events (f : Filter) : nat :=
  (match f_events f with Some b => length (events b) | None => 0 end + size (f_drops f))%nat.

(** [states.retain(keep)], with the flows that leave, in iteration order. *)
Definition retained (keep : FlowKey → State → bool) (m : gmap FlowKey State) : gmap FlowKey State :=
  filter (λ e : FlowKey * State, keep e.1 e.2 = true) m.
Definition leaving (keep : FlowKey → State → bool) (m : gmap FlowKey State) : list (FlowKey * State) :=
  List.filter (λ e, negb (keep e.1 e.2) && bool_decide (is_Some (flow e.2))) (hash_iter m).

Definition policy_keeps (p : Policy) (key : FlowKey) (state : State) : bool :=
  bool_decide (initiator state = Dir.Outbound)
  || (Policy.decide p (k_remote key) (k_proto key) (service_port state)).1.

Definition set_policy (f : Filter) (policy : Policy) : Filter :=
  let f := set_pol f policy in
  let gone := leaving (policy_keeps policy) (f_states f) in
  let f := set_states f (retained (policy_keeps policy) (f_states f)) in
  let f := ended_all f gone in
  set_fragments f ∅.

(** [unix_now] is the clock read when counting starts. *)
Definition set_traffic (f : Filter) (enabled : bool) (unix_now : Z) : Filter :=
  if negb enabled then
    let f := set_counts f None 0 in
    let f := set_log f None ∅ 0 (f_next_flow f) in
    set_states f ((λ s, set_flow s None) <$> f_states f)
  else match f_traffic f with
       | Some _ => f
       | None =>
           let f := set_counts f (Some ∅) (f_overflow f) in
           let f := set_events f (Some Buffer.default) in
           set_windows f unix_now unix_now
       end.

Definition to_sample (e : TrafficKey * Counter) : TrafficSample :=
  let '(key, counter) := e in
  mkTrafficSample (t_peer key) (t_direction key) (proto_label (t_proto key)) (t_port key)
    (if t_allowed key then lit "allowed" else lit "denied") (c_bytes counter) (c_packets counter).

Definition sample_le (a b : TrafficSample) : bool :=
  match then_cmp (opt_str_compare (ts_peer_id a) (ts_peer_id b))
          (then_cmp (str_compare (ts_proto a) (ts_proto b))
            (then_cmp (ts_port a ?= ts_port b) (str_compare (ts_decision a) (ts_decision b)))) with
  | Gt => false
  | _ => true
  end.

Definition traffic_report (f : Filter) : TrafficReport :=
  let all := match f_traffic f with Some m => map to_sample (hash_iter m) | None => [] end in
  mkTrafficReport (sort_by sample_le all) (f_overflow f).

Definition take_traffic (f : Filter) : Filter * TrafficReport :=
  (set_counts f ((λ _, ∅) <$> f_traffic f) 0, traffic_report f).

Definition count (f : Filter) (key : TrafficKey) (n : nat) : Filter :=
  match f_traffic f with
  | None => f
  | Some m =>
      if negb (bool_decide (is_Some (m !! key))) && (MAX_TRAFFIC_KEYS <=? size m)%nat
      then set_counts f (f_traffic f) (u64_add (f_overflow f) 1)
      else
        let c := default (mkCounter 0 0) (m !! key) in
        set_counts f (Some (<[key := mkCounter (sat_add_u64 (c_bytes c) (Z.of_nat n))
                                       (sat_add_u64 (c_packets c) 1)]> m)) (f_overflow f)
  end.

Definition count_unattributed (f : Filter) (data : bytes) : Filter :=
  count f (mkTrafficKey None Dir.Inbound 0 0 false) (length data).

(** [order.retain]: entries whose state is still the one they were queued for. *)
Definition order_current (states : gmap FlowKey State) (e : FlowKey * Z) : bool :=
  match states !! e.1 with Some s => generation s =? e.2 | None => false end.

Definition purge (f : Filter) (now : Z) : Filter :=
  let f := set_last_purge f now in
  let keep := λ (_ : FlowKey) (s : State), now <? expires s in
  let gone := leaving keep (f_states f) in
  let f := set_states f (retained keep (f_states f)) in
  let f := ended_all f gone in
  let f := set_fragments f (filter (λ e : FragmentKey * FragmentState, now < fr_expires e.2) (f_fragments f)) in
  if (size (f_states f) * 2 + 64 <? length (f_order f))%nat
  then set_order f (List.filter (order_current (f_states f)) (f_order f)) else f.

Definition maybe_purge (f : Filter) (now : Z) : Filter :=
  if u64_add (f_last_purge f) PURGE_EVERY_SECS <=? now then purge f now else f.

(** The [while] loop of [insert], over the remaining queue. *)
Fixpoint evict (order : list (FlowKey * Z)) (f : Filter) : Filter :=
  if (MAX_STATES <=? size (f_states f))%nat then
    match order with
    | [] => set_order f []
    | (oldest, gen) :: order =>
        evict order
          match f_states f !! oldest with
          | Some s => if generation s =? gen
                      then ended (set_states f (delete oldest (f_states f))) oldest s else f
          | None => f
          end
    end
  else set_order f order.

Definition insert (f : Filter) (key : FlowKey) (state : State) (now : Z) : Filter :=
  let f := if (MAX_STATES <=? size (f_states f))%nat && (f_last_purge f <? now) then purge f now else f in
  let f := evict (f_order f) f in
  let gen := u64_add (f_generation f) 1 in
  let state := mkState (initiator state) (st_peer state) (service_port state) (replied state)
                 (expires state) gen (flow state) in
  let '(f, state) :=
    match f_events f with
    | Some _ =>
        let next := u64_add (f_next_flow f) 1 in
        let f := set_log f (f_events f) (f_drops f) (f_drop_overflow f) next in
        let state := set_flow state (Some (mkFlowStats next now 0 0 0 0)) in
        (emit f (flow_event f key state Start (unix f now)), state)
    | None => (f, state)
    end in
  let f := set_tracking f (<[key := state]> (f_states f)) (f_order f ++ [(key, gen)]) gen in
  if (MAX_STATES * 2 <? length (f_order f))%nat
  then set_order f (List.filter (order_current (f_states f)) (f_order f)) else f.

(** The lifetime a packet gives the flow it belongs to. *)
Definition lifetime (packet : Packet) (replied : bool) : Z :=
  let flag mask := match p_l4 packet with
                   | Ports _ _ flags => negb (Z.land flags mask =? 0)
                   | _ => false
                   end in
  if p_proto packet =? TCP then
    if flag 4 then TCP_RST_SECS
    else if flag 1 then TCP_FIN_SECS
    else if replied then TCP_ESTABLISHED_SECS else TCP_NEW_SECS
  else if p_proto packet =? UDP then (if replied then UDP_REPLIED_SECS else UDP_NEW_SECS)
  else if (p_proto packet =? ICMP) || (p_proto packet =? ICMPV6) then ICMP_SECS
  else OTHER_SECS.

Definition touch_stats (via : Dir.Direction) (now : Z) (packet : Packet) (s : FlowStats) : FlowStats :=
  let n := Z.of_nat (p_len packet) in
  match via with
  | Dir.Inbound => mkFlowStats (fs_id s) now (sat_add_u64 (fs_rx_bytes s) n) (fs_tx_bytes s)
                     (sat_add_u64 (fs_rx_packets s) 1) (fs_tx_packets s)
  | Dir.Outbound => mkFlowStats (fs_id s) now (fs_rx_bytes s) (sat_add_u64 (fs_tx_bytes s) n)
                      (fs_rx_packets s) (sat_add_u64 (fs_tx_packets s) 1)
  end.

Definition touched (s : State) (packet : Packet) (via : Dir.Direction) (now : Z) : State :=
  let rep := if bool_decide (via ≠ initiator s) then true else replied s in
  mkState (initiator s) (st_peer s) (service_port s) rep (u64_add now (lifetime packet rep))
    (generation s) (touch_stats via now packet <$> flow s).

(** The traffic key of a packet on a tracked flow. *)
Definition state_counter (s : State) (packet : Packet) : TrafficKey :=
  mkTrafficKey (st_peer s) (initiator s) (p_proto packet) (port_class (service_port s)) true.

Definition touch (f : Filter) (key : FlowKey) (packet : Packet) (via : Dir.Direction) (now : Z) :
    Filter * bool :=
  match f_states f !! key with
  | None => (f, false)
  | Some s =>
      if expires s <=? now
      then (ended (set_states f (delete key (f_states f))) key s, false)
      else
        let f := set_states f (<[key := touched s packet via now]> (f_states f)) in
        (count f (state_counter s packet) (p_len packet), true)
  end.

Definition related (f : Filter) (data : bytes) (body : nat) (now : Z) : option State :=
  rest ← get_range body (length data) data;
  inner ← result_ok (parse_embedded rest);
  key ← outbound_key inner;
  s ← f_states f !! key;
  if now <? expires s then Some s else None.

(** [fragments.get(&key).filter(|entry| entry.expires > now)] *)
Definition live_fragment (f : Filter) (key : FragmentKey) (now : Z) : option FragmentState :=
  e ← f_fragments f !! key;
  if now <? fr_expires e then Some e else None.

Definition count_opt (f : Filter) (key : option TrafficKey) (n : nat) : Filter :=
  match key with Some key => count f key n | None => f end.

Definition later_fragment (f : Filter) (key : FragmentKey) (n : nat) (now : Z) (source : IpAddr) :
    Filter * bool :=
  match live_fragment f key now with
  | Some e => (count_opt f (fr_counter e) n, fr_allow e)
  | None =>
      (count f (mkTrafficKey (Policy.peer_for (f_policy f) source) Dir.Inbound (fk_proto key) 0 false) n,
       false)
  end.

Definition remember_fragment (f : Filter) (packet : Packet) (allow : bool) (counter : option TrafficKey)
    (now : Z) : Filter :=
  match p_fragment packet with
  | First key =>
      let f := if (MAX_FRAGMENTS <=? size (f_fragments f))%nat
               then set_fragments f
                      (filter (λ e : FragmentKey * FragmentState, now < fr_expires e.2) (f_fragments f))
               else f in
      if (MAX_FRAGMENTS <=? size (f_fragments f))%nat then f
      else set_fragments f
             (<[key := mkFragmentState allow counter (u64_add now FRAGMENT_SECS)]> (f_fragments f))
  | _ => f
  end.

Definition dest_port (packet : Packet) : Z :=
  match p_l4 packet with Ports _ d _ => d | _ => 0 end.

Definition fresh_state (who : Dir.Direction) (peer : option str) (packet : Packet) (now : Z) : State :=
  mkState who peer (dest_port packet) false (u64_add now (initial_timeout (p_proto packet))) 0 None.

(** The part of [inbound] after the flow table and ICMP errors: the policy. *)
Definition inbound_new (f : Filter) (packet : Packet) (key : option FlowKey) (now : Z) : Filter * bool :=
  let port := dest_port packet in
  let '(allow, peer, hint) := Policy.decide_with_hint (f_policy f) (p_source packet) (p_proto packet) port in
  let f := if negb allow then dropped f packet peer (Policy.hint_text hint) now else f in
  let f := match key with
           | Some key =>
               if allow
               then (touch (insert f key (fresh_state Dir.Inbound peer packet now) now)
                       key packet Dir.Inbound now).1
               else f
           | None => f
           end in
  let counter := mkTrafficKey peer Dir.Inbound (p_proto packet) (port_class port) allow in
  let f := if negb (bool_decide (is_Some key)) || negb allow then count f counter (p_len packet) else f in
  (remember_fragment f packet allow (Some counter) now, allow).

Definition related_error (f : Filter) (data : bytes) (packet : Packet) (now : Z) : option State :=
  match p_l4 packet with
  | IcmpMsg kind _ body =>
      if is_error (p_proto packet) kind then related f (take (p_len packet) data) body now else None
  | _ => None
  end.

Definition inbound (f : Filter) (data : bytes) (now : Z) : Filter * bool :=
  let f := maybe_purge f now in
  match parse data with
  | None => (count_unattributed f data, false)
  | Some packet =>
      match p_fragment packet with
      | Later key => later_fragment f key (p_len packet) now (p_source packet)
      | _ =>
          let key := inbound_key packet in
          let '(f, hit) := match key with
                           | Some key => touch f key packet Dir.Inbound now
                           | None => (f, false)
                           end in
          if hit then (f, true)
          else match related_error f data packet now with
               | Some s =>
                   let counter := state_counter s packet in
                   (remember_fragment (count f counter (p_len packet)) packet true (Some counter) now, true)
               | None => inbound_new f packet key now
               end
      end
  end.

Definition outbound (f : Filter) (data : bytes) (now : Z) : Filter :=
  let f := maybe_purge f now in
  match parse data with
  | None => f
  | Some packet =>
      match p_fragment packet with
      | Later key => count_opt f (live_fragment f key now ≫= fr_counter) (p_len packet)
      | _ =>
          match outbound_key packet with
          | None =>
              let counter := mkTrafficKey (Policy.peer_for (f_policy f) (p_destination packet))
                               Dir.Outbound (p_proto packet) 0 true in
              remember_fragment (count f counter (p_len packet)) packet true (Some counter) now
          | Some key =>
              let '(f, hit) := touch f key packet Dir.Outbound now in
              let f := if hit then f
                       else
                         let peer := Policy.peer_for (f_policy f) (p_destination packet) in
                         (touch (insert f key (fresh_state Dir.Outbound peer packet now) now)
                            key packet Dir.Outbound now).1 in
              let counter := (λ s, state_counter s packet) <$> f_states f !! key in
              remember_fragment f packet true counter now
          end
      end
  end.

(** [self.epoch.elapsed().as_secs()] at [instant]. *)
Definition now (f : Filter) (instant : Z) : Z := duration_since instant (f_epoch f) / secs 1.
Definition inbound_now (f : Filter) (data : bytes) (instant : Z) := inbound f data (now f instant).
Definition outbound_now (f : Filter) (data : bytes) (instant : Z) := outbound f data (now f instant).

End filter.
End Filter.

Definition flow_counts (r : TrafficReport) : list FlowCount :=
  map (λ s, mkFlowCount (ts_peer_id s)
              (match ts_direction s with Dir.Inbound => lit "inbound" | Dir.Outbound => lit "outbound" end)
              (ts_proto s) (ts_port s) (seq_b (ts_decision s) "allowed") (ts_bytes s) (ts_packets s))
    (samples r).
