(* ===== verification/FilterProps.v ===== *)
(** * Properties of the packet filter

    Bounds, the admission invariant, replies, fragments, and independence of the
    verdict from traffic diagnostics, for every sequence of filter operations. *)

From S2P Require Import Prelude Text Net FlowReport FlowEvents Policy Packet Filter.

Lemma max_states_pos : (0 < MAX_STATES)%nat.
Proof. apply Nat.ltb_lt. by vm_compute. Qed.

#[local] Opaque MAX_STATES MAX_FRAGMENTS MAX_TRAFFIC_KEYS MAX_PENDING_DROPS MAX_BUFFERED.

(** ** Sequences of operations *)

Inductive op :=
| SetPolicy (p : Policy)
| SetTraffic (enabled : bool) (unix_now : Z)
| In (data : bytes) (now : Z)
| Out (data : bytes) (now : Z)
| TakeEvents
| RestoreEvents (es : list FlowEvent)
| TakeTraffic.

Section props.
Context `{!HashIter FlowKey} `{!HashIter DropKey} `{!HashIter TrafficKey}.

Definition apply_op (o : op) (f : Filter) : Filter :=
  match o with
  | SetPolicy p => Filter.set_policy f p
  | SetTraffic e u => Filter.set_traffic f e u
  | In data now => (Filter.inbound f data now).1
  | Out data now => Filter.outbound f data now
  | TakeEvents => (Filter.take_events f).1
  | RestoreEvents es => Filter.restore_events f es
  | TakeTraffic => (Filter.take_traffic f).1
  end.

Definition sent_by (o : op) : list bytes := match o with Out data _ => [data] | _ => [] end.

(** [reachable sent f]: a filter that was created, then driven by operations
    among which exactly the packets of [sent] left the device. *)
Inductive reachable : list bytes → Filter → Prop :=
| reach_new i u n : reachable [] (Filter.new i u n)
| reach_step sent f o : reachable sent f → reachable (sent_by o ++ sent) (apply_op o f).

(** ** What diagnostics cannot touch *)

Definition core (f : Filter) :=
  (f_policy f, f_states f, f_order f, f_generation f, f_fragments f, f_last_purge f).

Lemma core_emit f e : core (Filter.emit f e) = core f.
Proof. unfold Filter.emit. by repeat case_match. Qed.

Lemma core_ended f k s : core (Filter.ended f k s) = core f.
Proof. unfold Filter.ended. case_match; [apply core_emit|done]. Qed.

Lemma core_ended_all f l : core (Filter.ended_all f l) = core f.
Proof.
  unfold Filter.ended_all. revert f; induction l as [|[k s] l IH]; intros f; simpl; [done|].
  rw IH. apply core_ended.
Qed.

Lemma core_count f k n : core (Filter.count f k n) = core f.
Proof. unfold Filter.count. by repeat case_match. Qed.

Lemma core_count_opt f k n : core (Filter.count_opt f k n) = core f.
Proof. destruct k; [apply core_count|done]. Qed.

Lemma core_dropped f p peer h now : core (Filter.dropped f p peer h now) = core f.
Proof. unfold Filter.dropped. by repeat case_match. Qed.

Lemma core_inv f g :
  core f = core g →
  f_policy f = f_policy g ∧ f_states f = f_states g ∧ f_order f = f_order g ∧
  f_generation f = f_generation g ∧ f_fragments f = f_fragments g ∧ f_last_purge f = f_last_purge g.
Proof. unfold core. intros [=]. done. Qed.

(** The exact effect of [purge] on the tables. *)
Lemma purge_core f now :
  let states := Filter.retained (λ _ s, now <? expires s) (f_states f) in
  core (Filter.purge f now) =
  (f_policy f, states,
   if (size states * 2 + 64 <? length (f_order f))%nat
   then List.filter (Filter.order_current states) (f_order f) else f_order f,
   f_generation f,
   filter (λ e : FragmentKey * FragmentState, now < fr_expires e.2) (f_fragments f), now).
Proof.
  intros states. unfold Filter.purge. cbv zeta.
  set (g := Filter.ended_all _ _).
  assert (core g = (f_policy f, states, f_order f, f_generation f, f_fragments f, now)) as Hg
    by apply core_ended_all.
  injection Hg as Hp Hs Ho Hgen Hfr Hl. cbn [f_states f_order f_fragments set_fragments]. rw Hs Ho Hfr.
  case_match; unfold core; simpl; by rw Hp Hs ?Ho Hgen Hl.
Qed.

(** ** Table bounds *)

Definition queued (order : list (FlowKey * Z)) (states : gmap FlowKey State) : Prop :=
  ∀ k s, states !! k = Some s → (k, generation s) ∈ order.

Lemma retained_lookup keep (m : gmap FlowKey State) k s :
  Filter.retained keep m !! k = Some s ↔ m !! k = Some s ∧ keep k s = true.
Proof. unfold Filter.retained. by rw map_lookup_filter_Some. Qed.

Lemma retained_sub keep (m : gmap FlowKey State) : Filter.retained keep m ⊆ m.
Proof. apply map_filter_subseteq. Qed.

Lemma queued_sub order (m m' : gmap FlowKey State) : m' ⊆ m → queued order m → queued order m'.
Proof. intros Hs Hq k s Hk. apply Hq. by eapply lookup_weaken. Qed.

Lemma queued_current order states :
  queued order states → queued (List.filter (Filter.order_current states) order) states.
Proof.
  intros Hq k s Hk. apply list_elem_of_In, filter_In.
  split; [by apply list_elem_of_In, Hq|]. unfold Filter.order_current. simpl. rw Hk. apply Z.eqb_refl.
Qed.

Lemma purge_spec f now :
  let g := Filter.purge f now in
  f_states g = Filter.retained (λ _ s, now <? expires s) (f_states f) ∧
  (queued (f_order f) (f_states f) → queued (f_order g) (f_states g)) ∧
  f_policy g = f_policy f ∧ f_generation g = f_generation f ∧
  f_fragments g = filter (λ e : FragmentKey * FragmentState, now < fr_expires e.2) (f_fragments f).
Proof.
  pose proof (purge_core f now) as Hc. cbv zeta in Hc. cbv zeta.
  set (g := Filter.purge f now) in *. clearbody g. injection Hc as Hp Hs Ho Hg Hf Hl.
  split_and!; [done| |done..].
  intros Hq. rw Hs Ho. assert (queued (f_order f) (Filter.retained (λ _ s, now <? expires s) (f_states f))).
  { eapply queued_sub; [apply retained_sub|done]. }
  case_match; [by apply queued_current|done].
Qed.

Lemma maybe_purge_cases f now : Filter.maybe_purge f now = f ∨ Filter.maybe_purge f now = Filter.purge f now.
Proof. unfold Filter.maybe_purge. case_match; eauto. Qed.

(** Eviction ends below the bound because every state is queued. *)
Lemma evict_spec order f :
  queued order (f_states f) →
  let g := Filter.evict order f in
  f_states g ⊆ f_states f ∧ queued (f_order g) (f_states g) ∧ (size (f_states g) < MAX_STATES)%nat ∧
  f_policy g = f_policy f ∧ f_generation g = f_generation f ∧ f_fragments g = f_fragments f.
Proof.
  revert f; induction order as [|[k gen] order IH]; intros f Hq; simpl;
    (case_match; to_prop; [|simpl; split_and!; [done|done|lia|done..]]).
  - exfalso. assert (f_states f = ∅) as He.
    { apply map_empty. intros k. destruct (f_states f !! k) as [s|] eqn:Hk; [|done].
      by apply Hq, elem_of_nil in Hk. }
    rw He map_size_empty in H. pose proof max_states_pos. lia.
  - set (f' := match f_states f !! k with Some _ => _ | None => _ end).
    assert (f_states f' ⊆ f_states f ∧ queued order (f_states f') ∧ f_policy f' = f_policy f
            ∧ f_generation f' = f_generation f ∧ f_fragments f' = f_fragments f)
      as (Hsub & Hq' & Hp & Hg & Hf).
    { unfold f'. destruct (f_states f !! k) as [s|] eqn:Hk.
      - destruct (Z.eqb_spec (generation s) gen) as [Heq|Hne].
        + pose proof (core_ended (set_states f (delete k (f_states f))) k s) as Hc.
          apply core_inv in Hc as (Hp & Hs & _ & Hg & Hf & _). rw Hp Hs Hg Hf. simpl.
          split_and!; [apply delete_subseteq| |done..].
          intros k' s' [Hne Hk']%lookup_delete_Some. apply Hq in Hk'.
          apply elem_of_cons in Hk' as [[= -> _]|]; done.
        + split_and!; [done| |done..]. intros k' s' Hk'. pose proof (Hq _ _ Hk') as Hin.
          apply elem_of_cons in Hin as [[= -> Hg]|]; [|done]. congruence.
      - split_and!; [done| |done..]. intros k' s' Hk'. pose proof (Hq _ _ Hk') as Hin.
        apply elem_of_cons in Hin as [[= -> Hg]|]; [|done]. congruence. }
    destruct (IH f' Hq') as (H1 & H2 & H3 & H4 & H5 & H6).
    split_and!; [by etrans|done..|congruence|congruence|congruence].
Qed.

(** ** How an operation may change the tables *)

(** No new flow, no change of who started one or of its service port; the
    policy stays, the queue still covers the table, nothing outgrows its bound. *)
Record evolves (f g : Filter) : Prop := {
  ev_policy : f_policy g = f_policy f;
  ev_states : ∀ k s', f_states g !! k = Some s' → ∃ s, f_states f !! k = Some s ∧
                initiator s' = initiator s ∧ service_port s' = service_port s;
  ev_queued : queued (f_order f) (f_states f) → queued (f_order g) (f_states g);
  ev_size : (size (f_states g) ≤ size (f_states f))%nat;
  ev_fragments : (size (f_fragments f) ≤ MAX_FRAGMENTS → size (f_fragments g) ≤ MAX_FRAGMENTS)%nat
}.

#[export] Instance evolves_refl : Reflexive evolves.
Proof. intros f. constructor; eauto. Qed.

#[export] Instance evolves_trans : Transitive evolves.
Proof.
  intros f g h [p1 s1 q1 z1 fr1] [p2 s2 q2 z2 fr2]. constructor; [congruence| |auto|lia|auto].
  intros k s' (s'' & Hs'' & ? & ?)%s2. apply s1 in Hs'' as (s & ? & ? & ?). exists s.
  split_and!; congruence.
Qed.

Lemma evolves_core f g : core g = core f → evolves f g.
Proof.
  intros (Hp & Hs & Ho & _ & Hf & _)%core_inv. constructor; rw ?Hp ?Hs ?Ho ?Hf; eauto.
Qed.

Lemma evolves_purge f now : evolves f (Filter.purge f now).
Proof.
  destruct (purge_spec f now) as (Hs & Hq & Hp & _ & Hf). constructor; [done| |done| |].
  - intros k s'. rw Hs retained_lookup. intros [? _]. eauto.
  - rw Hs. apply map_subseteq_size, retained_sub.
  - rw Hf. intros Hsz. etrans; [|done]. apply map_subseteq_size, map_filter_subseteq.
Qed.

Lemma evolves_maybe_purge f now : evolves f (Filter.maybe_purge f now).
Proof. destruct (maybe_purge_cases f now) as [-> | ->]; [done|apply evolves_purge]. Qed.

Lemma evolves_count f k n : evolves f (Filter.count f k n).
Proof. apply evolves_core, core_count. Qed.

Lemma touch_core f key p via now :
  core (Filter.touch f key p via now).1 =
  (f_policy f,
   match f_states f !! key with
   | None => f_states f
   | Some s => if expires s <=? now then delete key (f_states f)
               else <[key := Filter.touched s p via now]> (f_states f)
   end, f_order f, f_generation f, f_fragments f, f_last_purge f).
Proof.
  unfold Filter.touch. destruct (f_states f !! key) as [s|]; [|done].
  case_match; cbn [fst]; [rw core_ended|rw core_count]; done.
Qed.

Lemma evolves_touch f key p via now : evolves f (Filter.touch f key p via now).1.
Proof.
  pose proof (touch_core f key p via now) as Hc. set (g := (Filter.touch f key p via now).1) in *.
  clearbody g. injection Hc as Hp Hs Ho _ Hf _.
  destruct (f_states f !! key) as [s|] eqn:Hk; [case_match|].
  - constructor; rw ?Hp ?Hs ?Ho ?Hf //.
    + intros k s' [_ ?]%lookup_delete_Some. eauto.
    + apply queued_sub, delete_subseteq.
    + apply map_subseteq_size, delete_subseteq.
  - constructor; rw ?Hp ?Hs ?Ho ?Hf //.
    + intros k s' [[<- <-]|[_ ?]]%lookup_insert_Some; eauto.
    + intros Hq k s' [[<- <-]|[_ ?]]%lookup_insert_Some; [by apply (Hq key s)|by apply Hq].
    + by rw map_size_insert Hk.
  - constructor; rw ?Hp ?Hs ?Ho ?Hf //. eauto.
Qed.

Lemma evolves_fragments f m :
  (size (f_fragments f) ≤ MAX_FRAGMENTS → size m ≤ MAX_FRAGMENTS)%nat → evolves f (set_fragments f m).
Proof. intros H. constructor; eauto. Qed.

Lemma evolves_remember f p allow c now : evolves f (Filter.remember_fragment f p allow c now).
Proof.
  unfold Filter.remember_fragment. destruct (p_fragment p) as [|key|key]; [done| |done].
  set (g := if (_ <=? _)%nat then _ else f).
  assert (evolves f g) as Hg.
  { unfold g. case_match; [|done]. apply evolves_fragments. intros ?.
    etrans; [|done]. apply map_subseteq_size, map_filter_subseteq. }
  etrans; [exact Hg|]. clearbody g. case_match; to_prop; [done|]. apply evolves_fragments. intros _.
  rw map_size_insert. case_match; simpl; lia.
Qed.

(** [insert] drops expired or oldest flows, then adds one. *)
Record inserts (key : FlowKey) (st : State) (f g : Filter) : Prop := {
  ins_policy : f_policy g = f_policy f;
  ins_states : ∃ base s', base ⊆ f_states f ∧ (size base < MAX_STATES)%nat ∧
    f_states g = <[key := s']> base ∧ initiator s' = initiator st ∧ st_peer s' = st_peer st ∧
    service_port s' = service_port st ∧ replied s' = replied st ∧ expires s' = expires st;
  ins_queued : queued (f_order g) (f_states g);
  ins_fragments : (size (f_fragments f) ≤ MAX_FRAGMENTS → size (f_fragments g) ≤ MAX_FRAGMENTS)%nat
}.

Lemma insert_spec f key st now :
  queued (f_order f) (f_states f) → inserts key st f (Filter.insert f key st now).
Proof.
  intros Hq. unfold Filter.insert. cbv zeta.
  set (f1 := if _ && _ then Filter.purge f now else f).
  assert (evolves f f1 ∧ f_states f1 ⊆ f_states f) as [Hev1 Hsub1].
  { unfold f1. case_match; [|done]. split; [apply evolves_purge|].
    destruct (purge_spec f now) as (-> & _). apply retained_sub. }
  clearbody f1. destruct (evict_spec (f_order f1) f1) as (Hsub & Hq2 & Hsz & Hp & Hg & Hf).
  { by apply Hev1. }
  set (f2 := Filter.evict _ _) in *. clearbody f2.
  set (gen := u64_add (f_generation f2) 1).
  set (st1 := mkState _ _ _ _ _ gen (flow st)).
  set (fs := match f_events f2 with Some _ => _ | None => _ end).
  assert (core fs.1 = core f2 ∧ initiator fs.2 = initiator st ∧ st_peer fs.2 = st_peer st ∧
    service_port fs.2 = service_port st ∧ replied fs.2 = replied st ∧ expires fs.2 = expires st
    ∧ generation fs.2 = gen) as (Hc & Hi & Hpe & Hsp & Hr & He & Hgen).
  { unfold fs. case_match; [|done]. cbn [fst snd]. rw core_emit. done. }
  destruct fs as [f3 st2]. cbn [fst snd] in *.
  apply core_inv in Hc as (Hp3 & Hs3 & Ho3 & _ & Hf3 & _).
  set (h := set_tracking _ _ _ _).
  assert (queued (f_order h) (f_states h)) as Hqh.
  { intros k s. simpl. rw Hs3 Ho3. intros [[<- <-]|[Hne Hk]]%lookup_insert_Some; apply elem_of_app.
    - right. rw Hgen. by apply list_elem_of_singleton.
    - left. by apply Hq2. }
  assert (∀ order, (order = f_order h ∨ order = List.filter (Filter.order_current (f_states h)) (f_order h)) →
    inserts key st f (set_order h order)) as Hfin.
  { intros order Ho. constructor.
    - simpl. rw Hp3 Hp. apply Hev1.
    - exists (f_states f2), st2. simpl. rw Hs3. split_and!; [by etrans|done..].
    - destruct Ho as [-> | ->]; [done|]. by apply queued_current.
    - simpl. rw Hf3 Hf. apply Hev1. }
  case_match; [apply Hfin; by right|]. specialize (Hfin (f_order h) (or_introl eq_refl)).
  by destruct h.
Qed.

(** A packet leaves the tables as [evolves] says, or adds one flow for its key. *)
Definition adds (key : FlowKey) (who : Dir.Direction) (port : Z) (f g : Filter) : Prop :=
  f_policy g = f_policy f ∧
  (∀ k s', f_states g !! k = Some s' →
     (k = key ∧ initiator s' = who ∧ service_port s' = port) ∨
     ∃ s, f_states f !! k = Some s ∧ initiator s' = initiator s ∧ service_port s' = service_port s) ∧
  queued (f_order g) (f_states g) ∧ (size (f_states g) ≤ MAX_STATES)%nat ∧
  (size (f_fragments f) ≤ MAX_FRAGMENTS → size (f_fragments g) ≤ MAX_FRAGMENTS)%nat.

Lemma adds_insert f key st now :
  queued (f_order f) (f_states f) →
  adds key (initiator st) (service_port st) f (Filter.insert f key st now).
Proof.
  intros Hq. destruct (insert_spec f key st now Hq) as [Hp (base & s' & Hb & Hsz & Hs & Hi & _ & Hsp & _) Hqd Hf].
  split_and!; [done| |done| |done].
  - intros k s''. rw Hs. intros [[<- <-]|[_ Hk]]%lookup_insert_Some; [by left|right].
    eexists. split; [by eapply lookup_weaken|done].
  - rw Hs map_size_insert. case_match; simpl; lia.
Qed.

Lemma adds_then key who port f g h : adds key who port f g → evolves g h → adds key who port f h.
Proof.
  intros (Hp & Hs & Hq & Hsz & Hf) [p2 s2 q2 z2 f2]. split_and!; [congruence| |auto|lia|auto].
  intros k s' (s & Hk & -> & ->)%s2. by apply Hs.
Qed.

Lemma evolves_then_adds key who port f g h : evolves f g → adds key who port g h → adds key who port f h.
Proof.
  intros [p1 s1 q1 z1 f1] (Hp & Hs & Hq & Hsz & Hf). split_and!; [congruence| |done|done|auto].
  intros k s' [?|(s & Hk & -> & ->)]%Hs; [by left|right]. by apply s1.
Qed.

Definition allowed (pol : Policy) (source : IpAddr) (proto port : Z) : bool :=
  (Policy.decide pol source proto port).1.

Definition not_later (p : Packet) : Prop := is_later (p_fragment p) = false.

Lemma not_later_match {A} p (x : FragmentKey → A) (y : A) :
  not_later p → match p_fragment p with Later key => x key | _ => y end = y.
Proof. unfold not_later. by destruct (p_fragment p). Qed.

Lemma inbound_new_spec f p key now :
  queued (f_order f) (f_states f) →
  let r := Filter.inbound_new f p key now in
  r.2 = allowed (f_policy f) (p_source p) (p_proto p) (Filter.dest_port p) ∧
  (evolves f r.1 ∨ ∃ k, key = Some k ∧ r.2 = true ∧ adds k Dir.Inbound (Filter.dest_port p) f r.1).
Proof.
  intros Hq. unfold Filter.inbound_new, allowed, Policy.decide.
  destruct (Policy.decide_with_hint _ _ _ _) as [[allow peer] hint]. cbn [fst snd].
  split; [done|]. destruct allow; simpl.
  - destruct key as [k|]; simpl.
    + right. exists k. split_and!; [done..|]. eapply adds_then; [|apply evolves_remember].
      eapply adds_then; [|apply evolves_touch].
      apply (adds_insert f k (Filter.fresh_state Dir.Inbound peer p now) now Hq).
    + left. etrans; [apply evolves_count|apply evolves_remember].
  - left. etrans; [|apply evolves_remember]. rw orb_true_r. etrans; [|apply evolves_count].
    destruct key; apply evolves_core, core_dropped.
Qed.

Lemma touch_hit f key p via now :
  (Filter.touch f key p via now).2 = true ↔ ∃ s, f_states f !! key = Some s ∧ now < expires s.
Proof.
  unfold Filter.touch. destruct (f_states f !! key) as [s|]; simpl.
  - case_match; to_prop; simpl; (split; [intros ?|intros (s' & [= <-] & ?)]); try done; try lia; eauto.
  - split; [done|]. by intros (? & ? & _).
Qed.

Lemma inbound_spec f data now :
  queued (f_order f) (f_states f) →
  let g := (Filter.inbound f data now).1 in
  evolves f g ∨
  ∃ p key, parse data = Some p ∧ not_later p ∧ inbound_key p = Some key ∧
    allowed (f_policy f) (p_source p) (p_proto p) (Filter.dest_port p) = true ∧
    adds key Dir.Inbound (Filter.dest_port p) f g.
Proof.
  intros Hq. unfold Filter.inbound. cbv zeta.
  pose proof (evolves_maybe_purge f now) as Hev. set (f0 := Filter.maybe_purge f now) in *. clearbody f0.
  destruct (parse data) as [p|] eqn:Hp; [|left; etrans; [exact Hev|apply evolves_count]].
  destruct (is_later (p_fragment p)) eqn:Hl.
  { left. destruct (p_fragment p) as [| |key]; [done..|]. etrans; [exact Hev|].
    unfold Filter.later_fragment. case_match; [apply evolves_core, core_count_opt|apply evolves_count]. }
  rw (not_later_match p _ _ Hl).
  set (t := match inbound_key p with Some key => _ | None => (f0, false) end).
  assert (evolves f t.1) as Ht.
  { etrans; [exact Hev|]. unfold t. case_match; [apply evolves_touch|done]. }
  destruct t as [f1 hit]. cbn [fst] in Ht. destruct hit; [by left|].
  destruct (Filter.related_error f1 data p now).
  { left. etrans; [exact Ht|]. etrans; [|apply evolves_remember]. apply evolves_count. }
  destruct (inbound_new_spec f1 p (inbound_key p) now) as [Hv [Hn|(k & Hk & Hr & Hn)]].
  { by apply Ht. }
  - left. by etrans.
  - right. exists p, k. rw Hr in Hv. rw -(ev_policy f f1 Ht). split_and!; [done..|].
    by eapply evolves_then_adds.
Qed.

Lemma outbound_spec f data now :
  queued (f_order f) (f_states f) →
  let g := Filter.outbound f data now in
  evolves f g ∨
  ∃ p key, parse data = Some p ∧ not_later p ∧ outbound_key p = Some key ∧
    adds key Dir.Outbound (Filter.dest_port p) f g.
Proof.
  intros Hq. unfold Filter.outbound. cbv zeta.
  pose proof (evolves_maybe_purge f now) as Hev. set (f0 := Filter.maybe_purge f now) in *. clearbody f0.
  destruct (parse data) as [p|] eqn:Hp; [|by left].
  destruct (is_later (p_fragment p)) eqn:Hl.
  { left. destruct (p_fragment p) as [| |key]; [done..|]. etrans; [exact Hev|].
    apply evolves_core, core_count_opt. }
  rw (not_later_match p _ _ Hl).
  destruct (outbound_key p) as [key|] eqn:Hk.
  - pose proof (evolves_touch f0 key p Dir.Outbound now) as Ht.
    destruct (Filter.touch f0 key p Dir.Outbound now) as [f1 hit]. cbn [fst] in Ht.
    assert (evolves f f1) as H1 by by etrans. destruct hit.
    + left. etrans; [exact H1|apply evolves_remember].
    + right. exists p, key. split_and!; [done..|]. eapply adds_then; [|apply evolves_remember].
      eapply evolves_then_adds; [exact H1|]. eapply adds_then; [|apply evolves_touch].
      apply (adds_insert f1 key (Filter.fresh_state Dir.Outbound _ p now) now). by apply H1.
  - left. etrans; [exact Hev|]. etrans; [|apply evolves_remember]. apply evolves_count.
Qed.

(** ** Diagnostics: on and bounded, or off and empty *)

Definition no_flows (m : gmap FlowKey State) : Prop := map_Forall (λ _ s, flow s = None) m.

Definition diag (f : Filter) : Prop :=
  match f_traffic f, f_events f with
  | Some m, Some b => (size m ≤ MAX_TRAFFIC_KEYS)%nat ∧ (length (events b) ≤ MAX_BUFFERED)%nat ∧
                      (size (f_drops f) ≤ MAX_PENDING_DROPS)%nat
  | None, None => f_drops f = ∅ ∧ f_overflow f = 0 ∧ f_drop_overflow f = 0 ∧ no_flows (f_states f)
  | _, _ => False
  end.

Lemma diag_states f m o g :
  diag f → (no_flows (f_states f) → no_flows m) → diag (set_tracking f m o g).
Proof. unfold diag. simpl. intros Hd Hm. repeat case_match; naive_solver. Qed.

Lemma diag_sub f m o g : diag f → m ⊆ f_states f → diag (set_tracking f m o g).
Proof. intros Hd Hs. apply diag_states; [done|]. intros Hn k s Hk. apply (Hn k). by eapply lookup_weaken. Qed.

Lemma diag_on f m o g : is_Some (f_events f) → diag f → diag (set_tracking f m o g).
Proof. unfold diag. simpl. intros [b ->]. by destruct (f_traffic f). Qed.

Lemma no_flows_insert m k s : no_flows m → flow s = None → no_flows (<[k := s]> m).
Proof. intros. by apply map_Forall_insert_2. Qed.

Lemma diag_emit f e : diag f → diag (Filter.emit f e).
Proof.
  unfold Filter.emit, diag. intros Hd. repeat case_match; simplify_eq/=; try done.
  destruct Hd as (? & ? & ?). split_and!; [done| |done]. by apply push_bounded.
Qed.

Lemma diag_ended f k s : diag f → diag (Filter.ended f k s).
Proof. unfold Filter.ended. case_match; [apply diag_emit|done]. Qed.

Lemma diag_ended_all f l : diag f → diag (Filter.ended_all f l).
Proof.
  unfold Filter.ended_all. revert f; induction l as [|e l IH]; intros f Hd; simpl; [done|].
  by apply IH, diag_ended.
Qed.

Lemma diag_count f k n : diag f → diag (Filter.count f k n).
Proof.
  unfold Filter.count, diag. intros Hd. destruct (f_traffic f) as [m|] eqn:Hm; [|by rw Hm].
  destruct (f_events f) eqn:He; [|done]. destruct (negb _ && _) eqn:Hb; simpl; [by rw He|].
  rw He. destruct Hd as (? & ? & ?). split_and!; [|done..].
  rw map_size_insert. apply andb_false_iff in Hb as [Hb|Hb]; to_prop.
  - destruct Hb as [c ->]. done.
  - case_match; simpl; lia.
Qed.

Lemma diag_count_opt f k n : diag f → diag (Filter.count_opt f k n).
Proof. destruct k; [apply diag_count|done]. Qed.

Lemma diag_dropped f p peer h now : diag f → diag (Filter.dropped f p peer h now).
Proof.
  unfold Filter.dropped. destruct (f_events f) as [b|] eqn:He; [|done].
  destruct (match p_l4 p with Ports _ _ _ => _ | _ => _ end) as [[sp dp] icmp]. intros Hd.
  assert (∀ drops n next, (size drops ≤ MAX_PENDING_DROPS)%nat → diag (set_log f (Some b) drops n next)) as Hset.
  { revert Hd. unfold diag. rw He /=. case_match; [|done]. by intros (? & ? & _). }
  assert (size (f_drops f) ≤ MAX_PENDING_DROPS)%nat.
  { revert Hd. unfold diag. rw He. case_match; [|done]. by intros (_ & _ & ?). }
  destruct (f_drops f !! _) as [e|] eqn:Hk.
  - apply Hset. by rw map_size_insert_Some.
  - destruct (Nat.leb_spec MAX_PENDING_DROPS (size (f_drops f))); apply Hset; [done|].
    rw map_size_insert. case_match; simpl; lia.
Qed.

Lemma diag_fragments f m : diag f → diag (set_fragments f m).
Proof. done. Qed.

Lemma diag_purge f now : diag f → diag (Filter.purge f now).
Proof.
  intros Hd. unfold Filter.purge. cbv zeta. set (g := Filter.ended_all _ _).
  assert (diag g) as Hg. { apply diag_ended_all, diag_sub; [done|]. apply retained_sub. }
  clearbody g. case_match; [|by apply diag_fragments]. by apply diag_sub.
Qed.

Lemma diag_maybe_purge f now : diag f → diag (Filter.maybe_purge f now).
Proof. destruct (maybe_purge_cases f now) as [-> | ->]; [done|apply diag_purge]. Qed.

Lemma diag_evict order f : diag f → diag (Filter.evict order f).
Proof.
  revert f; induction order as [|[k gen] order IH]; intros f Hd; simpl; case_match; try by apply diag_sub.
  apply IH. repeat case_match; try done. apply diag_ended, diag_sub; [done|]. apply delete_subseteq.
Qed.

Lemma diag_insert f key st now : diag f → flow st = None → diag (Filter.insert f key st now).
Proof.
  intros Hd Hst. unfold Filter.insert. cbv zeta.
  set (f1 := if _ && _ then Filter.purge f now else f).
  assert (diag f1) as H1 by (unfold f1; case_match; [by apply diag_purge|done]). clearbody f1.
  apply (diag_evict (f_order f1)) in H1. set (f2 := Filter.evict _ _) in *. clearbody f2.
  destruct (f_events f2) as [b|] eqn:He.
  - set (g := set_tracking _ _ _ _). assert (diag g) as Hg.
    { apply diag_on; [unfold Filter.emit; simpl; by case_match|]. apply diag_emit.
      revert H1. unfold diag. rw He /=. by destruct (f_traffic f2). }
    case_match; [|done]. by apply diag_sub.
  - set (g := set_tracking _ _ _ _). assert (diag g) as Hg.
    { apply diag_states; [done|]. intros Hn. by apply no_flows_insert. }
    case_match; [|done]. by apply diag_sub.
Qed.

Lemma diag_touch f key p via now : diag f → diag (Filter.touch f key p via now).1.
Proof.
  intros Hd. unfold Filter.touch. destruct (f_states f !! key) as [s|] eqn:Hk; [|done].
  destruct (expires s <=? now); simpl.
  - apply diag_ended, diag_sub; [done|]. apply delete_subseteq.
  - apply diag_count, diag_states; [done|]. intros Hn. apply no_flows_insert; [done|].
    simpl. by rw (Hn key s Hk).
Qed.

Lemma diag_remember f p a c now : diag f → diag (Filter.remember_fragment f p a c now).
Proof.
  intros Hd. unfold Filter.remember_fragment. destruct (p_fragment p); [done| |done].
  cbv zeta. destruct (_ <=? _)%nat; destruct (_ <=? _)%nat; done.
Qed.

Lemma diag_inbound_new f p key now : diag f → diag (Filter.inbound_new f p key now).1.
Proof.
  intros Hd. unfold Filter.inbound_new.
  destruct (Policy.decide_with_hint _ _ _ _) as [[allow peer] hint]. cbn [fst].
  apply diag_remember. set (f1 := if negb allow then _ else f).
  assert (diag f1) as H1 by (unfold f1; destruct (negb allow); [by apply diag_dropped|done]).
  clearbody f1. set (f2 := match key with Some _ => _ | None => _ end).
  assert (diag f2) as H2.
  { unfold f2. destruct key, allow; try done. by apply diag_touch, diag_insert. }
  destruct (_ || _); [by apply diag_count|done].
Qed.

Lemma diag_inbound f data now : diag f → diag (Filter.inbound f data now).1.
Proof.
  intros Hd%(λ H, diag_maybe_purge f now H). unfold Filter.inbound. cbv zeta.
  set (f0 := Filter.maybe_purge f now) in *. clearbody f0.
  destruct (parse data) as [p|]; [|by apply diag_count].
  assert (∀ f, diag f → diag (match inbound_key p with
    | Some key => Filter.touch f key p Dir.Inbound now | None => (f, false) end).1) as Ht.
  { intros f' Hf. destruct (inbound_key p); [by apply diag_touch|done]. }
  specialize (Ht f0 Hd). destruct (match inbound_key p with Some _ => _ | None => _ end) as [f1 hit].
  cbn [fst] in Ht.
  assert (diag (if hit then (f1, true) else match Filter.related_error f1 data p now with
    | Some s => (Filter.remember_fragment (Filter.count f1 (Filter.state_counter s p) (p_len p)) p true
                  (Some (Filter.state_counter s p)) now, true)
    | None => Filter.inbound_new f1 p (inbound_key p) now end).1) as Hrest.
  { destruct hit; [done|]. destruct (Filter.related_error _ _ _ _).
    - by apply diag_remember, diag_count.
    - by apply diag_inbound_new. }
  destruct (p_fragment p); [done..|]. unfold Filter.later_fragment.
  destruct (Filter.live_fragment _ _ _); [by apply diag_count_opt|by apply diag_count].
Qed.

Lemma diag_outbound f data now : diag f → diag (Filter.outbound f data now).
Proof.
  intros Hd%(λ H, diag_maybe_purge f now H). unfold Filter.outbound. cbv zeta.
  set (f0 := Filter.maybe_purge f now) in *. clearbody f0.
  destruct (parse data) as [p|]; [|done].
  assert (∀ key, diag (let '(f, hit) := Filter.touch f0 key p Dir.Outbound now in
    if hit then f else (Filter.touch (Filter.insert f key (Filter.fresh_state Dir.Outbound
      (Policy.peer_for (f_policy f) (p_destination p)) p now) now) key p Dir.Outbound now).1)) as Ht.
  { intros key. pose proof (diag_touch f0 key p Dir.Outbound now Hd) as H1.
    destruct (Filter.touch f0 key p Dir.Outbound now) as [f1 hit]. cbn [fst] in H1.
    destruct hit; [done|]. by apply diag_touch, diag_insert. }
  destruct (p_fragment p) as [|k|k]; [| |by apply diag_count_opt];
    (destruct (outbound_key p) as [key|]; [|by apply diag_remember, diag_count];
     specialize (Ht key); destruct (Filter.touch f0 key p Dir.Outbound now) as [f1 hit];
     by apply diag_remember).
Qed.

Lemma pushes_bounded b es :
  (length (events b) ≤ MAX_BUFFERED)%nat → (length (events (foldl Buffer.push b es)) ≤ MAX_BUFFERED)%nat.
Proof. revert b; induction es as [|e es IH]; intros b Hb; simpl; [done|]. by apply IH, push_bounded. Qed.

Lemma diag_apply o f : diag f → diag (apply_op o f).
Proof.
  intros Hd. destruct o as [pol|en u|data now|data now| |es|]; simpl.
  - unfold Filter.set_policy. apply diag_fragments, diag_ended_all, diag_sub; [done|]. apply retained_sub.
  - unfold Filter.set_traffic. destruct en; simpl.
    + destruct (f_traffic f) eqn:Ht; [done|]. unfold diag in *. rw Ht in Hd. simpl.
      destruct (f_events f); [done|]. destruct Hd as (-> & _). rw !map_size_empty. simpl. lia.
    + unfold diag. simpl. split_and!; [done..|]. intros k s. rw lookup_fmap_Some. by intros (? & <- & _).
  - by apply diag_inbound.
  - by apply diag_outbound.
  - unfold Filter.take_events. destruct (f_events f) as [b|] eqn:He; [|done].
    unfold diag in *. rw He in Hd. simpl. destruct (f_traffic f); [|done]. destruct Hd as (? & ? & ?).
    split_and!; [done| |rw map_size_empty; lia]. rw length_drop.
    pose proof (pushes_bounded b (snd <$> hash_iter (f_drops f))). lia.
  - unfold Filter.restore_events. destruct (f_events f) as [b|] eqn:He; [|done].
    unfold diag in *. rw He in Hd. simpl. destruct (f_traffic f); [|done]. destruct Hd as (? & ? & ?).
    split_and!; [done| |done]. apply pushes_bounded. simpl. rw length_drop. lia.
  - unfold Filter.take_traffic, diag in *. simpl. destruct (f_traffic f), (f_events f); simpl; try done.
    + rw map_size_empty. destruct Hd as (? & ? & ?). split_and!; [lia|done..].
    + by destruct Hd as (? & ? & ? & ?).
Qed.

Lemma reachable_diag sent f : reachable sent f → diag f.
Proof. induction 1; [done|]. by apply diag_apply. Qed.

(** ** The tables stay bounded *)

Definition tables (f : Filter) : Prop :=
  queued (f_order f) (f_states f) ∧ (size (f_states f) ≤ MAX_STATES)%nat ∧
  (size (f_fragments f) ≤ MAX_FRAGMENTS)%nat.

Lemma tables_evolves f g : evolves f g → tables f → tables g.
Proof. intros [_ _ Hq Hz Hf] (? & ? & ?). split_and!; [auto|lia|auto]. Qed.

Lemma tables_adds k who port f g : adds k who port f g → tables f → tables g.
Proof. intros (_ & _ & ? & ? & Hf) (_ & _ & ?). split_and!; [done..|auto]. Qed.

Lemma set_policy_core f pol :
  core (Filter.set_policy f pol) =
  (pol, Filter.retained (Filter.policy_keeps pol) (f_states f), f_order f, f_generation f, ∅, f_last_purge f).
Proof.
  unfold Filter.set_policy. cbv zeta.
  pose proof (core_ended_all (set_states (set_pol f pol) (Filter.retained (Filter.policy_keeps pol) (f_states f)))
    (Filter.leaving (Filter.policy_keeps pol) (f_states f))) as Hc. simpl.
  set (g := Filter.ended_all _ _) in *. clearbody g. injection Hc as Hp Hs Ho Hg Hf Hl.
  unfold core. simpl. by rw Hp Hs Ho Hg Hl.
Qed.

(** Operations on the logs leave the tables alone; turning diagnostics off
    only drops per-flow statistics. *)
Lemma evolves_log o f :
  match o with SetPolicy _ | In _ _ | Out _ _ => False | _ => True end → evolves f (apply_op o f).
Proof.
  destruct o as [|en u| | | |es|]; simpl; try done; intros _.
  - unfold Filter.set_traffic. destruct en; simpl; [destruct (f_traffic f); by apply evolves_core|].
    constructor; simpl; [done| | |by rw map_size_fmap|done].
    + intros k s'. rw lookup_fmap_Some. intros (s & <- & ?). eauto.
    + intros Hq k s'. rw lookup_fmap_Some. intros (s & <- & Hk). by apply (Hq k s).
  - unfold Filter.take_events. destruct (f_events f); by apply evolves_core.
  - unfold Filter.restore_events. destruct (f_events f); by apply evolves_core.
  - by apply evolves_core.
Qed.

Lemma tables_apply o f : tables f → tables (apply_op o f).
Proof.
  intros Ht. pose proof Ht as (Hq & Hs & Hf). destruct o as [pol|en u|data now|data now| |es|];
    try by eapply tables_evolves; [apply evolves_log|].
  - simpl. pose proof (set_policy_core f pol) as Hc. set (g := Filter.set_policy f pol) in *. clearbody g.
    injection Hc as _ Hs' Ho _ Hf' _. unfold tables. rw Hs' Ho Hf'. split_and!.
    + eapply queued_sub; [apply retained_sub|done].
    + etrans; [apply map_subseteq_size, retained_sub|done].
    + rw map_size_empty. lia.
  - destruct (inbound_spec f data now Hq) as [He|(p & k & _ & _ & _ & _ & Ha)];
      [by eapply tables_evolves|by eapply tables_adds].
  - destruct (outbound_spec f data now Hq) as [He|(p & k & _ & _ & _ & Ha)];
      [by eapply tables_evolves|by eapply tables_adds].
Qed.

Lemma reachable_tables sent f : reachable sent f → tables f.
Proof.
  induction 1; [|by apply tables_apply]. split_and!; [|rw map_size_empty; lia..].
  intros k s. by rw lookup_empty.
Qed.

(** ** Every flow is solicited or admitted *)

(** The port the policy was asked about when the flow was admitted. *)
Definition key_service (k : FlowKey) : Z :=
  if (k_proto k =? TCP) || (k_proto k =? UDP) then k_local_port k else 0.

Definition admitted (pol : Policy) (k : FlowKey) : Prop :=
  allowed pol (k_remote k) (k_proto k) (key_service k) = true.

(** The device sent a packet of this flow. *)
Definition flow_sent (sent : list bytes) (k : FlowKey) : Prop :=
  ∃ d p, d ∈ sent ∧ parse d = Some p ∧ not_later p ∧ outbound_key p = Some k.

Definition accounted (sent : list bytes) (pol : Policy) (k : FlowKey) (s : State) : Prop :=
  match initiator s with
  | Dir.Outbound => flow_sent sent k
  | Dir.Inbound => service_port s = key_service k ∧ admitted pol k
  end.

Definition all_accounted (sent : list bytes) (f : Filter) : Prop :=
  ∀ k s, f_states f !! k = Some s → accounted sent (f_policy f) k s.

Lemma parse_l4_kind data src proto off fr e l4 :
  is_later fr = false → parse_l4 data src proto off fr e = Ok l4 →
  match l4 with Ports _ _ _ => true | _ => false end = ((proto =? TCP) || (proto =? UDP)).
Proof.
  unfold parse_l4, icmp_header. intros ->.
  destruct (proto =? TCP); [|destruct (proto =? UDP)]; simpl; intros H;
    repeat match type of H with
    | result_bind ?r _ = _ => destruct r; simpl in H; [|done]
    | (if ?b then _ else _) = _ => destruct b; try done
    end; by simplify_eq.
Qed.

Lemma parse_kind data p :
  parse data = Some p → not_later p →
  match p_l4 p with Ports _ _ _ => true | _ => false end = ((p_proto p =? TCP) || (p_proto p =? UDP)).
Proof.
  unfold parse, parse_packet, not_later. intros H Hl.
  destruct (get_byte data 0) as [b0|]; simpl in H; [|done].
  destruct (if _ =? 4 then _ else _) as [h|]; simpl in H; [|done].
  destruct (if is_ipv6 _ then _ else _) as [[[proto offset] fr]|]; simpl in H; [|done].
  destruct (parse_l4 _ _ _ _ _ _) eqn:Hl4; simpl in H; [|done].
  injection H as <-. simpl in *. by eapply parse_l4_kind.
Qed.

Lemma inbound_key_service data p k :
  parse data = Some p → not_later p → inbound_key p = Some k →
  Filter.dest_port p = key_service k ∧ k_remote k = p_source p ∧ k_proto k = p_proto p.
Proof.
  intros Hp Hl Hk. pose proof (parse_kind data p Hp Hl) as Hkind.
  unfold inbound_key, Filter.dest_port, key_service in *.
  destruct (p_l4 p) as [s d fl|kind ident body|]; simplify_eq/=.
  - by rw -Hkind.
  - destruct (is_echo _ _); simplify_eq/=. by rw -Hkind.
  - by rw -Hkind.
Qed.

Lemma flow_sent_mono sent sent' k : flow_sent sent k → flow_sent (sent' ++ sent) k.
Proof. intros (d & p & Hd & Hp). exists d, p. split; [by apply elem_of_app; right|done]. Qed.

Lemma accounted_mono sent sent' pol k s : accounted sent pol k s → accounted (sent' ++ sent) pol k s.
Proof. unfold accounted. case_match; [done|apply flow_sent_mono]. Qed.

Lemma accounted_evolves sent f g : evolves f g → all_accounted sent f → all_accounted sent g.
Proof.
  intros [Hp Hs _ _ _] Ha k s' (s & Hk & Hi & Hsp)%Hs. apply Ha in Hk.
  unfold accounted in *. by rw Hi Hsp Hp.
Qed.

Lemma accounted_adds sent k who port f g :
  adds k who port f g → all_accounted sent f →
  (∀ s, initiator s = who → service_port s = port → accounted sent (f_policy f) k s) →
  all_accounted sent g.
Proof.
  intros (Hp & Hs & _) Ha Hnew k' s' Hk'. rw Hp.
  apply Hs in Hk' as [(-> & ? & ?)|(s & Hk & Hi & Hsp)]; [by apply Hnew|].
  apply Ha in Hk. unfold accounted in *. by rw Hi Hsp.
Qed.

Lemma accounted_apply sent o f :
  tables f → all_accounted sent f → all_accounted (sent_by o ++ sent) (apply_op o f).
Proof.
  intros (Hq & _) Ha.
  assert (all_accounted (sent_by o ++ sent) f) as Ha' by (intros k s Hk; by apply accounted_mono, Ha).
  destruct o as [pol|en u|data now|data now| |es|];
    try by eapply accounted_evolves; [apply evolves_log|].
  - simpl. pose proof (set_policy_core f pol) as Hc. set (g := Filter.set_policy f pol) in *. clearbody g.
    injection Hc as Hp Hs _ _ _ _. intros k s. rw Hs Hp retained_lookup. intros [Hk Hkeep].
    apply Ha in Hk. unfold accounted, Filter.policy_keeps, admitted, allowed in *.
    destruct (initiator s); [|done]. destruct Hk as [Hsp _]. split; [done|]. by rw -Hsp.
  - destruct (inbound_spec f data now Hq) as [He|(p & k & Hp & Hl & Hk & Hal & Hadd)];
      [by eapply accounted_evolves|].
    eapply accounted_adds; [exact Hadd|done|]. intros s Hi Hsp. unfold accounted. rw Hi.
    destruct (inbound_key_service data p k Hp Hl Hk) as (Hd & Hr & Hpr).
    split; [congruence|]. unfold admitted. congruence.
  - destruct (outbound_spec f data now Hq) as [He|(p & k & Hp & Hl & Hk & Hadd)];
      [by eapply accounted_evolves|].
    eapply accounted_adds; [exact Hadd|done|]. intros s Hi Hsp. unfold accounted. rw Hi.
    exists data, p. split; [|done]. constructor.
Qed.

Lemma reachable_accounted sent f : reachable sent f → all_accounted sent f.
Proof.
  induction 1 as [|sent f o Hr IH]; [intros k s; by rw lookup_empty|].
  apply accounted_apply; [by eapply reachable_tables|done].
Qed.

Lemma related_inv f data body now s :
  Filter.related f data body now = Some s →
  ∃ inner k, parse_embedded (drop body data) = Ok inner ∧ outbound_key inner = Some k ∧
             f_states f !! k = Some s ∧ now < expires s.
Proof.
  unfold Filter.related, get_range. case_match eqn:Hb; simpl; [|done]. to_prop.
  unfold slice. rw take_ge; [|rw length_drop; lia].
  destruct (parse_embedded (drop body data)) as [inner|] eqn:Hi; simpl; [|done].
  destruct (outbound_key inner) as [k|] eqn:Hk; simpl; [|done].
  destruct (f_states f !! k) as [s'|] eqn:Hs; simpl; [|done].
  case_match; to_prop; [|done]. intros [= <-]. eauto 10.
Qed.

(** The ICMP error [p] quotes a packet of the flow [k] this device sent. *)
Definition quotes (data : bytes) (p : Packet) (k : FlowKey) : Prop :=
  ∃ kind ident body inner, p_l4 p = IcmpMsg kind ident body ∧ is_error (p_proto p) kind = true ∧
    parse_embedded (drop body (take (p_len p) data)) = Ok inner ∧ outbound_key inner = Some k.

Lemma accounted_inbound sent f data p k s :
  all_accounted sent f → parse data = Some p → not_later p → inbound_key p = Some k →
  f_states f !! k = Some s →
  allowed (f_policy f) (p_source p) (p_proto p) (Filter.dest_port p) = true ∨ flow_sent sent k.
Proof.
  intros Ha Hp Hl Hk Hs. apply Ha in Hs. unfold accounted in Hs. destruct (initiator s); [|by right].
  left. destruct Hs as [_ Had]. destruct (inbound_key_service data p k Hp Hl Hk) as (-> & <- & <-). done.
Qed.

Lemma accounted_key sent f k s :
  all_accounted sent f → f_states f !! k = Some s → flow_sent sent k ∨ admitted (f_policy f) k.
Proof.
  intros Ha Hs. apply Ha in Hs. unfold accounted in Hs. destruct (initiator s); [|by left].
  right. by destruct Hs.
Qed.

(** [C1] Nothing unsolicited gets in.  Whatever happened before, an inbound packet
    that is not a later fragment is passed only if the policy in force now
    admits it, or the device itself has sent a packet of the same flow, or it is
    an ICMP error quoting a packet of a flow that the device started or the
    policy in force now admits.  With a deny-all policy only replies pass, and a
    policy change ends the inbound flows it no longer allows. *)
Theorem inbound_solicited_or_admitted sent f data now p
    (Hr : reachable sent f) (Hp : parse data = Some p) (Hl : not_later p)
    (Hin : (Filter.inbound f data now).2 = true) :
  allowed (f_policy f) (p_source p) (p_proto p) (Filter.dest_port p) = true ∨
  (∃ k, inbound_key p = Some k ∧ flow_sent sent k) ∨
  (∃ k, quotes data p k ∧ (flow_sent sent k ∨ admitted (f_policy f) k)).
Proof.
  pose proof (reachable_accounted sent f Hr) as Ha. pose proof (reachable_tables sent f Hr) as Ht.
  pose proof (evolves_maybe_purge f now) as Hev. revert Hin. unfold Filter.inbound. rw Hp. cbv zeta.
  set (f0 := Filter.maybe_purge f now) in *. clearbody f0. rw -(ev_policy f f0 Hev).
  apply (accounted_evolves sent) in Hev as Ha0; [|done]. apply tables_evolves in Hev as (Hq0 & _); [|done].
  rw (not_later_match p _ _ Hl).
  set (t := match inbound_key p with Some key => _ | None => (f0, false) end).
  assert (evolves f0 t.1 ∧ (t.2 = true → ∃ k s, inbound_key p = Some k ∧ f_states f0 !! k = Some s))
    as [He1 Hhit].
  { unfold t. destruct (inbound_key p) as [k|]; [|done]. split; [apply evolves_touch|].
    intros (s & ? & _)%touch_hit. eauto. }
  destruct t as [f1 hit]. cbn [fst snd] in *. destruct hit.
  { intros _. destruct Hhit as (k & s & Hk & Hs); [done|].
    destruct (accounted_inbound sent f0 data p k s Ha0 Hp Hl Hk Hs); eauto. }
  clear Hhit. rw -(ev_policy f0 f1 He1).
  apply (accounted_evolves sent) in He1 as Ha1; [|done].
  destruct (Filter.related_error f1 data p now) as [s|] eqn:Hrel.
  - intros _. right. right. unfold Filter.related_error in Hrel.
    destruct (p_l4 p) as [|kind ident body|] eqn:Hl4; [done| |done].
    destruct (is_error (p_proto p) kind) eqn:Herr; [|done].
    apply related_inv in Hrel as (inner & k & Hemb & Hk & Hs & _). exists k.
    split; [by exists kind, ident, body, inner|]. by eapply accounted_key.
  - intros Hv. left. destruct (inbound_new_spec f1 p (inbound_key p) now) as [<- _]; [|done].
    by apply (ev_queued f0 f1 He1).
Qed.

(** [C32] Every table of the filter stays within its bound, whatever packets
    arrive: 16384 flows, 256 pending fragments, 1024 traffic keys, 512 pending
    drops and 4096 buffered events. *)
Theorem filter_tables_bounded sent f (Hr : reachable sent f) :
  (size (f_states f) ≤ 16384)%nat ∧ (size (f_fragments f) ≤ 256)%nat ∧
  (∀ m, f_traffic f = Some m → (size m ≤ 1024)%nat) ∧
  (size (f_drops f) ≤ 512)%nat ∧
  (∀ b, f_events f = Some b → (length (events b) ≤ 4096)%nat).
Proof.
  destruct (reachable_tables sent f Hr) as (_ & Hs & Hf). pose proof (reachable_diag sent f Hr) as Hd.
  split; [exact Hs|]. split; [exact Hf|]. unfold diag in Hd.
  destruct (f_traffic f) as [m|], (f_events f) as [b|]; try done.
  - destruct Hd as (? & ? & ?). split_and!; [by intros ? [= <-]|done|by intros ? [= <-]].
  - destruct Hd as (-> & _). rw map_size_empty. split_and!; [done|lia|done].
Qed.

(** With traffic diagnostics off the filter keeps no record of traffic: no
    counters, events or per-flow statistics, an empty report and nothing to
    upload. *)
Theorem diagnostics_off_records_nothing sent f (Hr : reachable sent f)
    (Hoff : f_traffic f = None) :
  Filter.traffic_report f = mkTrafficReport [] 0 ∧ (Filter.take_events f).2 = [] ∧
  Filter.pending_events f = 0%nat ∧ map_Forall (λ _ s, flow s = None) (f_states f).
Proof.
  pose proof (reachable_diag sent f Hr) as Hd. unfold diag in Hd. rw Hoff in Hd.
  unfold Filter.traffic_report, Filter.take_events, Filter.pending_events. rw Hoff.
  destruct (f_events f); [done|]. destruct Hd as (-> & -> & _ & Hn). by rw map_size_empty.
Qed.

(** ** Replies *)

Lemma u64_add_small a b : 0 ≤ a + b ≤ U64_MAX → u64_add a b = a + b.
Proof. intros H. unfold u64_add. apply Z.mod_small. lia. Qed.

Lemma lifetime_bounds p r : 10 ≤ Filter.lifetime p false ≤ Filter.lifetime p r ∧ Filter.lifetime p r ≤ 7200.
Proof.
  unfold Filter.lifetime, TCP_RST_SECS, TCP_FIN_SECS, TCP_NEW_SECS, TCP_ESTABLISHED_SECS, UDP_NEW_SECS,
    UDP_REPLIED_SECS, ICMP_SECS, OTHER_SECS.
  destruct r; repeat case_match; lia.
Qed.

Lemma initial_timeout_bounds proto : 10 ≤ initial_timeout proto ≤ 7200.
Proof.
  unfold initial_timeout, TCP_NEW_SECS, UDP_NEW_SECS, ICMP_SECS, OTHER_SECS. repeat case_match; lia.
Qed.

Lemma remember_states f p a c now : f_states (Filter.remember_fragment f p a c now) = f_states f.
Proof.
  unfold Filter.remember_fragment. destruct (p_fragment p); [done| |done]. cbv zeta.
  destruct (_ <=? _)%nat; destruct (_ <=? _)%nat; done.
Qed.

Lemma touch_refreshes f key p via now s :
  f_states f !! key = Some s → now < expires s →
  f_states (Filter.touch f key p via now).1 !! key = Some (Filter.touched s p via now).
Proof.
  intros Hs He. pose proof (touch_core f key p via now) as Hc. rw Hs in Hc.
  rw (proj2 (Z.leb_gt _ _) He) in Hc. apply (f_equal (λ c, c.1.1.1.1.2 !! key)) in Hc. simpl in Hc.
  by rw lookup_insert_eq in Hc.
Qed.

(** A sent packet leaves a live state behind. *)
Lemma outbound_tracks f data p k now :
  tables f → parse data = Some p → not_later p → outbound_key p = Some k →
  0 ≤ now → now + 7200 ≤ U64_MAX →
  ∃ s, f_states (Filter.outbound f data now) !! k = Some s ∧
       now + Filter.lifetime p false ≤ expires s.
Proof.
  intros Ht Hp Hl Hk Hn Hmax. unfold Filter.outbound. rw Hp Hk. cbv zeta.
  pose proof (tables_evolves _ _ (evolves_maybe_purge f now) Ht) as (Hq & _).
  set (f0 := Filter.maybe_purge f now) in *. clearbody f0.
  rw (not_later_match p _ _ Hl).
  assert (∀ s, now + Filter.lifetime p false ≤ expires (Filter.touched s p Dir.Outbound now)) as Hlife.
  { intros s. simpl. destruct (lifetime_bounds p (if bool_decide (Dir.Outbound ≠ initiator s) then true else replied s)).
    rw u64_add_small; lia. }
  destruct (Filter.touch f0 k p Dir.Outbound now) as [f1 hit] eqn:Htouch.
  destruct hit; rw remember_states.
  - assert ((Filter.touch f0 k p Dir.Outbound now).2 = true) as (s & Hs & He)%touch_hit by by rw Htouch.
    exists (Filter.touched s p Dir.Outbound now). split; [|done].
    pose proof (touch_refreshes f0 k p Dir.Outbound now s Hs He) as Hr. by rw Htouch in Hr.
  - set (st := Filter.fresh_state _ _ p now). pose proof (evolves_touch f0 k p Dir.Outbound now) as Hev.
    rw Htouch /= in Hev. apply ev_queued in Hev; [|done].
    destruct (insert_spec f1 k st now Hev) as [_ (base & s' & _ & _ & Hs & _ & _ & _ & _ & Hexp) _ _].
    eexists. split; [|apply (Hlife s')]. apply touch_refreshes; [rw Hs; apply lookup_insert_eq|].
    rw Hexp. unfold st. simpl. pose proof (initial_timeout_bounds (p_proto p)). rw u64_add_small; lia.
Qed.

Lemma maybe_purge_keeps f k s now :
  f_states f !! k = Some s → now < expires s → f_states (Filter.maybe_purge f now) !! k = Some s.
Proof.
  intros Hs He. destruct (maybe_purge_cases f now) as [-> | ->]; [done|].
  destruct (purge_spec f now) as (-> & _). apply retained_lookup. split; [done|]. by apply Z.ltb_lt.
Qed.

(** Replies come back.  After the device sends a packet, a packet of the
    same flow in the other direction is passed whatever the policy, for as long
    as the flow lives: at least ten seconds after a TCP reset, two minutes for
    other TCP, a minute for UDP, thirty seconds for ICMP echo, ten minutes
    otherwise.  Nothing in the filter's tables can prevent it. *)
Theorem reply_passes sent f data reply p q k now now'
    (Hr : reachable sent f)
    (Hp : parse data = Some p) (Hpl : not_later p) (Hpk : outbound_key p = Some k)
    (Hq : parse reply = Some q) (Hql : not_later q) (Hqk : inbound_key q = Some k)
    (Hnow : 0 ≤ now) (Hmax : now + 7200 ≤ U64_MAX)
    (Hlive : now' < now + Filter.lifetime p false) :
  (Filter.inbound (Filter.outbound f data now) reply now').2 = true.
Proof.
  destruct (outbound_tracks f data p k now) as (s & Hs & He); [by eapply reachable_tables|done..|].
  set (g := Filter.outbound f data now) in *. clearbody g.
  apply (maybe_purge_keeps g k s now') in Hs; [|lia].
  unfold Filter.inbound. rw Hq Hqk. cbv zeta.
  rw (not_later_match q _ _ Hql).
  assert ((Filter.touch (Filter.maybe_purge g now') k q Dir.Inbound now').2 = true) as Hhit.
  { apply touch_hit. exists s. split; [done|lia]. }
  destruct (Filter.touch _ _ _ _ _) as [f1 hit]. simpl in Hhit. by rw Hhit.
Qed.

End props.

(** ** Concrete packets *)

Definition dns_query : bytes :=
  PacketProps.v4_wire 0 1 0 64 UDP 0 167772161 167772162 [] (PacketProps.ports_wire 5000 53 [0; 8; 0; 0]).
(** The answer, in one piece, or as the first of two fragments. *)
Definition dns_answer (flags : Z) : bytes :=
  PacketProps.v4_wire 0 9 flags 64 UDP 0 167772162 167772161 [] (PacketProps.ports_wire 53 5000 [0; 8; 0; 0]).
(** The second fragment, at offset 8. *)
Definition dns_answer_tail : bytes :=
  PacketProps.v4_wire 0 9 1 64 UDP 0 167772162 167772161 [] [1; 2; 3; 4; 5; 6; 7; 8].

Definition dns_flow : FlowKey := mkFlowKey UDP (V4 167772161) (V4 167772162) 5000 53.

Definition closed_filter : Filter := apply_op (SetPolicy Policy.deny_all) (Filter.new 0 0 0).
Definition asked_filter : Filter := apply_op (Out dns_query 1) closed_filter.

Lemma closed_reachable : reachable [] closed_filter.
Proof. exact (reach_step [] _ (SetPolicy Policy.deny_all) (reach_new 0 0 0)). Defined.

Lemma asked_reachable : reachable [dns_query] asked_filter.
Proof. exact (reach_step [] closed_filter (Out dns_query 1) closed_reachable). Defined.

Lemma inbound_solicited_or_admitted_witness :
  ∃ p, parse (dns_answer 0) = Some p ∧
    (allowed (f_policy asked_filter) (p_source p) (p_proto p) (Filter.dest_port p) = true ∨
     (∃ k, inbound_key p = Some k ∧ flow_sent [dns_query] k) ∨
     (∃ k, quotes (dns_answer 0) p k ∧ (flow_sent [dns_query] k ∨ admitted (f_policy asked_filter) k))).
Proof.
  destruct (parse (dns_answer 0)) as [p|] eqn:Hp; [|exfalso; revert Hp; by vm_compute].
  exists p. split; [done|].
  apply (inbound_solicited_or_admitted [dns_query] asked_filter (dns_answer 0) 2 p asked_reachable Hp).
  - revert Hp. vm_compute. by intros [= <-].
  - by vm_compute.
Defined.

Lemma filter_tables_bounded_witness : (size (f_states asked_filter) ≤ 16384)%nat.
Proof. exact (proj1 (filter_tables_bounded [dns_query] asked_filter asked_reachable)). Defined.

Lemma diagnostics_off_records_nothing_witness :
  Filter.traffic_report asked_filter = mkTrafficReport [] 0.
Proof. by apply (diagnostics_off_records_nothing [dns_query] asked_filter asked_reachable). Defined.

Lemma reply_passes_witness :
  (Filter.inbound (Filter.outbound closed_filter dns_query 1) (dns_answer 0) 60).2 = true.
Proof.
  destruct (parse dns_query) as [p|] eqn:Hp; [|exfalso; revert Hp; by vm_compute].
  destruct (parse (dns_answer 0)) as [q|] eqn:Hq; [|exfalso; revert Hq; by vm_compute].
  apply (reply_passes [] closed_filter dns_query (dns_answer 0) p q dns_flow 1 60 closed_reachable Hp).
  - revert Hp. vm_compute. by intros [= <-].
  - revert Hp. vm_compute. by intros [= <-].
  - done.
  - revert Hq. vm_compute. by intros [= <-].
  - revert Hq. vm_compute. by intros [= <-].
  - lia.
  - by vm_compute.
  - revert Hp. vm_compute. by intros [= <-].
Defined.

(** A fragmented reply loses its tail.  [inbound] returns as soon as a packet
    matches a tracked flow, before the first fragment is remembered, so the
    first fragment of an answer to the device's own query passes and the rest of
    the datagram is refused, even when no policy is enforced; the same datagram
    on a new inbound flow passes whole. *)
Theorem fragmented_reply_loses_tail :
  let open := Filter.new 0 0 0 in
  let asked := Filter.outbound open dns_query 1 in
  let tail f := (Filter.inbound (Filter.inbound f (dns_answer 8192) 2).1 dns_answer_tail 2).2 in
  (Filter.inbound asked (dns_answer 8192) 2).2 = true ∧ tail asked = false ∧ tail open = true.
Proof. by vm_compute. Qed.
