(* ===== verification/FilterSim.v ===== *)
(** * Diagnostics never change a verdict

    Filters that differ only in their diagnostics are equivalent; every
    operation respects the equivalence. *)

From S2P Require Import Prelude Text Net FlowReport FlowEvents Policy Packet Filter FilterProps.

#[local] Opaque MAX_STATES MAX_FRAGMENTS MAX_TRAFFIC_KEYS MAX_PENDING_DROPS MAX_BUFFERED.

Definition bare (s : State) : State := set_flow s None.
Definition bare_fragment (e : FragmentState) : bool * Z := (fr_allow e, fr_expires e).

Record sim (f g : Filter) : Prop := {
  sim_policy : f_policy f = f_policy g;
  sim_states : bare <$> f_states f = bare <$> f_states g;
  sim_order : f_order f = f_order g;
  sim_generation : f_generation f = f_generation g;
  sim_fragments : bare_fragment <$> f_fragments f = bare_fragment <$> f_fragments g;
  sim_last_purge : f_last_purge f = f_last_purge g
}.

#[export] Instance sim_equivalence : Equivalence sim.
Proof.
  split.
  - by intros f.
  - intros f g []. by constructor.
  - intros f g h [] []. constructor; congruence.
Qed.

Section sim.
Context `{!HashIter FlowKey} `{!HashIter DropKey} `{!HashIter TrafficKey}.

Lemma sim_core f g : core f = core g → sim f g.
Proof. intros (? & ? & ? & ? & ? & ?)%core_inv. constructor; congruence. Qed.

Lemma sim_to f g h : core g = core f → sim f h → sim g h.
Proof. intros Hc Hs. etrans; [by apply sim_core|done]. Qed.

(** Operations that only log. *)
Lemma sim_log f g f' g' : core f' = core f → core g' = core g → sim f g → sim f' g'.
Proof. intros Hf Hg Hs. etrans; [by apply sim_core|]. etrans; [exact Hs|]. symmetry. by apply sim_core. Qed.

Lemma sim_size f g : sim f g → size (f_states f) = size (f_states g).
Proof. intros [_ Hs _ _ _ _]. by rw -(map_size_fmap bare (f_states f)) Hs map_size_fmap. Qed.

Lemma sim_fragments_size f g : sim f g → size (f_fragments f) = size (f_fragments g).
Proof.
  intros [_ _ _ _ Hs _]. by rw -(map_size_fmap bare_fragment (f_fragments f)) Hs map_size_fmap.
Qed.

Lemma sim_lookup f g k : sim f g → bare <$> f_states f !! k = bare <$> f_states g !! k.
Proof. intros [_ Hs _ _ _ _]. by rw -!lookup_fmap Hs. Qed.

Lemma sim_fragment f g k : sim f g → bare_fragment <$> f_fragments f !! k = bare_fragment <$> f_fragments g !! k.
Proof. intros [_ _ _ _ Hs _]. by rw -!lookup_fmap Hs. Qed.

(** Filtering a table on what diagnostics do not touch. *)
Lemma unexpired_agree now (m n : gmap FragmentKey FragmentState) :
  bare_fragment <$> m = bare_fragment <$> n →
  bare_fragment <$> filter (λ e : FragmentKey * FragmentState, now < fr_expires e.2) m =
  bare_fragment <$> filter (λ e : FragmentKey * FragmentState, now < fr_expires e.2) n.
Proof.
  intros Hmn. apply map_eq. intros k. rw !lookup_fmap !map_lookup_filter.
  assert (bare_fragment <$> m !! k = bare_fragment <$> n !! k) as Hk by by rw -!lookup_fmap Hmn.
  destruct (m !! k) as [x|], (n !! k) as [y|]; simpl in *; try done.
  injection Hk as Ha He. repeat case_guard; simpl in *; try lia; unfold bare_fragment; congruence.
Qed.

Lemma retained_agree keep m n :
  (∀ k s t, bare s = bare t → keep k s = keep k t) → bare <$> m = bare <$> n →
  bare <$> Filter.retained keep m = bare <$> Filter.retained keep n.
Proof.
  intros Hk Hmn. apply map_eq. intros k. unfold Filter.retained. rw !lookup_fmap !map_lookup_filter.
  assert (bare <$> m !! k = bare <$> n !! k) as Hlk by by rw -!lookup_fmap Hmn.
  destruct (m !! k) as [x|], (n !! k) as [y|]; simpl in *; try done.
  assert (bare x = bare y) as Hb by congruence. pose proof (Hk k x y Hb). repeat case_guard; simpl in *; congruence.
Qed.

Lemma bare_expires s t : bare s = bare t → expires s = expires t.
Proof. by intros [=]. Qed.

Lemma order_current_agree f g e :
  bare <$> f = bare <$> g → Filter.order_current f e = Filter.order_current g e.
Proof.
  intros Hs. unfold Filter.order_current.
  assert (bare <$> f !! e.1 = bare <$> g !! e.1) as Hlk by by rw -!lookup_fmap Hs.
  destruct (f !! e.1) as [x|], (g !! e.1) as [y|]; try done. by injection Hlk as _ _ _ _ _ ->.
Qed.

Lemma order_filter_agree f g l :
  bare <$> f = bare <$> g →
  List.filter (Filter.order_current f) l = List.filter (Filter.order_current g) l.
Proof. intros Hs. apply filter_ext. intros e. by apply order_current_agree. Qed.

#[export] Instance purge_sim now : Proper (sim ==> sim) (λ f, Filter.purge f now).
Proof.
  intros f g Hs. pose proof (purge_core f now) as Hf. pose proof (purge_core g now) as Hg. cbv zeta in *.
  set (f' := Filter.purge f now) in *. set (g' := Filter.purge g now) in *. clearbody f' g'.
  injection Hf as Hp Hst Ho Hgen Hfr Hl. injection Hg as Hp' Hst' Ho' Hgen' Hfr' Hl'.
  destruct Hs as [sp ss so sg sf sl].
  assert (bare <$> Filter.retained (λ _ s, now <? expires s) (f_states f) =
          bare <$> Filter.retained (λ _ s, now <? expires s) (f_states g)) as Hret.
  { apply retained_agree; [|done]. by intros k s t ->%bare_expires. }
  constructor; rw ?Hp ?Hp' ?Hst ?Hst' ?Ho ?Ho' ?Hgen ?Hgen' ?Hfr ?Hfr' ?Hl ?Hl' //.
  - rw so (order_filter_agree _ _ _ Hret). 
    assert (∀ m n, bare <$> m = bare <$> n → size (m : gmap FlowKey State) = size (n : gmap FlowKey State)) as Hz.
    { intros m n Hmn. by rw -(map_size_fmap bare m) Hmn map_size_fmap. }
    by rw (Hz _ _ Hret).
  - by apply unexpired_agree.
Qed.

#[export] Instance maybe_purge_sim now : Proper (sim ==> sim) (λ f, Filter.maybe_purge f now).
Proof.
  intros f g Hs. unfold Filter.maybe_purge. rw (sim_last_purge _ _ Hs).
  destruct (_ <=? _); [by apply purge_sim|done].
Qed.

(** Changing the table of flows in step. *)
Lemma sim_tracking f g m n o gen :
  sim f g → bare <$> m = bare <$> n → sim (set_tracking f m o gen) (set_tracking g n o gen).
Proof. intros [] Hmn. by constructor. Qed.

Lemma sim_set_states f g m n : sim f g → bare <$> m = bare <$> n → sim (set_states f m) (set_states g n).
Proof.
  intros Hs Hmn. unfold set_states. rw (sim_order _ _ Hs) (sim_generation _ _ Hs). by apply sim_tracking.
Qed.

Lemma sim_set_order f g o : sim f g → sim (set_order f o) (set_order g o).
Proof.
  intros Hs. unfold set_order. rw (sim_generation _ _ Hs). by apply sim_tracking; [|apply Hs].
Qed.

Lemma sim_set_fragments f g m n :
  sim f g → bare_fragment <$> m = bare_fragment <$> n → sim (set_fragments f m) (set_fragments g n).
Proof. intros [] Hmn. by constructor. Qed.

Lemma bare_delete k (m n : gmap FlowKey State) :
  bare <$> m = bare <$> n → bare <$> delete k m = bare <$> delete k n.
Proof. intros H. by rw !fmap_delete H. Qed.

Lemma bare_insert k s t (m n : gmap FlowKey State) :
  bare <$> m = bare <$> n → bare s = bare t → bare <$> <[k := s]> m = bare <$> <[k := t]> n.
Proof. intros H Hst. by rw !fmap_insert H Hst. Qed.

(** Corresponding states of two equivalent filters. *)
Lemma sim_cases f g k :
  sim f g →
  (f_states f !! k = None ∧ f_states g !! k = None) ∨
  ∃ s t, f_states f !! k = Some s ∧ f_states g !! k = Some t ∧ bare s = bare t.
Proof.
  intros Hs. pose proof (sim_lookup f g k Hs) as Hk.
  destruct (f_states f !! k) as [s|], (f_states g !! k) as [t|]; simpl in Hk; try done; [right|by left].
  exists s, t. split_and!; [done..|congruence].
Qed.

Lemma sim_touch f g k p via now :
  sim f g →
  (Filter.touch f k p via now).2 = (Filter.touch g k p via now).2 ∧
  sim (Filter.touch f k p via now).1 (Filter.touch g k p via now).1.
Proof.
  intros Hs. unfold Filter.touch. destruct (sim_cases f g k Hs) as [[-> ->]|(s & t & -> & -> & Hst)]; [done|].
  rw (bare_expires _ _ Hst). destruct (expires t <=? now); simpl; (split; [done|]).
  - eapply sim_log; [apply core_ended..|]. apply sim_set_states; [done|]. apply bare_delete, Hs.
  - eapply sim_log; [apply core_count..|]. apply sim_set_states; [done|]. apply bare_insert; [apply Hs|].
    injection Hst as Hi Hp Hsp Hr He Hg. unfold bare, Filter.touched, set_flow. simpl. by rw Hi Hp Hsp Hr Hg.
Qed.

Lemma sim_evict order f g : sim f g → sim (Filter.evict order f) (Filter.evict order g).
Proof.
  revert f g; induction order as [|[k gen] order IH]; intros f g Hs; simpl; rw (sim_size f g Hs);
    destruct (_ <=? _)%nat; try by apply sim_set_order.
  apply IH. destruct (sim_cases f g k Hs) as [[-> ->]|(s & t & -> & -> & Hst)]; [done|].
  assert (generation s = generation t) as -> by (by injection Hst). destruct (_ =? _); [|done].
  eapply sim_log; [apply core_ended..|]. apply sim_set_states; [done|]. apply bare_delete, Hs.
Qed.

(** The last part of [insert], with the new state in hand. *)
Lemma sim_enqueue f g k s t gen :
  sim f g → bare s = bare t →
  let done f s := set_tracking f (<[k := s]> (f_states f)) (f_order f ++ [(k, gen)]) gen in
  let trim f := if (MAX_STATES * 2 <? length (f_order f))%nat
                then set_order f (List.filter (Filter.order_current (f_states f)) (f_order f)) else f in
  sim (trim (done f s)) (trim (done g t)).
Proof.
  intros Hs Hst en tr. assert (sim (en f s) (en g t)) as He.
  { unfold en. rw (sim_order _ _ Hs). apply sim_tracking; [done|]. by apply bare_insert; [apply Hs|]. }
  unfold tr. rw (sim_order _ _ He). destruct (_ <? _)%nat; [|done].
  rw (order_filter_agree _ _ _ (sim_states _ _ He)). by apply sim_set_order.
Qed.

Lemma sim_insert f g k st now : sim f g → sim (Filter.insert f k st now) (Filter.insert g k st now).
Proof.
  intros Hs. unfold Filter.insert. rw (sim_size f g Hs) (sim_last_purge _ _ Hs). cbv zeta.
  set (f1 := if _ && _ then Filter.purge f now else f).
  set (g1 := if _ && _ then Filter.purge g now else g).
  assert (sim f1 g1) as H1 by (unfold f1, g1; destruct (_ && _); [by apply purge_sim|done]).
  clearbody f1 g1. rw (sim_order _ _ H1). apply (sim_evict (f_order g1)) in H1.
  set (f2 := Filter.evict _ f1) in *. set (g2 := Filter.evict _ g1) in *. clearbody f2 g2.
  rw (sim_generation _ _ H1).
  destruct (f_events f2), (f_events g2); apply sim_enqueue; try done;
    by apply (sim_log f2 g2); rw ?core_emit.
Qed.

Lemma sim_remember f g p a c d now :
  sim f g → sim (Filter.remember_fragment f p a c now) (Filter.remember_fragment g p a d now).
Proof.
  intros Hs. unfold Filter.remember_fragment. destruct (p_fragment p) as [|key|key]; [done| |done].
  rw (sim_fragments_size f g Hs). cbv zeta.
  set (f1 := if (_ <=? _)%nat then set_fragments f _ else f).
  set (g1 := if (_ <=? _)%nat then set_fragments g _ else g).
  assert (sim f1 g1) as H1.
  { unfold f1, g1. destruct (_ <=? _)%nat; [|done]. apply sim_set_fragments; [done|].
    apply unexpired_agree, Hs. }
  clearbody f1 g1. rw (sim_fragments_size f1 g1 H1). destruct (_ <=? _)%nat; [done|].
  apply sim_set_fragments; [done|]. rw !fmap_insert. by rw (sim_fragments _ _ H1).
Qed.

Lemma sim_inbound_new f g p k now :
  sim f g →
  (Filter.inbound_new f p k now).2 = (Filter.inbound_new g p k now).2 ∧
  sim (Filter.inbound_new f p k now).1 (Filter.inbound_new g p k now).1.
Proof.
  intros Hs. unfold Filter.inbound_new. rw (sim_policy _ _ Hs).
  destruct (Policy.decide_with_hint _ _ _ _) as [[allow peer] hint]. cbn [fst snd]. split; [done|].
  apply sim_remember. destruct allow; simpl.
  - destruct k as [k|]; simpl; [apply sim_touch, sim_insert; done|].
    by eapply sim_log; [apply core_count..|].
  - rw orb_true_r. eapply sim_log; [apply core_count..|].
    by destruct k; (eapply sim_log; [apply core_dropped..|]).
Qed.

Lemma sim_related f g data p now :
  sim f g → bare <$> Filter.related_error f data p now = bare <$> Filter.related_error g data p now.
Proof.
  intros Hs. unfold Filter.related_error. destruct (p_l4 p) as [|kind ident body|]; [done| |done].
  destruct (is_error _ _); [|done]. unfold Filter.related.
  destruct (get_range _ _ _); simpl; [|done]. destruct (result_ok _) as [inner|]; simpl; [|done].
  destruct (outbound_key inner) as [k|]; simpl; [|done].
  destruct (sim_cases f g k Hs) as [[-> ->]|(s & t & -> & -> & Hst)]; simpl; [done|].
  rw (bare_expires _ _ Hst). destruct (now <? expires t); simpl; congruence.
Qed.

Lemma sim_live_fragment f g k now :
  sim f g → bare_fragment <$> Filter.live_fragment f k now = bare_fragment <$> Filter.live_fragment g k now.
Proof.
  intros Hs. pose proof (sim_fragment f g k Hs) as Hk. unfold Filter.live_fragment.
  destruct (f_fragments f !! k) as [x|], (f_fragments g !! k) as [y|]; simpl in *; try done.
  injection Hk as Ha He. rw He. destruct (now <? fr_expires y); simpl; unfold bare_fragment; congruence.
Qed.

Lemma sim_inbound f g data now :
  sim f g →
  (Filter.inbound f data now).2 = (Filter.inbound g data now).2 ∧
  sim (Filter.inbound f data now).1 (Filter.inbound g data now).1.
Proof.
  intros Hs%(maybe_purge_sim now). unfold Filter.inbound. cbv zeta.
  set (f0 := Filter.maybe_purge f now) in *. set (g0 := Filter.maybe_purge g now) in *. clearbody f0 g0.
  destruct (parse data) as [p|]; [|split; [done|]; by eapply sim_log; [apply core_count..|]].
  destruct (is_later (p_fragment p)) eqn:Hl.
  { destruct (p_fragment p) as [| |k]; [done..|]. unfold Filter.later_fragment.
    pose proof (sim_live_fragment f0 g0 k now Hs) as Hk.
    destruct (Filter.live_fragment f0 k now), (Filter.live_fragment g0 k now); try done; simpl in *.
    - split; [by injection Hk|]. by eapply sim_log; [apply core_count_opt..|].
    - split; [done|]. by eapply sim_log; [apply core_count..|]. }
  rw !(not_later_match p _ _ Hl).
  assert (∀ k, let t f := match k with Some key => Filter.touch f key p Dir.Inbound now | None => (f, false) end in
    (t f0).2 = (t g0).2 ∧ sim (t f0).1 (t g0).1) as Ht.
  { intros [k|]; simpl; [by apply sim_touch|done]. }
  specialize (Ht (inbound_key p)). cbv zeta in Ht.
  destruct (match inbound_key p with Some key => Filter.touch f0 key p Dir.Inbound now | None => (f0, false) end)
    as [f1 hf].
  destruct (match inbound_key p with Some key => Filter.touch g0 key p Dir.Inbound now | None => (g0, false) end)
    as [g1 hg].
  simpl in Ht. destruct Ht as [<- H1]. destruct hf; [done|].
  pose proof (sim_related f1 g1 data p now H1) as Hr.
  destruct (Filter.related_error f1 data p now), (Filter.related_error g1 data p now); try done.
  - simpl. split; [done|]. apply sim_remember. by eapply sim_log; [apply core_count..|].
  - by apply sim_inbound_new.
Qed.

Lemma sim_outbound f g data now : sim f g → sim (Filter.outbound f data now) (Filter.outbound g data now).
Proof.
  intros Hs%(maybe_purge_sim now). unfold Filter.outbound. cbv zeta.
  set (f0 := Filter.maybe_purge f now) in *. set (g0 := Filter.maybe_purge g now) in *. clearbody f0 g0.
  destruct (parse data) as [p|]; [|done].
  destruct (is_later (p_fragment p)) eqn:Hl.
  { destruct (p_fragment p) as [| |k]; [done..|]. by eapply sim_log; [apply core_count_opt..|]. }
  rw !(not_later_match p _ _ Hl). destruct (outbound_key p) as [key|].
  - pose proof (sim_touch f0 g0 key p Dir.Outbound now Hs) as [Hh Ht].
    destruct (Filter.touch f0 key p Dir.Outbound now) as [f1 hf],
      (Filter.touch g0 key p Dir.Outbound now) as [g1 hg]. simpl in Hh, Ht. subst hg.
    apply sim_remember. destruct hf; [done|]. rw (sim_policy _ _ Ht). by apply sim_touch, sim_insert.
  - apply sim_remember. by eapply sim_log; [apply core_count..|].
Qed.

Lemma sim_set_policy f g pol : sim f g → sim (Filter.set_policy f pol) (Filter.set_policy g pol).
Proof.
  intros Hs. pose proof (set_policy_core f pol) as Hf. pose proof (set_policy_core g pol) as Hg.
  set (f' := Filter.set_policy f pol) in *. set (g' := Filter.set_policy g pol) in *. clearbody f' g'.
  injection Hf as Hp Hst Ho Hgen Hfr Hl. injection Hg as Hp' Hst' Ho' Hgen' Hfr' Hl'. destruct Hs.
  constructor; try congruence. rw Hst Hst'. apply retained_agree; [|done].
  intros k s t [= Hi _ Hsp _ _ _]. unfold Filter.policy_keeps. by rw Hi Hsp.
Qed.

(** ** Runs *)

Definition diagnostic (o : op) : bool :=
  match o with SetPolicy _ | In _ _ | Out _ _ => false | _ => true end.

(** The verdicts on the inbound packets of a run, in order. *)
Fixpoint verdicts (os : list op) (f : Filter) : list bool :=
  match os with
  | [] => []
  | o :: os => (match o with In data now => [(Filter.inbound f data now).2] | _ => [] end)
               ++ verdicts os (apply_op o f)
  end.

Lemma sim_diagnostic o f : diagnostic o = true → sim (apply_op o f) f.
Proof.
  destruct o as [|en u| | | |es|]; simpl; try done; intros _.
  - unfold Filter.set_traffic. destruct en; simpl; [by destruct (f_traffic f)|].
    constructor; simpl; try done. rw -map_fmap_compose. done.
  - unfold Filter.take_events. by destruct (f_events f).
  - unfold Filter.restore_events. by destruct (f_events f).
Qed.

Lemma verdicts_strip os f g :
  sim f g → verdicts os f = verdicts (List.filter (negb ∘ diagnostic) os) g.
Proof.
  revert f g; induction os as [|o os IH]; intros f g Hs; simpl; [done|].
  destruct (diagnostic o) eqn:Hd; simpl.
  - assert (match o with In data now => [(Filter.inbound f data now).2] | _ => [] end = []) as -> by by destruct o.
    apply IH. etrans; [by apply sim_diagnostic|done].
  - destruct o; try done; simpl.
    + by apply IH, sim_set_policy.
    + destruct (sim_inbound f g data now Hs) as [-> H1]. f_equal. by apply IH.
    + by apply IH, sim_outbound.
Qed.

(** [C31] Traffic diagnostics never change what is filtered: switching them on or
    off, taking or restoring events and counters anywhere in a run leaves every
    verdict of the run as it would be without those operations. *)
Theorem diagnostics_never_filter (os : list op) (f : Filter) :
  verdicts os f = verdicts (List.filter (negb ∘ diagnostic) os) f.
Proof. by apply verdicts_strip. Qed.

End sim.
