(* ===== verification/Ipam.v ===== *)
(** * Address pools

    [blaktail-coord/src/ipam.rs]: CIDR arithmetic, pool overlap and containment,
    reservation checks, and allocation of the first free host address.  Integers
    keep their width: [u32] and [u128] addition is checked where the source
    checks it, and bounded by the loop where it does not. *)

From S2P Require Import Prelude Text Net.

Definition MAX_ALLOC_PROBES : Z := 65536.

Inductive IpamError :=
| InvalidCidr (text : str)
| InvalidAddress (text : str)
| NetworkAddress (address pool : str)
| BroadcastAddress (address pool : str)
| OutsidePool (address pool : str)
| Excluded (address pool : str).

(** The [#[error(..)]] texts. *)
Definition error_text (e : IpamError) : str :=
  match e with
  | InvalidCidr t => lit "invalid CIDR '" ++ t ++ lit "'"
  | InvalidAddress t => lit "invalid IP address '" ++ t ++ lit "'"
  | NetworkAddress a p => lit "address " ++ a ++ lit " is the network address of pool " ++ p
  | BroadcastAddress a p => lit "address " ++ a ++ lit " is the broadcast address of pool " ++ p
  | OutsidePool a p => lit "address " ++ a ++ lit " is outside pool " ++ p
  | Excluded a p => lit "address " ++ a ++ lit " is excluded in pool " ++ p
  end.

Record IpamPool := mkIpamPool { ip_name : str; ip_cidr : str; ip_exclusions : list str }.

Inductive ReservationState := Active | Reserved | Released.
#[export] Instance ReservationState_eq_dec : EqDecision ReservationState.
Proof. solve_decision. Defined.

Record Reservation := mkReservation {
  rv_address : str;
  rv_node_id : option str;
  rv_enrol_key : option str;
  rv_state : ReservationState;
  rv_reason : str;
  rv_expires : option Z
}.

(** The address width of a family. *)
Definition width (a : IpAddr) : Z := match a with V4 _ => 32 | V6 _ => 128 end.
Definition same_family (a b : IpAddr) : bool := Bool.eqb (is_ipv4 a) (is_ipv4 b).

Definition mask_addr (addr : IpAddr) (prefix : Z) : IpAddr :=
  match addr with
  | V4 v => V4 (mask_value 32 prefix v)
  | V6 v => V6 (mask_value 128 prefix v)
  end.

Definition parse_cidr (cidr : str) : result IpamError (IpAddr * Z) :=
  let? (addr_s, prefix_s) := ok_or (split_once 47 cidr) (InvalidCidr cidr) in
  let? addr := ok_or (parse_ip (trim addr_s)) (InvalidCidr cidr) in
  let? prefix := ok_or (parse_u8 (trim prefix_s)) (InvalidCidr cidr) in
  if width addr <? prefix then Err (InvalidCidr cidr)
  else Ok (mask_addr addr prefix, prefix).

Definition cidr_contains (network : IpAddr) (prefix : Z) (ip : IpAddr) : bool :=
  match network, ip with
  | V4 n, V4 i => mask_value 32 prefix n =? mask_value 32 prefix i
  | V6 n, V6 i => mask_value 128 prefix n =? mask_value 128 prefix i
  | _, _ => false
  end.

Definition pools_overlap (a_cidr b_cidr : str) : result IpamError bool :=
  let? (a_net, a_pre) := parse_cidr a_cidr in
  let? (b_net, b_pre) := parse_cidr b_cidr in
  if negb (same_family a_net b_net) then Ok false
  else Ok (cidr_contains a_net a_pre b_net || cidr_contains b_net b_pre a_net).

Definition map_err {E F A} (f : E → F) (r : result E A) : result F A :=
  match r with Ok a => Ok a | Err e => Err (f e) end.

Definition pool_within (s_net : IpAddr) (s_pre : Z) (supernet : str) (pool : IpamPool) : result str () :=
  let? (net, pre) := map_err (λ e, lit "pool " ++ ip_name pool ++ lit ": " ++ error_text e)
                       (parse_cidr (ip_cidr pool)) in
  let inside := same_family net s_net && (s_pre <=? pre) && cidr_contains s_net s_pre net in
  if negb inside
  then Err (lit "pool " ++ ip_name pool ++ lit " (" ++ ip_cidr pool ++ lit ") is not within supernet "
            ++ supernet)
  else Ok ().

Definition pools_within_supernet (pools : list IpamPool) (supernet : str) : result str () :=
  let? (s_net, s_pre) := map_err error_text (parse_cidr supernet) in
  try_each (pool_within s_net s_pre supernet) pools.

Definition exclusion_matches (addr : IpAddr) (exclusion : str) : result IpamError bool :=
  let text := trim exclusion in
  if contains_char 47 text then
    let? (net, pre) := parse_cidr text in Ok (cidr_contains net pre addr)
  else
    let? ip := ok_or (parse_ip text) (InvalidCidr exclusion) in Ok (bool_decide (ip = addr)).

Definition unwrap_or_false {E} (r : result E bool) : bool := match r with Ok b => b | Err _ => false end.

Definition excluded (addr : IpAddr) (exclusions : list str) : bool :=
  existsb (λ e, unwrap_or_false (exclusion_matches addr e)) exclusions.

(** [for e in exclusions { if exclusion_matches(addr, e)? { return .. } }]:
    whether the loop returns. *)
Fixpoint any_exclusion (addr : IpAddr) (exclusions : list str) : result IpamError bool :=
  match exclusions with
  | [] => Ok false
  | e :: rest =>
      let? m := exclusion_matches addr e in
      if m then Ok true else any_exclusion addr rest
  end.

Definition address_in_pool (address : str) (pool : IpamPool) : result IpamError bool :=
  let? addr := ok_or (parse_ip (trim address)) (InvalidAddress address) in
  let? (net, pre) := parse_cidr (ip_cidr pool) in
  if negb (cidr_contains net pre addr) then Ok false
  else
    let? hit := any_exclusion addr (ip_exclusions pool) in
    Ok (negb hit).

Definition usable_v4_range (base prefix : Z) : Z * Z :=
  if prefix =? 32 then (base, base)
  else if prefix =? 31 then (base, base + 1)
  else
    let broadcast := Z.lor base (Z.shiftr U32_MAX prefix) in
    (base + 1, broadcast - 1).

(** The checks of [validate_reservation] once the pool is found. *)
Definition usable_slot (label : str) (name : str) (net : IpAddr) (pre : Z) (addr : IpAddr) :
    option (result IpamError ()) :=
  match net, addr with
  | V4 n, V4 host =>
      let '(first, last) := usable_v4_range n pre in
      if host <? first then Some (Err (NetworkAddress label name))
      else if last <? host then Some (Err (BroadcastAddress label name))
      else Some (Ok ())
  | V6 n, V6 i => if i =? n then Some (Err (NetworkAddress label name)) else Some (Ok ())
  | _, _ => None
  end.

Fixpoint validate_in (pools : list IpamPool) (label : str) (addr : IpAddr) (outside : IpamError) :
    result IpamError () :=
  match pools with
  | [] => Err outside
  | pool :: rest =>
      let? (net, pre) := parse_cidr (ip_cidr pool) in
      if negb (cidr_contains net pre addr) then validate_in rest label addr outside
      else
        let? hit := any_exclusion addr (ip_exclusions pool) in
        if hit then Err (Excluded label (ip_name pool))
        else match usable_slot label (ip_name pool) net pre addr with
             | Some r => r
             | None => validate_in rest label addr outside
             end
  end.

Definition validate_reservation (pools : list IpamPool) (address : str) : result IpamError () :=
  let? addr := ok_or (parse_ip (trim address)) (InvalidAddress address) in
  let label := trim address in
  let scope := match pools with [p] => ip_name p | _ => lit "any pool" end in
  validate_in pools label addr (OutsidePool label scope).

(** ** Allocation *)

Definition used_set (used : list str) : gset IpAddr := list_to_set (omap (λ s, parse_ip (trim s)) used).

Definition held_set (reservations : list Reservation) : gset IpAddr :=
  list_to_set (omap (λ r, parse_ip (trim (rv_address r)))
                 (List.filter (λ r, negb (bool_decide (rv_state r = Released))) reservations)).

Section allocate.
Variables (used held : gset IpAddr).

Definition free (exclusions : list str) (ip : IpAddr) : bool :=
  negb (bool_decide (ip ∈ used)) && negb (bool_decide (ip ∈ held)) && negb (excluded ip exclusions).

(** The probe loop of an IPv4 pool; [n] probes are left. *)
Fixpoint probe_v4 (n : nat) (exclusions : list str) (cur last : Z) : option IpAddr :=
  match n with
  | O => None
  | S n =>
      if free exclusions (V4 cur) then Some (V4 cur)
      else if cur =? last then None
      else probe_v4 n exclusions (cur + 1) last
  end.

(** How one pool ends: an address, the next pool, or a [?] that ends the
    whole search. *)
Inductive probed := Found (ip : IpAddr) | NextPool | GiveUp.

Fixpoint probe_v6 (n : nat) (exclusions : list str) (base prefix offset : Z) : probed :=
  match n with
  | O => NextPool
  | S n =>
      let cand := base + offset in
      if U128_MAX <? cand then GiveUp
      else if negb (cidr_contains (V6 base) prefix (V6 cand)) then NextPool
      else if free exclusions (V6 cand) then Found (V6 cand)
      else probe_v6 n exclusions base prefix (offset + 1)
  end.

Definition probe_pool (pool : IpamPool) : probed :=
  match parse_cidr (ip_cidr pool) with
  | Err _ => GiveUp
  | Ok (V4 n, prefix) =>
      let '(first, last) := usable_v4_range n prefix in
      match probe_v4 (Z.to_nat MAX_ALLOC_PROBES) (ip_exclusions pool) first last with
      | Some ip => Found ip
      | None => NextPool
      end
  | Ok (V6 n, prefix) => probe_v6 (Z.to_nat MAX_ALLOC_PROBES) (ip_exclusions pool) n prefix 1
  end.

Fixpoint probe_pools (pools : list IpamPool) : option IpAddr :=
  match pools with
  | [] => None
  | pool :: rest =>
      match probe_pool pool with
      | Found ip => Some ip
      | NextPool => probe_pools rest
      | GiveUp => None
      end
  end.

End allocate.

Definition allocate_from_pools (used : list str) (pools : list IpamPool) (reservations : list Reservation) :
    option str :=
  show_ip <$> probe_pools (used_set used) (held_set reservations) pools.

#[global] Arguments MAX_ALLOC_PROBES : simpl never.
#[global] Arguments Z.to_nat : simpl never.

(** ** Blocks as intervals *)

Module IpamProps.

Definition val (a : IpAddr) : Z := match a with V4 v => v | V6 v => v end.

Record block (net : IpAddr) (pre : Z) : Prop := {
  block_wf : wf_ip net;
  block_pre : 0 ≤ pre ≤ width net;
  block_aligned : val net mod 2 ^ (width net - pre) = 0
}.

Lemma wf_range a : wf_ip a → 0 ≤ val a < 2 ^ width a.
Proof. destruct a; simpl; mlia. Qed.

Lemma mask_addr_block a p : wf_ip a → 0 ≤ p ≤ width a → block (mask_addr a p) p.
Proof.
  intros Hw Hp. pose proof (wf_range a Hw) as Hr.
  assert (∀ w v, 0 ≤ p ≤ w → 0 ≤ v < 2 ^ w →
    0 ≤ mask_value w p v ≤ v ∧ mask_value w p v mod 2 ^ (w - p) = 0) as Hm.
  { intros w v Hpw Hv. split; [by apply mask_value_bound|]. rw mask_value_div //.
    apply Z.mod_mul. apply Z.pow_nonzero; lia. }
  destruct a as [v|v]; simpl in *.
  - destruct (Hm 32 v) as [Hb Ha]; [done..|]. constructor; simpl; [mlia|done..].
  - destruct (Hm 128 v) as [Hb Ha]; [done..|]. constructor; simpl; [mlia|done..].
Qed.

Lemma parse_cidr_block cidr net pre : parse_cidr cidr = Ok (net, pre) → block net pre.
Proof.
  unfold parse_cidr. destruct (split_once 47 cidr) as [[a b]|]; simpl; [|done].
  destruct (parse_ip (trim a)) as [addr|] eqn:Ha; simpl; [|done].
  destruct (parse_u8 (trim b)) as [p|] eqn:Hp; simpl; [|done].
  case_match; to_prop; [done|]. intros [= <- <-]. apply mask_addr_block; [by eapply parse_ip_wf|].
  apply parse_uint_bound in Hp; [|mlia..]. lia.
Qed.

(** Two addresses are in one block of prefix [pre] when they share its bits. *)
Lemma contains_div net pre a :
  wf_ip net → wf_ip a → 0 ≤ pre ≤ width net →
  cidr_contains net pre a = true ↔
  same_family net a = true ∧ val net / 2 ^ (width net - pre) = val a / 2 ^ (width net - pre).
Proof.
  intros Hn%wf_range Ha%wf_range Hp. destruct net as [n|n], a as [v|v]; simpl in *;
    [|by split; [|intros []]..|]; rw Z.eqb_eq mask_value_eq //; split; tauto.
Qed.

Lemma same_family_spec a b : same_family a b = true ↔ is_ipv4 a = is_ipv4 b.
Proof. unfold same_family. by destruct (is_ipv4 a), (is_ipv4 b). Qed.

Lemma same_family_width a b : same_family a b = true → width a = width b.
Proof. rw same_family_spec. by destruct a, b. Qed.

(** A block is the interval of addresses that starts at its network address. *)
Lemma contains_range net pre a :
  block net pre → wf_ip a →
  cidr_contains net pre a = true ↔
  same_family net a = true ∧ val net ≤ val a < val net + 2 ^ (width net - pre).
Proof.
  intros [Hw Hp Hal] Ha. rw contains_div //.
  assert (0 < 2 ^ (width net - pre)) as Hpos by (apply Z.pow_pos_nonneg; lia).
  set (k := 2 ^ (width net - pre)) in *. clearbody k.
  pose proof (Z.div_mod (val net) k ltac:(lia)) as Hn. rw Hal Z.add_0_r in Hn.
  pose proof (Z.div_mod (val a) k ltac:(lia)). pose proof (Z.mod_pos_bound (val a) k Hpos).
  split; intros [Hf Hr]; (split; [done|]).
  - rewrite -> Hr in Hn. lia.
  - apply (Z.div_unique _ _ _ (val a - val net)); lia.
Qed.

Lemma contains_self net pre : block net pre → cidr_contains net pre net = true.
Proof. intros [Hw Hp _]. apply contains_div; [done..|]. split; [|done]. by apply same_family_spec. Qed.

(** A shorter prefix keeps fewer bits. *)
Lemma div_coarser w p q a b :
  0 ≤ q ≤ p → p ≤ w → a / 2 ^ (w - p) = b / 2 ^ (w - p) → a / 2 ^ (w - q) = b / 2 ^ (w - q).
Proof.
  intros Hq Hp Heq. replace (w - q) with ((w - p) + (p - q)) by lia.
  rw Z.pow_add_r; [|lia..]. assert (0 < 2 ^ (w - p)) by (apply Z.pow_pos_nonneg; lia).
  assert (0 < 2 ^ (p - q)) by (apply Z.pow_pos_nonneg; lia).
  rw -!Z.div_div; [|lia..]. by rw Heq.
Qed.

(** Of two blocks that share an address, the one with the longer prefix lies
    inside the other. *)
Lemma overlap_nested n1 p1 n2 p2 a :
  block n1 p1 → block n2 p2 → wf_ip a → p1 ≤ p2 →
  cidr_contains n1 p1 a = true → cidr_contains n2 p2 a = true → cidr_contains n1 p1 n2 = true.
Proof.
  intros [Hw1 Hp1 _] [Hw2 Hp2 _] Ha Hle H1 H2.
  apply contains_div in H1 as [Hf1 H1]; [|done..]. apply contains_div in H2 as [Hf2 H2]; [|done..].
  apply contains_div; [done..|]. apply same_family_width in Hf1 as Hw. apply same_family_width in Hf2 as Hw'.
  rw same_family_spec in Hf1. rw same_family_spec in Hf2.
  split; [apply same_family_spec; congruence|]. rw H1. symmetry.
  assert (width n1 = width n2) as Hww by congruence. rw Hww.
  apply (div_coarser (width n2) p2 p1); [lia..|done].
Qed.

(** [pools_overlap] is exact: it reports an overlap exactly when some address
    lies in both blocks. *)
Theorem pools_overlap_exact a b na pa nb pb
    (Ha : parse_cidr a = Ok (na, pa)) (Hb : parse_cidr b = Ok (nb, pb)) :
  ∃ v, pools_overlap a b = Ok v ∧
    (v = true ↔ ∃ ip, wf_ip ip ∧ cidr_contains na pa ip = true ∧ cidr_contains nb pb ip = true).
Proof.
  pose proof (parse_cidr_block _ _ _ Ha) as Hba. pose proof (parse_cidr_block _ _ _ Hb) as Hbb.
  unfold pools_overlap. rw Ha /= Hb /=. destruct (same_family na nb) eqn:Hf; simpl.
  - eexists. split; [done|]. rw orb_true_iff. split.
    + intros [H|H].
      * exists nb. split_and!; [apply Hbb|done|by apply contains_self].
      * exists na. split_and!; [apply Hba|by apply contains_self|done].
    + intros (ip & Hw & H1 & H2). destruct (Z.le_ge_cases pa pb).
      * left. by eapply (overlap_nested na pa nb pb ip).
      * right. by eapply (overlap_nested nb pb na pa ip).
  - exists false. split; [done|]. split; [done|]. intros (ip & Hw & H1 & H2).
    apply contains_div in H1 as [H1%same_family_spec _]; [|apply Hba|done|apply Hba].
    apply contains_div in H2 as [H2%same_family_spec _]; [|apply Hbb|done|apply Hbb].
    assert (same_family na nb = true) by (apply same_family_spec; congruence). congruence.
Qed.

(** ** The usable range of an IPv4 block *)

Lemma lor_low n k : 0 ≤ k → n mod 2 ^ k = 0 → Z.lor n (2 ^ k - 1) = n + (2 ^ k - 1).
Proof.
  intros Hk Hm. pose proof (Z.add_lor_land n (2 ^ k - 1)) as Hl.
  assert (Z.land n (2 ^ k - 1) = 0) as Hz; [|lia].
  replace (2 ^ k - 1) with (Z.ones k) by (rw Z.ones_equiv; lia). by rw Z.land_ones.
Qed.

Lemma usable_range n p :
  block (V4 n) p →
  usable_v4_range n p =
    if p =? 32 then (n, n) else if p =? 31 then (n, n + 1) else (n + 1, n + 2 ^ (32 - p) - 2).
Proof.
  intros [Hw Hp Hal]. simpl in *. unfold usable_v4_range. do 2 (case_match; [done|]). to_prop.
  assert (Z.shiftr U32_MAX p = 2 ^ (32 - p) - 1) as ->.
  { rw Z.shiftr_div_pow2; [|lia]. change U32_MAX with (2 ^ 32 - 1).
    replace (2 ^ 32) with (2 ^ (32 - p) * 2 ^ p) by (rw -Z.pow_add_r; [f_equal|..]; lia).
    assert (0 < 2 ^ p) by (apply Z.pow_pos_nonneg; lia).
    symmetry. apply (Z.div_unique _ _ _ (2 ^ p - 1)); nia. }
  rw lor_low; [|lia|done]. f_equal. lia.
Qed.

Lemma usable_bounds n p f l :
  block (V4 n) p → usable_v4_range n p = (f, l) → n ≤ f ≤ l ∧ l < n + 2 ^ (32 - p).
Proof.
  intros Hb Hu. rw usable_range // in Hu. destruct Hb as [_ Hp _]. simpl in Hp.
  assert (p ≤ 30 → 4 ≤ 2 ^ (32 - p)) as Hpow.
  { intros. change 4 with (2 ^ 2). apply Z.pow_le_mono_r; lia. }
  destruct (Z.eqb_spec p 32) as [->|]; [simplify_eq; simpl; lia|].
  destruct (Z.eqb_spec p 31) as [->|]; simplify_eq; simpl; lia.
Qed.

(** ** Allocation against its reference *)

(** The candidates of a block, in order: every usable host, at most
    [MAX_ALLOC_PROBES] of them. *)
Definition hosts (net : IpAddr) (pre : Z) : list IpAddr :=
  match net with
  | V4 n => let '(first, last) := usable_v4_range n pre in
            map V4 (seqZ first (Z.min MAX_ALLOC_PROBES (last - first + 1)))
  | V6 n => map V6 (seqZ (n + 1) (Z.min MAX_ALLOC_PROBES (2 ^ (128 - pre) - 1)))
  end.

Definition pool_hosts (pool : IpamPool) : list IpAddr :=
  match parse_cidr (ip_cidr pool) with Ok (net, pre) => hosts net pre | Err _ => [] end.

(** The block does not end at the last IPv6 address. *)
Definition below_top (pool : IpamPool) : Prop :=
  match parse_cidr (ip_cidr pool) with
  | Ok (V6 n, pre) => n + 2 ^ (128 - pre) ≤ U128_MAX
  | Ok (V4 _, _) => True
  | Err _ => False
  end.

Lemma probe_v4_find U H ex n cur last :
  cur ≤ last →
  probe_v4 U H n ex cur last =
  find (free U H ex) (map V4 (seqZ cur (Z.min (Z.of_nat n) (last - cur + 1)))).
Proof.
  revert cur; induction n as [|n IH]; intros cur Hc; simpl; [rw seqZ_nil; [done|lia]|].
  rw (seqZ_cons cur); [|lia]. simpl. destruct (free U H ex (V4 cur)); [done|].
  destruct (Z.eqb_spec cur last) as [->|Hne]; [rw seqZ_nil; [done|lia]|].
  rw IH; [|lia]. do 3 f_equal; lia.
Qed.

Lemma probe_v6_find U H ex n base pre off :
  block (V6 base) pre → base + 2 ^ (128 - pre) ≤ U128_MAX → 1 ≤ off ≤ 2 ^ (128 - pre) →
  probe_v6 U H n ex base pre off =
  match find (free U H ex) (map V6 (seqZ (base + off) (Z.min (Z.of_nat n) (2 ^ (128 - pre) - off)))) with
  | Some ip => Found ip
  | None => NextPool
  end.
Proof.
  intros Hb Htop. pose proof Hb as [Hw Hp _]. simpl in Hw, Hp. unfold is_u128 in Hw.
  revert off; induction n as [|n IH]; intros off Ho; simpl; [rw seqZ_nil; [done|lia]|].
  rw (proj2 (Z.ltb_ge _ _)); [|lia].
  pose proof (contains_range (V6 base) pre (V6 (base + off)) Hb) as Hc. simpl in Hc.
  destruct (Z.eq_dec off (2 ^ (128 - pre))) as [->|Hne].
  - assert (mask_value 128 pre base =? mask_value 128 pre (base + 2 ^ (128 - pre)) = false) as ->.
    { apply not_true_iff_false. rw Hc; [lia|mlia]. }
    simpl. rw seqZ_nil; [done|lia].
  - rw (proj2 (Hc ltac:(mlia))); [|split; [done|lia]].
    simpl. rw (seqZ_cons (base + off)); [|lia]. simpl.
    destruct (free U H ex (V6 (base + off))); [done|]. rw IH; [|lia].
    replace (base + (off + 1)) with (Z.succ (base + off)) by lia.
    by replace (Z.pred (Z.min (Z.of_nat (S n)) (2 ^ (128 - pre) - off)))
      with (Z.min (Z.of_nat n) (2 ^ (128 - pre) - (off + 1))) by lia.
Qed.

Lemma head_filter {A} (f : A → bool) l : head (List.filter f l) = find f l.
Proof. induction l as [|x l IH]; simpl; [done|]. by destruct (f x). Qed.

Lemma probe_pool_find U H pool :
  below_top pool →
  probe_pool U H pool =
  match find (free U H (ip_exclusions pool)) (pool_hosts pool) with Some ip => Found ip | None => NextPool end.
Proof.
  unfold below_top, probe_pool, pool_hosts.
  destruct (parse_cidr (ip_cidr pool)) as [[net pre]|] eqn:Hc; [|done].
  apply parse_cidr_block in Hc. destruct net as [n|n]; intros Htop; unfold hosts.
  - destruct (usable_v4_range n pre) as [f l] eqn:Hu. apply usable_bounds in Hu; [|done].
    rw probe_v4_find; [|lia]. by rw Z2Nat.id.
  - assert (1 ≤ 2 ^ (128 - pre)).
    { destruct Hc as [_ Hp _]. simpl in Hp. assert (0 < 2 ^ (128 - pre)); [apply Z.pow_pos_nonneg|]; lia. }
    by rw probe_v6_find.
Qed.

(** Allocation is "the first free host": it returns the first address, in the
    order of the pools and of the addresses within each (at most 65536 usable
    hosts per pool), that is not used, not held by a reservation and not
    excluded; and nothing when there is none.  The pools' CIDRs must parse and
    no IPv6 pool may end at the very last address. *)
Theorem allocate_first_free used pools reservations (Hpools : Forall below_top pools) :
  allocate_from_pools used pools reservations =
  show_ip <$> head (flat_map (λ pool,
    List.filter (free (used_set used) (held_set reservations) (ip_exclusions pool)) (pool_hosts pool)) pools).
Proof.
  unfold allocate_from_pools. f_equal. induction Hpools as [|pool pools Hp _ IH]; simpl; [done|].
  rw probe_pool_find //. rw -head_filter. destruct (List.filter _ (pool_hosts pool)); [done|]. done.
Qed.

Lemma allocate_first_free_witness :
  allocate_from_pools [lit "10.0.0.1"]
    [mkIpamPool (lit "a") (lit "10.0.0.0/30") []; mkIpamPool (lit "b") (lit "fd00::/126") [lit "fd00::1"]]
    [mkReservation (lit "10.0.0.2") None None Active [] None] = Some (lit "fd00::2").
Proof. rw allocate_first_free; [by vm_compute|]. repeat constructor; by vm_compute. Defined.

(** An IPv6 pool that reaches the last address ends the search: the overflow
    check gives up on the whole allocation instead of moving to the next pool,
    which has free addresses. *)
Theorem allocate_gives_up_at_top :
  let top := mkIpamPool (lit "top") (lit "ffff:ffff:ffff:ffff:ffff:ffff:ffff:ffff/128") [] in
  let rest := mkIpamPool (lit "lan") (lit "10.0.0.0/24") [] in
  allocate_from_pools [] [top; rest] [] = None ∧
  allocate_from_pools [] [rest] [] = Some (lit "10.0.0.1").
Proof. by vm_compute. Qed.

(** ** Soundness of every allocation *)

Lemma probe_v4_sound U H ex n cur last ip :
  cur ≤ last → probe_v4 U H n ex cur last = Some ip →
  ∃ v, ip = V4 v ∧ cur ≤ v ≤ last ∧ free U H ex ip = true.
Proof.
  intros Hc. rw probe_v4_find //. intros [Hin Hf]%find_some.
  apply in_map_iff in Hin as (v & <- & Hv%list_elem_of_In%elem_of_seqZ). exists v. split_and!; [done|lia..|done].
Qed.

Lemma probe_v6_sound U H ex n base pre off ip :
  0 < off → 0 ≤ base → probe_v6 U H n ex base pre off = Found ip →
  ∃ v, ip = V6 v ∧ base < v ≤ U128_MAX ∧ cidr_contains (V6 base) pre ip = true ∧ free U H ex ip = true.
Proof.
  intros Ho Hb. revert off Ho; induction n as [|n IH]; intros off Ho; simpl; [done|].
  case_match; to_prop; [done|]. destruct (_ =? _) eqn:Hc; simpl; [|done].
  destruct (free U H ex (V6 (base + off))) eqn:Hf.
  - intros [= <-]. exists (base + off). split_and!; [done|lia..|done|done].
  - apply IH. lia.
Qed.

Lemma block_range net pre : block net pre → val net + 2 ^ (width net - pre) ≤ 2 ^ width net.
Proof.
  intros [Hw%wf_range Hp Hal].
  assert (2 ^ width net = 2 ^ (width net - pre) * 2 ^ pre) as Hpow by (rw -Z.pow_add_r; [f_equal|..]; lia).
  set (k := 2 ^ (width net - pre)) in *. assert (0 < k) by (apply Z.pow_pos_nonneg; lia).
  assert (0 < 2 ^ pre) by (apply Z.pow_pos_nonneg; lia).
  pose proof (Z.div_mod (val net) k ltac:(lia)) as Hn. rw Hal Z.add_0_r in Hn.
  assert (val net / k < 2 ^ pre) by nia. nia.
Qed.

Lemma contains_wf net pre v : block (V4 net) pre → net ≤ v < net + 2 ^ (32 - pre) → is_u32 v.
Proof.
  intros Hb Hv. pose proof (block_range _ _ Hb) as Hr. destruct Hb as [Hw _ _]. simpl in *. mlia.
Qed.

(** What allocation guarantees about the address it picks from a pool. *)
Record grant (U H : gset IpAddr) (pool : IpamPool) (net : IpAddr) (pre : Z) (ip : IpAddr) : Prop := {
  grant_cidr : parse_cidr (ip_cidr pool) = Ok (net, pre);
  grant_wf : wf_ip ip;
  grant_in : cidr_contains net pre ip = true;
  grant_usable : ∀ label name, usable_slot label name net pre ip = Some (Ok ());
  grant_free : free U H (ip_exclusions pool) ip = true
}.

Lemma probe_pool_sound U H pool ip :
  probe_pool U H pool = Found ip → ∃ net pre, grant U H pool net pre ip.
Proof.
  unfold probe_pool. destruct (parse_cidr (ip_cidr pool)) as [[net pre]|] eqn:Hc; [|done].
  pose proof (parse_cidr_block _ _ _ Hc) as Hb. destruct net as [n|n].
  - destruct (usable_v4_range n pre) as [f l] eqn:Hu. pose proof (usable_bounds _ _ _ _ Hb Hu) as Hr.
    destruct (probe_v4 _ _ _ _ f l) as [ip'|] eqn:Hpr; [|done]. intros [= <-].
    apply probe_v4_sound in Hpr as (v & -> & Hv & Hf); [|lia].
    assert (is_u32 v) as Hw by (eapply contains_wf; [done|lia]).
    exists (V4 n), pre. constructor; [done..| | |done].
    + apply contains_range; [done..|]. simpl. split; [done|lia].
    + intros label name. simpl. rw Hu. rw (proj2 (Z.ltb_ge _ _)); [|lia]. by rw (proj2 (Z.ltb_ge _ _)); [|lia].
  - intros Hpr. destruct Hb as [Hw _ _]. simpl in Hw. unfold is_u128 in Hw.
    apply probe_v6_sound in Hpr as (v & -> & Hv & Hin & Hf); [|lia..].
    exists (V6 n), pre. constructor; [done|simpl; mlia|done| |done].
    intros label name. simpl. by rw (proj2 (Z.eqb_neq _ _)); [|lia].
Qed.

Lemma probe_pools_sound U H pools ip :
  probe_pools U H pools = Some ip → ∃ pool net pre, pool ∈ pools ∧ grant U H pool net pre ip.
Proof.
  induction pools as [|pool pools IH]; simpl; [done|].
  destruct (probe_pool U H pool) eqn:Hp; [|intros (q & net & pre & Hq & ?)%IH|done].
  - intros [= <-]. apply probe_pool_sound in Hp as (net & pre & Hg). exists pool, net, pre.
    split; [constructor|done].
  - exists q, net, pre. split; [by constructor|done].
Qed.

Lemma not_excluded ip exclusions :
  Forall (λ e, is_ok (exclusion_matches ip e) = true) exclusions → excluded ip exclusions = false →
  any_exclusion ip exclusions = Ok false.
Proof.
  unfold excluded. induction 1 as [|e l He _ IH]; simpl; [done|].
  destruct (exclusion_matches ip e) as [m|]; [|done]. simpl. intros [-> Hn]%orb_false_iff. by apply IH.
Qed.

(** Whatever is allocated may be handed out: the address comes from one of
    the pools, reads back from its text, equals no used address and no address
    held by a reservation that is not released, in any spelling; and, when the
    pool's exclusions are well formed, it passes the reservation check, so it is
    inside the pool, not excluded, and neither its network nor its broadcast
    address. *)
Theorem allocation_is_valid used pools reservations s
    (Hs : allocate_from_pools used pools reservations = Some s) :
  ∃ pool ip, pool ∈ pools ∧ parse_ip s = Some ip ∧
    (∀ u, u ∈ used → parse_ip (trim u) ≠ Some ip) ∧
    (∀ r, r ∈ reservations → rv_state r ≠ Released → parse_ip (trim (rv_address r)) ≠ Some ip) ∧
    (Forall (λ e, is_ok (exclusion_matches ip e) = true) (ip_exclusions pool) →
     validate_reservation [pool] s = Ok ()).
Proof.
  unfold allocate_from_pools in Hs. apply fmap_Some in Hs as (ip & Hip & ->).
  apply probe_pools_sound in Hip as (pool & net & pre & Hin & [Hc Hw Hcont Hus Hf]).
  exists pool, ip. unfold free in Hf. to_prop.
  assert (parse_ip (show_ip ip) = Some ip) as Hps by by apply parse_show_ip.
  split_and!; [done|done|..].
  - intros u Hu Hp. apply H. unfold used_set. apply elem_of_list_to_set, list_elem_of_omap. eauto.
  - intros r Hr Hst Hp. apply H1. unfold held_set. apply elem_of_list_to_set, list_elem_of_omap.
    exists r. split; [|done]. apply list_elem_of_In, filter_In. split; [by apply list_elem_of_In|].
    by rw bool_decide_false.
  - intros Hex. unfold validate_reservation. rw trim_graphic; [|apply show_ip_graphic].
    rw Hps /= Hc /= Hcont /=. rw not_excluded //. simpl. by rw Hus.
Qed.

Lemma allocation_is_valid_witness :
  validate_reservation [mkIpamPool (lit "a") (lit "10.0.0.0/29") [lit "10.0.0.2/31"]] (lit "10.0.0.4") = Ok ().
Proof.
  destruct (allocation_is_valid [lit " 10.0.0.1"]
    [mkIpamPool (lit "a") (lit "10.0.0.0/29") [lit "10.0.0.2/31"]] [] (lit "10.0.0.4"))
    as (pool & ip & Hin & Hip & _ & _ & Hv); [by vm_compute|].
  apply list_elem_of_singleton in Hin as ->. apply Hv. repeat constructor.
Defined.

(** ** Containment in a supernet *)

Lemma last_address net d :
  0 ≤ d → 0 ≤ val net → val net + d < 2 ^ width net →
  ∃ ip, wf_ip ip ∧ same_family net ip = true ∧ val ip = val net + d.
Proof.
  intros Hd Hn Hb. destruct net as [n|n]; [exists (V4 (n + d))|exists (V6 (n + d))]; simpl in *;
    (split; [mlia|done]).
Qed.

Lemma within_range net pre snet spre :
  block net pre → block snet spre →
  same_family net snet && (spre <=? pre) && cidr_contains snet spre net = true ↔
  ∀ ip, wf_ip ip → cidr_contains net pre ip = true → cidr_contains snet spre ip = true.
Proof.
  intros Hb Hs. split.
  - intros H ip Hw Hc. to_prop. destruct Hb as [Hwn Hpn _], Hs as [Hws Hps _].
    apply contains_div in Hc as [Hf Hc]; [|done..]. apply contains_div in H0 as [Hf0 H0]; [|done..].
    apply contains_div; [done..|]. rw same_family_spec in Hf. rw same_family_spec in Hf0.
    split; [apply same_family_spec; congruence|]. rw H0. apply same_family_width in H as Hwid.
    rw -Hwid. apply (div_coarser (width net) pre spre); [lia..|done].
  - intros Hsub. pose proof (Hsub net (block_wf _ _ Hb) (contains_self net pre Hb)) as Hnet.
    assert (same_family net snet = true) as Hfam.
    { apply contains_div in Hnet as [Hf _]; [|apply Hs|apply Hb|apply Hs].
      apply same_family_spec. symmetry. by apply same_family_spec. }
    rw Hfam Hnet. simpl. rw andb_true_r. apply Z.leb_le. apply Z.nlt_ge. intros Hlt.
    pose proof (block_pre _ _ Hb) as Hp. pose proof (block_pre _ _ Hs) as Hps.
    pose proof (block_range _ _ Hb) as Hr. pose proof (wf_range net (block_wf _ _ Hb)) as Hwn.
    pose proof (same_family_width _ _ Hfam) as Hwid.
    assert (0 < 2 ^ (width net - spre)) by (apply Z.pow_pos_nonneg; lia).
    assert (2 * 2 ^ (width net - spre) ≤ 2 ^ (width net - pre)) as Hbig.
    { rw -Z.pow_succ_r; [|lia]. apply Z.pow_le_mono_r; lia. }
    destruct (last_address net (2 ^ (width net - pre) - 1)) as (ip & Hw & Hf & Hv); [lia..|].
    apply contains_range in Hnet as [_ Hn]; [|done|apply Hb].
    assert (cidr_contains snet spre ip = true) as Hc.
    { apply Hsub; [done|]. apply contains_range; [done..|]. split; [done|lia]. }
    apply contains_range in Hc as [_ Hc]; [|done..]. rw -Hwid in Hn. rw -Hwid in Hc. lia.
Qed.

(** [pools_within_supernet] is exact: with a well-formed supernet it succeeds
    exactly when every pool's CIDR parses and every address of every pool is an
    address of the supernet. *)
Theorem pools_within_supernet_exact pools supernet snet spre
    (Hs : parse_cidr supernet = Ok (snet, spre)) :
  pools_within_supernet pools supernet = Ok () ↔
  Forall (λ pool, ∃ net pre, parse_cidr (ip_cidr pool) = Ok (net, pre) ∧
    ∀ ip, wf_ip ip → cidr_contains net pre ip = true → cidr_contains snet spre ip = true) pools.
Proof.
  unfold pools_within_supernet. rw Hs. simpl. rw try_each_ok. apply Forall_iff. intros pool.
  unfold pool_within. apply parse_cidr_block in Hs.
  destruct (parse_cidr (ip_cidr pool)) as [[net pre]|] eqn:Hc; simpl;
    [|split; [done|by intros (? & ? & ? & _)]].
  pose proof (within_range net pre snet spre (parse_cidr_block _ _ _ Hc) Hs) as Hwr.
  destruct (same_family net snet && (spre <=? pre) && cidr_contains snet spre net); simpl.
  - split; [|done]. intros _. exists net, pre. split; [done|]. by apply Hwr.
  - split; [done|]. intros (n & p & [= <- <-] & Hsub). by apply Hwr in Hsub.
Qed.

Lemma pools_within_supernet_exact_witness :
  pools_within_supernet [mkIpamPool (lit "a") (lit "10.1.0.0/16") []] (lit "10.0.0.0/8") = Ok () ∧
  ∃ net pre, parse_cidr (lit "10.1.0.0/16") = Ok (net, pre) ∧
    ∀ ip, wf_ip ip → cidr_contains net pre ip = true → cidr_contains (V4 167772160) 8 ip = true.
Proof.
  assert (pools_within_supernet [mkIpamPool (lit "a") (lit "10.1.0.0/16") []] (lit "10.0.0.0/8") = Ok ())
    as Hok by by vm_compute.
  split; [exact Hok|].
  apply (pools_within_supernet_exact _ _ (V4 167772160) 8) in Hok; [|by vm_compute].
  by apply Forall_cons in Hok as [Hp _].
Defined.

End IpamProps.
