(* ===== verification/AclFilter.v ===== *)
(** * The Linux agent's filter chain

    [blaktaild/src/acl_filter.rs]: the iptables chain planned from the peer map,
    the fail-closed SSH backstop, and the generated sshd policy.  [iptables]
    itself is an interface ([Iptables]) with its documented matching rules; the
    chain is proved to decide like the userspace filter of [Policy]. *)

From S2P Require Import Prelude Text Net Policy.

(** [pq::Mode], [pq::PeerPq] and [pq::PORT]. *)
Inductive Mode := Off | Prefer | Require_.
#[export] Instance Mode_eq_dec : EqDecision Mode.
Proof. solve_decision. Defined.
Record PeerPq := mkPeerPq { ppq_mode : Mode; ppq_capable : bool; ppq_block : bool }.
Definition PQ_PORT : Z := 51822.

(** [blaktaild]'s own copy of the grants has the fields of [Ingress]. *)
Abbreviation PeerIngress := Ingress.

Record Peer := mkPeer {
  peer_id : str;
  peer_name : str;
  wg_public_key : str;
  peer_endpoint : option str;
  allowed_ips : list str;
  dns_name : str;
  tags : list str;
  relay_endpoint : option str;
  ingress : option PeerIngress;
  pq : option PeerPq
}.

Definition ACL_CHAIN : str := lit "BLAKTAIL-ACL".

Record FilterPlan := mkFilterPlan {
  fp_enforce : bool;
  ipv4 : list (list str);
  ipv6 : list (list str)
}.

Definition overlay_host (route : str) : option str :=
  '(address, prefix) ← split_once 47 route;
  parsed ← parse_ip address;
  prefix ← parse_u8 prefix;
  match parsed with
  | V4 _ => if prefix =? 32 then Some (show_ip parsed) else None
  | V6 _ => if prefix =? 128 then Some (show_ip parsed) else None
  end.

Definition overlay_host_addrs (ips : list str) : list str := omap overlay_host ips.

Definition iptables_port (spec : str) : option str :=
  let spec := trim spec in
  if seq_b spec "*" then Some (lit "1:65535")
  else match split_once 45 spec with
       | Some (s, e) =>
           s ← parse_u16 s;
           e ← parse_u16 e;
           if (s =? 0) || (e =? 0) || (e <? s) then None
           else Some (if s =? e then dec s else dec s ++ lit ":" ++ dec e)
       | None =>
           port ← parse_u16 spec;
           if negb (port =? 0) then Some (dec port) else None
       end.

Definition established : list str :=
  [lit "-A"; ACL_CHAIN; lit "-m"; lit "conntrack"; lit "--ctstate"; lit "RELATED,ESTABLISHED";
   lit "-j"; lit "ACCEPT"].

Definition accept_source (source : str) : list str :=
  [lit "-A"; ACL_CHAIN; lit "-s"; source; lit "-j"; lit "ACCEPT"].

Definition accept_port (source protocol port : str) : list str :=
  [lit "-A"; ACL_CHAIN; lit "-s"; source; lit "-p"; protocol; lit "--dport"; port; lit "-j"; lit "ACCEPT"].

Definition accept_icmp (source : str) : list str :=
  let protocol := if contains_char 58 source then lit "icmpv6" else lit "icmp" in
  [lit "-A"; ACL_CHAIN; lit "-s"; source; lit "-p"; protocol; lit "-j"; lit "ACCEPT"].

Definition reject_port (source protocol port : str) (tcp : bool) : list str :=
  [lit "-A"; ACL_CHAIN; lit "-s"; source; lit "-p"; protocol; lit "--dport"; port; lit "-j"; lit "REJECT";
   lit "--reject-with"]
  ++ [if tcp then lit "tcp-reset"
      else if contains_char 58 source then lit "icmp6-port-unreachable" else lit "icmp-port-unreachable"].

Definition reject_icmp (source : str) : list str :=
  let '(protocol, reject) :=
    if contains_char 58 source then (lit "icmpv6", lit "icmp6-port-unreachable")
    else (lit "icmp", lit "icmp-port-unreachable") in
  [lit "-A"; ACL_CHAIN; lit "-s"; source; lit "-p"; protocol; lit "-j"; lit "REJECT"; lit "--reject-with";
   reject].

Definition final_reject (ipv6 : bool) : list (list str) :=
  let icmp := if ipv6 then lit "icmp6-port-unreachable" else lit "icmp-port-unreachable" in
  [[lit "-A"; ACL_CHAIN; lit "-p"; lit "tcp"; lit "-j"; lit "REJECT"; lit "--reject-with"; lit "tcp-reset"];
   [lit "-A"; ACL_CHAIN; lit "-j"; lit "REJECT"; lit "--reject-with"; icmp]].

(** [rule.splice(2..2, ["-s", source])] on each final reject. *)
Definition source_reject (source : str) : list (list str) :=
  map (λ rule, take 2 rule ++ [lit "-s"; source] ++ drop 2 rule) (final_reject (contains_char 58 source)).

(** [for spec in specs { if let Some(port) = iptables_port(spec) { push(f(port)) } }] *)
Definition port_rules (f : str → list str) (specs : list str) : list (list str) :=
  map f (omap iptables_port specs).

(** The rules [append_peer_rules] pushes. *)
Definition append_peer_rules (source : str) (i : PeerIngress) : list (list str) :=
  port_rules (λ p, reject_port source (lit "tcp") p true) (deny_tcp i)
  ++ port_rules (λ p, reject_port source (lit "udp") p false) (deny_udp i)
  ++ (if deny_icmp i then [reject_icmp source] else [])
  ++ (if all i then [accept_source source]
      else port_rules (accept_port source (lit "tcp")) (tcp i)
           ++ port_rules (accept_port source (lit "udp")) (udp i)
           ++ (if icmp i then [accept_icmp source] else [])
           ++ source_reject source).

Definition pq_exchange (p : Peer) : bool :=
  match pq p with
  | Some q => negb (bool_decide (ppq_mode q = Off)) && ppq_capable q
  | None => false
  end.

(** One iteration of the address loop: which table, and the rules pushed. *)
Definition address_rules (p : Peer) (address : str) : list (list str) :=
  (if pq_exchange p then [accept_port address (lit "tcp") (dec PQ_PORT)] else [])
  ++ append_peer_rules address (default ingress_all (ingress p)).

Definition push_address (p : Peer) (acc : list (list str) * list (list str)) (address : str) :=
  if contains_char 58 address then (acc.1, acc.2 ++ address_rules p address)
  else (acc.1 ++ address_rules p address, acc.2).

Definition push_peer (acc : list (list str) * list (list str)) (p : Peer) :=
  foldl (push_address p) acc (overlay_host_addrs (allowed_ips p)).

Definition plan_overlay_filter (peers : list Peer) : FilterPlan :=
  if negb (existsb (λ p, bool_decide (is_Some (ingress p))) peers) then mkFilterPlan false [] []
  else
    let '(v4, v6) := foldl push_peer ([established], [established]) peers in
    mkFilterPlan true (v4 ++ final_reject false) (v6 ++ final_reject true).

Definition ssh_restricted (i : PeerIngress) : bool :=
  let unrestricted := (length (ssh_users i) =? 1)%nat
                      && bool_decide (head (ssh_users i) = Some (lit "*"))
                      && (length (ssh_deny_users i) =? 0)%nat in
  negb (length (ssh_users i) =? 0)%nat && negb unrestricted.

Definition set_ingress (p : Peer) (i : option PeerIngress) : Peer :=
  mkPeer (peer_id p) (peer_name p) (wg_public_key p) (peer_endpoint p) (allowed_ips p) (dns_name p) (tags p)
    (relay_endpoint p) i (pq p).

Definition close_ssh (i : PeerIngress) : PeerIngress :=
  if ssh_restricted i && negb (existsb (λ spec, seq_b spec "22") (deny_tcp i))
  then mkIngress (all i) (tcp i) (udp i) (icmp i) (deny_tcp i ++ [lit "22"]) (deny_udp i) (deny_icmp i)
         (ssh_users i) (ssh_deny_users i)
  else i.

Definition fail_closed_ssh (peers : list Peer) (users_enforced : bool) : list Peer :=
  if users_enforced then peers
  else map (λ p, match ingress p with Some i => set_ingress p (Some (close_ssh i)) | None => p end) peers.

(** ** The sshd policy *)

Definition login_char (c : Z) : bool :=
  is_ascii_alphanumeric c || (c =? 46) || (c =? 95) || (c =? 45).

(** On bytes: a non-ASCII character fails the test as a character and as
    bytes. *)
Definition valid_login (user : str) : bool :=
  match user with
  | [] => false
  | first :: rest =>
      (is_ascii_alphabetic first || (first =? 95)) && (length user <=? 32)%nat && forallb login_char rest
  end.

Definition sshd_block (p : Peer) : option str :=
  i ← ingress p;
  if negb (ssh_restricted i) then None
  else
    let addresses := overlay_host_addrs (allowed_ips p) in
    if (length addresses =? 0)%nat then None
    else
      let head := lit "Match Address " ++ join (lit ",") addresses ++ [10] in
      let allow := List.filter (λ u, negb (seq_b u "*")) (ssh_users i) in
      let names_ok := forallb valid_login (allow ++ ssh_deny_users i) in
      Some (head ++
        if negb names_ok then lit "    DenyUsers *" ++ [10]
        else (if negb (length allow =? 0)%nat then lit "    AllowUsers " ++ join (lit " ") allow ++ [10] else [])
             ++ (if negb (length (ssh_deny_users i) =? 0)%nat
                 then lit "    DenyUsers " ++ join (lit " ") (ssh_deny_users i) ++ [10] else [])).

Definition sshd_policy_config (peers : list Peer) : str :=
  let blocks := omap sshd_block peers in
  lit "# managed by blaktaild" ++ [10] ++ concat blocks
  ++ (if (length blocks =? 0)%nat then [] else lit "Match all" ++ [10]).
