(* ===== verification/AclProps.v ===== *)
(** * The Linux chain and the userspace filter agree

    What [iptables] promises about the argument vectors the agent writes, and
    the proof that the planned chain gives every new flow the verdict of the
    userspace policy. *)

From S2P Require Import Prelude Text Net Policy AclFilter.

(** ** The interface to iptables *)

(** The first packet of a flow that is neither established nor related. *)
Record NewPacket := mkNewPacket { np_source : IpAddr; np_proto : Z; np_port : Z }.

Inductive proto_name := PTcp | PUdp | PIcmp | PIcmpv6.

Definition proto_text (p : proto_name) : str :=
  match p with
  | PTcp => lit "tcp" | PUdp => lit "udp" | PIcmp => lit "icmp" | PIcmpv6 => lit "icmpv6"
  end.
Definition proto_number (p : proto_name) : Z :=
  match p with PTcp => TCP | PUdp => UDP | PIcmp => ICMP | PIcmpv6 => ICMPV6 end.

Definition port_text (r : Z * Z) : str :=
  if r.1 =? r.2 then dec r.1 else dec r.1 ++ lit ":" ++ dec r.2.

(** A rule's matches and target, as iptables writes them. *)
Record Match := mkMatch {
  m_source : option IpAddr;
  m_proto : option proto_name;
  m_ports : option (Z * Z)
}.
Inductive Target := Accept | Reject (reason : str).

Definition match_args (m : Match) : list str :=
  match m_source m with Some a => [lit "-s"; show_ip a] | None => [] end
  ++ match m_proto m with Some p => [lit "-p"; proto_text p] | None => [] end
  ++ match m_ports m with Some r => [lit "--dport"; port_text r] | None => [] end.

Definition target_args (t : Target) : list str :=
  match t with
  | Accept => [lit "-j"; lit "ACCEPT"]
  | Reject r => [lit "-j"; lit "REJECT"; lit "--reject-with"; r]
  end.

Definition rule_args (m : Match) (t : Target) : list str :=
  [lit "-A"; ACL_CHAIN] ++ match_args m ++ target_args t.

Definition valid_match (m : Match) : Prop :=
  match m_source m with Some a => wf_ip a | None => True end ∧
  match m_ports m with
  | Some (lo, hi) => 1 ≤ lo ≤ hi ∧ hi ≤ U16_MAX ∧ (m_proto m = Some PTcp ∨ m_proto m = Some PUdp)
  | None => True
  end.

Definition matches (m : Match) (p : NewPacket) : bool :=
  match m_source m with Some a => bool_decide (np_source p = a) | None => true end
  && match m_proto m with Some q => np_proto p =? proto_number q | None => true end
  && match m_ports m with Some r => in_range r (np_port p) | None => true end.

Definition target_accepts (t : Target) : bool := match t with Accept => true | Reject _ => false end.

(** What the agent relies on: a rule decides exactly the packets all of its
    matches match, and the conntrack rule does not match a new flow. *)
Class Iptables := {
  rule_verdict : list str → NewPacket → option bool;
  rule_verdict_args : ∀ m t p, valid_match m →
    rule_verdict (rule_args m t) p = if matches m p then Some (target_accepts t) else None;
  rule_verdict_established : ∀ p, rule_verdict established p = None
}.

(** A chain decides by its first rule with a verdict. *)
Fixpoint chain_verdict `{Iptables} (rules : list (list str)) (p : NewPacket) : option bool :=
  match rules with
  | [] => None
  | r :: rules => match rule_verdict r p with Some v => Some v | None => chain_verdict rules p end
  end.

(** The plan's verdict: the chain of the packet's family; a packet no rule
    decides returns to the calling chain. *)
Definition plan_accepts `{Iptables} (plan : FilterPlan) (p : NewPacket) : bool :=
  if negb (fp_enforce plan) then true
  else default true (chain_verdict (if is_ipv6 (np_source p) then ipv6 plan else ipv4 plan) p).

(** ** Texts *)

Lemma contains_colon_v4 a : is_u32 a → contains_char 58 (show_v4 a) = false.
Proof.
  intros Ha. apply contains_char_false. unfold show_v4, v4_octets.
  assert (∀ l, wf_bytes l → Forall (λ c, c ≠ 58) (join (lit ".") (map dec l))) as Hj; [|by intros Hin; pose proof (proj1 (Forall_forall _ _) (Hj _ (be_bytes_wf 4 a)) 58 Hin)].
  intros l Hl. induction Hl as [|o l Ho Hl IH]; [constructor|]. cbn [map]. rw join_cons.
  apply Forall_app; split.
  - eapply Forall_impl; [apply dec_digits; mlia|]. simpl. lia.
  - destruct l; [constructor|]. apply Forall_app; split; [|done]. by repeat constructor.
Qed.

Lemma contains_colon_v6 a : contains_char 58 (show_v6 a) = true.
Proof.
  apply contains_char_true. unfold show_v6. destruct (to_ipv4_mapped a).
  { apply elem_of_app. left. by vm_compute; constructor. }
  destruct (zero_run 0 0 0 0 0 (segments a)) as [start n]. case_match.
  - apply elem_of_app. right. apply elem_of_app. left. by constructor.
  - pose proof (length_be_limbs 65536 8 a) as Hl. fold (segments a) in Hl. unfold show_groups.
    destruct (segments a) as [|g1 [|g2 gs]]; [done..|]. cbn [map]. rw join_cons.
    apply elem_of_app. right. apply elem_of_app. left. by constructor.
Qed.

Lemma contains_colon a : wf_ip a → contains_char 58 (show_ip a) = is_ipv6 a.
Proof. destruct a; intros Ha; [by apply contains_colon_v4|apply contains_colon_v6]. Qed.

(** Both agents read a port specification the same way. *)
Lemma iptables_port_range spec : iptables_port spec = port_text <$> port_range spec.
Proof.
  unfold iptables_port, port_range. destruct (seq_b (trim spec) "*"); [done|].
  destruct (split_once 45 (trim spec)) as [[s e]|].
  - destruct (parse_u16 s) as [lo|]; simpl; [|done]. destruct (parse_u16 e) as [hi|]; simpl; [|done].
    unfold port_text. destruct (lo =? 0) eqn:?, (hi =? 0) eqn:?; simpl; try done.
    destruct (Z.ltb_spec hi lo), (Z.leb_spec lo hi); try lia; done.
  - destruct (parse_u16 (trim spec)) as [port|]; simpl; [|done].
    destruct (port =? 0); simpl; [done|]. unfold port_text. simpl. by rw Z.eqb_refl.
Qed.

(** ** Verdicts of the generated rules *)

Section chain.
Context `{Iptables}.
Context (p : NewPacket) (Hport : is_u16 (np_port p)).
Import PolicySpec PolicyProps.

Lemma chain_app r1 r2 : chain_verdict (r1 ++ r2) p = or_else (chain_verdict r1 p) (chain_verdict r2 p).
Proof using. induction r1 as [|r r1 IH]; simpl; [done|]. by destruct (rule_verdict r p). Qed.

(** Rules over the port specifications of one protocol. *)
Lemma chain_ports (f : str → list str) pn t a specs :
  wf_ip a → (pn = PTcp ∨ pn = PUdp) →
  (∀ r, f (port_text r) = rule_args (mkMatch (Some a) (Some pn) (Some r)) t) →
  chain_verdict (port_rules f specs) p =
  if bool_decide (np_source p = a) && ((np_proto p =? proto_number pn) && lists_port specs (np_port p))
  then Some (target_accepts t) else None.
Proof using.
  intros Ha Hpn Hf. unfold port_rules, lists_port. induction specs as [|s specs IH]; simpl.
  { by rw !andb_false_r. }
  rw iptables_port_range. destruct (port_range s) as [[lo hi]|] eqn:Hr; simpl; [|done].
  apply port_range_bounds in Hr.
  assert (valid_match (mkMatch (Some a) (Some pn) (Some (lo, hi)))) as Hv.
  { split; simpl; [done|]. destruct Hpn as [-> | ->]; split_and!; try lia; auto. }
  rw Hf rule_verdict_args //.
  unfold matches. simpl. rw IH.
  destruct (bool_decide _), (np_proto p =? _), (in_range (lo, hi) _); done.
Qed.

Lemma chain_icmp (b : bool) rule t a :
  wf_ip a → rule = rule_args (mkMatch (Some a) (Some (if is_ipv6 a then PIcmpv6 else PIcmp)) None) t →
  chain_verdict (if b then [rule] else []) p =
  if bool_decide (np_source p = a) && ((np_proto p =? (if is_ipv6 a then ICMPV6 else ICMP)) && b)
  then Some (target_accepts t) else None.
Proof using.
  intros Ha ->. destruct b; simpl; [|by rw !andb_false_r]. rw rule_verdict_args; [|done].
  unfold matches. simpl. destruct (is_ipv6 a); destruct (bool_decide _), (np_proto p =? _); done.
Qed.

(** The denies as the chain writes them, with port 22 already closed. *)
Definition chain_denies (i : Ingress) (proto port : Z) : bool :=
  ((proto =? TCP) && lists_port (deny_tcp i) port)
  || ((proto =? UDP) && lists_port (deny_udp i) port)
  || (is_icmp proto && deny_icmp i).

Definition chain_decides (i : Ingress) (pq : option Z) (proto port : Z) : bool :=
  if pq_opens pq proto port then true
  else if chain_denies i proto port then false
  else grants i proto port.

(** An ICMP packet is of its address family. *)
Context (Hfam : is_icmp (np_proto p) = (np_proto p =? (if is_ipv6 (np_source p) then ICMPV6 else ICMP))).

Lemma chain_rest a :
  wf_ip a →
  chain_verdict (source_reject (show_ip a)) p = if bool_decide (np_source p = a) then Some false else None.
Proof using.
  intros Ha. unfold source_reject, final_reject. cbn [map take drop app].
  change (chain_verdict [?r1; ?r2] p) with
    (match rule_verdict r1 p with Some v => Some v | None =>
       match rule_verdict r2 p with Some v => Some v | None => None end end).
  set (icmp := if contains_char _ _ then _ else _).
  change [lit "-A"; ACL_CHAIN; lit "-s"; show_ip a; lit "-p"; lit "tcp"; lit "-j"; lit "REJECT";
    lit "--reject-with"; lit "tcp-reset"]
    with (rule_args (mkMatch (Some a) (Some PTcp) None) (Reject (lit "tcp-reset"))).
  change [lit "-A"; ACL_CHAIN; lit "-s"; show_ip a; lit "-j"; lit "REJECT"; lit "--reject-with"; icmp]
    with (rule_args (mkMatch (Some a) None None) (Reject icmp)).
  rw !rule_verdict_args //. unfold matches. simpl. by destruct (bool_decide _), (np_proto p =? TCP).
Qed.

Lemma chain_accept_source a :
  wf_ip a →
  chain_verdict [accept_source (show_ip a)] p = if bool_decide (np_source p = a) then Some true else None.
Proof using.
  intros Ha. unfold accept_source. simpl.
  change [lit "-A"; ACL_CHAIN; lit "-s"; show_ip a; lit "-j"; lit "ACCEPT"]
    with (rule_args (mkMatch (Some a) None None) Accept).
  rw rule_verdict_args //. unfold matches. simpl. by destruct (bool_decide _).
Qed.

(** What the rules of one address decide, segment by segment. *)
Definition segment (hit v : bool) : option bool := if hit then Some v else None.

Definition address_verdict (own : bool) (i : Ingress) : option bool :=
  let icmp_hit b := own && ((np_proto p =? (if is_ipv6 (np_source p) then ICMPV6 else ICMP)) && b) in
  let port_hit n specs := own && ((np_proto p =? n) && lists_port specs (np_port p)) in
  or_else (segment (port_hit TCP (deny_tcp i)) false)
    (or_else (segment (port_hit UDP (deny_udp i)) false)
       (or_else (segment (icmp_hit (deny_icmp i)) false)
          (if all i then segment own true
           else or_else (segment (port_hit TCP (tcp i)) true)
                  (or_else (segment (port_hit UDP (udp i)) true)
                     (or_else (segment (icmp_hit (icmp i)) true) (segment own false)))))).

Lemma own_icmp a b :
  bool_decide (np_source p = a) && ((np_proto p =? (if is_ipv6 a then ICMPV6 else ICMP)) && b) =
  bool_decide (np_source p = a) && ((np_proto p =? (if is_ipv6 (np_source p) then ICMPV6 else ICMP)) && b).
Proof using. destruct (bool_decide (np_source p = a)) eqn:Hs; [|done]. to_prop. by rw Hs. Qed.

Lemma chain_segments a i :
  wf_ip a →
  chain_verdict (append_peer_rules (show_ip a) i) p = address_verdict (bool_decide (np_source p = a)) i.
Proof using.
  intros Ha. unfold append_peer_rules. rw !chain_app.
  rw (chain_ports _ PTcp (Reject (lit "tcp-reset")) a); [|done|by left|done].
  rw (chain_ports _ PUdp (Reject (if contains_char 58 (show_ip a) then lit "icmp6-port-unreachable"
                                  else lit "icmp-port-unreachable")) a); [|done|by right|done].
  rw (chain_icmp _ _ (Reject (if is_ipv6 a then lit "icmp6-port-unreachable"
                              else lit "icmp-port-unreachable")) a); [|done|].
  2: { unfold reject_icmp. rw contains_colon //. by destruct (is_ipv6 a). }
  assert (∀ rules, chain_verdict (if all i then [accept_source (show_ip a)] else rules) p =
    if all i then (if bool_decide (np_source p = a) then Some true else None) else chain_verdict rules p) as ->.
  { intros rules. destruct (all i); [by apply chain_accept_source|done]. }
  rw !chain_app chain_rest //.
  rw (chain_ports (accept_port (show_ip a) (lit "tcp")) PTcp Accept a); [|done|by left|done].
  rw (chain_ports (accept_port (show_ip a) (lit "udp")) PUdp Accept a); [|done|by right|done].
  rw (chain_icmp _ _ Accept a); [|done|].
  2: { unfold accept_icmp. rw contains_colon //. by destruct (is_ipv6 a). }
  by rw !own_icmp.
Qed.

Lemma address_verdict_decides own i :
  address_verdict own i = if own then Some (chain_decides i None (np_proto p) (np_port p)) else None.
Proof using Hfam.
  unfold address_verdict, chain_decides, chain_denies, grants, segment. rw Hfam. destruct own; simpl.
  - repeat (case_match; simpl; try done).
  - by destruct (all i).
Qed.

Lemma chain_peer a i :
  wf_ip a →
  chain_verdict (append_peer_rules (show_ip a) i) p =
  if bool_decide (np_source p = a) then Some (chain_decides i None (np_proto p) (np_port p)) else None.
Proof using Hfam. intros Ha. rw chain_segments //. apply address_verdict_decides. Qed.

Definition linux_pq (peer : Peer) : option Z := if pq_exchange peer then Some PQ_PORT else None.

Definition linux_decides (peer : Peer) : bool :=
  chain_decides (default ingress_all (ingress peer)) (linux_pq peer) (np_proto p) (np_port p).

Lemma chain_address peer a :
  wf_ip a →
  chain_verdict (address_rules peer (show_ip a)) p =
  if bool_decide (np_source p = a) then Some (linux_decides peer) else None.
Proof using Hfam.
  intros Ha. unfold address_rules, linux_decides, linux_pq. rw chain_app chain_peer //.
  destruct (pq_exchange peer); simpl; [|done].
  change (accept_port (show_ip a) (lit "tcp") (dec PQ_PORT))
    with (rule_args (mkMatch (Some a) (Some PTcp) (Some (PQ_PORT, PQ_PORT))) Accept).
  rw rule_verdict_args; [|split; simpl; [done|]; split_and!; [by vm_compute..|by left]].
  unfold matches, chain_decides, pq_opens, in_range. simpl.
  assert ((PQ_PORT <=? np_port p) && (np_port p <=? PQ_PORT) = (np_port p =? PQ_PORT)) as -> by lia.
  by destruct (bool_decide _), (np_proto p =? TCP), (np_port p =? PQ_PORT).
Qed.

Lemma chain_addresses peer l :
  Forall wf_ip l →
  chain_verdict (flat_map (λ a, address_rules peer (show_ip a)) l) p =
  if bool_decide (np_source p ∈ l) then Some (linux_decides peer) else None.
Proof using Hfam.
  induction 1 as [|a l Ha _ IH]; [done|]. cbn [flat_map].
  rw chain_app chain_address // IH.
  assert (bool_decide (np_source p ∈ a :: l) = bool_decide (np_source p = a) || bool_decide (np_source p ∈ l)) as ->.
  { apply eq_true_iff_eq. rw orb_true_iff !bool_decide_eq_true. apply elem_of_cons. }
  by destruct (bool_decide (np_source p = a)).
Qed.

End chain.

(** ** The plan *)

Definition overlay_ip (route : str) : option IpAddr :=
  '(address, prefix) ← split_once 47 route;
  parsed ← parse_ip address;
  prefix ← parse_u8 prefix;
  if prefix =? (if is_ipv4 parsed then 32 else 128) then Some parsed else None.

Definition overlay_ips (peer : Peer) : list IpAddr := omap overlay_ip (allowed_ips peer).

Lemma overlay_hosts_show ips : overlay_host_addrs ips = map show_ip (omap overlay_ip ips).
Proof.
  unfold overlay_host_addrs.
  assert (∀ r, overlay_host r = show_ip <$> overlay_ip r) as Hr.
  { intros r. unfold overlay_host, overlay_ip. destruct (split_once 47 r) as [[a b]|]; simpl; [|done].
    destruct (parse_ip a) as [ip|]; simpl; [|done]. destruct (parse_u8 b) as [n|]; simpl; [|done].
    destruct ip; simpl; by destruct (n =? _). }
  induction ips as [|r ips IH]; simpl; [done|]. rw Hr. by destruct (overlay_ip r); simpl; f_equal.
Qed.

Lemma overlay_ips_wf peer : Forall wf_ip (overlay_ips peer).
Proof.
  unfold overlay_ips. apply Forall_forall. intros ip (r & _ & Hr)%list_elem_of_omap.
  unfold overlay_ip in Hr. destruct (split_once 47 r) as [[a b]|]; simpl in Hr; [|done].
  destruct (parse_ip a) as [ip'|] eqn:Ha; simpl in Hr; [|done].
  destruct (parse_u8 b); simpl in Hr; [|done]. case_match; [|done]. simplify_eq.
  by eapply parse_ip_wf.
Qed.

(** The rules of one family, peer by peer. *)
Definition family_rules (v6 : bool) (peers : list Peer) : list (list str) :=
  flat_map (λ peer, flat_map (λ a, address_rules peer (show_ip a))
                      (List.filter (λ a, Bool.eqb (is_ipv6 a) v6) (overlay_ips peer))) peers.

Lemma push_addresses peer l acc :
  Forall wf_ip l →
  foldl (push_address peer) acc (map show_ip l) =
  (acc.1 ++ flat_map (λ a, address_rules peer (show_ip a)) (List.filter (λ a, Bool.eqb (is_ipv6 a) false) l),
   acc.2 ++ flat_map (λ a, address_rules peer (show_ip a)) (List.filter (λ a, Bool.eqb (is_ipv6 a) true) l)).
Proof.
  intros Hl. revert acc; induction Hl as [|a l Ha _ IH]; intros [r4 r6]; simpl; [by rw !app_nil_r|].
  rw IH. unfold push_address. rw contains_colon //. destruct (is_ipv6 a); simpl; by rw -app_assoc.
Qed.

Lemma plan_peers peers acc :
  foldl push_peer acc peers = (acc.1 ++ family_rules false peers, acc.2 ++ family_rules true peers).
Proof.
  revert acc; induction peers as [|peer peers IH]; intros acc; simpl; [rw !app_nil_r; by destruct acc|].
  rw IH. unfold push_peer. rw overlay_hosts_show push_addresses; [|apply overlay_ips_wf]. simpl.
  by rw -!app_assoc.
Qed.

(** The first peer that owns the source decides. *)
Fixpoint owner_decides (p : NewPacket) (peers : list Peer) : option bool :=
  match peers with
  | [] => None
  | peer :: peers =>
      if bool_decide (np_source p ∈ overlay_ips peer) then Some (linux_decides p peer)
      else owner_decides p peers
  end.

Lemma final_rejects `{Iptables} b p : chain_verdict (final_reject b) p = Some false.
Proof.
  unfold final_reject. simpl.
  change [lit "-A"; ACL_CHAIN; lit "-p"; lit "tcp"; lit "-j"; lit "REJECT"; lit "--reject-with"; lit "tcp-reset"]
    with (rule_args (mkMatch None (Some PTcp) None) (Reject (lit "tcp-reset"))).
  set (icmp := if b then _ else _).
  change [lit "-A"; ACL_CHAIN; lit "-j"; lit "REJECT"; lit "--reject-with"; icmp]
    with (rule_args (mkMatch None None None) (Reject icmp)).
  rw !rule_verdict_args //. unfold matches. simpl. by destruct (np_proto p =? TCP).
Qed.

Lemma plan_chain `{Iptables} peers p :
  plan_accepts (plan_overlay_filter peers) p =
  if existsb (λ q, bool_decide (is_Some (ingress q))) peers
  then default false (chain_verdict (family_rules (is_ipv6 (np_source p)) peers) p) else true.
Proof.
  unfold plan_overlay_filter. destruct (existsb _ peers); simpl; [|done]. rw plan_peers. unfold plan_accepts. simpl.
  assert (∀ b, chain_verdict ((established :: family_rules b peers) ++ final_reject b) p =
    PolicyProps.or_else (chain_verdict (family_rules b peers) p) (Some false)) as Hall.
  { intros b. rw chain_app final_rejects. simpl. by rw rule_verdict_established. }
  destruct (is_ipv6 (np_source p)); simpl in *; rw Hall; by destruct (chain_verdict _ p).
Qed.

Lemma plan_decides `{Iptables} peers p :
  PolicySpec.is_icmp (np_proto p) = (np_proto p =? (if is_ipv6 (np_source p) then ICMPV6 else ICMP)) →
  plan_accepts (plan_overlay_filter peers) p =
  if existsb (λ q, bool_decide (is_Some (ingress q))) peers
  then default false (owner_decides p peers) else true.
Proof.
  intros Hfam. rw plan_chain. destruct (existsb _ peers); [|done]. f_equal.
  unfold family_rules. induction peers as [|peer peers IH]; simpl; [done|].
  rw chain_app chain_addresses //.
  2: { apply Forall_forall. intros a [Ha _]%list_elem_of_In%filter_In.
       by apply (proj1 (Forall_forall _ _) (overlay_ips_wf peer)), list_elem_of_In. }
  rw IH. assert (np_source p ∈ List.filter (λ a, Bool.eqb (is_ipv6 a) (is_ipv6 (np_source p))) (overlay_ips peer)
                 ↔ np_source p ∈ overlay_ips peer) as Hin.
  { rw !list_elem_of_In filter_In eqb_true_iff. tauto. }
  rw (bool_decide_ext _ _ Hin). by destruct (bool_decide _).
Qed.

(** ** Agreement with the userspace filter *)

Definition mode_text (m : Mode) : str :=
  match m with Off => lit "off" | Prefer => lit "prefer" | Require_ => lit "require" end.

(** The same peer as the userspace hosts read it from the peer map. *)
Definition to_policy_peer (p : Peer) : PolicyPeer :=
  mkPolicyPeer (peer_id p) (allowed_ips p) (ingress p)
    ((λ q, mkPqHint (mode_text (ppq_mode q)) (ppq_capable q)) <$> pq p).

(** A route without blanks around its address and prefix. *)
Definition tidy_route (r : str) : Prop :=
  ∀ a b, split_once 47 r = Some (a, b) → trim a = a ∧ trim b = b.

Fixpoint separate_hosts (peers : list Peer) : Prop :=
  match peers with
  | [] => True
  | p :: peers => Forall (λ q, ∀ a, a ∈ overlay_ips p → a ∉ overlay_ips q) peers ∧ separate_hosts peers
  end.

Lemma host_agree r : tidy_route r → Prefix.parse r ≫= Prefix.host = overlay_ip r.
Proof.
  intros Hr. unfold overlay_ip, Prefix.parse. destruct (split_once 47 r) as [[a b]|] eqn:Hs; simpl; [|done].
  destruct (Hr a b Hs) as [-> ->]. destruct (parse_ip a) as [ip|]; simpl; [|done].
  destruct (parse_u8 b) as [n|]; simpl; [|done].
  destruct (Z.leb_spec n (if is_ipv4 ip then 32 else 128)) as [Hle|Hgt]; simpl; [done|].
  rw (proj2 (Z.eqb_neq n _)); [done|lia].
Qed.

Lemma hosts_agree p :
  Forall tidy_route (allowed_ips p) → PolicySpec.peer_hosts (to_policy_peer p) = overlay_ips p.
Proof.
  unfold PolicySpec.peer_hosts, overlay_ips. simpl. induction 1 as [|r l Hr _ IH]; [done|].
  simpl. rw -(host_agree r Hr). destruct (Prefix.parse r) as [pre|]; simpl; [|exact IH].
  destruct (Prefix.host pre); simpl; [f_equal|]; exact IH.
Qed.

Lemma pq_agree p : pq_exchange p = Policy.pq_applies (to_policy_peer p).
Proof.
  unfold pq_exchange, Policy.pq_applies. simpl. destruct (pq p) as [[m c b]|]; simpl; [|done].
  by destruct m, c.
Qed.

Definition closed (p : Peer) : Peer :=
  match ingress p with Some i => set_ingress p (Some (close_ssh i)) | None => p end.

Lemma close_ssh_decides i pq proto port :
  chain_decides (close_ssh i) pq proto port =
  default false (PolicySpec.ingress_verdict i pq proto port).
Proof.
  unfold chain_decides, PolicySpec.ingress_verdict.
  assert (chain_denies (close_ssh i) proto port = PolicySpec.denies i proto port) as ->.
  { unfold chain_denies, PolicySpec.denies. rw -PolicyProps.lists_port_ssh. unfold close_ssh.
    change (ssh_restricted i) with (Policy.ssh_restricted i).
    by destruct (Policy.ssh_restricted i && negb _). }
  assert (PolicySpec.grants (close_ssh i) proto port = PolicySpec.grants i proto port) as ->.
  { unfold close_ssh. by destruct (ssh_restricted i && negb _). }
  by repeat case_match.
Qed.

(** The peers as the Linux agent plans them. *)
Definition planned (users_enforced : bool) (q : Peer) : Peer := if users_enforced then q else closed q.

Lemma fail_closed_planned users_enforced peers : fail_closed_ssh peers users_enforced = map (planned users_enforced) peers.
Proof. destruct users_enforced; [symmetry; apply map_id|done]. Qed.

(** The two flows only the Linux chain lets in, from a peer [q]: the key exchange on
    its own port, and SSH when [sshd] itself holds the grant to its users. *)
Definition exchange_flow (q : Peer) (proto port : Z) : bool := pq_exchange q && (proto =? TCP) && (port =? PQ_PORT).

Definition sshd_flow (users_enforced : bool) (q : Peer) (proto port : Z) : bool :=
  users_enforced && (proto =? TCP) && (port =? 22)
  && match ingress q with
     | Some i => Policy.ssh_restricted i && negb (PolicySpec.lists_port (deny_tcp i) 22) && PolicySpec.grants i TCP 22
     | None => false
     end.

Definition linux_only (users_enforced : bool) (p : NewPacket) (q : Peer) : bool :=
  bool_decide (np_source p ∈ overlay_ips q)
  && (exchange_flow q (np_proto p) (np_port p) || sshd_flow users_enforced q (np_proto p) (np_port p)).

Lemma verdict_opens_pq i pq proto port :
  default false (PolicySpec.ingress_verdict i pq proto port) =
  PolicySpec.pq_opens pq proto port || default false (PolicySpec.ingress_verdict i None proto port).
Proof. unfold PolicySpec.ingress_verdict. simpl. by destruct (PolicySpec.pq_opens pq proto port). Qed.

Lemma enforced_decides i pq proto port :
  chain_decides i pq proto port =
  default false (PolicySpec.ingress_verdict i None proto port) || PolicySpec.pq_opens pq proto port
  || (proto =? TCP) && (port =? 22) && (Policy.ssh_restricted i && negb (PolicySpec.lists_port (deny_tcp i) 22) && PolicySpec.grants i TCP 22).
Proof.
  unfold chain_decides, PolicySpec.ingress_verdict, chain_denies, PolicySpec.denies. cbn [PolicySpec.pq_opens].
  destruct (PolicySpec.pq_opens pq proto port); [by rw orb_true_r|]. rw orb_false_r.
  destruct (Z.eqb_spec proto TCP) as [->|]; [|cbn [andb orb]; rw orb_false_r; by repeat case_match].
  change (TCP =? UDP) with false. change (PolicySpec.is_icmp TCP) with false. cbn [andb orb].
  destruct (Z.eqb_spec port 22) as [->|]; rw ?andb_false_r ?andb_true_r ?orb_false_r; [|by repeat case_match].
  by destruct (PolicySpec.lists_port (deny_tcp i) 22), (Policy.ssh_restricted i), (PolicySpec.grants i TCP 22).
Qed.

Lemma planned_decides users_enforced p q :
  linux_decides p (planned users_enforced q) =
  default false (PolicySpec.peer_verdict None (to_policy_peer q) (np_proto p) (np_port p))
  || (exchange_flow q (np_proto p) (np_port p) || sshd_flow users_enforced q (np_proto p) (np_port p)).
Proof.
  assert (PolicySpec.pq_opens (linux_pq q) (np_proto p) (np_port p) = exchange_flow q (np_proto p) (np_port p)) as Hpq.
  { unfold linux_pq, exchange_flow. by destruct (pq_exchange q). }
  unfold PolicySpec.peer_verdict. assert ((if Policy.pq_applies (to_policy_peer q) then None else None) = @None Z) as -> by by destruct (Policy.pq_applies _).
  unfold linux_decides, planned, sshd_flow. destruct users_enforced; cbn [andb].
  - rw enforced_decides Hpq -orb_assoc. simpl. destruct (ingress q); [done|]. simpl. by rw andb_false_r.
  - assert (linux_pq (closed q) = linux_pq q) as -> by (unfold closed; by destruct (ingress q)).
    rw orb_false_r. unfold closed. simpl. destruct (ingress q) as [i|] eqn:Hi; simpl.
    + by rw close_ssh_decides verdict_opens_pq Hpq orb_comm.
    + rw Hi. simpl. pose proof (close_ssh_decides ingress_all (linux_pq q) (np_proto p) (np_port p)) as H.
      change (close_ssh ingress_all) with ingress_all in H. by rw H verdict_opens_pq Hpq orb_comm.
Qed.

Lemma closed_hosts q : overlay_ips (closed q) = overlay_ips q.
Proof. unfold closed. by destruct (ingress q). Qed.

Lemma planned_hosts users_enforced q : overlay_ips (planned users_enforced q) = overlay_ips q.
Proof. destruct users_enforced; [done|apply closed_hosts]. Qed.

Lemma owner_agree users_enforced p peers :
  Forall (λ q, Forall tidy_route (allowed_ips q)) peers → separate_hosts peers →
  default false (owner_decides p (map (planned users_enforced) peers)) =
  match PolicySpec.peers_verdict None (map to_policy_peer peers) (np_source p) (np_proto p) (np_port p)
  with Some (_, v) => v | None => false end || existsb (linux_only users_enforced p) peers.
Proof.
  assert (∀ peers, Forall (λ q, Forall tidy_route (allowed_ips q)) peers →
    Forall (λ q, np_source p ∉ overlay_ips q) peers →
    PolicySpec.peers_verdict None (map to_policy_peer peers) (np_source p) (np_proto p) (np_port p) = None ∧
    existsb (linux_only users_enforced p) peers = false) as Hnone.
  { induction 1 as [|q l Ht _ IH]; simpl; [done|]. intros [Hq Hl]%Forall_cons. unfold linux_only at 1.
    rw hosts_agree // bool_decide_false //. by apply IH. }
  induction 1 as [|q l Ht Hl IH]; simpl; [done|]. intros [Hsep Hrest]. unfold linux_only at 1. rw planned_hosts hosts_agree //.
  destruct (decide (np_source p ∈ overlay_ips q)) as [Hin|Hnin].
  - rw bool_decide_true //. simpl. rw planned_decides.
    destruct (Hnone l Hl) as [-> ->]; [eapply Forall_impl; [exact Hsep|]; intros q' Hq'; by apply Hq'|].
    rw orb_false_r. by destruct (PolicySpec.peer_verdict _ _ _ _).
  - rw bool_decide_false //. by apply IH.
Qed.

(** [C3] One policy, two filters: for a peer map whose peers own distinct tidy
    addresses, and for every new flow that is not ICMP of the other address family,
    the iptables chain the Linux agent plans lets in what the userspace filter of the
    phone and desktop clients (compiled without a key exchange port, as they do) lets
    in, and besides it exactly two kinds of flow: TCP to the key exchange port from a
    peer that takes part in the exchange, and, when [sshd] enforces the users of a
    limited SSH grant, TCP to port 22 from a peer with such a grant.  When it does
    not, the chain closes the port as the userspace filter does. *)
Theorem linux_chain_matches_userspace `{Iptables} (peers : list Peer) (users_enforced : bool) (p : NewPacket)
    (Htidy : Forall (λ q, Forall tidy_route (allowed_ips q)) peers) (Hsep : separate_hosts peers)
    (Hfam : PolicySpec.is_icmp (np_proto p)
            = (np_proto p =? (if is_ipv6 (np_source p) then ICMPV6 else ICMP))) :
  plan_accepts (plan_overlay_filter (fail_closed_ssh peers users_enforced)) p =
  (Policy.decide (Policy.compile (map to_policy_peer peers) None) (np_source p) (np_proto p) (np_port p)).1
  || existsb (linux_only users_enforced p) peers.
Proof.
  unfold Policy.decide. rw PolicyProps.compile_decision plan_decides // fail_closed_planned.
  assert (existsb (λ q, bool_decide (is_Some (ingress q))) (map (planned users_enforced) peers)
          = PolicySpec.enforcing (map to_policy_peer peers)) as ->.
  { unfold PolicySpec.enforcing. clear. induction peers as [|q l IH]; simpl; [done|]. rw IH. f_equal.
    unfold planned, closed. destruct users_enforced; [done|]. destruct (ingress q) eqn:Hi; simpl; by rw ?Hi. }
  destruct (PolicySpec.enforcing _); [|done]. rw owner_agree //.
  by destruct (PolicySpec.peers_verdict _ _ _ _ _) as [[? ?]|].
Qed.

(** ** A concrete iptables *)

(** Reads the matches of an argument vector left to right, as the agent writes
    them; [ok] says whether everything so far matched. *)
Definition read_port (v : str) : option (Z * Z) :=
  match split_once 58 v with
  | Some (a, b) => lo ← parse_u16 a; hi ← parse_u16 b; Some (lo, hi)
  | None => lo ← parse_u16 v; Some (lo, lo)
  end.

Fixpoint read_args (args : list str) (p : NewPacket) (ok : bool) : option bool :=
  match args with
  | f :: v :: rest =>
      if seq_b f "-j" then (if ok then Some (seq_b v "ACCEPT") else None)
      else if seq_b f "-s" then read_args rest p (ok && bool_decide (parse_ip v = Some (np_source p)))
      else if seq_b f "-p" then
        read_args rest p (ok && existsb (λ q, bool_decide (v = proto_text q) && (np_proto p =? proto_number q))
                                  [PTcp; PUdp; PIcmp; PIcmpv6])
      else if seq_b f "--dport" then
        read_args rest p (ok && match read_port v with Some r => in_range r (np_port p) | None => false end)
      else None
  | _ => None
  end.

Definition simple_verdict (rule : list str) (p : NewPacket) : option bool := read_args (drop 2 rule) p true.

Lemma read_port_text lo hi : 1 ≤ lo ≤ hi → hi ≤ U16_MAX → read_port (port_text (lo, hi)) = Some (lo, hi).
Proof.
  intros Hl Hh. unfold read_port, port_text. simpl.
  assert (∀ z, 0 ≤ z → 58 ∉ dec z) as Hd.
  { intros z Hz Hin. pose proof (proj1 (Forall_forall _ _) (dec_digits z Hz) 58 Hin). simpl in *. lia. }
  destruct (Z.eqb_spec lo hi) as [->|Hne].
  - rw split_once_None; [|apply Hd; lia]. unfold parse_u16. by rw parse_uint_dec; [|lia].
  - change (lit ":") with [58]. cbn [app]. rw split_once_app; [|apply Hd; lia].
    unfold parse_u16. by rw !parse_uint_dec; [|lia..].
Qed.

Lemma simple_verdict_args m t p :
  valid_match m →
  simple_verdict (rule_args m t) p = if matches m p then Some (target_accepts t) else None.
Proof.
  assert (∀ ok, read_args (target_args t) p ok = if ok then Some (target_accepts t) else None) as Ht.
  { intros ok. by destruct t, ok. }
  assert (∀ ok rest a, wf_ip a → read_args (lit "-s" :: show_ip a :: rest) p ok =
    read_args rest p (ok && bool_decide (np_source p = a))) as Hsrc.
  { intros ok rest a Ha. simpl. rw parse_show_ip //. do 2 f_equal. apply bool_decide_ext. naive_solver. }
  assert (∀ ok rest q, read_args (lit "-p" :: proto_text q :: rest) p ok =
    read_args rest p (ok && (np_proto p =? proto_number q))) as Hproto.
  { intros ok rest q. destruct q; simpl; by rw ?andb_false_r ?orb_false_r ?andb_true_r. }
  assert (∀ ok rest lo hi, 1 ≤ lo ≤ hi → hi ≤ U16_MAX →
    read_args (lit "--dport" :: port_text (lo, hi) :: rest) p ok =
    read_args rest p (ok && in_range (lo, hi) (np_port p))) as Hdport.
  { intros ok rest lo hi H1 H2. simpl. by rw read_port_text. }
  destruct m as [src pr ports]. intros [Hs Hp]. simpl in Hs, Hp.
  unfold simple_verdict, rule_args, match_args, matches. cbn [app drop m_source m_proto m_ports].
  destruct src as [a|]; cbn [app]; [rw Hsrc //|];
    (destruct pr as [q|]; cbn [app]; [rw Hproto|]);
    (destruct ports as [[lo hi]|]; cbn [app]; [rw Hdport; [|tauto..]|]); rw Ht; try done.
  all: by rw ?andb_true_r ?andb_true_l.
Qed.

#[export] Instance simple_iptables : Iptables := {
  rule_verdict := simple_verdict;
  rule_verdict_args := simple_verdict_args;
  rule_verdict_established := λ p, eq_refl
}.

(** The drop-in SSH port and a plain grant, for two peers. *)
Definition sample_ingress : Ingress :=
  mkIngress false [lit "22"; lit "8000-8100"] [] true [lit "8080"] [] false [lit "deploy"] [].
Definition sample_peer (ip : str) (i : option Ingress) : Peer :=
  mkPeer (lit "p") (lit "n") (lit "k") None [ip] [] [] None i (Some (mkPeerPq Prefer true false)).
Definition sample_peers : list Peer :=
  [sample_peer (lit "100.64.0.2/32") (Some sample_ingress); sample_peer (lit "fd00::3/128") None].

(** A port both filters open, and the SSH port, which only a chain backed by [sshd] opens. *)
Lemma linux_chain_matches_userspace_witness :
  let flow port := mkNewPacket (V4 1681915906) TCP port in
  plan_accepts (plan_overlay_filter (fail_closed_ssh sample_peers false)) (flow 8001) = true ∧
  plan_accepts (plan_overlay_filter (fail_closed_ssh sample_peers false)) (flow 22) = false ∧
  plan_accepts (plan_overlay_filter (fail_closed_ssh sample_peers true)) (flow 22) = true.
Proof.
  intros flow.
  assert (∀ e port, plan_accepts (plan_overlay_filter (fail_closed_ssh sample_peers e)) (flow port) =
    (Policy.decide (Policy.compile (map to_policy_peer sample_peers) None) (V4 1681915906) TCP port).1
    || existsb (linux_only e (flow port)) sample_peers) as H.
  { intros e port. apply (linux_chain_matches_userspace sample_peers e (flow port)).
    - repeat first [apply Forall_nil_2 | apply Forall_cons_2]; intros a b; vm_compute; by intros [= <- <-].
    - split; [|split; [apply Forall_nil_2|done]]. apply Forall_cons_2; [|apply Forall_nil_2].
      assert (∀ a, a ∈ [V4 1681915906] → a ∉ [V6 336294682933583715844663186250927177731]) as Hd.
      { intros a Ha Hb. apply list_elem_of_singleton in Ha as ->. by apply list_elem_of_singleton in Hb. }
      exact Hd.
    - by vm_compute. }
  split_and!; rewrite H; by vm_compute.
Defined.

(** ** The sshd policy cannot be injected into *)

Definition safe_names (us : list str) : Prop := us ≠ [] ∧ Forall (λ u, valid_login u = true) us.

(** The lines the agent means to write. *)
Inductive policy_line : str → Prop :=
| line_banner : policy_line (lit "# managed by blaktaild")
| line_match ips : ips ≠ [] → policy_line (lit "Match Address " ++ join (lit ",") (map show_ip ips))
| line_allow us : safe_names us → policy_line (lit "    AllowUsers " ++ join (lit " ") us)
| line_deny us : safe_names us → policy_line (lit "    DenyUsers " ++ join (lit " ") us)
| line_deny_all : policy_line (lit "    DenyUsers *")
| line_all : policy_line (lit "Match all").

Lemma valid_login_no_newline u : valid_login u = true → 10 ∉ u.
Proof.
  unfold valid_login, login_char, is_ascii_alphanumeric, is_ascii_alphabetic, is_ascii_lowercase,
    is_ascii_uppercase, is_ascii_digit. destruct u as [|c u]; [done|]. intros Hv Hin. to_prop.
  apply elem_of_cons in Hin as [<-|Hin]; [done|]. apply list_elem_of_In in Hin.
  rw forallb_forall in H0. by apply H0 in Hin.
Qed.

Lemma graphic_no_newline s : Forall graphic s → 10 ∉ s.
Proof. intros Hs Hin. pose proof (proj1 (Forall_forall _ _) Hs 10 Hin). unfold graphic in *. lia. Qed.

(** One line followed by a newline. *)
Lemma policy_line_no_newline l : policy_line l → 10 ∉ l.
Proof.
  destruct 1 as [|ips Hn|us [_ Hu]|us [_ Hu]| |]; try by apply contains_char_false.
  - apply not_elem_of_app; split; [by apply contains_char_false|].
    apply not_in_join; [by apply contains_char_false|]. apply Forall_map, Forall_forall. intros a _.
    apply graphic_no_newline, show_ip_graphic.
  - apply not_elem_of_app; split; [by apply contains_char_false|].
    apply not_in_join; [by apply contains_char_false|]. eapply Forall_impl; [exact Hu|]. apply valid_login_no_newline.
  - apply not_elem_of_app; split; [by apply contains_char_false|].
    apply not_in_join; [by apply contains_char_false|]. eapply Forall_impl; [exact Hu|]. apply valid_login_no_newline.
Qed.

(** A text made of whole policy lines. *)
Definition policy_text (s : str) : Prop :=
  ∃ ls, Forall policy_line ls ∧ s = flat_map (λ l, l ++ [10]) ls.

Lemma policy_text_nil : policy_text [].
Proof. by exists []. Qed.

Lemma policy_text_one l : policy_line l → policy_text (l ++ [10]).
Proof. intros Hl. exists [l]. split; [by constructor|]. simpl. by rw app_nil_r. Qed.

Lemma policy_text_two a b : policy_line (a ++ b) → policy_text (a ++ b ++ [10]).
Proof. intros Hl. rw app_assoc. by apply policy_text_one. Qed.

Lemma policy_text_app s t : policy_text s → policy_text t → policy_text (s ++ t).
Proof.
  intros (l1 & H1 & ->) (l2 & H2 & ->). exists (l1 ++ l2). split; [by apply Forall_app|].
  by rw flat_map_app.
Qed.

Lemma names_safe us : negb (length us =? 0)%nat = true → forallb valid_login us = true → safe_names us.
Proof.
  intros Hn Hv. split; [by destruct us|]. apply Forall_forall. intros u Hu%list_elem_of_In.
  by rw forallb_forall in Hv; apply Hv.
Qed.

Lemma sshd_block_text p s : sshd_block p = Some s → policy_text s.
Proof.
  unfold sshd_block. destruct (ingress p) as [i|]; [|done]. cbn [mbind option_bind].
  destruct (ssh_restricted i); cbn [negb]; [|done]. rw overlay_hosts_show.
  destruct (length (map show_ip _) =? 0)%nat eqn:Hl; [done|]. intros <-%(inj Some). to_prop.
  set (allow := List.filter _ _).
  apply policy_text_app; [apply policy_text_two, line_match; intros Hn; by rw Hn in Hl|].
  destruct (forallb valid_login (allow ++ ssh_deny_users i)) eqn:Hv; cbn [negb].
  2: { apply (policy_text_one (lit "    DenyUsers *")). constructor. }
  rw forallb_app in Hv. to_prop. apply policy_text_app.
  - destruct (negb (length allow =? 0)%nat) eqn:Hn; [|apply policy_text_nil].
    by apply policy_text_two, line_allow, names_safe.
  - destruct (negb (length (ssh_deny_users i) =? 0)%nat) eqn:Hn; [|apply policy_text_nil].
    by apply policy_text_two, line_deny, names_safe.
Qed.

Lemma policy_text_split s l : policy_text s → l ∈ split 10 s → l = [] ∨ policy_line l.
Proof.
  intros (ls & Hls & ->). induction Hls as [|x ls Hx _ IH]; simpl.
  - intros ->%list_elem_of_singleton. by left.
  - rw -app_assoc. change ([10] ++ ?r) with (10 :: r). rw split_app; [|by apply policy_line_no_newline].
    intros [->|Hl]%elem_of_cons; [by right|by apply IH].
Qed.

(** No login name can inject sshd configuration.  Whatever names the policy
    carries, every line of the generated file is the banner, a [Match Address] of
    printed addresses, an [AllowUsers] or [DenyUsers] of plain login names, the
    [DenyUsers *] that replaces a block with any other name, or the final
    [Match all]. *)
Theorem sshd_policy_not_injectable (peers : list Peer) (line : str)
    (Hline : line ∈ split 10 (sshd_policy_config peers)) :
  line = [] ∨ policy_line line.
Proof.
  revert Hline. apply policy_text_split. unfold sshd_policy_config.
  rw app_assoc. apply policy_text_app; [apply policy_text_one; constructor|]. apply policy_text_app.
  - induction peers as [|p peers IH]; simpl; [apply policy_text_nil|].
    destruct (sshd_block p) as [s|] eqn:Hb; simpl; [|done].
    apply policy_text_app; [by eapply sshd_block_text|done].
  - case_match; [apply policy_text_nil|].
    apply policy_text_one. constructor.
Qed.

Lemma sshd_policy_not_injectable_witness :
  let evil := mkIngress true [] [] false [] [] false
                [lit "ok" ++ [10] ++ lit "PermitRootLogin yes"] [] in
  let config := sshd_policy_config [sample_peer (lit "100.64.0.2/32") (Some evil)] in
  split 10 config = [lit "# managed by blaktaild"; lit "Match Address 100.64.0.2"; lit "    DenyUsers *";
                     lit "Match all"; []] ∧
  (lit "    DenyUsers *" = [] ∨ policy_line (lit "    DenyUsers *")).
Proof.
  intros evil config. split; [by vm_compute|].
  apply (sshd_policy_not_injectable [sample_peer (lit "100.64.0.2/32") (Some evil)]).
  apply list_elem_of_In. vm_compute. tauto.
Defined.
