(* ===== verification/ForwardFilter.v ===== *)
(** * The forward allow-list of a routing peer

    [blaktaild/src/forward_filter.rs] and [drop_log_inserts] of
    [flow_capture.rs]: the planned rules for forwarded traffic, and their
    installation by a sequence of iptables commands.  A program that runs
    commands is a [Prog]: a command and what it does with the reply, so that
    every state it passes through can be observed.  What the commands do is the
    concern of [ForwardProps]. *)

From S2P Require Import Prelude Text Net AclFilter.

Definition FORWARD_CHAIN : str := lit "BLAKTAIL-FWD".
Definition STAGING_CHAIN : str := lit "BLAKTAIL-FWD-NEW".
Definition JUMP_COMMENT : str := lit "blaktail-forward".
Definition NFLOG_GROUP : Z := 7841.

Record ForwardRule := mkForwardRule {
  fr_client : str;
  fr_sources : list str;
  fr_destination : str;
  fr_all : bool;
  fr_tcp : list str;
  fr_udp : list str;
  fr_icmp : bool
}.

Record ForwardFilter := mkForwardFilter { ff_deny : list ForwardRule; ff_allow : list ForwardRule }.

Definition adopt (current incoming : option ForwardFilter) : option ForwardFilter :=
  match incoming with Some _ => incoming | None => current end.

Record ForwardPlan := mkForwardPlan { fwd4 : list (list str); fwd6 : list (list str) }.

Definition full_prefix (a : IpAddr) : Z := if is_ipv4 a then 32 else 128.

Definition parse (value : str) (host_only : bool) : option (IpAddr * Z) :=
  '(address, prefix) ←
    (match split_once 47 value with
     | Some (address, prefix) => a ← parse_ip address; p ← parse_u8 prefix; Some (a, p)
     | None => a ← parse_ip value; Some (a, full_prefix a)
     end);
  let max := full_prefix address in
  if (max <? prefix) || (host_only && negb (prefix =? max)) then None else Some (address, prefix).

Definition reject_with (ipv6 tcp : bool) : str :=
  if tcp then lit "tcp-reset" else if ipv6 then lit "icmp6-port-unreachable" else lit "icmp-port-unreachable".

Definition verdict_args (accept ipv6 tcp : bool) : list str :=
  [lit "-j"; if accept then lit "ACCEPT" else lit "REJECT"]
  ++ (if negb accept then [lit "--reject-with"; reject_with ipv6 tcp] else []).

(** The port of one rule: an unreadable deny denies the protocol, an unreadable
    allow grants nothing. *)
Definition entry_port (accept : bool) (spec : str) : option str :=
  match iptables_port spec with
  | Some port => Some port
  | None => if accept then None else Some (lit "1:65535")
  end.

Definition port_entries (base : list str) (accept ipv6 : bool) (protocol : str) (specs : list str) :
    list (list str) :=
  map (λ port, base ++ [lit "-p"; protocol; lit "--dport"; port]
               ++ verdict_args accept ipv6 (seq_b protocol "tcp"))
    (omap (entry_port accept) specs).

(** The rules one source of an entry adds, with its family. *)
Definition source_rules (entry : ForwardRule) (accept : bool) (network : IpAddr) (prefix : Z) (source : str) :
    option (bool * list (list str)) :=
  '(address, _) ← parse (trim source) true;
  if negb (Bool.eqb (is_ipv4 address) (is_ipv4 network)) then None
  else
    let ipv6 := is_ipv6 address in
    let base := [lit "-s"; show_ip address; lit "-d"; show_ip network ++ lit "/" ++ dec prefix] in
    Some (ipv6,
      if fr_all entry then [base ++ verdict_args accept ipv6 false]
      else port_entries base accept ipv6 (lit "tcp") (fr_tcp entry)
           ++ port_entries base accept ipv6 (lit "udp") (fr_udp entry)
           ++ (if fr_icmp entry
               then [base ++ [lit "-p"; if ipv6 then lit "icmpv6" else lit "icmp"]
                     ++ verdict_args accept ipv6 false]
               else [])).

Definition add_source (out : ForwardPlan) (rules : option (bool * list (list str))) : ForwardPlan :=
  match rules with
  | None => out
  | Some (ipv6, rs) =>
      if ipv6 : bool then mkForwardPlan (fwd4 out) (fwd6 out ++ rs) else mkForwardPlan (fwd4 out ++ rs) (fwd6 out)
  end.

Definition append_rules (accept : bool) (out : ForwardPlan) (entry : ForwardRule) : ForwardPlan :=
  match parse (trim (fr_destination entry)) false with
  | None => out
  | Some (network, prefix) =>
      foldl add_source out (map (source_rules entry accept network prefix) (fr_sources entry))
  end.

Definition fwd_established : list str :=
  [lit "-m"; lit "conntrack"; lit "--ctstate"; lit "RELATED,ESTABLISHED"; lit "-j"; lit "ACCEPT"].

Definition fwd_final (ipv6 : bool) : list (list str) :=
  [[lit "-p"; lit "tcp"; lit "-j"; lit "REJECT"; lit "--reject-with"; lit "tcp-reset"];
   [lit "-j"; lit "REJECT"; lit "--reject-with"; reject_with ipv6 false]].

Definition plan (filter : ForwardFilter) : ForwardPlan :=
  let out := mkForwardPlan [fwd_established] [fwd_established] in
  let out := foldl (append_rules false) out (ff_deny filter) in
  let out := foldl (append_rules true) out (ff_allow filter) in
  mkForwardPlan (fwd4 out ++ fwd_final false) (fwd6 out ++ fwd_final true).

Definition jump (interface chain op : str) : list str :=
  [op; lit "FORWARD"] ++ (if seq_b op "-I" then [lit "1"] else [])
  ++ [lit "-i"; interface; lit "-m"; lit "comment"; lit "--comment"; JUMP_COMMENT; lit "-j"; chain].

(** ** Log rules *)

Fixpoint position (x : str) (l : list str) : option nat :=
  match l with
  | [] => None
  | y :: l => if bool_decide (y = x) then Some O else S <$> position x l
  end.

(** [matches.windows(2).any(..)] *)
Fixpoint any_icmp (l : list str) : bool :=
  match l with
  | a :: ((b :: _) as rest) => (seq_b a "-p" && starts_with (lit "icmp") b) || any_icmp rest
  | _ => false
  end.

Definition log_insert (chain : str) (forward : bool) (pos : nat) (body : list str) : option (list str) :=
  at_ ← position (lit "-j") body;
  if negb (bool_decide (body !! S at_ = Some (lit "REJECT"))) then None
  else
    let matches := take at_ body in
    let explicit := if forward then bool_decide (lit "-d" ∈ matches)
                    else bool_decide (lit "--dport" ∈ matches) || any_icmp matches in
    let prefix := match forward, explicit with
                  | false, true => lit "bt:acl:deny-rule"
                  | false, false => lit "bt:acl:default"
                  | true, true => lit "bt:fwd:deny-rule"
                  | true, false => lit "bt:fwd:default"
                  end in
    Some ([lit "-I"; chain; dec (Z.of_nat pos)] ++ matches
          ++ [lit "-m"; lit "limit"; lit "--limit"; lit "50/second"; lit "--limit-burst"; lit "100";
              lit "-j"; lit "NFLOG"; lit "--nflog-group"; dec NFLOG_GROUP; lit "--nflog-prefix"; prefix]).

(** [index] counts bodies and [inserted] the rules inserted so far. *)
Fixpoint log_inserts (chain : str) (forward : bool) (index inserted : nat) (bodies : list (list str)) :
    list (list str) :=
  match bodies with
  | [] => []
  | body :: bodies =>
      match log_insert chain forward (index + 1 + inserted) body with
      | Some r => r :: log_inserts chain forward (S index) (S inserted) bodies
      | None => log_inserts chain forward (S index) inserted bodies
      end
  end.

Definition drop_log_inserts (chain : str) (bodies : list (list str)) (forward : bool) : list (list str) :=
  log_inserts chain forward 0 0 bodies.

(** ** Programs over the command runner *)

(** [Error::Message]. *)
Inductive Error := Message (s : str).

(** [Runner::run]: whether the command succeeded and its output, or [None]
    where it could not be started. *)
Definition Reply : Type := option (bool * str).

Inductive Prog (A : Type) :=
| Ret (a : A)
| Run (bin : str) (args : list str) (k : Reply → Prog A).
Arguments Ret {A} a.
Arguments Run {A} bin args k.

Fixpoint pbind {A B} (m : Prog A) (f : A → Prog B) : Prog B :=
  match m with
  | Ret a => f a
  | Run bin args k => Run bin args (λ r, pbind (k r) f)
  end.

Declare Scope prog_scope.
Delimit Scope prog_scope with prog.
Notation "'do' x <- m ; k" := (pbind m (λ x, k))
  (at level 100, x binder, m at next level, k at level 200, right associativity) : prog_scope.
Notation "'run' bin args ; k" := (Run bin args (λ _, k))
  (at level 100, bin at level 0, args at level 0, k at level 200, right associativity) : prog_scope.
(** [m?; k] *)
Notation "'try' m ; k" := (pbind m (λ r, match r with Ok _ => k | Err e => Ret (Err e) end))
  (at level 100, m at next level, k at level 200, right associativity) : prog_scope.
Open Scope prog_scope.

Definition succeeded (r : Reply) : bool := match r with Some (b, _) => b | None => false end.

Definition must (bin : str) (args : list str) : Prog (result Error unit) :=
  Run bin args (λ r,
    Ret (if succeeded r then Ok tt
         else Err (Message (bin ++ lit " " ++ join (lit " ") (take 2 args)
                            ++ lit " failed while installing the forward filter")))).

(** [for _ in 0..4 { runner.run(bin, args); }] *)
Definition run4 {A} (bin : str) (args : list str) (k : Prog A) : Prog A :=
  run bin args; run bin args; run bin args; run bin args; k.

(** Drops the jumps to [chain], then the chain. *)
Definition drop_chain {A} (bin interface chain : str) (k : Prog A) : Prog A :=
  run4 bin (jump interface chain (lit "-D"))
    (run bin [lit "-F"; chain]; run bin [lit "-X"; chain]; k).

Fixpoint append_all (bin chain : str) (rules : list (list str)) : Prog (result Error unit) :=
  match rules with
  | [] => Ret (Ok tt)
  | rule :: rules => try must bin ([lit "-A"; chain] ++ rule); append_all bin chain rules
  end.

(** The log inserts, up to the first that fails. *)
Fixpoint insert_logs (bin : str) (inserts : list (list str)) : Prog unit :=
  match inserts with
  | [] => Ret tt
  | args :: inserts => Run bin args (λ r, if succeeded r then insert_logs bin inserts else Ret tt)
  end.

(** The closure that builds the staging chain and jumps to it. *)
Definition staged (bin interface : str) (rules : list (list str)) : Prog (result Error unit) :=
  try must bin [lit "-N"; STAGING_CHAIN];
  try append_all bin STAGING_CHAIN rules;
  do _ <- insert_logs bin (drop_log_inserts STAGING_CHAIN rules true);
  must bin (jump interface STAGING_CHAIN (lit "-I")).

Definition install (bin interface : str) (rules : list (list str)) : Prog (result Error unit) :=
  drop_chain bin interface STAGING_CHAIN
    (do r <- staged bin interface rules;
     match r with
     | Err error => drop_chain bin interface STAGING_CHAIN (Ret (Err error))
     | Ok _ =>
         drop_chain bin interface FORWARD_CHAIN (must bin [lit "-E"; STAGING_CHAIN; FORWARD_CHAIN])
     end).

Definition clear (bin interface : str) : Prog unit :=
  drop_chain bin interface FORWARD_CHAIN (drop_chain bin interface STAGING_CHAIN (Ret tt)).

(** [RealBackend::install_forward_filter] and [clear_forward_filter]. *)
Definition install_forward_filter (forward_filter : option ForwardFilter) (interface : str) :
    Prog (result Error unit) :=
  match forward_filter with
  | None => Ret (Ok tt)
  | Some filter =>
      let plan := plan filter in
      try install (lit "iptables") interface (fwd4 plan);
      install (lit "ip6tables") interface (fwd6 plan)
  end.

Definition clear_forward_filter (interface : str) : Prog unit :=
  do _ <- clear (lit "iptables") interface;
  clear (lit "ip6tables") interface.
