(* ===== verification/ForwardProps.v ===== *)
(** * The forward allow-list decides as its filter says, and is replaced without a gap

    First what [iptables] promises about the planned rules, and the verdict of
    the planned chain.  Then what its commands do to the tables, and the states
    [install] passes through. *)

From S2P Require Import Prelude Text Net Policy AclFilter AclProps ForwardFilter.

(** ** Verdicts *)

(** The first packet of a forwarded flow. *)
Record FwdPacket := mkFwdPacket { fw_source : IpAddr; fw_dest : IpAddr; fw_proto : Z; fw_port : Z }.

Definition wf_packet (p : FwdPacket) : Prop :=
  is_ipv4 (fw_source p) = is_ipv4 (fw_dest p) ∧ is_u16 (fw_port p).

(** [a] agrees with the network's first [prefix] bits. *)
Definition in_network (network : IpAddr) (prefix : Z) (a : IpAddr) : bool :=
  match network, a with
  | V4 n, V4 i => n / 2 ^ (32 - prefix) =? i / 2 ^ (32 - prefix)
  | V6 n, V6 i => n / 2 ^ (128 - prefix) =? i / 2 ^ (128 - prefix)
  | _, _ => false
  end.

(** A rule's matches: its ends (source, destination network), protocol, ports. *)
Record FwdMatch := mkFwdMatch {
  fm_ends : option (IpAddr * (IpAddr * Z));
  fm_proto : option proto_name;
  fm_ports : option (Z * Z)
}.

Definition fwd_args (m : FwdMatch) : list str :=
  match fm_ends m with
  | Some (a, (n, prefix)) => [lit "-s"; show_ip a; lit "-d"; show_ip n ++ lit "/" ++ dec prefix]
  | None => []
  end
  ++ match fm_proto m with Some q => [lit "-p"; proto_text q] | None => [] end
  ++ match fm_ports m with Some r => [lit "--dport"; port_text r] | None => [] end.

Definition valid_fwd (m : FwdMatch) : Prop :=
  match fm_ends m with
  | Some (a, (n, prefix)) =>
      wf_ip a ∧ wf_ip n ∧ is_ipv4 a = is_ipv4 n ∧ 0 ≤ prefix ≤ full_prefix n
  | None => True
  end ∧
  match fm_ports m with
  | Some (lo, hi) => 1 ≤ lo ≤ hi ∧ hi ≤ U16_MAX ∧ (fm_proto m = Some PTcp ∨ fm_proto m = Some PUdp)
  | None => True
  end.

Definition fwd_matches (m : FwdMatch) (p : FwdPacket) : bool :=
  match fm_ends m with
  | Some (a, (n, prefix)) => bool_decide (fw_source p = a) && in_network n prefix (fw_dest p)
  | None => true
  end
  && match fm_proto m with Some q => fw_proto p =? proto_number q | None => true end
  && match fm_ports m with Some r => in_range r (fw_port p) | None => true end.

(** The target of a rule: the argument after [-j]. *)
Definition target (rule : list str) : option str := at_ ← position (lit "-j") rule; rule !! S at_.

(** What the agent relies on: a rule decides exactly the packets all of its
    matches match, the conntrack rule does not match a new flow, and [NFLOG]
    decides nothing. *)
Class IptablesForward := {
  fwd_verdict : list str → FwdPacket → option bool;
  fwd_verdict_args : ∀ m t p, valid_fwd m →
    fwd_verdict (fwd_args m ++ target_args t) p = if fwd_matches m p then Some (target_accepts t) else None;
  fwd_verdict_established : ∀ p, fwd_verdict fwd_established p = None;
  fwd_verdict_nflog : ∀ rule p, target rule = Some (lit "NFLOG") → fwd_verdict rule p = None
}.

Fixpoint fwd_chain `{IptablesForward} (rules : list (list str)) (p : FwdPacket) : option bool :=
  match rules with
  | [] => None
  | r :: rules => match fwd_verdict r p with Some v => Some v | None => fwd_chain rules p end
  end.

(** ** What a filter means *)

Module ForwardSpec.

(** A port in a readable specification, or any port of an unreadable deny. *)
Definition lists_port (accept : bool) (specs : list str) (port : Z) : bool :=
  existsb (λ spec, match port_range spec with
                   | Some r => in_range r port
                   | None => negb accept && (1 <=? port)
                   end) specs.

Definition service (accept : bool) (e : ForwardRule) (p : FwdPacket) : bool :=
  fr_all e
  || ((fw_proto p =? TCP) && lists_port accept (fr_tcp e) (fw_port p))
  || ((fw_proto p =? UDP) && lists_port accept (fr_udp e) (fw_port p))
  || ((fw_proto p =? (if is_ipv6 (fw_source p) then ICMPV6 else ICMP)) && fr_icmp e).

Definition from_client (e : ForwardRule) (a : IpAddr) : bool :=
  existsb (λ source, match parse (trim source) true with
                     | Some (b, _) => bool_decide (a = b)
                     | None => false
                     end) (fr_sources e).

Definition entry_covers (accept : bool) (e : ForwardRule) (p : FwdPacket) : bool :=
  match parse (trim (fr_destination e)) false with
  | Some (network, prefix) =>
      from_client e (fw_source p) && (in_network network prefix (fw_dest p) && service accept e p)
  | None => false
  end.

(** Deny entries win, then an allow entry must cover the packet. *)
Definition allows (f : ForwardFilter) (p : FwdPacket) : bool :=
  negb (existsb (λ e, entry_covers false e p) (ff_deny f)) && existsb (λ e, entry_covers true e p) (ff_allow f).

End ForwardSpec.

(** The table of a family. *)
Definition family (v6 : bool) (out : ForwardPlan) : list (list str) := if v6 then fwd6 out else fwd4 out.

(** ** The planned chain *)

Lemma parse_valid s host a prefix :
  parse s host = Some (a, prefix) → wf_ip a ∧ 0 ≤ prefix ≤ full_prefix a.
Proof.
  unfold parse. intros Hp.
  assert (∃ a' q, wf_ip a' ∧ 0 ≤ q ∧
    (if (full_prefix a' <? q) || (host && negb (q =? full_prefix a')) then None else Some (a', q))
    = Some (a, prefix)) as (a' & q & Ha & Hq & Hr).
  { destruct (split_once 47 s) as [[x y]|]; simpl in Hp.
    - destruct (parse_ip x) as [a'|] eqn:Hx; simpl in Hp; [|done].
      destruct (parse_u8 y) as [q|] eqn:Hy; simpl in Hp; [|done].
      apply parse_uint_bound in Hy; [|mlia..]. apply parse_ip_wf in Hx. exists a', q. split_and!; [done|lia|done].
    - destruct (parse_ip s) as [a'|] eqn:Hx; simpl in Hp; [|done]. apply parse_ip_wf in Hx.
      exists a', (full_prefix a'). split_and!; [done| |done]. by destruct a'. }
  case_match; [done|]. simplify_eq. to_prop. split; [done|]. lia.
Qed.

Lemma family_add v6 rules out :
  family v6 (foldl add_source out rules) =
  family v6 out ++ flat_map (λ r, match r with
                                  | Some (b, rs) => if Bool.eqb b v6 then rs else []
                                  | None => []
                                  end) rules.
Proof.
  revert out. induction rules as [|r rules IH]; intros out; simpl; [by rw app_nil_r|]. rw IH.
  destruct r as [[[] rs]|], v6; simpl; by rw ?app_assoc.
Qed.

(** The rules an entry adds to a family's table. *)
Definition entry_rules (v6 accept : bool) (e : ForwardRule) : list (list str) :=
  match parse (trim (fr_destination e)) false with
  | None => []
  | Some (network, prefix) =>
      flat_map (λ source, match source_rules e accept network prefix source with
                          | Some (b, rs) => if Bool.eqb b v6 then rs else []
                          | None => []
                          end) (fr_sources e)
  end.

Lemma family_append v6 accept es out :
  family v6 (foldl (append_rules accept) out es) = family v6 out ++ flat_map (entry_rules v6 accept) es.
Proof.
  revert out. induction es as [|e es IH]; intros out; simpl; [by rw app_nil_r|]. rw IH app_assoc. f_equal.
  unfold append_rules, entry_rules. destruct (parse _ _) as [[n q]|]; [|by rw app_nil_r].
  rw family_add flat_map_concat_map map_map -flat_map_concat_map. done.
Qed.

Section forward_chain.
Context `{IptablesForward}.
Context (p : FwdPacket).
Import ForwardSpec PolicyProps.

Lemma fwd_chain_app r1 r2 : fwd_chain (r1 ++ r2) p = or_else (fwd_chain r1 p) (fwd_chain r2 p).
Proof using. induction r1 as [|r r1 IH]; simpl; [done|]. by destruct (fwd_verdict r p). Qed.

Lemma fwd_chain_flat_map {A} (f : A → list (list str)) (g : A → bool) v l :
  (∀ x, fwd_chain (f x) p = if g x then Some v else None) →
  fwd_chain (flat_map f l) p = if existsb g l then Some v else None.
Proof using.
  intros Hf. induction l as [|x l IH]; simpl; [done|]. rw fwd_chain_app Hf IH. by destruct (g x).
Qed.

Lemma fwd_chain_one m t :
  valid_fwd m →
  fwd_chain [fwd_args m ++ target_args t] p = if fwd_matches m p then Some (target_accepts t) else None.
Proof using. intros Hm. cbn [fwd_chain]. rw fwd_verdict_args //. by case_match. Qed.

(** The target of an entry's rules. *)
Definition entry_target (accept ipv6 tcp : bool) : Target :=
  if accept then Accept else Reject (reject_with ipv6 tcp).

Lemma verdict_target accept ipv6 tcp : verdict_args accept ipv6 tcp = target_args (entry_target accept ipv6 tcp).
Proof using. by destruct accept. Qed.

Lemma entry_target_accepts accept ipv6 tcp : target_accepts (entry_target accept ipv6 tcp) = accept.
Proof using. by destruct accept. Qed.

Section ends.
Context (a network : IpAddr) (prefix : Z).
Context (Hends : valid_fwd (mkFwdMatch (Some (a, (network, prefix))) None None)).
Let base : list str := [lit "-s"; show_ip a; lit "-d"; show_ip network ++ lit "/" ++ dec prefix].
Let here : bool := bool_decide (fw_source p = a) && in_network network prefix (fw_dest p).

Lemma fwd_ports accept ipv6 q specs :
  q = PTcp ∨ q = PUdp → is_u16 (fw_port p) →
  fwd_chain (port_entries base accept ipv6 (proto_text q) specs) p =
  if here && ((fw_proto p =? proto_number q) && lists_port accept specs (fw_port p)) then Some accept else None.
Proof using Hends.
  intros Hq Hport. induction specs as [|s specs IH].
  { simpl. by rw !andb_false_r. }
  assert (∀ r, (∃ lo hi, r = (lo, hi) ∧ 1 ≤ lo ≤ hi ∧ hi ≤ U16_MAX) →
    fwd_chain [base ++ [lit "-p"; proto_text q; lit "--dport"; port_text r]
               ++ verdict_args accept ipv6 (seq_b (proto_text q) "tcp")] p =
    if here && ((fw_proto p =? proto_number q) && in_range r (fw_port p)) then Some accept else None) as Hone.
  { intros r (lo & hi & -> & Hlo & Hhi). rw verdict_target.
    rw (fwd_chain_one (mkFwdMatch (Some (a, (network, prefix))) (Some q) (Some (lo, hi)))).
    - rw entry_target_accepts. unfold fwd_matches. cbn -[in_network]. by rw -andb_assoc.
    - destruct Hends as [He _]. split; [exact He|]. simpl. destruct Hq as [-> | ->]; split_and!; auto; lia. }
  unfold port_entries. cbn [omap list_omap]. unfold entry_port at 1. rw iptables_port_range.
  unfold lists_port in IH |- *. cbn [existsb].
  destruct (port_range s) as [[lo hi]|] eqn:Hr; cbn [fmap option_fmap option_map map].
  - apply port_range_bounds in Hr. rw (fwd_chain_app [_]) Hone; [|by exists lo, hi]. rw IH.
    destruct here, (fw_proto p =? _), (in_range (lo, hi) _); done.
  - destruct accept; cbn [map negb andb orb]; [by rw IH|].
    change (lit "1:65535") with (port_text (1, 65535)).
    rw (fwd_chain_app [_]) Hone; [|by exists 1, 65535]. rw IH.
    assert (in_range (1, 65535) (fw_port p) = (1 <=? fw_port p)) as ->.
    { unfold in_range. simpl. destruct (Z.leb_spec 1 (fw_port p)), (Z.leb_spec (fw_port p) 65535); try done; mlia. }
    destruct here, (fw_proto p =? _), (1 <=? _); done.
Qed.

Lemma fwd_source accept e :
  is_u16 (fw_port p) → is_ipv4 (fw_source p) = is_ipv4 (fw_dest p) →
  fwd_chain (if fr_all e then [base ++ verdict_args accept (is_ipv6 a) false]
             else port_entries base accept (is_ipv6 a) (lit "tcp") (fr_tcp e)
                  ++ port_entries base accept (is_ipv6 a) (lit "udp") (fr_udp e)
                  ++ (if fr_icmp e
                      then [base ++ [lit "-p"; if is_ipv6 a then lit "icmpv6" else lit "icmp"]
                            ++ verdict_args accept (is_ipv6 a) false]
                      else [])) p =
  if here && service accept e p then Some accept else None.
Proof using Hends.
  intros Hport Hfam. unfold service. destruct (fr_all e).
  { rw verdict_target (fwd_chain_one (mkFwdMatch (Some (a, (network, prefix))) None None) _ Hends).
    rw entry_target_accepts. unfold fwd_matches. cbn -[in_network]. by rw !andb_true_r. }
  rw !fwd_chain_app (fwd_ports accept (is_ipv6 a) PTcp); [|by left|done].
  rw (fwd_ports accept (is_ipv6 a) PUdp); [|by right|done].
  set (q := if is_ipv6 a then PIcmpv6 else PIcmp).
  assert (fwd_chain (if fr_icmp e then [base ++ [lit "-p"; if is_ipv6 a then lit "icmpv6" else lit "icmp"]
                            ++ verdict_args accept (is_ipv6 a) false] else []) p =
    if here && ((fw_proto p =? proto_number q) && fr_icmp e) then Some accept else None) as ->.
  { destruct (fr_icmp e); [|by rw !andb_false_r]. rw verdict_target.
    assert ((if is_ipv6 a then lit "icmpv6" else lit "icmp") = proto_text q) as ->.
    { unfold q. by destruct (is_ipv6 a). }
    rw (fwd_chain_one (mkFwdMatch (Some (a, (network, prefix))) (Some q) None)); [|exact Hends].
    rw entry_target_accepts. unfold fwd_matches. cbn -[in_network]. by rw !andb_true_r. }
  destruct here eqn:Hh; [|done].
  assert (proto_number q = (if is_ipv6 (fw_source p) then ICMPV6 else ICMP)) as ->.
  { apply andb_true_iff in Hh as [->%bool_decide_eq_true _]. unfold q. by destruct (is_ipv6 a). }
  cbn [orb andb or_else]. by destruct (_ && lists_port _ (fr_tcp e) _), (_ && lists_port _ (fr_udp e) _), (_ && fr_icmp e).
Qed.

End ends.

Lemma fwd_entry accept e :
  wf_packet p →
  fwd_chain (entry_rules (is_ipv6 (fw_source p)) accept e) p = if entry_covers accept e p then Some accept else None.
Proof using.
  intros [Hfam Hport]. unfold entry_rules, entry_covers, from_client.
  destruct (parse (trim (fr_destination e)) false) as [[network prefix]|] eqn:Hd; [|done].
  apply parse_valid in Hd as [Hwn Hpre].
  rw (fwd_chain_flat_map _ (λ source, match parse (trim source) true with
        | Some (b, _) => bool_decide (fw_source p = b) && (in_network network prefix (fw_dest p) && service accept e p)
        | None => false end) accept).
  { generalize (in_network network prefix (fw_dest p) && service accept e p). intros b.
    match goal with |- (if ?x then _ else _) = (if ?y then _ else _) => assert (x = y) as ->; [|done] end.
    induction (fr_sources e) as [|s l IH]; simpl; [done|]. rw IH.
    destruct (parse (trim s) true) as [[c ?]|]; simpl; [|done]. by rw andb_orb_distrib_l. }
  intros s. unfold source_rules. destruct (parse (trim s) true) as [[c q]|] eqn:Hs; simpl; [|done].
  apply parse_valid in Hs as [Hwc _].
  destruct (Bool.eqb (is_ipv4 c) (is_ipv4 network)) eqn:Hcn; simpl.
  - apply eqb_prop in Hcn. destruct (Bool.eqb (is_ipv6 c) (is_ipv6 (fw_source p))) eqn:Hcp.
    + rw (fwd_source c network prefix); [by rw andb_assoc|by split|done..].
    + rw bool_decide_false; [|by intros Heq; rewrite Heq eqb_reflx in Hcp]. done.
  - destruct (decide (fw_source p = c)) as [<-|Hne]; [|by rw bool_decide_false].
    assert (in_network network prefix (fw_dest p) = false) as ->; [|by rw andb_false_r].
    rewrite Hfam in Hcn. by destruct network, (fw_dest p).
Qed.

Lemma fwd_final_rejects ipv6 : fwd_chain (fwd_final ipv6) p = Some false.
Proof using.
  unfold fwd_final.
  change [lit "-p"; lit "tcp"; lit "-j"; lit "REJECT"; lit "--reject-with"; lit "tcp-reset"]
    with (fwd_args (mkFwdMatch None (Some PTcp) None) ++ target_args (Reject (lit "tcp-reset"))).
  change [lit "-j"; lit "REJECT"; lit "--reject-with"; reject_with ipv6 false]
    with (fwd_args (mkFwdMatch None None None) ++ target_args (Reject (reject_with ipv6 false))).
  cbn [fwd_chain]. rw !fwd_verdict_args //. unfold fwd_matches. simpl. by destruct (fw_proto p =? TCP).
Qed.

(** Every rule the plan writes, in order. *)
Lemma family_plan v6 f :
  family v6 (plan f) = [fwd_established] ++ flat_map (entry_rules v6 false) (ff_deny f)
    ++ flat_map (entry_rules v6 true) (ff_allow f) ++ fwd_final v6.
Proof using.
  pose proof (family_append v6 true (ff_allow f)
    (foldl (append_rules false) (mkForwardPlan [fwd_established] [fwd_established]) (ff_deny f))) as Hf.
  rewrite (family_append v6 false) in Hf. unfold plan. destruct v6; simpl in Hf |- *; rw Hf; simpl; by rw -?app_assoc.
Qed.

Lemma fwd_chain_plan f :
  wf_packet p → fwd_chain (family (is_ipv6 (fw_source p)) (plan f)) p = Some (allows f p).
Proof using.
  intros Hp. rw family_plan !fwd_chain_app. cbn [fwd_chain]. rw fwd_verdict_established fwd_final_rejects. simpl.
  rw (fwd_chain_flat_map _ (λ e, entry_covers false e p) false); [|by intros e; apply fwd_entry].
  rw (fwd_chain_flat_map _ (λ e, entry_covers true e p) true); [|by intros e; apply fwd_entry].
  unfold allows. by do 2 case_match.
Qed.

(** The planned forward chain of a packet's family decides every new packet
    as the filter says: rejected when a deny entry covers it, accepted when only
    an allow entry does, and rejected otherwise.  An unreadable port denies its
    protocol in a deny entry and grants nothing in an allow entry. *)
Theorem forward_chain_decides (f : ForwardFilter) (Hp : wf_packet p) :
  fwd_chain (family (is_ipv6 (fw_source p)) (plan f)) p = Some (allows f p).
Proof using. by apply fwd_chain_plan. Qed.

End forward_chain.

(** ** Targets of the planned rules *)

Lemma position_app l1 l2 : lit "-j" ∉ l1 → position (lit "-j") (l1 ++ lit "-j" :: l2) = Some (length l1).
Proof.
  induction l1 as [|x l1 IH]; intros Hl; [done|]. cbn [app position].
  rw bool_decide_false; [|by intros ->; apply Hl; constructor]. rw IH; [done|]. intros Hin. by apply Hl; constructor.
Qed.

Lemma target_app l1 x l2 : lit "-j" ∉ l1 → target (l1 ++ lit "-j" :: x :: l2) = Some x.
Proof.
  intros Hl. unfold target. rw position_app //. cbn [mbind option_bind].
  rw lookup_app_r; [|lia]. by replace (S (length l1) - length l1)%nat with 1%nat by lia.
Qed.

Lemma fwd_args_no_target m : valid_fwd m → lit "-j" ∉ fwd_args m.
Proof.
  destruct m as [ends q ports]. intros [He Hq]. unfold fwd_args. cbn [fm_ends fm_proto fm_ports] in *.
  assert (∀ a, wf_ip a → lit "-j" ≠ show_ip a) as Hip.
  { intros a Ha Heq. apply parse_show_ip in Ha. rewrite -Heq in Ha. by vm_compute in Ha. }
  assert (∀ n k, lit "-j" ≠ show_ip n ++ lit "/" ++ dec k) as Hnet.
  { intros n k Heq. assert (47 ∈ lit "-j") as Hin; [|by vm_compute in Hin; repeat (apply elem_of_cons in Hin as [?|Hin]; [done|]); inversion Hin].
    rw Heq. apply elem_of_app. right. apply elem_of_app. left. by constructor. }
  rw !not_elem_of_app. split_and!.
  - destruct ends as [[a [n k]]|]; [|by apply not_elem_of_nil]. destruct He as (Ha & _).
    rw !not_elem_of_cons. split_and!; [done|by apply Hip|done|by apply Hnet|by apply not_elem_of_nil].
  - destruct q as [q|]; [|by apply not_elem_of_nil].
    rw !not_elem_of_cons. split_and!; [done|by destruct q|by apply not_elem_of_nil].
  - destruct ports as [[lo hi]|]; [|by apply not_elem_of_nil]. destruct Hq as (Hlo & Hhi & _).
    rw !not_elem_of_cons. split_and!; [done| |by apply not_elem_of_nil].
    intros Heq. pose proof (read_port_text lo hi Hlo Hhi) as Hr. rewrite -Heq in Hr. by vm_compute in Hr.
Qed.

(** A rule that accepts or rejects. *)
Definition plain_rule (rule : list str) : Prop := target rule = Some (lit "ACCEPT") ∨ target rule = Some (lit "REJECT").

Lemma target_rule m t : valid_fwd m → plain_rule (fwd_args m ++ target_args t).
Proof. intros Hm%fwd_args_no_target. destruct t; [left|right]; by apply target_app. Qed.

Lemma plain_verdict m accept ipv6 tcp :
  valid_fwd m → plain_rule (fwd_args m ++ verdict_args accept ipv6 tcp).
Proof. rw verdict_target. apply target_rule. Qed.

Lemma plain_port_entries a network prefix accept ipv6 q specs :
  valid_fwd (mkFwdMatch (Some (a, (network, prefix))) None None) → q = PTcp ∨ q = PUdp →
  Forall plain_rule (port_entries [lit "-s"; show_ip a; lit "-d"; show_ip network ++ lit "/" ++ dec prefix]
    accept ipv6 (proto_text q) specs).
Proof.
  intros [He _] Hq. apply Forall_map, Forall_forall. intros port (s & _ & Hs)%list_elem_of_omap.
  assert (∃ lo hi, port = port_text (lo, hi) ∧ 1 ≤ lo ≤ hi ∧ hi ≤ U16_MAX) as (lo & hi & -> & Hlo & Hhi).
  { unfold entry_port in Hs. rewrite iptables_port_range in Hs. destruct (port_range s) as [[lo hi]|] eqn:Hr.
    - apply port_range_bounds in Hr. apply (inj Some) in Hs as <-. by exists lo, hi.
    - simpl in Hs. destruct accept; [done|]. apply (inj Some) in Hs as <-. by exists 1, 65535. }
  apply (plain_verdict (mkFwdMatch (Some (a, (network, prefix))) (Some q) (Some (lo, hi)))).
  split; [exact He|]. simpl. destruct Hq as [-> | ->]; split_and!; auto; lia.
Qed.

Lemma plain_source e accept network prefix source v6 rs :
  wf_ip network → 0 ≤ prefix ≤ full_prefix network →
  source_rules e accept network prefix source = Some (v6, rs) → Forall plain_rule rs.
Proof.
  intros Hn Hk. unfold source_rules. destruct (parse (trim source) true) as [[a q]|] eqn:Hs; simpl; [|done].
  apply parse_valid in Hs as [Ha _]. destruct (Bool.eqb _ _) eqn:Hf; simpl; [|done]. apply eqb_prop in Hf.
  assert (∀ q, valid_fwd (mkFwdMatch (Some (a, (network, prefix))) q None)) as Hv by (intros ?; by split).
  intros Hrs%(inj Some). apply pair_equal_spec in Hrs as [_ <-]. destruct (fr_all e).
  { apply Forall_singleton, (plain_verdict (mkFwdMatch (Some (a, (network, prefix))) None None)), Hv. }
  apply Forall_app; split; [by apply (plain_port_entries _ _ _ _ _ PTcp); [apply Hv|left]|].
  apply Forall_app; split; [by apply (plain_port_entries _ _ _ _ _ PUdp); [apply Hv|right]|].
  destruct (fr_icmp e); [|constructor]. apply Forall_singleton.
  assert ((if is_ipv6 a then lit "icmpv6" else lit "icmp") = proto_text (if is_ipv6 a then PIcmpv6 else PIcmp)) as ->.
  { by destruct (is_ipv6 a). }
  apply (plain_verdict (mkFwdMatch (Some (a, (network, prefix))) (Some _) None)), Hv.
Qed.

Lemma plain_plan v6 f : Forall plain_rule (family v6 (plan f)).
Proof.
  assert (∀ accept es, Forall plain_rule (flat_map (entry_rules v6 accept) es)) as He.
  { intros accept es. induction es as [|e es IH]; simpl; [constructor|]. apply Forall_app; split; [|done].
    unfold entry_rules. destruct (parse _ false) as [[n k]|] eqn:Hd; [|constructor]. apply parse_valid in Hd as [Hn Hk].
    induction (fr_sources e) as [|s l IHl]; simpl; [constructor|]. apply Forall_app; split; [|done].
    destruct (source_rules e accept n k s) as [[b rs]|] eqn:Hs; [|constructor].
    apply plain_source in Hs; [|done..]. by destruct (Bool.eqb b v6). }
  rw family_plan. apply Forall_app; split; [apply Forall_singleton; by left|].
  do 2 (apply Forall_app; split; [done|]). repeat constructor; by right.
Qed.

(** ** A concrete matcher *)

Definition read_network (v : str) : option (IpAddr * Z) :=
  match split_once 47 (reverse v) with
  | Some (k, n) => n ← parse_ip (reverse n); k ← parse_u8 (reverse k); Some (n, k)
  | None => None
  end.

Fixpoint read_fwd (args : list str) (p : FwdPacket) (ok : bool) : option bool :=
  match args with
  | f :: v :: rest =>
      if seq_b f "-j" then (if ok then Some (seq_b v "ACCEPT") else None)
      else if seq_b f "-s" then read_fwd rest p (ok && bool_decide (parse_ip v = Some (fw_source p)))
      else if seq_b f "-d" then
        read_fwd rest p (ok && match read_network v with
                               | Some (n, k) => in_network n k (fw_dest p)
                               | None => false
                               end)
      else if seq_b f "-p" then
        read_fwd rest p (ok && existsb (λ q, bool_decide (v = proto_text q) && (fw_proto p =? proto_number q))
                                  [PTcp; PUdp; PIcmp; PIcmpv6])
      else if seq_b f "--dport" then
        read_fwd rest p (ok && match read_port v with Some r => in_range r (fw_port p) | None => false end)
      else None
  | _ => None
  end.

Definition simple_fwd (rule : list str) (p : FwdPacket) : option bool :=
  if bool_decide (target rule = Some (lit "NFLOG")) then None else read_fwd rule p true.

Lemma read_network_text n k :
  wf_ip n → 0 ≤ k ≤ full_prefix n → read_network (show_ip n ++ lit "/" ++ dec k) = Some (n, k).
Proof.
  intros Hn Hk. assert (k ≤ 128) as Hk' by (unfold full_prefix in Hk; destruct n; simpl in Hk; lia).
  unfold read_network. change (lit "/") with [47]. rw !reverse_app -app_assoc. cbn [app reverse rev_append].
  change (reverse [47]) with [47]. cbn [app].
  rw split_once_app.
  - rw !reverse_involutive parse_show_ip //. cbn [mbind option_bind]. unfold parse_u8.
    rw parse_uint_dec; [done|mlia].
  - rw elem_of_reverse. intros Hin. pose proof (proj1 (Forall_forall _ _) (dec_digits k (proj1 Hk)) 47 Hin). simpl in *. lia.
Qed.

Lemma simple_fwd_args m t p :
  valid_fwd m →
  simple_fwd (fwd_args m ++ target_args t) p = if fwd_matches m p then Some (target_accepts t) else None.
Proof.
  intros Hm. unfold simple_fwd. rw bool_decide_false.
  2: { destruct (target_rule m t Hm) as [-> | ->]; intros Heq%(inj Some); by vm_compute in Heq. }
  assert (∀ ok, read_fwd (target_args t) p ok = if ok then Some (target_accepts t) else None) as Ht.
  { intros ok. by destruct t, ok. }
  assert (∀ ok rest a n k, wf_ip a → wf_ip n → 0 ≤ k ≤ full_prefix n →
    read_fwd (lit "-s" :: show_ip a :: lit "-d" :: (show_ip n ++ lit "/" ++ dec k) :: rest) p ok =
    read_fwd rest p (ok && (bool_decide (fw_source p = a) && in_network n k (fw_dest p)))) as Hends.
  { intros ok rest a n k Ha Hn Hk. cbn -[show_ip app in_network read_network]. rw parse_show_ip // read_network_text //.
    rw andb_assoc. do 3 f_equal. apply bool_decide_ext. naive_solver. }
  assert (∀ ok rest q, read_fwd (lit "-p" :: proto_text q :: rest) p ok =
    read_fwd rest p (ok && (fw_proto p =? proto_number q))) as Hproto.
  { intros ok rest q. destruct q; simpl; by rw ?andb_false_r ?orb_false_r ?andb_true_r. }
  assert (∀ ok rest lo hi, 1 ≤ lo ≤ hi → hi ≤ U16_MAX →
    read_fwd (lit "--dport" :: port_text (lo, hi) :: rest) p ok =
    read_fwd rest p (ok && in_range (lo, hi) (fw_port p))) as Hdport.
  { intros ok rest lo hi H1 H2. simpl. by rw read_port_text. }
  destruct m as [ends pr ports], Hm as [He Hp]. simpl in He, Hp.
  unfold fwd_args, fwd_matches. cbn [app fm_ends fm_proto fm_ports].
  destruct ends as [[a [n k]]|]; cbn [app]; [rw Hends; [|tauto..]|];
    (destruct pr as [q|]; cbn [app]; [rw Hproto|]);
    (destruct ports as [[lo hi]|]; cbn [app]; [rw Hdport; [|tauto..]|]); rw Ht; try done.
  all: by rw ?andb_true_r ?andb_true_l.
Qed.

#[export] Instance simple_forward : IptablesForward.
Proof.
  refine {| fwd_verdict := simple_fwd; fwd_verdict_args := simple_fwd_args |}.
  - intros p. by vm_compute.
  - intros rule p Ht. unfold simple_fwd. by rw bool_decide_true.
Defined.

(** A subnet open on one port but for one host, and a port nobody can read. *)
Definition sample_filter : ForwardFilter :=
  mkForwardFilter
    [mkForwardRule (lit "a") [lit "100.64.0.2/32"] (lit "10.0.0.7") false [lit "443"] [] false]
    [mkForwardRule (lit "a") [lit "100.64.0.2/32"; lit "fd00::2"] (lit "10.0.0.0/24") false [lit "443"; lit "x"] [] false].

Definition sample_packet (dest : Z) : FwdPacket := mkFwdPacket (V4 1681915906) (V4 dest) TCP 443.

Lemma forward_chain_decides_witness :
  fwd_chain (fwd4 (plan sample_filter)) (sample_packet 167772165) = Some true ∧
  fwd_chain (fwd4 (plan sample_filter)) (sample_packet 167772167) = Some false.
Proof.
  split.
  - etransitivity; [apply (forward_chain_decides (sample_packet 167772165) sample_filter); by vm_compute|by vm_compute].
  - etransitivity; [apply (forward_chain_decides (sample_packet 167772167) sample_filter); by vm_compute|by vm_compute].
Defined.
