(* ===== verification/ForwardInstall.v ===== *)
(** * Replacing the forward chain

    What the [iptables] commands of [install] and [clear] do to the tables, the
    states a program passes through, and the proof that a chain stays in force while
    one is replaced by another, as long as no jump to the staging chain was left
    behind: a failed rename leaves one, and the next [install] then opens a window
    ([failed_rename_opens_window]). *)

From S2P Require Import Prelude Text Net Policy AclFilter AclProps ForwardFilter ForwardProps.

(** ** The tables *)

(** The user chains and the rules of the built-in [FORWARD] chain. *)
Record Tables := mkTables { chains : gmap str (list (list str)); forward : list (list str) }.

Definition refers (c : str) (rule : list str) : bool := bool_decide (target rule = Some c).

(** A rule whose target was renamed. *)
Definition retarget (old new : str) (rule : list str) : list str :=
  match position (lit "-j") rule with
  | Some at_ => if refers old rule then <[S at_ := new]> rule else rule
  | None => rule
  end.

Fixpoint remove_first (rule : list str) (l : list (list str)) : option (list (list str)) :=
  match l with
  | [] => None
  | r :: l => if bool_decide (r = rule) then Some l else (r ::.) <$> remove_first rule l
  end.

(** 1-based position, at most one past the end. *)
Definition insert_at (pos : str) (rule : list str) (l : list (list str)) : option (list (list str)) :=
  n ← parse_uint 10 U32_MAX pos;
  if (1 <=? n) && (n <=? Z.of_nat (length l) + 1)
  then Some (take (Z.to_nat (n - 1)) l ++ rule :: drop (Z.to_nat (n - 1)) l)
  else None.

(** A rule set with one list replaced. *)
Definition with_rules (c : str) (f : list (list str) → option (list (list str))) (t : Tables) : option Tables :=
  if seq_b c "FORWARD" then l ← f (forward t); Some (mkTables (chains t) l)
  else l ← chains t !! c; l ← f l; Some (mkTables (<[c := l]> (chains t)) (forward t)).

Definition referenced (c : str) (t : Tables) : bool :=
  existsb (refers c) (forward t) || bool_decide (map_Exists (λ _ l, existsb (refers c) l = true) (chains t)).

(** The documented effect of a command that succeeds, [None] where it cannot. *)
Definition effect (args : list str) (t : Tables) : option Tables :=
  match args with
  | op :: c :: rest =>
      if seq_b op "-N" then
        if bool_decide (is_Some (chains t !! c)) then None else Some (mkTables (<[c := []]> (chains t)) (forward t))
      else if seq_b op "-F" then with_rules c (λ _, Some []) t
      else if seq_b op "-X" then
        if bool_decide (chains t !! c = Some []) && negb (referenced c t)
        then Some (mkTables (delete c (chains t)) (forward t)) else None
      else if seq_b op "-A" then with_rules c (λ l, Some (l ++ [rest])) t
      else if seq_b op "-D" then with_rules c (remove_first rest) t
      else if seq_b op "-I" then
        match rest with pos :: rule => with_rules c (insert_at pos rule) t | [] => None end
      else if seq_b op "-E" then
        match rest with
        | [new] =>
            l ← chains t !! c;
            if bool_decide (is_Some (chains t !! new)) then None
            else Some (mkTables (map (retarget c new) <$> <[new := l]> (delete c (chains t)))
                         (map (retarget c new) (forward t)))
        | _ => None
        end
      else None
  | _ => None
  end.

(** What [install] relies on: a command of [bin] that reports success had its
    documented effect, one that fails left the tables of [bin] alone, and each
    binary has tables of its own. *)
Class IptablesRunner (World : Type) := {
  command : World → str → list str → Reply * World;
  tables : World → str → Tables;
  command_effect : ∀ w bin args r w', command w bin args = (r, w') →
    if succeeded r then effect args (tables w bin) = Some (tables w' bin) else tables w' bin = tables w bin;
  command_other : ∀ w bin args r w' bin', command w bin args = (r, w') → bin' ≠ bin → tables w' bin' = tables w bin'
}.

Section exec.
Context `{IptablesRunner World}.

Fixpoint exec {A} (m : Prog A) (w : World) : A * World :=
  match m with
  | Ret a => (a, w)
  | Run bin args k => let (r, w') := command w bin args in exec (k r) w'
  end.

(** The worlds between the commands, the first and the last included. *)
Fixpoint visited {A} (m : Prog A) (w : World) : list World :=
  match m with
  | Ret _ => [w]
  | Run bin args k => let (r, w') := command w bin args in w :: visited (k r) w'
  end.

End exec.

(** ** What is in force *)

Definition jump_rule (interface chain : str) : list str :=
  [lit "-i"; interface; lit "-m"; lit "comment"; lit "--comment"; JUMP_COMMENT; lit "-j"; chain].

(** The chain of the first jump of ours that a packet from the overlay meets. *)
Fixpoint first_jump (interface : str) (rules : list (list str)) : option str :=
  match rules with
  | [] => None
  | r :: rules =>
      if bool_decide (r = jump_rule interface FORWARD_CHAIN) then Some FORWARD_CHAIN
      else if bool_decide (r = jump_rule interface STAGING_CHAIN) then Some STAGING_CHAIN
      else first_jump interface rules
  end.

Definition enforced (interface : str) (t : Tables) : option (list (list str)) :=
  c ← first_jump interface (forward t); chains t !! c.

(** Nothing jumps to the staging chain. *)
Definition settled (interface : str) (t : Tables) : Prop := jump_rule interface STAGING_CHAIN ∉ forward t.

Definition is_log (rule : list str) : bool := bool_decide (target rule = Some (lit "NFLOG")).
Definition without_logs (rules : list (list str)) : list (list str) := List.filter (λ r, negb (is_log r)) rules.

(** The rules of a chain that was installed from [rules]. *)
Definition holds (rules : list (list str)) (live : option (list (list str))) : Prop :=
  ∃ l, live = Some l ∧ without_logs l = rules.

(** ** Reasoning about programs *)

(** [I] holds in every state [m] passes through and [Q] of what it returns, where
    a command can fail as [F] says. *)
Fixpoint wp {A} (bin : str) (F : list str → Tables → Prop) (I : Tables → Prop) (m : Prog A)
    (Q : A → Tables → Prop) (t : Tables) : Prop :=
  match m with
  | Ret a => I t ∧ Q a t
  | Run b args k =>
      b = bin ∧ I t ∧
      (∀ r, succeeded r = false → F args t → wp bin F I (k r) Q t) ∧
      (∀ r t', succeeded r = true → effect args t = Some t' → wp bin F I (k r) Q t')
  end.

Lemma wp_sound `{IptablesRunner World} {A} bin F I (m : Prog A) Q w :
  (∀ w args r w', command w bin args = (r, w') → succeeded r = false → F args (tables w bin)) →
  wp bin F I m Q (tables w bin) →
  Forall (λ w', I (tables w' bin)) (visited m w) ∧ Q (exec m w).1 (tables (exec m w).2 bin) ∧
  ∀ bin', bin' ≠ bin → tables (exec m w).2 bin' = tables w bin'.
Proof.
  intros HF. revert w. induction m as [a|b args k IH]; intros w; simpl; [intros [? ?]; by split_and!; [repeat constructor|..]|].
  intros (-> & HI & Hno & Hyes). destruct (command w bin args) as [r w'] eqn:Hc.
  pose proof (command_effect w bin args r w' Hc) as He.
  assert (wp bin F I (k r) Q (tables w' bin)) as Hk.
  { destruct (succeeded r) eqn:Hr; [by apply Hyes|]. rw He. apply Hno; [done|]. by eapply HF. }
  destruct (IH r w' Hk) as (Hv & HQ & Ho). split_and!; [by constructor|done|].
  intros bin' Hb. rw Ho //. by eapply command_other.
Qed.

Section wp.
Context (bin : str) (F : list str → Tables → Prop) (I : Tables → Prop).

Lemma wp_bind {A B} (m : Prog A) (f : A → Prog B) Q t :
  wp bin F I m (λ a t, wp bin F I (f a) Q t) t → wp bin F I (pbind m f) Q t.
Proof using.
  revert t. induction m as [a|b args k IH]; intros t; simpl; [tauto|].
  intros (-> & HI & Hno & Hyes). split_and!; auto.
Qed.

Lemma wp_mono {A} (m : Prog A) (Q Q' : A → Tables → Prop) t :
  (∀ a t, I t → Q a t → Q' a t) → wp bin F I m Q t → wp bin F I m Q' t.
Proof using.
  intros HQ. revert t. induction m as [a|b args k IH]; intros t; simpl; [naive_solver|].
  intros (-> & HI & Hno & Hyes). split_and!; auto.
Qed.

(** A command whose reply is ignored keeps [P]. *)
Lemma wp_run (P : Tables → Prop) {A} args (k : Prog A) Q t :
  (∀ t, P t → I t) → (∀ t t', P t → effect args t = Some t' → P t') →
  P t → (∀ t, P t → wp bin F I k Q t) → wp bin F I (Run bin args (λ _, k)) Q t.
Proof using. intros HI He Ht Hk. simpl. split_and!; eauto. Qed.

Lemma wp_run4 (P : Tables → Prop) {A} args (k : Prog A) Q t :
  (∀ t, P t → I t) → (∀ t t', P t → effect args t = Some t' → P t') →
  P t → (∀ t, P t → wp bin F I k Q t) → wp bin F I (run4 bin args k) Q t.
Proof using.
  intros HI He Ht Hk. unfold run4. do 3 (apply (wp_run P); [done..|]; clear t Ht; intros t Ht).
  by apply (wp_run P).
Qed.

Lemma wp_drop_chain (P : Tables → Prop) {A} interface c (k : Prog A) Q t :
  (∀ t, P t → I t) →
  (∀ t t', P t → effect (jump interface c (lit "-D")) t = Some t' → P t') →
  (∀ t t', P t → effect [lit "-F"; c] t = Some t' → P t') →
  (∀ t t', P t → effect [lit "-X"; c] t = Some t' → P t') →
  P t → (∀ t, P t → wp bin F I k Q t) → wp bin F I (drop_chain bin interface c k) Q t.
Proof using.
  intros HI HD HF HX Ht Hk. unfold drop_chain. apply (wp_run4 P); [done..|].
  intros t1 Ht1. apply (wp_run P); [done..|]. intros t2 Ht2. by apply (wp_run P).
Qed.

Lemma wp_must args Q t :
  I t → (∀ e, Q (Err e) t) → (∀ t', effect args t = Some t' → I t' ∧ Q (Ok tt) t') →
  wp bin F I (must bin args) Q t.
Proof using.
  intros HI He Hok. simpl. split_and!; [done|done| |].
  - intros r Hr _. by rw Hr.
  - intros r t' Hr Ht'. rw Hr. by apply Hok.
Qed.

End wp.

(** ** Effects of the commands *)

Lemma chains_ne : FORWARD_CHAIN ≠ STAGING_CHAIN.
Proof. intros Heq. by vm_compute in Heq. Qed.

Section effects.
Context (interface : str).

Lemma effect_unjump c t :
  effect (jump interface c (lit "-D")) t =
  l ← remove_first (jump_rule interface c) (forward t); Some (mkTables (chains t) l).
Proof using. reflexivity. Qed.

Lemma effect_jump c t :
  effect (jump interface c (lit "-I")) t = Some (mkTables (chains t) (jump_rule interface c :: forward t)).
Proof using.
  change (effect (jump interface c (lit "-I")) t) with
    (l ← insert_at (lit "1") (jump_rule interface c) (forward t); Some (mkTables (chains t) l)).
  unfold insert_at. change (parse_uint 10 U32_MAX (lit "1")) with (Some 1). cbn [mbind option_bind].
  destruct (Z.leb_spec 1 (Z.of_nat (length (forward t)) + 1)); [done|lia].
Qed.

Lemma remove_first_None rule l : rule ∉ l → remove_first rule l = None.
Proof using.
  induction l as [|r l IH]; intros Hl; simpl; [done|]. apply not_elem_of_cons in Hl as [Hr Hl].
  rw bool_decide_false; [|congruence]. by rw IH.
Qed.

(** A command on the rules of the user chain [c] leaves [FORWARD] and the
    other chains alone. *)
Definition only_chain (c : str) (t t' : Tables) : Prop :=
  forward t' = forward t ∧ ∀ d, d ≠ c → chains t' !! d = chains t !! d.

Lemma with_rules_only c f t t' :
  seq_b c "FORWARD" = false → with_rules c f t = Some t' → only_chain c t t'.
Proof using.
  intros Hc. unfold with_rules. rw Hc. destruct (chains t !! c) as [l|]; simpl; [|done].
  destruct (f l); simpl; [|done]. intros [= <-]. split; [done|]. intros d Hd. simpl. by rw lookup_insert_ne.
Qed.

Lemma effect_flush c t t' :
  seq_b c "FORWARD" = false → effect [lit "-F"; c] t = Some t' → only_chain c t t'.
Proof using. intros Hc. apply with_rules_only, Hc. Qed.

Lemma effect_delete c t t' : effect [lit "-X"; c] t = Some t' → only_chain c t t'.
Proof using.
  change (effect [lit "-X"; c] t) with
    (if bool_decide (chains t !! c = Some []) && negb (referenced c t)
     then Some (mkTables (delete c (chains t)) (forward t)) else None).
  case_match; [|done]. intros [= <-]. split; [done|]. intros d Hd. simpl. by rw lookup_delete_ne.
Qed.

Lemma effect_new c t t' :
  effect [lit "-N"; c] t = Some t' → only_chain c t t' ∧ chains t' !! c = Some [].
Proof using.
  change (effect [lit "-N"; c] t) with
    (if bool_decide (is_Some (chains t !! c)) then None else Some (mkTables (<[c := []]> (chains t)) (forward t))).
  case_match; [done|]. intros [= <-]. split; [split; [done|]|]; simpl.
  - intros d Hd. by rw lookup_insert_ne.
  - by rw lookup_insert_eq.
Qed.

Lemma with_rules_at c f t t' l :
  seq_b c "FORWARD" = false → chains t !! c = Some l → with_rules c f t = Some t' → chains t' !! c = f l.
Proof using.
  intros Hc Hl. unfold with_rules. rw Hc Hl. simpl. destruct (f l) as [l'|]; simpl; [|done].
  intros [= <-]. simpl. by rw lookup_insert_eq.
Qed.

End effects.

(** ** Log rules *)

Lemma position_not_in x l n : position x l = Some n → x ∉ take n l.
Proof.
  revert n. induction l as [|y l IH]; intros n; simpl; [done|].
  case_bool_decide as Hy; [intros [= <-]; apply not_elem_of_nil|].
  destruct (position x l) as [k|] eqn:Hk; simpl; [|done]. intros [= <-]. simpl.
  apply not_elem_of_cons. split; [congruence|by apply IH].
Qed.

Lemma log_insert_shape chain forward pos body args :
  log_insert chain forward pos body = Some args →
  ∃ rule, args = lit "-I" :: chain :: dec (Z.of_nat pos) :: rule ∧ is_log rule = true.
Proof.
  unfold log_insert. destruct (position (lit "-j") body) as [at_|] eqn:Hp; cbn [mbind option_bind]; [|done].
  case_match; [done|]. intros <-%(inj Some). eexists. split; [reflexivity|].
  apply bool_decide_eq_true.
  rw (app_assoc (take at_ body)
        [lit "-m"; lit "limit"; lit "--limit"; lit "50/second"; lit "--limit-burst"; lit "100"]
        (lit "-j" :: lit "NFLOG" :: _)).
  apply target_app, not_elem_of_app. split; [by eapply position_not_in|].
  rw !not_elem_of_cons. split_and!; try done. by apply not_elem_of_nil.
Qed.

Lemma log_inserts_shape chain forward i n bodies :
  Forall (λ args, ∃ pos rule, args = lit "-I" :: chain :: pos :: rule ∧ is_log rule = true)
    (log_inserts chain forward i n bodies).
Proof.
  revert i n. induction bodies as [|b bodies IH]; intros i n; [constructor|]. cbn [log_inserts].
  destruct (log_insert _ _ _ b) as [args|] eqn:Hl; [|done]. constructor; [|done].
  apply log_insert_shape in Hl as (rule & -> & ?). eauto.
Qed.

Lemma without_logs_app l1 l2 : without_logs (l1 ++ l2) = without_logs l1 ++ without_logs l2.
Proof. apply List.filter_app. Qed.

Lemma insert_at_logs pos rule l l' :
  is_log rule = true → insert_at pos rule l = Some l' → without_logs l' = without_logs l.
Proof.
  intros Hr. unfold insert_at. destruct (parse_uint 10 U32_MAX pos) as [n|]; simpl; [|done].
  case_match; [|done]. intros [= <-]. set (m := Z.to_nat (n - 1)).
  rw without_logs_app. unfold without_logs at 2. cbn [List.filter]. rw Hr. cbn [negb].
  fold (without_logs (drop m l)). by rw -without_logs_app take_drop.
Qed.

(** ** Renaming *)

Section rename.
Context (interface : str) (Hinterface : interface ≠ lit "-j").

Lemma target_jump_rule c : target (jump_rule interface c) = Some c.
Proof using Hinterface.
  apply (target_app [lit "-i"; interface; lit "-m"; lit "comment"; lit "--comment"; JUMP_COMMENT] c []).
  rw !not_elem_of_cons. split_and!; try done. by apply not_elem_of_nil.
Qed.

Lemma retarget_jump old new : retarget old new (jump_rule interface old) = jump_rule interface new.
Proof using Hinterface.
  unfold retarget, refers. rw target_jump_rule bool_decide_true //.
  rw (position_app [lit "-i"; interface; lit "-m"; lit "comment"; lit "--comment"; JUMP_COMMENT] [old]); [done|].
  rw !not_elem_of_cons. split_and!; try done. by apply not_elem_of_nil.
Qed.

Lemma retarget_other old new rule : target rule ≠ Some old → retarget old new rule = rule.
Proof using. intros Ht. unfold retarget, refers. rw bool_decide_false //. by case_match. Qed.

Lemma position_insert x y rule n :
  position x rule = Some n → y ≠ x → position x (<[S n := y]> rule) = Some n.
Proof using.
  intros Hp Hy. revert n Hp. induction rule as [|z rule IH]; intros n; simpl; [done|].
  case_bool_decide as Hz; [by intros [= <-]|].
  destruct (position x rule) as [k|] eqn:Hk; simpl; [|done]. intros [= <-]. by rw IH.
Qed.

Lemma target_retarget old new rule :
  old ≠ new → new ≠ lit "-j" → target (retarget old new rule) ≠ Some old.
Proof using.
  intros Hne Hj. unfold retarget, refers. case_bool_decide as Ht.
  - unfold target in Ht. destruct (position (lit "-j") rule) as [n|] eqn:Hp; [|done]. cbn [mbind option_bind] in Ht.
    unfold target. rw (position_insert _ _ _ _ Hp Hj). cbn [mbind option_bind].
    rw list_lookup_insert_eq; [congruence|]. by eapply lookup_lt_Some.
  - by case_match.
Qed.

Lemma renamed_no_jump old new l :
  old ≠ new → new ≠ lit "-j" → jump_rule interface old ∉ map (retarget old new) l.
Proof using Hinterface.
  intros Hne Hj Hin. apply list_elem_of_fmap in Hin as (r & Hr & _).
  apply (target_retarget old new r Hne Hj). by rw -Hr target_jump_rule.
Qed.

End rename.

Lemma plain_not_log r : plain_rule r → is_log r = false.
Proof. intros Hr. apply bool_decide_eq_false. destruct Hr as [-> | ->]; intros Heq%(inj Some); by vm_compute in Heq. Qed.

Lemma without_logs_plain l : Forall plain_rule l → without_logs l = l.
Proof.
  unfold without_logs. induction 1 as [|r l Hr Hl IH]; [done|]. cbn [List.filter]. rw plain_not_log //. simpl. by f_equal.
Qed.

(** A rule that jumps to neither of our chains. *)
Definition foreign (r : list str) : Prop := target r ≠ Some FORWARD_CHAIN ∧ target r ≠ Some STAGING_CHAIN.

Lemma plain_foreign r : plain_rule r → foreign r.
Proof. intros Hr. split; destruct Hr as [-> | ->]; intros Heq%(inj Some); by vm_compute in Heq. Qed.

Lemma holds_foreign rules l : Forall plain_rule rules → without_logs l = rules → Forall foreign l.
Proof.
  intros Hr <-. unfold without_logs in Hr. induction l as [|r l IH]; [constructor|]. cbn [List.filter] in Hr.
  destruct (is_log r) eqn:Hl; simpl in Hr.
  - constructor; [|auto]. apply bool_decide_eq_true in Hl.
    split; rw Hl; intros Heq%(inj Some); by vm_compute in Heq.
  - inversion_clear Hr. constructor; [by apply plain_foreign|auto].
Qed.

Lemma retarget_foreign l : Forall foreign l → map (retarget STAGING_CHAIN FORWARD_CHAIN) l = l.
Proof. induction 1 as [|r l [_ Hr] Hl IH]; [done|]. cbn [map]. rw retarget_other //. by f_equal. Qed.

(** ** [install] *)

Section install.
Context (F : list str → Tables → Prop) (bin interface : str) (rules : list (list str)) (t0 : Tables).
Context (Hinterface : interface ≠ lit "-j") (Hrules : Forall plain_rule rules) (Hsettled : settled interface t0).

(** Every state on the way: the old rules are in force or the new ones. *)
Definition old_or_new (t : Tables) : Prop :=
  enforced interface t = enforced interface t0 ∨ holds rules (enforced interface t).

(** Before the jump: only the staging chain differs. *)
Definition before (t : Tables) : Prop := only_chain STAGING_CHAIN t0 t.

(** From the jump to the rename: packets meet the staging chain first. *)
Definition after (t : Tables) : Prop :=
  (∃ fwd, forward t = jump_rule interface STAGING_CHAIN :: fwd) ∧ holds rules (chains t !! STAGING_CHAIN).

Definition outcome (r : result Error unit) (t : Tables) : Prop :=
  match r with
  | Ok _ => settled interface t ∧ first_jump interface (forward t) = Some FORWARD_CHAIN
            ∧ holds rules (enforced interface t)
  | Err _ => (settled interface t ∧ enforced interface t = enforced interface t0)
             ∨ (first_jump interface (forward t) = Some STAGING_CHAIN ∧ holds rules (enforced interface t))
  end.

Lemma first_jump_settled l :
  jump_rule interface STAGING_CHAIN ∉ l → first_jump interface l ≠ Some STAGING_CHAIN.
Proof using.
  induction l as [|r l IH]; intros Hl; simpl; [done|]. apply not_elem_of_cons in Hl as [Hr Hl].
  case_bool_decide; [intros Heq%(inj Some); by vm_compute in Heq|]. rw bool_decide_false; [by apply IH|congruence].
Qed.

Lemma before_enforced t : before t → settled interface t ∧ enforced interface t = enforced interface t0.
Proof using Hsettled.
  intros [Hf Hc]. unfold settled, enforced. rw Hf. split; [done|].
  destruct (first_jump interface (forward t0)) as [c|] eqn:Hj; simpl; [|done]. apply Hc. intros ->.
  by apply (first_jump_settled (forward t0)).
Qed.

Lemma before_ok t : before t → old_or_new t.
Proof using Hsettled. intros [_ ?]%before_enforced. by left. Qed.

Lemma before_trans t t' : before t → only_chain STAGING_CHAIN t t' → before t'.
Proof using.
  intros [Hf Hc] [Hf' Hc']. split; [congruence|]. intros d Hd. by rw Hc' // Hc.
Qed.

Lemma after_enforced t :
  after t → first_jump interface (forward t) = Some STAGING_CHAIN ∧ holds rules (enforced interface t).
Proof using.
  intros [[fwd Hf] Hh]. unfold enforced. rw Hf. cbn [first_jump].
  rw bool_decide_false; [|intros Heq; apply (f_equal (λ l, l !! 7%nat)) in Heq; by vm_compute in Heq].
  by rw bool_decide_true.
Qed.

Lemma after_ok t : after t → old_or_new t.
Proof using. intros [_ ?]%after_enforced. by right. Qed.

Lemma wp_drop_staging {A} (k : Prog A) Q t :
  before t → (∀ t, before t → wp bin F old_or_new k Q t) →
  wp bin F old_or_new (drop_chain bin interface STAGING_CHAIN k) Q t.
Proof using Hsettled.
  apply wp_drop_chain; [apply before_ok|..]; intros t1 t2 Ht.
  - rw effect_unjump remove_first_None; [done|]. by apply before_enforced.
  - intros He%effect_flush; [|done]. by eapply before_trans.
  - intros He%effect_delete. by eapply before_trans.
Qed.

Lemma wp_drop_forward {A} (k : Prog A) Q t :
  after t → (∀ t, after t → wp bin F old_or_new k Q t) →
  wp bin F old_or_new (drop_chain bin interface FORWARD_CHAIN k) Q t.
Proof using.
  assert (∀ t t', after t → only_chain FORWARD_CHAIN t t' → after t') as Hkeep.
  { intros t1 t2 [[fwd Hf] Hh] [Hf' Hc']. split; [exists fwd; congruence|]. by rw Hc'. }
  apply wp_drop_chain; [apply after_ok|..]; intros t1 t2 Ht.
  - rw effect_unjump. destruct Ht as [[fwd Hf] Hh]. rw Hf. cbn [remove_first].
    rw bool_decide_false; [|intros Heq; apply (f_equal (λ l, l !! 7%nat)) in Heq; by vm_compute in Heq].
    destruct (remove_first _ fwd) as [l|]; simpl; [|done]. intros [= <-]. split; [by exists l|done].
  - intros He%effect_flush; [|done]. by eapply Hkeep.
  - intros He%effect_delete. by eapply Hkeep.
Qed.

Lemma wp_append_all l t pre :
  before t → chains t !! STAGING_CHAIN = Some pre →
  wp bin F old_or_new (append_all bin STAGING_CHAIN l)
    (λ r t, before t ∧ (r = Ok tt → chains t !! STAGING_CHAIN = Some (pre ++ l))) t.
Proof using Hsettled.
  revert t pre. induction l as [|rule l IH]; intros t pre Ht Hp.
  { split; [by apply before_ok|]. by rw app_nil_r. }
  cbn [append_all]. apply wp_bind, wp_must; [by apply before_ok|intros e; split; [by apply before_ok|done]|].
  intros t' He. change (with_rules STAGING_CHAIN (λ l, Some (l ++ [rule])) t = Some t') in He.
  assert (before t') as Ht' by (eapply before_trans, with_rules_only, He; done).
  split; [by apply before_ok|]. eapply (with_rules_at STAGING_CHAIN _ _ _ _ eq_refl Hp) in He.
  specialize (IH t' _ Ht' He). by rewrite -app_assoc in IH.
Qed.

Lemma wp_insert_logs inserts t :
  Forall (λ args, ∃ pos rule, args = lit "-I" :: STAGING_CHAIN :: pos :: rule ∧ is_log rule = true) inserts →
  before t → holds rules (chains t !! STAGING_CHAIN) →
  wp bin F old_or_new (insert_logs bin inserts) (λ _ t, before t ∧ holds rules (chains t !! STAGING_CHAIN)) t.
Proof using Hsettled.
  intros Hi. revert t. induction Hi as [|args inserts (pos & rule & -> & Hlog) Hi IH]; intros t Ht Hh.
  { split; [by apply before_ok|done]. }
  cbn [insert_logs wp]. split_and!; [done|by apply before_ok| |]; intros r.
  - intros -> _. split; [by apply before_ok|done].
  - intros t' -> He. change (with_rules STAGING_CHAIN (insert_at pos rule) t = Some t') in He.
    apply IH; [eapply before_trans, with_rules_only, He; done|].
    destruct Hh as (l & Hl & Hw). eapply (with_rules_at STAGING_CHAIN _ _ _ _ eq_refl Hl) in He as Hl'.
    unfold with_rules in He. rewrite Hl in He. cbn in He.
    destruct (insert_at pos rule l) as [l'|] eqn:Hins; [|done]. exists l'. split; [done|].
    by rw (insert_at_logs _ _ _ _ Hlog Hins).
Qed.

Lemma wp_staged t :
  before t → wp bin F old_or_new (staged bin interface rules)
    (λ r t, match r with Ok _ => after t | Err _ => before t end) t.
Proof using Hsettled Hrules.
  intros Ht. unfold staged. apply wp_bind, wp_must; [by apply before_ok|intros e; split; [by apply before_ok|done]|].
  intros t1 [He Hnil]%effect_new. apply (before_trans _ _ Ht) in He as Ht1. split; [by apply before_ok|].
  apply wp_bind. eapply wp_mono, (wp_append_all rules t1 []); [|done..].
  intros r t2 HI [Ht2 Hr]. destruct r as [[]|e]; [|by split]. specialize (Hr eq_refl).
  apply wp_bind. eapply wp_mono, wp_insert_logs; [|apply log_inserts_shape|done|].
  - intros _ t3 HI3 [Ht3 Hh]. apply wp_must; [done|done|]. intros t4 Ht4. rewrite effect_jump in Ht4.
    simplify_eq. assert (after (mkTables (chains t3) (jump_rule interface STAGING_CHAIN :: forward t3))) as Ha.
    { split; [by eexists|done]. }
    split; [by apply after_ok|done].
  - exists rules. split; [done|by apply without_logs_plain].
Qed.

Lemma effect_rename t t' :
  after t → effect [lit "-E"; STAGING_CHAIN; FORWARD_CHAIN] t = Some t' → outcome (Ok tt) t'.
Proof using Hinterface Hrules.
  intros [[fwd Hf] (l & Hl & Hw)].
  change (effect [lit "-E"; STAGING_CHAIN; FORWARD_CHAIN] t) with
    (l ← chains t !! STAGING_CHAIN;
     if bool_decide (is_Some (chains t !! FORWARD_CHAIN)) then None
     else Some (mkTables (map (retarget STAGING_CHAIN FORWARD_CHAIN) <$>
                            <[FORWARD_CHAIN := l]> (delete STAGING_CHAIN (chains t)))
                 (map (retarget STAGING_CHAIN FORWARD_CHAIN) (forward t)))).
  rw Hl. cbn [mbind option_bind]. case_match; [done|]. intros <-%(inj Some).
  assert (first_jump interface (map (retarget STAGING_CHAIN FORWARD_CHAIN) (forward t)) = Some FORWARD_CHAIN) as Hj.
  { rw Hf. cbn [map]. rw retarget_jump //. cbn [first_jump]. by rw bool_decide_true. }
  unfold outcome. cbn [forward]. split_and!; [by apply renamed_no_jump|done|].
  unfold enforced. cbn [forward chains]. rw Hj. cbn [mbind option_bind]. rw lookup_fmap lookup_insert_eq.
  exists l. split; [|done]. cbn [fmap option_fmap option_map]. f_equal.
  by eapply retarget_foreign, holds_foreign.
Qed.

Lemma wp_install : wp bin F old_or_new (install bin interface rules) outcome t0.
Proof using Hinterface Hrules Hsettled.
  unfold install. apply wp_drop_staging; [done|]. intros t1 Ht1.
  apply wp_bind. eapply wp_mono, wp_staged, Ht1. intros [[]|e] t2 _ Ht2.
  - apply wp_drop_forward; [done|]. intros t3 Ht3. apply wp_must; [by apply after_ok| |].
    + intros e. right. by apply after_enforced.
    + intros t4 He. apply effect_rename in He as Ho; [|done]. split; [|done]. right. by apply Ho.
  - apply wp_drop_staging; [done|]. intros t3 Ht3. split; [by apply before_ok|].
    left. by apply before_enforced.
Qed.

End install.

(** ** With a reliable runner *)

(** Commands fail only where they must. *)
Definition must_fail (args : list str) (t : Tables) : Prop := effect args t = None.

(** The tables between two installs: at most one jump, and nothing else refers
    to our chains. *)
Definition clean (interface : str) (t : Tables) : Prop :=
  map_Forall (λ _ l, Forall foreign l) (chains t) ∧
  ∃ (b : bool) fwd, forward t = (if b then [jump_rule interface FORWARD_CHAIN] else []) ++ fwd ∧ Forall foreign fwd.

Lemma remove_first_app rule l1 l2 : rule ∉ l1 → remove_first rule (l1 ++ rule :: l2) = Some (l1 ++ l2).
Proof.
  induction l1 as [|r l1 IH]; intros Hl; cbn [app remove_first]; [by rw bool_decide_true|].
  apply not_elem_of_cons in Hl as [Hr Hl]. rw bool_decide_false; [|congruence]. by rw IH.
Qed.

Section reliable.
Context (bin interface : str) (Hinterface : interface ≠ lit "-j").
Let top (_ : Tables) : Prop := True.

Lemma not_referring_not_in c l : Forall (λ r, target r ≠ Some c) l → jump_rule interface c ∉ l.
Proof using Hinterface.
  intros Hl Hin. rewrite Forall_forall in Hl. apply (Hl _ Hin). by apply target_jump_rule.
Qed.

Lemma not_referenced c t :
  Forall (λ r, target r ≠ Some c) (forward t) → map_Forall (λ _ l, Forall (λ r, target r ≠ Some c) l) (chains t) →
  referenced c t = false.
Proof using.
  assert (∀ l, Forall (λ r, target r ≠ Some c) l → existsb (refers c) l = false) as Hl.
  { induction 1 as [|r l Hr Hl IH]; [done|]. simpl. unfold refers at 1. by rw bool_decide_false. }
  intros Hf Hc. unfold referenced. rw Hl //. apply bool_decide_eq_false. intros (k & l & Hk & He).
  rewrite Hl in He; [done|]. by apply Hc in Hk.
Qed.

Lemma wp_flush_delete {A} c (k : Prog A) Q ch fwd :
  seq_b c "FORWARD" = false →
  Forall (λ r, target r ≠ Some c) fwd → map_Forall (λ _ l, Forall (λ r, target r ≠ Some c) l) ch →
  wp bin must_fail top k Q (mkTables (delete c ch) fwd) →
  wp bin must_fail top (run bin [lit "-F"; c]; run bin [lit "-X"; c]; k)%prog Q (mkTables ch fwd).
Proof using.
  intros Hc Hf Hch Hk.
  assert (∀ t, effect [lit "-F"; c] t = with_rules c (λ _, Some []) t) as HF by done.
  assert (∀ t, effect [lit "-X"; c] t = if bool_decide (chains t !! c = Some []) && negb (referenced c t)
    then Some (mkTables (delete c (chains t)) (forward t)) else None) as HX by done.
  destruct (ch !! c) as [l|] eqn:Hl.
  - assert (with_rules c (λ _, Some []) (mkTables ch fwd) = Some (mkTables (<[c := []]> ch) fwd)) as HF'.
    { unfold with_rules. rw Hc. simpl. by rw Hl. }
    split_and!; [done|done| |].
    { intros r _. unfold must_fail. by rw HF HF'. }
    intros r t' _. rw HF HF'. intros <-%(inj Some).
    assert (effect [lit "-X"; c] (mkTables (<[c := []]> ch) fwd) = Some (mkTables (delete c ch) fwd)) as HX'.
    { rw HX. cbn [chains forward]. rw lookup_insert_eq bool_decide_true // not_referenced //.
      - cbn [andb negb]. by rw delete_insert_eq.
      - cbn [chains]. by apply map_Forall_insert_2. }
    split_and!; [done|done| |].
    + intros r' _. unfold must_fail. by rw HX'.
    + intros r' t' _. rw HX'. by intros <-%(inj Some).
  - rewrite delete_id // in Hk. split_and!; [done|done| |].
    + intros r _ _. split_and!; [done|done|done|]. intros r' t' _. rw HX. cbn [chains]. by rw Hl.
    + intros r t' _. rw HF. unfold with_rules. rw Hc. cbn [chains]. by rw Hl.
Qed.

(** Dropping a chain with at most one jump to it. *)
Lemma wp_drop_reliable {A} c (k : Prog A) Q (b : bool) ch pre fwd :
  seq_b c "FORWARD" = false →
  Forall (λ r, target r ≠ Some c) (pre ++ fwd) → map_Forall (λ _ l, Forall (λ r, target r ≠ Some c) l) ch →
  wp bin must_fail top k Q (mkTables (delete c ch) (pre ++ fwd)) →
  wp bin must_fail top (drop_chain bin interface c k) Q
    (mkTables ch (pre ++ (if b then [jump_rule interface c] else []) ++ fwd)).
Proof using Hinterface.
  intros Hc Hf Hch Hk.
  assert (jump_rule interface c ∉ pre ++ fwd) as Hnin by (by apply not_referring_not_in).
  assert (wp bin must_fail top (run bin [lit "-F"; c]; run bin [lit "-X"; c]; k)%prog Q (mkTables ch (pre ++ fwd))) as Hfx.
  { by apply wp_flush_delete. }
  assert (∀ A (k : Prog A) Q, wp bin must_fail top k Q (mkTables ch (pre ++ fwd)) →
    wp bin must_fail top (Run bin (jump interface c (lit "-D")) (λ _, k)) Q (mkTables ch (pre ++ fwd))) as Hno.
  { intros A' k' Q' Hk'. split_and!; [done|done|done|]. intros r t' _. rw effect_unjump remove_first_None //. }
  unfold drop_chain, run4. destruct b; cbn [app]; [|by do 4 apply Hno].
  split_and!; [done|done| |].
  - intros r _. unfold must_fail. rw effect_unjump remove_first_app; [|set_solver]. done.
  - intros r t' _. rw effect_unjump remove_first_app; [|set_solver]. intros <-%(inj Some). by do 3 apply Hno.
Qed.

Lemma wp_must_reliable args Q t t' :
  effect args t = Some t' → Q (Ok tt) t' → wp bin must_fail top (must bin args) Q t.
Proof using.
  intros He HQ. split_and!; [done|done| |].
  - intros r _. unfold must_fail. by rw He.
  - intros r t'' Hr. rw He Hr. by intros <-%(inj Some).
Qed.

Lemma with_staging f ch l l' fwd :
  f l = Some l' →
  with_rules STAGING_CHAIN f (mkTables (<[STAGING_CHAIN := l]> ch) fwd) =
  Some (mkTables (<[STAGING_CHAIN := l']> ch) fwd).
Proof using.
  intros Hf. unfold with_rules. cbn [seq_b chains forward]. change (seq_b STAGING_CHAIN "FORWARD") with false.
  rw lookup_insert_eq. cbn [mbind option_bind]. rw Hf. cbn [mbind option_bind]. by rw insert_insert_eq.
Qed.

Lemma wp_append_reliable rules pre ch fwd (Q : result Error unit → Tables → Prop) :
  Q (Ok tt) (mkTables (<[STAGING_CHAIN := pre ++ rules]> ch) fwd) →
  wp bin must_fail top (append_all bin STAGING_CHAIN rules) Q (mkTables (<[STAGING_CHAIN := pre]> ch) fwd).
Proof using.
  revert pre. induction rules as [|rule rules IH]; intros pre HQ; [by rewrite app_nil_r in HQ|].
  cbn [append_all]. apply wp_bind. eapply wp_must_reliable; [by apply with_staging|]. apply IH. by rw -app_assoc.
Qed.

Lemma wp_logs_reliable rules inserts ch fwd (Q : unit → Tables → Prop) l :
  Forall (λ args, ∃ pos rule, args = lit "-I" :: STAGING_CHAIN :: pos :: rule ∧ is_log rule = true) inserts →
  without_logs l = rules →
  (∀ l, without_logs l = rules → Q tt (mkTables (<[STAGING_CHAIN := l]> ch) fwd)) →
  wp bin must_fail top (insert_logs bin inserts) Q (mkTables (<[STAGING_CHAIN := l]> ch) fwd).
Proof using.
  intros Hi Hl HQ. revert l Hl. induction Hi as [|args inserts (pos & rule & -> & Hlog) Hi IH]; intros l Hl.
  { split; [done|auto]. }
  cbn [insert_logs wp]. split_and!; [done|done| |]; intros r.
  - intros -> _. split; [done|auto].
  - intros t' -> He. change (with_rules STAGING_CHAIN (insert_at pos rule)
      (mkTables (<[STAGING_CHAIN := l]> ch) fwd) = Some t') in He.
    destruct (insert_at pos rule l) as [l'|] eqn:Hins.
    + rewrite (with_staging _ _ _ _ _ Hins) in He. apply (inj Some) in He as <-.
      apply IH. by rw (insert_at_logs _ _ _ _ Hlog Hins).
    + unfold with_rules in He. change (seq_b STAGING_CHAIN "FORWARD") with false in He. cbn [chains] in He.
      rewrite lookup_insert_eq in He. cbn [mbind option_bind] in He. by rewrite Hins in He.
Qed.

Lemma wp_staged_reliable rules ch fwd (Q : result Error unit → Tables → Prop) :
  Forall plain_rule rules → ch !! STAGING_CHAIN = None →
  (∀ l, without_logs l = rules →
    Q (Ok tt) (mkTables (<[STAGING_CHAIN := l]> ch) (jump_rule interface STAGING_CHAIN :: fwd))) →
  wp bin must_fail top (staged bin interface rules) Q (mkTables ch fwd).
Proof using.
  intros Hr Hs HQ. unfold staged. apply wp_bind. eapply wp_must_reliable.
  { change (effect [lit "-N"; STAGING_CHAIN] (mkTables ch fwd)) with
      (if bool_decide (is_Some (ch !! STAGING_CHAIN)) then None
       else Some (mkTables (<[STAGING_CHAIN := []]> ch) fwd)).
    rw Hs bool_decide_false; [done|by intros []]. }
  apply wp_bind, wp_append_reliable, wp_bind. cbn [app].
  apply (wp_logs_reliable rules); [apply log_inserts_shape|by apply without_logs_plain|].
  intros l Hl. eapply wp_must_reliable; [apply effect_jump|]. by apply HQ.
Qed.

Lemma foreign_target c l :
  c = FORWARD_CHAIN ∨ c = STAGING_CHAIN → Forall foreign l → Forall (λ r, target r ≠ Some c) l.
Proof using. intros Hc Hl. eapply Forall_impl; [exact Hl|]. intros r [? ?]. by destruct Hc as [-> | ->]. Qed.

Lemma foreign_targets (c : str) (ch : gmap str (list (list str))) :
  c = FORWARD_CHAIN ∨ c = STAGING_CHAIN → map_Forall (λ _ l, Forall foreign l) ch →
  map_Forall (λ _ l, Forall (λ r, target r ≠ Some c) l) ch.
Proof using. intros Hc Hl k l Hk. apply foreign_target; [done|]. by apply (Hl k). Qed.

Lemma wp_install_reliable rules t :
  Forall plain_rule rules → clean interface t →
  wp bin must_fail top (install bin interface rules) (λ r t, r = Ok tt ∧ clean interface t) t.
Proof using Hinterface.
  intros Hr [Hch (b & fwd & Hf & Hfw)]. destruct t as [ch f]. cbn [chains forward] in *. subst f.
  set (jf := jump_rule interface FORWARD_CHAIN).
  assert (Forall (λ r, target r ≠ Some STAGING_CHAIN) ((if b then [jf] else []) ++ fwd)) as Hs.
  { apply Forall_app; split; [|by apply foreign_target; [right|]].
    destruct b; [apply Forall_singleton|constructor]. unfold jf. rw target_jump_rule //. }
  unfold install. rewrite -> (eq_sym (app_nil_r ((if b then [jf] else []) ++ fwd))).
  apply (wp_drop_reliable STAGING_CHAIN _ _ false ch ((if b then [jf] else []) ++ fwd) []);
    rw ?app_nil_r; [done|done| |].
  { by apply foreign_targets; [right|]. }
  apply wp_bind, wp_staged_reliable; [done|by rw lookup_delete_eq|]. intros l Hl.
  apply holds_foreign in Hl as Hlf; [|done].
  set (ch' := <[STAGING_CHAIN := l]> (delete STAGING_CHAIN ch)).
  assert (map_Forall (λ _ l, Forall foreign l) ch') as Hch'.
  { apply map_Forall_insert_2; [done|]. by apply map_Forall_delete. }
  apply (wp_drop_reliable FORWARD_CHAIN _ _ b ch' [jump_rule interface STAGING_CHAIN] fwd); [done| | |].
  { constructor; [by rw target_jump_rule|]. by apply foreign_target; [left|]. }
  { by apply foreign_targets; [left|]. }
  eapply wp_must_reliable.
  { change (effect [lit "-E"; STAGING_CHAIN; FORWARD_CHAIN] ?t) with
      (l ← chains t !! STAGING_CHAIN;
       if bool_decide (is_Some (chains t !! FORWARD_CHAIN)) then None
       else Some (mkTables (map (retarget STAGING_CHAIN FORWARD_CHAIN) <$>
                              <[FORWARD_CHAIN := l]> (delete STAGING_CHAIN (chains t)))
                   (map (retarget STAGING_CHAIN FORWARD_CHAIN) (forward t)))).
    cbn [chains forward]. rw (lookup_delete_ne _ _ _ chains_ne).
    assert (ch' !! STAGING_CHAIN = Some l) as -> by apply lookup_insert_eq. cbn [mbind option_bind].
    rw lookup_delete_eq bool_decide_false; [done|by intros []]. }
  split; [done|]. split; cbn [chains forward].
  - intros k l'. rw lookup_fmap. intros (l0 & Hl0 & ->)%fmap_Some.
    assert (Forall foreign l0) as Hl0f; [|by rw retarget_foreign].
    apply lookup_insert_Some in Hl0 as [[_ <-]|[_ Hl0]]; [done|].
    apply lookup_delete_Some in Hl0 as [_ [_ Hl0]%lookup_delete_Some]. by apply Hch' in Hl0.
  - exists true, fwd. split; [|done]. cbn [map app]. by rw retarget_jump // retarget_foreign.
Qed.

End reliable.

(** ** The agent's forward filter *)

Definition family_bin (v6 : bool) : str := if v6 then lit "ip6tables" else lit "iptables".

(** What a packet gets that reaches our first jump; [None] where it meets no
    rule of ours. *)
Definition meets `{IptablesForward} (interface : str) (t : Tables) (p : FwdPacket) : option bool :=
  enforced interface t ≫= λ l, fwd_chain l p.

Lemma fwd_chain_logs `{IptablesForward} l p : fwd_chain (without_logs l) p = fwd_chain l p.
Proof.
  unfold without_logs. induction l as [|r l IH]; [done|]. cbn [List.filter fwd_chain].
  destruct (is_log r) eqn:Hr; cbn [negb fwd_chain]; rw IH; [|done].
  apply bool_decide_eq_true in Hr. by rw fwd_verdict_nflog.
Qed.

Lemma holds_meets `{IptablesForward} interface f p t :
  wf_packet p → holds (family (is_ipv6 (fw_source p)) (plan f)) (enforced interface t) →
  meets interface t p = Some (ForwardSpec.allows f p).
Proof.
  intros Hp (l & Hl & Hw). unfold meets. rw Hl. cbn [mbind option_bind]. by rw -fwd_chain_logs Hw fwd_chain_plan.
Qed.

Section agent.
Context `{IptablesForward} `{IptablesRunner World}.
Context (interface : str) (Hinterface : interface ≠ lit "-j").
Import ForwardSpec.

(** Anything can fail. *)
Definition may_fail (_ : list str) (_ : Tables) : Prop := True.

Lemma install_sound bin rules w :
  Forall plain_rule rules → settled interface (tables w bin) →
  Forall (λ w', old_or_new interface rules (tables w bin) (tables w' bin)) (visited (install bin interface rules) w) ∧
  outcome interface rules (tables w bin) (exec (install bin interface rules) w).1
    (tables (exec (install bin interface rules) w).2 bin) ∧
  ∀ bin', bin' ≠ bin → tables (exec (install bin interface rules) w).2 bin' = tables w bin'.
Proof using Hinterface. intros Hr Hs. apply (wp_sound bin may_fail); [done|]. by apply wp_install. Qed.

(** [C34] While a filter is installed over tables in which nothing jumps to the staging
    chain, whatever commands fail, a packet that reaches the agent's first jump is at
    every moment decided as before or as the new filter says.  A success leaves such
    tables again, with the new filter in force; an error leaves them with the old
    rules in force, or it came between the jump to the staging chain and its renaming,
    and then the new rules are in force there.  Only that last state does not
    keep the promise of the module comment: the next [install] from it opens a window
    ([failed_rename_opens_window]). *)
Theorem replacement_never_opens (f : ForwardFilter) (bin : str) (w : World) (p : FwdPacket)
    (Hsettled : settled interface (tables w bin)) (Hp : wf_packet p) :
  let prog := install bin interface (family (is_ipv6 (fw_source p)) (plan f)) in
  let '(r, w') := exec prog w in
  Forall (λ w', meets interface (tables w' bin) p = meets interface (tables w bin) p
                ∨ meets interface (tables w' bin) p = Some (allows f p)) (visited prog w) ∧
  match r with
  | Ok _ => settled interface (tables w' bin) ∧ meets interface (tables w' bin) p = Some (allows f p)
  | Err _ =>
      (settled interface (tables w' bin) ∧ meets interface (tables w' bin) p = meets interface (tables w bin) p)
      ∨ (first_jump interface (forward (tables w' bin)) = Some STAGING_CHAIN ∧ meets interface (tables w' bin) p = Some (allows f p))
  end.
Proof using Hinterface.
  intros prog. destruct (install_sound bin (family (is_ipv6 (fw_source p)) (plan f)) w (plain_plan _ f) Hsettled) as (Hv & Ho & _).
  fold prog in Hv, Ho. destruct (exec prog w) as [r w']. cbn [fst snd] in Ho. split.
  - eapply Forall_impl; [exact Hv|]. intros w1 [Hold|Hn]; [left; unfold meets; by rw Hold|right; by apply holds_meets].
  - destruct r as [[]|e]; cbn [outcome] in Ho.
    + destruct Ho as (Hs & _ & Hh). split; [done|by apply holds_meets].
    + destruct Ho as [[Hs Hold]|[Hj Hh]]; [left; split; [done|unfold meets; by rw Hold]|right; split; [done|by apply holds_meets]].
Qed.

Lemma exec_bind {A B} (m : Prog A) (k : A → Prog B) w :
  exec (pbind m k) w = exec (k (exec m w).1) (exec m w).2.
Proof using.
  revert w. induction m as [a|bin args k' IH]; intros w; simpl; [done|]. destruct (command w bin args). apply IH.
Qed.

(** A packet's verdict after [install], by result. *)
Definition verdict_after (f : ForwardFilter) (p : FwdPacket) (t0 t : Tables) (r : result Error unit) : Prop :=
  match r with
  | Ok _ => meets interface t p = Some (allows f p)
  | Err _ => meets interface t p = meets interface t0 p ∨ meets interface t p = Some (allows f p)
  end.

Lemma outcome_verdict f p t0 t r :
  wf_packet p → outcome interface (family (is_ipv6 (fw_source p)) (plan f)) t0 r t → verdict_after f p t0 t r.
Proof using.
  intros Hp. destruct r as [[]|e]; simpl.
  - intros (_ & _ & Hh). by apply holds_meets.
  - intros [[_ Ho]|[_ Hh]]; [left; unfold meets; by rw Ho|right; by apply holds_meets].
Qed.

(** Installing a filter for both families: success puts it in force in both
    and readies the tables for the next replacement; after an error each family
    still enforces the old rules or already the new ones. *)
Theorem install_forward_filter_enforces (f : ForwardFilter) (w : World) (p : FwdPacket)
    (Hsettled : ∀ v6, settled interface (tables w (family_bin v6))) (Hp : wf_packet p) :
  let '(r, w') := exec (install_forward_filter (Some f) interface) w in
  let bin := family_bin (is_ipv6 (fw_source p)) in
  match r with
  | Ok _ => (∀ v6, settled interface (tables w' (family_bin v6)))
            ∧ meets interface (tables w' bin) p = Some (allows f p)
  | Err _ => meets interface (tables w' bin) p = meets interface (tables w bin) p
             ∨ meets interface (tables w' bin) p = Some (allows f p)
  end.
Proof using Hinterface.
  pose proof (install_sound (lit "iptables") (fwd4 (plan f)) w (plain_plan false f) (Hsettled false)) as (_ & Ho4 & Hk4).
  unfold install_forward_filter. rw exec_bind.
  destruct (exec (install (lit "iptables") interface (fwd4 (plan f))) w) as [r4 w4]. cbn [fst snd] in *.
  pose proof (Hk4 (lit "ip6tables") ltac:(intros Heq; by vm_compute in Heq)) as Hk6.
  destruct r4 as [[]|e]; cbn [exec].
  - assert (settled interface (tables w4 (lit "ip6tables"))) as Hs6 by (rw Hk6; apply (Hsettled true)).
    pose proof (install_sound (lit "ip6tables") (fwd6 (plan f)) w4 (plain_plan true f) Hs6) as (_ & Ho6 & Hk).
    destruct (exec (install (lit "ip6tables") interface (fwd6 (plan f))) w4) as [r6 w6]. cbn [fst snd] in *.
    pose proof (Hk (lit "iptables") ltac:(intros Heq; by vm_compute in Heq)) as Hk4'.
    rewrite -Hk4' in Ho4. rewrite Hk6 in Ho6.
    assert (verdict_after f p (tables w (family_bin (is_ipv6 (fw_source p))))
      (tables w6 (family_bin (is_ipv6 (fw_source p)))) (if is_ipv6 (fw_source p) then r6 else Ok tt)) as Hv.
    { apply outcome_verdict; [done|]. by destruct (is_ipv6 (fw_source p)). }
    destruct r6 as [[]|e]; [split|].
    + intros []; [apply Ho6|apply Ho4].
    + by destruct (is_ipv6 (fw_source p)).
    + destruct (is_ipv6 (fw_source p)); [done|by right].
  - destruct (is_ipv6 (fw_source p)) eqn:Hv6; cbn [family_bin].
    + left. unfold meets. by rw Hk6.
    + apply (outcome_verdict f p _ _ (Err e)); [done|]. by rw Hv6.
Qed.

(** No command fails that could have succeeded. *)
Definition reliable : Prop :=
  ∀ w bin args r w', command w bin args = (r, w') → succeeded r = false → effect args (tables w bin) = None.

Lemma clean_settled t : clean interface t → settled interface t.
Proof using Hinterface.
  intros [_ (b & fwd & Hf & Hfw)]. unfold settled. rw Hf not_elem_of_app. split.
  - destruct b; [|apply not_elem_of_nil]. apply not_elem_of_cons. split; [|apply not_elem_of_nil].
    intros Heq. apply (f_equal (λ l, l !! 7%nat)) in Heq. by vm_compute in Heq.
  - apply not_referring_not_in; [done|]. by apply foreign_target; [right|].
Qed.

Lemma install_reliable bin rules w :
  reliable → Forall plain_rule rules → clean interface (tables w bin) →
  (exec (install bin interface rules) w).1 = Ok tt ∧ clean interface (tables (exec (install bin interface rules) w).2 bin).
Proof using Hinterface.
  intros Hrel Hr Hc. apply (wp_sound bin must_fail (λ _, True) _ (λ r t, r = Ok tt ∧ clean interface t)).
  - intros w1 args r w2. apply Hrel.
  - by apply wp_install_reliable.
Qed.

(** On clean tables and with a runner that fails only where iptables must
    refuse, installing always succeeds, enforces the filter and leaves clean
    tables, so that it can be repeated. *)
Theorem install_forward_filter_succeeds (f : ForwardFilter) (w : World)
    (Hreliable : reliable) (Hclean : ∀ v6, clean interface (tables w (family_bin v6))) :
  let '(r, w') := exec (install_forward_filter (Some f) interface) w in
  r = Ok tt ∧ ∀ v6, clean interface (tables w' (family_bin v6)).
Proof using Hinterface.
  pose proof (install_reliable (lit "iptables") (fwd4 (plan f)) w Hreliable (plain_plan false f) (Hclean false)) as [Hr4 Hc4].
  pose proof (install_sound (lit "iptables") (fwd4 (plan f)) w (plain_plan false f) (clean_settled _ (Hclean false))) as (_ & _ & Hk4).
  unfold install_forward_filter. rw exec_bind.
  destruct (exec (install (lit "iptables") interface (fwd4 (plan f))) w) as [r4 w4]. cbn [fst snd] in *. subst r4.
  assert (clean interface (tables w4 (lit "ip6tables"))) as Hc6.
  { rw Hk4; [apply (Hclean true)|intros Heq; by vm_compute in Heq]. }
  pose proof (install_reliable (lit "ip6tables") (fwd6 (plan f)) w4 Hreliable (plain_plan true f) Hc6) as [Hr6 Hc6'].
  pose proof (install_sound (lit "ip6tables") (fwd6 (plan f)) w4 (plain_plan true f) (clean_settled _ Hc6)) as (_ & _ & Hk6).
  destruct (exec (install (lit "ip6tables") interface (fwd6 (plan f))) w4) as [r6 w6]. cbn [fst snd] in *.
  split; [done|]. intros []; [done|]. cbn [family_bin]. rw Hk6; [done|intros Heq; by vm_compute in Heq].
Qed.

End agent.

(** ** A concrete runner *)

(** A counter of commands, the tables per binary, and which commands the
    machine fails to run (a held lock, say). *)
Definition Machine : Type := nat * gmap str Tables.

Definition machine_tables (w : Machine) (bin : str) : Tables := default (mkTables ∅ []) (w.2 !! bin).

Definition machine_command (down : nat → bool) (w : Machine) (bin : str) (args : list str) : Reply * Machine :=
  match effect args (machine_tables w bin) with
  | Some t => if down w.1 then (Some (false, []), (S w.1, w.2)) else (Some (true, []), (S w.1, <[bin := t]> w.2))
  | None => (Some (false, []), (S w.1, w.2))
  end.

Definition machine (down : nat → bool) : IptablesRunner Machine.
Proof.
  refine {| command := machine_command down; tables := machine_tables |}.
  - intros [n m] bin args r w'. unfold machine_command. destruct (effect _ _) as [t|] eqn:He; [destruct (down _)|];
      intros [= <- <-]; cbn [succeeded]; [done| |done]. unfold machine_tables. cbn [snd]. by rw lookup_insert_eq.
  - intros [n m] bin args r w' bin'. unfold machine_command. destruct (effect _ _) as [t|] eqn:He; [destruct (down _)|];
      intros [= <- <-]; try done. intros Hb. unfold machine_tables. cbn [snd]. by rw lookup_insert_ne.
Defined.

Definition empty_machine : Machine := (O, ∅).
Definition overlay : str := lit "blaktail0".

Lemma machine_reliable : @reliable Machine (machine (λ _, false)).
Proof.
  intros [n m] bin args r w'. cbn. unfold machine_command. destruct (effect _ _) as [t|]; [|done]. by intros [= <- <-].
Qed.

Lemma empty_clean interface v6 : clean interface (machine_tables empty_machine (family_bin v6)).
Proof. destruct v6; (split; [apply map_Forall_empty|]); by exists false, []. Qed.

Lemma overlay_ne : overlay ≠ lit "-j".
Proof. intros Heq. by vm_compute in Heq. Qed.

(** The tenth command fails. *)
Lemma replacement_never_opens_witness :
  let '(r, w') := @exec Machine (machine (λ n, n =? 9)%nat) _ (install (lit "iptables") overlay (fwd4 (plan sample_filter))) empty_machine in
  Forall (λ w', meets overlay (machine_tables w' (lit "iptables")) (sample_packet 167772167) = None
                ∨ meets overlay (machine_tables w' (lit "iptables")) (sample_packet 167772167) = Some false)
    (@visited Machine (machine (λ n, n =? 9)%nat) _
       (install (lit "iptables") overlay (fwd4 (plan sample_filter))) empty_machine) ∧
  r ≠ Ok tt ∧ settled overlay (machine_tables w' (lit "iptables")).
Proof.
  pose proof (@replacement_never_opens simple_forward Machine (machine (λ n, n =? 9)%nat) overlay overlay_ne
    sample_filter (lit "iptables") empty_machine (sample_packet 167772167) ltac:(apply not_elem_of_nil) ltac:(by vm_compute)) as Ht.
  cbv zeta in Ht. change (family (is_ipv6 (fw_source (sample_packet 167772167))) (plan sample_filter)) with (fwd4 (plan sample_filter)) in Ht.
  destruct (exec (install (lit "iptables") overlay (fwd4 (plan sample_filter))) empty_machine) as [r w'] eqn:He.
  destruct Ht as [Hv Ho]. split; [exact Hv|].
  assert (r = (@exec Machine (machine (λ n, n =? 9)%nat) _ (install (lit "iptables") overlay (fwd4 (plan sample_filter))) empty_machine).1) as Hr by by rewrite He.
  assert (first_jump overlay (forward (machine_tables w' (lit "iptables"))) = None) as Hj.
  { change w' with (r, w').2. rewrite -He. vm_compute. reflexivity. }
  destruct r as [[]|e]; [vm_compute in Hr; discriminate|]. split; [discriminate|].
  destruct Ho as [[Hs _]|[Hx _]]; [exact Hs|]. rewrite Hj in Hx. discriminate.
Defined.

Lemma install_forward_filter_enforces_witness :
  let '(r, w') := @exec Machine (machine (λ n, n =? 15)%nat) _
    (install_forward_filter (Some sample_filter) overlay) empty_machine in
  r = Err (Message (lit "iptables -I FORWARD failed while installing the forward filter"))
  ∧ (meets overlay (machine_tables w' (lit "iptables")) (sample_packet 167772165) = None
     ∨ meets overlay (machine_tables w' (lit "iptables")) (sample_packet 167772165) = Some true).
Proof.
  pose proof (@install_forward_filter_enforces simple_forward Machine (machine (λ n, n =? 15)%nat) overlay overlay_ne
    sample_filter empty_machine (sample_packet 167772165) (λ v6, ltac:(destruct v6; apply not_elem_of_nil))
    ltac:(by vm_compute)) as Ht.
  assert ((@exec Machine (machine (λ n, n =? 15)%nat) _
    (install_forward_filter (Some sample_filter) overlay) empty_machine).1 = Err (Message
      (lit "iptables -I FORWARD failed while installing the forward filter"))) as Hr by (vm_compute; reflexivity).
  destruct (exec _ _) as [r w']. cbn [fst] in Hr. subst r. split; [reflexivity|exact Ht].
Defined.

Lemma install_forward_filter_succeeds_witness :
  (@exec Machine (machine (λ _, false)) _ (install_forward_filter (Some sample_filter) overlay) empty_machine).1 = Ok tt.
Proof.
  pose proof (@install_forward_filter_succeeds Machine (machine (λ _, false)) overlay overlay_ne sample_filter
    empty_machine machine_reliable (empty_clean overlay)) as Ht.
  destruct (exec _ _) as [r w']. apply Ht.
Defined.

(** The promise does not survive a failed rename: [install] then reports an
    error with the new rules in force under the staging name, and the next
    [install] begins by dropping the jump to that name, so that packets meet no
    rule of the agent until the new chain is jumped to. *)
Theorem failed_rename_opens_window :
  let down n := (n =? 22)%nat in
  let prog := install (lit "iptables") overlay (fwd4 (plan sample_filter)) in
  let denied := sample_packet 167772167 in
  let r := @exec Machine (machine down) _ prog empty_machine in
  r.1 = Err (Message (lit "iptables -E BLAKTAIL-FWD-NEW failed while installing the forward filter"))
  ∧ meets overlay (machine_tables r.2 (lit "iptables")) denied = Some false
  ∧ existsb (λ w', bool_decide (meets overlay (machine_tables w' (lit "iptables")) denied = None))
      (@visited Machine (machine down) _ prog r.2) = true.
Proof. split; [|split]; vm_compute; reflexivity. Qed.

(** ** Where the log rules go *)

(** The log rule of a body. *)
Definition log_rule (forward : bool) (body : list str) : option (list str) := drop 3 <$> log_insert [] forward O body.

(** Runs [-I chain pos rule] commands on one chain. *)
Fixpoint apply_inserts (inserts : list (list str)) (l : list (list str)) : option (list (list str)) :=
  match inserts with
  | [] => Some l
  | args :: inserts =>
      match args with
      | op :: _ :: pos :: rule => if seq_b op "-I" then insert_at pos rule l ≫= apply_inserts inserts else None
      | _ => None
      end
  end.

(** Every body, after its log rule where it has one. *)
Definition with_logs (forward : bool) (bodies : list (list str)) : list (list str) :=
  flat_map (λ b, match log_rule forward b with Some r => [r; b] | None => [b] end) bodies.

Lemma log_insert_rule chain forward pos body :
  log_insert chain forward pos body = (λ r, lit "-I" :: chain :: dec (Z.of_nat pos) :: r) <$> log_rule forward body.
Proof.
  unfold log_rule, log_insert. destruct (position (lit "-j") body) as [n|]; cbn [mbind option_bind fmap option_fmap option_map]; [|done].
  by case_match.
Qed.

Lemma insert_at_here pre rule l :
  Z.of_nat (length pre) < U32_MAX → insert_at (dec (Z.of_nat (length pre + 1))) rule (pre ++ l) = Some (pre ++ rule :: l).
Proof.
  intros Hlen. unfold insert_at. rw parse_uint_dec; [|lia]. cbn [mbind option_bind]. rw length_app.
  destruct (Z.leb_spec 1 (Z.of_nat (length pre + 1))); [|lia].
  destruct (Z.leb_spec (Z.of_nat (length pre + 1)) (Z.of_nat (length pre + length l) + 1)); [|lia]. cbn [andb].
  replace (Z.to_nat (Z.of_nat (length pre + 1) - 1)) with (length pre) by lia.
  by rw take_app_length drop_app_length.
Qed.

Lemma apply_log_inserts chain forward bodies i n pre :
  length pre = (i + n)%nat → Z.of_nat (length pre) + 2 * Z.of_nat (length bodies) < U32_MAX →
  apply_inserts (log_inserts chain forward i n bodies) (pre ++ bodies) = Some (pre ++ with_logs forward bodies).
Proof.
  revert i n pre. induction bodies as [|b bodies IH]; intros i n pre Hl Hb; [done|].
  cbn [length] in Hb. cbn [log_inserts with_logs flat_map]. fold (with_logs forward bodies). rw log_insert_rule.
  destruct (log_rule forward b) as [r|]; cbn [fmap option_fmap option_map].
  - cbn [apply_inserts]. change (seq_b (lit "-I") "-I") with true. cbv iota.
    replace (i + 1 + n)%nat with (length pre + 1)%nat by lia. rw insert_at_here; [|lia]. cbn [mbind option_bind].
    replace (pre ++ r :: b :: bodies) with ((pre ++ [r; b]) ++ bodies) by by rw -app_assoc.
    rw IH; [by rw -app_assoc|rw length_app; simpl; lia|rw length_app; simpl; lia].
  - replace (pre ++ b :: bodies) with ((pre ++ [b]) ++ bodies) by by rw -app_assoc.
    rw IH; [by rw -app_assoc|rw length_app; simpl; lia|rw length_app; simpl; lia].
Qed.

(** Run after the chain's rules, the log inserts of [drop_log_inserts] put
    in front of each rejecting rule, and of no other, a log rule with the same
    matches, every rule keeping its place. *)
Theorem drop_logs_precede_rejects (chain : str) (bodies : list (list str)) (forward : bool)
    (Hlen : 2 * Z.of_nat (length bodies) < U32_MAX) :
  apply_inserts (drop_log_inserts chain bodies forward) bodies = Some (with_logs forward bodies) ∧
  (∀ body, is_Some (log_rule forward body) ↔ target body = Some (lit "REJECT")) ∧
  (∀ body r, log_rule forward body = Some r → ∃ n tail,
     position (lit "-j") body = Some n ∧ r = take n body ++ tail ∧ target r = Some (lit "NFLOG")).
Proof.
  split_and!.
  - by apply (apply_log_inserts chain forward bodies O O []).
  - intros body. unfold log_rule, log_insert, target.
    destruct (position (lit "-j") body) as [n|]; cbn [mbind option_bind fmap option_fmap option_map]; [|split; [by intros []|done]].
    case_bool_decide as Hj; cbn [negb]; split; [done|by eexists|by intros []|done].
  - intros body r Hr. pose proof (log_insert_rule [] forward O body) as Hi. rewrite Hr in Hi.
    apply log_insert_shape in Hi as (r' & Heq & Ht%bool_decide_eq_true).
    unfold log_rule, log_insert in Hr. destruct (position (lit "-j") body) as [n|]; cbn [mbind option_bind fmap option_fmap option_map] in Hr; [|done].
    case_match; [done|]. apply (inj Some) in Hr. eexists n, _. split; [done|]. split; [by rw -Hr|]. congruence.
Qed.

Lemma drop_logs_precede_rejects_witness :
  length (with_logs true (fwd4 (plan sample_filter))) = 8%nat ∧
  apply_inserts (drop_log_inserts STAGING_CHAIN (fwd4 (plan sample_filter)) true) (fwd4 (plan sample_filter)) =
  Some (with_logs true (fwd4 (plan sample_filter))).
Proof.
  split; [by vm_compute|]. apply (drop_logs_precede_rejects STAGING_CHAIN (fwd4 (plan sample_filter)) true). by vm_compute.
Defined.
