(* ===== verification/CoordAcl.v ===== *)
(** * The coordinator's policy engine

    The access-control document of [blaktail-coord/src/lib.rs] ([Acl], its
    validation, the flow evaluator, the compiler of a peer's ingress grants),
    the folder-sharing section's validation in [shares.rs], and the check of a
    compiled grant in [policy_explain.rs].  An error's text is represented by a
    constructor with the values it names; the clock is an argument. *)

From S2P Require Import Prelude Text Net Policy.

(** ** Ordered sets and maps of strings *)

Module BTree.

(** Byte order, as [str] compares. *)
Fixpoint str_ltb (a b : str) : bool :=
  match a, b with
  | _, [] => false
  | [], _ :: _ => true
  | x :: a, y :: b => (x <? y) || ((x =? y) && str_ltb a b)
  end.

(** A [BTreeSet<String>] is the ascending list of its elements. *)
Fixpoint insert (x : str) (l : list str) : list str :=
  match l with
  | [] => [x]
  | y :: r => if bool_decide (x = y) then l else if str_ltb x y then x :: l else y :: insert x r
  end.

Definition extend (l xs : list str) : list str := foldl (λ acc x, insert x acc) l xs.
Definition difference (l m : list str) : list str := List.filter (λ x, negb (bool_decide (x ∈ m))) l.

(** A [BTreeMap<String, A>] is its entries by ascending key. *)
Definition map_of (A : Type) : Type := list (str * A).
Definition get {A} (k : str) (m : map_of A) : option A :=
  snd <$> find (λ e, bool_decide (e.1 = k)) m.
(** [entry(k).or_insert(v0)], then [f] on the value. *)
Fixpoint update {A} (k : str) (v0 : A) (f : A → A) (m : map_of A) : map_of A :=
  match m with
  | [] => [(k, f v0)]
  | (k', v) :: r =>
      if bool_decide (k = k') then (k', f v) :: r
      else if str_ltb k k' then (k, f v0) :: m
      else (k', v) :: update k v0 f r
  end.
Definition put {A} (k : str) (v : A) (m : map_of A) : map_of A := update k v (λ _, v) m.
Definition contains_key {A} (k : str) (m : map_of A) : bool := bool_decide (is_Some (get k m)).

End BTree.

(** ** The policy document *)

Inductive Role := Owner | Admin | Member | NetworkAdmin | Auditor.
#[export] Instance Role_eq_dec : EqDecision Role.
Proof. solve_decision. Defined.

Definition role_str (r : Role) : str :=
  match r with
  | Owner => lit "owner" | Admin => lit "admin" | Member => lit "member"
  | NetworkAdmin => lit "network_admin" | Auditor => lit "auditor"
  end.

Inductive DeviceTag := Office | Ranger | Store.
#[export] Instance DeviceTag_eq_dec : EqDecision DeviceTag.
Proof. solve_decision. Defined.

Definition tag_str (t : DeviceTag) : str :=
  match t with Office => lit "office" | Ranger => lit "ranger" | Store => lit "store" end.

Inductive AclDefaults := SameTag | DenyAll.

Inductive Action := Allow | Deny.
#[export] Instance Action_eq_dec : EqDecision Action.
Proof. solve_decision. Defined.

Inductive AclSshAction := SshAllow | SshDeny | SshCheck.
#[export] Instance AclSshAction_eq_dec : EqDecision AclSshAction.
Proof. solve_decision. Defined.

Inductive AclProtocol := AclTcp | AclUdp | AclIcmp.
#[export] Instance AclProtocol_eq_dec : EqDecision AclProtocol.
Proof. solve_decision. Defined.

Record AclRule := mkAclRule {
  action : Action;
  src_roles : list Role;
  src_tags : list DeviceTag;
  src_groups : list str;
  dst_roles : list Role;
  dst_tags : list DeviceTag;
  dst_groups : list str;
  dst_hosts : list str;
  dst_ports : list str;
  protocols : list AclProtocol;
  posture : list str
}.

Record AclSshRule := mkAclSshRule {
  ssh_action : AclSshAction;
  ssh_src_roles : list Role;
  ssh_src_tags : list DeviceTag;
  ssh_src_groups : list str;
  ssh_dst_roles : list Role;
  ssh_dst_tags : list DeviceTag;
  ssh_dst_groups : list str;
  users : list str;
  check_period_secs : option Z;
  ssh_posture : list str
}.

Record AclTest := mkAclTest {
  test_name : str;
  test_src_role : option Role;
  test_src_tags : list DeviceTag;
  test_src_user : str;
  test_src_email : str;
  test_dst_role : option Role;
  test_dst_tags : list DeviceTag;
  test_dst_user : str;
  test_dst_email : str;
  test_dst_host : str;
  test_dst_port : option Z;
  test_protocol : option AclProtocol;
  test_ssh_user : str;
  test_src_posture : list str;
  test_allow : bool
}.

Record DriveGrant := mkDriveGrant {
  dg_src_roles : list str;
  dg_src_tags : list str;
  dg_src_groups : list str;
  dg_dst_roles : list str;
  dg_dst_tags : list str;
  dg_dst_groups : list str;
  dg_same_user : bool;
  dg_shares : list str;
  dg_access : str
}.

Record DrivePolicy := mkDrivePolicy { dp_share : list str; dp_access : list str; dp_grants : list DriveGrant }.

Record Acl := mkAcl {
  version : Z;
  defaults : AclDefaults;
  groups : BTree.map_of (list str);
  tag_owners : BTree.map_of (list str);
  hosts : BTree.map_of str;
  rules : list AclRule;
  ssh : list AclSshRule;
  tests : list AclTest;
  drive : option DrivePolicy
}.

Record Subject := mkSubject {
  role : Role;
  s_tags : list DeviceTag;
  user_id : str;
  email : str;
  passed_posture : list str;
  authenticated_at : option Z
}.

Definition subject_new (r : Role) (t : list DeviceTag) : Subject := mkSubject r t [] [] [] None.

(** [ApiError::BadRequest] with the message each constructor stands for. *)
Inductive AclError :=
| UnsupportedVersion (v : Z)
| DriveNeedsSelectors | DriveTooManyGrants | DriveSelectorTag (s : str) | DriveSelectorGroup (s : str)
| DriveSelectorForm (s : str) | DriveGrantSelects | DriveGrantShares | ShareName | DriveGrantAccess
| DriveGrantGroup (s : str) | DriveGrantRole (s : str) | DriveGrantTag (s : str)
| TooManyTagOwners | UnknownTag (s : str) | TagWithoutOwner (s : str) | EmptyOwner (s : str)
| TooManyTests | TooManyHosts | HostName (s : str)
| HostEmpty | HostDefaultRoute | HostNotAddress (s : str) | HostPrefix (s : str) | HostNotNetwork (s : str)
| HostNotPrivate (s : str)
| TooManyGroups | GroupName (s : str) | GroupEmpty (s : str) | GroupTooLarge (s : str) | GroupEmptyMember (s : str)
| RuleSelectsNothing | RuleUnknownGroup (s : str) | RuleUnknownHost (s : str) | TooManyPorts
| PortForm (s : str) | IcmpWithPorts
| PostureOnDeny | TooManyPostures | PostureName (s : str)
| TooManySshRules | SshSelectsNothing | SshUnknownGroup (s : str) | SshUserCount | SshUser (s : str)
| CheckPeriodRange | CheckPeriodAction
| TestUnknownHost (s : str) | TestPortZero | TestIcmpPort | TestSshNames | TestSshUser (s : str)
| TestFailed (index : nat) (expected got : bool).

(** ** Specifications and selectors *)

Definition SSH_PORT : Z := 22.
Definition DEFAULT_SSH_CHECK_PERIOD_SECS : Z := 12 * 60 * 60.

Definition parse_acl_port_spec (value : str) : result AclError (Z * Z) :=
  let value := trim value in
  if seq_b value "*" then Ok (1, 65535)
  else
    let '(s, e) := default (value, value) (split_once 45 value) in
    let? s := ok_or (parse_u16 s) (PortForm value) in
    let? e := ok_or (parse_u16 e) (PortForm value) in
    if (s =? 0) || (e =? 0) || (e <? s) then Err (PortForm value) else Ok (s, e).

(** [parse_acl_port_spec(spec).is_ok_and(|(a, b)| (a..=b).contains(&port))] *)
Definition spec_covers (spec : str) (port : Z) : bool :=
  match parse_acl_port_spec spec with Ok r => in_range r port | Err _ => false end.

Definition specs_cover (specs : list str) (port : Z) : bool := existsb (λ spec, spec_covers spec port) specs.

Definition port_spec_matches (specs : list str) (port : option Z) : bool :=
  match specs, port with
  | [], _ => true
  | _, None => true
  | _, Some port => specs_cover specs port
  end.

Definition protocol_matches (ps : list AclProtocol) (protocol : option AclProtocol) : bool :=
  match protocol with
  | None => true
  | Some wanted => (length ps =? 0)%nat || bool_decide (wanted ∈ ps)
  end.

Definition subject_in_group (s : Subject) (members : list str) : bool :=
  existsb (λ member,
    let member := trim member in
    if (length member =? 0)%nat then false
    else (negb (length (user_id s) =? 0)%nat && eq_ignore_ascii_case member (trim (user_id s)))
         || (negb (length (email s) =? 0)%nat && eq_ignore_ascii_case member (trim (email s)))) members.

Definition selector (rs : list Role) (ts : list DeviceTag) (gs : list str) (s : Subject)
    (named : BTree.map_of (list str)) : bool :=
  ((length rs =? 0)%nat || bool_decide (role s ∈ rs))
  && ((length ts =? 0)%nat || existsb (λ t, bool_decide (t ∈ s_tags s)) ts)
  && ((length gs =? 0)%nat
      || existsb (λ name, match BTree.get name named with
                          | Some members => subject_in_group s members
                          | None => false
                          end) gs).

Definition posture_satisfied (required : list str) (s : Subject) : bool :=
  forallb (λ name, bool_decide (name ∈ passed_posture s)) required.

(** [i64::saturating_sub], and [u64 as i64]. *)
Definition sat_sub_i64 (a b : Z) : Z := Z.max (- 2 ^ 63) (Z.min (2 ^ 63 - 1) (a - b)).
Definition as_i64 (z : Z) : Z := if z <? 2 ^ 63 then z else z - 2 ^ 64.

Definition ssh_source_eligible (now : Z) (rule : AclSshRule) (s : Subject) : bool :=
  if negb (posture_satisfied (ssh_posture rule) s) then false
  else if negb (bool_decide (ssh_action rule = SshCheck)) then true
  else
    let period := as_i64 (default DEFAULT_SSH_CHECK_PERIOD_SECS (check_period_secs rule)) in
    match authenticated_at s with
    | Some issued => sat_sub_i64 now issued <=? period
    | None => false
    end.

(** ** The evaluator and the compiler *)

Section acl.
Context (acl : Acl) (now : Z).

Definition rule_matches (rule : AclRule) (s d : Subject) (port : option Z) (protocol : option AclProtocol)
    (host : option str) : bool :=
  if negb (selector (src_roles rule) (src_tags rule) (src_groups rule) s (groups acl))
     || negb (posture_satisfied (posture rule) s)
  then false
  else if match host with
          | Some name => negb (length (dst_hosts rule) =? 0)%nat && negb (bool_decide (name ∈ dst_hosts rule))
          | None => negb (length (dst_hosts rule) =? 0)%nat
          end
  then false
  else if negb (selector (dst_roles rule) (dst_tags rule) (dst_groups rule) d (groups acl)) then false
  else port_spec_matches (dst_ports rule) port && protocol_matches (protocols rule) protocol.

Definition ssh_source (rule : AclSshRule) (s : Subject) : bool :=
  selector (ssh_src_roles rule) (ssh_src_tags rule) (ssh_src_groups rule) s (groups acl).
Definition ssh_destination (rule : AclSshRule) (d : Subject) : bool :=
  selector (ssh_dst_roles rule) (ssh_dst_tags rule) (ssh_dst_groups rule) d (groups acl).

Definition ssh_subjects_match (rule : AclSshRule) (s d : Subject) : bool :=
  ssh_source rule s && ssh_destination rule d.

Definition ssh_governed (s d : Subject) : bool :=
  existsb (λ rule, ssh_destination rule d
                   && (negb (bool_decide (ssh_action rule = SshDeny)) || ssh_source rule s)) (ssh acl).

(** The state of the loop of [ssh_grant]: allow, deny, allow_star, deny_star. *)
Definition ssh_collect (s d : Subject) (acc : list str * list str * bool * bool) (rule : AclSshRule) :
    list str * list str * bool * bool :=
  let '(allow, deny, allow_star, deny_star) := acc in
  if negb (ssh_subjects_match rule s d) || negb (ssh_source_eligible now rule s) then acc
  else
    let star := existsb (λ u, seq_b u "*") (users rule) in
    let named := List.filter (λ u, negb (seq_b u "*")) (users rule) in
    match ssh_action rule with
    | SshDeny => (allow, BTree.extend deny named, allow_star, deny_star || star)
    | SshAllow | SshCheck => (BTree.extend allow named, deny, allow_star || star, deny_star)
    end.

Definition ssh_grant (s d : Subject) : list str * list str :=
  let '(allow, deny, allow_star, deny_star) := foldl (ssh_collect s d) ([], [], false, false) (ssh acl) in
  if deny_star : bool then ([], [])
  else if allow_star : bool then ([lit "*"], deny)
  else (BTree.difference allow deny, []).

Definition ssh_rule_matches (rule : AclSshRule) (s d : Subject) (user : str) : bool :=
  if negb (ssh_source rule s) then false
  else if negb (ssh_destination rule d) then false
  else ssh_source_eligible now rule s && existsb (λ a, seq_b a "*" || bool_decide (a = user)) (users rule).

Definition allows_ssh (s d : Subject) (user : str) : bool :=
  let matching := List.filter (λ rule, ssh_rule_matches rule s d user) (ssh acl) in
  if existsb (λ rule, bool_decide (ssh_action rule = SshDeny)) matching then false
  else existsb (λ rule, bool_decide (ssh_action rule = SshAllow) || bool_decide (ssh_action rule = SshCheck)) matching.

Definition implicit_default_allows (s d : Subject) : bool :=
  match defaults acl with
  | DenyAll => false
  | SameTag => ((length (s_tags s) =? 0)%nat && (length (s_tags d) =? 0)%nat)
               || existsb (λ t, bool_decide (t ∈ s_tags d)) (s_tags s)
  end.

Definition allows_flow (s d : Subject) (port : option Z) (protocol : option AclProtocol) (host : option str) : bool :=
  let matching := List.filter (λ r, rule_matches r s d port protocol host) (rules acl) in
  if existsb (λ r, bool_decide (action r = Deny)) matching then false
  else if bool_decide (host = None) && bool_decide (port = Some SSH_PORT)
          && (bool_decide (protocol = None) || bool_decide (protocol = Some AclTcp))
          && ssh_governed s d && (length (ssh_grant s d).1 =? 0)%nat
  then false
  else if existsb (λ r, bool_decide (action r = Allow)) matching then true
  else if bool_decide (is_Some host) then false
  else match defaults acl with
       | DenyAll => false
       | SameTag =>
           if (length (s_tags s) =? 0)%nat && (length (s_tags d) =? 0)%nat then true
           else existsb (λ t, bool_decide (t ∈ s_tags d)) (s_tags s)
       end.

(** The sets [collect_service_specs] fills: TCP, UDP, ICMP. *)
Definition Specs : Type := list str * list str * bool.

Definition collect_service_specs (rule : AclRule) (acc : Specs) : Specs :=
  let '(tcp, udp, icmp) := acc in
  let all_protocols := (length (protocols rule) =? 0)%nat in
  let tcp_ok := all_protocols || bool_decide (AclTcp ∈ protocols rule) in
  let udp_ok := all_protocols || bool_decide (AclUdp ∈ protocols rule) in
  let icmp_ok := all_protocols || bool_decide (AclIcmp ∈ protocols rule) in
  if (length (dst_ports rule) =? 0)%nat then
    (if tcp_ok then BTree.insert (lit "1-65535") tcp else tcp,
     if udp_ok then BTree.insert (lit "1-65535") udp else udp,
     if icmp_ok then true else icmp)
  else
    (if tcp_ok then BTree.extend tcp (dst_ports rule) else tcp,
     if udp_ok then BTree.extend udp (dst_ports rule) else udp, icmp).

Definition unrestricted (rule : AclRule) : bool :=
  (length (dst_ports rule) =? 0)%nat && (length (protocols rule) =? 0)%nat.

(** One deny rule: its own sets, merged into the accumulated ones. *)
Definition collect_denied (acc : Specs) (rule : AclRule) : Specs :=
  let '(deny_tcp, deny_udp, deny_icmp) := acc in
  let '(t, u, i) := collect_service_specs rule ([], [], false) in
  (BTree.extend deny_tcp t, BTree.extend deny_udp u, deny_icmp || i).

Definition peer_ingress_for (s d : Subject) (ssh_users_enforced : bool) : Ingress :=
  let '(ssh_users, ssh_deny_users) := ssh_grant s d in
  let ssh_restricted := negb ((length ssh_users =? 1)%nat && bool_decide (head ssh_users = Some (lit "*"))
                              && (length ssh_deny_users =? 0)%nat) in
  let ssh_open := negb (length ssh_users =? 0)%nat && (ssh_users_enforced || negb ssh_restricted) in
  let close_ssh := ssh_governed s d && negb ssh_open in
  let matching := List.filter (λ rule, rule_matches rule s d None None None) (rules acl) in
  let denies := List.filter (λ rule, bool_decide (action rule = Deny)) matching in
  let allows := List.filter (λ rule, bool_decide (action rule = Allow)) matching in
  if existsb unrestricted denies then mkIngress false [] [] false [] [] false ssh_users ssh_deny_users
  else
    let all := implicit_default_allows s d || existsb unrestricted allows in
    let '(tcp, udp, icmp) :=
      if all then ([], [], all) else foldl (λ acc rule, collect_service_specs rule acc) ([], [], all) allows in
    let '(deny_tcp, deny_udp, deny_icmp) := foldl collect_denied ([], [], false) denies in
    let icmp := if deny_icmp : bool then false else icmp in
    let deny_tcp := if close_ssh && negb (specs_cover deny_tcp SSH_PORT)
                    then BTree.insert (dec SSH_PORT) deny_tcp else deny_tcp in
    let tcp := if negb all && ssh_open && negb (specs_cover deny_tcp SSH_PORT) && negb (specs_cover tcp SSH_PORT)
               then BTree.insert (dec SSH_PORT) tcp else tcp in
    mkIngress all tcp udp icmp deny_tcp deny_udp deny_icmp ssh_users ssh_deny_users.

Definition allows (s d : Subject) : bool :=
  let ingress := peer_ingress_for s d true in
  all ingress || icmp ingress || negb (length (tcp ingress) =? 0)%nat || negb (length (udp ingress) =? 0)%nat.

End acl.

(** ** Validation *)

(** On bytes: a non-ASCII character fails the test as a character and as
    bytes. *)
Definition valid_acl_group_name (name : str) : bool :=
  match name with
  | [] => false
  | c :: rest =>
      is_ascii_lowercase c && (length name <=? 32)%nat
      && forallb (λ c, is_ascii_lowercase c || is_ascii_digit c || (c =? 45)) rest
  end.

Definition valid_ssh_os_user (user : str) : bool :=
  if seq_b user "*" then true
  else match user with
       | [] => false
       | first :: rest =>
           (length user <=? 32)%nat && (is_ascii_alphabetic first || (first =? 95))
           && forallb (λ c, is_ascii_alphanumeric c || (c =? 46) || (c =? 95) || (c =? 45)) rest
       end.

Definition validate_posture_refs (names : list str) (allowed : bool) : result AclError unit :=
  if (length names =? 0)%nat then Ok tt
  else if negb allowed then Err PostureOnDeny
  else if (8 <? length names)%nat then Err TooManyPostures
  else match find (λ name, negb (valid_acl_group_name name)) names with
       | Some name => Err (PostureName name)
       | None => Ok tt
       end.

(** [Ipv4Addr::is_private] or 100.64.0.0/10; [fc00::/7]. *)
Definition is_private_v4 (b : Z) : bool :=
  (b / 2 ^ 24 =? 10)
  || ((b / 2 ^ 24 =? 172) && (16 <=? (b / 2 ^ 16) mod 256) && ((b / 2 ^ 16) mod 256 <=? 31))
  || ((b / 2 ^ 24 =? 192) && ((b / 2 ^ 16) mod 256 =? 168)).

Definition private_host (address : IpAddr) : bool :=
  match address with
  | V4 b => is_private_v4 b
            || ((b / 2 ^ 24 =? 100) && (64 <=? (b / 2 ^ 16) mod 256) && ((b / 2 ^ 16) mod 256 <=? 127))
  | V6 b => Z.land (b / 2 ^ 120) 254 =? 252
  end.

Definition require_private_host_ip (address : IpAddr) (value : str) : result AclError unit :=
  reject_if (is_unspecified address || is_multicast address || is_loopback address || negb (private_host address))
    (HostNotPrivate value).

Definition host_network (width prefix bits : Z) (value : str) (address : IpAddr) : result AclError unit :=
  if width <? prefix then Err (HostPrefix value)
  else if negb (Z.land bits (Z.lnot (prefix_mask width prefix)) =? 0) then Err (HostNotNetwork value)
  else require_private_host_ip address value.

Definition parse_acl_host_target (value : str) : result AclError unit :=
  let value := to_ascii_lowercase (trim_end_matches 46 (trim value)) in
  if (length value =? 0)%nat || contains_str (lit "blaktail") value then Err HostEmpty
  else if seq_b value "0.0.0.0/0" || seq_b value "::/0" then Err HostDefaultRoute
  else match parse_ip value with
       | Some address => require_private_host_ip address value
       | None =>
           let? (address, prefix) := ok_or (split_once 47 value) (HostNotAddress value) in
           let? address := ok_or (parse_ip address) (HostNotAddress value) in
           let? prefix := ok_or (parse_u8 prefix) (HostPrefix value) in
           match address with
           | V4 b => host_network 32 prefix b value address
           | V6 b => host_network 128 prefix b value address
           end
       end.

(** *** The folder-sharing section *)

Definition DRIVE_ROLES : list str := [lit "owner"; lit "admin"; lit "member"; lit "network_admin"; lit "auditor"].
Definition DRIVE_TAGS : list str := [lit "office"; lit "ranger"; lit "store"].
Definition MAX_LABEL_LEN : nat := 32.

Definition valid_share_label (label : str) : bool :=
  negb (length label =? 0)%nat && (length label <=? MAX_LABEL_LEN)%nat
  && negb (starts_with (lit "-") label) && negb (ends_with (lit "-") label)
  && negb (starts_with (lit " ") label) && negb (ends_with (lit " ") label)
  && forallb (λ b, is_ascii_lowercase b || is_ascii_digit b || bool_decide (b ∈ [45; 95; 40; 41; 32])) label.

Definition canonical_label (label : str) : result AclError str :=
  let label := to_ascii_lowercase (trim label) in
  if negb (valid_share_label label) then Err ShareName else Ok label.

Definition check_actor_selector (named : BTree.map_of (list str)) (selector : str) : result AclError unit :=
  let selector := trim selector in
  if seq_b selector "*" || bool_decide (selector ∈ DRIVE_ROLES) then Ok tt
  else match strip_prefix (lit "tag:") selector with
       | Some tag => if bool_decide (tag ∈ DRIVE_TAGS) then Ok tt else Err (DriveSelectorTag selector)
       | None =>
           match strip_prefix (lit "group:") selector with
           | Some group => if BTree.contains_key group named then Ok tt else Err (DriveSelectorGroup selector)
           | None => Err (DriveSelectorForm selector)
           end
       end.

Definition validate_grant (named : BTree.map_of (list str)) (grant : DriveGrant) : result AclError unit :=
  let selected := negb (length (dg_src_roles grant) =? 0)%nat || negb (length (dg_src_tags grant) =? 0)%nat
                  || negb (length (dg_src_groups grant) =? 0)%nat || negb (length (dg_dst_roles grant) =? 0)%nat
                  || negb (length (dg_dst_tags grant) =? 0)%nat || negb (length (dg_dst_groups grant) =? 0)%nat
                  || dg_same_user grant in
  let? _ := reject_if (negb selected) DriveGrantSelects in
  let? _ := reject_if ((length (dg_shares grant) =? 0)%nat || (32 <? length (dg_shares grant))%nat) DriveGrantShares in
  let? _ := try_each (λ name, if seq_b name "*" then Ok tt else let? _ := canonical_label name in Ok tt)
              (dg_shares grant) in
  let? _ := reject_if (negb (seq_b (dg_access grant) "ro") && negb (seq_b (dg_access grant) "rw")) DriveGrantAccess in
  let? _ := try_each (λ name, reject_if (negb (BTree.contains_key name named)) (DriveGrantGroup name))
              (dg_src_groups grant ++ dg_dst_groups grant) in
  let? _ := try_each (λ r, reject_if (negb (bool_decide (r ∈ DRIVE_ROLES))) (DriveGrantRole r))
              (dg_src_roles grant ++ dg_dst_roles grant) in
  try_each (λ t, reject_if (negb (bool_decide (t ∈ DRIVE_TAGS))) (DriveGrantTag t))
    (dg_src_tags grant ++ dg_dst_tags grant).

Definition validate_policy (policy : DrivePolicy) (named : BTree.map_of (list str)) : result AclError unit :=
  let? _ := reject_if ((length (dp_share policy) =? 0)%nat || (length (dp_access policy) =? 0)%nat) DriveNeedsSelectors in
  let? _ := reject_if (64 <? length (dp_grants policy))%nat DriveTooManyGrants in
  let? _ := try_each (check_actor_selector named) (dp_share policy ++ dp_access policy) in
  try_each (validate_grant named) (dp_grants policy).

(** *** The whole document *)

Definition validate_tag_owner (entry : str * list str) : result AclError unit :=
  let '(tag, owners) := entry in
  let? _ := reject_if (negb (bool_decide (tag ∈ map tag_str [Office; Ranger; Store]))) (UnknownTag tag) in
  let? _ := reject_if (length owners =? 0)%nat (TagWithoutOwner tag) in
  reject_if (existsb (λ owner, (length (trim owner) =? 0)%nat) owners) (EmptyOwner tag).

Definition validate_host (entry : str * str) : result AclError unit :=
  let? _ := reject_if (negb (valid_acl_group_name entry.1)) (HostName entry.1) in
  parse_acl_host_target entry.2.

Definition validate_group (entry : str * list str) : result AclError unit :=
  let '(name, members) := entry in
  let? _ := reject_if (negb (valid_acl_group_name name)) (GroupName name) in
  let? _ := reject_if (length members =? 0)%nat (GroupEmpty name) in
  let? _ := reject_if (256 <? length members)%nat (GroupTooLarge name) in
  reject_if (existsb (λ m, (length (trim m) =? 0)%nat) members) (GroupEmptyMember name).

Definition selects_nothing (r : AclRule) : bool :=
  (length (src_roles r) =? 0)%nat && (length (src_tags r) =? 0)%nat && (length (src_groups r) =? 0)%nat
  && (length (dst_roles r) =? 0)%nat && (length (dst_tags r) =? 0)%nat && (length (dst_groups r) =? 0)%nat
  && (length (dst_hosts r) =? 0)%nat.

Definition ssh_selects_nothing (r : AclSshRule) : bool :=
  (length (ssh_src_roles r) =? 0)%nat && (length (ssh_src_tags r) =? 0)%nat
  && (length (ssh_src_groups r) =? 0)%nat && (length (ssh_dst_roles r) =? 0)%nat
  && (length (ssh_dst_tags r) =? 0)%nat && (length (ssh_dst_groups r) =? 0)%nat.

Section validate.
Context (acl : Acl) (now : Z).

Definition validate_rule (rule : AclRule) : result AclError unit :=
  let? _ := try_each (λ name, reject_if (negb (BTree.contains_key name (groups acl))) (RuleUnknownGroup name))
              (src_groups rule ++ dst_groups rule) in
  let? _ := try_each (λ name, reject_if (negb (BTree.contains_key name (hosts acl))) (RuleUnknownHost name))
              (dst_hosts rule) in
  let? _ := reject_if (16 <? length (dst_ports rule))%nat TooManyPorts in
  let? _ := try_each (λ spec, let? _ := parse_acl_port_spec spec in Ok tt) (dst_ports rule) in
  let? _ := reject_if (bool_decide (AclIcmp ∈ protocols rule) && negb (length (dst_ports rule) =? 0)%nat) IcmpWithPorts in
  validate_posture_refs (posture rule) (bool_decide (action rule = Allow)).

Definition validate_ssh_rule (rule : AclSshRule) : result AclError unit :=
  let? _ := try_each (λ name, reject_if (negb (BTree.contains_key name (groups acl))) (SshUnknownGroup name))
              (ssh_src_groups rule ++ ssh_dst_groups rule) in
  let? _ := reject_if ((length (users rule) =? 0)%nat || (16 <? length (users rule))%nat) SshUserCount in
  let? _ := validate_posture_refs (ssh_posture rule) (negb (bool_decide (ssh_action rule = SshDeny))) in
  let? _ := try_each (λ user, reject_if (negb (valid_ssh_os_user user)) (SshUser user)) (users rule) in
  match ssh_action rule, check_period_secs rule with
  | SshCheck, Some period => reject_if (negb ((1 <=? period) && (period <=? 7 * 24 * 60 * 60))) CheckPeriodRange
  | SshCheck, None => Ok tt
  | _, Some _ => Err CheckPeriodAction
  | _, None => Ok tt
  end.

Definition test_source (test : AclTest) : Subject :=
  mkSubject (default Member (test_src_role test)) (test_src_tags test) (test_src_user test) (test_src_email test)
    (BTree.extend [] (test_src_posture test)) (Some now).
Definition test_destination (test : AclTest) : Subject :=
  mkSubject (default Member (test_dst_role test)) (test_dst_tags test) (test_dst_user test) (test_dst_email test)
    [] None.

Definition evaluate_test (test : AclTest) : bool :=
  if (length (test_ssh_user test) =? 0)%nat
  then allows_flow acl now (test_source test) (test_destination test) (test_dst_port test) (test_protocol test)
         (if (length (test_dst_host test) =? 0)%nat then None else Some (test_dst_host test))
  else allows_ssh acl now (test_source test) (test_destination test) (test_ssh_user test).

Definition validate_test (entry : nat * AclTest) : result AclError unit :=
  let '(index, test) := entry in
  let? _ := reject_if (negb (length (test_dst_host test) =? 0)%nat
                       && negb (BTree.contains_key (test_dst_host test) (hosts acl)))
              (TestUnknownHost (test_dst_host test)) in
  let? _ := reject_if (bool_decide (test_dst_port test = Some 0)) TestPortZero in
  let? _ := reject_if (bool_decide (test_protocol test = Some AclIcmp) && bool_decide (is_Some (test_dst_port test)))
              TestIcmpPort in
  let? _ := reject_if (negb (length (test_ssh_user test) =? 0)%nat
                       && (bool_decide (is_Some (test_dst_port test)) || bool_decide (is_Some (test_protocol test))
                           || negb (length (test_dst_host test) =? 0)%nat)) TestSshNames in
  let? _ := reject_if (negb (length (test_ssh_user test) =? 0)%nat && negb (valid_ssh_os_user (test_ssh_user test)))
              (TestSshUser (test_ssh_user test)) in
  let? _ := validate_posture_refs (test_src_posture test) true in
  let allowed := evaluate_test test in
  reject_if (negb (Bool.eqb allowed (test_allow test))) (TestFailed index (test_allow test) allowed).

Definition validate : result AclError unit :=
  let? _ := reject_if (negb (version acl =? 1)) (UnsupportedVersion (version acl)) in
  let? _ := match drive acl with Some policy => validate_policy policy (groups acl) | None => Ok tt end in
  let? _ := reject_if (16 <? length (tag_owners acl))%nat TooManyTagOwners in
  let? _ := try_each validate_tag_owner (tag_owners acl) in
  let? _ := reject_if (128 <? length (tests acl))%nat TooManyTests in
  let? _ := reject_if (64 <? length (hosts acl))%nat TooManyHosts in
  let? _ := try_each validate_host (hosts acl) in
  let? _ := reject_if (64 <? length (groups acl))%nat TooManyGroups in
  let? _ := try_each validate_group (groups acl) in
  let? _ := reject_if (existsb selects_nothing (rules acl)) RuleSelectsNothing in
  let? _ := try_each validate_rule (rules acl) in
  let? _ := reject_if (32 <? length (ssh acl))%nat TooManySshRules in
  let? _ := reject_if (existsb ssh_selects_nothing (ssh acl)) SshSelectsNothing in
  let? _ := try_each validate_ssh_rule (ssh acl) in
  try_each validate_test (zip (seq 0 (length (tests acl))) (tests acl)).

End validate.

(** ** Explaining access *)

(** [ingress_admits] of [policy_explain.rs]: does a compiled grant admit this
    protocol and port. *)
Definition ingress_admits (ingress : Ingress) (protocol : option AclProtocol) (port : option Z) : bool :=
  let covers specs := match port with None => negb (length specs =? 0)%nat | Some port => specs_cover specs port end in
  let denies specs := match port with None => false | Some port => specs_cover specs port end in
  let tcp_in := negb (denies (deny_tcp ingress)) && (all ingress || covers (tcp ingress)) in
  let udp_in := negb (denies (deny_udp ingress)) && (all ingress || covers (udp ingress)) in
  let icmp_in := negb (deny_icmp ingress) && (all ingress || icmp ingress) in
  match protocol with
  | Some AclIcmp => icmp_in
  | Some AclUdp => udp_in
  | Some AclTcp => tcp_in
  | None => tcp_in || udp_in || (bool_decide (port = None) && icmp_in)
  end.

(** The decision of [device_flow]: policy, compiled grant and pairing. *)
Record DeviceFlow := mkDeviceFlow { df_paired : bool; df_policy_allows : bool; df_admitted : bool }.

Definition device_flow (acl : Acl) (now : Z) (source destination : Subject) (ssh_users_enforced : bool)
    (protocol : option AclProtocol) (port : option Z) : DeviceFlow :=
  let compiled := peer_ingress_for acl now source destination ssh_users_enforced in
  mkDeviceFlow (allows acl now source destination && allows acl now destination source)
    (allows_flow acl now source destination port protocol None)
    (ingress_admits compiled protocol port).

Definition decision (f : DeviceFlow) : bool := df_policy_allows f && df_admitted f && df_paired f.
