(* ===== verification/CoordProps.v ===== *)
(** * The compiled grants mean what the policy says

    The evaluator [allows_flow], the compiler [peer_ingress_for] and the agents'
    reading of its output are related: first the meaning of a compiled grant as a
    predicate on the rules, then the consequences. *)

From S2P Require Import Prelude Text Net Policy CoordAcl.

(** ** What a policy admits *)

(** A protocol with its port; ICMP has none. *)
Inductive Service := STcp (port : Z) | SUdp (port : Z) | SIcmp.

#[export] Instance Service_eq_dec : EqDecision Service.
Proof. solve_decision. Defined.

Definition service_protocol (v : Service) : AclProtocol :=
  match v with STcp _ => AclTcp | SUdp _ => AclUdp | SIcmp => AclIcmp end.
Definition service_port (v : Service) : option Z :=
  match v with STcp p | SUdp p => Some p | SIcmp => None end.
Definition valid_service (v : Service) : Prop :=
  match v with STcp p | SUdp p => 1 ≤ p ≤ 65535 | SIcmp => True end.

(** A rule names a service: its protocols include it, and its ports, which ICMP
    does not have. *)
Definition covers (v : Service) (r : AclRule) : bool :=
  protocol_matches (protocols r) (Some (service_protocol v))
  && match service_port v with
     | Some port => port_spec_matches (dst_ports r) (Some port)
     | None => (length (dst_ports r) =? 0)%nat
     end.

Section meaning.
Context (acl : Acl) (now : Z) (s d : Subject).

(** The rules about this pair of devices. *)
Definition about (a : Action) : list AclRule :=
  List.filter (λ r, bool_decide (action r = a)) (List.filter (λ r, rule_matches acl r s d None None None) (rules acl)).

(** The SSH rules open port 22: to anybody, or to some users where the
    destination enforces user limits. *)
Definition ssh_opens (enforced : bool) : bool :=
  let '(users, denied) := ssh_grant acl now s d in
  negb (length users =? 0)%nat
  && (enforced || ((length users =? 1)%nat && bool_decide (head users = Some (lit "*")) && (length denied =? 0)%nat)).

(** Deny rules win; SSH rules decide port 22 where they govern it; else an allow
    rule or the default must admit the service. *)
Definition policy_admits (enforced : bool) (v : Service) : bool :=
  negb (existsb (covers v) (about Deny))
  && (if bool_decide (v = STcp SSH_PORT) && ssh_governed acl s d then ssh_opens enforced
      else implicit_default_allows acl s d || existsb (covers v) (about Allow)).

End meaning.

(** ** Ports *)

Lemma parse_acl_port_range spec : result_ok (parse_acl_port_spec spec) = port_range spec.
Proof.
  unfold parse_acl_port_spec, port_range. destruct (seq_b (trim spec) "*"); [done|].
  destruct (split_once 45 (trim spec)) as [[a b]|]; simpl.
  - destruct (parse_u16 a) as [x|]; simpl; [|done]. destruct (parse_u16 b) as [y|]; simpl; [|done].
    destruct (x =? 0) eqn:?, (y =? 0) eqn:?; simpl; try done.
    destruct (Z.ltb_spec y x), (Z.leb_spec x y); simpl; try done; lia.
  - destruct (parse_u16 (trim spec)) as [x|]; simpl; [|done]. rw Z.ltb_irrefl. by destruct (x =? 0).
Qed.

Lemma specs_cover_lists specs port : specs_cover specs port = PolicySpec.lists_port specs port.
Proof.
  unfold specs_cover, PolicySpec.lists_port. induction specs as [|x l IH]; simpl; [done|]. rw IH. f_equal.
  unfold spec_covers. rw -parse_acl_port_range. by destruct (parse_acl_port_spec x).
Qed.

Lemma specs_cover_all port : 1 ≤ port ≤ 65535 → spec_covers (lit "1-65535") port = true.
Proof.
  intros Hp. change (spec_covers (lit "1-65535") port) with (in_range (1, 65535) port).
  unfold in_range. simpl. apply andb_true_iff. split; apply Z.leb_le; lia.
Qed.

Lemma existsb_insert f x l : existsb f (BTree.insert x l) = f x || existsb f l.
Proof.
  induction l as [|y l IH]; simpl; [done|]. case_bool_decide as Hx.
  - subst. simpl. by destruct (f y).
  - destruct (BTree.str_ltb x y); simpl; [done|]. rw IH. destruct (f x), (f y); done.
Qed.

Lemma existsb_extend f l xs : existsb f (BTree.extend l xs) = existsb f l || existsb f xs.
Proof.
  unfold BTree.extend. revert l. induction xs as [|x xs IH]; intros l; simpl; [by rw orb_false_r|].
  rw IH existsb_insert. by destruct (f x), (existsb f l).
Qed.

#[export] Hint Rewrite existsb_insert existsb_extend : rust.

(** ** One rule *)

Lemma covers_tcp r port : 1 ≤ port ≤ 65535 →
  covers (STcp port) r = protocol_matches (protocols r) (Some AclTcp)
    && (if (length (dst_ports r) =? 0)%nat then true else specs_cover (dst_ports r) port).
Proof. intros Hp. unfold covers. simpl. by destruct (dst_ports r). Qed.

Lemma covers_udp r port : 1 ≤ port ≤ 65535 →
  covers (SUdp port) r = protocol_matches (protocols r) (Some AclUdp)
    && (if (length (dst_ports r) =? 0)%nat then true else specs_cover (dst_ports r) port).
Proof. intros Hp. unfold covers. simpl. by destruct (dst_ports r). Qed.

(** What the accumulated sets say of a service. *)
Definition specs_admit (acc : Specs) (v : Service) : bool :=
  let '(tcp, udp, icmp) := acc in
  match v with STcp p => specs_cover tcp p | SUdp p => specs_cover udp p | SIcmp => icmp end.

Lemma collect_covers r acc v :
  valid_service v → specs_admit (collect_service_specs r acc) v = specs_admit acc v || covers v r.
Proof.
  intros Hv. destruct acc as [[t u] i]. unfold collect_service_specs.
  destruct v as [p|p|]; simpl in Hv.
  - rw covers_tcp //. unfold protocol_matches. destruct (length (dst_ports r) =? 0)%nat; simpl;
      destruct (_ || bool_decide (AclTcp ∈ _)); simpl; rw ?orb_false_r //; unfold specs_cover;
      autorewrite with rust; rw ?specs_cover_all //. by rw orb_true_r.
  - rw covers_udp //. unfold protocol_matches. destruct (length (dst_ports r) =? 0)%nat; simpl;
      destruct (_ || bool_decide (AclUdp ∈ _)); simpl; rw ?orb_false_r //; unfold specs_cover;
      autorewrite with rust; rw ?specs_cover_all //. by rw orb_true_r.
  - unfold covers. simpl. destruct (length (dst_ports r) =? 0)%nat; simpl; [|by rw andb_false_r orb_false_r].
    rw andb_true_r. by destruct (_ || _), i.
Qed.

Lemma collect_all_cover l acc v :
  valid_service v →
  specs_admit (foldl (λ acc r, collect_service_specs r acc) acc l) v = specs_admit acc v || existsb (covers v) l.
Proof.
  intros Hv. revert acc. induction l as [|r l IH]; intros acc; simpl; [by rw orb_false_r|].
  by rw IH collect_covers // orb_assoc.
Qed.

Lemma collect_denied_cover l acc v :
  valid_service v → specs_admit (foldl collect_denied acc l) v = specs_admit acc v || existsb (covers v) l.
Proof.
  intros Hv. revert acc. induction l as [|r l IH]; intros acc; simpl; [by rw orb_false_r|].
  rw IH orb_assoc. f_equal. unfold collect_denied. destruct acc as [[t u] i].
  pose proof (collect_covers r ([], [], false) v Hv) as Hr.
  destruct (collect_service_specs r ([], [], false)) as [[t' u'] i'].
  destruct v; simpl in Hr |- *; unfold specs_cover in *; autorewrite with rust; by rw Hr.
Qed.

Lemma unrestricted_covers r v : valid_service v → unrestricted r = true → covers v r = true.
Proof.
  unfold unrestricted, covers, protocol_matches. intros Hv [Hp ->]%andb_true_iff. simpl.
  destruct v; simpl; rw ?Hp //; by destruct (dst_ports r).
Qed.

Lemma unrestricted_exists l v : valid_service v → existsb unrestricted l = true → existsb (covers v) l = true.
Proof.
  intros Hv. rw !existsb_exists. intros (r & Hr & Hu). exists r. split; [done|by apply unrestricted_covers].
Qed.

(** ** SSH rules *)

Section ssh.
Context (acl : Acl) (now : Z) (s d : Subject).

Lemma ungoverned_no_grant : ssh_governed acl s d = false → ssh_grant acl now s d = ([], []).
Proof using.
  intros Hg. unfold ssh_grant.
  assert (foldl (ssh_collect acl now s d) ([], [], false, false) (ssh acl) = ([], [], false, false)) as ->; [|done].
  unfold ssh_governed in Hg. induction (ssh acl) as [|r l IH]; simpl in *; [done|].
  apply orb_false_iff in Hg as [Hr Hg]. unfold ssh_subjects_match.
  assert (ssh_source acl r s && ssh_destination acl r d = false) as ->; [|by apply IH].
  destruct (ssh_destination acl r d); [|by rw andb_false_r]. rw andb_true_r.
  by destruct (bool_decide _), (ssh_source acl r s).
Qed.

End ssh.

(** ** The compiled grant *)

(** [ingress_admits] on a service. *)
Definition admits (i : Ingress) (v : Service) : bool := ingress_admits i (Some (service_protocol v)) (service_port v).

Lemma admits_specs (a : bool) t u (i : bool) dt du (di : bool) us ds v :
  admits (mkIngress a t u (if di then false else i) dt du di us ds) v =
  negb (specs_admit (dt, du, di) v) && (a || specs_admit (t, u, i) v).
Proof. unfold admits, ingress_admits. destruct v; simpl; [done..|]. by destruct di. Qed.

Lemma dec_ssh_port port : spec_covers (dec SSH_PORT) port = (port =? SSH_PORT).
Proof.
  change (spec_covers (dec SSH_PORT) port) with (in_range (22, 22) port). unfold in_range, SSH_PORT. simpl.
  destruct (Z.leb_spec 22 port), (Z.leb_spec port 22), (Z.eqb_spec port 22); simpl; try done; lia.
Qed.

Lemma cover_insert_ssh l port : specs_cover (BTree.insert (dec SSH_PORT) l) port = (port =? SSH_PORT) || specs_cover l port.
Proof. unfold specs_cover. by rw existsb_insert dec_ssh_port. Qed.

Lemma compiled_grant acl now s d enforced v :
  valid_service v → admits (peer_ingress_for acl now s d enforced) v = policy_admits acl now s d enforced v.
Proof.
  intros Hv. unfold peer_ingress_for, policy_admits, ssh_opens.
  pose proof (ungoverned_no_grant acl now s d) as Hun.
  destruct (ssh_grant acl now s d) as [users denied].
  set (star := (length users =? 1)%nat && bool_decide (head users = Some (lit "*")) && (length denied =? 0)%nat).
  rw negb_involutive. set (open := negb (length users =? 0)%nat && (enforced || star)).
  assert (ssh_governed acl s d = false → open = false) as Hopen.
  { intros Hg. unfold open. by injection (Hun Hg) as -> ->. }
  clearbody open. clear Hun star. fold (about acl s d Deny). fold (about acl s d Allow).
  destruct (existsb unrestricted (about acl s d Deny)) eqn:Hud.
  { rw (unrestricted_exists _ v) //. by destruct v. }
  pose proof (collect_denied_cover (about acl s d Deny) ([], [], false) v Hv) as Hd.
  destruct (foldl collect_denied ([], [], false) (about acl s d Deny)) as [[dt du] di].
  set (all := implicit_default_allows acl s d || existsb unrestricted (about acl s d Allow)).
  set (acc := if all then ([], [], all) else _).
  assert (all || specs_admit acc v = implicit_default_allows acl s d || existsb (covers v) (about acl s d Allow)) as Ha.
  { unfold acc, all. destruct (implicit_default_allows acl s d); simpl; [done|].
    destruct (existsb unrestricted (about acl s d Allow)) eqn:Hu; [by rw (unrestricted_exists _ v)|].
    rw collect_all_cover //. by destruct v. }
  clearbody acc all. destruct acc as [[t u] i]. rw admits_specs -Ha.
  assert (specs_admit ([], [], false) v = false) as H0 by by destruct v.
  rewrite H0 orb_false_l in Hd. rw -Hd. clear Ha Hd H0 Hud.
  destruct v as [p|p|]; [|done..]. simpl. rw (bool_decide_ext (STcp p = STcp SSH_PORT) (p = SSH_PORT)); [|naive_solver].
  case_bool_decide as Hp; [subst p|].
  - destruct (ssh_governed acl s d); simpl; [|by rw Hopen // andb_false_r].
    destruct open, (specs_cover dt SSH_PORT) eqn:Hdt; simpl; rw ?Hdt ?cover_insert_ssh ?Z.eqb_refl; simpl; try done.
    destruct all, (specs_cover t SSH_PORT) eqn:Ht; simpl; rw ?Ht ?cover_insert_ssh ?Z.eqb_refl; done.
  - apply Z.eqb_neq in Hp.
    f_equal; [f_equal|f_equal]; case_match; rw ?cover_insert_ssh ?Hp; done.
Qed.

(** ** The evaluator *)

Section evaluator.
Context (acl : Acl) (now : Z) (s d : Subject).

Lemma rule_matches_flow r port protocol :
  rule_matches acl r s d port (Some protocol) None =
  rule_matches acl r s d None None None
  && (port_spec_matches (dst_ports r) port && protocol_matches (protocols r) (Some protocol)).
Proof using.
  unfold rule_matches. assert (port_spec_matches (dst_ports r) None = true) as -> by by destruct (dst_ports r).
  destruct (_ || _); [done|]. destruct (negb (length (dst_hosts r) =? 0)%nat); [done|].
  by destruct (negb (selector _ _ _ _ _)).
Qed.

Lemma flow_rules a port protocol (f : AclRule → bool) :
  (∀ r, f r = port_spec_matches (dst_ports r) port && protocol_matches (protocols r) (Some protocol)) →
  existsb (λ r, bool_decide (action r = a)) (List.filter (λ r, rule_matches acl r s d port (Some protocol) None) (rules acl))
  = existsb f (about acl s d a).
Proof using.
  intros Hf. unfold about. induction (rules acl) as [|r l IH]; simpl; [done|].
  rw rule_matches_flow -Hf. destruct (rule_matches acl r s d None None None); simpl; [|done].
  destruct (f r) eqn:Hr; simpl; rw IH; destruct (bool_decide (action r = a)); simpl; by rw ?Hr.
Qed.

Lemma evaluator_meaning v :
  valid_service v → v ≠ SIcmp →
  allows_flow acl now s d (service_port v) (Some (service_protocol v)) None =
  negb (existsb (covers v) (about acl s d Deny))
  && (negb (bool_decide (v = STcp SSH_PORT) && ssh_governed acl s d && (length (ssh_grant acl now s d).1 =? 0)%nat)
      && (implicit_default_allows acl s d || existsb (covers v) (about acl s d Allow))).
Proof using.
  intros Hv Hi. unfold allows_flow.
  assert (∀ a, existsb (λ r, bool_decide (action r = a))
    (List.filter (λ r, rule_matches acl r s d (service_port v) (Some (service_protocol v)) None) (rules acl))
    = existsb (covers v) (about acl s d a)) as Hr.
  { intros a. apply flow_rules. intros r. unfold covers. rw andb_comm. by destruct v. }
  rw !Hr. destruct (existsb (covers v) (about acl s d Deny)); [done|].
  rw (bool_decide_true (@None str = None)) //. cbn [andb negb].
  assert (bool_decide (service_port v = Some SSH_PORT)
    && (bool_decide (Some (service_protocol v) = None) || bool_decide (Some (service_protocol v) = Some AclTcp))
    = bool_decide (v = STcp SSH_PORT)) as ->.
  { destruct v as [p|p|]; simpl; [|by rw andb_false_r|done].
    rw andb_true_r. apply bool_decide_ext. naive_solver. }
  destruct (_ && _ && _); [done|]. simpl. rw orb_comm.
  destruct (existsb (covers v) (about acl s d Allow)); [done|].
  unfold implicit_default_allows. destruct (defaults acl); [|done]. simpl. by destruct (_ && _).
Qed.

End evaluator.

(** The compiled grants mean what the policy says: for every TCP and UDP port
    and for ICMP, a grant admits the service exactly when no matching deny rule
    names it and an allow rule or the default does, port 22 being decided by the
    SSH rules where they govern the pair. *)
Theorem compiled_grant_meaning (acl : Acl) (now : Z) (s d : Subject) (enforced : bool) (v : Service)
    (Hv : valid_service v) :
  admits (peer_ingress_for acl now s d enforced) v = policy_admits acl now s d enforced v.
Proof. by apply compiled_grant. Qed.

(** On every TCP and UDP port but SSH the evaluator behind policy tests and
    explanations and the compiler behind peer maps agree. *)
Theorem evaluator_compiler_agree (acl : Acl) (now : Z) (s d : Subject) (enforced : bool) (v : Service)
    (Hv : valid_service v) (Hicmp : v ≠ SIcmp) (Hssh : v ≠ STcp SSH_PORT) :
  allows_flow acl now s d (service_port v) (Some (service_protocol v)) None =
  admits (peer_ingress_for acl now s d enforced) v.
Proof.
  rw compiled_grant // evaluator_meaning //. unfold policy_admits. by rw bool_decide_false.
Qed.

(** ** Users *)

Definition mem (u : str) (l : list str) : bool := existsb (λ x, bool_decide (x = u)) l.

Lemma mem_spec u l : mem u l = bool_decide (u ∈ l).
Proof.
  unfold mem. induction l as [|x l IH]; simpl; [done|]. rw IH.
  rw -(bool_decide_or (x = u)). apply bool_decide_ext. rw elem_of_cons. naive_solver.
Qed.

Section users.
Context (acl : Acl) (now : Z) (s d : Subject).

(** An SSH rule that applies to this pair now and names [u]. *)
Definition ssh_applies (r : AclSshRule) : bool := ssh_subjects_match acl r s d && ssh_source_eligible now r s.
Definition is_deny (r : AclSshRule) : bool := bool_decide (ssh_action r = SshDeny).
Definition ssh_lists (deny : bool) (u : str) (r : AclSshRule) : bool :=
  ssh_applies r && Bool.eqb (is_deny r) deny && mem u (users r).

Lemma mem_named u l : u ≠ lit "*" → mem u (List.filter (λ u, negb (seq_b u "*")) l) = mem u l.
Proof using.
  intros Hu. induction l as [|x l IH]; cbn [List.filter]; [done|]. unfold seq_b at 1.
  case_bool_decide as Hx; cbn [negb]; unfold mem in *; cbn [existsb]; rw IH; [|done].
  rw bool_decide_false; [done|congruence].
Qed.

Lemma ssh_collected u l a0 d0 sa0 sd0 :
  u ≠ lit "*" →
  let '(allow, deny, allow_star, deny_star) := foldl (ssh_collect acl now s d) (a0, d0, sa0, sd0) l in
  mem u allow = mem u a0 || existsb (ssh_lists false u) l ∧
  mem u deny = mem u d0 || existsb (ssh_lists true u) l ∧
  allow_star = sa0 || existsb (ssh_lists false (lit "*")) l ∧
  deny_star = sd0 || existsb (ssh_lists true (lit "*")) l.
Proof using.
  intros Hu. assert (∀ l xs, mem u (BTree.extend l xs) = mem u l || mem u xs) as He by (intros; apply existsb_extend).
  revert a0 d0 sa0 sd0. induction l as [|r l IH]; intros a0 d0 sa0 sd0.
  { simpl. by rw !orb_false_r. }
  cbn [foldl existsb].
  assert (∀ deny u, ssh_lists deny u r = ssh_applies r && Bool.eqb (is_deny r) deny && mem u (users r)) as Hl by done.
  rw !Hl. unfold ssh_collect at 2. rw -negb_andb. fold (ssh_applies r).
  destruct (ssh_applies r); cbn [negb andb orb]; [|apply IH].
  change (existsb (λ u0, seq_b u0 "*") (users r)) with (mem (lit "*") (users r)).
  assert (is_deny r = bool_decide (ssh_action r = SshDeny)) as -> by done.
  destruct (ssh_action r).
  all: match goal with |- context [foldl _ (?x1, ?x2, ?x3, ?x4) _] => specialize (IH x1 x2 x3 x4) end.
  all: destruct (foldl _ _ _) as [[[x1 x2] x3] x4]; destruct IH as (H1 & H2 & -> & ->).
  all: rewrite ?He ?(mem_named _ _ Hu) in H1; rewrite ?He ?(mem_named _ _ Hu) in H2.
  all: rw H1 H2; simpl; by rw -?orb_assoc.
Qed.

Lemma star_not_collected l a0 d0 sa0 sd0 :
  mem (lit "*") a0 = false →
  mem (lit "*") (foldl (ssh_collect acl now s d) (a0, d0, sa0, sd0) l).1.1.1 = false.
Proof using.
  revert a0 d0 sa0 sd0. induction l as [|r l IH]; intros a0 d0 sa0 sd0 Ha; [done|]. cbn [foldl].
  unfold ssh_collect at 2. destruct (_ || _); [by apply IH|].
  assert (mem (lit "*") (BTree.extend a0 (List.filter (λ u, negb (seq_b u "*")) (users r))) = false) as Hx.
  { unfold mem in *. rw existsb_extend Ha. cbn [orb]. induction (users r) as [|u us IHu]; [done|]. cbn [List.filter].
    destruct (seq_b u "*") eqn:Hu; cbn [negb existsb]; [done|]. rw IHu orb_false_r. exact Hu. }
  destruct (ssh_action r); by apply IH.
Qed.

Lemma ssh_matching deny u :
  existsb (λ r, Bool.eqb (is_deny r) deny) (List.filter (λ r, ssh_rule_matches acl now r s d u) (ssh acl)) =
  existsb (ssh_lists deny (lit "*")) (ssh acl) || existsb (ssh_lists deny u) (ssh acl).
Proof using.
  induction (ssh acl) as [|r l IH]; [done|]. cbn [List.filter existsb].
  assert (ssh_rule_matches acl now r s d u = ssh_applies r && (mem (lit "*") (users r) || mem u (users r))) as ->.
  { unfold ssh_rule_matches, ssh_applies, ssh_subjects_match.
    destruct (ssh_source acl r s), (ssh_destination acl r d); simpl; try done. f_equal. unfold mem.
    induction (users r) as [|x us IHu]; simpl; [done|]. rw IHu. unfold seq_b.
    destruct (bool_decide (x = lit "*")), (bool_decide (x = u)); simpl; by rw ?orb_true_r. }
  assert (∀ w, ssh_lists deny w r = ssh_applies r && Bool.eqb (is_deny r) deny && mem w (users r)) as Hl by done.
  rw !Hl. destruct (ssh_applies r); simpl; [|done].
  destruct (mem (lit "*") (users r)), (mem u (users r)), (Bool.eqb (is_deny r) deny) eqn:He; simpl; rw ?He ?IH ?orb_true_r; try done.
Qed.

(** The users a compiled SSH grant lists are exactly the users the policy lets
    in: a login is allowed when the deny list does not name it and the allow list
    names it or everybody. *)
Theorem ssh_grant_exact (u : str) (Hu : u ≠ lit "*") :
  allows_ssh acl now s d u =
  let '(allowed, denied) := ssh_grant acl now s d in
  negb (mem u denied) && (mem (lit "*") allowed || mem u allowed).
Proof using.
  pose proof (ssh_collected u (ssh acl) [] [] false false Hu) as Hc.
  pose proof (star_not_collected (ssh acl) [] [] false false eq_refl) as Hs.
  unfold allows_ssh, ssh_grant.
  assert (∀ l, existsb (λ r, bool_decide (ssh_action r = SshDeny)) l = existsb (λ r, Bool.eqb (is_deny r) true) l) as Hd.
  { intros l. induction l as [|r l IH]; simpl; [done|]. rw IH. unfold is_deny. by destruct (bool_decide _). }
  assert (∀ l, existsb (λ r, bool_decide (ssh_action r = SshAllow) || bool_decide (ssh_action r = SshCheck)) l
    = existsb (λ r, Bool.eqb (is_deny r) false) l) as Ha.
  { intros l. induction l as [|r l IH]; simpl; [done|]. rw IH. unfold is_deny. by destruct (ssh_action r). }
  rw Hd Ha !ssh_matching.
  destruct (foldl _ _ (ssh acl)) as [[[allow deny] sa] sd]. cbn [fst] in Hs. destruct Hc as (H1 & H2 & -> & ->).
  cbn [orb mem existsb] in H1, H2 |- *.
  destruct (existsb (ssh_lists true (lit "*")) (ssh acl)); cbn [orb]; [done|].
  rw -H2. destruct (existsb (ssh_lists false (lit "*")) (ssh acl)); cbn [orb].
  - change (mem (lit "*") [lit "*"]) with true. cbn [orb]. by destruct (mem u deny).
  - rw -H1.
    assert (∀ w, mem w (BTree.difference allow deny) = mem w allow && negb (mem w deny)) as Hdiff.
    { intros w. unfold BTree.difference. clear. induction allow as [|x l IH]; [done|]. cbn [List.filter].
      rw -mem_spec. assert (∀ l, mem w (x :: l) = bool_decide (x = w) || mem w l) as Hcons by done.
      rw Hcons. destruct (mem x deny) eqn:Hx; cbn [negb]; rw ?Hcons IH.
      - case_bool_decide; [subst; by rw Hx !andb_false_r|done].
      - case_bool_decide; [subst; by rw Hx|done]. }
    rw !Hdiff Hs. cbn [andb orb mem existsb negb]. by destruct (mem u allow), (mem u deny).
Qed.

End users.

(** ** Pairing *)

Lemma length_insert x l : (length (BTree.insert x l) =? 0)%nat = false.
Proof. destruct l as [|y l]; simpl; [done|]. case_bool_decide; [done|]. by destruct (BTree.str_ltb x y). Qed.

Lemma specs_cover_length l port : specs_cover l port = true → (length l =? 0)%nat = false.
Proof. by destruct l. Qed.

(** Devices are paired whenever one may reach the other at all: if the grant
    compiled for a pair admits any service, whether or not the destination
    enforces user limits, the pair is in each other's map. *)
Theorem admitted_pairs_are_mapped (acl : Acl) (now : Z) (s d : Subject) (enforced : bool) (v : Service)
    (Hadmits : admits (peer_ingress_for acl now s d enforced) v = true) :
  allows acl now s d = true.
Proof.
  unfold allows. revert Hadmits. unfold peer_ingress_for.
  destruct (ssh_grant acl now s d) as [users denied].
  set (star := (length users =? 1)%nat && bool_decide (head users = Some (lit "*")) && (length denied =? 0)%nat).
  destruct (existsb unrestricted _); [by destruct v|].
  set (allow := implicit_default_allows acl s d || _).
  set (acc := if allow then _ else _). destruct acc as [[t u] i].
  destruct (foldl collect_denied _ _) as [[dt du] di].
  rw admits_specs. intros [Hn Ha]%andb_true_iff. cbn [all icmp tcp udp].
  destruct allow; [done|]. cbn [orb negb andb] in *.
  destruct v as [p|p|]; cbn [specs_admit] in Hn, Ha.
  - rw orb_true_iff orb_true_iff !negb_true_iff. left; right.
    destruct (negb (length users =? 0)%nat), (ssh_governed acl s d), (specs_cover dt SSH_PORT) eqn:Hdt,
      (specs_cover t SSH_PORT) eqn:Ht, enforced; simpl in *;
      rewrite ?cover_insert_ssh ?Z.eqb_refl ?Hdt ?length_insert in Ha |- *; simpl in *;
      try done; try (by eapply specs_cover_length).
    all: destruct star; simpl in *; rewrite ?cover_insert_ssh ?Hdt ?Z.eqb_refl in Ha; simpl in *;
      try done; by eapply specs_cover_length.
  - by rw (specs_cover_length _ _ Ha) !orb_true_r.
  - apply negb_true_iff in Hn. by rw Hn Ha.
Qed.

(** ** Deny rules *)

Definition with_rules (acl : Acl) (l : list AclRule) : Acl :=
  mkAcl (version acl) (defaults acl) (groups acl) (tag_owners acl) (hosts acl) l (ssh acl) (tests acl) (drive acl).

Lemma about_app acl s d a l1 l2 :
  about (with_rules acl (l1 ++ l2)) s d a = about (with_rules acl l1) s d a ++ about (with_rules acl l2) s d a.
Proof. unfold about. cbn [rules with_rules]. by rw !List.filter_app. Qed.

Lemma about_cons acl s d a r l f :
  existsb f (about (with_rules acl (r :: l)) s d a) =
  (rule_matches acl r s d None None None && bool_decide (action r = a) && f r)
  || existsb f (about (with_rules acl l) s d a).
Proof.
  unfold about. cbn [rules with_rules List.filter].
  change (rule_matches (with_rules acl (r :: l)) r s d None None None) with (rule_matches acl r s d None None None).
  change (λ r0, rule_matches (with_rules acl (r :: l)) r0 s d None None None)
    with (λ r0, rule_matches (with_rules acl l) r0 s d None None None).
  destruct (rule_matches acl r s d None None None); cbn [List.filter andb]; [|done].
  by destruct (bool_decide (action r = a)).
Qed.

(** Adding a deny rule anywhere in a policy never opens anything: what the new
    policy admits, the old one admitted. *)
Theorem deny_rule_only_closes (acl : Acl) (l1 l2 : list AclRule) (r : AclRule) (now : Z) (s d : Subject)
    (enforced : bool) (v : Service) (Hv : valid_service v) (Hr : action r = Deny)
    (Hadmits : admits (peer_ingress_for (with_rules acl (l1 ++ r :: l2)) now s d enforced) v = true) :
  admits (peer_ingress_for (with_rules acl (l1 ++ l2)) now s d enforced) v = true.
Proof.
  revert Hadmits. rw !compiled_grant //. unfold policy_admits. rw !about_app !existsb_app !about_cons Hr.
  rw (bool_decide_false (Deny = Allow)) // andb_false_r. simpl.
  intros [Hn Ha]%andb_true_iff. apply andb_true_iff. split; [|exact Ha].
  apply negb_true_iff, orb_false_iff in Hn as [-> [_ ->]%orb_false_iff]. done.
Qed.

(** ** Published policies *)

(** A rule of a published policy: its groups and hosts exist, its ports are
    ranges within 1-65535, and ICMP rules have none. *)
Definition rule_ok (acl : Acl) (r : AclRule) : Prop :=
  selects_nothing r = false ∧
  Forall (λ g, BTree.contains_key g (groups acl) = true) (src_groups r ++ dst_groups r) ∧
  Forall (λ h, BTree.contains_key h (hosts acl) = true) (dst_hosts r) ∧
  (length (dst_ports r) ≤ 16)%nat ∧
  Forall (λ spec, ∃ lo hi, port_range spec = Some (lo, hi) ∧ 1 ≤ lo ≤ hi ∧ hi ≤ U16_MAX) (dst_ports r) ∧
  (AclIcmp ∈ protocols r → dst_ports r = []).

Lemma parse_spec_ok spec :
  result_bind (parse_acl_port_spec spec) (λ _, Ok tt) = @Ok AclError unit tt →
  ∃ lo hi, port_range spec = Some (lo, hi) ∧ 1 ≤ lo ≤ hi ∧ hi ≤ U16_MAX.
Proof.
  intros ([lo hi] & Hp & _)%bind_ok. pose proof (parse_acl_port_range spec) as Hr. rewrite Hp in Hr. simpl in Hr.
  exists lo, hi. split; [done|]. by eapply port_range_bounds.
Qed.

Lemma validate_rule_ok acl r : selects_nothing r = false → validate_rule acl r = Ok tt → rule_ok acl r.
Proof.
  intros Hs. unfold validate_rule. rw !then_ok !try_each_ok !reject_if_ok. intros (Hg & Hh & Hn & Hp & Hi & _).
  split_and!; [done| | | | |].
  - eapply Forall_impl; [exact Hg|]. intros g. cbn beta. rw reject_if_ok. apply negb_false_iff.
  - eapply Forall_impl; [exact Hh|]. intros h. cbn beta. rw reject_if_ok. apply negb_false_iff.
  - to_prop. lia.
  - eapply Forall_impl; [exact Hp|]. apply parse_spec_ok.
  - intros Hin. rewrite bool_decide_true // in Hi. destruct (dst_ports r); done.
Qed.

(** A policy that passes validation keeps its promises: every rule is well
    formed, every SSH user is a login name or [*], and every test of the document
    evaluates to the answer it expects. *)
Theorem validated_policy_holds (acl : Acl) (now : Z) (Hok : validate acl now = Ok tt) :
  Forall (rule_ok acl) (rules acl) ∧
  Forall (λ r, Forall (λ u, valid_ssh_os_user u = true) (users r) ∧ (1 ≤ length (users r) ≤ 16)%nat) (ssh acl) ∧
  Forall (λ t, evaluate_test acl now t = test_allow t) (tests acl).
Proof.
  revert Hok. unfold validate. rw !then_ok !try_each_ok !reject_if_ok.
  intros (_ & _ & _ & _ & _ & _ & _ & _ & _ & Hsel & Hr & _ & _ & Hssh & Ht). split_and!.
  - rewrite Forall_forall in Hr. apply Forall_forall. intros r Hin. apply validate_rule_ok; [|by apply Hr].
    destruct (selects_nothing r) eqn:Hs; [|done]. exfalso.
    assert (existsb selects_nothing (rules acl) = true) as Hx; [|congruence].
    apply existsb_exists. exists r. by rw -list_elem_of_In.
  - eapply Forall_impl; [exact Hssh|]. intros r. unfold validate_ssh_rule. rw !then_ok !try_each_ok !reject_if_ok.
    intros (_ & Hn & _ & Hu & _). to_prop. split; [|lia].
    eapply Forall_impl; [exact Hu|]. intros u. cbn beta. rw reject_if_ok. apply negb_false_iff.
  - apply Forall_forall. intros t Hin. apply list_elem_of_lookup in Hin as [n Hn].
    rewrite Forall_forall in Ht. assert ((n, t) ∈ zip (seq 0 (length (tests acl))) (tests acl)) as Hz.
    { apply (list_elem_of_lookup_2 _ n). rw lookup_zip_with Hn.
      rw lookup_seq_lt; [done|by eapply lookup_lt_Some]. }
    apply Ht in Hz. unfold validate_test in Hz. rewrite !then_ok !reject_if_ok in Hz.
    destruct Hz as (_ & _ & _ & _ & _ & _ & He). apply negb_false_iff, eqb_prop in He. done.
Qed.

(** ** From the policy to the packet filter *)

(** The service of a packet; ICMP of either family has no port. *)
Definition packet_service (proto port : Z) : option Service :=
  if proto =? TCP then Some (STcp port)
  else if proto =? UDP then Some (SUdp port)
  else if PolicySpec.is_icmp proto then Some SIcmp
  else None.

Lemma restricted_grant_closed acl now s d :
  ssh_restricted (peer_ingress_for acl now s d false) = true →
  ssh_governed acl s d = true ∧ ssh_opens acl now s d false = false.
Proof.
  unfold ssh_restricted, ssh_opens. pose proof (ungoverned_no_grant acl now s d) as Hun.
  assert (ssh_users (peer_ingress_for acl now s d false) = (ssh_grant acl now s d).1 ∧
          ssh_deny_users (peer_ingress_for acl now s d false) = (ssh_grant acl now s d).2) as [-> ->].
  { unfold peer_ingress_for. destruct (ssh_grant acl now s d) as [us ds]. destruct (existsb unrestricted _); [done|].
    destruct (if _ || _ then _ else _) as [[? ?] ?]. by destruct (foldl collect_denied _ _) as [[? ?] ?]. }
  destruct (ssh_grant acl now s d) as [us ds]. cbn [fst snd]. intros [Hn Hs]%andb_true_iff. split.
  - destruct (ssh_governed acl s d); [done|]. by injection (Hun eq_refl) as -> ->.
  - rw Hn. simpl. by apply negb_true_iff.
Qed.

(** A userspace filter's verdict on a grant compiled for it. *)
Lemma grant_verdict acl now s d proto port v :
  packet_service proto port = Some v → valid_service v →
  default false (PolicySpec.ingress_verdict (peer_ingress_for acl now s d false) None proto port)
  = policy_admits acl now s d false v.
Proof.
  intros Hp Hv. rw -compiled_grant //. pose proof (restricted_grant_closed acl now s d) as Hrc.
  pose proof (compiled_grant acl now s d false v Hv) as Hmean. unfold policy_admits in Hmean.
  set (i := peer_ingress_for acl now s d false) in *. clearbody i.
  unfold PolicySpec.ingress_verdict, PolicySpec.denies, PolicySpec.grants. cbn [PolicySpec.pq_opens].
  unfold packet_service in Hp. unfold admits, ingress_admits in Hmean |- *.
  destruct (proto =? TCP) eqn:Htcp; [|destruct (proto =? UDP) eqn:Hudp; [|destruct (PolicySpec.is_icmp proto) eqn:Hic; [|done]]];
    apply (inj Some) in Hp as <-; cbn [service_protocol service_port] in *.
  - assert ((proto =? UDP) = false ∧ PolicySpec.is_icmp proto = false) as [-> ->].
    { apply Z.eqb_eq in Htcp as ->. done. }
    cbn [andb orb]. rw !orb_false_r -!specs_cover_lists.
    destruct (ssh_restricted i && (port =? 22)) eqn:Hs.
    + apply andb_true_iff in Hs as [Hs ->%Z.eqb_eq]. destruct (Hrc Hs) as [Hg Ho].
      rewrite Hg Ho bool_decide_true // andb_false_r in Hmean. rw Hmean. by rw orb_true_r.
    + rw orb_false_r. destruct (specs_cover (deny_tcp i) port); [done|]. simpl. by destruct (_ || _).
  - assert (PolicySpec.is_icmp proto = false) as ->. { apply Z.eqb_eq in Hudp as ->. done. }
    cbn [andb orb]. rw !orb_false_r -!specs_cover_lists.
    destruct (specs_cover (deny_udp i) port); [done|]. simpl. by destruct (_ || _).
  - cbn [andb orb]. rw !orb_false_r. destruct (deny_icmp i); [done|]. simpl. by destruct (_ || _).
Qed.

(** A peer map: each peer with the device it stands for, carrying the grant the
    coordinator compiled for this device. *)
Definition mapped (acl : Acl) (now : Z) (d : Subject) (members : list (PolicyPeer * Subject)) : Prop :=
  Forall (λ m, pp_ingress m.1 = Some (peer_ingress_for acl now m.2 d false)) members.

Lemma owner_verdict members q source proto port :
  (∀ m, m ∈ members → source ∈ PolicySpec.peer_hosts m → m = q) →
  source ∈ PolicySpec.peer_hosts q → q ∈ members →
  default false (snd <$> PolicySpec.peers_verdict None members source proto port) =
  default false (PolicySpec.ingress_verdict (default ingress_all (pp_ingress q)) None proto port).
Proof.
  intros Hone Hq Hin.
  assert (PolicySpec.peer_verdict None q proto port =
    PolicySpec.ingress_verdict (default ingress_all (pp_ingress q)) None proto port) as Hv.
  { unfold PolicySpec.peer_verdict. by destruct (Policy.pq_applies q). }
  destruct (PolicySpec.ingress_verdict _ _ _ _) as [b|].
  - induction members as [|m l IH]; [by apply elem_of_nil in Hin|]. cbn [PolicySpec.peers_verdict].
    case_bool_decide as Hm.
    + assert (m = q) as -> by (apply Hone; [constructor|done]). by rw Hv.
    + apply IH; [intros x Hx; apply Hone; by constructor|]. apply elem_of_cons in Hin as [->|]; done.
  - clear Hin. induction members as [|m l IH]; [done|]. cbn [PolicySpec.peers_verdict].
    assert (∀ x, x ∈ l → source ∈ PolicySpec.peer_hosts x → x = q) as Hl by (intros x Hx; apply Hone; by constructor).
    case_bool_decide as Hm; [|by apply IH].
    assert (m = q) as -> by (apply Hone; [constructor|done]). rw Hv. by apply IH.
Qed.

(** [C6] From the policy to the packet: on a device whose map carries the grants
    compiled for it, the userspace filter admits a new inbound flow exactly when
    the policy admits the service from the device that owns the source
    address. *)
Theorem userspace_enforces_policy (acl : Acl) (now : Z) (d : Subject) (members : list (PolicyPeer * Subject))
    (q : PolicyPeer) (s : Subject) (source : IpAddr) (proto port : Z) (v : Service)
    (Hmap : mapped acl now d members) (Hq : (q, s) ∈ members) (Hsource : source ∈ PolicySpec.peer_hosts q)
    (Hone : ∀ m, m ∈ map fst members → source ∈ PolicySpec.peer_hosts m → m = q)
    (Hservice : packet_service proto port = Some v) (Hv : valid_service v) :
  (Policy.decide (Policy.compile (map fst members) None) source proto port).1 = policy_admits acl now s d false v.
Proof.
  unfold mapped in Hmap. rewrite Forall_forall in Hmap. pose proof (Hmap _ Hq) as Hi. cbn [fst snd] in Hi.
  assert (q ∈ map fst members) as Hin by (apply list_elem_of_fmap; by exists (q, s)).
  assert (PolicySpec.enforcing (map fst members) = true) as He.
  { apply existsb_exists. exists q. split; [by apply list_elem_of_In|]. apply bool_decide_eq_true. by rw Hi. }
  unfold Policy.decide. rw PolicyProps.compile_decision He.
  pose proof (owner_verdict (map fst members) q source proto port Hone Hsource Hin) as Ho.
  rewrite Hi (grant_verdict acl now s d proto port v) // in Ho. rw -Ho.
  by destruct (PolicySpec.peers_verdict _ _ _ _ _) as [[? ?]|].
Qed.

(** ** Where the evaluator and the devices differ *)

Definition any_rule (a : Action) (ports : list str) (protos : list AclProtocol) : AclRule :=
  mkAclRule a [Member] [] [] [] [] [] [] ports protos [].

Definition sample_acl (l : list AclRule) (sl : list AclSshRule) : Acl := mkAcl 1 DenyAll [] [] [] l sl [] None.

Definition member : Subject := subject_new Member [Ranger].

(** A rule that allows a port without naming protocols makes the evaluator,
    and so the policy's own tests, answer that ICMP is allowed, although the
    compiled grant does not admit ICMP and devices drop it. *)
Theorem icmp_evaluator_diverges :
  let acl := sample_acl [any_rule Allow [lit "443"] []] [] in
  validate acl 0 = Ok tt
  ∧ allows_flow acl 0 member member None (Some AclIcmp) None = true
  ∧ admits (peer_ingress_for acl 0 member member true) SIcmp = false.
Proof. split_and!; by vm_compute. Qed.

(** A policy whose only rule lets a user in by SSH makes the evaluator, and so
    the policy's tests and explanations, answer that port 22 is closed, although
    the compiled grant opens it. *)
Theorem ssh_evaluator_diverges :
  let acl := sample_acl [] [mkAclSshRule SshAllow [Member] [] [] [] [] [] [lit "deploy"] None []] in
  validate acl 0 = Ok tt
  ∧ allows_flow acl 0 member member (Some SSH_PORT) (Some AclTcp) None = false
  ∧ admits (peer_ingress_for acl 0 member member true) (STcp SSH_PORT) = true.
Proof. split_and!; by vm_compute. Qed.

(** ** Witnesses *)

Definition web_acl : Acl :=
  mkAcl 1 SameTag [] [] [] [any_rule Deny [lit "8080"] [AclTcp]]
    [mkAclSshRule SshAllow [Member] [] [] [] [] [] [lit "deploy"] None [];
     mkAclSshRule SshDeny [] [] [] [Owner] [] [] [lit "*"] None []]
    [mkAclTest (lit "web") None [Ranger] [] [] None [Ranger] [] [] [] (Some 443) (Some AclTcp) [] [] true;
     mkAclTest (lit "ssh") None [Ranger] [] [] None [Ranger] [] [] [] None None (lit "deploy") [] true] None.

Lemma compiled_grant_meaning_witness :
  admits (peer_ingress_for web_acl 0 member member true) (STcp 8080) = false.
Proof. etransitivity; [apply (compiled_grant_meaning web_acl 0 member member true (STcp 8080)); simpl; lia|by vm_compute]. Defined.

Lemma evaluator_compiler_agree_witness :
  admits (peer_ingress_for web_acl 0 member member true) (SUdp 53) = true.
Proof.
  etransitivity; [symmetry; apply (evaluator_compiler_agree web_acl 0 member member true (SUdp 53)); [simpl; lia|done|done]|by vm_compute].
Defined.

Lemma ssh_grant_exact_witness :
  (let '(allowed, denied) := ssh_grant web_acl 0 member member in
   negb (mem (lit "deploy") denied) && (mem (lit "*") allowed || mem (lit "deploy") allowed)) = true.
Proof.
  etransitivity; [symmetry; apply (ssh_grant_exact web_acl 0 member member (lit "deploy")); intros Heq; by vm_compute in Heq|by vm_compute].
Defined.

Lemma admitted_pairs_are_mapped_witness : allows web_acl 0 member member = true.
Proof. apply (admitted_pairs_are_mapped web_acl 0 member member false (STcp 443)). by vm_compute. Defined.

Lemma deny_rule_only_closes_witness :
  admits (peer_ingress_for (with_rules web_acl []) 0 member member false) (STcp 443) = true.
Proof.
  apply (deny_rule_only_closes web_acl [] [] (any_rule Deny [lit "8080"] [AclTcp]) 0 member member false (STcp 443));
    [simpl; lia|done|by vm_compute].
Defined.

Lemma validated_policy_holds_witness : Forall (rule_ok web_acl) (rules web_acl).
Proof. apply (validated_policy_holds web_acl 0). by vm_compute. Defined.

Lemma userspace_enforces_policy_witness :
  let q := mkPolicyPeer (lit "p") [lit "100.64.0.2/32"] (Some (peer_ingress_for web_acl 0 member member false)) None in
  (Policy.decide (Policy.compile [q] None) (V4 1681915906) TCP 22).1 = false.
Proof.
  intros q. etransitivity.
  - apply (userspace_enforces_policy web_acl 0 member [(q, member)] q member (V4 1681915906) TCP 22 (STcp 22)).
    + by repeat constructor.
    + constructor.
    + assert (PolicySpec.peer_hosts q = [V4 1681915906]) as -> by (by vm_compute). constructor.
    + intros m Hm _. by apply list_elem_of_singleton in Hm.
    + done.
    + simpl. lia.
  - by vm_compute.
Defined.
