(* ===== verification/CoordForward.v ===== *)
(** * The allow-lists the coordinator compiles for routing peers

    [blaktail-coord/src/forwarding.rs] with the route distribution it reads from
    [resources.rs]: the services of resources and rules, the complement of the
    carried prefixes, and the entries of each client.  A [Uuid] is its canonical
    text. *)

From S2P Require Import Prelude Text Net Policy AclFilter ForwardFilter Ipam CoordAcl.

Abbreviation Uuid := str (only parsing).

(** ** Services *)

Record ForwardService := mkForwardService {
  fs_all : bool;
  fs_tcp : list str;
  fs_udp : list str;
  fs_icmp : bool
}.

Definition default_service : ForwardService := mkForwardService false [] [] false.
Definition everything : ForwardService := mkForwardService true [] [] false.

Definition service_is_empty (v : ForwardService) : bool :=
  negb (fs_all v) && negb (fs_icmp v) && (length (fs_tcp v) =? 0)%nat && (length (fs_udp v) =? 0)%nat.

(** The union of two lists through a [BTreeSet]. *)
Definition union_specs (left right : list str) : list str := BTree.extend [] (left ++ right).

Definition merge (v other : ForwardService) : ForwardService :=
  if fs_all v || fs_all other then everything
  else mkForwardService (fs_all v) (union_specs (fs_tcp v) (fs_tcp other)) (union_specs (fs_udp v) (fs_udp other))
         (fs_icmp v || fs_icmp other).

(** [ForwardService::admits] *)
Definition service_admits (v : ForwardService) (protocol : option AclProtocol) (port : option Z) : bool :=
  if fs_all v then true
  else
    let covers specs := existsb (λ spec, match port with None => true | Some port => spec_covers spec port end) specs in
    match protocol with
    | Some AclTcp => covers (fs_tcp v)
    | Some AclUdp => covers (fs_udp v)
    | Some AclIcmp => fs_icmp v
    | None => covers (fs_tcp v) || covers (fs_udp v) || (bool_decide (port = None) && fs_icmp v)
    end.

Inductive ResourceProtocol := RTcp | RUdp | RIcmp.
#[export] Instance ResourceProtocol_eq_dec : EqDecision ResourceProtocol.
Proof. solve_decision. Defined.

Definition resource_service (ports : list str) (protos : list ResourceProtocol) : ForwardService :=
  if (length ports =? 0)%nat && (length protos =? 0)%nat then everything
  else
    let any := (length protos =? 0)%nat in
    let specs := if (length ports =? 0)%nat then [lit "1-65535"] else ports in
    mkForwardService false
      (if any || bool_decide (RTcp ∈ protos) then specs else [])
      (if any || bool_decide (RUdp ∈ protos) then specs else [])
      ((length ports =? 0)%nat && bool_decide (RIcmp ∈ protos)).

Definition rule_service (rule : AclRule) : ForwardService :=
  let '(tcp, udp, icmp) := collect_service_specs rule ([], [], false) in
  mkForwardService false tcp udp icmp.

(** ** Routes *)

Definition is_default_route (cidr : str) : bool := seq_b cidr "0.0.0.0/0" || seq_b cidr "::/0".

Definition cidrs_overlap (left right : str) : bool :=
  match pools_overlap left right with Ok b => b | Err _ => false end.

Definition cidr_within (inner outer : str) : bool :=
  match parse_cidr inner, parse_cidr outer with
  | Ok (inner_net, inner_prefix), Ok (outer_net, outer_prefix) =>
      Bool.eqb (is_ipv4 inner_net) (is_ipv4 outer_net) && (outer_prefix <=? inner_prefix) && cidrs_overlap inner outer
  | _, _ => false
  end.

Record ResourceAccess := mkResourceAccess { ra_roles : list Role; ra_tags : list DeviceTag; ra_groups : list str }.

Definition access_matches (a : ResourceAccess) (subject : Subject) (named : BTree.map_of (list str)) : bool :=
  bool_decide (role subject ∈ ra_roles a)
  || existsb (λ t, bool_decide (t ∈ s_tags subject)) (ra_tags a)
  || existsb (λ name, match BTree.get name named with
                      | Some members => subject_in_group subject members
                      | None => false
                      end) (ra_groups a).

Record ActiveRoute := mkActiveRoute {
  ar_cidr : str;
  ar_router : Uuid;
  ar_routing_peers : list Uuid;
  ar_access : ResourceAccess;
  ar_service : ForwardService
}.

Record Distribution := mkDistribution { routes : list ActiveRoute; reserved : list (str * list Uuid) }.

Definition grants_via (dist : Distribution) (router source_id : Uuid) (source : Subject) (acl : Acl)
    (exit_selected : bool) : list (str * ForwardService) :=
  map (λ r, (ar_cidr r, ar_service r))
    (List.filter (λ r, bool_decide (ar_router r = router) && negb (bool_decide (source_id ∈ ar_routing_peers r))
                       && (negb (is_default_route (ar_cidr r)) || exit_selected)
                       && access_matches (ar_access r) source (groups acl)) (routes dist)).

Definition carried_by (dist : Distribution) (router : Uuid) : list str :=
  map ar_cidr (List.filter (λ r, bool_decide (ar_router r = router)) (routes dist)).

Definition reserved_for (dist : Distribution) (router : Uuid) : list str :=
  carried_by dist router ++ map fst (List.filter (λ e, bool_decide (router ∈ e.2)) (reserved dist)).

Record RouterView := mkRouterView {
  rv_id : Uuid;
  rv_name : str;
  rv_dns_name : str;
  rv_subject : Subject;
  rv_approved : list str;
  rv_advertised : list str
}.

Definition selected_by (router : RouterView) (requested : option str) : bool :=
  match requested with
  | Some r => bool_decide (r = rv_id router) || bool_decide (r = rv_name router) || bool_decide (r = rv_dns_name router)
  | None => false
  end.

Record ClientView := mkClientView {
  cv_id : Uuid;
  cv_subject : Subject;
  cv_overlay : list str;
  cv_exit_request : option str
}.

Definition host_addresses (ips : list str) : list str :=
  List.filter (λ route, match parse_cidr route with
                        | Ok (address, prefix) =>
                            (is_ipv4 address && (prefix =? 32)) || (is_ipv6 address && (prefix =? 128))
                        | Err _ => false
                        end) ips.

Definition host_cidr (value : str) : option str :=
  let value := to_ascii_lowercase (trim_end_matches 46 (trim value)) in
  match parse_ip value with
  | Some (V4 b) => Some (show_ip (V4 b) ++ lit "/32")
  | Some (V6 b) => Some (show_ip (V6 b) ++ lit "/128")
  | None => match parse_cidr value with Ok _ => Some value | Err _ => None end
  end.

(** ** The complement of a set of prefixes *)

Definition address_bits (a : IpAddr) : Z := match a with V4 b => b | V6 b => b end.

(** [a/alen] contains [b/blen]. *)
Definition block_contains (bits a alen b blen : Z) : bool :=
  (alen <=? blen) && ((alen =? 0) || (Z.shiftr (Z.lxor a b) (bits - alen) =? 0)).

(** The blocks [split] pushes; [None] where the shift [bits - len - 1] would
    underflow.  The budget is the number of bits left. *)
Fixpoint split (fuel : nat) (bits net len : Z) (excluded : list (Z * Z)) : option (list (Z * Z)) :=
  if existsb (λ '(prefix, plen), block_contains bits prefix plen net len) excluded then Some []
  else if negb (existsb (λ '(prefix, plen), block_contains bits net len prefix plen) excluded) then Some [(net, len)]
  else
    match fuel with
    | O => None
    | S fuel =>
        let half := Z.shiftl 1 (bits - len - 1) in
        l ← split fuel bits net (len + 1) excluded;
        r ← split fuel bits (Z.lor net half) (len + 1) excluded;
        Some (l ++ r)
    end.

Definition show_block (ipv4 : bool) (b : Z * Z) : str :=
  show_ip (if ipv4 then V4 b.1 else V6 b.1) ++ lit "/" ++ dec b.2.

(** The excluded prefixes of the family. *)
Definition excluded_blocks (ipv4 : bool) (prefixes : list str) : list (Z * Z) :=
  omap (λ prefix, match parse_cidr prefix with
                  | Ok (address, plen) =>
                      if Bool.eqb (is_ipv4 address) ipv4 then Some (address_bits address, plen) else None
                  | Err _ => None
                  end) prefixes.

Definition complement (universe : str) (prefixes : list str) : option (list str) :=
  match parse_cidr universe with
  | Err _ => Some []
  | Ok (network, _) =>
      let ipv4 := is_ipv4 network in
      let bits := if ipv4 then 32 else 128 in
      map (show_block ipv4) <$> split (Z.to_nat bits) bits 0 0 (excluded_blocks ipv4 prefixes)
  end.

(** ** Entries *)

Definition host_subject : Subject := subject_new Member [].

Definition grants (acl : Acl) (dist : Distribution) (router : RouterView) (client : ClientView) :
    BTree.map_of ForwardService :=
  let exit := selected_by router (cv_exit_request client) in
  let g := foldl (λ m route, if negb (is_default_route route) || exit then BTree.put route everything m else m) []
             (rv_approved router) in
  foldl (λ m '(cidr, service), BTree.update cidr default_service (λ v, merge v service) m) g
    (grants_via dist (rv_id router) (cv_id client) (cv_subject client) acl exit).

(** [entry]: the service is flattened into the rule. *)
Definition entry (client : ClientView) (sources : list str) (destination : str) (v : ForwardService) : ForwardRule :=
  mkForwardRule (cv_id client) sources destination (fs_all v) (fs_tcp v) (fs_udp v) (fs_icmp v).

(** The prefixes this router carries or could carry, as a [BTreeSet]. *)
Definition carried (dist : Distribution) (router : RouterView) : list str :=
  BTree.extend [] (List.filter (λ prefix, negb (is_default_route prefix))
                     (rv_approved router ++ rv_advertised router ++ reserved_for dist (rv_id router))).

(** The services the rules about a named host deny and allow this client. *)
Definition host_services (acl : Acl) (client : ClientView) (name : str) : ForwardService * ForwardService :=
  foldl (λ '(denied, allowed) rule,
           match action rule with
           | Deny => (merge denied (rule_service rule), allowed)
           | Allow => if negb (length (dst_hosts rule) =? 0)%nat
                      then (denied, merge allowed (rule_service rule)) else (denied, allowed)
           end)
    (default_service, default_service)
    (List.filter (λ rule, rule_matches acl rule (cv_subject client) host_subject None None (Some name)) (rules acl)).

(** The entries of one named host: denies and allows. *)
Definition host_entries (acl : Acl) (client : ClientView) (sources : list str) (g : BTree.map_of ForwardService)
    (named : str * str) : list ForwardRule * list ForwardRule :=
  match host_cidr named.2 with
  | None => ([], [])
  | Some host =>
      let within prefix := cidr_within host prefix in
      if negb (existsb within (map fst g)) then ([], [])
      else
        let '(denied, allowed) := host_services acl client named.1 in
        let routed_privately := existsb (λ prefix, negb (is_default_route prefix) && within prefix) (map fst g) in
        (if negb (service_is_empty denied) then [entry client sources host denied] else [],
         if negb (service_is_empty allowed) && routed_privately then [entry client sources host allowed] else [])
  end.

(** The allow entries of the grants; [None] where [complement] would panic. *)
Fixpoint grant_entries (client : ClientView) (sources : list str) (carried : list str) (g : BTree.map_of ForwardService) :
    option (list ForwardRule) :=
  match g with
  | [] => Some []
  | (prefix, v) :: g =>
      here ← (if is_default_route prefix
              then map (λ part, entry client sources part v) <$> complement prefix carried
              else Some [entry client sources prefix v]);
      rest ← grant_entries client sources carried g;
      Some (here ++ rest)
  end.

Definition compile_client (acl : Acl) (now : Z) (dist : Distribution) (router : RouterView) (client : ClientView)
    (filter : ForwardFilter) : option ForwardFilter :=
  if bool_decide (cv_id client = rv_id router) || negb (allows acl now (cv_subject client) (rv_subject router))
  then Some filter
  else
    let sources := host_addresses (cv_overlay client) in
    if (length sources =? 0)%nat then Some filter
    else
      let g := grants acl dist router client in
      if (length g =? 0)%nat then Some filter
      else
        let carried := carried dist router in
        let exits := existsb is_default_route (map fst g) in
        let deny := if exits
                    then map (λ prefix, entry client sources prefix everything)
                           (List.filter (λ prefix, negb (BTree.contains_key prefix g)) carried)
                    else [] in
        let hosts := map (host_entries acl client sources g) (hosts acl) in
        granted ← grant_entries client sources carried g;
        Some (mkForwardFilter (ff_deny filter ++ deny ++ concat (map fst hosts))
                (ff_allow filter ++ concat (map snd hosts) ++ granted)).
