(* ===== verification/CoordForwardProps.v ===== *)
(** * The compiled allow-lists grant nothing that was not given

    The complement of the carried prefixes is exact, and a packet that the agent
    of a routing peer forwards was granted to the client that sent it. *)

From S2P Require Import Prelude Text Net Policy AclFilter AclProps ForwardFilter ForwardProps Ipam CoordAcl.
From S2P Require Import CoordProps CoordForward.

(** ** Blocks *)

Definition in_block (bits : Z) (b : Z * Z) (a : Z) : bool := b.1 / 2 ^ (bits - b.2) =? a / 2 ^ (bits - b.2).

Definition block_ok (bits : Z) (b : Z * Z) : Prop := 0 ≤ b.1 < 2 ^ bits ∧ 0 ≤ b.2 ≤ bits.

Lemma block_contains_spec bits a alen b blen :
  block_ok bits (a, alen) → block_ok bits (b, blen) →
  block_contains bits a alen b blen = true ↔ alen ≤ blen ∧ a / 2 ^ (bits - alen) = b / 2 ^ (bits - alen).
Proof.
  intros [Ha Hal] [Hb Hbl]. simpl in *. unfold block_contains. rw andb_true_iff orb_true_iff Z.leb_le !Z.eqb_eq.
  rw -!Z.shiftr_div_pow2; [|lia..]. rw Z.shiftr_lxor Z.lxor_eq_0_iff. split; [|tauto].
  intros [? [->|?]]; [|done]. split; [done|]. rw !Z.shiftr_div_pow2; [|lia..]. rw Z.sub_0_r !Z.div_small //.
Qed.

Lemma low_bit_clear k n : 0 ≤ n → Z.land (k * (2 * 2 ^ n)) (2 ^ n) = 0.
Proof.
  intros Hn. rw -Z.pow_succ_r //. apply Z.bits_inj'. intros i Hi. rw Z.land_spec Z.bits_0 Z.pow2_bits_eqb //.
  destruct (Z.eqb_spec n i) as [->|]; [|by rw andb_false_r]. rw Z.mul_pow2_bits_low; [done|lia].
Qed.

Section split.
Context (bits : Z) (excluded : list (Z * Z)).
Context (Hbits : 0 < bits) (Hex : Forall (block_ok bits) excluded).

Definition excludes (a : Z) : bool := existsb (λ e, in_block bits e a) excluded.

(** A block's addresses, as a range. *)
Definition aligned (net len : Z) : Prop := block_ok bits (net, len) ∧ net mod 2 ^ (bits - len) = 0.

Lemma in_block_range net len a :
  aligned net len → in_block bits (net, len) a = true ↔ net ≤ a < net + 2 ^ (bits - len).
Proof using Hbits.
  intros [[Hn Hl] Hm]. simpl in *. unfold in_block. simpl. rw Z.eqb_eq.
  assert (0 < 2 ^ (bits - len)) as Hpos by (apply Z.pow_pos_nonneg; lia).
  pose proof (Z_div_mod_eq_full net (2 ^ (bits - len))) as Hn'.
  pose proof (Z_div_mod_eq_full a (2 ^ (bits - len))) as Ha'.
  pose proof (Z.mod_pos_bound a (2 ^ (bits - len)) Hpos) as Hb. split; [intros Heq; nia|].
  intros Hr. apply (Z.div_unique _ _ _ (a - net)); [left|]; lia.
Qed.

(** The two halves of a block. *)
Lemma halves net len :
  aligned net len → len < bits →
  let half := 2 ^ (bits - len - 1) in
  Z.lor net (Z.shiftl 1 (bits - len - 1)) = net + half ∧
  aligned net (len + 1) ∧ aligned (net + half) (len + 1) ∧
  ∀ a, in_block bits (net, len) a = in_block bits (net, len + 1) a || in_block bits (net + half, len + 1) a.
Proof using Hbits.
  intros Hal Hlt half. pose proof Hal as [[Hn Hl] Hm]. simpl in *.
  assert (2 ^ (bits - len) = 2 * half) as H2.
  { unfold half. rw -Z.pow_succ_r; [|lia]. f_equal. lia. }
  assert (0 < half) as Hh by (apply Z.pow_pos_nonneg; lia).
  rewrite H2 in Hm. apply Z.mod_divide in Hm as [k Hk]; [|lia].
  assert (2 ^ (bits - (len + 1)) = half) as Hhalf by (unfold half; f_equal; lia).
  assert (net + 2 * half ≤ 2 ^ bits) as Hfit.
  { assert (2 ^ bits = 2 ^ len * (2 * half)) as Hw.
    { rw -H2 -Z.pow_add_r; [f_equal; lia|lia..]. }
    assert (k < 2 ^ len) as Hkl by (apply (Z.mul_lt_mono_pos_r (2 * half)); lia).
    assert ((k + 1) * (2 * half) ≤ 2 ^ len * (2 * half)) by (apply Z.mul_le_mono_nonneg_r; lia). lia. }
  assert (aligned net (len + 1)) as A1.
  { split; [split; simpl; lia|]. simpl. rw Hhalf Hk. replace (k * (2 * half)) with ((2 * k) * half) by ring.
    apply Z.mod_mul. lia. }
  assert (aligned (net + half) (len + 1)) as A2.
  { split; [split; simpl; lia|]. simpl. rw Hhalf Hk. replace (k * (2 * half) + half) with ((2 * k + 1) * half) by ring.
    apply Z.mod_mul. lia. }
  split_and!; [|done|done|].
  - rw Z.shiftl_1_l. fold half. rw -Z.lxor_lor; [symmetry; apply Z.add_nocarry_lxor|]; rw Hk; apply low_bit_clear; lia.
  - intros a. apply eq_true_iff_eq. rw orb_true_iff !in_block_range //. simpl. rw H2 Hhalf. lia.
Qed.

Lemma contains_in_block p plen net len a :
  block_ok bits (p, plen) → aligned net len → block_contains bits p plen net len = true →
  in_block bits (net, len) a = true → in_block bits (p, plen) a = true.
Proof using.
  intros Hp [Hok _] Hc Ha. apply block_contains_spec in Hc as [Hle Heq]; [|done..].
  unfold in_block in *. simpl in *. apply Z.eqb_eq in Ha. apply Z.eqb_eq. rw Heq.
  destruct Hp as [_ ?], Hok as [_ ?]. simpl in *. apply (IpamProps.div_coarser bits len plen); [lia..|done].
Qed.

Lemma excludes_inside net len a :
  aligned net len → existsb (λ '(p, plen), block_contains bits p plen net len) excluded = true →
  in_block bits (net, len) a = true → excludes a = true.
Proof using Hex.
  intros Hal ([p plen] & Hin & Hc)%existsb_exists Ha. apply existsb_exists. exists (p, plen). split; [done|].
  apply (contains_in_block _ _ net len); [|done..]. by apply (proj1 (Forall_forall _ _) Hex), list_elem_of_In.
Qed.

Lemma excludes_outside net len a :
  aligned net len → existsb (λ '(p, plen), block_contains bits p plen net len) excluded = false →
  existsb (λ '(p, plen), block_contains bits net len p plen) excluded = false →
  in_block bits (net, len) a = true → excludes a = false.
Proof using Hex.
  intros [Hok Hm] Hin Hout Ha. unfold excludes. apply not_true_iff_false. intros ([p plen] & Hp & Hc)%existsb_exists.
  assert (block_ok bits (p, plen)) as Hpok by by apply (proj1 (Forall_forall _ _) Hex), list_elem_of_In.
  unfold in_block in *. simpl in *. apply Z.eqb_eq in Ha, Hc. pose proof Hok as [_ Hl]. pose proof Hpok as [_ Hpl]. simpl in *.
  destruct (Z.le_ge_cases plen len) as [Hle|Hle].
  - apply not_true_iff_false in Hin. apply Hin, existsb_exists. exists (p, plen). split; [done|].
    apply block_contains_spec; [done..|]. split; [done|]. rw Hc. symmetry. apply (IpamProps.div_coarser bits len plen); [lia..|done].
  - apply not_true_iff_false in Hout. apply Hout, existsb_exists. exists (p, plen). split; [done|].
    apply block_contains_spec; [done..|]. split; [done|]. rw Ha. symmetry. apply (IpamProps.div_coarser bits plen len); [lia..|done].
Qed.

(** A full-length block with an excluded prefix inside is that prefix. *)
Lemma full_block_excluded net :
  aligned net bits → existsb (λ '(p, plen), block_contains bits net bits p plen) excluded = true →
  existsb (λ '(p, plen), block_contains bits p plen net bits) excluded = true.
Proof using Hex.
  intros [Hok _] ([p plen] & Hin & Hc)%existsb_exists. apply existsb_exists. exists (p, plen). split; [done|].
  assert (block_ok bits (p, plen)) as Hpok by by apply (proj1 (Forall_forall _ _) Hex), list_elem_of_In.
  apply block_contains_spec in Hc as [Hle Heq]; [|done..]. pose proof Hpok as [_ Hpl]. simpl in *.
  assert (plen = bits) as -> by lia. by apply block_contains_spec.
Qed.

Lemma split_spec fuel net len :
  aligned net len → fuel = Z.to_nat (bits - len) →
  ∃ out, split fuel bits net len excluded = Some out ∧ Forall (λ b, aligned b.1 b.2) out ∧
  ∀ a, 0 ≤ a < 2 ^ bits →
    existsb (λ b, in_block bits b a) out = in_block bits (net, len) a && negb (excludes a).
Proof using Hbits Hex.
  revert net len. induction fuel as [|fuel IH]; intros net len Hal Hfuel; pose proof Hal as [[_ Hlen] _]; simpl in Hlen;
    cbn [split].
  all: destruct (existsb (λ '(prefix, plen), block_contains bits prefix plen net len) excluded) eqn:Hin.
  all: try (exists []; split_and!; [done|constructor|]; intros a Ha; cbn [existsb];
    destruct (in_block bits (net, len) a) eqn:Hb; [|done]; by rw (excludes_inside net len a)).
  all: destruct (existsb (λ '(prefix, plen), block_contains bits net len prefix plen) excluded) eqn:Hout; cbn [negb].
  all: try (exists [(net, len)]; split_and!; [done|by apply Forall_singleton|]; intros a Ha; cbn [existsb]; rw orb_false_r;
    destruct (in_block bits (net, len) a) eqn:Hb; [|done]; by rw (excludes_outside net len a)).
  - assert (len = bits) as -> by lia. rewrite full_block_excluded // in Hin.
  - destruct (halves net len Hal ltac:(lia)) as (Hlor & A1 & A2 & Hsplit). cbv zeta. rw Hlor.
    destruct (IH net (len + 1) A1 ltac:(lia)) as (o1 & -> & Hf1 & H1).
    destruct (IH _ (len + 1) A2 ltac:(lia)) as (o2 & -> & Hf2 & H2). simpl.
    exists (o1 ++ o2). split_and!; [done|by apply Forall_app|]. intros a Ha.
    rw existsb_app H1 // H2 // Hsplit. by rw andb_orb_distrib_l.
Qed.

End split.

(** ** Prefixes as text *)

Definition bits_of (ipv4 : bool) : Z := if ipv4 then 32 else 128.
Definition addr (ipv4 : bool) (n : Z) : IpAddr := if ipv4 then V4 n else V6 n.

(** The addresses a CIDR text covers, as the coordinator reads it. *)
Definition text_contains (prefix : str) (a : IpAddr) : bool :=
  match parse_cidr prefix with Ok (n, k) => cidr_contains n k a | Err _ => false end.

Lemma bits_pos v4 : 0 < bits_of v4.
Proof. by destruct v4. Qed.

Lemma addr_wf v4 n : 0 ≤ n < 2 ^ bits_of v4 → wf_ip (addr v4 n).
Proof. destruct v4; simpl; mlia. Qed.

Lemma addr_width v4 n : width (addr v4 n) = bits_of v4.
Proof. by destruct v4. Qed.

Lemma addr_bits a : a = addr (is_ipv4 a) (address_bits a).
Proof. by destruct a. Qed.

Lemma bits_range a : wf_ip a → 0 ≤ address_bits a < 2 ^ bits_of (is_ipv4 a).
Proof. destruct a; simpl; mlia. Qed.

(** Membership in a block, through the coordinator's and the agents' readings. *)
Lemma contains_block v4 n k a :
  block_ok (bits_of v4) (n, k) → wf_ip a → is_ipv4 a = v4 →
  cidr_contains (addr v4 n) k a = in_block (bits_of v4) (n, k) (address_bits a).
Proof.
  intros [Hn Hk] Ha Hf. simpl in *. apply eq_true_iff_eq.
  rw IpamProps.contains_div; [|by apply addr_wf|done|by rw addr_width].
  unfold in_block. simpl. rw Z.eqb_eq IpamProps.same_family_spec addr_width.
  destruct a, v4; simpl in *; try done; split; [intros []; done|by split|intros []; done|by split].
Qed.

Lemma in_network_block v4 n k a :
  is_ipv4 a = v4 → in_network (addr v4 n) k a = in_block (bits_of v4) (n, k) (address_bits a).
Proof. intros <-. by destruct a. Qed.

Lemma mask_aligned v4 n k : aligned (bits_of v4) n k → mask_addr (addr v4 n) k = addr v4 n.
Proof.
  intros [[Hn Hk] Hm]. simpl in *. assert (mask_value (bits_of v4) k n = n) as Hmask.
  { rw mask_value_div //. pose proof (Z_div_mod_eq_full n (2 ^ (bits_of v4 - k))). lia. }
  destruct v4; simpl in *; by rw Hmask.
Qed.

Lemma dec_graphic z : 0 ≤ z → Forall graphic (dec z).
Proof. intros Hz. eapply Forall_impl; [by apply dec_digits|]. unfold graphic. simpl. lia. Qed.

Lemma parse_show_block v4 b :
  aligned (bits_of v4) b.1 b.2 → parse_cidr (show_block v4 b) = Ok (addr v4 b.1, b.2).
Proof.
  intros Hal. pose proof Hal as [[Hn Hk] _]. simpl in *. unfold parse_cidr, show_block.
  fold (addr v4 b.1). change (lit "/") with [47]. cbn [app]. rw split_once_app; [|apply show_ip_no_slash].
  cbn [ok_or result_bind]. rw trim_graphic; [|apply show_ip_graphic]. rw parse_show_ip; [|by apply addr_wf].
  cbn [ok_or result_bind]. rw trim_graphic; [|apply dec_graphic; lia].
  unfold parse_u8. rw parse_uint_dec; [|destruct v4; simpl in *; mlia]. cbn [ok_or result_bind].
  rw addr_width mask_aligned //. destruct (Z.ltb_spec (bits_of v4) b.2); [lia|done].
Qed.

Lemma excluded_blocks_ok v4 ps : Forall (block_ok (bits_of v4)) (excluded_blocks v4 ps).
Proof.
  apply Forall_forall. intros b (p & _ & Hp)%list_elem_of_omap. destruct (parse_cidr p) as [[n k]|] eqn:Hc; [|done].
  destruct (Bool.eqb (is_ipv4 n) v4) eqn:Hf; [|done]. apply eqb_prop in Hf as <-. apply (inj Some) in Hp as <-.
  apply IpamProps.parse_cidr_block in Hc as [Hw Hk _]. split; [by apply bits_range|]. by destruct n.
Qed.

Lemma excludes_text v4 ps a :
  wf_ip a → is_ipv4 a = v4 →
  excludes (bits_of v4) (excluded_blocks v4 ps) (address_bits a) = existsb (λ p, text_contains p a) ps.
Proof.
  intros Ha Hf. unfold excludes, excluded_blocks. induction ps as [|p ps IH]; [done|]. cbn [omap list_omap existsb].
  unfold text_contains at 1. destruct (parse_cidr p) as [[n k]|] eqn:Hc; [|exact IH].
  apply IpamProps.parse_cidr_block in Hc as [Hw Hk _].
  destruct (Bool.eqb (is_ipv4 n) v4) eqn:Hn.
  - apply eqb_prop in Hn. cbn [existsb]. rw IH. f_equal. rw {2}(addr_bits n) Hn. symmetry. apply contains_block; [|done..].
    split; [simpl; rw -Hn; by apply bits_range|]. rewrite -Hn. by destruct n.
  - rw IH. assert (cidr_contains n k a = false) as ->; [|done]. by subst v4; destruct n, a.
Qed.

Lemma default_route_family universe :
  is_default_route universe = true →
  ∃ n, parse_cidr universe = Ok (n, 0) ∧ is_ipv4 n = seq_b universe "0.0.0.0/0".
Proof.
  unfold is_default_route, seq_b. intros [H|H]%orb_true_iff; apply bool_decide_eq_true in H as ->; eexists;
    (split; [by vm_compute|by vm_compute]).
Qed.

Lemma complement_blocks universe ps :
  is_default_route universe = true →
  let v4 := seq_b universe "0.0.0.0/0" in
  ∃ out, complement universe ps = Some (map (show_block v4) out) ∧
  Forall (λ b, aligned (bits_of v4) b.1 b.2) out ∧
  ∀ a, wf_ip a → is_ipv4 a = v4 →
    existsb (λ b, in_block (bits_of v4) b (address_bits a)) out = negb (existsb (λ p, text_contains p a) ps).
Proof.
  intros Hu v4. destruct (default_route_family universe Hu) as (n & Hp & Hn). unfold complement. rw Hp.
  fold v4 in Hn. rw Hn. fold (bits_of v4).
  destruct (split_spec (bits_of v4) (excluded_blocks v4 ps) (bits_pos v4) (excluded_blocks_ok v4 ps)
    (Z.to_nat (bits_of v4)) 0 0) as (out & -> & Hal & Hspec); [by destruct v4|by destruct v4|].
  exists out. split_and!; [done|done|]. intros a Ha Hf. rw -(excludes_text v4) // Hspec.
  - assert (in_block (bits_of v4) (0, 0) (address_bits a) = true) as ->; [|done].
    unfold in_block. cbn [fst snd]. apply Z.eqb_eq. rw Z.sub_0_r Zdiv_0_l Z.div_small //. rw -Hf. by apply bits_range.
  - rw -Hf. by apply bits_range.
Qed.

(** [C37] The complement of a default route never runs past the last bit and is
    exact: its parts cover every address of the family that no excluded prefix
    covers, and no other. *)
Theorem complement_exact (universe : str) (ps : list str) (a : IpAddr)
    (Hu : is_default_route universe = true) (Ha : wf_ip a) (Hf : is_ipv4 a = seq_b universe "0.0.0.0/0") :
  ∃ parts, complement universe ps = Some parts ∧
    existsb (λ part, text_contains part a) parts = negb (existsb (λ p, text_contains p a) ps).
Proof.
  destruct (complement_blocks universe ps Hu) as (out & -> & Hal & Hspec). eexists. split; [done|].
  rw -Hspec //. clear Hspec. induction Hal as [|b out Hb Hal IH]; [done|]. cbn [map existsb]. rw IH. f_equal.
  unfold text_contains. rw parse_show_block //. destruct b as [n k]. apply contains_block; [apply Hb|done..].
Qed.

Lemma complement_exact_witness :
  ∃ parts, complement (lit "0.0.0.0/0") [lit "10.0.0.0/8"; lit "fd00::/8"] = Some parts ∧
    existsb (λ part, text_contains part (V4 167772165)) parts = false.
Proof.
  apply (complement_exact (lit "0.0.0.0/0") [lit "10.0.0.0/8"; lit "fd00::/8"] (V4 167772165)); by vm_compute.
Defined.

(** ** What an allow entry stands for *)

Section compiled.
Context (acl : Acl) (now : Z) (dist : Distribution) (router : RouterView).

(** The loop over the clients a routing peer is paired with. *)
Definition compile_clients (clients : list ClientView) : option ForwardFilter :=
  foldl (λ f c, f ≫= compile_client acl now dist router c) (Some (mkForwardFilter [] [])) clients.

(** The agent's reading of a destination, and of a service. *)
Definition reaches (destination : str) (a : IpAddr) : bool :=
  match parse (trim destination) false with Some (n, k) => in_network n k a | None => false end.

Definition service_covers (v : ForwardService) (p : FwdPacket) : bool :=
  ForwardSpec.service true (mkForwardRule [] [] [] (fs_all v) (fs_tcp v) (fs_udp v) (fs_icmp v)) p.

(** The client may use the router, and the packet comes from one of its own
    addresses. *)
Definition from_paired_client (c : ClientView) (p : FwdPacket) : Prop :=
  cv_id c ≠ rv_id router ∧ allows acl now (cv_subject c) (rv_subject router) = true ∧
  ∃ source k, source ∈ cv_overlay c ∧ parse (trim source) true = Some (fw_source p, k).

(** The packet uses a prefix the client was given, with its service; through a
    default route only outside every prefix the router carries. *)
Definition by_grant (c : ClientView) (p : FwdPacket) : Prop :=
  ∃ prefix v, (prefix, v) ∈ grants acl dist router c ∧ service_covers v p = true ∧
    if is_default_route prefix
    then Forall (λ q, text_contains q (fw_dest p) = false) (carried dist router)
    else reaches prefix (fw_dest p) = true.

(** The packet goes to a named host inside a prefix the client was given, with a
    service that allow rules about named hosts give it. *)
Definition by_host (c : ClientView) (p : FwdPacket) : Prop :=
  ∃ name value host prefix, (name, value) ∈ hosts acl ∧ host_cidr value = Some host ∧
    prefix ∈ map fst (grants acl dist router c) ∧ is_default_route prefix = false ∧ cidr_within host prefix = true ∧
    reaches host (fw_dest p) = true ∧ service_covers (host_services acl c name).2 p = true.

Definition justified (c : ClientView) (p : FwdPacket) : Prop := from_paired_client c p ∧ (by_grant c p ∨ by_host c p).

Lemma entry_covers_entry c sources destination v p :
  ForwardSpec.entry_covers true (entry c sources destination v) p = true →
  reaches destination (fw_dest p) = true ∧ service_covers v p = true ∧
  ∃ source k, source ∈ sources ∧ parse (trim source) true = Some (fw_source p, k).
Proof using.
  unfold ForwardSpec.entry_covers, reaches. cbn [entry fr_destination fr_sources].
  destruct (parse (trim destination) false) as [[n k]|]; [|done].
  intros [Hc [Hn Hs]%andb_true_iff]%andb_true_iff. split_and!; [done|done|].
  unfold ForwardSpec.from_client in Hc. cbn [entry fr_sources] in Hc.
  apply existsb_exists in Hc as (source & Hin & Hp).
  destruct (parse (trim source) true) as [[b j]|] eqn:Hparse; [|done]. apply bool_decide_eq_true in Hp as <-.
  exists source, j. split; [by apply list_elem_of_In|done].
Qed.

Lemma reaches_block v4 b a :
  aligned (bits_of v4) b.1 b.2 → reaches (show_block v4 b) a = true →
  is_ipv4 a = v4 ∧ in_block (bits_of v4) b (address_bits a) = true.
Proof using.
  intros Hal. pose proof Hal as [[Hn Hk] _]. simpl in *. unfold reaches, show_block. fold (addr v4 b.1).
  change (lit "/") with [47]. cbn [app]. rw trim_graphic.
  2: { apply Forall_app; split; [apply show_ip_graphic|]. constructor; [unfold graphic; lia|apply dec_graphic; lia]. }
  unfold parse. rw split_once_app; [|apply show_ip_no_slash]. rw parse_show_ip; [|by apply addr_wf].
  cbn [mbind option_bind]. unfold parse_u8. rw parse_uint_dec; [|destruct v4; simpl in *; mlia].
  cbn [mbind option_bind]. assert (full_prefix (addr v4 b.1) = bits_of v4) as -> by by destruct v4.
  destruct (Z.ltb_spec (bits_of v4) b.2); [lia|]. cbn [orb andb]. intros Hin.
  assert (is_ipv4 a = v4) as Hf by by destruct v4, a. split; [done|]. rewrite (in_network_block v4) // in Hin.
Qed.

Lemma grant_entry_justified c sources g l e p :
  grant_entries c sources (carried dist router) g = Some l → e ∈ l → wf_ip (fw_dest p) →
  ForwardSpec.entry_covers true e p = true →
  ∃ prefix v, (prefix, v) ∈ g ∧ service_covers v p = true ∧
    (if is_default_route prefix
     then Forall (λ q, text_contains q (fw_dest p) = false) (carried dist router)
     else reaches prefix (fw_dest p) = true) ∧
    ∃ source k, source ∈ sources ∧ parse (trim source) true = Some (fw_source p, k).
Proof using.
  intros Hl He Hw Hc. revert l Hl He. induction g as [|[prefix v] g IH]; intros l Hl He.
  { apply (inj Some) in Hl as <-. by apply elem_of_nil in He. }
  cbn [grant_entries] in Hl.
  destruct (if is_default_route prefix then _ else _) as [here|] eqn:Hh; [|done]. cbn [mbind option_bind] in Hl.
  destruct (grant_entries c sources (carried dist router) g) as [rest|] eqn:Hg; [|done]. cbn [mbind option_bind] in Hl.
  apply (inj Some) in Hl as <-. apply elem_of_app in He as [He|He].
  2: { destruct (IH rest eq_refl He) as (q & u & Hq & Hrest). exists q, u. split; [by constructor|done]. }
  exists prefix, v. split; [constructor|]. destruct (is_default_route prefix) eqn:Hd.
  - destruct (complement_blocks prefix (carried dist router) Hd) as (out & Hout & Hal & Hspec).
    rewrite Hout in Hh. apply (inj Some) in Hh as <-.
    apply list_elem_of_fmap in He as (part & -> & (b & -> & Hb)%list_elem_of_fmap).
    apply entry_covers_entry in Hc as (Hr & Hs & Hsrc).
    apply reaches_block in Hr as [Hf Hin]; [|by apply (proj1 (Forall_forall _ _) Hal)].
    split_and!; [done| |done]. specialize (Hspec _ Hw Hf).
    assert (existsb (λ b0, in_block (bits_of (seq_b prefix "0.0.0.0/0")) b0 (address_bits (fw_dest p))) out = true) as Hex.
    { apply existsb_exists. exists b. split; [by apply list_elem_of_In|done]. }
    rewrite Hex in Hspec. symmetry in Hspec. apply negb_true_iff in Hspec.
    apply Forall_forall. intros q Hq. apply not_true_iff_false. intros Ht.
    apply not_true_iff_false in Hspec. apply Hspec, existsb_exists. exists q. split; [by apply list_elem_of_In|done].
  - apply (inj Some) in Hh as <-. apply list_elem_of_singleton in He as ->.
    apply entry_covers_entry in Hc as (Hr & Hs & Hsrc). done.
Qed.

Lemma host_entry_justified c sources named e p :
  e ∈ (host_entries acl c sources (grants acl dist router c) named).2 → named ∈ hosts acl →
  ForwardSpec.entry_covers true e p = true →
  by_host c p ∧ ∃ source k, source ∈ sources ∧ parse (trim source) true = Some (fw_source p, k).
Proof using.
  destruct named as [name value]. unfold host_entries. cbn [fst snd].
  destruct (host_cidr value) as [host|] eqn:Hh; [|by intros ?%elem_of_nil].
  destruct (negb (existsb _ _)); [by intros ?%elem_of_nil|].
  destruct (host_services acl c name) as [denied allowed] eqn:Hs. cbn [snd].
  destruct (negb (service_is_empty allowed) && _) eqn:Hb; [|by intros ?%elem_of_nil].
  apply andb_true_iff in Hb as [_ (prefix & Hin & [Hd Hw]%andb_true_iff)%existsb_exists].
  intros ->%list_elem_of_singleton Hnamed (Hr & Hv & Hsrc)%entry_covers_entry. split; [|done].
  exists name, value, host, prefix. rw Hs. cbn [snd]. apply negb_true_iff in Hd.
  split_and!; try done. by apply list_elem_of_In.
Qed.

Lemma sources_overlay c source : source ∈ host_addresses (cv_overlay c) → source ∈ cv_overlay c.
Proof using. unfold host_addresses. rw !list_elem_of_In filter_In. tauto. Qed.

Lemma compile_client_total c f : is_Some (compile_client acl now dist router c f).
Proof using.
  unfold compile_client. do 3 (case_match; [by eexists|]).
  assert (∀ sources g, is_Some (grant_entries c sources (carried dist router) g)) as Hg.
  { intros sources g. induction g as [|[prefix v] g [l IH]]; [by eexists|]. cbn [grant_entries]. rw IH.
    destruct (is_default_route prefix) eqn:Hd; [|by eexists].
    destruct (complement_blocks prefix (carried dist router) Hd) as (out & -> & _). by eexists. }
  destruct (Hg (host_addresses (cv_overlay c)) (grants acl dist router c)) as [l ->]. by eexists.
Qed.

Lemma compile_client_justified c f f' e p :
  compile_client acl now dist router c f = Some f' → e ∈ ff_allow f' → wf_ip (fw_dest p) →
  ForwardSpec.entry_covers true e p = true → e ∈ ff_allow f ∨ justified c p.
Proof using.
  unfold compile_client. destruct (_ || _) eqn:Hpair; [by intros <-%(inj Some); left|].
  case_match; [by intros <-%(inj Some); left|]. case_match; [by intros <-%(inj Some); left|].
  destruct (grant_entries _ _ _ _) as [granted|] eqn:Hg; [|done]. cbn [mbind option_bind].
  intros <-%(inj Some). cbn [ff_allow]. intros He Hw Hc.
  apply orb_false_iff in Hpair as [Hne%bool_decide_eq_false Hal%negb_false_iff].
  assert (∀ P : Prop, P → (∃ source k, source ∈ host_addresses (cv_overlay c) ∧ parse (trim source) true = Some (fw_source p, k)) →
    from_paired_client c p ∧ P) as Hpaired.
  { intros P HP (source & k & Hs & Hp). split; [|done]. split_and!; [done|done|].
    exists source, k. split; [by apply sources_overlay|done]. }
  apply elem_of_app in He as [He|[He|He]%elem_of_app]; [by left|right..].
  - apply list_elem_of_In, in_concat in He as (l & Hl & He).
    apply in_map_iff in Hl as (hs & <- & (named & <- & Hn)%in_map_iff).
    apply list_elem_of_In in He, Hn. apply host_entry_justified with (p := p) in He as [Hh Hs]; [|done..].
    apply Hpaired; [by right|done].
  - destruct (grant_entry_justified _ _ _ _ _ _ Hg He Hw Hc) as (prefix & v & Hin & Hv & Hd & Hs).
    apply Hpaired; [|done]. left. by exists prefix, v.
Qed.

Lemma compiled_justified clients f e p :
  compile_clients clients = Some f → e ∈ ff_allow f → wf_ip (fw_dest p) →
  ForwardSpec.entry_covers true e p = true → ∃ c, c ∈ clients ∧ justified c p.
Proof using.
  intros Hf He Hw Hc. revert f Hf He. unfold compile_clients.
  induction clients as [|c clients IH] using rev_ind; intros f Hf He.
  { apply (inj Some) in Hf as <-. by apply elem_of_nil in He. }
  rewrite foldl_app in Hf. cbn [foldl] in Hf. destruct (foldl _ _ clients) as [f0|] eqn:H0; [|done].
  cbn [mbind option_bind] in Hf. destruct (compile_client_justified _ _ _ _ p Hf He Hw Hc) as [Hin|Hj].
  - destruct (IH f0 eq_refl Hin) as (c' & Hc' & Hj'). exists c'. split; [apply elem_of_app; by left|done].
  - exists c. split; [apply elem_of_app; right; constructor|done].
Qed.

Lemma compile_clients_total clients : is_Some (compile_clients clients).
Proof using.
  unfold compile_clients. induction clients as [|c clients IH] using rev_ind; [by eexists|].
  rw foldl_app. cbn [foldl]. destruct IH as [f ->]. apply compile_client_total.
Qed.

End compiled.

(** [C8] What a routing peer forwards was granted: compiling never fails, and where
    the agent's chain accepts a packet, a client that is paired with the router
    owns the source address, and the packet uses a prefix with the service given
    to that client (through a default route only outside every prefix the router
    carries), or a named host inside such a prefix. *)
Theorem forwarded_packet_was_granted `{IptablesForward} (acl : Acl) (now : Z) (dist : Distribution)
    (router : RouterView) (clients : list ClientView) (p : FwdPacket) (Hp : wf_packet p) (Hw : wf_ip (fw_dest p)) :
  ∃ f, compile_clients acl now dist router clients = Some f ∧
    (fwd_chain (family (is_ipv6 (fw_source p)) (plan f)) p = Some true →
     ∃ c, c ∈ clients ∧ justified acl now dist router c p).
Proof.
  destruct (compile_clients_total acl now dist router clients) as [f Hf]. exists f. split; [done|].
  rw fwd_chain_plan //. intros Ha%(inj Some). unfold ForwardSpec.allows in Ha.
  apply andb_true_iff in Ha as [_ (e & He & Hc)%existsb_exists].
  eapply compiled_justified; [done|by apply list_elem_of_In|done|done].
Qed.

(** A router with one approved subnet and a client with the same tag. *)
Definition sample_router : RouterView :=
  mkRouterView (lit "r") (lit "gw") (lit "gw.net") member [lit "10.0.0.0/24"] [lit "10.0.1.0/24"].
Definition sample_client : ClientView := mkClientView (lit "c") member [lit "100.64.0.2/32"] (Some (lit "gw")).
Definition sample_distribution : Distribution := mkDistribution [] [(lit "10.0.2.0/24", [lit "r"])].

Lemma forwarded_packet_was_granted_witness :
  ∃ c, c ∈ [sample_client] ∧
    justified web_acl 0 sample_distribution sample_router c (sample_packet 167772165).
Proof.
  destruct (forwarded_packet_was_granted web_acl 0 sample_distribution sample_router [sample_client]
    (sample_packet 167772165)) as (f & Hf & Hj); [by vm_compute|by vm_compute|].
  assert (fwd_chain (fwd4 (plan (default (mkForwardFilter [] [])
    (compile_clients web_acl 0 sample_distribution sample_router [sample_client])))) (sample_packet 167772165)
    = Some true) as Hacc by (vm_compute; reflexivity).
  rewrite Hf in Hacc. exact (Hj Hacc).
Defined.
