(* ===== verification/Traffic.v ===== *)
(** * Traffic reporting on the agent

    [blaktaild/src/traffic.rs]: when to count and upload, the windows of flow
    events, the conversion of cumulative kernel counters into counts per
    interval, and the parsers of the counter listings.  Times are [i64] seconds
    of the wall clock, whose differences do not overflow. *)

From S2P Require Import Prelude Text Net Float64 FlowReport FlowEvents Policy AclFilter.

Definition REPORT_EVERY_SECS : Z := 60.
Definition UPLOAD_EVERY_SECS : Z := 30.

Record Settings := mkSettings {
  enabled : bool;
  sampling_rate : f64;
  org_id : str
}.

Definition active_settings (settings : option Settings) : option Settings :=
  match settings with
  | Some s =>
      if enabled s && f64_ltb (f64_of_Z 0) (sampling_rate s) && negb (length (org_id s) =? 0)%nat
      then Some s else None
  | None => None
  end.

Inductive Step := Idle | Start | Stop | Report (start end_ : Z).

Record Reporter := mkReporter { rp_active : bool; bucket_start : Z }.

Definition reporter_default : Reporter := mkReporter false 0.

Definition reporter_step (r : Reporter) (settings : option Settings) (now : Z) : Reporter * Step :=
  match bool_decide (is_Some (active_settings settings)), rp_active r with
  | false, false => (r, Idle)
  | false, true => (mkReporter false (bucket_start r), Stop)
  | true, false => (mkReporter true now, Start)
  | true, true =>
      if REPORT_EVERY_SECS <=? now - bucket_start r
      then (mkReporter true now, Report (bucket_start r) now)
      else (r, Idle)
  end.

Definition halt (r : Reporter) : Reporter := mkReporter false (bucket_start r).

(** ** Event windows *)

Record EventWindow := mkEventWindow { since : option Z; pending : list FlowEvent }.

Definition window_default : EventWindow := mkEventWindow None [].
Definition window_start (w : EventWindow) (now : Z) : EventWindow := mkEventWindow (Some now) [].
Definition window_stop (w : EventWindow) : EventWindow := mkEventWindow None [].

Definition hold (w : EventWindow) (events : list FlowEvent) : EventWindow :=
  let room := (MAX_BATCH - length (pending w))%nat in
  mkEventWindow (since w) (pending w ++ take room events).

Definition due (w : EventWindow) (now : Z) : EventWindow * option (Z * list FlowEvent) :=
  match since w with
  | None => (w, None)
  | Some from =>
      if now - from <? UPLOAD_EVERY_SECS then (w, None)
      else (mkEventWindow (Some now) [], Some (from, pending w))
  end.

(** ** Counters *)

(** [Deltas]: the last reading of every counter. *)
Abbreviation Deltas := (gmap str (Z * Z)).

Definition delta (d : Deltas) (key : str) (packets bytes : Z) : Deltas * (Z * Z) :=
  (<[key := (packets, bytes)]> d,
   match d !! key with
   | Some (last_packets, last_bytes) =>
       if (last_packets <=? packets) && (last_bytes <=? bytes)
       then (packets - last_packets, bytes - last_bytes) else (packets, bytes)
   | None => (packets, bytes)
   end).

Definition clear_deltas (d : Deltas) : Deltas := ∅.

Record RuleCounter := mkRuleCounter {
  rc_key : str;
  rc_source : option IpAddr;
  rc_proto : str;
  rc_port : Z;
  rc_allowed : bool;
  rc_packets : Z;
  rc_bytes : Z
}.

Definition proto_name (value : str) : str :=
  if seq_b value "tcp" || seq_b value "6" then lit "tcp"
  else if seq_b value "udp" || seq_b value "17" then lit "udp"
  else if seq_b value "icmp" || seq_b value "1" || seq_b value "icmpv6" || seq_b value "ipv6-icmp"
          || seq_b value "58" then lit "icmp"
  else lit "all".

(** [iter.find_map(f)] *)
Definition find_map {A B} (f : A → option B) (l : list A) : option B := head (omap f l).

Definition first_field (c : Z) (s : str) : str := default [] (head (split c s)).

Definition token_source (token : str) : option (IpAddr * str) :=
  let '(address, prefix) := default (token, []) (split_once 47 token) in
  a ← parse_ip address;
  Some (a, prefix).

Definition token_port (token : str) : option str :=
  match strip_prefix (lit "dpt:") token with
  | Some v => Some v
  | None => strip_prefix (lit "dpts:") token
  end.

Definition verdict_column (token : str) : option bool :=
  if seq_b token "ACCEPT" then Some true
  else if seq_b token "REJECT" || seq_b token "DROP" then Some false
  else None.

(** One line of the chain listing; [None] where the loop continues. *)
Definition parse_rule_line (line : str) : option RuleCounter :=
  match split_whitespace line with
  | t0 :: t1 :: t2 :: t3 :: rest =>
      if contains_str (lit "ESTABLISHED") line then None
      else
        packets ← parse_u64 t0;
        bytes ← parse_u64 t1;
        allowed ← verdict_column t2;
        let source := '(address, prefix) ← find_map token_source rest;
                      if seq_b prefix "0" then None else Some address in
        let port := default 0 (value ← find_map token_port (t0 :: t1 :: t2 :: t3 :: rest);
                               parse_u16 (first_field 58 value)) in
        Some (mkRuleCounter (join (lit " ") (t2 :: t3 :: rest)) source (proto_name t3) port allowed packets bytes)
  | _ => None
  end.

Definition parse_iptables (output : str) : list RuleCounter := omap parse_rule_line (lines output).

Definition parse_transfer_line (line : str) : option (str * Z * Z) :=
  match split_whitespace line with
  | key :: rx :: tx :: _ =>
      rx ← parse_u64 rx;
      tx ← parse_u64 tx;
      Some (key, rx, tx)
  | _ => None
  end.

Definition parse_wg_transfer (output : str) : list (str * Z * Z) := omap parse_transfer_line (lines output).

(** The peer id that owns each overlay address; a later peer replaces an earlier
    one. *)
Definition by_address (peers : list Peer) : gmap IpAddr str :=
  foldl (λ m p, foldl (λ m address, match parse_ip address with
                                    | Some a => <[a := peer_id p]> m
                                    | None => m
                                    end) m (overlay_host_addrs (allowed_ips p))) ∅ peers.

Definition push_rule_count (owners : gmap IpAddr str) (family : str) (acc : Deltas * list FlowCount)
    (entry : nat * RuleCounter) : Deltas * list FlowCount :=
  let '(d, counts) := acc in
  let '(index, rule) := entry in
  let '(d, (packets, bytes)) :=
    delta d (family ++ lit "|" ++ dec (Z.of_nat index) ++ lit "|" ++ rc_key rule) (rc_packets rule) (rc_bytes rule) in
  if (packets =? 0) && (bytes =? 0) then (d, counts)
  else (d, counts ++ [mkFlowCount (a ← rc_source rule; owners !! a) (lit "inbound") (rc_proto rule) (rc_port rule)
                        (rc_allowed rule) bytes packets]).

Definition push_family (owners : gmap IpAddr str) (acc : Deltas * list FlowCount) (entry : str * str) :
    Deltas * list FlowCount :=
  let rules := parse_iptables entry.2 in
  foldl (push_rule_count owners entry.1) acc (zip (seq 0 (length rules)) rules).

Definition push_direction (id key : str) (acc : Deltas * list FlowCount) (entry : str * Z) :
    Deltas * list FlowCount :=
  let '(d, counts) := acc in
  let '(direction, total) := entry in
  let '(d, (_, bytes)) := delta d (lit "wg|" ++ key ++ lit "|" ++ direction) 0 total in
  if 0 <? bytes then (d, counts ++ [mkFlowCount (Some id) direction (lit "tunnel") 0 true bytes 0]) else (d, counts).

Definition push_transfer (peers : list Peer) (acc : Deltas * list FlowCount) (entry : str * Z * Z) :
    Deltas * list FlowCount :=
  let '(key, rx, tx) := entry in
  match List.find (λ p, bool_decide (trim (wg_public_key p) = key)) peers with
  | None => acc
  | Some p => foldl (push_direction (peer_id p) key) acc [(lit "inbound", rx); (lit "outbound", tx)]
  end.

Definition linux_counts (families : list (str * str)) (transfer : str) (peers : list Peer) (d : Deltas) :
    Deltas * list FlowCount :=
  let acc := foldl (push_family (by_address peers)) (d, []) families in
  foldl (push_transfer peers) acc (parse_wg_transfer transfer).

Definition relay_transport_label (over_https : bool) : str :=
  if over_https then lit "https_relay" else lit "udp_relay".

Definition transport_label (summary : option str) (over_https : bool) : str :=
  match summary with
  | Some s => if seq_b s "relay" then relay_transport_label over_https else lit "direct"
  | None => lit "direct"
  end.

(** ** Windows *)

Inductive Input := Tick (settings : option Settings) (now : Z) | Halt.

(** The agent's loop: what each input made the reporter answer ([halt] answers
    nothing and is recorded as [Stop]). *)
Definition react (r : Reporter) (i : Input) : Reporter * Step :=
  match i with
  | Tick settings now => reporter_step r settings now
  | Halt => (halt r, Stop)
  end.

Fixpoint reporter_run (r : Reporter) (ins : list Input) : Reporter * list (Input * Step) :=
  match ins with
  | [] => (r, [])
  | i :: ins => let '(r, s) := react r i in let '(r, tr) := reporter_run r ins in (r, (i, s) :: tr)
  end.

(** A bucket opened at [s]: a start, or the report of the bucket before it. *)
Definition opens (s : Z) (x : Input * Step) : Prop :=
  ∃ settings, x.1 = Tick settings s ∧ (x.2 = Start ∨ ∃ s', x.2 = Report s' s).

(** Counting goes on and the bucket opened at [s] is not full. *)
Definition counting (s : Z) (x : Input * Step) : Prop :=
  ∃ settings now, x = (Tick settings now, Idle) ∧ is_Some (active_settings settings) ∧ now - s < REPORT_EVERY_SECS.

Definition open_since (s : Z) (tr : list (Input * Step)) : Prop :=
  ∃ before x mid, tr = before ++ x :: mid ∧ opens s x ∧ Forall (counting s) mid.

Lemma reporter_run_snoc r ins i :
  reporter_run r (ins ++ [i]) =
  let '(r1, tr) := reporter_run r ins in
  let '(r2, s) := react r1 i in (r2, tr ++ [(i, s)]).
Proof.
  revert r; induction ins as [|j ins IH]; intros r; simpl; [by destruct (react r i)|].
  destruct (react r j) as [r' s]. rw IH. destruct (reporter_run r' ins) as [r1 tr]. by destruct (react r1 i).
Qed.

Lemma reporter_open ins r tr :
  reporter_run reporter_default ins = (r, tr) → rp_active r = true → open_since (bucket_start r) tr.
Proof.
  revert r tr; induction ins as [|i ins IH] using rev_ind; intros r tr; [by intros [= <- <-]|].
  rw reporter_run_snoc. destruct (reporter_run reporter_default ins) as [r1 tr1]. specialize (IH _ _ eq_refl).
  destruct i as [settings now|]; simpl; [|by intros [= <- <-]]. unfold reporter_step.
  destruct (bool_decide _) eqn:Ha, (rp_active r1) eqn:Hr.
  - destruct (Z.leb_spec REPORT_EVERY_SECS (now - bucket_start r1)); intros [= <- <-] _; simpl.
    + exists tr1, (Tick settings now, Report (bucket_start r1) now), []. split_and!; [done| |done].
      exists settings. eauto.
    + destruct (IH eq_refl) as (b & x & mid & -> & Hx & Hmid). exists b, x, (mid ++ [(Tick settings now, Idle)]).
      rw -app_assoc. split_and!; [done..|]. apply Forall_app. split; [done|]. constructor; [|done].
      exists settings, now. apply bool_decide_eq_true in Ha. auto with lia.
  - intros [= <- <-] _. exists tr1, (Tick settings now, Start), []. split_and!; [done| |done]. exists settings. auto.
  - by intros [= <- <-].
  - intros [= <- <-]. congruence.
Qed.

(** Reports cover the time counting was on, once: a report answers the tick at
    its end, is at least a minute long, and starts where counting started or the
    previous report ended; in between counting went on and no bucket was full. *)
Theorem reports_are_contiguous (ins : list Input) (before after : list (Input * Step)) (i : Input) (s e : Z)
    (Hrun : (reporter_run reporter_default ins).2 = before ++ (i, Report s e) :: after) :
  (∃ settings, i = Tick settings e) ∧ s + REPORT_EVERY_SECS ≤ e ∧ open_since s before.
Proof.
  revert after Hrun. induction ins as [|j ins IH] using rev_ind; intros after; [by destruct before|].
  rw reporter_run_snoc. destruct (reporter_run reporter_default ins) as [r tr] eqn:Hr.
  destruct (react r j) as [r2 st] eqn:Hj. simpl. destruct after as [|a after _] using rev_ind.
  - intros [-> [= -> ->]]%app_inj_tail. destruct i as [settings now|]; simpl in Hj; [|done].
    unfold reporter_step in Hj. destruct (bool_decide _), (rp_active r) eqn:Ha; simplify_eq.
    destruct (Z.leb_spec REPORT_EVERY_SECS (now - bucket_start r)); simplify_eq.
    split_and!; [eauto|lia|]. by eapply reporter_open.
  - rewrite app_comm_cons app_assoc. intros [Htr _]%app_inj_tail. by eapply IH.
Qed.

(** ** Conservation of counters *)

(** A reading: a counter and its packets and bytes. *)
Abbreviation Reading := (str * (Z * Z))%type.

Definition plus2 (x y : Z * Z) : Z * Z := (x.1 + y.1, x.2 + y.2).
Definition total {A} (f : A → Z * Z) (l : list A) : Z * Z := foldr (λ x acc, plus2 (f x) acc) (0, 0) l.
Definition count_of (c : FlowCount) : Z * Z := (fc_packets c, fc_bytes c).

Fixpoint read_all (d : Deltas) (rs : list Reading) : Deltas * list (Z * Z) :=
  match rs with
  | [] => (d, [])
  | (k, (p, b)) :: rs => let '(d, x) := delta d k p b in let '(d, xs) := read_all d rs in (d, x :: xs)
  end.

(** The counters one poll reads, in order. *)
Definition rule_readings (entry : str * str) : list Reading :=
  let rules := parse_iptables entry.2 in
  map (λ x, (entry.1 ++ lit "|" ++ dec (Z.of_nat x.1) ++ lit "|" ++ rc_key x.2, (rc_packets x.2, rc_bytes x.2)))
    (zip (seq 0 (length rules)) rules).

Definition transfer_readings (peers : list Peer) (entry : str * Z * Z) : list Reading :=
  let '(key, rx, tx) := entry in
  if existsb (λ p, bool_decide (trim (wg_public_key p) = key)) peers
  then [(lit "wg|" ++ key ++ lit "|" ++ lit "inbound", (0, rx)); (lit "wg|" ++ key ++ lit "|" ++ lit "outbound", (0, tx))]
  else [].

Definition readings (families : list (str * str)) (transfer : str) (peers : list Peer) : list Reading :=
  flat_map rule_readings families ++ flat_map (transfer_readings peers) (parse_wg_transfer transfer).

Definition nonneg (x : Z * Z) : Prop := 0 ≤ x.1 ∧ 0 ≤ x.2.
Definition le2 (x y : Z * Z) : Prop := x.1 ≤ y.1 ∧ x.2 ≤ y.2.
Definition counters_ok (d : Deltas) : Prop := map_Forall (λ _, nonneg) d.

Lemma plus2_assoc x y z : plus2 x (plus2 y z) = plus2 (plus2 x y) z.
Proof. unfold plus2. simpl. f_equal; lia. Qed.

Lemma plus2_zero x : plus2 x (0, 0) = x.
Proof. destruct x. unfold plus2. simpl. f_equal; lia. Qed.

Lemma zero_plus2 x : plus2 (0, 0) x = x.
Proof. by destruct x. Qed.

Lemma total_app {A} (f : A → Z * Z) l1 l2 : total f (l1 ++ l2) = plus2 (total f l1) (total f l2).
Proof. induction l1 as [|x l1 IH]; simpl; [by rw zero_plus2|]. by rw IH plus2_assoc. Qed.

Lemma read_all_app d r1 r2 :
  read_all d (r1 ++ r2) =
  let '(d1, x1) := read_all d r1 in let '(d2, x2) := read_all d1 r2 in (d2, x1 ++ x2).
Proof.
  revert d; induction r1 as [|[k [p b]] r1 IH]; intros d; simpl; [by destruct (read_all d r2)|].
  rw IH. destruct (read_all _ r1) as [d1 x1]. by destruct (read_all d1 r2).
Qed.

Lemma delta_ok d k p b : counters_ok d → nonneg (p, b) → counters_ok (delta d k p b).1 ∧ nonneg (delta d k p b).2.
Proof.
  intros Hd Hr. split; [by apply map_Forall_insert_2|]. unfold delta. simpl.
  destruct (d !! k) as [[lp lb]|] eqn:Hk; [|done]. destruct (_ && _) eqn:Hc; [|done]. to_prop. by split; simpl; lia.
Qed.

Lemma read_all_ok d rs :
  counters_ok d → Forall (λ r, nonneg r.2) rs → counters_ok (read_all d rs).1.
Proof.
  intros Hd Hrs. revert d Hd; induction Hrs as [|[k [p b]] rs Hr Hrs IH]; intros d Hd; [done|]. cbn [read_all].
  pose proof (delta_ok d k p b Hd Hr) as [Hd' _]. destruct (delta d k p b) as [d' x]. specialize (IH _ Hd').
  simpl in IH. revert IH. by destruct (read_all d' rs).
Qed.

(** A poll's counts add up to the deltas of the counters it read. *)
Definition accounts (d0 : Deltas) (rs : list Reading) (start : list FlowCount) (acc : Deltas * list FlowCount) : Prop :=
  acc.1 = (read_all d0 rs).1 ∧
  total count_of acc.2 = plus2 (total count_of start) (total id (read_all d0 rs).2).

Lemma accounts_step d0 rs start d counts k p b d' x c :
  accounts d0 rs start (d, counts) →
  delta d k p b = (d', x) → total count_of c = x →
  accounts d0 (rs ++ [(k, (p, b))]) start (d', counts ++ c).
Proof.
  intros [Hd Ht] Hx Hc. unfold accounts. rw read_all_app. destruct (read_all d0 rs) as [d1 x1]. simpl in *. subst d1.
  unfold delta in Hx. injection Hx as <- Hx. rw Hx. split; [done|].
  rw !total_app Ht Hc. cbn [total foldr]. by rw plus2_zero plus2_assoc.
Qed.

Lemma parse_u64_nonneg s v : parse_u64 s = Some v → 0 ≤ v.
Proof. intros Hv. pose proof (parse_uint_bound 10 U64_MAX s v ltac:(done) ltac:(done) Hv). lia. Qed.

Lemma parse_rule_line_nonneg line r : parse_rule_line line = Some r → nonneg (rc_packets r, rc_bytes r).
Proof.
  unfold parse_rule_line. destruct (split_whitespace line) as [|t0 [|t1 [|t2 [|t3 rest]]]]; try done.
  destruct (contains_str _ _); [done|]. destruct (parse_u64 t0) eqn:H0; simpl; [|done].
  destruct (parse_u64 t1) eqn:H1; simpl; [|done]. destruct (verdict_column t2); simpl; [|done].
  intros <-%(inj Some). split; simpl; by eapply parse_u64_nonneg.
Qed.

Lemma rule_readings_nonneg e : Forall (λ r, nonneg r.2) (rule_readings e).
Proof.
  unfold rule_readings, parse_iptables. apply Forall_fmap, Forall_forall. intros [i r] Hin%elem_of_zip_r. simpl in *.
  apply list_elem_of_omap in Hin as (line & _ & Hl). by eapply parse_rule_line_nonneg.
Qed.

Lemma transfer_readings_nonneg peers out :
  Forall (λ r, nonneg r.2) (flat_map (transfer_readings peers) (parse_wg_transfer out)).
Proof.
  unfold parse_wg_transfer. induction (lines out) as [|l ls IH]; simpl; [constructor|].
  unfold parse_transfer_line at 1. destruct (split_whitespace l) as [|k [|rx [|tx rest]]]; try done.
  destruct (parse_u64 rx) as [r|] eqn:Hr; simpl; [|done]. destruct (parse_u64 tx) as [t|] eqn:Ht; simpl; [|done].
  apply parse_u64_nonneg in Hr, Ht. apply Forall_app. split; [|done]. case_match; repeat constructor; simpl; lia.
Qed.

Lemma readings_nonneg fs out peers : Forall (λ r, nonneg r.2) (readings fs out peers).
Proof.
  apply Forall_app. split; [|apply transfer_readings_nonneg].
  induction fs as [|f fs IH]; simpl; [constructor|]. apply Forall_app. split; [apply rule_readings_nonneg|done].
Qed.

Lemma push_rule_counts owners family d0 rs start acc entries :
  accounts d0 rs start acc →
  accounts d0 (rs ++ map (λ x, (family ++ lit "|" ++ dec (Z.of_nat x.1) ++ lit "|" ++ rc_key x.2,
                               (rc_packets x.2, rc_bytes x.2))) entries) start
    (foldl (push_rule_count owners family) acc entries).
Proof.
  revert rs acc; induction entries as [|[i r] es IH]; intros rs acc Hacc; cbn [map foldl]; [by rw app_nil_r|].
  set (k := family ++ _). change ((k, _) :: ?l) with ([(k, (rc_packets r, rc_bytes r))] ++ l). rw app_assoc.
  apply IH. destruct acc as [d counts]. unfold push_rule_count. cbn [fst snd] in k. fold k.
  destruct (delta d k (rc_packets r) (rc_bytes r)) as [d' [p b]] eqn:Hd.
  destruct ((p =? 0) && (b =? 0)) eqn:Hz.
  - to_prop. subst. rewrite -(app_nil_r counts). by eapply accounts_step.
  - eapply accounts_step; [done..|]. apply plus2_zero.
Qed.

Lemma push_families owners d0 rs start acc fs :
  accounts d0 rs start acc →
  accounts d0 (rs ++ flat_map rule_readings fs) start (foldl (push_family owners) acc fs).
Proof.
  revert rs acc; induction fs as [|f fs IH]; intros rs acc Hacc; cbn [flat_map foldl]; [by rw app_nil_r|].
  rw app_assoc. apply IH. by apply push_rule_counts.
Qed.

Lemma push_direction_accounts d0 rs start acc id key dir n :
  counters_ok d0 → Forall (λ r, nonneg r.2) rs → 0 ≤ n →
  accounts d0 rs start acc →
  accounts d0 (rs ++ [(lit "wg|" ++ key ++ lit "|" ++ dir, (0, n))]) start (push_direction id key acc (dir, n)).
Proof.
  intros Hok Hrs Hn Hacc. pose proof (read_all_ok _ _ Hok Hrs) as Hd. pose proof Hacc as [Hd1 _].
  rewrite -Hd1 in Hd. destruct acc as [d counts]. cbn [fst] in Hd. unfold push_direction. set (k := lit "wg|" ++ _).
  pose proof (delta_ok d k 0 n Hd ltac:(split; simpl; lia)) as [_ Hx].
  destruct (delta d k 0 n) as [d' [p b]] eqn:He. simpl in Hx. destruct Hx as [Hp Hb]. simpl in Hp, Hb.
  assert (p = 0) as ->.
  { unfold delta in He. injection He as _ He. destruct (d !! k) as [[lp lb]|] eqn:Hk; [|by simplify_eq].
    pose proof (Hd _ _ Hk) as [Hlp _]. simpl in Hlp. destruct (_ && _); simplify_eq; lia. }
  destruct (Z.ltb_spec 0 b).
  - eapply accounts_step; [done..|]. apply plus2_zero.
  - assert (b = 0) as -> by lia. rewrite -(app_nil_r counts). by eapply accounts_step.
Qed.

Lemma push_transfers peers d0 rs start acc es :
  counters_ok d0 → Forall (λ r, nonneg r.2) (rs ++ flat_map (transfer_readings peers) es) →
  accounts d0 rs start acc →
  accounts d0 (rs ++ flat_map (transfer_readings peers) es) start (foldl (push_transfer peers) acc es).
Proof.
  intros Hok. revert rs acc; induction es as [|[[key rx] tx] es IH]; intros rs acc Hrs Hacc; cbn [flat_map foldl].
  { by rw app_nil_r. }
  cbn [flat_map] in Hrs. rewrite app_assoc in Hrs |- *. apply IH; [done|].
  apply Forall_app in Hrs as [Hrs _]. unfold push_transfer, transfer_readings in *.
  destruct (List.find _ peers) as [q|] eqn:Hq.
  - assert (existsb (λ p, bool_decide (trim (wg_public_key p) = key)) peers = true) as Hx.
    { apply existsb_exists. exists q. by apply find_some in Hq. }
    rewrite Hx in Hrs |- *.
    apply Forall_app in Hrs as [Hrs [[_ Hrx] [[_ Htx] _]%Forall_cons]%Forall_cons]. simpl in Hrx, Htx. cbn [foldl].
    change (rs ++ [?x; ?y]) with (rs ++ [x] ++ [y]). rw app_assoc.
    apply push_direction_accounts; [done| |done|by apply push_direction_accounts].
    apply Forall_app. split; [done|]. by repeat constructor.
  - assert (existsb (λ p, bool_decide (trim (wg_public_key p) = key)) peers = false) as ->; [|by rw app_nil_r].
    apply not_true_iff_false. intros (q & Hin & Hk)%existsb_exists. by rewrite (find_none _ _ Hq _ Hin) in Hk.
Qed.

Lemma linux_counts_accounts fs tr peers d :
  counters_ok d → accounts d (readings fs tr peers) [] (linux_counts fs tr peers d).
Proof.
  intros Hok. unfold linux_counts, readings. apply push_transfers; [done|apply readings_nonneg|].
  rw -(app_nil_l (flat_map rule_readings fs)). by apply push_families.
Qed.

(** ** Several polls *)

Record Poll := mkPoll { po_families : list (str * str); po_transfer : str; po_peers : list Peer }.

Definition poll_readings (p : Poll) : list Reading := readings (po_families p) (po_transfer p) (po_peers p).

Definition poll (acc : Deltas * list FlowCount) (p : Poll) : Deltas * list FlowCount :=
  let '(d, counts) := linux_counts (po_families p) (po_transfer p) (po_peers p) acc.1 in (d, acc.2 ++ counts).

(** The second poll reads the counters of the first and none went down. *)
Definition grows (p q : Poll) : Prop :=
  Forall2 (λ x y, x.1 = y.1 ∧ le2 x.2 y.2) (poll_readings p) (poll_readings q).

Fixpoint all_grow (p : Poll) (ps : list Poll) : Prop :=
  match ps with
  | [] => True
  | q :: ps => grows p q ∧ all_grow q ps
  end.

Definition remembers (d : Deltas) (rs : list Reading) : Prop := Forall (λ r, d !! r.1 = Some r.2) rs.

Lemma read_all_lookup d rs k : k ∉ rs.*1 → (read_all d rs).1 !! k = d !! k.
Proof.
  revert d; induction rs as [|[k' [p b]] rs IH]; intros d; cbn [read_all fmap list_fmap fst]; [done|].
  intros [Hk Hn]%not_elem_of_cons. unfold delta. specialize (IH (<[k' := (p, b)]> d) Hn).
  revert IH. destruct (read_all _ rs) as [d' xs]. simpl. intros ->. by rw lookup_insert_ne.
Qed.

Lemma read_all_remembers d rs : NoDup rs.*1 → remembers (read_all d rs).1 rs.
Proof.
  revert d; induction rs as [|[k [p b]] rs IH]; intros d; cbn [read_all fmap list_fmap fst]; [constructor|].
  intros [Hk Hn]%NoDup_cons. unfold delta. set (d1 := <[k := (p, b)]> d).
  pose proof (read_all_lookup d1 rs k Hk) as Hl. specialize (IH d1 Hn). revert IH Hl.
  destruct (read_all d1 rs) as [d' xs]. simpl. intros IH Hl. constructor; [|done]. simpl. rw Hl. apply lookup_insert_eq.
Qed.

Lemma read_all_fresh rs d :
  NoDup rs.*1 → Forall (λ r, d !! r.1 = None) rs → (read_all d rs).2 = map snd rs.
Proof.
  revert d; induction rs as [|[k [p b]] rs IH]; intros d; cbn [read_all fmap list_fmap fst map snd]; [done|].
  intros [Hk Hn]%NoDup_cons [Hd Hrs]%Forall_cons. simpl in Hd. unfold delta. rw Hd.
  assert (Forall (λ r, <[k := (p, b)]> d !! r.1 = None) rs) as Hrs'.
  { apply Forall_forall. intros r Hr. rewrite Forall_forall in Hrs. rw lookup_insert_ne; [by apply Hrs|].
    intros ->. apply Hk. apply list_elem_of_fmap. by exists r. }
  specialize (IH _ Hn Hrs'). revert IH. destruct (read_all _ rs). simpl. by intros ->.
Qed.

Lemma read_all_next old new d :
  NoDup new.*1 → remembers d old → Forall2 (λ x y, x.1 = y.1 ∧ le2 x.2 y.2) old new →
  plus2 (total snd old) (total id (read_all d new).2) = total snd new.
Proof.
  intros Hnd Hrem Hall. revert d Hnd Hrem; induction Hall as [|[k0 o] [k [p b]] old new [Hk Hle] Hall IH]; intros d Hnd Hrem;
    [done|]. simpl in Hk. subst k0. cbn [read_all fmap list_fmap fst] in *.
  apply NoDup_cons in Hnd as [Hk Hn]. apply Forall_cons in Hrem as [Ho Hrem]. simpl in Ho.
  destruct o as [op ob]. destruct Hle as [Hp Hb]. simpl in Hp, Hb. unfold delta. rw Ho.
  rw (proj2 (Z.leb_le _ _) Hp) (proj2 (Z.leb_le _ _) Hb). cbn [andb].
  assert (remembers (<[k := (p, b)]> d) old) as Hrem'.
  { unfold remembers in *. rewrite Forall_forall in Hrem. apply Forall_forall. intros r Hr.
    rw lookup_insert_ne; [by apply Hrem|]. intros ->.
    apply list_elem_of_lookup in Hr as [i Hi]. apply (Forall2_lookup_l _ _ _ _ _ Hall) in Hi as (y & Hy & Hxy & _).
    apply Hk. rw Hxy. apply list_elem_of_fmap. exists y. split; [done|]. by eapply list_elem_of_lookup_2. }
  specialize (IH _ Hn Hrem'). revert IH. destruct (read_all _ new) as [d' xs]. cbn [total foldr snd id].
  fold (total (@snd str (Z * Z)) old) (total (@snd str (Z * Z)) new) (total id xs).
  intros <-. unfold plus2. simpl. f_equal; lia.
Qed.

Lemma poll_accounts d counts p :
  counters_ok d →
  counters_ok (poll (d, counts) p).1 ∧
  (poll (d, counts) p).1 = (read_all d (poll_readings p)).1 ∧
  total count_of (poll (d, counts) p).2 = plus2 (total count_of counts) (total id (read_all d (poll_readings p)).2).
Proof.
  intros Hok. pose proof (linux_counts_accounts (po_families p) (po_transfer p) (po_peers p) d Hok) as [Hd Ht].
  unfold poll. fold (poll_readings p) in Hd, Ht. cbn [fst snd].
  destruct (linux_counts _ _ _ d) as [d' c]. simpl in *. subst d'. split_and!.
  - apply read_all_ok; [done|]. apply readings_nonneg.
  - done.
  - rw total_app Ht. by rw zero_plus2.
Qed.

Lemma polls_grow p ps d counts :
  counters_ok d → NoDup (poll_readings p).*1 → remembers d (poll_readings p) → all_grow p ps →
  plus2 (total snd (poll_readings p)) (total count_of (foldl poll (d, counts) ps).2) =
  plus2 (total count_of counts) (total snd (poll_readings (List.last ps p))).
Proof.
  revert p d counts; induction ps as [|q ps IH]; intros p d counts Hok Hnd Hrem Hgrow.
  { cbn [foldl List.last snd]. unfold plus2. f_equal; lia. }
  destruct Hgrow as [Hg Hgrow]. cbn [foldl].
  assert ((poll_readings p).*1 = (poll_readings q).*1) as Hkeys.
  { clear -Hg. induction Hg as [|x y xs ys [Hk _] _ IH]; [done|]. by rw !fmap_cons Hk IH. }
  rewrite Hkeys in Hnd. pose proof (poll_accounts d counts q Hok) as (Hok' & Hd & Ht).
  destruct (poll (d, counts) q) as [d' c]. cbn [fst snd] in *.
  assert (remembers d' (poll_readings q)) as Hrem' by (rw Hd; by apply read_all_remembers).
  specialize (IH q d' c Hok' Hnd Hrem' Hgrow). rewrite Ht in IH.
  rewrite -(read_all_next _ _ d Hnd Hrem Hg) in IH.
  assert (List.last (q :: ps) p = List.last ps q) as ->.
  { clear. revert p q; induction ps as [|r ps IH]; intros p q; [done|]. change (List.last (r :: ps) p = List.last (r :: ps) q).
    by rw (IH p r) (IH q r). }
  destruct (total snd (poll_readings p)), (total count_of (foldl poll (d', c) ps).2), (total count_of counts),
    (total id (read_all d (poll_readings q)).2), (total snd (poll_readings (List.last ps q))).
  unfold plus2 in *. simpl in *. injection IH as ? ?. f_equal; lia.
Qed.

(** Traffic is counted once: from cleared counters, over any number of polls
    between which the chain is not rebuilt, the packets and bytes of all counts
    together are exactly what the counters show at the last poll. *)
Theorem counters_are_conserved (p : Poll) (ps : list Poll)
    (Hkeys : NoDup (poll_readings p).*1) (Hgrow : all_grow p ps) :
  total count_of (foldl poll (∅, []) (p :: ps)).2 = total snd (poll_readings (List.last ps p)).
Proof.
  assert (counters_ok ∅) as Hok by apply map_Forall_empty.
  pose proof (poll_accounts ∅ [] p Hok) as (Hok' & Hd & Ht). cbn [foldl].
  destruct (poll (∅, []) p) as [d c]. cbn [fst snd] in *.
  assert (remembers d (poll_readings p)) as Hrem by (rw Hd; by apply read_all_remembers).
  pose proof (polls_grow p ps d c Hok' Hkeys Hrem Hgrow) as Hs. rewrite Ht in Hs.
  rewrite read_all_fresh in Hs; [|done|].
  2: { apply Forall_forall. intros r _. apply lookup_empty. }
  assert (total id (map snd (poll_readings p)) = total snd (poll_readings p)) as Hm.
  { clear. induction (poll_readings p) as [|r rs IH]; [done|]. cbn [map total foldr]. f_equal. exact IH. }
  rewrite Hm in Hs. change (total count_of []) with (0, 0) in Hs. rewrite zero_plus2 in Hs.
  destruct (total snd (poll_readings p)), (total count_of (foldl poll (d, c) ps).2),
    (total snd (poll_readings (List.last ps p))). unfold plus2 in Hs. simpl in Hs. injection Hs as ? ?. f_equal; lia.
Qed.

(** A poll of a chain with two rules and one tunnel. *)
Definition sample_poll (accepted rejected rx : string) : Poll :=
  mkPoll [(lit "ipv4", lit accepted ++ lit " 180 ACCEPT tcp -- * * 100.64.0.2 0.0.0.0/0 tcp dpt:22" ++ [10]
                       ++ lit rejected ++ lit " 360 REJECT all -- * * 0.0.0.0/0 0.0.0.0/0 reject-with icmp-port-unreachable")]
    (lit "KEY " ++ lit rx ++ lit " 70")
    [mkPeer (lit "id") (lit "peer") (lit "KEY") None [lit "100.64.0.2/32"] [] [] None None None].

Lemma counters_are_conserved_witness :
  total count_of (foldl poll (∅, []) [sample_poll "3" "6" "50"; sample_poll "4" "6" "80"]).2 = (10, 690).
Proof.
  rewrite counters_are_conserved.
  - vm_compute. reflexivity.
  - apply (bool_decide_unpack _). vm_compute. exact I.
  - split; [|exact I]. vm_compute. repeat (constructor; [split; [reflexivity|split; discriminate]|]). constructor.
Defined.

Lemma reports_are_contiguous_witness :
  let on := Some (mkSettings true (f64_of_Z 1) (lit "org")) in
  (∃ settings, Tick on 65 = Tick settings 65) ∧ 0 + REPORT_EVERY_SECS ≤ 65 ∧
  open_since 0 [(Tick on 0, Start); (Tick on 30, Idle)].
Proof.
  intros on. apply (reports_are_contiguous [Tick on 0; Tick on 30; Tick on 65; Halt] _ [(Halt, Stop)]).
  vm_compute. reflexivity.
Defined.
