(* ===== verification/PfFilter.v ===== *)
(** * The macOS agent's filter

    [blaktaild/src/pf_filter.rs]: the [pf] anchor compiled from the peer map, the
    counters read back from it, and the checks before enforcement is claimed.
    [pf] itself is an interface ([Pf]) with its documented matching; the anchor is
    proved to decide like the chain of [AclFilter]. *)

From S2P Require Import Prelude Text Net FlowReport Policy AclFilter AclProps Traffic.

Definition ANCHOR : str := lit "com.apple/blaktail".

Record RuleMeta := mkRuleMeta {
  rm_peer_id : option str;
  rm_direction : str;
  rm_proto : str;
  rm_port : Z;
  rm_allowed : bool
}.

Record PfRule := mkPfRule { text : str; meta : RuleMeta }.

Record PfPlan := mkPfPlan { enforce : bool; pf_rules : list PfRule }.

Definition ruleset (p : PfPlan) : str := flat_map (λ rule, text rule ++ [10]) (pf_rules p).

Definition pf_port (spec : str) : option (str * Z) :=
  range ← iptables_port spec;
  start ← parse_u16 (first_field 58 range);
  Some (range, start).

Definition valid_interface (name : str) : bool :=
  starts_with (lit "utun") name && (length name <=? 15)%nat && forallb is_ascii_digit (drop 4 name)
  && (4 <? length name)%nat.

Section plan.
Context (interface : str).

Definition outbound_rule (p : Peer) (address : str) : PfRule :=
  mkPfRule (lit "pass out quick on " ++ interface ++ lit " from any to " ++ address ++ lit " flags any keep state")
    (mkRuleMeta (Some (peer_id p)) (lit "outbound") (lit "all") 0 true).

(** [push]: a rule about one address of a peer. *)
Definition inbound_rule (p : Peer) (text : str) (proto : str) (port : Z) (allowed : bool) : PfRule :=
  mkPfRule text (mkRuleMeta (Some (peer_id p)) (lit "inbound") proto port allowed).

Definition port_pass (address proto range : str) : str :=
  lit "pass in quick on " ++ interface ++ lit " proto " ++ proto ++ lit " from " ++ address ++ lit " to any port "
  ++ range ++ lit " keep state".

Definition port_block (address proto range : str) : str :=
  lit "block return in quick on " ++ interface ++ lit " proto " ++ proto ++ lit " from " ++ address
  ++ lit " to any port " ++ range.

(** [for (range, start) in specs.iter().filter_map(pf_port)] *)
Definition pf_port_rules (p : Peer) (f : str → str) (proto : str) (allowed : bool) (specs : list str) : list PfRule :=
  map (λ x, inbound_rule p (f x.1) proto x.2 allowed) (omap pf_port specs).

(** The rules pushed for one address of a peer. *)
Definition pf_address_rules (p : Peer) (address : str) : list PfRule :=
  let i := default ingress_all (ingress p) in
  let icmp_ := if contains_char 58 address then lit "icmp6" else lit "icmp" in
  let family := if contains_char 58 address then lit "inet6" else lit "inet" in
  (if pq_exchange p
   then [inbound_rule p (port_pass address (lit "tcp") (dec PQ_PORT)) (lit "tcp") PQ_PORT true] else [])
  ++ pf_port_rules p (port_block address (lit "tcp")) (lit "tcp") false (deny_tcp i)
  ++ pf_port_rules p (port_block address (lit "udp")) (lit "udp") false (deny_udp i)
  ++ (if deny_icmp i
      then [inbound_rule p (lit "block return in quick on " ++ interface ++ lit " " ++ family ++ lit " proto " ++ icmp_
                            ++ lit " from " ++ address ++ lit " to any") (lit "icmp") 0 false] else [])
  ++ (if all i
      then [inbound_rule p (lit "pass in quick on " ++ interface ++ lit " from " ++ address ++ lit " to any keep state")
              (lit "all") 0 true]
      else pf_port_rules p (port_pass address (lit "tcp")) (lit "tcp") true (tcp i)
           ++ pf_port_rules p (port_pass address (lit "udp")) (lit "udp") true (udp i)
           ++ (if icmp i
               then [inbound_rule p (lit "pass in quick on " ++ interface ++ lit " " ++ family ++ lit " proto " ++ icmp_
                                     ++ lit " from " ++ address ++ lit " to any keep state") (lit "icmp") 0 true]
               else [])
           ++ [inbound_rule p (lit "block return in quick on " ++ interface ++ lit " from " ++ address ++ lit " to any")
                 (lit "all") 0 false]).

Definition plan (peers : list Peer) : option PfPlan :=
  if negb (valid_interface interface) then None
  else if negb (existsb (λ p, bool_decide (is_Some (ingress p))) peers) then Some (mkPfPlan false [])
  else
    let outbound := flat_map (λ p, map (outbound_rule p) (overlay_host_addrs (allowed_ips p))) peers in
    let own := mkPfRule (lit "pass out quick on " ++ interface ++ lit " all flags any keep state")
                 (mkRuleMeta None (lit "outbound") (lit "all") 0 true) in
    let inbound := flat_map (λ p, flat_map (pf_address_rules p) (overlay_host_addrs (allowed_ips p))) peers in
    let final := mkPfRule (lit "block return in quick on " ++ interface ++ lit " all")
                   (mkRuleMeta None (lit "inbound") (lit "all") 0 false) in
    Some (mkPfPlan true (outbound ++ own :: inbound ++ [final])).

End plan.

(** ** Counters and checks *)

Definition counter_field (line name : str) : option Z :=
  rest ← after name line;
  first ← head (split_whitespace rest);
  parse_u64 first.

Definition parse_rule_counters (output : str) : list (Z * Z) :=
  omap (λ line, packets ← counter_field line (lit "Packets:");
                bytes ← counter_field line (lit "Bytes:");
                Some (packets, bytes))
    (List.filter (contains_str (lit "[ Evaluations:")) (lines output)).

Definition push_pf_count (acc : Deltas * list FlowCount) (entry : nat * (PfRule * (Z * Z))) : Deltas * list FlowCount :=
  let '(d, out) := acc in
  let '(index, (rule, (packets, bytes))) := entry in
  let '(d, (packets, bytes)) := delta d (lit "pf|" ++ dec (Z.of_nat index) ++ lit "|" ++ text rule) packets bytes in
  if (0 <? packets) || (0 <? bytes)
  then (d, out ++ [mkFlowCount (rm_peer_id (meta rule)) (rm_direction (meta rule)) (rm_proto (meta rule))
                     (rm_port (meta rule)) (rm_allowed (meta rule)) bytes packets])
  else (d, out).

Definition counts (p : PfPlan) (counters : list (Z * Z)) (d : Deltas) : Deltas * list FlowCount :=
  if negb (length counters =? length (pf_rules p))%nat then (d, [])
  else foldl push_pf_count (d, []) (zip (seq 0 (length (pf_rules p))) (zip (pf_rules p) counters)).

Definition enable_token (output : str) : option str :=
  find_map (λ line, '(key, value) ← split_once 58 line;
                    if seq_b (trim key) "Token" then
                      let token := trim value in
                      if negb (length token =? 0)%nat && forallb is_ascii_digit token then Some token else None
                    else None) (lines output).

Definition HOOK : str := lit "anchor " ++ [34] ++ lit "com.apple/*" ++ [34] ++ lit " all".

Definition verified (info main_rules anchor_rules : str) (p : PfPlan) : bool :=
  let enabled := existsb (λ line, starts_with (lit "Status: Enabled") (trim_start line)) (lines info) in
  let hooked := existsb (λ line, bool_decide (trim line = HOOK)) (lines main_rules) in
  let loaded := (length (List.filter (λ line, negb (length (trim line) =? 0)%nat && negb (starts_with (lit " ") line))
                           (lines anchor_rules)) =? length (pf_rules p))%nat in
  enabled && hooked && loaded.
