(* ===== verification/PfProps.v ===== *)
(** * The macOS anchor decides like the Linux chain

    What [pf] promises about the rules the agent writes, and the proofs that the
    anchor gives every new flow the verdict of the Linux chain and is read back
    rule by rule. *)

From S2P Require Import Prelude Text Net FlowReport Policy AclFilter AclProps Traffic PfFilter.
Import PolicyProps.

(** ** The interface to pf *)

Definition pf_proto_text (q : AclProps.proto_name) : str :=
  match q with PTcp => lit "tcp" | PUdp => lit "udp" | PIcmp => lit "icmp" | PIcmpv6 => lit "icmp6" end.

Definition pf_family (q : option AclProps.proto_name) : list str :=
  match q with Some PIcmp => [lit "inet"] | Some PIcmpv6 => [lit "inet6"] | _ => [] end.

(** An inbound rule, word by word. *)
Definition pf_words (interface : str) (accept : bool) (m : Match) : list str :=
  (if accept then [lit "pass"] else [lit "block"; lit "return"])
  ++ [lit "in"; lit "quick"; lit "on"; interface]
  ++ pf_family (m_proto m)
  ++ match m_proto m with Some q => [lit "proto"; pf_proto_text q] | None => [] end
  ++ match m_source m with Some a => [lit "from"; show_ip a; lit "to"; lit "any"] | None => [lit "all"] end
  ++ match m_ports m with Some r => [lit "port"; port_text r] | None => [] end
  ++ (if accept then [lit "keep"; lit "state"] else []).

Definition pf_text (interface : str) (accept : bool) (m : Match) : str := join (lit " ") (pf_words interface accept m).

Definition pf_out_text (interface : str) (address : option IpAddr) : str :=
  join (lit " ") ([lit "pass"; lit "out"; lit "quick"; lit "on"; interface]
                  ++ match address with
                     | Some a => [lit "from"; lit "any"; lit "to"; show_ip a]
                     | None => [lit "all"]
                     end ++ [lit "flags"; lit "any"; lit "keep"; lit "state"]).

(** An ICMP rule is written for the family of its source. *)
Definition pf_valid (m : Match) : Prop :=
  valid_match m ∧
  match m_proto m, m_source m with
  | Some PIcmp, Some a => is_ipv6 a = false
  | Some PIcmpv6, Some a => is_ipv6 a = true
  | Some PIcmp, None | Some PIcmpv6, None => False
  | _, _ => True
  end.

(** What the agent relies on for a packet that opens a flow into the tunnel
    interface (for TCP, a packet with only SYN set, which the default flags of a
    stateful rule match): an inbound rule decides exactly the packets all of its
    criteria match, an outbound rule none. *)
Class Pf := {
  pf_verdict : str → NewPacket → option bool;
  pf_verdict_in : ∀ interface accept m p, valid_interface interface = true → pf_valid m →
    pf_verdict (pf_text interface accept m) p = if matches m p then Some accept else None;
  pf_verdict_out : ∀ interface a p, valid_interface interface = true → from_option wf_ip True a →
    pf_verdict (pf_out_text interface a) p = None
}.

(** Every rule is [quick]: the first that matches decides. *)
Fixpoint pf_chain `{Pf} (rules : list PfRule) (p : NewPacket) : option bool :=
  match rules with
  | [] => None
  | r :: rules => match pf_verdict (text r) p with Some v => Some v | None => pf_chain rules p end
  end.

(** Packets no rule of the anchor decides are passed. *)
Definition pf_accepts `{Pf} (pl : PfPlan) (p : NewPacket) : bool := default true (pf_chain (pf_rules pl) p).

(** ** Rule by rule *)

Section anchor.
Context `{Pf} `{Iptables}.
Context (interface : str) (Hi : valid_interface interface = true) (p : NewPacket).

Lemma pf_chain_app r1 r2 : pf_chain (r1 ++ r2) p = or_else (pf_chain r1 p) (pf_chain r2 p).
Proof using. induction r1 as [|r r1 IH]; simpl; [done|]. by destruct (pf_verdict (text r) p). Qed.

Lemma pf_port_spec spec : pf_port spec = (λ r, (port_text r, r.1)) <$> port_range spec.
Proof using.
  unfold pf_port. rw iptables_port_range. destruct (port_range spec) as [[lo hi]|] eqn:Hr; simpl; [|done].
  apply port_range_bounds in Hr. unfold first_field, port_text. simpl. destruct (Z.eqb_spec lo hi) as [->|Hne].
  - rw split_none; [|apply dec_not_in; lia]. simpl. unfold parse_u16. by rw parse_uint_dec; [|lia].
  - change (lit ":") with [58]. cbn [app]. rw split_app; [|apply dec_not_in; lia]. simpl.
    unfold parse_u16. by rw parse_uint_dec; [|lia].
Qed.

(** Rules over the port specifications of one protocol. *)
Lemma pf_ports peer f pn accept a specs proto :
  wf_ip a → (pn = PTcp ∨ pn = PUdp) →
  (∀ r, f (port_text r) = pf_text interface accept (mkMatch (Some a) (Some pn) (Some r))) →
  pf_chain (pf_port_rules peer f proto accept specs) p =
  if bool_decide (np_source p = a) && ((np_proto p =? proto_number pn) && PolicySpec.lists_port specs (np_port p))
  then Some accept else None.
Proof using Hi.
  intros Ha Hpn Hf. unfold pf_port_rules, PolicySpec.lists_port. induction specs as [|s specs IH]; simpl.
  { by rw !andb_false_r. }
  rw pf_port_spec. destruct (port_range s) as [[lo hi]|] eqn:Hr; simpl; [|done].
  apply port_range_bounds in Hr.
  assert (pf_valid (mkMatch (Some a) (Some pn) (Some (lo, hi)))) as Hv.
  { split; [|by destruct Hpn as [-> | ->]]. split; simpl; [done|]. destruct Hpn as [-> | ->]; split_and!; try lia; auto. }
  rw Hf pf_verdict_in //. unfold matches. simpl. rw IH.
  destruct (bool_decide _), (np_proto p =? _), (in_range (lo, hi) _); done.
Qed.

(** One rule with no ports about an address. *)
Lemma pf_one (b : bool) r accept a q :
  wf_ip a → match q with Some PIcmp => is_ipv6 a = false | Some PIcmpv6 => is_ipv6 a = true | _ => True end →
  text r = pf_text interface accept (mkMatch (Some a) q None) →
  pf_chain (if b then [r] else []) p =
  if bool_decide (np_source p = a) && (match q with Some q => np_proto p =? proto_number q | None => true end && b)
  then Some accept else None.
Proof using Hi.
  intros Ha Hq Hr. destruct b; simpl; [|by rw !andb_false_r]. rw Hr pf_verdict_in; [|done..|by split].
  unfold matches. simpl. by destruct (bool_decide _), q as [q|]; simpl; try destruct (np_proto p =? _).
Qed.

Lemma pf_address peer a :
  wf_ip a →
  pf_chain (pf_address_rules interface peer (show_ip a)) p = chain_verdict (address_rules peer (show_ip a)) p.
Proof using Hi.
  intros Ha. unfold pf_address_rules, address_rules. set (i := default ingress_all (ingress peer)).
  rw !pf_chain_app chain_app chain_segments // contains_colon //. f_equal.
  { destruct (pq_exchange peer); [|done]. cbn [pf_chain chain_verdict].
    set (m := mkMatch (Some a) (Some PTcp) (Some (PQ_PORT, PQ_PORT))).
    assert (valid_match m) as Hm by (split; simpl; [done|split_and!; [by vm_compute..|by left]]).
    change (text _) with (pf_text interface true m). rw pf_verdict_in //.
    change (accept_port _ _ _) with (rule_args m Accept). rw rule_verdict_args //. }
  rw (pf_ports peer _ PTcp false a); [|done|by left|done].
  rw (pf_ports peer _ PUdp false a); [|done|by right|done].
  rw (pf_one (deny_icmp i) _ false a (Some (if is_ipv6 a then PIcmpv6 else PIcmp))); [|done|by destruct (is_ipv6 a)..].
  assert (∀ r rules, text r = pf_text interface true (mkMatch (Some a) None None) →
    pf_chain (if all i then [r] else rules) p =
    if all i then segment (bool_decide (np_source p = a)) true else pf_chain rules p) as Hall.
  { intros r rules Hr. destruct (all i); [|done]. change [r] with (if true then [r] else []).
    rw (pf_one true r true a None) //. by destruct (bool_decide _). }
  rw Hall //. rw !pf_chain_app.
  rw (pf_ports peer _ PTcp true a); [|done|by left|done].
  rw (pf_ports peer _ PUdp true a); [|done|by right|done].
  rw (pf_one (icmp i) _ true a (Some (if is_ipv6 a then PIcmpv6 else PIcmp))); [|done|by destruct (is_ipv6 a)..].
  set (r := inbound_rule _ _ _ 0 false). change [r] with (if true then [r] else []).
  rw (pf_one true r false a None) //. cbn [andb]. rw andb_true_r.
  assert (proto_number (if is_ipv6 a then PIcmpv6 else PIcmp) = if is_ipv6 a then ICMPV6 else ICMP) as ->
    by by destruct (is_ipv6 a).
  by rw !own_icmp.
Qed.

Lemma chain_foreign peer a : wf_ip a → np_source p ≠ a → chain_verdict (address_rules peer (show_ip a)) p = None.
Proof using.
  intros Ha Hne. unfold address_rules. rw chain_app chain_segments //. rw bool_decide_false //.
  assert (chain_verdict (if pq_exchange peer then [accept_port (show_ip a) (lit "tcp") (dec PQ_PORT)] else []) p = None) as ->.
  { destruct (pq_exchange peer); [|done]. cbn [chain_verdict].
    change (accept_port _ _ _) with (rule_args (mkMatch (Some a) (Some PTcp) (Some (PQ_PORT, PQ_PORT))) Accept).
    rw rule_verdict_args; [|split; simpl; [done|split_and!; [by vm_compute..|by left]]].
    unfold matches. cbn [m_source]. by rw bool_decide_false. }
  unfold address_verdict. by destruct (all _).
Qed.

Lemma pf_inbound peers :
  pf_chain (flat_map (λ q, flat_map (pf_address_rules interface q) (overlay_host_addrs (allowed_ips q))) peers) p =
  chain_verdict (family_rules (is_ipv6 (np_source p)) peers) p.
Proof using Hi.
  unfold family_rules. induction peers as [|q peers IH]; cbn [flat_map]; [done|]. rw pf_chain_app chain_app IH. f_equal.
  clear IH. rw overlay_hosts_show. fold (overlay_ips q).
  induction (overlay_ips_wf q) as [|a l Ha _ IH]; cbn [map flat_map List.filter]; [done|]. rw pf_chain_app pf_address // IH.
  destruct (Bool.eqb _ _) eqn:Hf; cbn [flat_map]; [by rw chain_app|].
  rw chain_foreign //. intros <-. by rewrite Bool.eqb_reflx in Hf.
Qed.

Lemma pf_outbound peers :
  pf_chain (flat_map (λ q, map (outbound_rule interface q) (overlay_host_addrs (allowed_ips q))) peers) p = None.
Proof using Hi.
  induction peers as [|q peers IH]; cbn [flat_map]; [done|]. rw pf_chain_app IH.
  rw overlay_hosts_show. fold (overlay_ips q).
  induction (overlay_ips_wf q) as [|a l Ha _ IHl]; cbn [map]; [done|]. cbn [pf_chain].
  change (text _) with (pf_out_text interface (Some a)). rw pf_verdict_out //.
Qed.

End anchor.

(** [C35] A Mac filters like a Linux device: for a tunnel interface the anchor
    compiled from a peer map gives every packet that opens a flow the verdict of
    the iptables chain planned from the same map. *)
Theorem pf_anchor_matches_linux `{Pf} `{Iptables} (interface : str) (peers : list Peer) (p : NewPacket)
    (Hi : valid_interface interface = true) :
  ∃ pl, plan interface peers = Some pl ∧ pf_accepts pl p = plan_accepts (plan_overlay_filter peers) p.
Proof.
  unfold plan. rw Hi plan_chain. cbn [negb]. destruct (existsb _ peers); cbn [negb]; [|by eexists].
  eexists. split; [done|]. unfold pf_accepts. cbn [pf_rules]. rw pf_chain_app pf_outbound //. cbn [or_else pf_chain].
  change (text _) with (pf_out_text interface None) at 1. rw pf_verdict_out //. rw pf_chain_app pf_inbound //.
  cbn [pf_chain]. change (text _) with (pf_text interface false (mkMatch None None None)). rw pf_verdict_in //.
  by destruct (chain_verdict _ p).
Qed.

(** ** The anchor's text *)

Definition printable (c : Z) : Prop := 32 ≤ c ≤ 126.
Definition printable_text (s : str) : Prop := Forall printable s.

Lemma printable_app s t : printable_text s → printable_text t → printable_text (s ++ t).
Proof. intros. by apply Forall_app. Qed.

Lemma printable_check s : forallb (λ c, (32 <=? c) && (c <=? 126)) s = true → printable_text s.
Proof.
  rw forallb_forall. intros Hs. apply Forall_forall. intros c Hc%list_elem_of_In%Hs. to_prop. unfold printable. lia.
Qed.

Lemma printable_ip a : printable_text (show_ip a).
Proof. eapply Forall_impl; [apply show_ip_graphic|]. unfold graphic, printable. lia. Qed.

Lemma printable_dec z : 0 ≤ z → printable_text (dec z).
Proof. intros Hz. eapply Forall_impl; [by apply dec_digits|]. unfold printable. simpl. lia. Qed.

Lemma printable_port spec r : pf_port spec = Some r → printable_text r.1.
Proof.
  rw pf_port_spec. destruct (port_range spec) as [[lo hi]|] eqn:Hr; [|done]. intros <-%(inj Some).
  apply port_range_bounds in Hr. unfold port_text. cbn [fst snd]. case_match; [apply printable_dec; lia|].
  apply printable_app; [apply printable_dec; lia|]. apply printable_app; [by apply printable_check|apply printable_dec; lia].
Qed.

Lemma printable_interface i : valid_interface i = true → printable_text i.
Proof.
  unfold valid_interface. intros Hv. to_prop. apply starts_with_true in H as [r ->].
  apply printable_app; [by apply printable_check|]. apply printable_check.
  rewrite (drop_app_length' (lit "utun")) // in H1. rewrite forallb_forall in H1. apply forallb_forall.
  intros c Hc%H1. unfold is_ascii_digit in Hc. to_prop. lia.
Qed.

Create HintDb pf.
#[export] Hint Resolve printable_app printable_ip printable_interface : pf.
#[export] Hint Extern 1 (printable_text (lit _)) => by apply printable_check : pf.
#[export] Hint Extern 1 (printable_text (dec _)) => by apply printable_dec : pf.

Lemma printable_port_rules q f proto allowed specs r :
  (∀ t, printable_text t → printable_text (f t)) →
  r ∈ pf_port_rules q f proto allowed specs → printable_text (text r).
Proof.
  intros Hf (x & -> & (s & _ & Hs)%list_elem_of_omap)%list_elem_of_fmap. apply Hf. by eapply printable_port.
Qed.

Lemma printable_address_rules i q a r :
  valid_interface i = true → r ∈ pf_address_rules i q (show_ip a) → printable_text (text r).
Proof.
  intros Hi. unfold pf_address_rules. set (g := default ingress_all (ingress q)).
  assert (∀ (b : bool) x, printable_text (text x) → r ∈ (if b then [x] else []) → printable_text (text r)) as Hb.
  { intros [] x Hx; [by intros ->%list_elem_of_singleton|by intros ?%elem_of_nil]. }
  rw !elem_of_app. destruct (contains_char _ _), (all g); rw ?elem_of_app ?list_elem_of_singleton;
  intros Hr; decompose [or] Hr; clear Hr;
    first [ eapply Hb; [|eassumption] | eapply printable_port_rules; [|eassumption]; intros t Ht | subst r ];
    cbn [text inbound_rule]; unfold port_pass, port_block; auto 20 with pf.
Qed.

Lemma lines_ruleset rules :
  Forall (λ r, printable_text (text r)) rules → lines (flat_map (λ r, text r ++ [10]) rules) = map text rules.
Proof.
  intros Hr. unfold lines.
  assert (split 10 (flat_map (λ r, text r ++ [10]) rules) = map text rules ++ [[]]) as ->.
  { induction Hr as [|r rules Hr Hrules IH]; [done|]. cbn [flat_map map app]. rw -app_assoc. cbn [app].
    rw split_app ?IH //. intros Hin. pose proof (proj1 (Forall_forall _ _) Hr 10 Hin). unfold printable in *. lia. }
  rw last_snoc removelast_last map_map. apply map_ext_Forall. eapply Forall_impl; [exact Hr|]. intros r Ht. simpl.
  unfold strip_cr. destruct (last (text r)) as [c|] eqn:Hl; [|done].
  apply last_Some_elem_of in Hl. pose proof (proj1 (Forall_forall _ _) Ht c Hl). unfold printable in *.
  by rw (proj2 (Z.eqb_neq c 13)); [|lia].
Qed.

(** The anchor reaches [pf] rule by rule: whatever the peer map holds, the lines
    of the text handed to [pfctl] are exactly the planned rules, so the counters
    read back line up with them and no address, port or name can add a rule. *)
Theorem ruleset_lines (interface : str) (peers : list Peer) (pl : PfPlan) (Hplan : plan interface peers = Some pl) :
  lines (ruleset pl) = map text (pf_rules pl).
Proof.
  revert Hplan. unfold plan. destruct (valid_interface interface) eqn:Hi; cbn [negb]; [|done].
  destruct (existsb _ peers); cbn [negb]; intros <-%(inj Some); [|done]. apply lines_ruleset. cbn [pf_rules].
  apply Forall_forall. intros r. rw elem_of_app elem_of_cons elem_of_app list_elem_of_singleton. intros Hr.
  decompose [or] Hr; clear Hr; subst; cbn [text]; auto 20 with pf.
  - apply list_elem_of_In, in_flat_map in H as (q & _ & Hq). apply list_elem_of_In, list_elem_of_fmap in Hq as (t & -> & Ht).
    rewrite overlay_hosts_show in Ht. apply list_elem_of_fmap in Ht as (a & -> & _). cbn [text outbound_rule]. auto 20 with pf.
  - apply list_elem_of_In, in_flat_map in H as (q & _ & Hq). apply in_flat_map in Hq as (t & Ht%list_elem_of_In & Hq%list_elem_of_In).
    rewrite overlay_hosts_show in Ht. apply list_elem_of_fmap in Ht as (a & -> & _). by eapply printable_address_rules.
Qed.

(** ** A reader of the rules, for concrete packets *)

Fixpoint read_pf (ws : list str) (p : NewPacket) (accept ok : bool) : option bool :=
  match ws with
  | [] => if ok then Some accept else None
  | k :: rest =>
      if seq_b k "inet" then read_pf rest p accept (ok && negb (is_ipv6 (np_source p)))
      else if seq_b k "inet6" then read_pf rest p accept (ok && is_ipv6 (np_source p))
      else if existsb (seq_b k) ["all"; "to"; "any"; "keep"; "state"] then read_pf rest p accept ok
      else match rest with
           | [] => None
           | v :: rest =>
               if seq_b k "from" then read_pf rest p accept (ok && bool_decide (parse_ip v = Some (np_source p)))
               else if seq_b k "proto" then
                 read_pf rest p accept
                   (ok && existsb (λ q, bool_decide (v = pf_proto_text q) && (np_proto p =? proto_number q))
                            [PTcp; PUdp; PIcmp; PIcmpv6])
               else if seq_b k "port" then
                 read_pf rest p accept (ok && match read_port v with Some r => in_range r (np_port p) | None => false end)
               else None
           end
  end.

Definition simple_pf_verdict (rule : str) (p : NewPacket) : option bool :=
  match split 32 rule with
  | action :: dir :: _ :: _ :: _ :: rest =>
      if seq_b action "pass" && seq_b dir "in" then read_pf rest p true true
      else if seq_b action "block" then read_pf (drop 1 rest) p false true
      else None
  | _ => None
  end.

Definition word (s : str) : Prop := 32 ∉ s.

Lemma word_check s : contains_char 32 s = false → word s.
Proof. apply contains_char_false. Qed.

Lemma word_ip a : word (show_ip a).
Proof. intros Hin. pose proof (proj1 (Forall_forall _ _) (show_ip_graphic a) 32 Hin). unfold graphic in *. lia. Qed.

Lemma word_port lo hi : 0 ≤ lo → 0 ≤ hi → word (port_text (lo, hi)).
Proof.
  intros Hl Hh. unfold port_text. cbn [fst snd]. case_match; [apply dec_not_in; lia|].
  apply not_elem_of_app; split; [apply dec_not_in; lia|].
  apply not_elem_of_app; split; [by apply contains_char_false|apply dec_not_in; lia].
Qed.

Lemma word_interface i : valid_interface i = true → word i.
Proof.
  unfold valid_interface. intros Hv. to_prop. apply starts_with_true in H as [r ->].
  apply not_elem_of_app; split; [by apply contains_char_false|].
  rewrite (drop_app_length' (lit "utun")) // in H1. rewrite forallb_forall in H1.
  intros Hc%list_elem_of_In%H1. done.
Qed.

#[export] Hint Resolve word_ip word_port word_interface : pf.
#[export] Hint Extern 1 (word (lit _)) => by apply word_check : pf.

Ltac solve_words := repeat first [apply Forall_nil_2 | apply Forall_cons_2]; auto with pf.

Lemma words_pf i accept m : valid_interface i = true → pf_valid m → Forall word (pf_words i accept m).
Proof.
  intros Hi [[_ Hp] _]. destruct m as [src pr ports]. cbn [m_ports m_proto m_source] in *. unfold pf_words. cbn [m_ports m_proto m_source].
  repeat (apply Forall_app; split).
  - destruct accept; solve_words.
  - solve_words.
  - destruct pr as [[]|]; solve_words.
  - destruct pr as [[]|]; solve_words; by apply word_check.
  - destruct src; solve_words.
  - destruct ports as [[lo hi]|]; solve_words. apply word_port; lia.
  - destruct accept; solve_words.
Qed.

Lemma read_pf_from a rest p accept ok :
  wf_ip a →
  read_pf (lit "from" :: show_ip a :: rest) p accept ok = read_pf rest p accept (ok && bool_decide (np_source p = a)).
Proof.
  intros Ha. transitivity (read_pf rest p accept (ok && bool_decide (parse_ip (show_ip a) = Some (np_source p)))); [done|].
  rw parse_show_ip //.
  do 2 f_equal. apply bool_decide_ext. naive_solver.
Qed.

Lemma read_pf_proto q rest p accept ok :
  read_pf (lit "proto" :: pf_proto_text q :: rest) p accept ok = read_pf rest p accept (ok && (np_proto p =? proto_number q)).
Proof. destruct q; simpl; by rw ?andb_false_r ?orb_false_r ?andb_true_r. Qed.

Lemma read_pf_port lo hi rest p accept ok :
  1 ≤ lo ≤ hi → hi ≤ U16_MAX →
  read_pf (lit "port" :: port_text (lo, hi) :: rest) p accept ok = read_pf rest p accept (ok && in_range (lo, hi) (np_port p)).
Proof. intros Hl Hh. simpl. by rw read_port_text. Qed.

Lemma read_pf_words (m : Match) (p : NewPacket) (accept : bool) :
  pf_valid m →
  read_pf (drop (if accept then 5 else 6)%nat (pf_words (lit "utun0") accept m)) p accept true =
  if matches m p then Some accept else None.
Proof.
  destruct m as [src pr ports]. intros [[Hs Hp] Hf]. cbn [m_source m_proto m_ports] in *.
  assert (∀ ok, read_pf (if accept then [lit "keep"; lit "state"] else []) p accept ok = if ok then Some accept else None) as Hend.
  { intros ok. by destruct accept, ok. }
  assert (∀ ok, read_pf (match ports with Some r => [lit "port"; port_text r] | None => [] end
    ++ (if accept then [lit "keep"; lit "state"] else [])) p accept ok =
    if ok && match ports with Some r => in_range r (np_port p) | None => true end then Some accept else None) as Hports.
  { intros ok. destruct ports as [[lo hi]|]; cbn [app]; [rw read_pf_port; [|tauto..]|rw andb_true_r]; apply Hend. }
  assert (∀ ok, read_pf (match src with Some a => [lit "from"; show_ip a; lit "to"; lit "any"] | None => [lit "all"] end
    ++ match ports with Some r => [lit "port"; port_text r] | None => [] end
    ++ (if accept then [lit "keep"; lit "state"] else [])) p accept ok =
    if ok && match src with Some a => bool_decide (np_source p = a) | None => true end
       && match ports with Some r => in_range r (np_port p) | None => true end then Some accept else None) as Hsrc.
  { intros ok. destruct src as [a|]; cbn [app]; [rw read_pf_from //|rw andb_true_r]; apply Hports. }
  unfold matches. cbn [m_source m_proto m_ports].
  assert (drop (if accept then 5 else 6)%nat (pf_words (lit "utun0") accept (mkMatch src pr ports)) =
    pf_family pr ++ match pr with Some q => [lit "proto"; pf_proto_text q] | None => [] end
    ++ match src with Some a => [lit "from"; show_ip a; lit "to"; lit "any"] | None => [lit "all"] end
    ++ match ports with Some r => [lit "port"; port_text r] | None => [] end
    ++ (if accept then [lit "keep"; lit "state"] else [])) as -> by by destruct accept.
  set (rest := match src with Some _ => _ | None => _ end ++ _) in *.
  destruct pr as [[]|], src as [a|]; cbn [pf_family app]; try done.
  all: try (change (read_pf (lit "inet" :: ?l) p accept true) with (read_pf l p accept (negb (is_ipv6 (np_source p))))).
  all: try (change (read_pf (lit "inet6" :: ?l) p accept true) with (read_pf l p accept (is_ipv6 (np_source p)))).
  all: rw ?read_pf_proto Hsrc; cbn [andb].
  all: try (destruct (np_proto p =? _)); rw ?andb_true_r ?andb_false_r ?andb_true_l //.
  all: try by destruct (bool_decide _).
  all: destruct (bool_decide (np_source p = a)) eqn:Ha; rw ?andb_false_r ?andb_true_r //; to_prop; subst a; by rw Hf.
Qed.

Lemma simple_pf_in i accept m p :
  valid_interface i = true → pf_valid m →
  simple_pf_verdict (pf_text i accept m) p = if matches m p then Some accept else None.
Proof.
  intros Hi Hm. unfold simple_pf_verdict, pf_text. change (lit " ") with [32].
  rw split_join; [|by destruct accept|by apply words_pf].
  rw -(read_pf_words m p accept Hm). by destruct accept.
Qed.

Lemma simple_pf_out i a p :
  valid_interface i = true → from_option wf_ip True a → simple_pf_verdict (pf_out_text i a) p = None.
Proof.
  intros Hi Ha. unfold simple_pf_verdict, pf_out_text. change (lit " ") with [32].
  rw split_join; [done..|]. change (λ s, 32 ∉ s) with word. destruct a; cbn [app]; solve_words.
Qed.

#[export] Instance simple_pf : Pf := {
  pf_verdict := simple_pf_verdict;
  pf_verdict_in := simple_pf_in;
  pf_verdict_out := simple_pf_out
}.

Lemma pf_anchor_matches_linux_witness :
  ∃ pl, plan (lit "utun3") sample_peers = Some pl ∧ pf_accepts pl (mkNewPacket (V4 1681915906) TCP 8001) = true.
Proof.
  destruct (pf_anchor_matches_linux (lit "utun3") sample_peers (mkNewPacket (V4 1681915906) TCP 8001) eq_refl) as (pl & Hp & Ha).
  exists pl. split; [exact Hp|]. rewrite Ha. vm_compute. reflexivity.
Defined.

Lemma ruleset_lines_witness :
  match plan (lit "utun3") sample_peers with
  | Some pl => lines (ruleset pl) = map text (pf_rules pl) ∧ length (pf_rules pl) = 12%nat
  | None => False
  end.
Proof.
  destruct (plan (lit "utun3") sample_peers) as [pl|] eqn:Hp; [|discriminate Hp]. split; [exact (ruleset_lines _ _ _ Hp)|].
  vm_compute in Hp. by injection Hp as <-.
Defined.
