(* ===== verification/AppConnectors.v ===== *)
(** * Domain connectors

    [blaktail-coord/src/app_connectors.rs]: a connector reports the addresses a
    name resolves to, and the coordinator turns answers it can trust into host
    route leases.  The tables a handler reads and writes are lists of rows, each
    query the list operation it states; a handler maps the tables to the tables it
    commits and its answer, and an error before a commit leaves them unchanged.
    JSON columns are rows' decoded values, with [None] where decoding fails; errors
    of the database itself are not modelled.  Texts of error messages are the
    constructors of [Blocked]. *)

From S2P Require Import Prelude Text Net Policy Ipam AclFilter ForwardFilter CoordAcl CoordForward.

Definition CAP_APP_CONNECTOR : str := lit "app-connector".
Definition MIN_LEASE_SECS : Z := 90.
Definition MAX_LEASE_SECS : Z := 300.
Definition MAX_ANSWERS : nat := 32.
Definition MAX_REASON_CHARS : nat := 200.
Definition RESOLVE_INTERVAL_SECS : Z := 30.

(** ** Address safety *)

Definition ipv4_in (ip network prefix : Z) : bool := mask_value 32 prefix ip =? mask_value 32 prefix network.
Definition ipv6_in (ip network prefix : Z) : bool := mask_value 128 prefix ip =? mask_value 128 prefix network.

(** [Ipv4Addr::from([a, b, c, d])] and [Ipv6Addr::new(..)]. *)
Abbreviation octets := from_be.
Abbreviation groups16 := (from_limbs 65536).

Definition V4_RANGES : list (Z * Z * str) :=
  [(octets [169; 254; 169; 254], 32, lit "cloud metadata endpoint");
   (octets [100; 100; 100; 200], 32, lit "cloud metadata endpoint");
   (octets [0; 0; 0; 0], 8, lit "unspecified or this-network");
   (octets [127; 0; 0; 0], 8, lit "loopback");
   (octets [169; 254; 0; 0], 16, lit "link-local");
   (octets [100; 64; 0; 0], 10, lit "BlakTail overlay pool");
   (octets [224; 0; 0; 0], 4, lit "multicast");
   (octets [240; 0; 0; 0], 4, lit "reserved or broadcast")].

(** [ranges.iter().find(..).map(..)] *)
Definition find_range (inside : Z → Z → Z → bool) (ip : Z) (ranges : list (Z * Z * str)) : option str :=
  snd <$> List.find (λ r, inside ip r.1.1 r.1.2) ranges.

Definition ipv4_forbidden (ip : Z) : option str := find_range ipv4_in ip V4_RANGES.

Section connectors.
Variable sha256 : bytes → bytes.

Definition org_ula_address (org_id : str) (offset : Z) : str :=
  let digest := sha256 org_id in
  let a := from_be ([253] ++ take 7 digest ++ [0; 0; 0; 0] ++ be_bytes 4 offset) in
  show_ip (V6 a) ++ lit "/128".

Definition org_pool (org_id : str) : Z :=
  default 0 ('(address, _) ← split_once 47 (org_ula_address org_id 0);
             match parse_ip address with Some (V6 a) => Some a | _ => None end).

Definition V6_RANGES (org_id : str) : list (Z * Z * str) :=
  [(groups16 [0xfd00; 0xec2; 0; 0; 0; 0; 0; 0x254], 128, lit "cloud metadata endpoint");
   (0, 128, lit "unspecified");
   (1, 128, lit "loopback");
   (groups16 [0xfe80; 0; 0; 0; 0; 0; 0; 0], 10, lit "link-local");
   (groups16 [0xff00; 0; 0; 0; 0; 0; 0; 0], 8, lit "multicast");
   (org_pool org_id, 64, lit "BlakTail overlay pool")].

Definition forbidden_reason (ip : IpAddr) (org_id : str) : option str :=
  match ip with
  | V4 v4 => ipv4_forbidden v4
  | V6 v6 =>
      match to_ipv4_mapped v6 with
      | Some v4 => Some (default (lit "IPv4-mapped address") (ipv4_forbidden v4))
      | None =>
          let embedded := if ipv6_in v6 (groups16 [0x64; 0xff9b; 0; 0; 0; 0; 0; 0]) 96
                          then ipv4_forbidden (Z.land v6 0xffffffff) else None in
          match embedded with
          | Some reason => Some reason
          | None => find_range ipv6_in v6 (V6_RANGES org_id)
          end
      end
  end.

Inductive Blocked :=
| NotAnAddress (raw : str)
| BroadRoute (raw : str)
| ResolvedTo (fqdn : str) (ip : IpAddr) (why : str).

Definition host_ip (raw : str) : result Blocked IpAddr :=
  let text := trim raw in
  let '(address, prefix) := match split_once 47 text with
                            | Some (address, prefix) => (address, Some prefix)
                            | None => (text, None)
                            end in
  let? ip := ok_or (parse_ip address) (NotAnAddress raw) in
  let host := if is_ipv4 ip then "32"%string else "128"%string in
  if match prefix with Some p => negb (seq_b p host) | None => false end then Err (BroadRoute raw) else Ok ip.

Definition host_route (ip : IpAddr) : str := show_ip ip ++ (if is_ipv4 ip then lit "/32" else lit "/128").

Definition lease_seconds (ttl : Z) : Z := Z.max MIN_LEASE_SECS (Z.min MAX_LEASE_SECS ttl).

(** Characters of a UTF-8 string: a byte that is not a continuation starts one. *)
Fixpoint chars (s : str) : list str :=
  match s with
  | [] => []
  | c :: s =>
      match chars s with
      | (d :: ch) :: rest => if (128 <=? d) && (d <=? 191) then (c :: d :: ch) :: rest else [c] :: (d :: ch) :: rest
      | rest => [c] :: rest
      end
  end.

(** [char::is_control] *)
Definition is_control (ch : str) : bool :=
  match ch with
  | [c] => (c <=? 31) || (c =? 127)
  | [a; b] => (a =? 194) && (b <=? 159)
  | _ => false
  end.

Definition clean_reason (text : str) : str :=
  concat (take MAX_REASON_CHARS (List.filter (λ c, negb (is_control c)) (chars text))).

(** ** Tables *)

Record NodeRow := mkNodeRow {
  n_id : Uuid;
  n_org : str;
  n_token_hash : str;
  n_credential_expires_at : Z;
  n_capabilities : list str;
  n_suspended : bool;
  n_revoked : bool;
  n_deleted : bool;
  n_endpoint : option str;
  n_approved_routes : list str
}.

Record ResourceRow := mkResourceRow {
  r_id : Uuid;
  r_org : str;
  r_name : str;
  r_kind : str;
  r_cidr : option str;
  r_dns_target : option str;
  r_enabled : bool;
  r_routing_peers : option (list Uuid)
}.

Record LeaseRow := mkLeaseRow {
  l_org : str;
  l_resource : Uuid;
  l_node : Uuid;
  l_route : str;
  l_ttl : Z;
  l_resolved_at : Z;
  l_expires_at : Z
}.

Inductive Reason := ReasonText (s : str) | ReasonBlocked (rebinding : bool) (b : Blocked).

Record ReportRow := mkReportRow {
  p_resource : Uuid;
  p_node : Uuid;
  p_org : str;
  p_state : str;
  p_reason : Reason;
  p_reported_at : Z
}.

Inductive AuditEntry :=
| ResolutionBlocked (org : str) (resource : Uuid) (name fqdn : str) (node : Uuid) (reason : Reason) (withdrawn : list str)
| RoutesChanged (org : str) (resource : Uuid) (name fqdn : str) (node : Uuid) (added removed : list str).

Record Db := mkDb {
  nodes : list NodeRow;
  network_resources : list ResourceRow;
  connector_leases : list LeaseRow;
  connector_reports : list ReportRow;
  control_revision : gmap str Z;
  audit : list AuditEntry
}.

Definition set_leases (db : Db) (ls : list LeaseRow) : Db :=
  mkDb (nodes db) (network_resources db) ls (connector_reports db) (control_revision db) (audit db).

(** ** Queries *)

Inductive ConnError :=
| Unauthorized | Suspended | CredentialExpired | Forbidden | NotFound | CorruptData
| WrongName (fqdn : str) | TooManyAnswers | ResourceDisabled | ReportBlocked (reason : Reason).

Record ConnectorNode := mkConnectorNode { c_id : Uuid; c_org_id : str }.

Definition authenticate (db : Db) (now : Z) (node_id token : str) : result ConnError ConnectorNode :=
  let? row := ok_or (List.find (λ n, bool_decide (n_id n = node_id) && bool_decide (n_token_hash n = token)
                                     && negb (n_revoked n) && negb (n_deleted n)) (nodes db)) Unauthorized in
  let? _ := reject_if (n_suspended row) Suspended in
  let? _ := reject_if (n_credential_expires_at row <=? now) CredentialExpired in
  let? _ := reject_if (negb (existsb (λ c, bool_decide (c = CAP_APP_CONNECTOR)) (n_capabilities row))) Forbidden in
  Ok (mkConnectorNode node_id (n_org row)).

Record DnsResource := mkDnsResource {
  d_id : Uuid;
  d_name : str;
  d_fqdn : str;
  d_enabled : bool;
  d_routing_peers : list Uuid
}.

(** [Uuid::parse_str] succeeds. *)
Variable valid_uuid : str → bool.

Definition dns_resource (row : ResourceRow) : result ConnError DnsResource :=
  let? peers := ok_or (r_routing_peers row) CorruptData in
  let? _ := reject_if (negb (valid_uuid (r_id row))) CorruptData in
  let? fqdn := ok_or (r_dns_target row) CorruptData in
  Ok (mkDnsResource (r_id row) (r_name row) fqdn (r_enabled row) peers).

Definition load_dns_resources (db : Db) (org_id : str) : result ConnError (list DnsResource) :=
  try_collect dns_resource
    (List.filter (λ r, bool_decide (r_org r = org_id) && seq_b (r_kind r) "dns") (network_resources db)).

Definition assignments (db : Db) (now : Z) (node_id token : str) : result ConnError (list (Uuid * str)) :=
  let? node := authenticate db now node_id token in
  let? resources := load_dns_resources db (c_org_id node) in
  Ok (map (λ r, (d_id r, d_fqdn r))
        (List.filter (λ r, d_enabled r && bool_decide (c_id node ∈ d_routing_peers r)) resources)).

Definition of_connector (resource node : Uuid) (l : LeaseRow) : bool :=
  bool_decide (l_resource l = resource) && bool_decide (l_node l = node).

Definition active_leases (db : Db) (resource node : Uuid) (at_ : Z) : list str :=
  BTree.extend [] (map l_route (List.filter (λ l, of_connector resource node l && (at_ <? l_expires_at l))
                                  (connector_leases db))).

Definition withdraw_all (db : Db) (resource node : Uuid) : Db :=
  set_leases db (List.filter (λ l, negb (of_connector resource node l)) (connector_leases db)).

(** [DELETE FROM connector_leases WHERE org_id=$1 AND expires_at<=$2] *)
Definition drop_expired (db : Db) (org_id : str) (at_ : Z) : Db :=
  set_leases db (List.filter (λ l, negb (bool_decide (l_org l = org_id) && (l_expires_at l <=? at_))) (connector_leases db)).

Definition record_report (db : Db) (org_id : str) (resource node : Uuid) (state : str) (reason : Reason) (at_ : Z) : Db :=
  let row := mkReportRow resource node org_id state reason at_ in
  let same p := bool_decide (p_resource p = resource) && bool_decide (p_node p = node) in
  let rows := if existsb same (connector_reports db)
              then map (λ p, if same p then mkReportRow resource node (p_org p) state reason at_ else p) (connector_reports db)
              else connector_reports db ++ [row] in
  mkDb (nodes db) (network_resources db) (connector_leases db) rows (control_revision db) (audit db).

Definition bump_control_revision (db : Db) (org_id : str) : result ConnError Db :=
  match control_revision db !! org_id with
  | Some r => Ok (mkDb (nodes db) (network_resources db) (connector_leases db) (connector_reports db)
                    (<[org_id := r + 1]> (control_revision db)) (audit db))
  | None => Err NotFound
  end.

Definition append_audit (db : Db) (e : AuditEntry) : Db :=
  mkDb (nodes db) (network_resources db) (connector_leases db) (connector_reports db) (control_revision db)
    (audit db ++ [e]).

Definition live_nodes (db : Db) (org_id : str) : list NodeRow :=
  List.filter (λ n, bool_decide (n_org n = org_id) && negb (n_revoked n) && negb (n_deleted n)) (nodes db).

Definition protected_prefixes (db : Db) (org_id : str) : list str :=
  let cidrs := omap r_cidr (List.filter (λ r, bool_decide (r_org r = org_id) && seq_b (r_kind r) "cidr" && r_enabled r)
                              (network_resources db)) in
  List.filter (λ p, negb (is_default_route p)) (cidrs ++ flat_map n_approved_routes (live_nodes db org_id)).

(** [SocketAddr::from_str], the address alone: [a.b.c.d:port] or
    [[v6%scope]:port]. *)
Definition digits_only (s : str) : bool := negb (length s =? 0)%nat && forallb is_ascii_digit s.

Definition socket_port (s : str) : option Z := if digits_only s then parse_u16 s else None.

Definition parse_socket_ip (s : str) : option IpAddr :=
  match s with
  | 91 :: rest =>
      '(inside, tail) ← split_once 93 rest;
      port ← strip_prefix (lit ":") tail;
      _ ← socket_port port;
      let '(address, scope) := match split_once 37 inside with
                               | Some (a, scope) => (a, Some scope)
                               | None => (inside, None)
                               end in
      match parse_ip address with
      | Some (V6 a) =>
          match scope with
          | Some z => if digits_only z then _ ← parse_uint 10 U32_MAX z; Some (V6 a) else None
          | None => Some (V6 a)
          end
      | _ => None
      end
  | _ =>
      '(address, port) ← split_once 58 s;
      _ ← socket_port port;
      match parse_ip address with Some (V4 a) => Some (V4 a) | _ => None end
  end.

Definition device_endpoints (db : Db) (org_id : str) : list IpAddr :=
  omap parse_socket_ip (omap n_endpoint (live_nodes db org_id)).

(** ** Reports *)

Record Answer := mkAnswer { a_address : str; a_ttl : Z }.

Record ResolutionReport := mkResolutionReport {
  rr_resource_id : Uuid;
  rr_fqdn : str;
  rr_answers : list Answer;
  rr_error : option str
}.

Record ResolutionOutcome := mkResolutionOutcome {
  ro_state : str;
  ro_routes : list str;
  ro_lease_expires_at : option Z
}.

(** Why an answer may not be leased. *)
Definition why_blocked (org : str) (endpoints : list IpAddr) (protected : list str) (ip : IpAddr) : option str :=
  match forbidden_reason ip org with
  | Some why => Some why
  | None =>
      if bool_decide (ip ∈ endpoints) then Some (lit "a device's WireGuard endpoint")
      else if existsb (cidr_within (host_route ip)) protected
      then Some (lit "inside a network resource or approved device route")
      else None
  end.

(** The loop over the answers, up to the first that is blocked. *)
Fixpoint accept_answers (org fqdn : str) (endpoints : list IpAddr) (protected : list str)
    (accepted : BTree.map_of Z) (answers : list Answer) : result Blocked (BTree.map_of Z) :=
  match answers with
  | [] => Ok accepted
  | answer :: answers =>
      let? ip := host_ip (a_address answer) in
      match why_blocked org endpoints protected ip with
      | Some why => Err (ResolvedTo fqdn ip why)
      | None =>
          let route := host_route ip in
          let ttl := match BTree.get route accepted with
                     | Some t => Z.min t (a_ttl answer)
                     | None => a_ttl answer
                     end in
          accept_answers org fqdn endpoints protected (BTree.put route ttl accepted) answers
      end
  end.

Definition lease_of (org : str) (resource node : Uuid) (at_ : Z) (entry : str * Z) : LeaseRow :=
  mkLeaseRow org resource node entry.1 entry.2 at_ (at_ + lease_seconds entry.2).

Definition earliest (expiries : list Z) : option Z :=
  foldl (λ e x, Some (match e with Some e => Z.min e x | None => x end)) None expiries.

(** [report_resolution] after the checks, inside the transaction. *)
Definition apply_report (db : Db) (at_ : Z) (node : ConnectorNode) (resource : DnsResource) (fqdn : str)
    (report : ResolutionReport) : result ConnError (Db * result ConnError ResolutionOutcome) :=
  let org := c_org_id node in
  let db := drop_expired db org at_ in
  let previous := active_leases db (d_id resource) (c_id node) at_ in
  if negb (d_enabled resource) then
    let db := withdraw_all db (d_id resource) (c_id node) in
    let? db := if negb (length previous =? 0)%nat then bump_control_revision db org else Ok db in
    Ok (db, Err ResourceDisabled)
  else match rr_error report with
  | Some error =>
      let db := record_report db org (d_id resource) (c_id node) (lit "error") (ReasonText (clean_reason error)) at_ in
      Ok (db, Ok (mkResolutionOutcome (lit "error") previous None))
  | None =>
      match accept_answers org fqdn (device_endpoints db org) (protected_prefixes db org) [] (rr_answers report) with
      | Err blocked =>
          let reason := ReasonBlocked (negb (length previous =? 0)%nat) blocked in
          let db := withdraw_all db (d_id resource) (c_id node) in
          let db := record_report db org (d_id resource) (c_id node) (lit "blocked") reason at_ in
          let? db := bump_control_revision db org in
          let db := append_audit db (ResolutionBlocked org (d_id resource) (d_name resource) fqdn (c_id node) reason previous) in
          Ok (db, Err (ReportBlocked reason))
      | Ok accepted =>
          let current := map fst accepted in
          let db := withdraw_all db (d_id resource) (c_id node) in
          let rows := map (lease_of org (d_id resource) (c_id node) at_) accepted in
          let db := set_leases db (connector_leases db ++ rows) in
          let state := if (length accepted =? 0)%nat then lit "empty" else lit "resolved" in
          let db := record_report db org (d_id resource) (c_id node) state (ReasonText []) at_ in
          let? db := if bool_decide (current = previous) then Ok db
                     else let? db := bump_control_revision db org in
                          Ok (append_audit db (RoutesChanged org (d_id resource) (d_name resource) fqdn (c_id node)
                                                 (BTree.difference current previous) (BTree.difference previous current))) in
          Ok (db, Ok (mkResolutionOutcome state current (earliest (map l_expires_at rows))))
      end
  end.

Definition check_report (db : Db) (at_ : Z) (node_id token : str) (report : ResolutionReport) :
    result ConnError (ConnectorNode * DnsResource * str) :=
  let? node := authenticate db at_ node_id token in
  let? _ := reject_if (negb (valid_uuid (c_org_id node))) CorruptData in
  let? resources := load_dns_resources db (c_org_id node) in
  let? resource := ok_or (List.find (λ r, bool_decide (d_id r = rr_resource_id report)) resources) NotFound in
  let? _ := reject_if (negb (bool_decide (c_id node ∈ d_routing_peers resource))) Forbidden in
  let fqdn := to_ascii_lowercase (trim_end_matches 46 (trim (rr_fqdn report))) in
  let? _ := reject_if (negb (bool_decide (fqdn = d_fqdn resource))) (WrongName fqdn) in
  let? _ := reject_if (MAX_ANSWERS <? length (rr_answers report))%nat TooManyAnswers in
  Ok (node, resource, fqdn).

(** The handler: the tables after it and its answer. *)
Definition report_resolution (db : Db) (at_ : Z) (node_id token : str) (report : ResolutionReport) :
    Db * result ConnError ResolutionOutcome :=
  match (let? (node, resource, fqdn) := check_report db at_ node_id token report in
         apply_report db at_ node resource fqdn report) with
  | Ok (db', answer) => (db', answer)
  | Err e => (db, Err e)
  end.

(** [expire_leases]: the deletion and the revision are separate statements, the
    second of which changes nothing when the organisation is unknown. *)
Definition expire_leases (db : Db) (org_id : str) (now : Z) : Db * bool :=
  let expired := List.filter (λ l, bool_decide (l_org l = org_id) && (l_expires_at l <=? now)) (connector_leases db) in
  let db := drop_expired db org_id now in
  if (length expired =? 0)%nat then (db, false)
  else (match bump_control_revision db org_id with Ok db => db | Err _ => db end, true).

End connectors.
