(* ===== verification/ConnectorProps.v ===== *)
(** * Connectors lease only what is safe

    The reserved ranges are exactly the documented ones, every lease in the tables
    is a safe host route with a bounded life whatever the connectors report, and a
    report with one bad answer leaves its connector with no lease. *)

From S2P Require Import Prelude Text Net Policy Ipam AclFilter ForwardFilter CoordAcl CoordForward AppConnectors.

(** ** Reserved addresses *)

(** An IPv4 address outside 0/8, 127/8, 169.254/16, 100.64/10 (with the metadata
    addresses) and everything from 224.0.0.0 on. *)
Definition v4_safe (a : Z) : Prop :=
  2 ^ 24 ≤ a < 224 * 2 ^ 24 ∧ a / 2 ^ 24 ≠ 127 ∧ a / 2 ^ 16 ≠ 169 * 256 + 254 ∧ a / 2 ^ 22 ≠ 100 * 4 + 1.

Definition NAT64 : Z := 0x64ff9b * 2 ^ 64.
Definition METADATA_V6 : Z := 0xfd000ec2 * 2 ^ 96 + 0x254.

Definition safe_target (sha256 : bytes → bytes) (org : str) (ip : IpAddr) : Prop :=
  match ip with
  | V4 a => v4_safe a
  | V6 a =>
      a / 2 ^ 32 ≠ 65535 ∧ (a / 2 ^ 32 = NAT64 → v4_safe (a mod 2 ^ 32)) ∧
      a ≠ METADATA_V6 ∧ a ≠ 0 ∧ a ≠ 1 ∧ a / 2 ^ 118 ≠ 0x3fa ∧ a / 2 ^ 120 ≠ 255 ∧
      a / 2 ^ 64 ≠ org_pool sha256 org / 2 ^ 64
  end.

Lemma find_range_None inside ip rs :
  find_range inside ip rs = None ↔ Forall (λ r, inside ip r.1.1 r.1.2 = false) rs.
Proof.
  unfold find_range. induction rs as [|r rs IH]; simpl; [by split|]. rw Forall_cons.
  destruct (inside ip r.1.1 r.1.2); simpl; [by split; [|intros []]|]. rw IH. tauto.
Qed.

Lemma outside_block (w p a n : Z) :
  0 ≤ p ≤ w → 0 ≤ a < 2 ^ w → 0 ≤ n < 2 ^ w →
  (mask_value w p a =? mask_value w p n) = false ↔ a / 2 ^ (w - p) ≠ n / 2 ^ (w - p).
Proof. intros. rw Z.eqb_neq mask_value_eq //. Qed.

Lemma v4_forbidden_None a : is_u32 a → ipv4_forbidden a = None ↔ v4_safe a.
Proof.
  intros Ha. assert (0 ≤ a < 2 ^ 32) as Hr by mlia. unfold ipv4_forbidden. rw find_range_None. unfold V4_RANGES, ipv4_in.
  rw !Forall_cons Forall_nil. cbn [fst snd]. rw !outside_block //. unfold v4_safe.
  repeat match goal with |- context [octets ?l / 2 ^ ?k] => let v := eval vm_compute in (octets l / 2 ^ k) in change (octets l / 2 ^ k) with v end.
  cbn [Z.sub Z.add Z.opp Z.pos_sub Pos.pred_double Z.pow Z.pow_pos Pos.iter Z.mul Pos.mul].
  change (2 ^ (32 - 32)) with 1.
  split; intros; Z.div_mod_to_equations; lia.
Qed.

Lemma org_pool_range sha256 org : 0 ≤ org_pool sha256 org < 2 ^ 128.
Proof.
  unfold org_pool. destruct (split_once 47 _) as [[a b]|]; simpl; [|mlia].
  destruct (parse_ip a) as [[v|v]|] eqn:Ha; simpl; [mlia| |mlia]. apply parse_ip_wf in Ha. simpl in Ha. mlia.
Qed.

Lemma forbidden_None sha256 ip org : wf_ip ip → forbidden_reason sha256 ip org = None ↔ safe_target sha256 org ip.
Proof.
  intros Hw. destruct ip as [a|a]; cbn [forbidden_reason safe_target]; [by apply v4_forbidden_None|].
  assert (0 ≤ a < 2 ^ 128) as Hr by (simpl in Hw; mlia). unfold to_ipv4_mapped.
  destruct (Z.eqb_spec (a / 2 ^ 32) 65535) as [He|He]; [split; [done|tauto]|].
  assert (is_u32 (a mod 2 ^ 32)) as Hm by (pose proof (Z.mod_pos_bound a (2 ^ 32)); mlia).
  assert (Z.land a 0xffffffff = a mod 2 ^ 32) as -> by (rewrite -(Z.land_ones a 32); [done|lia]).
  assert (ipv6_in a (groups16 [0x64; 0xff9b; 0; 0; 0; 0; 0; 0]) 96 = true ↔ a / 2 ^ 32 = NAT64) as Hn.
  { unfold ipv6_in. rw Z.eqb_eq mask_value_eq //. }
  assert (find_range ipv6_in a (V6_RANGES sha256 org) = None ↔
    a ≠ METADATA_V6 ∧ a ≠ 0 ∧ a ≠ 1 ∧ a / 2 ^ 118 ≠ 0x3fa ∧ a / 2 ^ 120 ≠ 255 ∧
    a / 2 ^ 64 ≠ org_pool sha256 org / 2 ^ 64) as Hf.
  { rw find_range_None. unfold V6_RANGES, ipv6_in. rw !Forall_cons Forall_nil. cbn [fst snd].
    rw !outside_block //; [|apply org_pool_range].
    change (2 ^ (128 - 128)) with 1. rw !Z.div_1_r.
    change (128 - 10) with 118. change (128 - 8) with 120. change (128 - 64) with 64.
    change (groups16 [0xfe80; 0; 0; 0; 0; 0; 0; 0] / 2 ^ 118) with 0x3fa.
    change (groups16 [0xff00; 0; 0; 0; 0; 0; 0; 0] / 2 ^ 120) with 255.
    change (groups16 [0xfd00; 0xec2; 0; 0; 0; 0; 0; 0x254]) with METADATA_V6. tauto. }
  destruct (ipv6_in a _ 96) eqn:H6.
  - destruct (ipv4_forbidden (a mod 2 ^ 32)) as [r|] eqn:H4.
    + split; [done|]. intros (_ & Hs & _). specialize (Hs (proj1 Hn eq_refl)).
      apply v4_forbidden_None in Hs; [|done]. congruence.
    + apply v4_forbidden_None in H4; [|done]. rw Hf. tauto.
  - rw Hf. assert (a / 2 ^ 32 ≠ NAT64) by (intros He'; apply Hn in He'; done). tauto.
Qed.

(** ** Ordered maps *)

Lemma put_Forall {A} (P : str * A → Prop) k v m : Forall P m → P (k, v) → Forall P (BTree.put k v m).
Proof.
  intros Hm Hk. unfold BTree.put. induction Hm as [|[k' v'] m Hx Hm IH]; cbn [BTree.update].
  { by repeat constructor. }
  case_bool_decide as He; [subst k'; by constructor|]. case_match; by repeat constructor.
Qed.

Lemma put_keys {A} k (v : A) m k' : k' ∈ (BTree.put k v m).*1 ↔ k' = k ∨ k' ∈ m.*1.
Proof.
  unfold BTree.put. induction m as [|[k0 v0] m IH]; cbn [BTree.update].
  { rw !fmap_cons !fmap_nil elem_of_cons elem_of_nil. tauto. }
  case_bool_decide as He; [subst k0|case_match]; rw !fmap_cons !elem_of_cons /=; [tauto..|]. rw IH. tauto.
Qed.

(** ** Answers *)

Section props.
Context (sha256 : bytes → bytes).

(** An answer the coordinator may lease to [org] while [endpoints] and [protected]
    are the addresses and prefixes in use there. *)
Definition leasable (org : str) (endpoints : list IpAddr) (protected : list str) (ip : IpAddr) : Prop :=
  wf_ip ip ∧ safe_target sha256 org ip ∧ ip ∉ endpoints ∧ Forall (λ p, cidr_within (host_route ip) p = false) protected.

Definition acceptable (org : str) (endpoints : list IpAddr) (protected : list str) (a : Answer) (ip : IpAddr) : Prop :=
  host_ip (a_address a) = Ok ip ∧ leasable org endpoints protected ip.

Lemma host_ip_wf raw ip : host_ip raw = Ok ip → wf_ip ip.
Proof using.
  unfold host_ip. destruct (split_once 47 (trim raw)) as [[a b]|];
    (destruct (parse_ip _) as [v|] eqn:Hp; simpl; [|done]); [case_match; [done|]|]; intros [= <-]; by eapply parse_ip_wf.
Qed.

Lemma why_blocked_None org eps prot ip :
  wf_ip ip → why_blocked sha256 org eps prot ip = None ↔ leasable org eps prot ip.
Proof using.
  intros Hw. unfold why_blocked, leasable. destruct (forbidden_reason sha256 ip org) eqn:Hf.
  - split; [done|]. intros (_ & Hs & _). apply forbidden_None in Hs; [|done]. congruence.
  - apply forbidden_None in Hf; [|done]. case_bool_decide as He; [split; [done|tauto]|].
    destruct (existsb _ prot) eqn:Hx.
    + split; [done|]. intros (_ & _ & _ & Hall). apply existsb_exists in Hx as (p & Hp%list_elem_of_In & Hx).
      rewrite Forall_forall in Hall. by rewrite (Hall p Hp) in Hx.
    + split; [|done]. intros _. split_and!; [done..|]. apply Forall_forall. intros p Hp.
      destruct (cidr_within (host_route ip) p) eqn:Hc; [|done]. rewrite -Hx. symmetry.
      apply existsb_exists. exists p. by rw -list_elem_of_In.
Qed.

Lemma accept_answers_ok org fqdn eps prot m answers m' :
  accept_answers sha256 org fqdn eps prot m answers = Ok m' →
  Forall (λ a, ∃ ip, acceptable org eps prot a ip ∧ host_route ip ∈ m'.*1) answers ∧
  (∀ k, k ∈ m'.*1 → k ∈ m.*1 ∨ ∃ a ip, a ∈ answers ∧ acceptable org eps prot a ip ∧ k = host_route ip) ∧
  (∀ k, k ∈ m.*1 → k ∈ m'.*1).
Proof using.
  revert m; induction answers as [|a answers IH]; intros m; cbn [accept_answers].
  { intros [= ->]. split_and!; [constructor|tauto|done]. }
  destruct (host_ip (a_address a)) as [ip|] eqn:Hip; simpl; [|done].
  pose proof (host_ip_wf _ _ Hip) as Hw. destruct (why_blocked _ _ _ _ ip) eqn:Hb; [done|].
  apply why_blocked_None in Hb; [|done].
  intros (Hall & Hkeys & Hsub)%IH. assert (acceptable org eps prot a ip) as Ha by done. split_and!.
  - constructor; [|done]. exists ip. split; [done|]. apply Hsub, put_keys. by left.
  - intros k Hk. apply Hkeys in Hk as [[->|Hk]%put_keys|(b & ip' & Hb' & Hacc & ->)].
    + right. exists a, ip. split_and!; [by constructor|done|done].
    + by left.
    + right. exists b, ip'. split_and!; [by constructor|done|done].
  - intros k Hk. apply Hsub, put_keys. by right.
Qed.

Lemma accept_answers_err org fqdn eps prot m answers :
  Exists (λ a, ∀ ip, ¬ acceptable org eps prot a ip) answers →
  ∃ b, accept_answers sha256 org fqdn eps prot m answers = Err b.
Proof using.
  intros Hex. destruct (accept_answers sha256 org fqdn eps prot m answers) as [m'|b] eqn:He; [|by exists b].
  apply accept_answers_ok in He as [Hall _]. exfalso. apply Exists_exists in Hex as (a & Ha & Hn).
  rewrite Forall_forall in Hall. destruct (Hall a Ha) as (ip & Hacc & _). by apply (Hn ip).
Qed.

(** ** The handler *)

Variable valid_uuid : str → bool.

Lemma bump_leases db org db' : bump_control_revision db org = Ok db' → connector_leases db' = connector_leases db.
Proof using. unfold bump_control_revision. case_match; [|done]. by intros [= <-]. Qed.

(** The leases a report leaves: those of other connectors that have not expired,
    and its own. *)
Definition others (db : Db) (org : str) (at_ : Z) (resource node : Uuid) : list LeaseRow :=
  List.filter (λ l, negb (of_connector resource node l)) (connector_leases (drop_expired db org at_)).

Lemma apply_report_cases db at_ node resource fqdn report db' ans :
  apply_report sha256 db at_ node resource fqdn report = Ok (db', ans) →
  let org := c_org_id node in
  let keep := others db org at_ (d_id resource) (c_id node) in
  (ans = Err ResourceDisabled ∧ d_enabled resource = false ∧ connector_leases db' = keep) ∨
  (∃ out, ans = Ok out ∧ is_Some (rr_error report) ∧ connector_leases db' = connector_leases (drop_expired db org at_)) ∨
  (∃ reason, ans = Err (ReportBlocked reason) ∧ connector_leases db' = keep) ∨
  (∃ out m, ans = Ok out ∧ rr_error report = None ∧ ro_routes out = m.*1 ∧
    accept_answers sha256 org fqdn (device_endpoints db org) (protected_prefixes db org) [] (rr_answers report) = Ok m ∧
    connector_leases db' = keep ++ map (lease_of org (d_id resource) (c_id node) at_) m).
Proof using.
  unfold apply_report. cbv zeta. destruct (d_enabled resource) eqn:He; cbn [negb].
  2: { intros Hx. left. destruct (negb (length _ =? 0)%nat); simpl in Hx.
       - destruct (bump_control_revision _ _) eqn:Hb; simplify_eq/=. split_and!; [done..|]. by rewrite (bump_leases _ _ _ Hb).
       - by simplify_eq/=. }
  destruct (rr_error report) as [error|] eqn:Hr; [intros [= <- <-]; right; left; eauto|].
  change (device_endpoints (drop_expired db ?o ?t)) with (device_endpoints db).
  change (protected_prefixes (drop_expired db ?o ?t)) with (protected_prefixes db).
  destruct (accept_answers _ _ _ _ _ _ _) as [m|b] eqn:Ha.
  - intros Hx. right; right; right.
    destruct (bool_decide _); simpl in Hx; [injection Hx as <- <-; eexists _, m; by split_and!|].
    destruct (bump_control_revision _ _) as [db1|] eqn:Hb; simplify_eq/=. eexists _, m. split_and!; [done..|].
    by rewrite (bump_leases _ _ _ Hb).
  - intros Hx. right; right; left. destruct (bump_control_revision _ _) as [db1|] eqn:Hb; simplify_eq/=.
    eexists. split; [done|]. by rewrite (bump_leases _ _ _ Hb).
Qed.

Lemma others_subset db org at_ r n l : l ∈ others db org at_ r n → l ∈ connector_leases db ∧ of_connector r n l = false.
Proof using.
  unfold others, drop_expired. cbn [set_leases connector_leases].
  intros [[Hin _]%filter_In Hn%negb_true_iff]%list_elem_of_In%filter_In. split; [by apply list_elem_of_In|done].
Qed.

(** A lease is a safe host route of its organisation and lives between a minute and
    a half and five minutes. *)
Definition lease_ok (l : LeaseRow) : Prop :=
  (∃ ip, wf_ip ip ∧ l_route l = host_route ip ∧ safe_target sha256 (l_org l) ip) ∧
  l_resolved_at l + MIN_LEASE_SECS ≤ l_expires_at l ≤ l_resolved_at l + MAX_LEASE_SECS.

Lemma lease_of_ok org r n at_ m fqdn eps prot answers :
  accept_answers sha256 org fqdn eps prot [] answers = Ok m → Forall lease_ok (map (lease_of org r n at_) m).
Proof using.
  intros (_ & Hkeys & _)%accept_answers_ok. apply Forall_fmap, Forall_forall. intros [k ttl] Hin.
  destruct (Hkeys k) as [Hn|(a & ip & _ & (_ & Hw & Hs & _) & ->)].
  - apply list_elem_of_fmap. by exists (k, ttl).
  - by apply elem_of_nil in Hn.
  - split; [by exists ip|]. simpl. unfold lease_seconds, MIN_LEASE_SECS, MAX_LEASE_SECS. lia.
Qed.

Lemma report_leases db at_ id token report :
  Forall lease_ok (connector_leases db) →
  Forall lease_ok (connector_leases (report_resolution sha256 valid_uuid db at_ id token report).1).
Proof using.
  intros Hdb. unfold report_resolution. destruct (check_report _ _ _ _ _ _) as [[[node resource] fqdn]|]; simpl; [|done].
  destruct (apply_report _ _ _ _ _ _ _) as [[db' ans]|] eqn:Ha; simpl; [|done].
  assert (∀ ls, (∀ l, l ∈ ls → l ∈ connector_leases db) → Forall lease_ok ls) as Hsub.
  { intros ls Hls. apply Forall_forall. intros l Hl%Hls. rewrite Forall_forall in Hdb. by apply Hdb. }
  assert (∀ l, l ∈ others db (c_org_id node) at_ (d_id resource) (c_id node) → l ∈ connector_leases db) as Ho.
  { intros l Hl. by apply others_subset in Hl as []. }
  apply apply_report_cases in Ha as [(_ & _ & ->)|[(out & _ & _ & ->)|[(reason & _ & ->)|(out & m & _ & _ & _ & Hm & ->)]]].
  - by apply Hsub.
  - apply Hsub. intros l [Hl _]%list_elem_of_In%filter_In. by apply list_elem_of_In.
  - by apply Hsub.
  - apply Forall_app. split; [by apply Hsub|]. by eapply lease_of_ok.
Qed.

(** What may happen to the tables: reports by anybody, expiry, and changes to
    devices, resources, revisions and the audit log by the rest of the program. *)
Inductive step (db : Db) : Db → Prop :=
| step_report at_ id token report : step db (report_resolution sha256 valid_uuid db at_ id token report).1
| step_expire org now : step db (expire_leases db org now).1
| step_admin ns rs revisions entries :
    step db (mkDb ns rs (connector_leases db) (connector_reports db) revisions entries).

Lemma expire_leases_subset db org now l :
  l ∈ connector_leases (expire_leases db org now).1 →
  l ∈ connector_leases db ∧ (l_org l = org → now < l_expires_at l).
Proof using.
  unfold expire_leases. intros Hl. assert (l ∈ connector_leases (drop_expired db org now)) as Hd.
  { revert Hl. case_match; [done|]. cbn [fst]. destruct (bump_control_revision _ _) as [db'|] eqn:Hb; [|done].
    by rewrite (bump_leases _ _ _ Hb). }
  apply list_elem_of_In, filter_In in Hd as [Hin Hx]. split; [by apply list_elem_of_In|]. intros Horg.
  rewrite bool_decide_true // in Hx. to_prop. simpl in Hx. to_prop. lia.
Qed.

(** [C9] Whatever connectors report, every lease in the tables is a single safe host:
    not loopback, link-local, multicast, reserved, cloud metadata, the overlay or
    an IPv4 address of these kinds hidden in an IPv6 one, and it lives between 90
    and 300 seconds. *)
Theorem every_lease_is_safe (db db' : Db) (Hstart : connector_leases db = []) (Hreach : rtc step db db') :
  Forall lease_ok (connector_leases db').
Proof using.
  assert (Forall lease_ok (connector_leases db)) as Hdb by (rewrite Hstart; constructor). clear Hstart.
  induction Hreach as [|db db1 db' Hstep _ IH]; [done|]. apply IH.
  destruct Hstep as [at_ id token report|org now|]; [by apply report_leases| |done].
  apply Forall_forall. intros l [Hl _]%expire_leases_subset. rewrite Forall_forall in Hdb. by apply Hdb.
Qed.

(** The leases a report leaves alone: those of its organisation that have not
    expired and every lease of another organisation. *)
Definition in_force (db : Db) (org : str) (at_ : Z) (l : LeaseRow) : Prop :=
  l ∈ connector_leases db ∧ (l_org l = org → at_ < l_expires_at l).

Lemma drop_expired_elem db org at_ l : l ∈ connector_leases (drop_expired db org at_) ↔ in_force db org at_ l.
Proof using.
  unfold drop_expired, in_force. cbn [set_leases connector_leases]. rw filter_elem negb_true_iff andb_false_iff bool_decide_eq_false Z.leb_gt.
  clear. destruct (decide (l_org l = org)); split; intros [H1 H2]; (split; [done|]); try tauto; intros; destruct H2; tauto.
Qed.

Lemma others_elem db org at_ r n l :
  l ∈ others db org at_ r n ↔ in_force db org at_ l ∧ ¬ (l_resource l = r ∧ l_node l = n).
Proof using.
  unfold others, of_connector. rw filter_elem drop_expired_elem negb_true_iff andb_false_iff !bool_decide_eq_false.
  clear. destruct (decide (l_resource l = r)), (decide (l_node l = n)); tauto.
Qed.

Lemma blocked_report_applied db at_ node resource fqdn report :
  d_enabled resource = true → rr_error report = None → is_Some (control_revision db !! c_org_id node) →
  Exists (λ a, ∀ ip, ¬ acceptable (c_org_id node) (device_endpoints db (c_org_id node)) (protected_prefixes db (c_org_id node)) a ip)
    (rr_answers report) →
  ∃ db' reason, apply_report sha256 db at_ node resource fqdn report = Ok (db', Err (ReportBlocked reason)) ∧
    connector_leases db' = others db (c_org_id node) at_ (d_id resource) (c_id node).
Proof using.
  intros Henabled Herror [r Hr] Hbad. destruct (accept_answers_err _ fqdn _ _ [] _ Hbad) as [b Hb].
  unfold apply_report. rw Henabled Herror. cbn [negb].
  change (device_endpoints (drop_expired db ?o ?t)) with (device_endpoints db).
  change (protected_prefixes (drop_expired db ?o ?t)) with (protected_prefixes db). rw Hb.
  unfold bump_control_revision at 1. cbn [control_revision record_report withdraw_all set_leases drop_expired]. rw Hr. by do 2 eexists.
Qed.

(** [C39] Rebinding fails closed for the connector that reports it.  A report that fails
    its checks changes nothing.  Otherwise, for a disabled resource the report is
    refused and the connector's leases of the resource are withdrawn; a report of a
    failed resolution keeps all unexpired leases; and a report with an answer that is
    not one safe host, or is a device's endpoint, or lies in a protected prefix, is
    refused as a whole and withdraws the connector's leases of the resource.  Only
    these: an unexpired lease that another connector holds for the same resource
    stays, although the module comment and the answer to the connector say that
    every lease of the resource is withdrawn. *)
Theorem blocked_report_fails_closed (db : Db) (at_ : Z) (id token : str) (report : ResolutionReport)
    (Horg : ∀ node resource fqdn, check_report valid_uuid db at_ id token report = Ok (node, resource, fqdn) →
       is_Some (control_revision db !! c_org_id node)) :
  let '(db', answer) := report_resolution sha256 valid_uuid db at_ id token report in
  match check_report valid_uuid db at_ id token report with
  | Err e => db' = db ∧ answer = Err e
  | Ok (node, resource, _) =>
      let org := c_org_id node in
      let withdrawn := ∀ l, l ∈ connector_leases db' ↔ in_force db org at_ l ∧ ¬ (l_resource l = d_id resource ∧ l_node l = c_id node) in
      if negb (d_enabled resource) then answer = Err ResourceDisabled ∧ withdrawn
      else if rr_error report then is_Some (result_ok answer) ∧ ∀ l, l ∈ connector_leases db' ↔ in_force db org at_ l
      else Exists (λ a, ∀ ip, ¬ acceptable org (device_endpoints db org) (protected_prefixes db org) a ip) (rr_answers report) →
           (∃ reason, answer = Err (ReportBlocked reason)) ∧ withdrawn
  end.
Proof using.
  unfold report_resolution. destruct (check_report valid_uuid db at_ id token report) as [[[node resource] fqdn]|e]; cbn [result_bind]; [|done].
  specialize (Horg _ _ _ eq_refl). cbv zeta.
  destruct (apply_report _ _ _ _ _ _ _) as [[db' answer]|x] eqn:Ha.
  - pose proof (apply_report_cases _ _ _ _ _ _ _ _ Ha) as Hcases. cbv zeta in Hcases.
    destruct (d_enabled resource) eqn:He; cbn [negb].
    + destruct (rr_error report) as [error|] eqn:Hr.
      * unfold apply_report in Ha. rewrite He Hr in Ha. cbn [negb] in Ha. injection Ha as <- <-. split; [by eexists|]. intros l. apply drop_expired_elem.
      * intros Hbad. destruct (blocked_report_applied db at_ node resource fqdn report He Hr Horg Hbad) as (db1 & reason & H1 & H2).
        rewrite Ha in H1. injection H1 as -> ->. split; [by eexists|]. intros l. rewrite H2. apply others_elem.
    + destruct Hcases as [(-> & _ & ->)|[(out & -> & _)|[(reason & -> & _)|(out & m & -> & _)]]]; [split; [done|]; intros l; apply others_elem|..];
        unfold apply_report in Ha; rewrite He in Ha; cbn [negb] in Ha; apply bind_ok in Ha as (? & _ & [=]).
  - exfalso. destruct Horg as [r Hr]. unfold apply_report in Ha. repeat case_match; try done;
      unfold bump_control_revision in Ha; cbn [control_revision record_report withdraw_all set_leases drop_expired append_audit result_bind] in Ha; try done;
      rewrite Hr in Ha; done.
Qed.

(** A report that is accepted leases exactly its answers: every answer was one
    safe host outside the endpoints and protected prefixes, its route is in the
    answer, and the connector's leases are those routes with expiries 90 to 300
    seconds away, besides the unexpired leases of others. *)
Theorem accepted_report_leases_answers (db db' : Db) (at_ : Z) (id token : str) (report : ResolutionReport)
    (out : ResolutionOutcome)
    (Hrun : report_resolution sha256 valid_uuid db at_ id token report = (db', Ok out)) (Herror : rr_error report = None) :
  ∃ node resource leases,
    let org := c_org_id node in
    connector_leases db' = others db org at_ (d_id resource) (c_id node) ++ leases ∧
    map l_route leases = ro_routes out ∧
    Forall (λ l, l_org l = org ∧ of_connector (d_id resource) (c_id node) l = true ∧ l_resolved_at l = at_ ∧ lease_ok l) leases ∧
    (∀ route, route ∈ ro_routes out ↔
       ∃ a ip, a ∈ rr_answers report ∧ acceptable org (device_endpoints db org) (protected_prefixes db org) a ip ∧
               route = host_route ip) ∧
    Forall (λ a, ∃ ip, acceptable org (device_endpoints db org) (protected_prefixes db org) a ip) (rr_answers report).
Proof using.
  unfold report_resolution in Hrun. destruct (check_report _ _ _ _ _ _) as [[[node resource] fqdn]|] eqn:Hc; simpl in Hrun; [|done].
  destruct (apply_report _ _ _ _ _ _ _) as [[db1 ans]|] eqn:Ha; simplify_eq/=. apply apply_report_cases in Ha.
  destruct Ha as [(? & _)|[(? & _ & [? Hx] & _)|[(? & ? & _)|(out' & m & Hout & _ & Hroutes & Hm & Hl)]]]; [done|congruence|done|].
  simplify_eq. exists node, resource, (map (lease_of (c_org_id node) (d_id resource) (c_id node) at_) m). cbv zeta.
  pose proof (accept_answers_ok _ _ _ _ _ _ _ Hm) as (Hall & Hkeys & _). split_and!.
  - done.
  - rw Hroutes map_map. done.
  - pose proof (lease_of_ok _ (d_id resource) (c_id node) at_ _ _ _ _ _ Hm) as Hok.
    rewrite Forall_forall in Hok. apply Forall_forall. intros l Hin. pose proof (Hok l Hin).
    apply list_elem_of_fmap in Hin as (e & -> & _). split_and!; [done| |done|done].
    unfold of_connector. simpl. by rw !bool_decide_true.
  - intros route. rw Hroutes. split; [intros [Hn%elem_of_nil|Hx]%Hkeys; [done|exact Hx]|].
    intros (a & ip & Hin & Hacc & ->). rewrite Forall_forall in Hall. destruct (Hall a Hin) as (ip' & [Hip _] & Hk).
    destruct Hacc as [Hip' _]. congruence.
  - eapply Forall_impl; [exact Hall|]. intros a (ip & Hacc & _). by exists ip.
Qed.

End props.

(** ** Concrete runs *)

Definition sha_sample (b : bytes) : bytes := replicate 32 7.
Definition any_uuid (s : str) : bool := true.

Definition connector_node (id : string) : NodeRow :=
  mkNodeRow (lit id) (lit "org") (lit "hash") 1000 [CAP_APP_CONNECTOR] false false false (Some (lit "203.0.113.9:51820")) [lit "10.1.0.0/16"].

Definition connector_db : Db :=
  mkDb [connector_node "a"; connector_node "b"]
    [mkResourceRow (lit "r") (lit "org") (lit "files") (lit "dns") None (Some (lit "files.example.org")) true
       (Some [lit "a"; lit "b"])]
    [] [] {[ lit "org" := 1 ]} [].

Definition report_of (addresses : list string) : ResolutionReport :=
  mkResolutionReport (lit "r") (lit "files.example.org.") (map (λ a, mkAnswer (lit a) 60) addresses) None.

Definition run_report (db : Db) (at_ : Z) (id : string) (addresses : list string) : Db * result ConnError ResolutionOutcome :=
  report_resolution sha_sample any_uuid db at_ (lit id) (lit "hash") (report_of addresses).

(** Both connectors hold a lease for 10.2.0.5. *)
Definition leased_db : Db := (run_report (run_report connector_db 0 "a" ["10.2.0.5"]).1 0 "b" ["10.2.0.5"]).1.

(** A blocked report withdraws only the reporting connector's leases: after one
    connector reports a loopback address, the lease another connector holds for
    the same resource and name stays in force. *)
Theorem blocked_report_keeps_other_connectors :
  let '(db, answer) := run_report leased_db 10 "a" ["127.0.0.1"] in
  answer = Err (ReportBlocked (ReasonBlocked true (ResolvedTo (lit "files.example.org") (V4 2130706433) (lit "loopback")))) ∧
  map (λ l, (l_resource l, l_node l, l_route l)) (connector_leases db) = [(lit "r", lit "b", lit "10.2.0.5/32")].
Proof. vm_compute. split; reflexivity. Qed.

Lemma every_lease_is_safe_witness :
  Forall (lease_ok sha_sample) (connector_leases leased_db) ∧ length (connector_leases leased_db) = 2%nat.
Proof.
  split; [|vm_compute; reflexivity]. apply (every_lease_is_safe sha_sample any_uuid connector_db); [reflexivity|].
  eapply rtc_l; [apply (step_report _ _ _ 0 (lit "a") (lit "hash") (report_of ["10.2.0.5"%string]))|].
  eapply rtc_l; [apply (step_report _ _ _ 0 (lit "b") (lit "hash") (report_of ["10.2.0.5"%string]))|]. apply rtc_refl.
Defined.

Lemma blocked_report_fails_closed_witness :
  map (λ l, (l_node l, l_route l)) (connector_leases (run_report leased_db 10 "a" ["10.2.0.5"; "10.1.2.3"]).1) = [(lit "b", lit "10.2.0.5/32")] ∧
  ∃ reason, (run_report leased_db 10 "a" ["10.2.0.5"; "10.1.2.3"]).2 = Err (ReportBlocked reason).
Proof.
  split; [vm_compute; reflexivity|].
  pose proof (blocked_report_fails_closed sha_sample any_uuid leased_db 10 (lit "a") (lit "hash")
    (report_of ["10.2.0.5"%string; "10.1.2.3"%string])) as H.
  assert (check_report any_uuid leased_db 10 (lit "a") (lit "hash") (report_of ["10.2.0.5"%string; "10.1.2.3"%string]) =
    Ok (mkConnectorNode (lit "a") (lit "org"), mkDnsResource (lit "r") (lit "files") (lit "files.example.org") true [lit "a"; lit "b"],
        lit "files.example.org")) as Hcheck by (vm_compute; reflexivity).
  rewrite Hcheck in H. unfold run_report. destruct (report_resolution _ _ _ _ _ _ _) as [db' answer]. apply H.
  - intros ? ? ? [= <- _ _]. vm_compute. by eexists.
  - apply Exists_cons. right. apply Exists_cons. left. intros ip [Hip (_ & _ & _ & Hp)].
    assert (ip = V4 167838211) as ->.
    { assert (host_ip (lit "10.1.2.3") = Ok (V4 167838211)) as Hh by (vm_compute; reflexivity).
      change (host_ip (lit "10.1.2.3") = Ok ip) in Hip. congruence. }
    rewrite Forall_forall in Hp. specialize (Hp (lit "10.1.0.0/16")).
    assert (cidr_within (host_route (V4 167838211)) (lit "10.1.0.0/16") = true) as Hw by (vm_compute; reflexivity).
    rewrite Hp in Hw; [discriminate|]. apply list_elem_of_In. vm_compute. left. reflexivity.
Defined.

Lemma accepted_report_leases_answers_witness :
  map l_route (connector_leases (run_report connector_db 0 "a" ["10.2.0.5"]).1) = [lit "10.2.0.5/32"].
Proof.
  destruct (run_report connector_db 0 "a" ["10.2.0.5"%string]) as [db' [out|e]] eqn:Hr.
  2: { vm_compute in Hr. discriminate. }
  destruct (accepted_report_leases_answers sha_sample any_uuid connector_db db' 0 (lit "a") (lit "hash")
    (report_of ["10.2.0.5"%string]) out Hr eq_refl) as (node & resource & leases & Hl & Hroutes & _).
  assert (ro_routes out = [lit "10.2.0.5/32"]) as Ho by (vm_compute in Hr; by injection Hr as _ <-).
  cbn [fst]. rewrite Hl map_app Hroutes Ho.
  assert (others connector_db (c_org_id node) 0 (d_id resource) (c_id node) = []) as -> by reflexivity. reflexivity.
Defined.
