(* ===== verification/CoordRules.v ===== *)
(** * Small rule books of the coordinator

    [permissions.rs], [tailnet_lock.rs], [connectors.rs], [https_services.rs] and
    [https_fallback.rs] of [blaktail-coord/src].  HMAC-SHA256, base64 decoding and
    URL parsing are arguments of the definitions that use them.  Error messages are
    constructors with the values the messages show. *)

From S2P Require Import Prelude Text Net Policy Ipam CoordAcl.

(** ** Permissions *)

Inductive Permission :=
| ViewNetwork | ManagePeers | ManageJoinKeys | ManageNetworks | ManagePolicy | ManageDns | ManageServices
| ViewAudit | ExportAudit | ManageIntegrations | ManageApiClients | ManageSecurity | ViewOperations
| ManageAgentGateway | ViewAgentUsage | UseRemoteSessions | ManageRemoteJobs | ManagePublicIngress.

Definition can (self : Role) (permission : Permission) : bool :=
  match self with
  | Owner => true
  | Admin =>
      match permission with
      | ManageSecurity | ManageApiClients | ViewOperations | ManageRemoteJobs | ManagePublicIngress => false
      | _ => true
      end
  | NetworkAdmin =>
      match permission with
      | ViewNetwork | ManagePeers | ManageJoinKeys | ManageNetworks | ManagePolicy | ManageDns | ManageServices
      | ViewAudit | UseRemoteSessions => true
      | _ => false
      end
  | Auditor =>
      match permission with
      | ViewNetwork | ViewAudit | ExportAudit | ViewOperations | ViewAgentUsage => true
      | _ => false
      end
  | Member => match permission with ViewNetwork | ViewAudit => true | _ => false end
  end.

Inductive Refused := ForbiddenRole.

(** [require]: only the session's role is consulted. *)
Definition require (session_role : Role) (permission : Permission) : result Refused () :=
  if can session_role permission then Ok () else Err ForbiddenRole.

(** ** Admission statements *)

Module Admission.

Definition ADMISSION_PROTO_VERSION : Z := 1.

Inductive AdmissionError :=
| EmptySecret | BadSignature | BadSignatureEncoding
| OrgMismatch (expected found : str)
| StaleEpoch (found minimum : Z)
| OutsideWindow (now from to : Z)
| InvalidWindow (from to : Z)
| UnsupportedVersion (found : Z)
| BadPubkey.

Record AdmissionStatement := mkAdmissionStatement {
  org_id : str;
  node_id : str;
  pubkey_b64 : str;
  epoch : Z;
  valid_from : Z;
  valid_to : Z;
  proto_version : Z
}.

Definition canonical (stmt : AdmissionStatement) : str :=
  lit "blaktail-admission-v1|" ++ org_id stmt ++ lit "|" ++ node_id stmt ++ lit "|" ++ pubkey_b64 stmt ++ lit "|"
  ++ dec (epoch stmt) ++ lit "|" ++ dec_signed (valid_from stmt) ++ lit "|" ++ dec_signed (valid_to stmt) ++ lit "|"
  ++ dec (proto_version stmt).

Definition encode_hex (bs : bytes) : str :=
  flat_map (λ b, [from_digit (Z.shiftr b 4); from_digit (Z.land b 0x0f)]) bs.

Definition nybble (c : Z) : result AdmissionError Z :=
  if (48 <=? c) && (c <=? 57) then Ok (c - 48)
  else if (97 <=? c) && (c <=? 102) then Ok (c - 97 + 10)
  else if (65 <=? c) && (c <=? 70) then Ok (c - 65 + 10)
  else Err BadSignatureEncoding.

(** [bytes.as_chunks::<2>().0]: the whole pairs. *)
Fixpoint decode_pairs (s : str) : result AdmissionError bytes :=
  match s with
  | a :: b :: s =>
      let? hi := nybble a in
      let? lo := nybble b in
      let? rest := decode_pairs s in
      Ok (Z.lor (Z.shiftl hi 4) lo :: rest)
  | _ => Ok []
  end.

Definition decode_hex (text : str) : result AdmissionError bytes :=
  if negb (Nat.even (length text)) || (length text =? 0)%nat then Err BadSignatureEncoding
  else decode_pairs text.

Section lock.
(** HMAC-SHA256 of a message under a key, and whether a text is standard base64. *)
Context (hmac : bytes → str → bytes) (base64_ok : str → bool).

Definition sign_admission (stmt : AdmissionStatement) (root_secret : bytes) : str :=
  encode_hex (hmac root_secret (canonical stmt)).

Definition verify_admission (stmt : AdmissionStatement) (signature_hex : str) (root_secret : bytes)
    (expected_org_id : str) (min_epoch now_secs : Z) : result AdmissionError () :=
  let? _ := reject_if (length root_secret =? 0)%nat EmptySecret in
  let? _ := reject_if (negb (base64_ok (trim (pubkey_b64 stmt)))) BadPubkey in
  let? presented := decode_hex (trim signature_hex) in
  let? _ := reject_if (negb (bool_decide (presented = hmac root_secret (canonical stmt)))) BadSignature in
  let? _ := reject_if (negb (bool_decide (org_id stmt = expected_org_id))) (OrgMismatch expected_org_id (org_id stmt)) in
  let? _ := reject_if (negb (proto_version stmt =? ADMISSION_PROTO_VERSION)) (UnsupportedVersion (proto_version stmt)) in
  let? _ := reject_if (epoch stmt <? min_epoch) (StaleEpoch (epoch stmt) min_epoch) in
  let? _ := reject_if (valid_to stmt <? valid_from stmt) (InvalidWindow (valid_from stmt) (valid_to stmt)) in
  reject_if ((now_secs <? valid_from stmt) || (valid_to stmt <? now_secs))
    (OutsideWindow now_secs (valid_from stmt) (valid_to stmt)).

End lock.
End Admission.

(** ** Connector definitions *)

Module AppDefs.

Definition MAX_APP_PORTS : nat := 32.
Definition METADATA_IPS : list str := [lit "169.254.169.254"; lit "100.100.100.200"].

Inductive ConnectorError :=
| EmptyName | NoHostnames | Wildcard (h : str) | SingleLabel (h : str) | BadHostname (h : str)
| NoPorts | OverbroadPorts (found : nat) | BadPort (p : Z) | NoProtocols | BadProtocol (p : str)
| UnapprovedHost (h : str) | NoAddresses (h : str) | BadAddress (a : str) | NonHostPrefix (a : str)
| UnsafeAddress (a reason : str).

Record AppDef := mkAppDef {
  name : str;
  exact_hostnames : list str;
  ports : list Z;
  protocols : list str
}.

Definition bad_label (label : str) : bool :=
  (length label =? 0)%nat || (63 <? length label)%nat
  || negb (forallb (λ b, is_ascii_alphanumeric b || (b =? 45)) label)
  || starts_with (lit "-") label || ends_with (lit "-") label.

Definition normalise_host (host : str) : str := to_ascii_lowercase (trim_end_matches 46 (trim host)).

Definition validate_hostname (host : str) : result ConnectorError () :=
  let? _ := reject_if (contains_char 42 host) (Wildcard host) in
  let lower := normalise_host host in
  let? _ := reject_if ((length lower =? 0)%nat || (253 <? length lower)%nat) (BadHostname host) in
  let? _ := reject_if (negb (contains_char 46 lower)) (SingleLabel host) in
  let? _ := try_each (λ label, reject_if (bad_label label) (BadHostname host)) (split 46 lower) in
  let tld := default [] (last (split 46 lower)) in
  reject_if ((length tld <? 2)%nat || negb (existsb is_ascii_alphabetic tld)) (SingleLabel host).

Definition validate_app (app : AppDef) : result ConnectorError () :=
  let? _ := reject_if (length (trim (name app)) =? 0)%nat EmptyName in
  let? _ := reject_if (length (exact_hostnames app) =? 0)%nat NoHostnames in
  let? _ := try_each validate_hostname (exact_hostnames app) in
  let? _ := reject_if (length (ports app) =? 0)%nat NoPorts in
  let? _ := reject_if (MAX_APP_PORTS <? length (ports app))%nat (OverbroadPorts (length (ports app))) in
  let? _ := try_each (λ port, reject_if (port =? 0) (BadPort port)) (ports app) in
  let? _ := reject_if (length (protocols app) =? 0)%nat NoProtocols in
  try_each (λ proto, reject_if (negb (seq_b (to_ascii_lowercase proto) "tcp" || seq_b (to_ascii_lowercase proto) "udp"))
                       (BadProtocol proto)) (protocols app).

Record Resolution := mkResolution { host : str; addrs : list str }.

Definition parse_host_addr (raw : str) : result ConnectorError IpAddr :=
  let text := trim raw in
  match split_once 47 text with
  | Some (ip_s, prefix_s) =>
      let? ip := ok_or (parse_ip (trim ip_s)) (BadAddress raw) in
      let? prefix := ok_or (parse_u8 (trim prefix_s)) (NonHostPrefix raw) in
      let host_prefix := (is_ipv4 ip && (prefix =? 32)) || (is_ipv6 ip && (prefix =? 128)) in
      if negb host_prefix then Err (NonHostPrefix raw) else Ok ip
  | None => ok_or (parse_ip text) (BadAddress raw)
  end.

Definition unsafe_reason (ip : IpAddr) : option str :=
  if existsb (λ m, bool_decide (m = show_ip ip)) METADATA_IPS then Some (lit "cloud metadata endpoint")
  else if is_loopback ip then Some (lit "loopback")
  else if is_unspecified ip then Some (lit "unspecified")
  else if is_multicast ip then Some (lit "multicast")
  else match ip with
       | V4 v => if (v / 2 ^ 24 =? 169) && ((v / 2 ^ 16) mod 256 =? 254) then Some (lit "link-local") else None
       | V6 v => if Z.land (v / 2 ^ 112) 0xffc0 =? 0xfe80 then Some (lit "link-local") else None
       end.

Definition safe_addr (raw : str) : result ConnectorError IpAddr :=
  let? ip := parse_host_addr raw in
  match unsafe_reason ip with
  | Some reason => Err (UnsafeAddress raw reason)
  | None => Ok ip
  end.

Definition validate_for_app (r : Resolution) (app : AppDef) : result ConnectorError () :=
  let? _ := reject_if (negb (bool_decide (normalise_host (host r) ∈ map normalise_host (exact_hostnames app))))
              (UnapprovedHost (host r)) in
  let? _ := reject_if (length (addrs r) =? 0)%nat (NoAddresses (host r)) in
  try_each (λ raw, let? _ := safe_addr raw in Ok ()) (addrs r).

Definition host_routes (addrs : list str) : result ConnectorError (list str) :=
  try_collect (λ raw, let? ip := safe_addr raw in
                      Ok (match ip with V4 _ => show_ip ip ++ lit "/32" | V6 _ => show_ip ip ++ lit "/128" end)) addrs.

(** Hash sets of texts, compared as sets. *)
Definition rebinding_detected (previous current : Resolution) : bool :=
  if negb (bool_decide (normalise_host (host previous) = normalise_host (host current))) then false
  else
    let old := map (λ a, to_ascii_lowercase (trim a)) (addrs previous) in
    let new := map (λ a, to_ascii_lowercase (trim a)) (addrs current) in
    negb (length old =? 0)%nat && negb (length new =? 0)%nat && forallb (λ a, negb (bool_decide (a ∈ new))) old.

(** A later resolution of the same host replaces an earlier one. *)
Definition index_resolutions (prior : list Resolution) : gmap str Resolution :=
  foldl (λ m r, <[normalise_host (host r) := r]> m) ∅ prior.

End AppDefs.

(** ** HTTPS services *)

Module Https.

Inductive ServiceError :=
| InvalidName (n : str) | NameCollision (n : str) | EmptyOrg | EmptyTarget | BadPort (p : Z) | BadRevision (r : Z)
| PrivateKeyPresent | BadCsr | BindingMismatch (expected found : str).

Record ServiceDef := mkServiceDef {
  org_id : str;
  service_name : str;
  target_node : str;
  port : Z;
  revision : Z
}.

Definition edge (b : Z) : bool := is_ascii_lowercase b || is_ascii_digit b.

Definition validate_service_name (name : str) (reserved : list str) : result ServiceError () :=
  let? _ := reject_if ((length name <? 3)%nat || (63 <? length name)%nat) (InvalidName name) in
  let? _ := reject_if (negb (edge (default 0 (head name))) || negb (edge (default 0 (last name)))) (InvalidName name) in
  let? _ := reject_if (negb (forallb (λ b, is_ascii_lowercase b || is_ascii_digit b || (b =? 45)) name)) (InvalidName name) in
  reject_if (seq_b name "localhost" || existsb (λ r, eq_ignore_ascii_case r name) reserved) (NameCollision name).

Definition validate_service (def : ServiceDef) (reserved : list str) : result ServiceError () :=
  let? _ := reject_if (length (trim (org_id def)) =? 0)%nat EmptyOrg in
  let? _ := reject_if (length (trim (target_node def)) =? 0)%nat EmptyTarget in
  let? _ := reject_if (port def =? 0) (BadPort (port def)) in
  let? _ := reject_if (revision def <? 1) (BadRevision (revision def)) in
  validate_service_name (service_name def) reserved.

Record CsrRequest := mkCsrRequest {
  csr_org_id : str;
  csr_service_name : str;
  csr_target_node : str;
  csr_pem : str;
  private_key : option str
}.

Definition validate_csr (r : CsrRequest) (reserved : list str) : result ServiceError () :=
  let? _ := reject_if (match private_key r with Some k => negb (length (trim k) =? 0)%nat | None => false end)
              PrivateKeyPresent in
  let? _ := reject_if (negb (contains_str (lit "BEGIN CERTIFICATE REQUEST") (csr_pem r))) BadCsr in
  let? _ := validate_service_name (csr_service_name r) reserved in
  let? _ := reject_if (length (trim (csr_org_id r)) =? 0)%nat EmptyOrg in
  reject_if (length (trim (csr_target_node r)) =? 0)%nat EmptyTarget.

Record CertBinding := mkCertBinding { b_org_id : str; b_service_name : str; b_node_id : str }.

Definition check_cert_binding (def : ServiceDef) (binding : CertBinding) : result ServiceError () :=
  try_each (λ '(expected, found, what),
              reject_if (negb (bool_decide (expected = found)))
                (BindingMismatch (what ++ lit "=" ++ expected) (what ++ lit "=" ++ found)))
    [(org_id def, b_org_id binding, lit "org"); (service_name def, b_service_name binding, lit "service");
     (target_node def, b_node_id binding, lit "node")].

(** ** The HTTPS fallback ladder *)

Definition LADDER_FAIL_THRESHOLD : Z := 3.

Inductive FallbackError := BadUrl (u : str) | NonHttps (u : str) | NonAuHost (u : str) | Credentials (u : str).

Inductive TransportLadder := Direct | UdpRelay | HttpsRelay.

Definition next_transport (current : TransportLadder) (direct_ok udp_ok : bool) (consecutive_failures : Z) : TransportLadder :=
  if consecutive_failures <? LADDER_FAIL_THRESHOLD then current
  else if direct_ok then Direct
  else if udp_ok then UdpRelay
  else HttpsRelay.

(** What the code reads of a parsed URL. *)
Record Url := mkUrl { scheme : str; host_str : option str; username : str; password : option str }.

Definition approved_endpoint (parse_url : str → option Url) (url : str) : result FallbackError () :=
  let? parsed := ok_or (parse_url url) (BadUrl url) in
  let? h := ok_or (host_str parsed) (NonAuHost url) in
  let h := to_ascii_lowercase h in
  let? _ := reject_if (negb (length (username parsed) =? 0)%nat || bool_decide (is_Some (password parsed))) (Credentials url) in
  let loopback := seq_b h "localhost" || seq_b h "127.0.0.1" in
  let? _ := reject_if (negb (seq_b (scheme parsed) "https") && negb (loopback && seq_b (scheme parsed) "http")) (NonHttps url) in
  if loopback then Ok ()
  else if seq_b h "au" || ends_with (lit ".au") h then Ok ()
  else Err (NonAuHost url).

End Https.
