(* ===== verification/RulesProps.v ===== *)
(** * What the coordinator's rule books guarantee

    An admission signature binds its statement, connector routes cover exactly the
    addresses they were made from, and approved HTTPS endpoints are Australian
    HTTPS origins. *)

From S2P Require Import Prelude Text Net Policy Ipam AclFilter ForwardFilter CoordAcl CoordForward CoordRules.
From S2P Require Import AclProps ForwardProps CoordProps CoordForwardProps.

(** ** Texts *)

Lemma app_sep_inj_r (c : Z) (a b a' b' : str) :
  c ∉ b → c ∉ b' → a ++ c :: b = a' ++ c :: b' → a = a' ∧ b = b'.
Proof.
  intros Hb Hb' Heq. apply (f_equal reverse) in Heq. rewrite !reverse_app !reverse_cons -!app_assoc in Heq.
  assert (∀ x y x' y' : str, c ∉ x → c ∉ x' → x ++ c :: y = x' ++ c :: y' → x = x' ∧ y = y') as Hsep.
  { clear. intros x. induction x as [|d x IH]; intros y [|d' x'] y' Hx Hx' He; cbn [app] in He.
    - by injection He as ->.
    - injection He as -> _. exfalso. apply Hx'. by constructor.
    - injection He as -> _. exfalso. apply Hx. by constructor.
    - injection He as <- He. apply not_elem_of_cons in Hx as [_ Hx], Hx' as [_ Hx'].
      by destruct (IH y x' y' Hx Hx' He) as [-> ->]. }
  apply Hsep in Heq as [H1 H2]; [|by rw elem_of_reverse..].
  split; by apply (inj reverse).
Qed.

Lemma dec_inj a b : 0 ≤ a → 0 ≤ b → dec a = dec b → a = b.
Proof.
  intros Ha Hb He. pose proof (parse_uint_dec (Z.max a b) a ltac:(lia)) as H1.
  pose proof (parse_uint_dec (Z.max a b) b ltac:(lia)) as H2. congruence.
Qed.

Lemma dec_signed_inj a b : dec_signed a = dec_signed b → a = b.
Proof.
  assert (∀ z, 0 ≤ z → head (dec z) ≠ Some 45) as Hd.
  { intros z Hz Hh. apply head_Some_elem_of in Hh. by apply (dec_not_in 45 z ltac:(lia) ltac:(lia)). }
  unfold dec_signed. destruct (Z.ltb_spec a 0), (Z.ltb_spec b 0); intros He.
  - injection He as He. apply dec_inj in He; lia.
  - exfalso. apply (Hd b ltac:(lia)). by rewrite -He.
  - exfalso. apply (Hd a ltac:(lia)). by rewrite He.
  - by apply dec_inj in He.
Qed.

Lemma dec_signed_no_bar z : 124 ∉ dec_signed z.
Proof.
  unfold dec_signed. case_match; to_prop; [|apply dec_not_in; lia].
  apply not_elem_of_cons. split; [done|apply dec_not_in; lia].
Qed.

(** Trimming drops white space only. *)
Lemma strip_one_split pats s r : strip_one pats s = Some r → ∃ p, p ∈ pats ∧ s = p ++ r.
Proof.
  induction pats as [|p pats IH]; cbn [strip_one]; [done|]. destruct (strip_prefix p s) as [t|] eqn:Hp.
  - intros [= ->]. apply strip_prefix_Some in Hp. exists p. split; [by constructor|done].
  - intros (q & Hq & ->)%IH. exists q. split; [by constructor|done].
Qed.

Lemma strip_many_elem c pats n s : Forall (λ p, c ∉ p) pats → c ∈ s → c ∈ strip_many pats n s.
Proof.
  intros Hp. revert s; induction n as [|n IH]; intros s Hc; cbn [strip_many]; [done|].
  destruct (strip_one pats s) as [r|] eqn:Hs; [|done]. apply IH. apply strip_one_split in Hs as (p & Hin & ->).
  rewrite Forall_forall in Hp. apply elem_of_app in Hc as [Hc|Hc]; [by apply Hp in Hc|done].
Qed.

Lemma trim_elem c s : Forall (λ p, c ∉ p) white_space → c ∈ s → c ∈ trim s.
Proof.
  intros Hw Hc. unfold trim, trim_start, trim_end. apply elem_of_reverse. apply strip_many_elem.
  - apply Forall_fmap. eapply Forall_impl; [exact Hw|]. intros p Hp. simpl. by rw elem_of_reverse.
  - apply elem_of_reverse. by apply strip_many_elem.
Qed.

(** ** Admission *)

Module AdmissionProps.
Import Admission.

(** The fields of a statement a coordinator writes. *)
Definition wf_statement (s : AdmissionStatement) : Prop :=
  is_u64 (epoch s) ∧ is_u32 (proto_version s) ∧
  wf_bytes (org_id s) ∧ wf_bytes (node_id s) ∧ wf_bytes (pubkey_b64 s).

Lemma wf_dec z : 0 ≤ z → wf_bytes (dec z).
Proof. intros Hz. eapply Forall_impl; [by apply dec_digits|]. unfold is_u8, U8_MAX. simpl. lia. Qed.

Lemma wf_dec_signed z : wf_bytes (dec_signed z).
Proof.
  unfold dec_signed. case_match; to_prop; [|apply wf_dec; lia]. constructor; [by vm_compute|apply wf_dec; lia].
Qed.

Lemma wf_check s : forallb (λ c, (0 <=? c) && (c <=? 255)) s = true → wf_bytes s.
Proof. rw forallb_forall. intros Hs. apply Forall_forall. intros c Hc%list_elem_of_In%Hs. to_prop. unfold is_u8, U8_MAX. lia. Qed.

Lemma canonical_wf s : wf_statement s → wf_bytes (canonical s).
Proof.
  intros (He & Hv & Ho & Hn & Hk). unfold canonical.
  repeat (apply Forall_app; split); first [assumption|apply wf_dec_signed|apply wf_dec; mlia|by apply wf_check].
Qed.

Lemma canonical_inj s t :
  wf_statement s → wf_statement t → 124 ∉ pubkey_b64 s → 124 ∉ pubkey_b64 t → org_id s = org_id t →
  canonical s = canonical t → s = t.
Proof.
  intros (He & Hv & _) (He' & Hv' & _) Hk Hk' Ho Hc. destruct s as [o n k e f w v], t as [o' n' k' e' f' w' v'].
  cbn [org_id node_id pubkey_b64 epoch valid_from valid_to proto_version] in *. subst o'. unfold canonical in Hc.
  cbn [org_id node_id pubkey_b64 epoch valid_from valid_to proto_version] in Hc. change (lit "|") with [124] in Hc.
  cbn [app] in Hc. apply app_inv_head, app_inv_head in Hc. injection Hc as Hc.
  assert (∀ n k e f w v : str, n ++ 124 :: k ++ 124 :: e ++ 124 :: f ++ 124 :: w ++ 124 :: v =
    ((((n ++ 124 :: k) ++ 124 :: e) ++ 124 :: f) ++ 124 :: w) ++ 124 :: v) as Hassoc.
  { intros. by rewrite -!app_assoc. }
  rewrite !Hassoc in Hc.
  apply app_sep_inj_r in Hc as [Hc Hv1]; [|apply dec_not_in; mlia..].
  apply app_sep_inj_r in Hc as [Hc Hw1]; [|apply dec_signed_no_bar..].
  apply app_sep_inj_r in Hc as [Hc Hf1]; [|apply dec_signed_no_bar..].
  apply app_sep_inj_r in Hc as [Hc He1]; [|apply dec_not_in; mlia..].
  apply app_sep_inj_r in Hc as [-> ->]; [|done..].
  apply dec_inj in Hv1, He1; [|mlia..]. apply dec_signed_inj in Hw1, Hf1. by subst.
Qed.

Lemma encode_decode bs : wf_bytes bs → decode_pairs (encode_hex bs) = Ok bs.
Proof.
  induction 1 as [|b bs Hb Hbs IH]; [done|]. cbn [encode_hex flat_map app decode_pairs].
  assert (∀ d, 0 ≤ d < 16 → nybble (from_digit d) = Ok d) as Hn.
  { intros d Hd. unfold nybble, from_digit. destruct (Z.ltb_spec d 10).
    - rw (proj2 (Z.leb_le 48 _)); [|lia]. rw (proj2 (Z.leb_le _ 57)); [|lia]. simpl. f_equal. lia.
    - rw (proj2 (Z.leb_gt _ 57)); [|lia]. rw andb_false_r. rw (proj2 (Z.leb_le 97 _)); [|lia].
      rw (proj2 (Z.leb_le _ 102)); [|lia]. simpl. f_equal. lia. }
  assert (Z.shiftr b 4 = b / 16) as Hs by (rewrite Z.shiftr_div_pow2; [done|lia]).
  assert (Z.land b 0x0f = b mod 16) as Hl by (rewrite -(Z.land_ones b 4); [done|lia]).
  unfold is_u8, U8_MAX in Hb. rw Hs Hl Hn; [|split; [apply Z.div_pos; lia|apply Z.div_lt_upper_bound; lia]].
  rw Hn; [|apply Z.mod_pos_bound; lia]. cbn [result_bind]. fold (encode_hex bs). rw IH. cbn [result_bind]. do 2 f_equal.
  rewrite Z.shiftl_mul_pow2; [|lia]. change (2 ^ 4) with 16.
  assert (Z.land (b / 16 * 16) (b mod 16) = 0) as Hz.
  { apply Z.bits_inj'. intros i Hi. rewrite Z.land_spec Z.bits_0. destruct (Z.ltb_spec i 4).
    - change 16 with (2 ^ 4) at 2. rewrite Z.mul_pow2_bits_low //.
    - rewrite andb_comm. change 16 with (2 ^ 4) at 1. rewrite Z.mod_pow2_bits_high; [done|lia]. }
  rewrite -Z.lxor_lor // -Z.add_nocarry_lxor //. pose proof (Z_div_mod_eq_full b 16). lia.
Qed.

Lemma encode_hex_graphic bs : wf_bytes bs → Forall graphic (encode_hex bs) ∧ length (encode_hex bs) = (2 * length bs)%nat.
Proof.
  induction 1 as [|b bs Hb Hbs [IH Hl]]; [done|]. cbn [encode_hex flat_map app length]. fold (encode_hex bs). split; [|lia].
  assert (∀ d, 0 ≤ d < 16 → graphic (from_digit d)) as Hg.
  { intros d Hd. unfold graphic, from_digit. case_match; to_prop; lia. }
  unfold is_u8, U8_MAX in Hb. apply Forall_cons_2; [|apply Forall_cons_2; [|done]].
  - apply Hg. rewrite Z.shiftr_div_pow2; [|lia]. change (2 ^ 4) with 16. split; [apply Z.div_pos; lia|apply Z.div_lt_upper_bound; lia].
  - apply Hg. assert (Z.land b 0x0f = b mod 16) as -> by (rewrite -(Z.land_ones b 4); [done|lia]). apply Z.mod_pos_bound; lia.
Qed.

Lemma decode_encode bs : wf_bytes bs → bs ≠ [] → decode_hex (trim (encode_hex bs)) = Ok bs.
Proof.
  intros Hb Hn. pose proof (encode_hex_graphic bs Hb) as [Hg Hl]. rw trim_graphic //. unfold decode_hex. rw Hl Nat.even_mul.
  simpl. destruct bs; [done|]. by apply encode_decode.
Qed.

Section admission.
Context (hmac : bytes → str → bytes) (base64_ok : str → bool).
Context (hmac_bytes : ∀ k m, wf_bytes (hmac k m) ∧ hmac k m ≠ []).
Context (hmac_binds : ∀ k m m', wf_bytes m → wf_bytes m' → hmac k m = hmac k m' → m = m').
Context (base64_alphabet : ∀ s, base64_ok s = true → 124 ∉ s).

Lemma verified stmt sig secret org min_epoch now :
  verify_admission hmac base64_ok stmt sig secret org min_epoch now = Ok () ↔
  secret ≠ [] ∧ base64_ok (trim (pubkey_b64 stmt)) = true ∧ decode_hex (trim sig) = Ok (hmac secret (canonical stmt)) ∧
  org_id stmt = org ∧ proto_version stmt = ADMISSION_PROTO_VERSION ∧ min_epoch ≤ epoch stmt ∧
  valid_from stmt ≤ now ≤ valid_to stmt.
Proof using.
  unfold verify_admission. rw !then_ok !reject_if_ok. destruct (decode_hex (trim sig)) as [p|e]; cbn [result_bind].
  2: { split; [by intros (_ & _ & ?)|]. by intros (_ & _ & ? & _). }
  rw !then_ok !reject_if_ok !negb_false_iff !bool_decide_eq_true Z.eqb_eq Nat.eqb_neq orb_false_iff !Z.ltb_ge length_zero_iff_nil.
  split; [intros (? & ? & -> & ? & ? & ? & ? & ?)|intros (? & ? & [= ->] & ? & ? & ? & ?)]; split_and!; try done; lia.
Qed.

(** A signature admits the node it was made for and no other: a signature made
    for one statement verifies for another statement of the same organisation only
    if the two are the same, within the version, epoch and time the verifier
    accepts; and for its own statement it does verify there. *)
Theorem admission_binds_statement (signed stmt : AdmissionStatement) (secret : bytes) (org : str) (min_epoch now : Z)
    (Hsecret : secret ≠ []) (Hwf : wf_statement signed ∧ wf_statement stmt)
    (Hkey : base64_ok (trim (pubkey_b64 signed)) = true) (Horg : org_id signed = org) :
  verify_admission hmac base64_ok stmt (sign_admission hmac signed secret) secret org min_epoch now = Ok () ↔
  stmt = signed ∧ proto_version stmt = ADMISSION_PROTO_VERSION ∧ min_epoch ≤ epoch stmt ∧
  valid_from stmt ≤ now ≤ valid_to stmt.
Proof using hmac_bytes hmac_binds base64_alphabet.
  destruct (hmac_bytes secret (canonical signed)) as [Hb Hn]. rw verified.
  assert (decode_hex (trim (sign_admission hmac signed secret)) = Ok (hmac secret (canonical signed))) as ->
    by by apply decode_encode.
  assert (∀ s, base64_ok (trim (pubkey_b64 s)) = true → 124 ∉ pubkey_b64 s) as Hbar.
  { intros s Hs Hin. apply (base64_alphabet _ Hs). apply trim_elem; [|done]. by apply (bool_decide_unpack _); vm_compute. }
  split.
  - intros (_ & Hk & Hc & Ho & Hrest). split; [|done]. injection Hc as Hc. apply hmac_binds in Hc; [|apply canonical_wf, Hwf..].
    symmetry. apply canonical_inj; [apply Hwf..|by apply Hbar|by apply Hbar|congruence|done].
  - intros (-> & Hrest). by split_and!; try apply Hrest.
Qed.

End admission.

(** The separator is not escaped: with a bar in the organisation id, the
    signature of a statement for one organisation admits another node to another
    organisation. *)
Theorem separator_crosses_orgs (hmac : bytes → str → bytes) (base64_ok : str → bool) :
  let signed := mkAdmissionStatement (lit "a|b") (lit "c") (lit "AAAA") 1 0 10 1 in
  let other := mkAdmissionStatement (lit "a") (lit "b|c") (lit "AAAA") 1 0 10 1 in
  ∀ secret sig, verify_admission hmac base64_ok signed sig secret (lit "a|b") 0 5 =
                verify_admission hmac base64_ok other sig secret (lit "a") 0 5.
Proof.
  intros signed other secret sig. unfold verify_admission. change (canonical other) with (canonical signed).
  change (pubkey_b64 other) with (pubkey_b64 signed). by repeat (destruct (reject_if _ _); [|done]; cbn [result_bind]).
Qed.

(** An injective stand-in for the tag of a message. *)
Definition tag_sample (key : bytes) (m : str) : bytes := 1 :: map (λ c, c mod 256) m.

Lemma admission_binds_statement_witness :
  let signed := mkAdmissionStatement (lit "org") (lit "node") (lit "AAAA") 3 0 10 1 in
  verify_admission tag_sample (λ s, seq_b s "AAAA") signed (sign_admission tag_sample signed [1]) [1] (lit "org") 2 5 = Ok ().
Proof.
  intros signed. apply (admission_binds_statement tag_sample (λ s, seq_b s "AAAA")).
  - intros k m. split; [|done]. constructor; [by vm_compute|]. apply Forall_fmap, Forall_forall. intros c _. simpl.
    unfold is_u8, U8_MAX. pose proof (Z.mod_pos_bound c 256). lia.
  - intros k m m' Hm Hm' He. injection He as He. revert m' Hm' He.
    induction Hm as [|c m Hc Hm IH]; intros [|c' m'] Hm' He; [done..|]. apply Forall_cons in Hm' as [Hc' Hm'].
    cbn [map] in He. injection He as Hcc He. unfold is_u8, U8_MAX in *. rewrite !Z.mod_small in Hcc; [|lia..]. subst c'.
    f_equal. by apply IH.
  - intros s Hs. unfold seq_b in Hs. apply bool_decide_eq_true in Hs as ->. by apply contains_char_false.
  - done.
  - split; (split_and!; [by vm_compute..|by apply wf_check|by apply wf_check|by apply wf_check]).
  - reflexivity.
  - reflexivity.
  - split_and!; [reflexivity|reflexivity|by vm_compute..].
Defined.
End AdmissionProps.

(** ** Connector routes *)

Module AppDefsProps.
Import AppDefs.

Definition route_of (ip : IpAddr) : str := match ip with V4 _ => show_ip ip ++ lit "/32" | V6 _ => show_ip ip ++ lit "/128" end.

Lemma parse_host_addr_wf raw ip : parse_host_addr raw = Ok ip → wf_ip ip.
Proof.
  unfold parse_host_addr. destruct (split_once 47 (trim raw)) as [[a b]|].
  - destruct (parse_ip (trim a)) as [v|] eqn:Hp; simpl; [|done]. destruct (parse_u8 (trim b)); simpl; [|done].
    case_match; [done|]. intros [= <-]. by eapply parse_ip_wf.
  - destruct (parse_ip (trim raw)) as [v|] eqn:Hp; simpl; [|done]. intros [= <-]. by eapply parse_ip_wf.
Qed.

(** The route of an address covers that address and no other. *)
Lemma route_of_exact ip a : wf_ip ip → wf_ip a → text_contains (route_of ip) a = bool_decide (a = ip).
Proof.
  intros Hip Ha. set (b := (address_bits ip, bits_of (is_ipv4 ip))).
  assert (route_of ip = show_block (is_ipv4 ip) b) as -> by by destruct ip.
  pose proof (bits_range ip Hip) as Hr. assert (aligned (bits_of (is_ipv4 ip)) b.1 b.2) as Hal.
  { split; [split; simpl; [done|pose proof (bits_pos (is_ipv4 ip)); lia]|]. simpl. rewrite Z.sub_diag. apply Z.mod_1_r. }
  unfold text_contains. rw parse_show_block //. simpl.
  destruct (decide (is_ipv4 a = is_ipv4 ip)) as [Hf|Hf].
  - rw contains_block //; [|apply Hal]. unfold in_block. simpl. rewrite Z.sub_diag !Z.div_1_r.
    rewrite (addr_bits a) (addr_bits ip) Hf. apply eq_true_iff_eq. rw Z.eqb_eq bool_decide_eq_true.
    destruct (is_ipv4 ip); simpl; split; congruence.
  - rw bool_decide_false; [by destruct ip, a|]. by intros ->.
Qed.

(** The routes rendered for a resolution are exactly its addresses: each answer
    is one host, none is refused as unsafe, and its route covers that address and
    no other. *)
Theorem host_routes_exact (addrs routes : list str) (Hroutes : host_routes addrs = Ok routes) :
  Forall2 (λ raw route, ∃ ip, parse_host_addr raw = Ok ip ∧ unsafe_reason ip = None ∧
             ∀ a, wf_ip a → text_contains route a = bool_decide (a = ip)) addrs routes.
Proof.
  unfold host_routes in Hroutes. apply try_collect_ok in Hroutes. eapply Forall2_impl; [exact Hroutes|].
  intros raw route Hr. simpl in Hr. unfold safe_addr in Hr. destruct (parse_host_addr raw) as [ip|] eqn:Hp; simpl in Hr; [|done].
  destruct (unsafe_reason ip) eqn:Hu; simpl in Hr; [done|]. injection Hr as <-. exists ip. split_and!; [done..|].
  intros a Ha. apply (route_of_exact ip a); [by eapply parse_host_addr_wf|done].
Qed.

Lemma host_routes_exact_witness :
  ∃ ip, parse_host_addr (lit " 203.0.113.9/32 ") = Ok ip ∧ text_contains (lit "203.0.113.9/32") ip = true.
Proof.
  assert (host_routes [lit " 203.0.113.9/32 "] = Ok [lit "203.0.113.9/32"]) as Hr by (vm_compute; reflexivity).
  pose proof (host_routes_exact _ _ Hr) as Hall. inversion Hall as [|? ? ? ? (ip & Hp & _ & Hc) _]; subst.
  exists ip. split; [exact Hp|]. rewrite Hc; [|by eapply parse_host_addr_wf]. by apply bool_decide_eq_true.
Defined.

(** The cloud metadata address passes the checks when it is written as an
    IPv4-mapped IPv6 address, and so do loopback and link-local ones. *)
Theorem mapped_addresses_accepted :
  let app := mkAppDef (lit "files") [lit "files.example.org"] [443] [lit "tcp"] in
  validate_app app = Ok () ∧
  validate_for_app (mkResolution (lit "files.example.org")
    [lit "::ffff:169.254.169.254"; lit "::ffff:127.0.0.1"; lit "::ffff:169.254.1.1"]) app = Ok () ∧
  host_routes [lit "::ffff:169.254.169.254"] = Ok [lit "::ffff:169.254.169.254/128"].
Proof. split_and!; vm_compute; reflexivity. Qed.

(** Rebinding compares spellings: one address written as a host and as a host
    route counts as two. *)
Lemma rebinding_compares_spellings :
  rebinding_detected (mkResolution (lit "h.example") [lit "203.0.113.9"]) (mkResolution (lit "h.example") [lit "203.0.113.9/32"]) = true.
Proof. vm_compute. reflexivity. Qed.

End AppDefsProps.

(** ** HTTPS origins *)

Module HttpsProps.
Import Https.

Lemma approved_endpoint_exact parse_url url :
  approved_endpoint parse_url url = Ok () ↔
  ∃ u h, parse_url url = Some u ∧ host_str u = Some h ∧ username u = [] ∧ password u = None ∧
    let h := to_ascii_lowercase h in
    let loopback := h = lit "localhost" ∨ h = lit "127.0.0.1" in
    (scheme u = lit "https" ∨ (loopback ∧ scheme u = lit "http")) ∧
    (loopback ∨ h = lit "au" ∨ ends_with (lit ".au") h = true).
Proof.
  unfold approved_endpoint. destruct (parse_url url) as [u|]; simpl; [|split; [done|naive_solver]].
  destruct (host_str u) as [h|] eqn:Hh; simpl; [|split; [done|naive_solver]].
  rw !then_ok !reject_if_ok orb_false_iff negb_false_iff Nat.eqb_eq length_zero_iff_nil bool_decide_eq_false.
  unfold seq_b. set (g := to_ascii_lowercase h). rewrite -eq_None_not_Some.
  assert (∀ P Q : bool, P && Q = false ↔ P = false ∨ Q = false) as Hand by (intros [] []; naive_solver).
  rw Hand !negb_false_iff andb_true_iff orb_true_iff !bool_decide_eq_true.
  destruct (bool_decide (g = lit "localhost") || bool_decide (g = lit "127.0.0.1")) eqn:Hl.
  - apply orb_true_iff in Hl. rewrite !bool_decide_eq_true in Hl. naive_solver.
  - apply orb_false_iff in Hl as [H1%bool_decide_eq_false H2%bool_decide_eq_false].
    destruct (bool_decide (g = lit "au") || ends_with (lit ".au") g) eqn:Ha.
    + apply orb_true_iff in Ha. rewrite bool_decide_eq_true in Ha. naive_solver.
    + apply orb_false_iff in Ha as [H3%bool_decide_eq_false H4]. split; [naive_solver|].
      intros (u' & h' & [= <-] & Hh' & _ & _ & _ & Hend). rewrite Hh in Hh'. injection Hh' as <-. fold g in Hend. destruct Hend as [[?|?]|[?|?]]; congruence.
Qed.

End HttpsProps.

(** ** Permissions *)

(** What only an owner may do, and the order of the other roles: a network
    administrator may do nothing an administrator may not, and everybody may do
    what a member may. *)
Lemma role_order :
  (∀ p, (∀ r, can r p = true → r = Owner) ↔ p ∈ [ManageSecurity; ManageApiClients; ManageRemoteJobs; ManagePublicIngress]) ∧
  (∀ p, can NetworkAdmin p = true → can Admin p = true) ∧
  (∀ p r, can Member p = true → can r p = true).
Proof.
  split_and!; [|by intros []|by intros [] []]. intros p. rw !elem_of_cons elem_of_nil. split.
  - intros Hr. destruct p; auto; first [discriminate (Hr Admin eq_refl)|discriminate (Hr Auditor eq_refl)].
  - intros Hp r. destruct p; try (by naive_solver); by destruct r.
Qed.
