(* ===== verification/Ingress.v ===== *)
(** * The public ingress

    [blaktail-ingress/src]: the rate limiter ([limits.rs]), the table of live
    routes ([routes.rs]), header hygiene ([headers.rs]), the session cookie of the
    identity gate ([oidc.rs]) and the decisions the proxy makes about a request
    before it connects ([proxy.rs]).

    A live route is shared by the table, open requests and tunnels, so the table
    maps names to handles into a store of routes, and two handles are equal exactly
    when [Arc::ptr_eq] holds.  Instants are integers in nanoseconds.  Header maps,
    header values, URL and authority parsing, HMAC, base64 and JSON are of other
    crates: they are classes and arguments here. *)

From S2P Require Import Prelude Text Net Float64 Policy Ipam CoordAcl.

(** ** Rate limiting *)

Module Limits.

Definition MAX_TRACKED_CLIENTS : nat := Z.to_nat 10000.
Definition ROUTE_FACTOR : f64 := f64_of_Z 100.

Record Bucket := mkBucket { tokens : f64; updated : Z }.

Definition full (capacity : f64) (now : Z) : Bucket := mkBucket capacity now.

Definition take (b : Bucket) (rate capacity : f64) (now : Z) : Bucket * bool :=
  let elapsed := as_secs_f64 (duration_since now (updated b)) in
  let t := f64_min (f64_add (tokens b) (f64_mul elapsed rate)) capacity in
  if f64_leb (f64_of_Z 1) t then (mkBucket (f64_sub t (f64_of_Z 1)) now, true)
  else (mkBucket t now, false).

Record RateLimiter := mkRateLimiter {
  rate : f64;
  capacity : f64;
  clients : gmap IpAddr Bucket;
  route_bucket : Bucket
}.

Definition client_key (ip : IpAddr) : IpAddr :=
  match ip with
  | V6 v6 => match to_ipv4_mapped v6 with
             | Some v4 => V4 v4
             | None => V6 (Z.land v6 0xffffffffffffffff0000000000000000)
             end
  | V4 _ => ip
  end.

Definition per_minute (requests : Z) (now : Z) : RateLimiter :=
  let rate := f64_div (f64_of_Z (Z.max requests 1)) (f64_of_Z 60) in
  let capacity := f64_max (f64_mul rate (f64_of_Z 10)) (f64_of_Z 1) in
  mkRateLimiter rate capacity ∅ (full (f64_mul capacity ROUTE_FACTOR) now).

(** [iter().min_by_key(..)]: the first entry of the visit with the least key. *)
Definition min_by_updated (l : list (IpAddr * Bucket)) : option IpAddr :=
  fst <$> foldl (λ best x, match best with
                           | None => Some x
                           | Some b => Some (if updated x.2 <? updated b.2 then x else b)
                           end) None l.

Definition not_refilled (l : RateLimiter) (now : Z) (b : Bucket) : bool :=
  f64_ltb (f64_add (tokens b) (f64_mul (as_secs_f64 (duration_since now (updated b))) (rate l))) (capacity l).

Definition make_room {HI : HashIter IpAddr} (l : RateLimiter) (client : IpAddr) (now : Z) : gmap IpAddr Bucket :=
  if bool_decide (is_Some (clients l !! client)) || (size (clients l) <? MAX_TRACKED_CLIENTS)%nat then clients l
  else
    let kept := filter (λ e, not_refilled l now e.2 = true) (clients l) in
    if (size kept <? MAX_TRACKED_CLIENTS)%nat then kept
    else match min_by_updated (hash_iter kept) with
         | Some oldest => delete oldest kept
         | None => kept
         end.

Definition allow_at {HI : HashIter IpAddr} (l : RateLimiter) (client : IpAddr) (now : Z) : RateLimiter * bool :=
  let client := client_key client in
  let cs := make_room l client now in
  let '(b, allowed) := take (default (full (capacity l) now) (cs !! client)) (rate l) (capacity l) now in
  let cs := <[client := b]> cs in
  if allowed then
    let '(rb, ok) := take (route_bucket l) (f64_mul (rate l) ROUTE_FACTOR) (f64_mul (capacity l) ROUTE_FACTOR) now in
    (mkRateLimiter (rate l) (capacity l) cs rb, ok)
  else (mkRateLimiter (rate l) (capacity l) cs (route_bucket l), false).

End Limits.

(** ** Routes *)

Module Routes.
Import Limits.

Record RouteConfig := mkRouteConfig {
  id : str;
  fqdn : str;
  target_address : str;
  target_port : Z;
  tls_mode : str;
  auth_mode : str;
  allowed_email_domains : list str;
  allowed_source_cidrs : list str;
  rate_limit_per_minute : Z;
  max_body_bytes : Z;
  max_connections : Z;
  log_retention_days : Z;
  revision : Z
}.

#[export] Instance RouteConfig_eq_dec : EqDecision RouteConfig.
Proof. solve_decision. Defined.

Record IngressConfig := mkIngressConfig {
  cfg_revision : Z;
  stale_after_secs : Z;
  cfg_routes : list RouteConfig
}.

Definition parse_cidr (cidr : str) : option (IpAddr * Z) :=
  '(address, prefix) ← split_once 47 cidr;
  address ← parse_ip address;
  prefix ← parse_u8 prefix;
  let max := if is_ipv4 address then 32 else 128 in
  if prefix <=? max then Some (address, prefix) else None.

Definition cidr_contains (network : IpAddr) (prefix : Z) (ip : IpAddr) : bool :=
  match network, ip with
  | V4 n, V4 i => Z.land n (prefix_mask 32 prefix) =? Z.land i (prefix_mask 32 prefix)
  | V6 n, V6 i => Z.land n (prefix_mask 128 prefix) =? Z.land i (prefix_mask 128 prefix)
  | _, _ => false
  end.

Abbreviation TargetPolicy := (list (IpAddr * Z)).

Definition default_policy : TargetPolicy := [(V4 (from_be [100; 64; 0; 0]), 10)].

Definition policy_new (cidrs : list str) : result str TargetPolicy :=
  if (length cidrs =? 0)%nat then Ok default_policy
  else try_collect (λ cidr, ok_or (parse_cidr cidr) cidr) cidrs.

Definition permits (p : TargetPolicy) (ip : IpAddr) : bool := existsb (λ e, cidr_contains e.1 e.2 ip) p.

(** The [watch] channel behind [revoked]: the value and how many receivers there
    are.  [send] stores nothing when there is none. *)
Record Watch := mkWatch { value : bool; receivers : nat }.

Definition send (w : Watch) (v : bool) : Watch := if (receivers w =? 0)%nat then w else mkWatch v (receivers w).
Definition subscribe (w : Watch) : Watch := mkWatch (value w) (S (receivers w)).

Record LiveRoute := mkLiveRoute {
  config : RouteConfig;
  target : SocketAddr;
  sources : list (IpAddr * Z);
  limiter : RateLimiter;
  permits_left : Z;
  revoked : Watch
}.

Definition clamp (lo hi v : Z) : Z := Z.max lo (Z.min hi v).

Definition live_new (c : RouteConfig) (target : SocketAddr) (sources : list (IpAddr * Z)) (now : Z) : LiveRoute :=
  mkLiveRoute c target sources (per_minute (clamp 1 60000 (rate_limit_per_minute c)) now)
    (clamp 1 4096 (max_connections c)) (mkWatch false 0).

Definition source_allowed (r : LiveRoute) (client : IpAddr) : bool :=
  let client := to_canonical client in
  (length (sources r) =? 0)%nat || existsb (λ e, cidr_contains e.1 e.2 client) (sources r).

Definition max_body (r : LiveRoute) : Z := if max_body_bytes (config r) <? 0 then 0 else max_body_bytes (config r).
Definition oidc (r : LiveRoute) : bool := seq_b (auth_mode (config r)) "oidc".

Record RouteTable := mkRouteTable {
  store : gmap nat LiveRoute;
  next_handle : nat;
  routes : gmap str nat;
  fresh_until : option Z;
  table_revision : Z;
  policy : TargetPolicy
}.

Definition table_new (p : TargetPolicy) : RouteTable := mkRouteTable ∅ 0 ∅ None 0 p.

Record ApplyOutcome := mkApplyOutcome { served : list str; refused : list (str * str) }.

(** What the loop of [apply] carries: the outcome, the next table, the store. *)
Record Applying := mkApplying {
  ap_served : list str;
  ap_refused : list (str * str);
  ap_next : gmap str nat;
  ap_store : gmap nat LiveRoute;
  ap_handle : nat
}.

Definition refuse (acc : Applying) (r : RouteConfig) (why : string) : Applying :=
  mkApplying (ap_served acc) (ap_refused acc ++ [(id r, lit why)]) (ap_next acc) (ap_store acc) (ap_handle acc).

Definition route_target (p : TargetPolicy) (r : RouteConfig) : option SocketAddr :=
  ip ← parse_ip (target_address r);
  if permits p ip && negb (target_port r =? 0) then Some (mkSocketAddr ip (target_port r)) else None.

Definition apply_route (t : RouteTable) (now : Z) (acc : Applying) (r : RouteConfig) : Applying :=
  let name := to_ascii_lowercase (fqdn r) in
  match route_target (policy t) r with
  | None => refuse acc r "target is outside the overlay address range this ingress may dial"
  | Some target_ =>
      match mapM parse_cidr (allowed_source_cidrs r) with
      | None => refuse acc r "route has an invalid allowed client network"
      | Some sources =>
          let existing :=
            h ← routes t !! name;
            old ← ap_store acc !! h;
            if bool_decide (config old = r) && bool_decide (target old = target_) then Some h else None in
          match existing with
          | Some h =>
              mkApplying (ap_served acc ++ [name]) (ap_refused acc) (<[name := h]> (ap_next acc)) (ap_store acc)
                (ap_handle acc)
          | None =>
              mkApplying (ap_served acc ++ [name]) (ap_refused acc) (<[name := ap_handle acc]> (ap_next acc))
                (<[ap_handle acc := live_new r target_ sources now]> (ap_store acc)) (S (ap_handle acc))
          end
      end
  end.

Definition set_revoked (r : LiveRoute) (w : Watch) : LiveRoute :=
  mkLiveRoute (config r) (target r) (sources r) (limiter r) (permits_left r) w.

(** [old.revoked.send(true)] on the routes behind these handles. *)
Definition revoke_all (s : gmap nat LiveRoute) (handles : list nat) : gmap nat LiveRoute :=
  foldl (λ s h, alter (λ r, set_revoked r (send (revoked r) true)) h s) s handles.

(** Handles of the old table the new one does not keep under their name. *)
Definition withdrawn {HI : HashIter str} (t : RouteTable) (next : gmap str nat) : list nat :=
  map snd (List.filter (λ e, negb (bool_decide (next !! e.1 = Some e.2))) (hash_iter (routes t))).

(** [sort] on strings: byte order. *)
Fixpoint sort_insert (x : str) (l : list str) : list str :=
  match l with
  | [] => [x]
  | y :: r => if BTree.str_ltb y x then y :: sort_insert x r else x :: l
  end.
Definition sort (l : list str) : list str := foldr sort_insert [] l.

Definition apply {HI : HashIter str} (t : RouteTable) (now : Z) (c : IngressConfig) : RouteTable * ApplyOutcome :=
  let acc := foldl (apply_route t now) (mkApplying [] [] ∅ (store t) (next_handle t)) (cfg_routes c) in
  (mkRouteTable (revoke_all (ap_store acc) (withdrawn t (ap_next acc))) (ap_handle acc) (ap_next acc)
     (Some (now + secs (Z.min (stale_after_secs c) 30))) (cfg_revision c) (policy t),
   mkApplyOutcome (sort (ap_served acc)) (ap_refused acc)).

Definition confirm (t : RouteTable) (now stale_after : Z) : RouteTable :=
  mkRouteTable (store t) (next_handle t) (routes t) (Some (now + Z.min stale_after (secs 30))) (table_revision t) (policy t).

Definition clear {HI : HashIter str} (t : RouteTable) : RouteTable :=
  mkRouteTable (revoke_all (store t) (map snd (hash_iter (routes t)))) (next_handle t) ∅ None (table_revision t) (policy t).

Definition is_fresh (t : RouteTable) (now : Z) : bool :=
  match fresh_until t with Some until => now <? until | None => false end.

Definition get (t : RouteTable) (now : Z) (host : str) : option nat :=
  if negb (is_fresh t now) then None else routes t !! to_ascii_lowercase host.

Definition subscribe_revoked (t : RouteTable) (h : nat) : RouteTable :=
  mkRouteTable (alter (λ r, set_revoked r (subscribe (revoked r))) h (store t)) (next_handle t) (routes t) (fresh_until t)
    (table_revision t) (policy t).

(** The check a tunnel makes every second: its route is still the one served. *)
Definition still_live (t : RouteTable) (now : Z) (h : nat) : bool :=
  match store t !! h with
  | Some r => bool_decide (get t now (fqdn (config r)) = Some h)
  | None => false
  end.

End Routes.

(** ** Headers *)

(** What the code uses of [http::HeaderMap] and [HeaderValue]: values by lower-case
    name, in order; a value is its bytes, [visible] says whether [to_str] succeeds,
    [valid_value] whether [from_str] does, [header_name] is
    [HeaderName::from_bytes]. *)
Class HeaderMapOps := {
  HeaderMap : Type;
  entries : HeaderMap → list (str * str);
  remove : HeaderMap → str → HeaderMap;
  insert : HeaderMap → str → str → HeaderMap;
  header_name : str → option str;
  visible : str → bool;
  valid_value : str → bool
}.

Definition get_all `{HeaderMapOps} (h : HeaderMap) (name : str) : list str :=
  map snd (List.filter (λ e, bool_decide (e.1 = name)) (entries h)).

Class HeaderMapLaws `{HeaderMapOps} := {
  remove_get : ∀ h n m, get_all (remove h n) m = if bool_decide (m = n) then [] else get_all h m;
  insert_get : ∀ h n v m, get_all (insert h n v) m = if bool_decide (m = n) then [v] else get_all h m;
  graphic_valid : ∀ s, Forall graphic s → valid_value s = true
}.

Module Headers.
Section headers.
Context `{HeaderMapOps}.

Definition SESSION_COOKIE : str := lit "__Host-blaktail-ingress".
Definition FLOW_COOKIE : str := lit "__Host-blaktail-ingress-flow".
Definition USER_HEADER : str := lit "x-blaktail-user".

Definition HOP_BY_HOP : list str :=
  [lit "connection"; lit "keep-alive"; lit "proxy-connection"; lit "proxy-authenticate"; lit "proxy-authorization";
   lit "te"; lit "trailer"; lit "transfer-encoding"; lit "upgrade"].

Definition CLIENT_SUPPLIED_FORWARDING : list str :=
  [lit "forwarded"; lit "x-forwarded-for"; lit "x-forwarded-host"; lit "x-forwarded-proto"; lit "x-forwarded-port";
   lit "x-forwarded-prefix"; lit "x-real-ip"; lit "x-original-url"; lit "x-rewrite-url"].

Definition RESPONSE_BANNERS : list str :=
  [lit "server"; lit "x-powered-by"; lit "via"; lit "x-aspnet-version"; lit "x-aspnetmvc-version";
   lit "x-backend-server"; lit "x-served-by"; lit "x-upstream"; lit "x-forwarded-for"; lit "x-real-ip"].

Definition remove_all (h : HeaderMap) (names : list str) : HeaderMap := foldl remove h names.

(** The values of a header that are text, split at a separator. *)
Definition tokens_of (h : HeaderMap) (name : str) (sep : Z) : list str :=
  flat_map (split sep) (List.filter visible (get_all h name)).

Definition connection_named (h : HeaderMap) : list str :=
  omap (λ name, header_name (trim name)) (tokens_of h (lit "connection") 44).

Definition strip_hop_by_hop (h : HeaderMap) : HeaderMap :=
  remove_all (remove_all h (connection_named h)) HOP_BY_HOP.

Definition is_websocket (h : HeaderMap) : bool :=
  let upgrade := match head (get_all h (lit "upgrade")) with
                 | Some v => visible v && eq_ignore_ascii_case (trim v) (lit "websocket")
                 | None => false
                 end in
  upgrade && existsb (λ token, eq_ignore_ascii_case (trim token) (lit "upgrade")) (tokens_of h (lit "connection") 44).

Definition own_cookie (pair : str) : bool := starts_with (lit "__Host-blaktail-ingress") pair.

Definition kept_cookies (h : HeaderMap) : list str :=
  List.filter (λ pair, negb (length pair =? 0)%nat && negb (own_cookie pair)) (map trim (tokens_of h (lit "cookie") 59)).

Definition strip_ingress_cookies (h : HeaderMap) : HeaderMap :=
  let kept := kept_cookies h in
  let h := remove h (lit "cookie") in
  if negb (length kept =? 0)%nat && valid_value (join (lit "; ") kept)
  then insert h (lit "cookie") (join (lit "; ") kept) else h.

Definition upstream_request_headers (incoming : HeaderMap) (fqdn : str) (client : IpAddr) (websocket : bool)
    (user : option str) : HeaderMap :=
  let h := strip_hop_by_hop incoming in
  let h := remove_all h CLIENT_SUPPLIED_FORWARDING in
  let h := remove_all h (List.filter (starts_with (lit "x-blaktail-")) (map fst (entries h))) in
  let h := strip_ingress_cookies h in
  let h := remove h (lit "host") in
  let h := if valid_value fqdn then insert (insert h (lit "host") fqdn) (lit "x-forwarded-host") fqdn else h in
  let h := insert h (lit "x-forwarded-for") (show_ip client) in
  let h := insert h (lit "x-forwarded-proto") (lit "https") in
  let h := if websocket
           then insert (insert h (lit "connection") (lit "upgrade")) (lit "upgrade") (lit "websocket") else h in
  match user with
  | Some u => if valid_value u then insert h USER_HEADER u else h
  | None => h
  end.

Definition internal_ip (ip : IpAddr) : bool :=
  match ip with
  | V4 v4 =>
      let a := v4 / 2 ^ 24 in
      let b := (v4 / 2 ^ 16) mod 256 in
      ((a =? 100) && (64 <=? b) && (b <? 128)) || is_loopback ip || is_link_local_v4 v4
  | V6 v6 => (Z.land (v6 / 2 ^ 112) 0xfe00 =? 0xfc00) || is_loopback ip
  end.

(** [s.split(|c| !keep(c))] *)
Fixpoint split_keep (keep : Z → bool) (s : str) : list str :=
  match s with
  | [] => [[]]
  | c :: s =>
      if keep c then match split_keep keep s with
                     | piece :: rest => (c :: piece) :: rest
                     | [] => [[c]]
                     end
      else [] :: split_keep keep s
  end.

Definition is_ascii_hexdigit (c : Z) : bool :=
  is_ascii_digit c || ((97 <=? c) && (c <=? 102)) || ((65 <=? c) && (c <=? 70)).

Definition address_char (c : Z) : bool := is_ascii_hexdigit c || (c =? 46) || (c =? 58).

(** [s.rsplit_once(c)], the part in front of the last separator. *)
Definition before_last (c : Z) (s : str) : option str :=
  '(_, front) ← split_once c (reverse s);
  Some (reverse front).

Fixpoint trim_left (drop_ : Z → bool) (s : str) : str :=
  match s with
  | [] => []
  | c :: r => if drop_ c then trim_left drop_ r else s
  end.
Definition trim_matches (drop_ : Z → bool) (s : str) : str := reverse (trim_left drop_ (reverse (trim_left drop_ s))).

Definition token_leaks (token : str) : bool :=
  let candidates := [token; default token (before_last 58 token)] in
  existsb internal_ip (omap (λ t, parse_ip (trim_matches (λ c, (c =? 58) || (c =? 46)) t)) candidates).

Definition leaks (value : str) (target : SocketAddr) : bool :=
  let lower := to_ascii_lowercase value in
  if contains_str (lit ".blaktail") lower || contains_str (show_ip (ip target)) lower then true
  else existsb token_leaks (List.filter (λ token, (3 <=? length token)%nat) (split_keep address_char lower)).

(** What the code reads of a parsed URL. *)
Record LocationUrl := mkLocationUrl {
  url_host : option str;
  url_path : str;
  url_query : option str;
  url_fragment : option str
}.

Context (parse_url : str → option LocationUrl).

Definition rewrite_location (value fqdn : str) (target : SocketAddr) : option str :=
  url ← parse_url value;
  host ← url_host url;
  let host := trim_matches (λ c, (c =? 91) || (c =? 93)) host in
  let internal := eq_ignore_ascii_case host fqdn
                  || match parse_ip host with Some a => internal_ip a | None => false end
                  || ends_with (lit ".blaktail") (to_ascii_lowercase host)
                  || bool_decide (host = show_ip (ip target)) in
  if negb internal then None
  else Some (lit "https://" ++ fqdn ++ url_path url
             ++ match url_query url with Some q => lit "?" ++ q | None => [] end
             ++ match url_fragment url with Some f => lit "#" ++ f | None => [] end).

Definition rewrite_header (fqdn : str) (target : SocketAddr) (h : HeaderMap) (name : str) : HeaderMap :=
  match (v ← head (get_all h name);
         if visible v then rewrite_location v fqdn target else None) with
  | Some v => if valid_value v then insert h name v else h
  | None => h
  end.

Definition leaking (h : HeaderMap) (target : SocketAddr) : list str :=
  map fst (List.filter (λ e, if visible e.2 then leaks e.2 target else true) (entries h)).

Definition client_response_headers (upstream : HeaderMap) (fqdn : str) (target : SocketAddr) (upgrade : bool) : HeaderMap :=
  let upgrade_value := head (get_all upstream (lit "upgrade")) in
  let h := strip_hop_by_hop upstream in
  let h := remove_all h RESPONSE_BANNERS in
  let h := foldl (rewrite_header fqdn target) h [lit "location"; lit "content-location"] in
  let h := remove_all h (leaking h target) in
  if upgrade
  then insert (insert h (lit "connection") (lit "upgrade")) (lit "upgrade") (default (lit "websocket") upgrade_value)
  else h.

End headers.
End Headers.

(** ** Sessions *)

Module Oidc.
Section oidc.
Context `{HeaderMapOps}.
Import Headers.

Definition CALLBACK_PATH : str := lit "/.blaktail-ingress/callback".
Definition LOGOUT_PATH : str := lit "/.blaktail-ingress/logout".
Definition SESSION_SECS : Z := 8 * 60 * 60.

(** On the bytes of a path: ASCII control characters and the two-byte ones. *)
Fixpoint has_control (s : str) : bool :=
  match s with
  | [] => false
  | c :: r => (c <=? 31) || (c =? 127)
              || match r with d :: _ => (c =? 194) && (128 <=? d) && (d <=? 159) | [] => false end
              || has_control r
  end.

Definition safe_return_path (path : str) : str :=
  if starts_with (lit "/") path && negb (starts_with (lit "//") path) && negb (starts_with (lit "/\") path)
     && negb (starts_with (lit "/.blaktail-ingress/") path) && negb (has_control path)
  then path else lit "/".

Definition rsplit_once (c : Z) (s : str) : option (str * str) :=
  '(back, front) ← split_once c (reverse s);
  Some (reverse front, reverse back).

Definition email_allowed (email : str) (domains : list str) : bool :=
  match rsplit_once 64 email with
  | None => false
  | Some (local, domain) =>
      negb (length local =? 0)%nat
      && ((length domains =? 0)%nat || existsb (λ d, eq_ignore_ascii_case d domain) domains)
  end.

Definition cookie (h : HeaderMap) (name : str) : option str :=
  snd <$> List.find (λ kv, bool_decide (kv.1 = name))
            (omap (λ pair, split_once 61 (trim pair)) (tokens_of h (lit "cookie") 59)).

Record SessionClaims := mkSessionClaims { h : str; e : str; x : Z }.

(** HMAC-SHA256, URL-safe base64 and the JSON of the claims. *)
Context (hmac : bytes → str → bytes) (b64_encode : bytes → str) (b64_decode : str → option bytes).
Context (to_json : SessionClaims → bytes) (from_json : bytes → option SessionClaims).

Definition sign (key : bytes) (purpose : str) (claims : SessionClaims) : str :=
  let payload := b64_encode (to_json claims) in
  payload ++ lit "." ++ b64_encode (hmac key (purpose ++ lit "|" ++ payload)).

Definition verify (key : bytes) (purpose value : str) : option SessionClaims :=
  '(payload, signature) ← split_once 46 value;
  signature ← b64_decode signature;
  if bool_decide (signature = hmac key (purpose ++ lit "|" ++ payload))
  then bs ← b64_decode payload; from_json bs else None.

Definition session_user (key : bytes) (now : Z) (hs : HeaderMap) (host : str) (domains : list str) : option str :=
  value ← cookie hs SESSION_COOKIE;
  claims ← verify key (lit "session") value;
  if bool_decide (h claims = host) && (now <? x claims) && email_allowed (e claims) domains
  then Some (e claims) else None.

Definition session_cookie (key : bytes) (host email : str) (now : Z) : str :=
  SESSION_COOKIE ++ lit "=" ++ sign key (lit "session") (mkSessionClaims host email (now + SESSION_SECS))
  ++ lit "; Path=/; Secure; HttpOnly; SameSite=Lax; Max-Age=" ++ dec SESSION_SECS.

End oidc.
End Oidc.

(** ** The proxy's decisions *)

Module Proxy.
Import Limits Routes Headers.
Section proxy.
Context `{HeaderMapOps}.

(** [value.parse::<Authority>()]: its host and port. *)
Context (authority : str → option (str * option Z)).

Record Request := mkRequest {
  method : str;
  uri_authority : option str;
  path : str;
  headers : HeaderMap
}.

Inductive Status := BAD_REQUEST | MISDIRECTED_REQUEST.

Definition host_of (value : str) (port : Z) : option str :=
  '(host, p) ← authority value;
  if match p with Some p => negb (p =? port) | None => false end then None
  else Some (to_ascii_lowercase (trim_end_matches 46 host)).

Definition request_host (req : Request) (port : Z) : result Status str :=
  let? header_host := match get_all (headers req) (lit "host") with
                      | [value] => let? host := ok_or (if visible value then host_of value port else None) BAD_REQUEST in
                                   Ok (Some host)
                      | [] => Ok None
                      | _ => Err BAD_REQUEST
                      end in
  let? uri_host := match uri_authority req with
                   | Some a => let? host := ok_or (host_of a port) MISDIRECTED_REQUEST in Ok (Some host)
                   | None => Ok None
                   end in
  match uri_host, header_host with
  | Some a, Some b => if negb (bool_decide (a = b)) then Err MISDIRECTED_REQUEST else Ok a
  | Some host, None | None, Some host => Ok host
  | None, None => Err BAD_REQUEST
  end.

(** How a request ends before, or instead of, a connection to the target. *)
Inductive Decision :=
| RejectedHost | StaleConfig | MethodNotAllowed | SourceDenied | RateLimited | TooLarge | ConnectionLimit
| AuthUnavailable | Callback | Logout | LoginRedirect | LoginRequired
| Forward (route : nat) (target : SocketAddr) (user : option str) (websocket : bool) (upstream : HeaderMap).

Definition set_limiter (r : LiveRoute) (l : RateLimiter) : LiveRoute :=
  mkLiveRoute (config r) (target r) (sources r) l (permits_left r) (revoked r).
Definition take_permit (r : LiveRoute) : LiveRoute :=
  mkLiveRoute (config r) (target r) (sources r) (limiter r) (permits_left r - 1) (revoked r).

Definition update_route (t : RouteTable) (h : nat) (f : LiveRoute → LiveRoute) : RouteTable :=
  mkRouteTable (alter f h (store t)) (next_handle t) (routes t) (fresh_until t) (table_revision t) (policy t).

Definition declared_length (h : HeaderMap) : option Z :=
  v ← head (get_all h (lit "content-length"));
  if visible v then parse_u64 v else None.

(** The identity gate, where one is configured: who is signed in. *)
Context (gate : option (HeaderMap → str → list str → option str)).

(** Lines after the permit: authentication and the request that is sent on.  A
    permit taken for a request that is not forwarded is given back. *)
Definition authenticate (t : RouteTable) (h : nat) (r : LiveRoute) (req : Request) (client : IpAddr) : RouteTable * Decision :=
  let name := fqdn (config r) in
  let go user :=
    let websocket := seq_b (method req) "GET" && is_websocket (headers req) in
    (update_route t h take_permit,
     Forward h (target r) user websocket (upstream_request_headers (headers req) name client websocket user)) in
  if oidc r then
    match gate with
    | None => (t, AuthUnavailable)
    | Some session_user =>
        if bool_decide (path req = Oidc.CALLBACK_PATH) then (t, Callback)
        else if bool_decide (path req = Oidc.LOGOUT_PATH) then (t, Logout)
        else match session_user (headers req) name (allowed_email_domains (config r)) with
             | Some email => go (Some email)
             | None =>
                 if (seq_b (method req) "GET" || seq_b (method req) "HEAD") && negb (is_websocket (headers req))
                 then (t, LoginRedirect) else (t, LoginRequired)
             end
    end
  else go None.

Definition forward {HI : HashIter IpAddr} (t : RouteTable) (now : Z) (h : nat) (r : LiveRoute) (req : Request)
    (client : IpAddr) : RouteTable * Decision :=
  if seq_b (method req) "CONNECT" || negb (starts_with (lit "/") (path req)) then (t, MethodNotAllowed)
  else if negb (source_allowed r client) then (t, SourceDenied)
  else
    let '(l, allowed) := allow_at (limiter r) client now in
    let t := update_route t h (λ r, set_limiter r l) in
    if negb allowed then (t, RateLimited)
    else if match declared_length (headers req) with Some n => max_body r <? n | None => false end then (t, TooLarge)
    else if permits_left r <=? 0 then (t, ConnectionLimit)
    else authenticate t h r req client.

Definition handle {HI : HashIter IpAddr} (t : RouteTable) (now : Z) (req : Request) (client : IpAddr) (sni : option str) :
    RouteTable * Decision :=
  match request_host req 443 with
  | Err _ => (t, RejectedHost)
  | Ok host =>
      if negb (bool_decide (sni = Some host)) then (t, RejectedHost)
      else match get t now host with
           | None => if negb (is_fresh t now) then (t, StaleConfig) else (t, RejectedHost)
           | Some h => match store t !! h with
                       | Some r => forward t now h r req client
                       | None => (t, RejectedHost)
                       end
           end
  end.

(** The permit is dropped when the response or the tunnel ends. *)
Definition release (t : RouteTable) (h : nat) : RouteTable :=
  update_route t h (λ r, mkLiveRoute (config r) (target r) (sources r) (limiter r) (permits_left r + 1) (revoked r)).

End proxy.
End Proxy.
