(* ===== verification/IngressProps.v ===== *)
(** * What the public ingress guarantees

    Requests reach only targets the ingress may dial, through routes the
    coordinator confirmed recently, from allowed networks and, where the route asks
    for it, from a signed-in user; withdrawn routes never come back; and headers
    neither forge an identity upstream nor reveal internal addresses to clients. *)

From S2P Require Import Prelude Text Net Float64 Policy Ipam CoordAcl Ingress.
Import Limits Routes.

(** Header maps as lists of entries, to evaluate the definitions on. *)
#[local] Instance list_headers : HeaderMapOps := {
  HeaderMap := list (str * str);
  entries h := h;
  remove h n := List.filter (λ e, negb (bool_decide (e.1 = n))) h;
  insert h n v := List.filter (λ e, negb (bool_decide (e.1 = n))) h ++ [(n, v)];
  header_name n := Some (to_ascii_lowercase n);
  visible := forallb (λ c, ((32 <=? c) && (c <? 127)) || (c =? 9));
  valid_value := forallb (λ c, ((32 <=? c) && negb (c =? 127)) || (c =? 9))
}.

(** ** The table *)

Section table.
Context {HA : HashIter IpAddr} {HS : HashIter str}.

(** What of a live route never changes. *)
Definition static (r : LiveRoute) : RouteConfig * SocketAddr * list (IpAddr * Z) := (config r, target r, sources r).

(** A route served under a name under a policy. *)
Definition route_ok (p : TargetPolicy) (name : str) (s : RouteConfig * SocketAddr * list (IpAddr * Z)) : Prop :=
  to_ascii_lowercase (fqdn s.1.1) = name ∧ route_target p s.1.1 = Some s.1.2 ∧
  mapM parse_cidr (allowed_source_cidrs s.1.1) = Some s.2.

Definition serves (p : TargetPolicy) (rs : gmap str nat) (st : gmap nat LiveRoute) : Prop :=
  ∀ name h, rs !! name = Some h → ∃ r, st !! h = Some r ∧ route_ok p name (static r).

Record table_ok (t : RouteTable) : Prop := {
  ok_serves : serves (policy t) (routes t) (store t);
  ok_handles : ∀ h, is_Some (store t !! h) → (h < next_handle t)%nat
}.

(** Changes to a store that keep what never changes. *)
Definition same_static (s s' : gmap nat LiveRoute) : Prop := ∀ h, static <$> s !! h = static <$> s' !! h.

Lemma same_static_serves p rs s s' : same_static s s' → serves p rs s → serves p rs s'.
Proof using.
  intros Hs Hser name h Hh. destruct (Hser name h Hh) as (r & Hr & Hok). specialize (Hs h). rewrite Hr in Hs. simpl in Hs.
  destruct (s' !! h) as [r'|]; [|done]. exists r'. split; [done|]. apply (inj Some) in Hs. by rewrite -Hs.
Qed.

Lemma same_static_some s s' h : same_static s s' → is_Some (s' !! h) → is_Some (s !! h).
Proof using. intros Hs [r' Hr']. specialize (Hs h). rewrite Hr' in Hs. by destruct (s !! h). Qed.

Lemma same_static_alter f h s : (∀ r, static (f r) = static r) → same_static s (alter f h s).
Proof using.
  intros Hf k. destruct (decide (k = h)) as [->|Hk].
  - rw lookup_alter_eq. destruct (s !! h); simpl; [by rw Hf|done].
  - by rw lookup_alter_ne.
Qed.

Lemma same_static_trans s1 s2 s3 : same_static s1 s2 → same_static s2 s3 → same_static s1 s3.
Proof using. intros H1 H2 h. by rewrite H1. Qed.

Lemma same_static_revoke hs s : same_static s (revoke_all s hs).
Proof using.
  unfold revoke_all. revert s; induction hs as [|h hs IH]; intros s; [done|]. cbn [foldl].
  eapply same_static_trans; [|apply IH]. by apply same_static_alter.
Qed.

(** The loop of [apply]: what is in the next table is well formed, and what is not
    new was served under the same name before. *)
Record applying_ok (t : RouteTable) (acc : Applying) : Prop := {
  ap_serves : serves (policy t) (ap_next acc) (ap_store acc);
  ap_handles : ∀ h, is_Some (ap_store acc !! h) → (h < ap_handle acc)%nat;
  ap_old : ∀ h, (h < next_handle t)%nat → ap_store acc !! h = store t !! h;
  ap_grows : (next_handle t ≤ ap_handle acc)%nat;
  ap_kept : ∀ name h, ap_next acc !! name = Some h → (h < next_handle t)%nat → routes t !! name = Some h
}.

Lemma fresh_route_ok t now acc r tg src :
  table_ok t → applying_ok t acc → route_target (policy t) r = Some tg → mapM parse_cidr (allowed_source_cidrs r) = Some src →
  applying_ok t (mkApplying (ap_served acc ++ [to_ascii_lowercase (fqdn r)]) (ap_refused acc)
    (<[to_ascii_lowercase (fqdn r) := ap_handle acc]> (ap_next acc))
    (<[ap_handle acc := live_new r tg src now]> (ap_store acc)) (S (ap_handle acc))).
Proof using.
  intros [Hser Hlt] [Hs Hh Ho Hg Hk] Htg Hsrc. set (name := to_ascii_lowercase (fqdn r)).
  constructor; cbn [ap_next ap_store ap_handle].
  - intros n h Hn. destruct (decide (n = name)) as [->|Hne].
    + rewrite lookup_insert_eq in Hn. simplify_eq. exists (live_new r tg src now). by rewrite lookup_insert_eq.
    + rewrite lookup_insert_ne // in Hn. destruct (Hs n h Hn) as (r' & Hr' & Hok). exists r'. split; [|done].
      rewrite lookup_insert_ne //. intros <-. assert (ap_handle acc < ap_handle acc)%nat by (apply Hh; eauto). lia.
  - intros h [r' Hr']. destruct (decide (h = ap_handle acc)) as [->|Hne]; [lia|]. rewrite lookup_insert_ne // in Hr'.
    assert (h < ap_handle acc)%nat by (apply Hh; eauto). lia.
  - intros h Hlt'. rewrite lookup_insert_ne; [by apply Ho|lia].
  - lia.
  - intros n h Hn Hlt'. destruct (decide (n = name)) as [->|Hne].
    + rewrite lookup_insert_eq in Hn. simplify_eq. lia.
    + rewrite lookup_insert_ne // in Hn. by apply Hk.
Qed.

Lemma apply_route_ok t now acc r : table_ok t → applying_ok t acc → applying_ok t (apply_route t now acc r).
Proof using.
  intros [Hser Hlt] [Hs Hh Ho Hg Hk]. unfold apply_route. set (name := to_ascii_lowercase (fqdn r)).
  destruct (route_target (policy t) r) as [tg|] eqn:Htg; [|by constructor].
  destruct (mapM parse_cidr (allowed_source_cidrs r)) as [src|] eqn:Hsrc; [|by constructor].
  destruct (routes t !! name) as [h|] eqn:Hn; simpl.
  1: destruct (ap_store acc !! h) as [old|] eqn:Hold; simpl.
  1: destruct (bool_decide _ && bool_decide _) eqn:He.
  - to_prop. constructor; cbn [ap_next ap_store ap_handle]; [|done..|].
    + intros n h' Hn'. destruct (decide (n = name)) as [->|Hne].
      * rewrite lookup_insert_eq in Hn'. simplify_eq. exists old. split; [done|].
        destruct (Hser name h' Hn) as (r0 & Hr0 & Hok). assert (h' < next_handle t)%nat by (apply Hlt; eauto).
        rewrite Ho // in Hold. congruence.
      * rewrite lookup_insert_ne // in Hn'. by apply Hs.
    + intros n h' Hn' Hlt'. destruct (decide (n = name)) as [->|Hne].
      * rewrite lookup_insert_eq in Hn'. by simplify_eq.
      * rewrite lookup_insert_ne // in Hn'. by apply Hk.
  - by apply fresh_route_ok.
  - by apply fresh_route_ok.
  - by apply fresh_route_ok.
Qed.

Lemma apply_loop_ok t now rs acc : table_ok t → applying_ok t acc → applying_ok t (foldl (apply_route t now) acc rs).
Proof using.
  intros Ht. revert acc; induction rs as [|r rs IH]; intros acc Hacc; [done|]. cbn [foldl]. apply IH. by apply apply_route_ok.
Qed.

Lemma apply_start_ok t : table_ok t → applying_ok t (mkApplying [] [] ∅ (store t) (next_handle t)).
Proof using.
  intros [Hs Hh]. constructor; cbn [ap_next ap_store ap_handle]; [|done|done|lia|]; intros n h Hn; by rewrite lookup_empty in Hn.
Qed.

(** ** Steps *)

Context `{HeaderMapOps} (authority : str → option (str * option Z)) (gate : option (HeaderMap → str → list str → option str)).

(** What happens to a table: the coordinator speaks at a time in [P], requests are
    handled and finish, tunnels subscribe. *)
Inductive tstep (P : Z → Prop) (t : RouteTable) : RouteTable → Prop :=
| step_apply now c : P now → tstep P t (apply t now c).1
| step_confirm now stale_after : P now → tstep P t (confirm t now stale_after)
| step_clear : tstep P t (clear t)
| step_subscribe h : tstep P t (subscribe_revoked t h)
| step_handle now req client sni : tstep P t (Proxy.handle authority gate t now req client sni).1
| step_release h : tstep P t (Proxy.release t h).

(** A step that only changes limiters, permits and channels. *)
Definition quiet (t t' : RouteTable) : Prop :=
  same_static (store t) (store t') ∧ next_handle t' = next_handle t ∧ routes t' = routes t ∧
  fresh_until t' = fresh_until t ∧ policy t' = policy t.

Lemma quiet_refl t : quiet t t.
Proof using. by split_and!. Qed.

Lemma quiet_trans t1 t2 t3 : quiet t1 t2 → quiet t2 t3 → quiet t1 t3.
Proof using.
  intros (H1 & H2 & H3 & H4 & H5) (G1 & G2 & G3 & G4 & G5). split_and!; [by eapply same_static_trans|congruence..].
Qed.

Lemma quiet_update t h f : (∀ r, static (f r) = static r) → quiet t (Proxy.update_route t h f).
Proof using. intros Hf. split_and!; [by apply same_static_alter|done..]. Qed.

Lemma authenticate_quiet t h r req client : quiet t (Proxy.authenticate gate t h r req client).1.
Proof using.
  unfold Proxy.authenticate. repeat (case_match; cbn [fst]; try apply quiet_refl); by apply quiet_update.
Qed.

Lemma handle_quiet t now req client sni : quiet t (Proxy.handle authority gate t now req client sni).1.
Proof using.
  unfold Proxy.handle. destruct (Proxy.request_host _ _ _) as [host|]; [|apply quiet_refl].
  case_match; [apply quiet_refl|]. destruct (get t now host) as [h|]; [|case_match; apply quiet_refl].
  destruct (store t !! h) as [r|]; [|apply quiet_refl]. unfold Proxy.forward.
  case_match; [apply quiet_refl|]. case_match; [apply quiet_refl|].
  destruct (allow_at (limiter r) client now) as [l allowed]. set (t1 := Proxy.update_route t h _).
  assert (quiet t t1) as Hq by by apply quiet_update.
  do 2 (case_match; [exact Hq|]). destruct (permits_left r <=? 0); [exact Hq|].
  eapply quiet_trans; [exact Hq|apply authenticate_quiet].
Qed.

Lemma quiet_ok t t' : quiet t t' → table_ok t → table_ok t'.
Proof using.
  intros (H1 & H2 & H3 & H4 & H5) [Hs Hh]. constructor.
  - rewrite H3 H5. by eapply same_static_serves.
  - intros h Hx. rewrite H2. apply Hh. by eapply same_static_some.
Qed.

Lemma step_cases P t t' : tstep P t t' →
  quiet t t' ∨ (∃ now c, P now ∧ t' = (apply t now c).1) ∨ (∃ now d, P now ∧ t' = confirm t now d) ∨ t' = clear t.
Proof using.
  destruct 1; [right; left; eauto|right; right; left; eauto|by right; right; right|left..].
  - split_and!; [by apply same_static_alter|done..].
  - apply handle_quiet.
  - by apply quiet_update.
Qed.

Lemma step_ok P t t' : tstep P t t' → table_ok t → table_ok t' ∧ policy t' = policy t.
Proof using.
  intros Hstep Ht. apply step_cases in Hstep as [Hq|[(now & c & _ & ->)|[(now & d & _ & ->)| ->]]].
  - split; [by eapply quiet_ok|apply Hq].
  - pose proof (apply_loop_ok t now (cfg_routes c) _ Ht (apply_start_ok t Ht)) as [Hs Hh _ _ _]. split; [|done].
    constructor; cbn [apply fst store routes policy next_handle].
    + eapply same_static_serves; [apply same_static_revoke|done].
    + intros h Hx. apply Hh. eapply same_static_some; [apply same_static_revoke|done].
  - split; [|done]. destruct Ht. by constructor.
  - split; [|done]. destruct Ht as [Hs Hh]. constructor; cbn [clear store routes policy next_handle].
    + intros n h Hn. by rewrite lookup_empty in Hn.
    + intros h Hx. apply Hh. eapply same_static_some; [apply same_static_revoke|done].
Qed.

Lemma reach_ok P p t : rtc (tstep P) (table_new p) t → table_ok t ∧ policy t = p.
Proof using.
  intros Hr. assert (table_ok (table_new p) ∧ policy (table_new p) = p) as Hstart.
  { split; [|done]. constructor; [intros n h Hn; by rewrite lookup_empty in Hn|intros h [r Hr']; by rewrite lookup_empty in Hr']. }
  revert Hstart. induction Hr as [t|t1 t2 t3 Hstep _ IH]; [done|]. intros [Hok Hp]. apply IH.
  destruct (step_ok P t1 t2 Hstep Hok) as [Hok' Hp']. split; [done|congruence].
Qed.

(** What a forwarded request has passed, and the permit it takes. *)
Lemma forward_passed (P : Z → Prop) (p : TargetPolicy) (t t' : RouteTable) (now : Z)
    (req : Proxy.Request) (client : IpAddr) (sni : option str)
    (h : nat) (tg : SocketAddr) (user : option str) (ws : bool) (up : HeaderMap)
    (Hreach : rtc (tstep P) (table_new p) t)
    (Hfwd : Proxy.handle authority gate t now req client sni = (t', Proxy.Forward h tg user ws up)) :
  ∃ host r, Proxy.request_host authority req 443 = Ok host ∧ sni = Some host ∧
    is_fresh t now = true ∧ routes t !! to_ascii_lowercase host = Some h ∧ store t !! h = Some r ∧
    tg = target r ∧ permits p (ip tg) = true ∧ port tg ≠ 0 ∧ port tg = target_port (config r) ∧
    source_allowed r client = true ∧ 0 < permits_left r ∧
    permits_left <$> store t' !! h = Some (permits_left r - 1) ∧
    up = Headers.upstream_request_headers (Proxy.headers req) (fqdn (config r)) client ws user ∧
    (if oidc r then ∃ session_user email, gate = Some session_user ∧ user = Some email ∧
                      session_user (Proxy.headers req) (fqdn (config r)) (allowed_email_domains (config r)) = Some email
     else user = None).
Proof using.
  destruct (reach_ok P p t Hreach) as [[Hs _] Hp]. unfold Proxy.handle in Hfwd.
  destruct (Proxy.request_host _ _ _) as [host|] eqn:Hhost; [|done].
  destruct (bool_decide (sni = Some host)) eqn:Hsni; cbn [negb] in Hfwd; [|done]. apply bool_decide_eq_true in Hsni.
  destruct (get t now host) as [h'|] eqn:Hget; [|by case_match]. unfold get in Hget.
  destruct (is_fresh t now) eqn:Hfresh; cbn [negb] in Hget; [|done].
  destruct (Hs _ _ Hget) as (r & Hr & Hname & Htg & _). rewrite Hr in Hfwd. unfold Proxy.forward in Hfwd.
  case_match; [done|]. destruct (source_allowed r client) eqn:Hsrc; cbn [negb] in Hfwd; [|done].
  destruct (allow_at (limiter r) client now) as [l allowed]. destruct allowed; cbn [negb] in Hfwd; [|done].
  case_match; [done|]. destruct (Z.leb_spec (permits_left r) 0); [done|].
  exists host, r. unfold Proxy.authenticate in Hfwd.
  assert (t' = Proxy.update_route (Proxy.update_route t h' (λ r, Proxy.set_limiter r l)) h' Proxy.take_permit ∧
    h' = h ∧ tg = target r ∧ up = Headers.upstream_request_headers (Proxy.headers req) (fqdn (config r)) client ws user ∧
    if oidc r then ∃ session_user email, gate = Some session_user ∧ user = Some email ∧
                      session_user (Proxy.headers req) (fqdn (config r)) (allowed_email_domains (config r)) = Some email
    else user = None) as (-> & -> & -> & -> & Hauth).
  { destruct (oidc r); [|by simplify_eq/=]. destruct gate as [g|]; [|done]. case_match; [done|]. case_match; [done|].
    destruct (g _ _ _) as [email|] eqn:Hg; [|by case_match]. simplify_eq/=. split_and!; [done..|]. exists g, email. done. }
  unfold route_target in Htg. cbn [static fst snd] in Htg. destruct (parse_ip (target_address (config r))) as [a|]; [|done].
  simpl in Htg. destruct (permits (policy t) a && negb (target_port (config r) =? 0)) eqn:Hperm; [|done].
  injection Htg as <-. to_prop. split_and!; cbn [ip port]; try done; [by rewrite -Hp|].
  cbn [Proxy.update_route store]. by rewrite !lookup_alter_eq Hr.
Qed.

(** A withdrawn route never comes back: once a route that was created is served
    under no name, it is served under none ever after, whatever the coordinator
    sends, so every tunnel through it finds it gone at its next check. *)
Theorem withdrawn_route_stays_gone (P : Z → Prop) (p : TargetPolicy) (t t' : RouteTable) (h : nat)
    (Hreach : rtc (tstep P) (table_new p) t) (Hcreated : (h < next_handle t)%nat)
    (Hgone : ∀ name, routes t !! name ≠ Some h) (Hlater : rtc (tstep P) t t') :
  (∀ now host, get t' now host ≠ Some h) ∧ (∀ now, still_live t' now h = false).
Proof using.
  destruct (reach_ok P p t Hreach) as [Hok _]. clear Hreach.
  assert (∀ name, routes t' !! name ≠ Some h) as Hnone.
  { induction Hlater as [t|t t1 t' Hstep _ IH]; [done|].
    assert (table_ok t1) as Hok1 by by eapply step_ok.
    apply step_cases in Hstep as [(_ & Hn & Hr & _)|[(now & c & _ & ->)|[(now & d & _ & ->)| ->]]]; apply IH; try done.
    - by rewrite Hn.
    - by rewrite Hr.
    - pose proof (apply_loop_ok t now (cfg_routes c) _ Hok (apply_start_ok t Hok)) as [_ _ _ Hg _].
      cbn [apply fst next_handle]. lia.
    - pose proof (apply_loop_ok t now (cfg_routes c) _ Hok (apply_start_ok t Hok)) as [_ _ _ _ Hk].
      intros name Hx. cbn [apply fst routes] in Hx. by apply (Hgone name), Hk. }
  assert (∀ now host, get t' now host ≠ Some h) as Hget.
  { intros now host. unfold get. case_match; [done|apply Hnone]. }
  split; [done|]. intros now. unfold still_live. destruct (store t' !! h); [|done]. by apply bool_decide_eq_false.
Qed.

(** The table goes dark: if the coordinator was last heard at time [T], no
    request finds a route from half a minute later on. *)
Theorem table_goes_dark (T : Z) (p : TargetPolicy) (t : RouteTable) (now : Z) (host : str)
    (Hreach : rtc (tstep (λ at_, at_ ≤ T)) (table_new p) t) (Hlate : T + secs 30 ≤ now) :
  get t now host = None ∧ ∀ h, still_live t now h = false.
Proof using.
  assert (match fresh_until t with Some until => until ≤ T + secs 30 | None => True end) as Hu.
  { clear Hlate. remember (table_new p) as t0 eqn:Ht0.
    assert (match fresh_until t0 with Some until => until ≤ T + secs 30 | None => True end) as H0 by by subst. clear Ht0.
    induction Hreach as [t|t t1 t' Hstep _ IH]; [done|]. apply IH.
    apply step_cases in Hstep as [(_ & _ & _ & Hf & _)|[(n & c & Hn & ->)|[(n & d & Hn & ->)| ->]]].
    - by rewrite Hf.
    - cbn [apply fst fresh_until]. unfold secs. lia.
    - cbn [confirm fresh_until]. lia.
    - done. }
  assert (is_fresh t now = false) as Hf.
  { unfold is_fresh. destruct (fresh_until t); [|done]. apply Z.ltb_ge. lia. }
  assert (∀ x, get t now x = None) as Hget by (intros x; unfold get; by rw Hf).
  split; [done|]. intros h. unfold still_live. destruct (store t !! h); [|done]. by rw Hget.
Qed.
End table.

(** One route, open to a network, served at time 0. *)
Definition demo_route : RouteConfig :=
  mkRouteConfig (lit "id") (lit "App.example") (lit "100.64.0.9") 8080 [] (lit "none") [] [lit "203.0.113.0/24"] 60 0 4 7 1.
Definition demo_table : RouteTable := (apply (table_new default_policy) 0 (mkIngressConfig 1 30 [demo_route])).1.

Lemma demo_reach (P : Z → Prop) : P 0 → rtc (tstep (λ s, Some (s, None)) None P) (table_new default_policy) demo_table.
Proof. intros HP. apply rtc_once. by apply step_apply. Qed.

Lemma withdrawn_route_stays_gone_witness : still_live (apply (clear demo_table) 7 (mkIngressConfig 2 30 [demo_route])).1 8 0 = false.
Proof.
  refine (proj2 (withdrawn_route_stays_gone (λ s, Some (s, None)) None (λ _, True) default_policy (clear demo_table)
    (apply (clear demo_table) 7 (mkIngressConfig 2 30 [demo_route])).1 0 _ _ _ _) 8).
  - eapply rtc_r; [by apply demo_reach|apply step_clear].
  - vm_compute. lia.
  - intros name. cbn [clear routes]. by rewrite lookup_empty.
  - apply rtc_once. by apply step_apply.
Defined.

Lemma table_goes_dark_witness : get demo_table (secs 31) (lit "app.example") = None.
Proof.
  refine (proj1 (table_goes_dark (λ s, Some (s, None)) None 0 default_policy demo_table (secs 31) (lit "app.example") _ _)).
  - by apply demo_reach.
  - vm_compute. discriminate.
Defined.

(** ** The limiter *)

Section limiter.
Context {HA : HashIter IpAddr}.

Lemma min_by_updated_in l : l ≠ [] → ∃ k, min_by_updated l = Some k ∧ k ∈ l.*1.
Proof using.
  intros Hl. unfold min_by_updated. set (f := λ (best : option (IpAddr * Bucket)) (x : IpAddr * Bucket), match best with
    | None => Some x | Some b => Some (if updated x.2 <? updated b.2 then x else b) end).
  assert (∀ l best b, best = Some b → ∃ y, foldl f best l = Some y ∧ (y = b ∨ y ∈ l)) as Hf.
  { clear. intros l. induction l as [|x l IH]; intros best b ->; [exists b; auto|]. cbn [foldl].
    destruct (IH (f (Some b) x) (if updated x.2 <? updated b.2 then x else b) eq_refl) as (y & -> & Hy). exists y. split; [done|].
    rw elem_of_cons. destruct (updated x.2 <? updated b.2); naive_solver. }
  destruct l as [|x l]; [done|]. destruct (Hf l (f None x) x eq_refl) as (y & Hy & Hin). cbn [foldl]. rewrite Hy.
  exists y.1. split; [done|]. apply list_elem_of_fmap. exists y. split; [done|]. rw elem_of_cons. tauto.
Qed.

Lemma make_room_size l client now :
  (size (clients l) ≤ MAX_TRACKED_CLIENTS)%nat →
  (size (<[client := full (capacity l) now]> (make_room l client now)) ≤ MAX_TRACKED_CLIENTS)%nat ∧
  (is_Some (clients l !! client) → make_room l client now = clients l).
Proof using.
  intros Hs. assert (0 < MAX_TRACKED_CLIENTS)%nat as Hpos by (apply Nat.ltb_lt; by vm_compute).
  unfold make_room. set (M := MAX_TRACKED_CLIENTS) in *. clearbody M.
  assert (∀ (m : gmap IpAddr Bucket) b, (size m < M)%nat → (size (<[client := b]> m) ≤ M)%nat) as Hins.
  { intros m b Hm. rewrite map_size_insert. destruct (m !! client); simpl; lia. }
  case_bool_decide as Hc; cbn [orb].
  { split; [|done]. destruct Hc as [b Hb]. by rewrite map_size_insert Hb. }
  destruct (Nat.ltb_spec (size (clients l)) M); [split; [by apply Hins|done]|]. split; [|done].
  set (kept := filter _ (clients l)). destruct (Nat.ltb_spec (size kept) M); [by apply Hins|].
  destruct (min_by_updated_in (hash_iter kept)) as (k & -> & Hk).
  { intros Hn. pose proof (hash_iter_perm kept) as Hp. rewrite Hn in Hp. apply Permutation_nil_l in Hp.
    apply (f_equal length) in Hp. rewrite length_map_to_list in Hp. simpl in Hp. lia. }
  apply list_elem_of_fmap in Hk as ([k' b] & -> & Hb%hash_iter_elem). cbn [fst]. apply Hins.
  rewrite map_size_delete Hb. pose proof (map_size_filter (λ e, not_refilled l now e.2 = true) (clients l)) as Hle.
  fold kept in Hle. lia.
Qed.

Lemma allow_at_clients l client now :
  ∃ b, clients (allow_at l client now).1 = <[client_key client := b]> (make_room l (client_key client) now).
Proof using.
  unfold allow_at. destruct (take _ _ _ _) as [b allowed]. destruct allowed; [destruct (take _ _ _ _) as [rb ok]|]; by exists b.
Qed.

Lemma allow_at_size l client now :
  (size (clients l) ≤ MAX_TRACKED_CLIENTS)%nat → (size (clients (allow_at l client now).1) ≤ MAX_TRACKED_CLIENTS)%nat.
Proof using.
  intros Hs. destruct (allow_at_clients l client now) as [b ->].
  destruct (make_room_size l (client_key client) now Hs) as [Hr _]. by rewrite !map_size_insert in Hr |- *.
Qed.

(** A route remembers at most 10000 clients, whoever sends requests and whenever,
    and the last client is always among them, under its address or its /64. *)
Theorem limiter_bounded (requests start : Z) (arrivals : list (IpAddr * Z)) (client : IpAddr) (now : Z) :
  let l := foldl (λ l x, (allow_at l x.1 x.2).1) (per_minute requests start) (arrivals ++ [(client, now)]) in
  (size (clients l) ≤ MAX_TRACKED_CLIENTS)%nat ∧ is_Some (clients l !! client_key client).
Proof using.
  rewrite foldl_app. cbn [foldl fst snd]. set (l := foldl _ _ arrivals). cbv zeta. split.
  - apply allow_at_size. unfold l. clear l.
    assert (size (clients (per_minute requests start)) ≤ MAX_TRACKED_CLIENTS)%nat as H0 by (cbn [per_minute clients]; rewrite map_size_empty; lia).
    revert H0. generalize (per_minute requests start). induction arrivals as [|x xs IH]; intros l0 H0; [done|]. cbn [foldl].
    apply IH. by apply allow_at_size.
  - destruct (allow_at_clients l client now) as [b ->]. by rewrite lookup_insert_eq.
Qed.
End limiter.

(** ** Revocation *)

(** A channel nobody listens to keeps no notice: a route withdrawn before its
    tunnel subscribes is never announced to it, and only the check of the table
    ends the tunnel. *)
Theorem late_subscriber_misses_revocation :
  let route := mkRouteConfig (lit "id") (lit "a.example") (lit "100.64.0.9") 80 [] (lit "none") [] [] 60 0 4 7 1 in
  let t := (apply (table_new default_policy) 0 (mkIngressConfig 1 30 [route])).1 in
  let t := (apply t 1 (mkIngressConfig 2 30 [])).1 in
  let t := subscribe_revoked t 0 in
  get t 2 (lit "a.example") = None ∧ (value ∘ revoked) <$> store t !! 0%nat = Some false ∧
  (value ∘ revoked) <$> store (apply t 3 (mkIngressConfig 3 30 [])).1 !! 0%nat = Some false ∧
  still_live t 2 0 = false.
Proof. vm_compute. split_and!; reflexivity. Qed.
