(* ===== verification/HeaderProps.v ===== *)
(** * Header hygiene

    What a published service may trust in the headers it receives, and what a
    client never sees in a response. *)

From S2P Require Import Prelude Text Net Float64 Policy Ipam CoordAcl Ingress IngressProps.
Import Headers.

Section headers.
Context `{HeaderMapLaws}.

Lemma remove_all_get h ns m : get_all (remove_all h ns) m = if bool_decide (m ∈ ns) then [] else get_all h m.
Proof using H0.
  unfold remove_all. revert h; induction ns as [|n ns IH]; intros h; cbn [foldl].
  { by rw bool_decide_false; [|apply not_elem_of_nil]. }
  rw IH remove_get. repeat case_bool_decide; try done; set_solver.
Qed.

Lemma get_all_nil h m : m ∉ map fst (entries h) → get_all h m = [].
Proof using.
  unfold get_all. induction (entries h) as [|e l IH]; intros Hm; [done|]. cbn [map] in Hm. apply not_elem_of_cons in Hm as [Hn Hm].
  cbn [List.filter]. rw bool_decide_false; [by apply IH|done].
Qed.

(** Evaluate comparisons of literal header names. *)
Ltac names :=
  repeat match goal with
  | |- context [bool_decide (lit ?a = lit ?b)] =>
      let v := eval vm_compute in (bool_decide (lit a = lit b)) in change (bool_decide (lit a = lit b)) with v
  | |- context [bool_decide (lit ?a ∈ ?l)] =>
      let v := eval vm_compute in (bool_decide (lit a ∈ l)) in change (bool_decide (lit a ∈ l)) with v
  end; cbn [andb].

(** The request after the untrusted headers are gone. *)
Definition stripped (incoming : HeaderMap) : HeaderMap :=
  let h := remove_all (strip_hop_by_hop incoming) CLIENT_SUPPLIED_FORWARDING in
  remove_all h (List.filter (starts_with (lit "x-blaktail-")) (map fst (entries h))).

Lemma stripped_blaktail incoming m : starts_with (lit "x-blaktail-") m = true → get_all (stripped incoming) m = [].
Proof using H0.
  intros Hm. unfold stripped. set (h := remove_all (strip_hop_by_hop incoming) _). rw remove_all_get.
  case_bool_decide as Hin; [done|]. apply get_all_nil. intros Hx. apply Hin. rw list_elem_of_In filter_In -list_elem_of_In. done.
Qed.

Lemma stripped_hop incoming m : m ∈ HOP_BY_HOP ∨ m ∈ CLIENT_SUPPLIED_FORWARDING → get_all (stripped incoming) m = [].
Proof using H0.
  intros Hm. unfold stripped. rw remove_all_get. case_bool_decide; [done|]. rw remove_all_get. case_bool_decide; [done|].
  unfold strip_hop_by_hop. rw remove_all_get. case_bool_decide; [done|]. tauto.
Qed.

Lemma strip_cookies_get h m :
  get_all (strip_ingress_cookies h) m =
  if bool_decide (m = lit "cookie")
  then (if negb (length (kept_cookies h) =? 0)%nat && valid_value (join (lit "; ") (kept_cookies h))
        then [join (lit "; ") (kept_cookies h)] else [])
  else get_all h m.
Proof using H0.
  unfold strip_ingress_cookies. destruct (_ && _); rw ?insert_get remove_get; by case_bool_decide.
Qed.

Lemma kept_cookies_foreign h : Forall (λ pair, own_cookie pair = false) (kept_cookies h).
Proof using. apply Forall_forall. intros pair [_ Hp]%list_elem_of_In%filter_In. by to_prop. Qed.

(** The value of every header of the request sent on. *)
Lemma upstream_get incoming fqdn client ws user m :
  get_all (upstream_request_headers incoming fqdn client ws user) m =
  match user with
  | Some u => if valid_value u && bool_decide (m = USER_HEADER) then [u] else []
  | None => []
  end ++
  (if match user with Some u => valid_value u && bool_decide (m = USER_HEADER) | None => false end then []
   else if ws && bool_decide (m = lit "upgrade") then [lit "websocket"]
   else if ws && bool_decide (m = lit "connection") then [lit "upgrade"]
   else if bool_decide (m = lit "x-forwarded-proto") then [lit "https"]
   else if bool_decide (m = lit "x-forwarded-for") then [show_ip client]
   else if valid_value fqdn && bool_decide (m = lit "x-forwarded-host") then [fqdn]
   else if bool_decide (m = lit "host") then (if valid_value fqdn then [fqdn] else [])
   else get_all (strip_ingress_cookies (stripped incoming)) m).
Proof using H0.
  unfold upstream_request_headers. fold (stripped incoming).
  assert (∀ h, get_all (if valid_value fqdn then insert (insert (remove h (lit "host")) (lit "host") fqdn) (lit "x-forwarded-host") fqdn
                        else remove h (lit "host")) m =
    if valid_value fqdn && bool_decide (m = lit "x-forwarded-host") then [fqdn]
    else if bool_decide (m = lit "host") then (if valid_value fqdn then [fqdn] else []) else get_all h m) as Hhost.
  { intros h. destruct (valid_value fqdn); rw ?insert_get ?remove_get; by repeat case_bool_decide. }
  assert (∀ h, get_all (if ws then insert (insert h (lit "connection") (lit "upgrade")) (lit "upgrade") (lit "websocket") else h) m =
    if ws && bool_decide (m = lit "upgrade") then [lit "websocket"]
    else if ws && bool_decide (m = lit "connection") then [lit "upgrade"] else get_all h m) as Hws.
  { intros h. destruct ws; rw ?insert_get; by repeat case_bool_decide. }
  destruct user as [u|]; [destruct (valid_value u) eqn:Hu|]; cbn [andb app]; rw ?insert_get ?Hws ?insert_get ?Hhost //.
  by destruct (bool_decide (m = USER_HEADER)).
Qed.

(** A closed membership fact, by evaluation. *)
Ltac listed := apply (bool_decide_eq_true_1 _); vm_compute; reflexivity.

(** A false membership hypothesis, by evaluation. *)
Ltac unlisted := match goal with Hx : ?n ∈ ?l |- _ => exfalso; revert Hx; change (n ∉ l); listed end.

(** Go through the members of a literal list of names in the first premise. *)
Ltac members :=
  let Hin := fresh in
  intros Hin;
  repeat (apply elem_of_cons in Hin as [-> |Hin];
    [first [ done
           | unlisted
           | match goal with Hx : _ ∉ _ |- _ => exfalso; apply Hx; listed end ]|]);
  by apply not_elem_of_nil in Hin.

(** A header the ingress sets, by evaluating [upstream_get]. *)
Ltac solve_own user ws :=
  rw upstream_get; unfold USER_HEADER; destruct user, ws;
  repeat match goal with |- context [valid_value ?v] => destruct (valid_value v) end; names;
  first [ reflexivity
        | cbn [app]; rw strip_cookies_get; names;
          first [by apply stripped_blaktail | apply stripped_hop; right; listed] ].

(** A header the ingress does not set itself. *)
Lemma upstream_plain incoming fqdn client ws user m :
  m ∉ [USER_HEADER; lit "x-forwarded-proto"; lit "x-forwarded-for"; lit "x-forwarded-host"; lit "host"] →
  ws = false ∨ m ∉ [lit "connection"; lit "upgrade"] →
  get_all (upstream_request_headers incoming fqdn client ws user) m = get_all (strip_ingress_cookies (stripped incoming)) m.
Proof using H0.
  intros Hm Hws. rw upstream_get. apply not_elem_of_cons in Hm as [H1 Hm]. apply not_elem_of_cons in Hm as [H2 Hm].
  apply not_elem_of_cons in Hm as [H3 Hm]. apply not_elem_of_cons in Hm as [H4 Hm]. apply not_elem_of_cons in Hm as [H5 _].
  rw (bool_decide_false _ H1) (bool_decide_false _ H2) (bool_decide_false _ H3) (bool_decide_false _ H4) (bool_decide_false _ H5).
  rw !andb_false_r.
  destruct Hws as [->|Hn]; [by destruct user as [u|]; rw ?andb_false_r|].
  apply not_elem_of_cons in Hn as [Hn1 Hn]. apply not_elem_of_cons in Hn as [Hn2 _].
  rw (bool_decide_false _ Hn1) (bool_decide_false _ Hn2) !andb_false_r. by destruct user as [u|]; rw ?andb_false_r.
Qed.

(** A published service can trust what the ingress tells it: the client's
    address, the scheme, the host and the signed-in user are the ingress's own,
    whatever the client sent; no other forwarding, BlakTail or hop-by-hop header
    gets through, and no cookie of the ingress does. *)
Theorem upstream_headers_authentic (incoming : HeaderMap) (fqdn : str) (client : IpAddr) (ws : bool) (user : option str) :
  let up := upstream_request_headers incoming fqdn client ws user in
  get_all up (lit "x-forwarded-for") = [show_ip client] ∧
  get_all up (lit "x-forwarded-proto") = [lit "https"] ∧
  get_all up (lit "host") = (if valid_value fqdn then [fqdn] else []) ∧
  get_all up (lit "x-forwarded-host") = (if valid_value fqdn then [fqdn] else []) ∧
  get_all up USER_HEADER = match user with Some u => if valid_value u then [u] else [] | None => [] end ∧
  (∀ n, starts_with (lit "x-blaktail-") n = true → n ≠ USER_HEADER → get_all up n = []) ∧
  (∀ n, n ∈ CLIENT_SUPPLIED_FORWARDING → n ∉ [lit "x-forwarded-for"; lit "x-forwarded-host"; lit "x-forwarded-proto"] →
     get_all up n = []) ∧
  (∀ n, n ∈ HOP_BY_HOP → ws = false ∨ n ∉ [lit "connection"; lit "upgrade"] → get_all up n = []) ∧
  (∃ pairs, Forall (λ pair, own_cookie pair = false) pairs ∧
     (get_all up (lit "cookie") = [] ∨ get_all up (lit "cookie") = [join (lit "; ") pairs])).
Proof using H0.
  cbv zeta. split_and!; [solve_own user ws..|intros n Hn Hne|intros n Hn Hne|intros n Hn Hne|].
  - rw upstream_plain; [rw strip_cookies_get| |right]; [|members..].
    case_bool_decide; [by subst|by apply stripped_blaktail].
  - rw upstream_plain; [rw strip_cookies_get| |right].
    + case_bool_decide; [subst; unlisted|by apply stripped_hop; right].
    + members.
    + members.
  - rw upstream_plain; [rw strip_cookies_get| |done].
    + case_bool_decide; [subst; unlisted|by apply stripped_hop; left].
    + members.
  - exists (kept_cookies (stripped incoming)). split; [apply kept_cookies_foreign|].
    rw upstream_plain; [rw strip_cookies_get; names; destruct (_ && _); auto| |right]; listed.
Qed.

(** ** Responses *)

Context (parse_url : str → option LocationUrl).

Lemma rewrite_header_get fqdn target h name m :
  m ≠ name → get_all (rewrite_header parse_url fqdn target h name) m = get_all h m.
Proof using H0.
  intros Hm. unfold rewrite_header. destruct (head _ ≫= _) as [v|]; [|done]. destruct (valid_value v); [|done].
  by rw insert_get bool_decide_false.
Qed.

Lemma get_all_elem h n v : v ∈ get_all h n → (n, v) ∈ entries h.
Proof using.
  unfold get_all. intros ([n' v'] & Hv & [Hin Hn]%filter_In)%list_elem_of_In%in_map_iff.
  apply bool_decide_eq_true in Hn. cbn [fst snd] in Hv, Hn. subst. by apply list_elem_of_In.
Qed.

(** The response before the headers that leak are dropped. *)
Definition cleaned (upstream : HeaderMap) (fqdn : str) (target : SocketAddr) : HeaderMap :=
  foldl (rewrite_header parse_url fqdn target) (remove_all (strip_hop_by_hop upstream) RESPONSE_BANNERS)
    [lit "location"; lit "content-location"].

Lemma cleaned_get upstream fqdn target m :
  m ∉ [lit "location"; lit "content-location"] →
  get_all (cleaned upstream fqdn target) m = get_all (remove_all (strip_hop_by_hop upstream) RESPONSE_BANNERS) m.
Proof using H0.
  intros Hm. apply not_elem_of_cons in Hm as [H1 Hm]. apply not_elem_of_cons in Hm as [H2 _].
  unfold cleaned. cbn [foldl]. by rw !rewrite_header_get.
Qed.

Lemma response_get upstream fqdn target upgrade m :
  upgrade = false ∨ m ∉ [lit "connection"; lit "upgrade"] →
  get_all (client_response_headers parse_url upstream fqdn target upgrade) m =
  if bool_decide (m ∈ leaking (cleaned upstream fqdn target) target) then []
  else get_all (cleaned upstream fqdn target) m.
Proof using H0.
  intros Hm. unfold client_response_headers. fold (cleaned upstream fqdn target). rw -remove_all_get. destruct upgrade; [|done].
  destruct Hm as [|Hm]; [done|]. apply not_elem_of_cons in Hm as [H1 Hm]. apply not_elem_of_cons in Hm as [H2 _].
  rw !insert_get. by rw !bool_decide_false.
Qed.

(** A client learns nothing of the overlay from a response's headers: every value
    that gets through is text the leak check passes, no hop-by-hop header and no
    server banner is among them, and a header is passed on as it came or not at
    all, redirects excepted; only a protocol upgrade adds its two headers. *)
Theorem response_headers_reveal_nothing (upstream : HeaderMap) (fqdn : str) (target : SocketAddr) (upgrade : bool) (n : str)
    (Hn : upgrade = false ∨ n ∉ [lit "connection"; lit "upgrade"]) :
  let down := client_response_headers parse_url upstream fqdn target upgrade in
  Forall (λ v, visible v = true ∧ leaks v target = false) (get_all down n) ∧
  (n ∈ HOP_BY_HOP ∨ n ∈ RESPONSE_BANNERS → get_all down n = []) ∧
  (n ∉ [lit "location"; lit "content-location"] → get_all down n = [] ∨ get_all down n = get_all upstream n).
Proof using H0.
  cbv zeta. rw !response_get //. split_and!.
  - case_bool_decide as Hl; [done|]. apply Forall_forall. intros v Hv%get_all_elem.
    destruct (visible v && negb (leaks v target)) eqn:Hok; [to_prop; done|]. exfalso. apply Hl.
    apply list_elem_of_In, in_map_iff. exists (n, v). split; [done|]. apply filter_In. split; [by apply list_elem_of_In|].
    cbn [snd]. destruct (visible v); [|done]. by destruct (leaks v target).
  - intros Hs. case_bool_decide; [done|]. rw cleaned_get; [|destruct Hs; members].
    rw remove_all_get. case_bool_decide; [done|]. unfold strip_hop_by_hop. rw remove_all_get. case_bool_decide; [done|]. tauto.
  - intros Hl. case_bool_decide; [by left|]. rw cleaned_get //. unfold strip_hop_by_hop. rw !remove_all_get.
    repeat (case_bool_decide; [by left|]). by right.
Qed.
End headers.

(** ** Forwarded requests *)

Section forwarded.
Context {HA : HashIter IpAddr} {HS : HashIter str} `{HeaderMapLaws}.
Context (authority : str → option (str * option Z)) (gate : option (HeaderMap → str → list str → option str)).
Import Limits Routes.

(** What the target is told of the user: nothing, or the one address [email]. *)
Definition told (up : HeaderMap) (email : option str) : Prop :=
  ∀ n, starts_with (lit "x-blaktail-") n = true →
    get_all up n = match email with
                   | Some u => if bool_decide (n = lit "x-blaktail-user") && valid_value u then [u] else []
                   | None => []
                   end.

(** [C10] Whatever the coordinator and clients do, a request the ingress forwards is
    authorised: the TLS name and every host it names agree on a route served now,
    the table is fresh, the target is one the ingress may dial, the client's network
    is allowed, and the request takes one of the route's permits, of which one was
    left.  Whatever headers the client sent, the target is told of no user where the
    route wants no sign-in; where it does, it is told of exactly the user the gate
    recognised, in one header (none when the address is no header text), and of no
    other [x-blaktail-] value; the client address it is told is the client's. *)
Theorem forwarded_request_is_authorised (P : Z → Prop) (p : TargetPolicy) (t t' : RouteTable) (now : Z)
    (req : Proxy.Request) (client : IpAddr) (sni : option str)
    (h : nat) (tg : SocketAddr) (user : option str) (ws : bool) (up : HeaderMap)
    (Hreach : rtc (tstep authority gate P) (table_new p) t)
    (Hfwd : Proxy.handle authority gate t now req client sni = (t', Proxy.Forward h tg user ws up)) :
  ∃ host r, Proxy.request_host authority req 443 = Ok host ∧ sni = Some host ∧
    is_fresh t now = true ∧ routes t !! to_ascii_lowercase host = Some h ∧ store t !! h = Some r ∧
    tg = target r ∧ permits p (ip tg) = true ∧ port tg ≠ 0 ∧ port tg = target_port (config r) ∧
    source_allowed r client = true ∧
    0 < permits_left r ∧ permits_left <$> store t' !! h = Some (permits_left r - 1) ∧
    get_all up (lit "x-forwarded-for") = [show_ip client] ∧
    (if oidc r
     then ∃ session_user email, gate = Some session_user ∧
       session_user (Proxy.headers req) (fqdn (config r)) (allowed_email_domains (config r)) = Some email ∧ told up (Some email)
     else told up None).
Proof using H0.
  destruct (forward_passed authority gate P p t t' now req client sni h tg user ws up Hreach Hfwd)
    as (host & r & H1 & H2 & H3 & H4 & H5 & H6 & H7 & H8 & H9 & H10 & H11 & H12 & -> & Huser).
  destruct (upstream_headers_authentic (Proxy.headers req) (fqdn (config r)) client ws user) as (Hfor & _ & _ & _ & Hu & Hx & _).
  assert (told (upstream_request_headers (Proxy.headers req) (fqdn (config r)) client ws user) user) as Htold.
  { intros n Hn. change (lit "x-blaktail-user") with USER_HEADER. case_bool_decide as Hne; [|rewrite (Hx n Hn Hne); by destruct user].
    subst n. rewrite Hu. by destruct user. }
  exists host, r. split_and!; try done. destruct (oidc r); [|by subst user]. destruct Huser as (g & email & Hg & -> & He). eauto.
Qed.
End forwarded.

(** The leak check misses an address written after a word that ends in a
    hexadecimal letter and a colon: "node:100.64.0.9" passes, although the address
    is the overlay's and is caught alone or after another word. *)
Theorem labelled_address_passes :
  let target := mkSocketAddr (V4 (from_be [100; 64; 0; 7])) 8080 in
  internal_ip (V4 (from_be [100; 64; 0; 9])) = true ∧
  leaks (lit "100.64.0.9") target = true ∧ leaks (lit "host:100.64.0.9") target = true ∧
  leaks (lit "node:100.64.0.9") target = false.
Proof. split_and!; by vm_compute. Qed.

(** ** Sessions *)

Section session.
Import Oidc.
Context `{HeaderMapOps}.
Context (hmac : bytes → str → bytes) (b64_encode : bytes → str) (b64_decode : str → option bytes).
Context (to_json : SessionClaims → bytes) (from_json : bytes → option SessionClaims).

(** URL-safe base64 without padding. *)
Definition b64_char (c : Z) : Prop := is_ascii_alphanumeric c = true ∨ c = 45 ∨ c = 95.

Context (b64_alphabet : ∀ bs, Forall b64_char (b64_encode bs)).
Context (b64_roundtrip : ∀ bs, b64_decode (b64_encode bs) = Some bs).
Context (json_roundtrip : ∀ c, from_json (to_json c) = Some c).

Lemma b64_free c bs : ¬ b64_char c → c ∉ b64_encode bs.
Proof using b64_alphabet. intros Hc Hin. by apply Hc, (proj1 (Forall_forall _ _) (b64_alphabet bs)). Qed.

Lemma b64_char_graphic c : b64_char c → graphic c.
Proof using.
  unfold b64_char, graphic, is_ascii_alphanumeric, is_ascii_alphabetic, is_ascii_lowercase, is_ascii_uppercase, is_ascii_digit.
  intros [Hc|Hc]; to_prop; lia.
Qed.

Lemma verify_sign key purpose claims :
  verify hmac b64_decode from_json key purpose (sign hmac b64_encode to_json key purpose claims) = Some claims.
Proof using b64_alphabet b64_roundtrip json_roundtrip.
  unfold verify, sign. change (lit ".") with [46]. cbn [app]. rw split_once_app.
  2: { apply b64_free. intros [Hx|[Hx|Hx]]; by vm_compute in Hx. }
  cbn [mbind option_bind]. rw !b64_roundtrip. cbn [mbind option_bind]. rw bool_decide_true //.
Qed.

Lemma sign_chars key purpose claims c :
  c ∈ sign hmac b64_encode to_json key purpose claims → b64_char c ∨ c = 46.
Proof using b64_alphabet.
  unfold sign. change (lit ".") with [46]. rw !elem_of_app list_elem_of_singleton. intros [Hc|[Hc|Hc]]; [left|by right|left];
  eapply (proj1 (Forall_forall _ _)); eauto.
Qed.

Lemma pair_chars key purpose claims c :
  c ∈ SESSION_COOKIE ++ 61 :: sign hmac b64_encode to_json key purpose claims → b64_char c ∨ c = 46 ∨ c = 61.
Proof using b64_alphabet.
  rw elem_of_app elem_of_cons. intros [Hc|[->|[Hc|Hc]%sign_chars]]; [left|tauto..].
  revert c Hc. apply Forall_forall. repeat (constructor; [first [by left|by right; left|by right; right]|]). constructor.
Qed.

Lemma pair_free key purpose claims : 59 ∉ SESSION_COOKIE ++ 61 :: sign hmac b64_encode to_json key purpose claims.
Proof using b64_alphabet. intros [[Hx|[Hx|Hx]]|[Hx|Hx]]%pair_chars; by vm_compute in Hx. Qed.

(** [C40] The session cookie round trips: the pair a browser sends back of the cookie
    set at a sign-in names its user to the host it was set for, until eight hours
    after the sign-in and while the address is of an allowed domain; any other
    host, later time or domain list finds nobody. *)
Theorem session_roundtrip (key : bytes) (hs : HeaderMap) (host email host' : str) (issued now : Z) (domains : list str) (pair : str)
    (Hset : head (split 59 (session_cookie hmac b64_encode to_json key host email issued)) = Some pair)
    (Hsent : get_all hs (lit "cookie") = [pair]) (Htext : visible pair = true) :
  session_user hmac b64_decode from_json key now hs host' domains =
  if bool_decide (host = host') && (now <? issued + 28800) && email_allowed email domains then Some email else None.
Proof using b64_alphabet b64_roundtrip json_roundtrip.
  set (value := sign hmac b64_encode to_json key (lit "session") (mkSessionClaims host email (issued + SESSION_SECS))).
  assert (pair = SESSION_COOKIE ++ 61 :: value) as ->.
  { assert (session_cookie hmac b64_encode to_json key host email issued = (SESSION_COOKIE ++ 61 :: value) ++
      59 :: lit " Path=/; Secure; HttpOnly; SameSite=Lax; Max-Age=" ++ dec SESSION_SECS) as Heq by by rewrite -app_assoc.
    rewrite Heq split_app in Hset; [by injection Hset|by apply pair_free]. }
  assert (Forall graphic (SESSION_COOKIE ++ 61 :: value)) as Hg.
  { apply Forall_forall. intros c [Hc|Hc]%pair_chars; [by apply b64_char_graphic|]. unfold graphic. lia. }
  unfold session_user, cookie, tokens_of. rw Hsent. cbn [List.filter]. rw Htext. cbn [flat_map]. rw split_none; [|by apply pair_free].
  cbn [app omap list_omap]. rw trim_graphic // split_once_app. 2: { apply (bool_decide_eq_true_1 _). by vm_compute. }
  cbn [List.find fst]. rw bool_decide_true //. cbn [fmap option_fmap option_map snd mbind option_bind]. rw verify_sign.
  cbn [mbind option_bind h x e]. by change SESSION_SECS with 28800.
Qed.
End session.

(** ** Instances *)

#[local] Instance list_header_laws : @HeaderMapLaws list_headers.
Proof.
  assert (∀ (h : list (str * str)) n m, map snd (List.filter (λ e, bool_decide (e.1 = m)) (List.filter (λ e, negb (bool_decide (e.1 = n))) h)) =
    if bool_decide (m = n) then [] else map snd (List.filter (λ e, bool_decide (e.1 = m)) h)) as Hrem.
  { intros h n m. induction h as [|[k v] h IH]; [by case_bool_decide|]. cbn [List.filter fst].
    destruct (bool_decide (k = n)) eqn:Hk; cbn [negb List.filter fst]; [|destruct (bool_decide (k = m)) eqn:Hkm; cbn [map]];
      rewrite IH; repeat case_bool_decide; to_prop; congruence. }
  constructor.
  - intros h n m. apply Hrem.
  - intros h n v m. unfold get_all. cbn. rewrite List.filter_app map_app Hrem. cbn. repeat case_bool_decide; cbn; rewrite ?app_nil_r; congruence.
  - intros s Hs. cbn. apply forallb_forall. intros c Hc%list_elem_of_In. pose proof (proj1 (Forall_forall _ _) Hs c Hc) as Hg.
    unfold graphic in Hg. apply orb_true_iff. left. apply andb_true_iff. split; [apply Z.leb_le|apply negb_true_iff, Z.eqb_neq]; lia.
Qed.

Lemma upstream_headers_authentic_witness :
  get_all (upstream_request_headers (H := list_headers) [(lit "x-forwarded-for", lit "10.0.0.1"); (USER_HEADER, lit "root")]
    (lit "app.example") (V4 (from_be [203; 0; 113; 7])) false None) USER_HEADER = [].
Proof.
  destruct (upstream_headers_authentic (H := list_headers) [(lit "x-forwarded-for", lit "10.0.0.1"); (USER_HEADER, lit "root")]
    (lit "app.example") (V4 (from_be [203; 0; 113; 7])) false None) as (_ & _ & _ & _ & Huser & _).
  exact Huser.
Defined.

(** A route behind a sign-in, a client that claims to be root and a gate that knows better. *)
Definition demo_headers : list (str * str) := [(lit "host", lit "app.example"); (lit "x-blaktail-user", lit "root")].
Definition demo_signed : Routes.RouteConfig :=
  Routes.mkRouteConfig (lit "id") (lit "App.example") (lit "100.64.0.9") 8080 [] (lit "oidc") [] [lit "203.0.113.0/24"] 60 0 4 7 1.
Definition signed_table : Routes.RouteTable :=
  (Routes.apply (Routes.table_new Routes.default_policy) 0 (Routes.mkIngressConfig 1 30 [demo_signed])).1.

Lemma forwarded_request_is_authorised_witness :
  let gate := Some (λ (_ : list (str * str)) (_ : str) (_ : list str), Some (lit "ann@b.org")) in
  let '(t', d) := Proxy.handle (H := list_headers) (λ s, Some (s, None)) gate signed_table 5
    (Proxy.mkRequest (H := list_headers) (lit "GET") None (lit "/") demo_headers) (V4 (from_be [203; 0; 113; 7])) (Some (lit "app.example")) in
  ∃ up, d = Proxy.Forward (H := list_headers) 0 (mkSocketAddr (V4 (from_be [100; 64; 0; 9])) 8080) (Some (lit "ann@b.org")) false up ∧
    get_all (H := list_headers) up (lit "x-blaktail-user") = [lit "ann@b.org"] ∧ Routes.permits_left <$> Routes.store t' !! 0%nat = Some 3.
Proof.
  intros gate. destruct (Proxy.handle _ _ _ _ _ _ _) as [t' d] eqn:Hd.
  assert (∃ up, d = Proxy.Forward (H := list_headers) 0 (mkSocketAddr (V4 (from_be [100; 64; 0; 9])) 8080) (Some (lit "ann@b.org")) false up) as [up ->].
  { apply (f_equal snd) in Hd. cbn [snd] in Hd. rewrite <- Hd. eexists. vm_compute. reflexivity. }
  assert (rtc (tstep (H := list_headers) (λ s, Some (s, None)) gate (λ _, True)) (Routes.table_new Routes.default_policy) signed_table) as Hreach
    by (apply rtc_once; by apply step_apply).
  destruct (forwarded_request_is_authorised (H := list_headers) (λ s, Some (s, None)) gate (λ _, True) Routes.default_policy signed_table t' 5 _
    (V4 (from_be [203; 0; 113; 7])) (Some (lit "app.example")) 0 _ _ false up Hreach Hd)
    as (host & r & _ & _ & _ & _ & Hr & _ & _ & _ & _ & _ & _ & Hleft & _ & Huser).
  assert (Routes.store signed_table !! 0%nat = Some (Routes.live_new demo_signed (mkSocketAddr (V4 (from_be [100; 64; 0; 9])) 8080)
    [(V4 (from_be [203; 0; 113; 0]), 24)] 0)) as Hr' by (vm_compute; reflexivity).
  rewrite Hr in Hr'. injection Hr' as ->. exists up. split; [done|]. split; [|by rewrite Hleft].
  destruct Huser as (g & email & [= <-] & [= <-] & Htold). rewrite Htold; vm_compute; reflexivity.
Defined.

Lemma response_headers_reveal_nothing_witness :
  get_all (client_response_headers (H := list_headers) (λ _, None) [(lit "server", lit "nginx")] (lit "app.example")
    (mkSocketAddr (V4 (from_be [100; 64; 0; 7])) 8080) false) (lit "server") = [].
Proof.
  apply (response_headers_reveal_nothing (H := list_headers)); [by left|right]. apply (bool_decide_eq_true_1 _). by vm_compute.
Defined.

(** An injective text for every value, to evaluate sessions on. *)
Fixpoint pos_text (p : positive) : str := match p with xI p => 97 :: pos_text p | xO p => 98 :: pos_text p | xH => [] end.
Fixpoint text_pos (s : str) : positive :=
  match s with [] => xH | c :: s => if c =? 97 then xI (text_pos s) else xO (text_pos s) end.

Lemma pos_text_roundtrip p : text_pos (pos_text p) = p.
Proof. induction p as [p IH|p IH|]; cbn [pos_text text_pos]; [by rewrite IH..|done]. Qed.

Lemma pos_text_chars p : Forall b64_char (pos_text p).
Proof. induction p; cbn [pos_text]; repeat constructor; done. Qed.

Definition text_of `{Countable A} (a : A) : str := pos_text (encode a).
Definition of_text `{Countable A} (s : str) : option A := decode (text_pos s).

Lemma of_text_of `{Countable A} (a : A) : of_text (text_of a) = Some a.
Proof. unfold of_text, text_of. by rewrite pos_text_roundtrip decode_encode. Qed.

Definition claims_tuple (c : Oidc.SessionClaims) : str * str * Z := (Oidc.h c, Oidc.e c, Oidc.x c).
Definition tuple_claims (t : str * str * Z) : Oidc.SessionClaims := Oidc.mkSessionClaims t.1.1 t.1.2 t.2.

Definition demo_hmac (key m : str) : str := [Z.of_nat (length (key ++ m))].
Definition demo_json (c : Oidc.SessionClaims) : str := text_of (claims_tuple c).
Definition demo_claims (s : str) : option Oidc.SessionClaims := tuple_claims <$> of_text s.
Definition demo_pair : str :=
  default [] (head (split 59 (Oidc.session_cookie demo_hmac text_of demo_json [1; 2] (lit "a.example") (lit "u@b.org") 0))).

Lemma demo_json_roundtrip c : demo_claims (demo_json c) = Some c.
Proof. unfold demo_claims, demo_json. rewrite of_text_of. by destruct c. Qed.

Lemma session_roundtrip_witness :
  Oidc.session_user (H := list_headers) demo_hmac of_text demo_claims [1; 2] 100 [(lit "cookie", demo_pair)] (lit "a.example")
    [lit "b.org"] = Some (lit "u@b.org").
Proof.
  refine (eq_trans (session_roundtrip (H := list_headers) demo_hmac text_of of_text demo_json demo_claims
    (λ bs, pos_text_chars _) of_text_of demo_json_roundtrip
    [1; 2] [(lit "cookie", demo_pair)] (lit "a.example") (lit "u@b.org") (lit "a.example") 0 100 [lit "b.org"] demo_pair _ _ _) _);
  vm_compute; reflexivity.
Defined.
