(* ===== verification/Relay.v ===== *)
(** * The relay server

    [blaktail-relay/src/lib.rs]: registration by capability token, forwarding
    between live registrations over UDP and WebSocket streams, rate limits, and
    the loop that serves them.

    HMAC-SHA256 is an argument.  A call reads the clocks a few times: [Clock]
    holds the readings.  A stream's sender is its bounded queue; the task that
    empties it is the step [drain]. *)

From S2P Require Import Prelude Text Net Float64 Frame.

Module Relay.

Definition DEFAULT_IDLE_SECS : Z := 120.
Definition DEFAULT_RATE_PER_SEC : Z := 100.
Definition DEFAULT_RATE_BURST : Z := 200.
Definition MAX_RATE_BUCKETS : nat := Z.to_nat 65536.
Definition SOURCE_RATE_MULTIPLIER : Z := 10.
Definition QUEUE_FRAMES : nat := 64.

Record RelayConfig := mkRelayConfig {
  auth_secret : bytes;
  idle_secs : Z;
  rate_per_sec : Z;
  rate_burst : Z;
  region : str
}.

Definition config_default : RelayConfig :=
  mkRelayConfig [] DEFAULT_IDLE_SECS DEFAULT_RATE_PER_SEC DEFAULT_RATE_BURST (lit "ap-southeast-2").

Inductive PeerAddr := Udp (address : SocketAddr) | Stream (id : Z).

#[export] Instance PeerAddr_eq_dec : EqDecision PeerAddr.
Proof. solve_decision. Defined.

Record Client := mkClient { addr : PeerAddr; expires_at : Z; last_seen : Z }.
Record Bucket := mkBucket { tokens : f64; last_refill : Z }.

(** The counters of [Metrics] this code changes. *)
Inductive Counter :=
| registers_ok | registers_rejected | forwards | bytes_relayed | unknown_destination | rate_limited | oversized
| stream_queue_full.

#[export] Instance Counter_eq_dec : EqDecision Counter.
Proof. solve_decision. Defined.

Abbreviation Metrics := (Counter → Z).

Definition fetch_add (m : Metrics) (c : Counter) (n : Z) : Metrics :=
  λ c', if bool_decide (c' = c) then u64_add (m c) n else m c'.

(** A [mpsc::Sender] with its queue; [open_] says the receiver still listens. *)
Record Sender := mkSender { queue : list bytes; open_ : bool }.

Inductive TrySend := Sent | Full | ClosedQueue.

Definition try_send (tx : Sender) (packet : bytes) : Sender * TrySend :=
  if negb (open_ tx) then (tx, ClosedQueue)
  else if (QUEUE_FRAMES <=? length (queue tx))%nat then (tx, Full)
  else (mkSender (queue tx ++ [packet]) true, Sent).

Record Hub := mkHub {
  config : RelayConfig;
  metrics : Metrics;
  clients : gmap NodeId Client;
  source_buckets : gmap IpAddr Bucket;
  node_buckets : gmap NodeId Bucket;
  streams : gmap Z (SocketAddr * Sender);
  events_open : bool
}.

Definition set_metrics (h : Hub) (m : Metrics) : Hub :=
  mkHub (config h) m (clients h) (source_buckets h) (node_buckets h) (streams h) (events_open h).
Definition set_clients (h : Hub) (c : gmap NodeId Client) : Hub :=
  mkHub (config h) (metrics h) c (source_buckets h) (node_buckets h) (streams h) (events_open h).
Definition set_source_buckets (h : Hub) (b : gmap IpAddr Bucket) : Hub :=
  mkHub (config h) (metrics h) (clients h) b (node_buckets h) (streams h) (events_open h).
Definition set_node_buckets (h : Hub) (b : gmap NodeId Bucket) : Hub :=
  mkHub (config h) (metrics h) (clients h) (source_buckets h) b (streams h) (events_open h).
Definition set_streams (h : Hub) (s : gmap Z (SocketAddr * Sender)) : Hub :=
  mkHub (config h) (metrics h) (clients h) (source_buckets h) (node_buckets h) s (events_open h).

Definition count (h : Hub) (c : Counter) : Hub := set_metrics h (fetch_add (metrics h) c 1).

(** What a call reads: [SystemTime] once, [Instant] up to three times in order. *)
Record Clock := mkClock { unix_now : Z; now1 : Z; now2 : Z; now3 : Z }.

Definition admit_bucket (b : Bucket) (rate burst now : Z) : Bucket * bool :=
  let elapsed := as_secs_f64 (duration_since now (last_refill b)) in
  let t := f64_min (f64_add (tokens b) (f64_mul elapsed (f64_of_Z rate))) (f64_of_Z burst) in
  if f64_leb (f64_of_Z 1) t then (mkBucket (f64_sub t (f64_of_Z 1)) now, true) else (mkBucket t now, false).

Definition admitted `{Countable K} (buckets : gmap K Bucket) (key : K) (rate burst now : Z) : gmap K Bucket * bool :=
  if (MAX_RATE_BUCKETS <=? size buckets)%nat && negb (bool_decide (is_Some (buckets !! key))) then (buckets, false)
  else
    let '(b, ok) := admit_bucket (default (mkBucket (f64_of_Z burst) now) (buckets !! key)) rate burst now in
    (<[key := b]> buckets, ok).

Definition u32_saturating_mul (a b : Z) : Z := Z.min U32_MAX (a * b).

Section relay.
Context {HI : HashIter NodeId} (hmac : bytes → bytes → bytes).

Definition mint_token (secret : bytes) (node_id : NodeId) (expires_at_unix : Z) : bytes :=
  hmac secret (node_id ++ be_bytes EXPIRY_LEN expires_at_unix).

Definition verify_token (secret : bytes) (node_id : NodeId) (expires_at_unix : Z) (token : bytes) : bool :=
  if negb (length token =? TOKEN_LEN)%nat || (length secret =? 0)%nat then false
  else bool_decide (token = hmac secret (node_id ++ be_bytes EXPIRY_LEN expires_at_unix)).

Definition remote (h : Hub) (peer : PeerAddr) : option SocketAddr :=
  match peer with
  | Udp address => Some address
  | Stream id => fst <$> streams h !! id
  end.

(** [iter().find_map(..)]: the id registered at an address. *)
Definition registered_at (h : Hub) (source : PeerAddr) : option NodeId :=
  fst <$> List.find (λ e, bool_decide (addr e.2 = source)) (hash_iter (clients h)).

Definition touch (now : Z) (c : Client) : Client := mkClient (addr c) (expires_at c) now.

Definition handle_register (h : Hub) (at_ : Clock) (data : bytes) (source : PeerAddr) : Hub :=
  let id := slice 1 HEADER data in
  if negb (length data =? REGISTER_FRAME)%nat then count h registers_rejected
  else
    let expires := from_be (slice HEADER (HEADER + EXPIRY_LEN) data) in
    if negb (verify_token (auth_secret (config h)) id expires (drop (HEADER + EXPIRY_LEN) data))
    then count h registers_rejected
    else if expires <=? unix_now at_ then count h registers_rejected
    else
      let cs := filter (λ e, e.1 = id ∨ addr e.2 ≠ source) (clients h) in
      count (set_clients h (<[id := mkClient source expires (now2 at_)]> cs)) registers_ok.

(** The node's own bucket, after the registration was touched. *)
Definition admit_node (h : Hub) (at_ : Clock) (id : NodeId) : Hub * bool :=
  let h := set_clients h (alter (touch (now2 at_)) id (clients h)) in
  let '(b, ok) := admitted (node_buckets h) id (rate_per_sec (config h)) (rate_burst (config h)) (now3 at_) in
  (set_node_buckets h b, ok).

Definition handle_send (h : Hub) (at_ : Clock) (data : bytes) (source : PeerAddr) : Hub * option (PeerAddr * bytes) :=
  let id := slice 1 HEADER data in
  if MAX_SEND_FRAME <? len data then (count h oversized, None)
  else match registered_at h source with
  | None => (count h unknown_destination, None)
  | Some source_id =>
      let now := unix_now at_ in
      if match clients h !! source_id with Some c => expires_at c <=? now | None => false end
      then (count (set_clients h (delete source_id (clients h))) unknown_destination, None)
      else
        let '(h, ok) := admit_node h at_ source_id in
        if negb ok then (count h rate_limited, None)
        else match clients h !! id with
        | None => (count h unknown_destination, None)
        | Some destination =>
            if expires_at destination <=? now
            then (count (set_clients h (delete id (clients h))) unknown_destination, None)
            else (h, Some (addr destination, [FORWARDED] ++ source_id ++ drop HEADER data))
        end
  end.

Definition handle_ping (h : Hub) (at_ : Clock) (data : bytes) (source : PeerAddr) (source_addr : SocketAddr) :
    Hub * option (PeerAddr * bytes) :=
  let id := slice 1 HEADER data in
  if negb (length data =? HEADER)%nat then (h, None)
  else
    let registered_source := match clients h !! id with
                             | Some c => bool_decide (addr c = source) && (unix_now at_ <? expires_at c)
                             | None => false
                             end in
    if negb registered_source then (count h unknown_destination, None)
    else
      let '(h, ok) := admit_node h at_ id in
      if negb ok then (count h rate_limited, None)
      else (h, Some (source, observed_frame id source_addr)).

Definition handle (h : Hub) (at_ : Clock) (data : bytes) (source : PeerAddr) : Hub * option (PeerAddr * bytes) :=
  match remote h source with
  | None => (h, None)
  | Some source_addr =>
      let '(b, ok) := admitted (source_buckets h) (ip source_addr)
                        (u32_saturating_mul (rate_per_sec (config h)) SOURCE_RATE_MULTIPLIER)
                        (u32_saturating_mul (rate_burst (config h)) SOURCE_RATE_MULTIPLIER) (now1 at_) in
      let h := set_source_buckets h b in
      if negb ok then (count h rate_limited, None)
      else if (length data <? HEADER)%nat then (count h oversized, None)
      else match head data with
      | Some tag =>
          if tag =? REGISTER then (handle_register h at_ data source, None)
          else if tag =? SEND then handle_send h at_ data source
          else if tag =? PING then handle_ping h at_ data source source_addr
          else (h, None)
      | None => (h, None)
      end
  end.

(** One reading of the monotonic clock stands for those of the entries. *)
Definition reap (h : Hub) (at_ : Clock) : Hub :=
  let idle := secs (idle_secs (config h)) in
  let bucket_idle := secs (Z.max (idle_secs (config h)) 60) in
  let fresh b := duration_since (now1 at_) (last_refill b) <? bucket_idle in
  mkHub (config h) (metrics h)
    (filter (λ e, unix_now at_ < expires_at e.2 ∧ duration_since (now1 at_) (last_seen e.2) < idle) (clients h))
    (filter (λ e, fresh e.2 = true) (source_buckets h)) (filter (λ e, fresh e.2 = true) (node_buckets h))
    (streams h) (events_open h).

(** ** The loop of [serve_with_streams] *)

Inductive ServeError := Unauthenticated | OutsideAustralia.

Definition hub_new (config : RelayConfig) : result ServeError Hub :=
  if (length (auth_secret config) =? 0)%nat then Err Unauthenticated
  else if negb (is_australian_region (region config)) then Err OutsideAustralia
  else Ok (mkHub config (λ _, 0) ∅ ∅ ∅ ∅ true).

(** What one turn of the loop receives. *)
Inductive Event :=
| Datagram (data : bytes) (source : SocketAddr)
| StreamOpen (id : Z) (remote : SocketAddr) (tx : Sender)
| StreamFrame (id : Z) (frame : bytes)
| StreamClosed (id : Z)
| EventsClosed
| ReapTick.

Definition receive (h : Hub) (at_ : Clock) (ev : Event) : Hub * option (PeerAddr * bytes) :=
  match ev with
  | Datagram data source => handle h at_ data (Udp source)
  | StreamOpen id remote tx => (set_streams h (<[id := (remote, tx)]> (streams h)), None)
  | StreamFrame id frame => handle h at_ frame (Stream id)
  | StreamClosed id =>
      (set_clients (set_streams h (delete id (streams h))) (filter (λ e, addr e.2 ≠ Stream id) (clients h)), None)
  | EventsClosed => (mkHub (config h) (metrics h) (clients h) (source_buckets h) (node_buckets h) (streams h) false, None)
  | ReapTick => (reap h at_, None)
  end.

(** Delivery: [sent] is what [send_to] answers for a datagram. *)
Definition deliver (h : Hub) (destination : PeerAddr) (packet : bytes) (sent : Z) : Hub * bool :=
  match destination with
  | Udp _ => (h, sent =? len packet)
  | Stream id =>
      match streams h !! id with
      | Some (remote, tx) =>
          let '(tx, r) := try_send tx packet in
          let h := set_streams h (<[id := (remote, tx)]> (streams h)) in
          match r with
          | Sent => (h, true)
          | Full => (count h stream_queue_full, false)
          | ClosedQueue => (h, false)
          end
      | None => (h, false)
      end
  end.

Definition turn (h : Hub) (at_ : Clock) (ev : Event) (sent : Z) : Hub * option (PeerAddr * bytes * bool) :=
  match receive h at_ ev with
  | (h, None) => (h, None)
  | (h, Some (destination, packet)) =>
      let '(h, delivered) := deliver h destination packet sent in
      let is_forward := bool_decide (head packet = Some FORWARDED) in
      let h := if delivered && is_forward
               then set_metrics h (fetch_add (fetch_add (metrics h) forwards 1) bytes_relayed (len packet)) else h in
      (h, Some (destination, packet, delivered))
  end.

(** The connection task takes the first frame of its queue. *)
Definition drain (h : Hub) (id : Z) : Hub :=
  set_streams h (alter (λ e, (e.1, mkSender (tail (queue e.2)) (open_ e.2))) id (streams h)).

End relay.
End Relay.
