(* ===== verification/RelayProps.v ===== *)
(** * What the relay guarantees

    Whatever frames arrive, the relay sends only to and for nodes that proved a
    capability at the address they are using, what a node sends reaches its
    registered peer, and every table it keeps for strangers is bounded. *)

From S2P Require Import Prelude Text Net Float64 Frame Relay.
Import Relay.

#[local] Opaque MAX_RATE_BUCKETS admitted.

Section relay.
Context {HI : HashIter NodeId} (hmac : bytes → bytes → bytes).

(** ** Registrations *)

(** A registration the relay accepted. *)
Record Reg := mkReg { r_id : NodeId; r_addr : PeerAddr; r_expires : Z; r_token : bytes }.

Definition source_admits (h : Hub) (at_ : Clock) (source : PeerAddr) : bool :=
  match remote h source with
  | Some sa => (admitted (source_buckets h) (ip sa)
                  (u32_saturating_mul (rate_per_sec (config h)) SOURCE_RATE_MULTIPLIER)
                  (u32_saturating_mul (rate_burst (config h)) SOURCE_RATE_MULTIPLIER) (now1 at_)).2
  | None => false
  end.

(** The registration a frame makes, if it makes one. *)
Definition registers (h : Hub) (at_ : Clock) (data : bytes) (source : PeerAddr) : option Reg :=
  let r := mkReg (slice 1 HEADER data) source (from_be (slice HEADER (HEADER + EXPIRY_LEN) data))
             (drop (HEADER + EXPIRY_LEN) data) in
  if source_admits h at_ source && (length data =? REGISTER_FRAME)%nat && bool_decide (head data = Some REGISTER)
     && verify_token hmac (auth_secret (config h)) (r_id r) (r_expires r) (r_token r) && (unix_now at_ <? r_expires r)
  then Some r else None.

Definition event_registers (h : Hub) (at_ : Clock) (ev : Event) : list Reg :=
  match ev with
  | Datagram data source => option_list (registers h at_ data (Udp source))
  | StreamFrame id frame => option_list (registers h at_ frame (Stream id))
  | _ => []
  end.

Definition from_stream (ev : Event) : bool :=
  match ev with StreamOpen _ _ _ | StreamFrame _ _ | StreamClosed _ | EventsClosed => true | _ => false end.

(** Reachable hubs, with the registrations accepted so far, newest first. *)
Inductive reach (c : RelayConfig) : list Reg → Hub → Prop :=
| reach_start h : hub_new c = Ok h → reach c [] h
| reach_turn log h at_ ev sent :
    reach c log h → (from_stream ev = true → events_open h = true) →
    (∀ id sa tx, ev = StreamOpen id sa tx → tx = mkSender [] true) →
    reach c (event_registers h at_ ev ++ log) (turn hmac h at_ ev sent).1
| reach_drain log h id : reach c log h → reach c log (drain h id).

(** The registration a client entry stands for is the last one of its node and the
    last one at its address. *)
Definition current (secret : bytes) (log : list Reg) (id : NodeId) (a : PeerAddr) (expires : Z) : Prop :=
  ∃ token post pre, log = post ++ mkReg id a expires token :: pre ∧
    Forall (λ r, r_id r ≠ id ∧ r_addr r ≠ a) post ∧
    token = mint_token hmac secret id expires ∧ secret ≠ [] ∧ length id = ID_LEN.

Definition clients_ok (secret : bytes) (log : list Reg) (cs : gmap NodeId Client) : Prop :=
  ∀ id c, cs !! id = Some c → current secret log id (addr c) (expires_at c).

(** Entries are dropped or touched, never changed. *)
Definition shrinks (cs cs' : gmap NodeId Client) : Prop :=
  ∀ id c', cs' !! id = Some c' → ∃ c, cs !! id = Some c ∧ addr c = addr c' ∧ expires_at c = expires_at c'.

Lemma shrinks_refl cs : shrinks cs cs.
Proof using. intros id c Hc. by exists c. Qed.

Lemma shrinks_trans a b c : shrinks a b → shrinks b c → shrinks a c.
Proof using.
  intros Hab Hbc id x Hx. destruct (Hbc id x Hx) as (y & Hy & Ha & He). destruct (Hab id y Hy) as (z & Hz & Ha' & He').
  exists z. split_and!; [done|congruence..].
Qed.

Lemma shrinks_delete cs id : shrinks cs (delete id cs).
Proof using. intros k c [_ Hc]%lookup_delete_Some. by exists c. Qed.

Lemma shrinks_filter cs (P : NodeId * Client → Prop) `{∀ e, Decision (P e)} : shrinks cs (filter P cs).
Proof using. intros k c [Hc _]%map_lookup_filter_Some. by exists c. Qed.

Lemma shrinks_touch cs now id : shrinks cs (alter (touch now) id cs).
Proof using.
  intros k c Hc. apply lookup_alter_Some in Hc as [(-> & c0 & Hc0 & ->)|[_ Hc]]; [by exists c0|by exists c].
Qed.

Lemma shrinks_ok secret log cs cs' : shrinks cs cs' → clients_ok secret log cs → clients_ok secret log cs'.
Proof using. intros Hs Hok id c' Hc'. destruct (Hs id c' Hc') as (c & Hc & <- & <-). by apply Hok. Qed.

Lemma admit_node_shrinks h at_ id : shrinks (clients h) (clients (admit_node h at_ id).1) ∧ config (admit_node h at_ id).1 = config h.
Proof using. unfold admit_node. destruct (admitted _ _ _ _ _) as [b ok]. split; [apply shrinks_touch|done]. Qed.

Lemma handle_send_shrinks h at_ data source : shrinks (clients h) (clients (handle_send h at_ data source).1).
Proof using.
  unfold handle_send. case_match; [apply shrinks_refl|]. destruct (registered_at h source) as [sid|]; [|apply shrinks_refl].
  destruct (match clients h !! sid with Some _ => _ | None => _ end); [apply shrinks_delete|]. pose proof (admit_node_shrinks h at_ sid) as [Hs _].
  destruct (admit_node h at_ sid) as [h1 ok]. cbn [fst] in Hs. destruct ok; cbn [negb]; [|exact Hs].
  destruct (clients h1 !! _) as [d|]; [|exact Hs]. case_match; [|exact Hs]. eapply shrinks_trans; [exact Hs|apply shrinks_delete].
Qed.

Lemma handle_ping_shrinks h at_ data source sa : shrinks (clients h) (clients (handle_ping h at_ data source sa).1).
Proof using.
  unfold handle_ping. case_match; [apply shrinks_refl|].
  destruct (negb (match clients h !! _ with Some _ => _ | None => _ end)); [apply shrinks_refl|].
  pose proof (admit_node_shrinks h at_ (slice 1 HEADER data)) as [Hs _].
  destruct (admit_node h at_ _) as [h1 ok]. by destruct ok.
Qed.

(** What a frame does to the registrations. *)
Lemma handle_clients h at_ data source :
  match registers h at_ data source with
  | Some r => ∃ now, clients (handle hmac h at_ data source).1 =
                <[r_id r := mkClient source (r_expires r) now]> (filter (λ e, e.1 = r_id r ∨ addr e.2 ≠ source) (clients h))
  | None => shrinks (clients h) (clients (handle hmac h at_ data source).1)
  end.
Proof using.
  unfold registers, source_admits, handle. destruct (remote h source) as [sa|]; [|apply shrinks_refl].
  destruct (admitted _ _ _ _ _) as [b ok]. cbn [snd]. destruct ok; cbn [andb negb]; [|apply shrinks_refl].
  destruct (Nat.ltb_spec (length data) HEADER) as [Hlt|Hge].
  { replace (length data =? REGISTER_FRAME)%nat with false; [apply shrinks_refl|]. symmetry. apply Nat.eqb_neq.
    unfold REGISTER_FRAME. lia. }
  destruct data as [|tag data']; [by unfold HEADER in Hge; simpl in Hge; lia|]. set (data := tag :: data') in *.
  change (head data) with (Some tag). cbv iota. destruct (Z.eqb_spec tag REGISTER) as [->|Hne].
  - rw bool_decide_true //. cbn [fst]. unfold handle_register. destruct (length data =? REGISTER_FRAME)%nat; cbn [andb negb r_id r_expires r_token];
      [|apply shrinks_refl]. cbn [config set_source_buckets]. destruct (verify_token _ _ _ _ _); cbn [andb negb]; [|apply shrinks_refl].
    rw Z.ltb_antisym. destruct (_ <=? unix_now at_); cbn [negb]; [apply shrinks_refl|]. by exists (now2 at_).
  - rw (bool_decide_false (Some tag = Some REGISTER)); [|congruence]. rw andb_false_r. cbn [andb].
    destruct (tag =? SEND); [apply (handle_send_shrinks (set_source_buckets h b))|].
    destruct (tag =? PING); [apply (handle_ping_shrinks (set_source_buckets h b))|apply shrinks_refl].
Qed.

Lemma verify_token_true secret id expires token :
  verify_token hmac secret id expires token = true → token = mint_token hmac secret id expires ∧ secret ≠ [].
Proof using.
  unfold verify_token. destruct (_ || _) eqn:Hg; [done|]. intros Ht. to_prop. split; [done|]. intros ->. done.
Qed.

Lemma registers_valid h at_ data source r :
  registers h at_ data source = Some r →
  r_addr r = source ∧ r_token r = mint_token hmac (auth_secret (config h)) (r_id r) (r_expires r) ∧
  auth_secret (config h) ≠ [] ∧ length (r_id r) = ID_LEN ∧ unix_now at_ < r_expires r.
Proof using.
  unfold registers. destruct (_ && _) eqn:Hc; [|done]. intros <-%(inj Some). to_prop. cbn [r_addr r_token r_id r_expires] in *.
  destruct (verify_token_true _ _ _ _ ltac:(eassumption)) as (-> & Hs). split_and!; [done..| |lia].
  unfold slice. rw length_take length_drop. unfold REGISTER_FRAME, HEADER, ID_LEN in *. lia.
Qed.

(** ** The invariant *)

Lemma current_new secret log r :
  r_token r = mint_token hmac secret (r_id r) (r_expires r) → secret ≠ [] → length (r_id r) = ID_LEN →
  current secret (r :: log) (r_id r) (r_addr r) (r_expires r).
Proof using. intros Ht Hs Hl. exists (r_token r), [], log. split_and!; [by destruct r|done..]. Qed.

Lemma current_older secret log r id a e :
  r_id r ≠ id → r_addr r ≠ a → current secret log id a e → current secret (r :: log) id a e.
Proof using.
  intros Hi Ha (tok & post & pre & -> & Hp & Hrest). exists tok, (r :: post), pre. split; [done|]. split; [by constructor|done].
Qed.

(** At most one node per address. *)
Lemma current_unique secret log id id' a e e' :
  current secret log id a e → current secret log id' a e' → id = id' ∧ e = e'.
Proof using.
  intros (tok & post & pre & -> & Hp & _) (tok' & post' & pre' & Heq & Hp' & _). revert post' Heq Hp'.
  induction Hp as [|r post Hr Hp IH]; intros [|r' post'] Heq Hp'; cbn [app] in Heq.
  - by injection Heq.
  - injection Heq as <- _. apply Forall_cons in Hp' as [[_ Hx] _]. done.
  - injection Heq as -> _. by destruct Hr.
  - injection Heq as -> Heq. apply Forall_cons in Hp' as [_ Hp']. by apply (IH post').
Qed.

Lemma handle_ok secret log h at_ data source :
  auth_secret (config h) = secret → clients_ok secret log (clients h) →
  clients_ok secret (option_list (registers h at_ data source) ++ log) (clients (handle hmac h at_ data source).1).
Proof using.
  intros Hsec Hok. pose proof (handle_clients h at_ data source) as Hh.
  destruct (registers h at_ data source) as [r|] eqn:Hr; [|by eapply shrinks_ok].
  destruct (registers_valid h at_ data source r Hr) as (Ha & Ht & Hs & Hl & _). rewrite Hsec in Ht, Hs.
  destruct Hh as [now ->]. cbn [option_list app]. intros id c Hc. apply lookup_insert_Some in Hc as [[<- <-]|[Hne Hc]].
  - cbn [addr expires_at]. rewrite <- Ha. by apply current_new.
  - apply map_lookup_filter_Some in Hc as [Hc [Hx|Hx]]; cbn [fst snd] in Hx; [by subst|].
    apply current_older; [done|congruence|by apply Hok].
Qed.

Lemma deliver_clients h d p sent : clients (deliver h d p sent).1 = clients h ∧ config (deliver h d p sent).1 = config h.
Proof using.
  unfold deliver. destruct d as [|id]; [done|]. destruct (streams h !! id) as [[sa tx]|]; [|done].
  destruct (try_send tx p) as [tx' r]. by destruct r.
Qed.

Lemma turn_clients h at_ ev sent :
  clients (turn hmac h at_ ev sent).1 = clients (receive hmac h at_ ev).1 ∧
  config (turn hmac h at_ ev sent).1 = config (receive hmac h at_ ev).1.
Proof using.
  unfold turn. destruct (receive hmac h at_ ev) as [h1 [[d p]|]]; [|done]. pose proof (deliver_clients h1 d p sent) as Hd.
  destruct (deliver h1 d p sent) as [h2 ok]. cbn [fst] in *. by destruct (ok && _).
Qed.

Lemma handle_config h at_ data source : config (handle hmac h at_ data source).1 = config h.
Proof using.
  unfold handle. destruct (remote h source) as [sa|]; [|done]. destruct (admitted _ _ _ _ _) as [b ok].
  destruct ok; cbn [negb]; [|done]. case_match; [done|]. destruct (head data) as [tag|]; [|done].
  case_match; [unfold handle_register; repeat case_match; done|]. case_match.
  - unfold handle_send. case_match; [done|]. destruct (registered_at _ source) as [sid|]; [|done].
    destruct (match clients _ !! sid with Some _ => _ | None => _ end); [done|].
    pose proof (admit_node_shrinks (set_source_buckets h b) at_ sid) as [_ Hs]. destruct (admit_node _ _ _) as [h1 ok].
    cbn [fst] in Hs. destruct ok; cbn [negb]; [|done]. destruct (clients h1 !! _) as [d|]; [|done]. by destruct (expires_at d <=? _).
  - case_match; [|done]. unfold handle_ping. case_match; [done|].
    destruct (negb (match clients _ !! _ with Some _ => _ | None => _ end)); [done|].
    pose proof (admit_node_shrinks (set_source_buckets h b) at_ (slice 1 HEADER data)) as [_ Hs]. destruct (admit_node _ _ _) as [h1 ok].
    cbn [fst] in Hs. by destruct ok.
Qed.

Lemma receive_ok secret log h at_ ev :
  auth_secret (config h) = secret → clients_ok secret log (clients h) →
  clients_ok secret (event_registers h at_ ev ++ log) (clients (receive hmac h at_ ev).1) ∧ config (receive hmac h at_ ev).1 = config h.
Proof using.
  intros Hs Hok. destruct ev; cbn [event_registers receive fst].
  - split; [by apply handle_ok|apply handle_config].
  - done.
  - split; [by apply handle_ok|apply handle_config].
  - split; [|done]. eapply shrinks_ok; [apply shrinks_filter|done].
  - done.
  - split; [|done]. eapply shrinks_ok; [apply shrinks_filter|done].
Qed.

Lemma hub_ok c log h : reach c log h → clients_ok (auth_secret c) log (clients h) ∧ config h = c.
Proof using.
  induction 1 as [h Hnew|log h at_ ev sent _ [Hok Hc] _ _|log h id _ [Hok Hc]].
  - unfold hub_new in Hnew. destruct (_ =? 0)%nat; [done|]. destruct (negb _); [done|]. injection Hnew as <-. split; [|done].
    intros id cl Hcl. by rewrite lookup_empty in Hcl.
  - destruct (turn_clients h at_ ev sent) as [-> ->]. destruct (receive_ok (auth_secret c) log h at_ ev) as [H1 H2]; [by rewrite Hc|done|].
    split; [done|congruence].
  - done.
Qed.

Lemma registered_at_Some h source id :
  registered_at h source = Some id → ∃ c, clients h !! id = Some c ∧ addr c = source.
Proof using.
  unfold registered_at. destruct (List.find _ _) as [[k c]|] eqn:Hf; [|done]. intros [= <-]. apply List.find_some in Hf as [Hin Ha].
  apply list_elem_of_In, hash_iter_elem in Hin. apply bool_decide_eq_true in Ha. by exists c.
Qed.

(** ** Forwarding *)

(** A node whose last registration was made at this address, and lives. *)
Definition live (secret : bytes) (log : list Reg) (id : NodeId) (a : PeerAddr) (now : Z) : Prop :=
  ∃ expires, current secret log id a expires ∧ now < expires.

(** What leaves after a SEND frame. *)
Lemma send_output secret log h h' at_ data source destination packet :
  clients_ok secret log (clients h) → handle_send h at_ data source = (h', Some (destination, packet)) →
  ∃ id, packet = [FORWARDED] ++ id ++ drop HEADER data ∧ len data ≤ MAX_SEND_FRAME ∧
    live secret log id source (unix_now at_) ∧ live secret log (slice 1 HEADER data) destination (unix_now at_).
Proof using.
  intros Hok. unfold handle_send. destruct (Z.ltb_spec MAX_SEND_FRAME (len data)); [done|].
  destruct (registered_at h source) as [id|] eqn:Hat; [|done]. destruct (registered_at_Some h source id Hat) as (cl & Hcl & <-).
  rw Hcl. destruct (Z.leb_spec (expires_at cl) (unix_now at_)); [done|].
  pose proof (admit_node_shrinks h at_ id) as [Hs _]. destruct (admit_node h at_ id) as [h1 ok]. cbn [fst] in Hs.
  destruct ok; cbn [negb]; [|done]. destruct (clients h1 !! slice 1 HEADER data) as [d|] eqn:Hd; [|done].
  destruct (Z.leb_spec (expires_at d) (unix_now at_)); [done|]. intros [= <- <- <-]. exists id. split_and!; [done|lia| |].
  - exists (expires_at cl). split; [by apply Hok|lia].
  - exists (expires_at d). split; [|lia]. by apply (shrinks_ok secret log _ _ Hs Hok).
Qed.

(** What leaves after a PING frame. *)
Lemma ping_output secret log h h' at_ data source sa destination packet :
  clients_ok secret log (clients h) → handle_ping h at_ data source sa = (h', Some (destination, packet)) →
  length data = HEADER ∧ destination = source ∧ packet = observed_frame (slice 1 HEADER data) sa ∧
  live secret log (slice 1 HEADER data) source (unix_now at_).
Proof using.
  intros Hok. unfold handle_ping. destruct (Nat.eqb_spec (length data) HEADER); cbn [negb]; [|done].
  destruct (clients h !! slice 1 HEADER data) as [cl|] eqn:Hcl; [|done]. destruct (_ && _) eqn:Hl; cbn [negb]; [|done]. to_prop.
  destruct (admit_node h at_ _) as [h1 ok]. destruct ok; cbn [negb]; [|done]. intros [= _ <- <-]. split_and!; try done.
  exists (expires_at cl). split; [|lia]. subst source. by apply Hok.
Qed.

(** [C4] The relay serves only nodes that proved themselves: whatever was received
    before, a packet leaves only in answer to a frame from an address whose last
    registration, made with a token minted for that node and an expiry to come,
    is of the node it is attributed to; a forwarded packet is the sender's payload
    under the sender's id, and goes to the address of the last registration of the
    node it was sent to, live as well; any other packet answers a ping to the
    pinging address. *)
Theorem relay_serves_only_registered (c : RelayConfig) (log : list Reg) (h h' : Hub) (at_ : Clock) (data : bytes)
    (source destination : PeerAddr) (packet : bytes)
    (Hreach : reach c log h) (Hout : handle hmac h at_ data source = (h', Some (destination, packet))) :
  ∃ id, live (auth_secret c) log id source (unix_now at_) ∧
  ((∃ to_ payload, data = [SEND] ++ to_ ++ payload ∧ packet = [FORWARDED] ++ id ++ payload ∧ len payload ≤ MAX_PAYLOAD ∧
      live (auth_secret c) log to_ destination (unix_now at_)) ∨
   (∃ sa, data = ping_frame id ∧ remote h source = Some sa ∧ destination = source ∧ packet = observed_frame id sa)).
Proof using.
  destruct (hub_ok c log h Hreach) as [Hok _]. unfold handle in Hout.
  destruct (remote h source) as [sa|]; [|done]. destruct (admitted _ _ _ _ _) as [b ok]. destruct ok; cbn [negb] in Hout; [|done].
  destruct (Nat.ltb_spec (length data) HEADER) as [|Hlen]; [done|].
  destruct data as [|tag rest]; [by unfold HEADER in Hlen; simpl in Hlen; lia|]. cbn [head] in Hout. set (data := tag :: rest) in *.
  destruct (tag =? REGISTER); [done|].
  assert (data = [tag] ++ slice 1 HEADER data ++ drop HEADER data) as Hdata.
  { unfold data, slice, HEADER, ID_LEN. cbn [drop Nat.sub app]. by rw take_drop. }
  destruct (Z.eqb_spec tag SEND) as [->|_].
  - apply (send_output (auth_secret c) log) in Hout as (id & Hp & Hl & Hsrc & Hdst); [|done]. exists id. split; [done|]. left.
    exists (slice 1 HEADER data), (drop HEADER data). split_and!; [done..| |done].
    unfold len in *. rw length_drop. unfold MAX_SEND_FRAME in Hl. lia.
  - destruct (Z.eqb_spec tag PING) as [->|_]; [|done].
    apply (ping_output (auth_secret c) log) in Hout as (Hl & -> & -> & Hsrc); [|done]. exists (slice 1 HEADER data).
    split; [done|]. right. exists sa. split_and!; try done. rewrite {1}Hdata. unfold ping_frame. rw drop_ge; [|lia]. by rw app_nil_r.
Qed.

(** ** Delivery *)

Lemma registered_at_unique secret log h id cl :
  clients_ok secret log (clients h) → clients h !! id = Some cl → registered_at h (addr cl) = Some id.
Proof using.
  intros Hok Hcl. unfold registered_at. destruct (List.find _ _) as [[k c']|] eqn:Hf.
  - apply List.find_some in Hf as [Hin Ha]. apply list_elem_of_In, hash_iter_elem in Hin. apply bool_decide_eq_true in Ha.
    cbn [fst snd] in *. cbn. f_equal. pose proof (Hok _ _ Hin) as Hx. rewrite Ha in Hx.
    by destruct (current_unique _ _ _ _ _ _ _ Hx (Hok _ _ Hcl)).
  - pose proof (List.find_none _ _ Hf (id, cl)) as Hn. rewrite <- list_elem_of_In, hash_iter_elem in Hn.
    specialize (Hn Hcl). by apply bool_decide_eq_false in Hn.
Qed.

Definition node_admits (h : Hub) (at_ : Clock) (id : NodeId) : bool :=
  (admitted (node_buckets h) id (rate_per_sec (config h)) (rate_burst (config h)) (now3 at_)).2.

(** A registration for a live token is accepted. *)
Lemma register_accepted h at_ id expires source :
  length id = ID_LEN → 0 ≤ expires < 256 ^ 8 → auth_secret (config h) ≠ [] →
  length (mint_token hmac (auth_secret (config h)) id expires) = TOKEN_LEN →
  source_admits h at_ source = true → unix_now at_ < expires →
  registers h at_ (register_frame id expires (mint_token hmac (auth_secret (config h)) id expires)) source =
    Some (mkReg id source expires (mint_token hmac (auth_secret (config h)) id expires)).
Proof using.
  intros Hid He Hsec Htok Hadm Hlive. set (tok := mint_token hmac (auth_secret (config h)) id expires) in *.
  set (eb := be_bytes EXPIRY_LEN expires). assert (length eb = EXPIRY_LEN) as Hbl by apply length_be_limbs.
  assert (from_be eb = expires) as Hback by (apply from_limbs_be; [lia|exact He]). set (data := register_frame id expires tok).
  assert (data = [REGISTER] ++ id ++ eb ++ tok) as Hd by done. clearbody data eb.
  assert (length data = REGISTER_FRAME) as Hlen.
  { rw Hd !length_app Hid Hbl Htok. done. }
  assert (slice 1 HEADER data = id) as H1.
  { rw Hd. apply slice_middle; [done|]. by rw Hid. }
  assert (slice HEADER (HEADER + EXPIRY_LEN) data = eb) as H2.
  { rw Hd app_assoc. apply slice_middle; rw length_app Hid; [done|]. by rw Hbl. }
  assert (drop (HEADER + EXPIRY_LEN) data = tok) as H3.
  { rw Hd !app_assoc drop_app_length' //. by rw !length_app Hid Hbl. }
  unfold registers. rw H1 H2 H3 Hback Hadm Hlen. cbn [r_id r_expires r_token]. rw Nat.eqb_refl.
  rw (bool_decide_true (head data = Some REGISTER)); [|by rw Hd]. rw (proj2 (Z.ltb_lt _ _) Hlive). unfold verify_token. rw Htok.
  fold (mint_token hmac (auth_secret (config h)) id expires).
  rw bool_decide_true //. by destruct (auth_secret (config h)).
Qed.

(** What a node sends arrives: if the sender's registration at its address and
    the addressee's are live and neither limit is used up, a payload of at most
    2048 bytes leaves for the addressee's address, and reads there as the sender's
    id with the same payload. *)
Theorem relay_delivers (c : RelayConfig) (log : list Reg) (h : Hub) (at_ : Clock) (from to_ : NodeId) (a b : Client)
    (payload frame : bytes) (Hreach : reach c log h)
    (Hfrom : clients h !! from = Some a) (Hto : clients h !! to_ = Some b)
    (Hlive : unix_now at_ < expires_at a ∧ unix_now at_ < expires_at b)
    (Hadmit : source_admits h at_ (addr a) = true ∧ node_admits h at_ from = true)
    (Hframe : send_frame to_ payload = Some frame) :
  ∃ packet, (handle hmac h at_ frame (addr a)).2 = Some (addr b, packet) ∧ parse_forwarded packet = Some (from, payload).
Proof using.
  destruct (hub_ok c log h Hreach) as [Hok _].
  assert (length to_ = ID_LEN ∧ length from = ID_LEN) as [Hlt Hlf].
  { pose proof (Hok _ _ Hto) as (? & ? & ? & _ & _ & _ & _ & H1). pose proof (Hok _ _ Hfrom) as (? & ? & ? & _ & _ & _ & _ & H2). done. }
  unfold send_frame in Hframe. destruct (Z.ltb_spec MAX_PAYLOAD (len payload)) as [|Hpay]; [done|]. injection Hframe as <-.
  set (data := [SEND] ++ to_ ++ payload).
  assert (slice 1 HEADER data = to_) as Hslice by (apply slice_middle; [done|by rw Hlt]).
  assert (drop HEADER data = payload) as Hdrop.
  { unfold data. rw app_assoc drop_app_length' //. by rw length_app Hlt. }
  assert (length data = HEADER + length payload)%nat as Hlen by (unfold data; rw !length_app Hlt; done).
  exists ([FORWARDED] ++ from ++ payload). split; [|apply parse_forwarded_iff; done].
  destruct Hlive as [Ha Hb], Hadmit as [Hs Hn]. unfold handle, source_admits in *. destruct (remote h (addr a)) as [sa|]; [|done].
  destruct (admitted (source_buckets h) _ _ _ _) as [bs ok]. cbn [snd] in Hs. rw Hs. cbn [negb].
  rw (proj2 (Nat.ltb_ge (length data) HEADER)); [|lia]. change (head data) with (Some SEND). cbn [Z.eqb REGISTER SEND Pos.eqb].
  unfold handle_send. rw Hslice Hdrop (proj2 (Z.ltb_ge MAX_SEND_FRAME (len data))).
  2: { unfold MAX_SEND_FRAME, len in *. lia. }
  rw (registered_at_unique (auth_secret c) log (set_source_buckets h bs) from a) //. cbn [clients set_source_buckets]. rw Hfrom.
  rw (proj2 (Z.leb_gt _ _) Ha). unfold admit_node, node_admits in *. cbn [node_buckets set_clients set_source_buckets config clients].
  destruct (admitted (node_buckets h) _ _ _ _) as [bn ok']. cbn [snd] in Hn. rw Hn. cbn [negb clients set_node_buckets set_clients].
  assert (∃ b', alter (touch (now2 at_)) from (clients h) !! to_ = Some b' ∧ addr b' = addr b ∧ expires_at b' = expires_at b) as (b' & Hb' & Hab & Heb).
  { destruct (decide (from = to_)) as [<-|Hne].
    - rw lookup_alter_eq Hto. by exists (touch (now2 at_) b).
    - rw lookup_alter_ne // Hto. by exists b. }
  rw Hb'. rw Heb (proj2 (Z.leb_gt _ _) Hb). cbn [snd]. by rw Hab.
Qed.

(** ** Bounds *)

Record bounded (h : Hub) : Prop := {
  bound_sources : (size (source_buckets h) ≤ MAX_RATE_BUCKETS)%nat;
  bound_nodes : (size (node_buckets h) ≤ MAX_RATE_BUCKETS)%nat;
  bound_queues : map_Forall (λ _ e, (length (queue e.2) ≤ QUEUE_FRAMES)%nat) (streams h)
}.

Lemma admitted_size `{Countable K} (b : gmap K Bucket) key rate burst now :
  (size b ≤ MAX_RATE_BUCKETS)%nat → (size (admitted b key rate burst now).1 ≤ MAX_RATE_BUCKETS)%nat.
Proof using.
  Transparent admitted. unfold admitted. intros Hb. destruct (Nat.leb_spec MAX_RATE_BUCKETS (size b)) as [Hfull|Hroom]; cbn [andb].
  - case_bool_decide as Hin; cbn [negb]; [|done]. destruct (admit_bucket _ _ _ _) as [x ok]. cbn [fst]. destruct Hin as [y Hy].
    by rw map_size_insert Hy.
  - destruct (admit_bucket _ _ _ _) as [x ok]. cbn [fst]. rw map_size_insert. destruct (b !! key); simpl; lia.
  Opaque admitted.
Qed.

Lemma admit_node_bounded h at_ id : bounded h → bounded (admit_node h at_ id).1.
Proof using.
  intros [H1 H2 H3]. unfold admit_node. pose proof (admitted_size (node_buckets h) id (rate_per_sec (config h)) (rate_burst (config h)) (now3 at_) H2) as Hs.
  cbn [node_buckets set_clients config]. destruct (admitted _ _ _ _ _) as [b ok]. by constructor.
Qed.

Lemma count_bounded h c : bounded h → bounded (count h c).
Proof using. intros [H1 H2 H3]. by constructor. Qed.

Lemma set_clients_bounded h cs : bounded h → bounded (set_clients h cs).
Proof using. intros [H1 H2 H3]. by constructor. Qed.

#[local] Hint Resolve count_bounded set_clients_bounded : relay.

Ltac kept := by cbn [fst]; auto with relay.

Lemma handle_bounded h at_ data source : bounded h → bounded (handle hmac h at_ data source).1.
Proof using.
  intros Hb. unfold handle. destruct (remote h source) as [sa|]; [|done].
  destruct (admitted _ _ _ _ _) as [b ok] eqn:Ha. set (h1 := set_source_buckets h b).
  assert (bounded h1) as Hb1.
  { destruct Hb as [H1 H2 H3]. constructor; [|done..]. cbn [source_buckets h1 set_source_buckets].
    change b with (b, ok).1. rw -Ha. by apply admitted_size. }
  clearbody h1. clear Ha. destruct ok; cbn [negb fst]; [|kept]. destruct (length data <? HEADER)%nat; [kept|].
  destruct (head data) as [tag|]; [|done]. destruct (tag =? REGISTER); cbn [fst].
  { unfold handle_register. repeat (case_match; [kept|]). kept. }
  destruct (tag =? SEND); [|destruct (tag =? PING); [|done]].
  - unfold handle_send. case_match; [kept|]. destruct (registered_at h1 source) as [sid|]; [|kept].
    destruct (match clients h1 !! sid with Some _ => _ | None => _ end); [kept|].
    pose proof (admit_node_bounded h1 at_ sid Hb1) as Hb2. destruct (admit_node h1 at_ sid) as [h2 ok]. cbn [fst] in Hb2.
    destruct ok; cbn [negb fst]; [|kept]. destruct (clients h2 !! _) as [d|]; [|kept].
    destruct (expires_at d <=? _); kept.
  - unfold handle_ping. case_match; [done|].
    destruct (negb (match clients h1 !! _ with Some _ => _ | None => _ end)); [kept|].
    pose proof (admit_node_bounded h1 at_ (slice 1 HEADER data) Hb1) as Hb2. destruct (admit_node h1 at_ _) as [h2 ok].
    destruct ok; cbn [negb]; kept.
Qed.

Lemma filter_size `{Countable K} (m : gmap K Bucket) (P : K * Bucket → Prop) `{∀ e, Decision (P e)} (n : nat) :
  (size m ≤ n)%nat → (size (filter P m) ≤ n)%nat.
Proof using. intros Hm. pose proof (map_size_filter P m). lia. Qed.

Lemma receive_bounded h at_ ev :
  (∀ id sa tx, ev = StreamOpen id sa tx → tx = mkSender [] true) → bounded h → bounded (receive hmac h at_ ev).1.
Proof using.
  intros Hopen Hb. destruct ev as [data source|id sa tx|id frame|id| |]; cbn [receive fst]; try by apply handle_bounded.
  - rewrite (Hopen id sa tx eq_refl). destruct Hb as [H1 H2 H3]. constructor; [done..|]. apply map_Forall_insert_2; [simpl; lia|done].
  - apply set_clients_bounded. destruct Hb as [H1 H2 H3]. constructor; [done..|]. by apply map_Forall_delete.
  - destruct Hb as [H1 H2 H3]. by constructor.
  - destruct Hb as [H1 H2 H3]. constructor; [by apply filter_size..|done].
Qed.

Lemma deliver_bounded h d p sent : bounded h → bounded (deliver h d p sent).1.
Proof using.
  intros Hb. unfold deliver. destruct d as [|id]; [done|]. destruct (streams h !! id) as [[sa tx]|] eqn:Hs; [|done].
  assert (∀ tx', (length (queue tx') ≤ QUEUE_FRAMES)%nat → bounded (set_streams h (<[id := (sa, tx')]> (streams h)))) as Hset.
  { intros tx' Hq. destruct Hb as [H1 H2 H3]. constructor; [done..|]. by apply map_Forall_insert_2. }
  pose proof (bound_queues h Hb id (sa, tx) Hs) as Hq. cbn [snd] in Hq. unfold try_send.
  destruct (open_ tx); cbn [negb]; [|by apply Hset].
  destruct (Nat.leb_spec QUEUE_FRAMES (length (queue tx))); [apply count_bounded; by apply Hset|].
  apply Hset. cbn [queue]. rw length_app. simpl. lia.
Qed.

(** Strangers cannot grow the relay's memory: at any time the limiter tracks at
    most 65536 source addresses and 65536 nodes, and no more than 64 frames wait
    for any WebSocket client. *)
Theorem relay_tables_bounded (c : RelayConfig) (log : list Reg) (h : Hub) (Hreach : reach c log h) :
  (size (source_buckets h) ≤ Z.to_nat 65536)%nat ∧ (size (node_buckets h) ≤ Z.to_nat 65536)%nat ∧
  ∀ id sa tx, streams h !! id = Some (sa, tx) → (length (queue tx) ≤ 64)%nat.
Proof using.
  assert (bounded h) as [H1 H2 H3].
  { induction Hreach as [h Hnew|log h at_ ev sent Hr IH Hev Hopen|log h id Hr IH].
    - unfold hub_new in Hnew. destruct (_ =? 0)%nat; [done|]. destruct (negb _); [done|]. injection Hnew as <-.
      constructor; cbn [source_buckets node_buckets streams]; [rw map_size_empty; lia..|apply map_Forall_empty].
    - pose proof (receive_bounded h at_ ev Hopen IH) as Hb. unfold turn. destruct (receive hmac h at_ ev) as [h1 [[d p]|]]; [|done].
      cbn [fst] in Hb. pose proof (deliver_bounded h1 d p sent Hb) as Hb2. destruct (deliver h1 d p sent) as [h2 ok]. cbn [fst] in *.
      destruct (ok && _); [|done]. destruct Hb2 as [G1 G2 G3]. by constructor.
    - destruct IH as [H1 H2 H3]. constructor; [done..|]. cbn [streams drain set_streams]. intros k e Hk.
      apply lookup_alter_Some in Hk as [(-> & e0 & He0 & ->)|[_ Hk]]; [|by apply (H3 k)]. pose proof (H3 k e0 He0) as Hq. cbn [snd queue].
      cbn beta in Hq. destruct (queue e0.2); cbn [tail length] in *; lia. }
  split_and!; [exact H1|exact H2|]. intros id sa tx Hs. exact (H3 id (sa, tx) Hs).
Qed.
End relay.

(** ** A run *)

#[local] Transparent MAX_RATE_BUCKETS admitted.

Definition demo_mac (key m : bytes) : bytes := take 32 (m ++ replicate 32 0).
Definition demo_config : RelayConfig := mkRelayConfig [7] 120 100 200 (lit "ap-southeast-2").
Definition demo_id (n : Z) : NodeId := replicate 16 n.
Definition demo_addr (n : Z) : SocketAddr := mkSocketAddr (V4 (from_be [203; 0; 113; n])) 4500.
Definition demo_clock : Clock := mkClock 1000 0 0 0.
Definition demo_start : Hub := mkHub demo_config (λ _, 0) ∅ ∅ ∅ ∅ true.
Definition demo_register (n : Z) : Event :=
  Datagram (register_frame (demo_id n) 5000 (mint_token demo_mac [7] (demo_id n) 5000)) (demo_addr n).
Definition demo_one : Hub := (turn demo_mac demo_start demo_clock (demo_register 1) 0).1.
Definition demo_two : Hub := (turn demo_mac demo_one demo_clock (demo_register 2) 0).1.
Definition demo_log : list Reg :=
  event_registers demo_mac demo_one demo_clock (demo_register 2)
  ++ event_registers demo_mac demo_start demo_clock (demo_register 1) ++ [].

Lemma demo_hub_reach : reach demo_mac demo_config demo_log demo_two.
Proof. do 2 (apply reach_turn; [|done..]). apply reach_start. by vm_compute. Qed.

Lemma relay_delivers_witness :
  ∃ packet, (handle demo_mac demo_two demo_clock ([SEND] ++ demo_id 2 ++ lit "hello") (Udp (demo_addr 1))).2 =
    Some (Udp (demo_addr 2), packet) ∧ parse_forwarded packet = Some (demo_id 1, lit "hello").
Proof.
  refine (relay_delivers demo_mac demo_config demo_log demo_two demo_clock (demo_id 1) (demo_id 2)
    (mkClient (Udp (demo_addr 1)) 5000 0) (mkClient (Udp (demo_addr 2)) 5000 0) (lit "hello") _ demo_hub_reach _ _ _ _ _).
  - vm_compute. reflexivity.
  - vm_compute. reflexivity.
  - vm_compute. split; reflexivity.
  - split; vm_compute; reflexivity.
  - vm_compute. reflexivity.
Defined.

Lemma relay_serves_only_registered_witness :
  ∃ id, live demo_mac [7] demo_log id (Udp (demo_addr 1)) 1000.
Proof.
  destruct (handle demo_mac demo_two demo_clock (ping_frame (demo_id 1)) (Udp (demo_addr 1))) as [h' o] eqn:Ho.
  assert (o = Some (Udp (demo_addr 1), observed_frame (demo_id 1) (demo_addr 1))) as ->.
  { apply (f_equal snd) in Ho. cbn [snd] in Ho. rewrite <- Ho. vm_compute. reflexivity. }
  destruct (relay_serves_only_registered demo_mac demo_config demo_log demo_two h' demo_clock _ _ _ _ demo_hub_reach Ho) as (id & Hl & _).
  exists id. exact Hl.
Defined.

Lemma relay_tables_bounded_witness : (size (source_buckets demo_two) ≤ Z.to_nat 65536)%nat.
Proof. exact (proj1 (relay_tables_bounded demo_mac demo_config demo_log demo_two demo_hub_reach)). Defined.
