(* ===== verification/Dns.v ===== *)
(** * The agent's name server

    [blaktaild/src/dns.rs]: the records a device answers from, the stub that
    answers queries or forwards them to split resolvers, organisation DNS
    adoption and the managed [resolv.conf].  Sockets and the platform commands
    are not modelled.

    The stub works in the [attempt] monad of the packet parser: [Err Malformed]
    is Rust's [None], [Err Panic] an index out of bounds. *)

From S2P Require Import Prelude Text Net Policy Packet AclFilter.

Module Dns.

Definition DNS_HEADER_LEN : nat := 12.
Definition DNS_TTL_SECS : Z := 30.
Definition MANAGED_MARKER : str := lit "# Managed by blaktaild".
Definition MAX_TXT_LEN : nat := 1024.
Definition MAX_CNAME_DEPTH : nat := 8.
Definition MAX_RESPONSE_LEN : nat := Z.to_nat 1232.

(** ** What the coordinator publishes ([lib.rs], [services.rs]) *)

Record OrgDnsRecord := mkOrgDnsRecord { rec_name : str; rec_type : str; rec_value : str }.
Record OrgDnsSplit := mkOrgDnsSplit { sp_suffix : str; sp_resolvers : list str }.
Record OrgDnsZoneRecord := mkOrgDnsZoneRecord { zr_name : str; zr_type : str; zr_value : str; zr_ttl : Z }.
Record OrgDnsZone := mkOrgDnsZone { oz_name : str; oz_records : list OrgDnsZoneRecord }.

Record OrgDnsSnapshot := mkOrgDnsSnapshot {
  revision : Z;
  managed : bool;
  org_records : list OrgDnsRecord;
  search_domains : list str;
  org_split : list OrgDnsSplit;
  global_resolvers : list str;
  org_zones : list OrgDnsZone
}.

#[export] Instance OrgDnsSnapshot_eq_dec : EqDecision OrgDnsSnapshot.
Proof.
  assert (EqDecision OrgDnsRecord) by solve_decision. assert (EqDecision OrgDnsSplit) by solve_decision.
  assert (EqDecision OrgDnsZoneRecord) by solve_decision. assert (EqDecision OrgDnsZone) by solve_decision. solve_decision.
Defined.

Record ServiceRecord := mkServiceRecord { sv_name : str; sv_addresses : list str }.

(** The part of [NodeState] this code reads and writes. *)
Record NodeState := mkNodeState {
  assigned_ip : str;
  assigned_ips : list str;
  st_dns_name : str;
  retiring_ips : list str;
  peers : list Peer;
  service_records : list ServiceRecord;
  org_dns : option OrgDnsSnapshot;
  dns_degraded : option str
}.

Definition interface_addresses (st : NodeState) : list str :=
  let addresses := if bool_decide (assigned_ip st ∈ assigned_ips st) then assigned_ips st
                   else assigned_ip st :: assigned_ips st in
  List.filter (λ a, negb (length (trim a) =? 0)%nat) addresses.

(** ** Names *)

Definition name_char (c : Z) : bool := is_ascii_alphanumeric c || (c =? 45).

Definition safe_label (label : str) : bool :=
  negb (length label =? 0)%nat && (length label <=? 63)%nat
  && negb (starts_with (lit "-") label) && negb (ends_with (lit "-") label) && forallb name_char label.

Definition labels_are_safe (name : str) : bool := forallb safe_label (split 46 name).

Definition valid_domain (domain : str) : bool :=
  negb (length domain =? 0)%nat && (length domain <=? 253)%nat && ends_with (lit ".blaktail") domain
  && labels_are_safe domain.

Definition valid_published_suffix (suffix : str) : bool :=
  negb (length suffix =? 0)%nat && (length suffix <=? 253)%nat && negb (seq_b suffix "blaktail")
  && negb (ends_with (lit ".blaktail") suffix) && labels_are_safe suffix.

Definition normalise (name : str) : str := to_ascii_lowercase (trim_end_matches 46 name).

Definition dns_domain (dns_name : str) : option str :=
  '(_, domain) ← split_once 46 (trim_end_matches 46 dns_name);
  if valid_domain domain then Some (to_ascii_lowercase domain) else None.

Definition in_suffix (name suffix : str) : bool :=
  bool_decide (name = suffix) || ends_with (lit "." ++ suffix) name.

Definition magic_name (name domain : str) : bool :=
  negb (contains_char 46 name) || bool_decide (name = domain) || ends_with (lit "." ++ domain) name.

Definition organisation_dns_managed (st : NodeState) : bool :=
  match org_dns st with Some dns => managed dns | None => true end.

Definition push_suffix (suffixes : list str) (value : str) : list str :=
  let value := normalise value in
  if negb (valid_published_suffix value) || bool_decide (value ∈ suffixes) then suffixes else suffixes ++ [value].

Definition organisation_resolver_suffixes (st : NodeState) : list str :=
  match org_dns st with
  | None => []
  | Some snapshot =>
      foldl push_suffix []
        (search_domains snapshot ++ map sp_suffix (org_split snapshot) ++ map oz_name (org_zones snapshot))
  end.

Definition published_resolver_suffixes (st : NodeState) : list str :=
  if negb (organisation_dns_managed st) then [] else organisation_resolver_suffixes st.

Definition state_ip (st : NodeState) : option IpAddr :=
  let addresses := omap (λ a, head (split 47 a) ≫= parse_ip)
                     (List.filter (λ a, negb (bool_decide (a ∈ retiring_ips st))) (interface_addresses st)) in
  match List.find is_ipv4 addresses with
  | Some a => Some a
  | None => head addresses
  end.

(** ** Resolvers *)

(** A [SocketAddr]; the last field is the zone index of an IPv6 one. *)
Record Resolver := mkResolver { rs_ip : IpAddr; rs_port : Z; rs_scope : Z }.

#[export] Instance Resolver_eq_dec : EqDecision Resolver.
Proof. solve_decision. Defined.

Definition read_port (s : str) : option (Z * str) :=
  s ← read_given_char 58 s;
  read_number 10 (length s) true U16_MAX s.

Definition parse_socket_addr (s : str) : option Resolver :=
  let v4 := '(a, r) ← read_ipv4 s; '(p, r) ← read_port r; Some (mkResolver (V4 a) p 0, r) in
  let v6 := r ← read_given_char 91 s;
            '(a, r) ← read_ipv6 r;
            let '(scope, r) := default (0, r) (t ← read_given_char 37 r; read_number 10 (length t) true U32_MAX t) in
            r ← read_given_char 93 r;
            '(p, r) ← read_port r;
            Some (mkResolver (V6 a) p scope, r) in
  match match v4 with Some x => Some x | None => v6 end with
  | Some (a, []) => Some a
  | _ => None
  end.

Definition parse_resolver (value : str) : option Resolver :=
  let value := trim value in
  match parse_socket_addr value with
  | Some address => if rs_port address =? 0 then None else Some address
  | None => a ← parse_ip value; Some (mkResolver a 53 0)
  end.

(** ** The records of a device *)

Inductive ZoneData :=
| Address (a : IpAddr)
| Cname (target : str)
| Txt (text : str).

#[export] Instance ZoneData_eq_dec : EqDecision ZoneData.
Proof. solve_decision. Defined.

Record ZoneRecord := mkZoneRecord { data : ZoneData; ttl : Z }.

#[export] Instance ZoneRecord_eq_dec : EqDecision ZoneRecord.
Proof. solve_decision. Defined.

Record Zone := mkZone { z_name : str; z_records : gmap str (list ZoneRecord) }.

Record Records := mkRecords {
  domain : str;
  addresses : gmap str (list IpAddr);
  split_routes : list (str * list Resolver);
  zones : list Zone
}.

(** [entry(key).or_default()], then a push unless the value is there. *)
Definition push_unique {A} `{EqDecision A} (m : gmap str (list A)) (key : str) (v : A) : gmap str (list A) :=
  let values := default [] (m !! key) in
  <[key := if bool_decide (v ∈ values) then values else values ++ [v]]> m.

Definition insert_record (m : gmap str (list IpAddr)) (name address domain : str) : gmap str (list IpAddr) :=
  let name := normalise name in
  if negb (ends_with (lit "." ++ domain) name) then m
  else match split_once 47 address with
  | None => m
  | Some (address, prefix) =>
      match parse_ip address with
      | None => m
      | Some address =>
          if negb (bool_decide (prefix = if is_ipv4 address then lit "32" else lit "128")) then m
          else
            let m := match split_once 46 name with Some (label, _) => push_unique m label address | None => m end in
            push_unique m name address
      end
  end.

Definition insert_service_record (domain : str) (m : gmap str (list IpAddr)) (service : ServiceRecord) :
    gmap str (list IpAddr) :=
  let name := normalise (sv_name service) in
  if negb (ends_with (lit ".svc." ++ domain) name) || negb (labels_are_safe name) then m
  else foldl (λ m a, push_unique m name a) m (omap parse_ip (sv_addresses service)).

Definition insert_service_records (m : gmap str (list IpAddr)) (services : list ServiceRecord) (domain : str) :
    gmap str (list IpAddr) :=
  foldl (insert_service_record domain) m services.

Definition ascii_upper (c : Z) : Z := if is_ascii_lowercase c then c - 32 else c.
Definition to_ascii_uppercase (s : str) : str := map ascii_upper s.

Definition insert_extra_record (m : gmap str (list IpAddr)) (record : OrgDnsRecord) : gmap str (list IpAddr) :=
  let name := normalise (rec_name record) in
  if (length name =? 0)%nat || ends_with (lit ".blaktail") name then m
  else match parse_ip (rec_value record) with
  | None => m
  | Some address =>
      let kind := to_ascii_uppercase (rec_type record) in
      let expected := if seq_b kind "A" then is_ipv4 address
                      else if seq_b kind "AAAA" then is_ipv6 address else false in
      if expected then push_unique m name address else m
  end.

Definition zone_data (record : OrgDnsZoneRecord) : option ZoneData :=
  let value := trim (zr_value record) in
  let kind := to_ascii_uppercase (zr_type record) in
  if seq_b kind "A" then
    match parse_ip value with Some (V4 a) => Some (Address (V4 a)) | _ => None end
  else if seq_b kind "AAAA" then
    match parse_ip value with Some (V6 a) => Some (Address (V6 a)) | _ => None end
  else if seq_b kind "CNAME" then
    let target := normalise value in
    if negb (length target =? 0)%nat && (length target <=? 253)%nat && labels_are_safe target
    then Some (Cname target) else None
  else if seq_b kind "TXT" then
    if (length (zr_value record) <=? MAX_TXT_LEN)%nat && forallb (λ b, (32 <=? b) && (b <? 127)) (zr_value record)
    then Some (Txt (zr_value record)) else None
  else None.

Definition insert_zone_record (name : str) (m : gmap str (list ZoneRecord)) (record : OrgDnsZoneRecord) :
    gmap str (list ZoneRecord) :=
  let owner := normalise (zr_name record) in
  if negb (in_suffix owner name) || negb (labels_are_safe owner) then m
  else match zone_data record with
  | None => m
  | Some d => push_unique m owner (mkZoneRecord d (if zr_ttl record =? 0 then DNS_TTL_SECS else zr_ttl record))
  end.

Definition add_zone (zs : list Zone) (published : OrgDnsZone) : list Zone :=
  let name := normalise (oz_name published) in
  if negb (valid_published_suffix name) || bool_decide (name ∈ map z_name zs) then zs
  else zs ++ [mkZone name (foldl (insert_zone_record name) ∅ (oz_records published))].

Definition zones_from_snapshot (snapshot : OrgDnsSnapshot) : list Zone := foldl add_zone [] (org_zones snapshot).

Definition split_route (route : OrgDnsSplit) : option (str * list Resolver) :=
  let suffix := normalise (sp_suffix route) in
  if negb (valid_published_suffix suffix) then None
  else
    let resolvers := omap parse_resolver (sp_resolvers route) in
    if (length resolvers =? 0)%nat then None else Some (suffix, resolvers).

Definition split_from_snapshot (snapshot : OrgDnsSnapshot) : list (str * list Resolver) := omap split_route (org_split snapshot).

Definition records_from_state (st : NodeState) (domain : str) : Records :=
  let current a := negb (bool_decide (a ∈ retiring_ips st)) in
  let m := foldl (λ m a, insert_record m (st_dns_name st) a domain) ∅ (List.filter current (interface_addresses st)) in
  let m := foldl (λ m (peer : Peer), foldl (λ m a, insert_record m (dns_name peer) a domain) m
                                       (List.filter current (allowed_ips peer))) m (peers st) in
  let m := insert_service_records m (service_records st) domain in
  match org_dns st with
  | Some snapshot =>
      if managed snapshot
      then mkRecords domain (foldl insert_extra_record m (org_records snapshot)) (split_from_snapshot snapshot)
             (zones_from_snapshot snapshot)
      else mkRecords domain m [] []
  | None => mkRecords domain m [] []
  end.

(** [max_by_key]: the last element with the greatest key. *)
Definition max_by_length {A} (key : A → str) (l : list A) : option A :=
  foldl (λ best x, match best with
                   | None => Some x
                   | Some b => Some (if (length (key x) <? length (key b))%nat then b else x)
                   end) None l.

Definition zone_for (name : str) (records : Records) : option Zone :=
  zone ← max_by_length z_name (List.filter (λ z, in_suffix name (z_name z)) (zones records));
  if existsb (λ route, (length (z_name zone) <? length route.1)%nat && in_suffix name route.1) (split_routes records)
  then None else Some zone.

Definition split_resolvers (name : str) (records : Records) : option (list Resolver) :=
  if seq_b name "blaktail" || ends_with (lit ".blaktail") name then None
  else
    route ← max_by_length fst (List.filter (λ route, in_suffix name route.1) (split_routes records));
    if (length route.2 =? 0)%nat then None else Some route.2.

(** ** Wire format *)

Definition idx16 (packet : bytes) (i : nat) : attempt Z :=
  let? a := index packet i in
  let? b := index packet (i + 1) in
  Ok (from_be [a; b]).

(** The loop ends at the end of the packet; running past it would be [Panic]. *)
Fixpoint parse_labels (fuel : nat) (packet : bytes) (offset encoded_len : nat) : attempt (list str * nat) :=
  match fuel with
  | O => Err Panic
  | S fuel =>
      let? length_ := get_byte packet offset in
      let n := Z.to_nat length_ in
      let offset := S offset in
      if (n =? 0)%nat then Ok ([], offset)
      else if (63 <? n)%nat || (length packet <? offset + n)%nat then Err Malformed
      else
        let encoded_len := (encoded_len + n + 1)%nat in
        if (255 <? encoded_len)%nat then Err Malformed
        else
          let? label := index_range packet offset (offset + n) in
          if negb (forallb name_char label) then Err Malformed
          else
            let? (labels, end_) := parse_labels fuel packet (offset + n) encoded_len in
            Ok (label :: labels, end_)
  end.

Definition parse_name (packet : bytes) (offset : nat) : attempt (str * nat) :=
  let? (labels, end_) := parse_labels (S (length packet)) packet offset 0 in
  Ok (join (lit ".") labels, end_).

Definition encode_name (name : str) : bytes :=
  flat_map (λ label, [Z.of_nat (length label) mod 256] ++ label)
    (List.filter (λ label, negb (length label =? 0)%nat) (split 46 name)) ++ [0].

Fixpoint chunks (fuel n : nat) (l : bytes) : list bytes :=
  match fuel, l with
  | S fuel, _ :: _ => take n l :: chunks fuel n (drop n l)
  | _, _ => []
  end.

Definition encode_txt (text : str) : bytes :=
  if (length text =? 0)%nat then [0]
  else flat_map (λ chunk, [Z.of_nat (length chunk) mod 256] ++ chunk) (chunks (length text) 255 text).

Definition error_response (query : bytes) (response_code : Z) : attempt bytes :=
  if (length query <? DNS_HEADER_LEN)%nat then Err Malformed
  else
    let? flags := idx16 query 2 in
    let? id := prefix_of query 2 in
    Ok (id ++ be_bytes 2 (Z.lor (Z.lor 0x8000 (Z.land flags 0x0100)) response_code) ++ replicate 8 0).

(** The header and question of a response. *)
Definition response_head (query : bytes) (question_end : nat) (flags : Z) (count : Z) : attempt bytes :=
  let? id := prefix_of query 2 in
  let? question := index_range query DNS_HEADER_LEN question_end in
  Ok (id ++ be_bytes 2 flags ++ be_bytes 2 1 ++ be_bytes 2 count ++ be_bytes 2 0 ++ be_bytes 2 0 ++ question).

(** ** Answers *)

Definition octets (a : IpAddr) : bytes := match a with V4 a => v4_octets a | V6 a => v6_octets a end.
Definition address_type (a : IpAddr) : Z := match a with V4 _ => 1 | V6 _ => 28 end.

Definition address_for_query (l : list IpAddr) (query_type : Z) : option IpAddr :=
  List.find (λ a, match a with V4 _ => query_type =? 1 | V6 _ => query_type =? 28 end) l.

Record Answer := mkAnswer { an_owner : str; an_ttl : Z; an_type : Z; an_data : bytes }.

Definition zone_answer (name : str) (query_type : Z) (record : ZoneRecord) : list Answer :=
  match data record with
  | Address a => if address_type a =? query_type then [mkAnswer name (ttl record) (address_type a) (octets a)] else []
  | Txt text => if 16 =? query_type then [mkAnswer name (ttl record) 16 (encode_txt text)] else []
  | Cname _ => []
  end.

Definition cname_of (entries : list ZoneRecord) : option (str * Z) :=
  head (omap (λ record, match data record with Cname target => Some (target, ttl record) | _ => None end) entries).

(** [fuel] counts down from [MAX_CNAME_DEPTH + 1] as [depth] counts up from 0. *)
Fixpoint collect_answers (fuel : nat) (name : str) (query_type : Z) (records : Records) (answers : list Answer) :
    list Answer :=
  match fuel with
  | O => answers
  | S fuel =>
      let zone := if magic_name name (domain records) then None else zone_for name records in
      match zone with
      | Some zone =>
          match z_records zone !! name with
          | Some entries =>
              match cname_of entries with
              | Some (target, ttl) =>
                  let answers := answers ++ [mkAnswer name ttl 5 (encode_name target)] in
                  if negb (query_type =? 5) && negb (existsb (λ a, bool_decide (an_owner a = target)) answers)
                  then collect_answers fuel target query_type records answers else answers
              | None => answers ++ flat_map (zone_answer name query_type) entries
              end
          | None => answers
          end
      | None =>
          answers ++ flat_map (λ a, if address_type a =? query_type
                                    then [mkAnswer name DNS_TTL_SECS (address_type a) (octets a)] else [])
                       (default [] (addresses records !! name))
      end
  end.

Definition encode_answer (name : str) (a : Answer) : bytes :=
  (if bool_decide (an_owner a = name) then [0xc0; 0x0c] else encode_name (an_owner a))
  ++ be_bytes 2 (an_type a) ++ be_bytes 2 1 ++ be_bytes 4 (an_ttl a) ++ be_bytes 2 (Z.of_nat (length (an_data a)))
  ++ an_data a.

(** The loop that fills the body, until a record does not fit. *)
Fixpoint pack_answers (question_end : nat) (name : str) (body : bytes) (count : Z) (answers : list Answer) :
    bytes * Z * bool :=
  match answers with
  | [] => (body, count, false)
  | a :: answers =>
      let record := encode_answer name a in
      if (MAX_RESPONSE_LEN <? question_end + length body + length record)%nat then (body, count, true)
      else pack_answers question_end name (body ++ record) (count + 1) answers
  end.

Definition zone_response (query : bytes) (question_end : nat) (name : str) (query_type query_class : Z) (zone : Zone)
    (records : Records) : attempt bytes :=
  let exists_ := existsb (λ e : str * list ZoneRecord, in_suffix e.1 name) (map_to_list (z_records zone)) in
  let response_code := if exists_ then 0 else 3 in
  let answers := if exists_ && (query_class =? 1)
                 then collect_answers (S MAX_CNAME_DEPTH) name query_type records [] else [] in
  let? flags := idx16 query 2 in
  let '(body, count, truncated) := pack_answers question_end name [] 0 answers in
  let truncation := if truncated then 0x0200 else 0 in
  let response_flags := Z.lor (Z.lor (Z.lor (Z.lor 0x8000 0x0400) truncation) (Z.land flags 0x0100)) response_code in
  let? head_ := response_head query question_end response_flags count in
  Ok (head_ ++ body).

(** The name, the end of the name, the type and the class of the question. *)
Definition answer (query : bytes) (records : Records) : attempt bytes :=
  if (length query <? DNS_HEADER_LEN)%nat then Err Malformed
  else
    let? flags := idx16 query 2 in
    let? questions := idx16 query 4 in
    if negb (Z.land flags 0x8000 =? 0) || negb (Z.land flags 0x7800 =? 0) || negb (questions =? 1)
    then error_response query 1
    else
      let? (name, name_end) := parse_name query DNS_HEADER_LEN in
      if (length query <? name_end + 4)%nat then error_response query 1
      else
        let question_end := (name_end + 4)%nat in
        let? query_type := idx16 query name_end in
        let? query_class := idx16 query (name_end + 2) in
        let name := to_ascii_lowercase name in
        let in_magic := magic_name name (domain records) in
        match (if in_magic then None else zone_for name records) with
        | Some zone => zone_response query question_end name query_type query_class zone records
        | None =>
            let found := addresses records !! name in
            let in_domain := in_magic || bool_decide (is_Some found) in
            let address := found ≫= λ l, address_for_query l query_type in
            let response_code := if negb in_domain then 5 else if bool_decide (found = None) then 3 else 0 in
            let has_answer := (response_code =? 0) && (query_class =? 1) && bool_decide (is_Some address) in
            let response_flags := Z.lor (Z.lor (Z.lor 0x8000 0x0400) (Z.land flags 0x0100)) response_code in
            let? head_ := response_head query question_end response_flags (if has_answer then 1 else 0) in
            Ok (head_ ++ match address with
                         | Some a =>
                             if has_answer
                             then [0xc0; 0x0c] ++ be_bytes 2 query_type ++ be_bytes 2 1 ++ be_bytes 4 DNS_TTL_SECS
                                  ++ be_bytes 2 (Z.of_nat (length (octets a))) ++ octets a
                             else []
                         | None => []
                         end)
        end.

Inductive DnsAction :=
| Reply (response : bytes)
| Forward (resolvers : list Resolver).

Definition reply (r : attempt bytes) : attempt DnsAction := let? response := r in Ok (Reply response).

Definition dns_action (query : bytes) (records : Records) : attempt DnsAction :=
  if (length query <? DNS_HEADER_LEN)%nat then Err Malformed
  else
    let? flags := idx16 query 2 in
    let? questions := idx16 query 4 in
    if negb (Z.land flags 0x8000 =? 0) || negb (Z.land flags 0x7800 =? 0) || negb (questions =? 1)
    then reply (error_response query 1)
    else
      let? (name, name_end) := parse_name query DNS_HEADER_LEN in
      if (length query <? name_end + 4)%nat then reply (error_response query 1)
      else
        let name := to_ascii_lowercase name in
        let in_magic := magic_name name (domain records) in
        let split_ := if negb in_magic && bool_decide (zone_for name records = None)
                         && bool_decide (addresses records !! name = None)
                      then split_resolvers name records else None in
        match split_ with
        | Some resolvers => Ok (Forward resolvers)
        | None => reply (answer query records)
        end.

(** ** Organisation DNS *)

Definition snapshot_resolvers (snapshot : OrgDnsSnapshot) : list Resolver :=
  omap parse_resolver (flat_map sp_resolvers (org_split snapshot) ++ global_resolvers snapshot).

Definition added_resolvers (current : option OrgDnsSnapshot) (next : OrgDnsSnapshot) : list Resolver :=
  let previous := match current with Some c => snapshot_resolvers c | None => [] end in
  List.filter (λ r, negb (bool_decide (r ∈ previous))) (snapshot_resolvers next).

(** A kept snapshot, with the revision its reason names. *)
Inductive DnsAdopt :=
| Keep (revision : Z)
| Take (clear_degraded : bool).

Definition decide_org_dns (current : option OrgDnsSnapshot) (next : OrgDnsSnapshot) (new_resolvers_ok : bool) : DnsAdopt :=
  if bool_decide (current = Some next) then Take false
  else if negb (managed next) then Take true
  else if (length (added_resolvers current next) =? 0)%nat || new_resolvers_ok then Take true
  else match current with
       | Some previous => Keep (revision previous)
       | None => Take false
       end.

Definition dec_i64 (z : Z) : str := if z <? 0 then 45 :: dec (- z) else dec z.

Definition adopt_org_dns_snapshot (st : NodeState) (incoming : option OrgDnsSnapshot) (new_resolvers_ok : bool) : NodeState :=
  match incoming with
  | None => st
  | Some next =>
      let with_dns dns degraded :=
        mkNodeState (assigned_ip st) (assigned_ips st) (st_dns_name st) (retiring_ips st) (peers st) (service_records st)
          dns degraded in
      match decide_org_dns (org_dns st) next new_resolvers_ok with
      | Keep rev => with_dns (org_dns st)
                      (Some (lit "kept DNS revision " ++ dec_i64 rev ++ lit " because new resolvers did not answer"))
      | Take clear_degraded => with_dns (Some next) (if clear_degraded then None else dns_degraded st)
      end
  end.

Definition encode_probe_query (name : str) : bytes :=
  [0x12; 0x34; 0x01; 0x00; 0x00; 0x01; 0; 0; 0; 0; 0; 0]
  ++ flat_map (λ label, if (length label =? 0)%nat then []
                        else [if (255 <? length label)%nat then 0 else Z.of_nat (length label)] ++ label)
       (split 46 (trim_end_matches 46 name))
  ++ [0] ++ be_bytes 2 1 ++ be_bytes 2 1.

(** ** [resolv.conf] *)

Definition search_line (line : str) : option str :=
  let line := trim line in
  match strip_prefix (lit "search ") line with
  | Some rest => Some rest
  | None => strip_prefix (lit "domain ") line
  end.

Definition push_search (domain : str) (suffixes : list str) (suffix : str) : list str :=
  let suffix := trim suffix in
  if (length suffix =? 0)%nat || bool_decide (suffix = domain) || bool_decide (suffix ∈ suffixes) then suffixes
  else suffixes ++ [suffix].

Definition managed_resolv_conf (original : str) (dns_ip : IpAddr) (domain : str) (extra_search : list str) : str :=
  let search := default [] (head (omap search_line (lines original))) in
  let suffixes := take 5 (foldl (push_search domain) [] (extra_search ++ split_whitespace search)) in
  let kept := List.filter (λ line, negb (starts_with (lit "search ") (trim line))
                                   && negb (starts_with (lit "domain ") (trim line))) (lines original) in
  MANAGED_MARKER ++ [10] ++ lit "search " ++ domain
  ++ flat_map (λ suffix, lit " " ++ suffix) suffixes
  ++ [10] ++ lit "nameserver " ++ show_ip dns_ip ++ [10] ++ flat_map (λ line, line ++ [10]) kept.

End Dns.
