(* ===== verification/DnsProps.v ===== *)
(** * What the agent's name server guarantees

    No query makes it index out of bounds or answer with more than a datagram
    holds, names survive the wire, device names resolve to what the peer map says,
    and only names below a published split suffix leave the device. *)

From S2P Require Import Prelude Text Net Policy Packet AclFilter Dns.
Import Dns.

#[local] Opaque be_limbs.

(** ** Reading a query *)

Lemma dns_index_ok (d : bytes) i : (i < length d)%nat → ∃ b, index d i = Ok b.
Proof. intros Hi. unfold index. destruct (lookup_lt_is_Some_2 d i Hi) as [b ->]. by exists b. Qed.

Lemma idx16_ok (d : bytes) i : (i + 1 < length d)%nat → ∃ v, idx16 d i = Ok v.
Proof.
  intros Hi. unfold idx16. destruct (dns_index_ok d i) as [a ->]; [lia|]. destruct (dns_index_ok d (i + 1)) as [b ->]; [lia|]. by eexists.
Qed.

Lemma dns_index_range_ok (d : bytes) a b : (a ≤ b ≤ length d)%nat → index_range d a b = Ok (slice a b d).
Proof.
  intros Hab. unfold index_range, get_range. rw (proj2 (Nat.leb_le a b)); [|lia]. rw (proj2 (Nat.leb_le b (length d))); [|lia]. done.
Qed.

Lemma dns_prefix_of_ok (d : bytes) n : (n ≤ length d)%nat → prefix_of d n = Ok (take n d).
Proof. intros Hn. unfold prefix_of. by rw (proj2 (Nat.leb_le n (length d)) Hn). Qed.

(** A name that reads ends inside the packet and is at most 256 bytes long. *)
Lemma parse_labels_sound fuel packet offset e :
  (length packet < fuel + offset)%nat → (offset ≤ length packet)%nat → (e ≤ 255)%nat →
  match parse_labels fuel packet offset e with
  | Ok (labels, end_) => (offset < end_ ≤ length packet)%nat ∧ (end_ + e ≤ offset + 256)%nat
  | Err x => x = Malformed
  end.
Proof.
  revert offset e; induction fuel as [|fuel IH]; intros offset e Hf Ho He; cbn [parse_labels]; [lia|].
  unfold get_byte. destruct (packet !! offset) as [b|] eqn:Hb; cbn [ok_or result_bind]; [|done].
  apply lookup_lt_Some in Hb. set (n := Z.to_nat b). destruct (Nat.eqb_spec n 0); [lia|].
  destruct (Nat.ltb_spec 63 n); cbn [orb]; [done|]. destruct (Nat.ltb_spec (length packet) (S offset + n)); [done|].
  destruct (Nat.ltb_spec 255 (e + n + 1)); [done|]. rw dns_index_range_ok; [|lia]. cbn [result_bind].
  destruct (negb _); [done|]. specialize (IH (S offset + n)%nat (e + n + 1)%nat ltac:(lia) ltac:(lia) ltac:(lia)).
  destruct (parse_labels fuel packet (S offset + n) (e + n + 1)) as [[labels end_]|x]; cbn [result_bind]; [lia|done].
Qed.

Lemma parse_name_sound packet :
  (DNS_HEADER_LEN ≤ length packet)%nat →
  match parse_name packet DNS_HEADER_LEN with
  | Ok (name, end_) => (DNS_HEADER_LEN < end_ ≤ length packet)%nat ∧ (end_ ≤ 268)%nat
  | Err x => x = Malformed
  end.
Proof.
  intros Hl. unfold parse_name. pose proof (parse_labels_sound (S (length packet)) packet DNS_HEADER_LEN 0 ltac:(lia) Hl ltac:(lia)) as Hp.
  destruct (parse_labels _ _ _ _) as [[labels end_]|x]; cbn [result_bind]; [|done]. unfold DNS_HEADER_LEN in *. lia.
Qed.

(** ** Sizes *)

(** A reader that never indexes out of bounds and yields at most [n] bytes. *)
Definition yields (n : nat) (r : attempt bytes) : Prop :=
  match r with Ok b => (length b ≤ n)%nat | Err x => x = Malformed end.

Lemma error_response_yields q rc : yields DNS_HEADER_LEN (error_response q rc).
Proof.
  unfold error_response. destruct (Nat.ltb_spec (length q) DNS_HEADER_LEN) as [|Hq]; [done|]. unfold DNS_HEADER_LEN in Hq.
  destruct (idx16_ok q 2) as [v ->]; [lia|]. cbn [result_bind]. rw dns_prefix_of_ok; [|lia]. cbn [result_bind yields].
  rewrite -> !length_app, length_take, length_be_limbs, length_replicate. unfold DNS_HEADER_LEN. lia.
Qed.

Lemma response_head_ok q n flags count :
  (DNS_HEADER_LEN ≤ n ≤ length q)%nat → ∃ h, response_head q n flags count = Ok h ∧ length h = n.
Proof.
  intros Hn. unfold response_head. unfold DNS_HEADER_LEN in *. rw dns_prefix_of_ok; [|lia]. cbn [result_bind].
  rw dns_index_range_ok; [|lia]. cbn [result_bind]. eexists. split; [done|].
  unfold slice. rewrite -> !length_app, !length_take, length_drop, !length_be_limbs. lia.
Qed.

Lemma pack_answers_fits qe name body count answers :
  (qe + length body ≤ MAX_RESPONSE_LEN)%nat →
  (qe + length (pack_answers qe name body count answers).1.1 ≤ MAX_RESPONSE_LEN)%nat.
Proof.
  revert body count; induction answers as [|a answers IH]; intros body count Hb; cbn [pack_answers]; [done|].
  destruct (Nat.ltb_spec MAX_RESPONSE_LEN (qe + length body + length (encode_answer name a))); [done|].
  apply IH. rw length_app. lia.
Qed.

Lemma octets_length a : (length (octets a) ≤ 16)%nat.
Proof. destruct a; cbn [octets]; unfold v4_octets, v6_octets; rw length_be_limbs; lia. Qed.

Lemma zone_response_yields q n name ty cl zone records :
  (DNS_HEADER_LEN ≤ n ≤ length q)%nat → (n ≤ MAX_RESPONSE_LEN)%nat →
  yields MAX_RESPONSE_LEN (zone_response q n name ty cl zone records).
Proof.
  intros Hn Hm. unfold zone_response. destruct (idx16_ok q 2) as [v ->]; [unfold DNS_HEADER_LEN in *; lia|]. cbn [result_bind].
  match goal with |- context [pack_answers _ _ _ _ ?l] => set (answers := l) end. pose proof (pack_answers_fits n name [] 0 answers) as Hp.
  destruct (pack_answers n name [] 0 answers) as [[body count] truncated]. cbn [fst length] in Hp.
  set (flags := Z.lor _ _). destruct (response_head_ok q n flags count Hn) as (h & -> & Hh). cbn [result_bind yields].
  rw length_app Hh. lia.
Qed.

Lemma answer_yields q records : yields MAX_RESPONSE_LEN (answer q records).
Proof.
  assert (300 ≤ MAX_RESPONSE_LEN)%nat as Hmax by (apply Nat.leb_le; by vm_compute).
  assert (yields MAX_RESPONSE_LEN (error_response q 1)) as Herr.
  { pose proof (error_response_yields q 1) as He. destruct (error_response q 1); [|done]. unfold yields, DNS_HEADER_LEN in *. lia. }
  set (M := MAX_RESPONSE_LEN) in *. unfold answer.
  destruct (Nat.ltb_spec (length q) DNS_HEADER_LEN) as [|Hq]; [done|]. pose proof (parse_name_sound q Hq) as Hname.
  unfold DNS_HEADER_LEN in Hq. destruct (idx16_ok q 2) as [flags ->]; [lia|]. destruct (idx16_ok q 4) as [questions ->]; [lia|].
  cbn [result_bind]. destruct (_ || _); [done|].
  destruct (parse_name q DNS_HEADER_LEN) as [[name0 ne]|x]; cbn [result_bind]; [|done]. destruct Hname as [Hne Hmx].
  destruct (Nat.ltb_spec (length q) (ne + 4)) as [|Hend]; [done|]. destruct (idx16_ok q ne) as [ty ->]; [lia|].
  destruct (idx16_ok q (ne + 2)) as [cl ->]; [lia|]. cbn [result_bind]. set (name := to_ascii_lowercase name0).
  destruct (if magic_name name (domain records) then None else zone_for name records) as [zone|].
  { apply zone_response_yields; [unfold DNS_HEADER_LEN in *; lia|fold M; lia]. }
  set (found := addresses records !! name). set (address := found ≫= _). set (fl := Z.lor _ _). set (ha := _ && _ && _).
  destruct (response_head_ok q (ne + 4) fl (if ha then 1 else 0) ltac:(unfold DNS_HEADER_LEN in *; lia)) as (h & -> & Hh). cbn [result_bind yields].
  rw length_app Hh. destruct address as [a|]; [|cbn [length]; lia]. destruct ha; [|cbn [length]; lia].
  rewrite -> !length_app, !length_be_limbs. cbn [length]. pose proof (octets_length a). lia.
Qed.

(** The stub is total and its replies fit: whatever bytes arrive and whatever
    names are published, no query makes it index out of bounds or loop, and a reply
    is at most 1232 bytes. *)
Theorem stub_never_panics (query : bytes) (records : Records) :
  match dns_action query records with
  | Ok (Reply response) => (length response ≤ Z.to_nat 1232)%nat
  | Ok (Forward resolvers) => resolvers ≠ []
  | Err x => x = Malformed
  end.
Proof.
  fold MAX_RESPONSE_LEN. assert (∀ r, yields MAX_RESPONSE_LEN r →
    match reply r with Ok (Reply response) => (length response ≤ MAX_RESPONSE_LEN)%nat | Ok (Forward rs) => rs ≠ [] | Err x => x = Malformed end) as Hreply.
  { intros [b|x] Hr; [exact Hr|exact Hr]. }
  assert (300 ≤ MAX_RESPONSE_LEN)%nat as Hmax by (apply Nat.leb_le; by vm_compute).
  assert (yields MAX_RESPONSE_LEN (error_response query 1)) as Herr.
  { pose proof (error_response_yields query 1) as He. destruct (error_response query 1); [|done]. unfold yields, DNS_HEADER_LEN in *. lia. }
  unfold dns_action. destruct (Nat.ltb_spec (length query) DNS_HEADER_LEN) as [|Hq]; [done|].
  pose proof (parse_name_sound query Hq) as Hname. unfold DNS_HEADER_LEN in Hq.
  destruct (idx16_ok query 2) as [flags ->]; [lia|]. destruct (idx16_ok query 4) as [questions ->]; [lia|]. cbn [result_bind].
  destruct (_ || _); [by apply Hreply|].
  destruct (parse_name query DNS_HEADER_LEN) as [[name0 ne]|x]; cbn [result_bind]; [|done].
  destruct (Nat.ltb_spec (length query) (ne + 4)); [by apply Hreply|].
  match goal with |- context [match ?s with Some _ => _ | None => _ end] => destruct s as [rs|] eqn:Hs end;
    [|apply Hreply, answer_yields].
  destruct (_ && _); [|done]. unfold split_resolvers in Hs. destruct (_ || _); [done|].
  destruct (max_by_length _ _) as [route|]; [|done]. simpl in Hs. destruct (Nat.eqb_spec (length route.2) 0) as [|Hl]; [done|].
  injection Hs as <-. intros Hnil. by rewrite Hnil in Hl.
Qed.

(** ** Names on the wire *)

Lemma split_not_nil c s : split c s ≠ [].
Proof. destruct s as [|d s]; cbn [split]; [done|]. destruct (c =? d); [done|]. by destruct (split c s). Qed.

Lemma join_split c s : join [c] (split c s) = s.
Proof.
  induction s as [|d s IH]; [done|]. cbn [split]. destruct (Z.eqb_spec c d) as [<-|Hne].
  - rw join_cons. pose proof (split_not_nil c s) as Hn. destruct (split c s) as [|p l]; [done|]. by rw IH.
  - pose proof (split_not_nil c s) as Hn. destruct (split c s) as [|p l]; [done|]. rw join_cons. cbn [app]. f_equal.
    rw -[in RHS]IH join_cons. done.
Qed.

Definition encode_label (label : str) : bytes := [Z.of_nat (length label) mod 256] ++ label.

Definition wire_length (labels : list str) : nat := length (flat_map encode_label labels).

Lemma wire_length_join labels : labels ≠ [] → wire_length labels = S (length (join [46] labels)).
Proof.
  unfold wire_length. induction labels as [|l labels IH]; intros Hn; [done|]. cbn [flat_map]. rw join_cons !length_app. cbn [length].
  destruct labels as [|l' labels]; [cbn [flat_map length]; lia|]. by rw IH.
Qed.

Lemma wire_length_count labels : (length labels ≤ wire_length labels)%nat.
Proof. unfold wire_length. induction labels as [|l ls IH]; [done|]. cbn [flat_map]. rw length_app. simpl. lia. Qed.

Lemma parse_labels_encode fuel labels pre rest e :
  Forall (λ l, safe_label l = true) labels → (length labels < fuel)%nat → (e + wire_length labels ≤ 255)%nat →
  parse_labels fuel (pre ++ flat_map encode_label labels ++ 0 :: rest) (length pre) e =
  Ok (labels, length pre + wire_length labels + 1)%nat.
Proof.
  intros Hl. revert fuel pre e; induction Hl as [|l labels Hl _ IH]; intros fuel pre e Hf He; (destruct fuel as [|fuel]; [simpl in Hf; lia|]).
  - cbn [flat_map app parse_labels]. unfold get_byte. rw list_lookup_middle //. cbn [ok_or result_bind]. cbn. do 2 f_equal. unfold wire_length. simpl. lia.
  - unfold safe_label in Hl. to_prop. unfold wire_length in *. cbn [flat_map] in *. rewrite length_app in He.
    assert (length (encode_label l) = S (length l)) as Hel by done.
    assert (Z.of_nat (length l) mod 256 = Z.of_nat (length l)) as Hmod by (apply Z.mod_small; lia).
    set (packet := pre ++ (encode_label l ++ flat_map encode_label labels) ++ 0 :: rest).
    assert (packet = (pre ++ encode_label l) ++ flat_map encode_label labels ++ 0 :: rest) as Hp by by unfold packet; rewrite -!app_assoc.
    assert (slice (S (length pre)) (S (length pre) + length l) packet = l) as Hs.
    { transitivity (slice (S (length pre)) (S (length pre) + length l) ((pre ++ [Z.of_nat (length l) mod 256]) ++ l ++ flat_map encode_label labels ++ 0 :: rest)).
      - unfold packet, encode_label. by rewrite -!app_assoc.
      - apply slice_middle; rewrite length_app; simpl; lia. }
    assert (S (length pre) + length l = length (pre ++ encode_label l))%nat as Hoff by (rewrite length_app Hel; lia).
    assert (length (pre ++ encode_label l) ≤ length packet)%nat as Hlen by (rewrite Hp (length_app (pre ++ encode_label l)); lia).
    cbn [parse_labels]. unfold get_byte. assert (packet !! length pre = Some (Z.of_nat (length l))) as ->.
    { unfold packet, encode_label. rewrite Hmod -!app_assoc. by apply list_lookup_middle. }
    cbn [ok_or result_bind]. rw Nat2Z.id. destruct (Nat.eqb_spec (length l) 0); [lia|]. destruct (Nat.ltb_spec 63 (length l)); [lia|].
    destruct (Nat.ltb_spec (length packet) (S (length pre) + length l)); [lia|]. cbn [orb].
    destruct (Nat.ltb_spec 255 (e + length l + 1)); [lia|]. rw dns_index_range_ok; [|lia]. cbn [result_bind]. rw Hs.
    revert select (forallb name_char l = true). intros ->. cbn [negb]. rw Hoff Hp IH; [|simpl in Hf; lia|lia]. cbn [result_bind].
    do 2 f_equal. rewrite !length_app. lia.
Qed.

(** Names survive the wire: a safe name of at most 253 characters, encoded into
    a packet, reads back as itself, and reading ends right behind it. *)
Lemma name_roundtrip (name : str) (pre rest : bytes)
    (Hsafe : labels_are_safe name = true) (Hlen : (length name ≤ 253)%nat) :
  parse_name (pre ++ encode_name name ++ rest) (length pre) = Ok (name, length pre + length (encode_name name))%nat.
Proof.
  unfold labels_are_safe in Hsafe. rewrite forallb_forall in Hsafe.
  assert (Forall (λ l, safe_label l = true) (split 46 name)) as Hl.
  { apply Forall_forall. intros l Hl%list_elem_of_In. by apply Hsafe. }
  assert (List.filter (λ label, negb (length label =? 0)%nat) (split 46 name) = split 46 name) as Hfil.
  { clear Hsafe. induction Hl as [|l ls Hl _ IH]; [done|]. cbn [List.filter]. unfold safe_label in Hl. to_prop.
    destruct (Nat.eqb_spec (length l) 0); [lia|]. cbn [negb]. by rw IH. }
  unfold encode_name, parse_name. rw Hfil. fold encode_label. change (λ label, [_] ++ label) with encode_label.
  pose proof (wire_length_join (split 46 name) (split_not_nil 46 name)) as Hw. rewrite join_split in Hw.
  rewrite -app_assoc. cbn [app]. rw parse_labels_encode //.
  - cbn [result_bind]. change (lit ".") with [46]. rw join_split length_app. unfold wire_length. cbn [length]. do 2 f_equal. lia.
  - pose proof (wire_length_count (split 46 name)). unfold wire_length in *. rewrite !length_app. lia.
  - rw Hw. lia.
Qed.

(** ** Records *)

Lemma ends_with_true p s : ends_with p s = true ↔ ∃ q, s = q ++ p.
Proof.
  unfold ends_with. rw starts_with_true. split.
  - intros [r Hr]. exists (reverse r). apply (f_equal reverse) in Hr. rewrite reverse_involutive reverse_app reverse_involutive in Hr. done.
  - intros [q ->]. exists (reverse q). by rewrite reverse_app.
Qed.

Section push.
Context {A : Type} `{EqDecision A}.

Lemma push_unique_elem (m : gmap str (list A)) k v k' v' :
  v' ∈ default [] (push_unique m k v !! k') ↔ v' ∈ default [] (m !! k') ∨ (k' = k ∧ v' = v).
Proof.
  unfold push_unique. destruct (decide (k' = k)) as [->|Hne].
  - rw lookup_insert_eq. cbn [default]. case_bool_decide; [set_solver|]. rw elem_of_app list_elem_of_singleton. tauto.
  - rw lookup_insert_ne; [|done]. tauto.
Qed.

Lemma push_all_elem (m : gmap str (list A)) k l k' v' :
  v' ∈ default [] (foldl (λ m v, push_unique m k v) m l !! k') ↔ v' ∈ default [] (m !! k') ∨ (k' = k ∧ v' ∈ l).
Proof.
  revert m; induction l as [|v l IH]; intros m; cbn [foldl]; [set_solver|]. rw IH push_unique_elem elem_of_cons. tauto.
Qed.
End push.

(** A fold that only adds. *)
Lemma foldl_elem {A X} (f : gmap str (list A) → X → gmap str (list A)) (P : X → Prop) (k : str) (v : A) l m :
  (∀ m x, v ∈ default [] (f m x !! k) ↔ v ∈ default [] (m !! k) ∨ P x) →
  v ∈ default [] (foldl f m l !! k) ↔ v ∈ default [] (m !! k) ∨ ∃ x, x ∈ l ∧ P x.
Proof.
  intros Hf. revert m; induction l as [|x l IH]; intros m; cbn [foldl]; [set_solver|]. rw IH Hf. setoid_rewrite elem_of_cons. naive_solver.
Qed.

(** A tailnet address as the coordinator writes it: one host. *)
Definition host_address (address : str) (a : IpAddr) : Prop :=
  ∃ text prefix, split_once 47 address = Some (text, prefix) ∧ parse_ip text = Some a ∧
    prefix = if is_ipv4 a then lit "32" else lit "128".

(** The device or a peer called [n] has this address, and it is not on its way out. *)
Definition owns (st : NodeState) (n address : str) : Prop :=
  address ∉ retiring_ips st ∧
  ((n = st_dns_name st ∧ address ∈ interface_addresses st) ∨
   ∃ peer, peer ∈ peers st ∧ n = dns_name peer ∧ address ∈ allowed_ips peer).

Definition service_has (st : NodeState) (dom name : str) (a : IpAddr) : Prop :=
  ∃ s text, s ∈ service_records st ∧ normalise (sv_name s) = name ∧ ends_with (lit ".svc." ++ dom) name = true ∧
    labels_are_safe name = true ∧ text ∈ sv_addresses s ∧ parse_ip text = Some a.

(** What a name under the domain stands for. *)
Definition stands_for (st : NodeState) (dom name : str) (a : IpAddr) : Prop :=
  (∃ n address, owns st n address ∧ normalise n = name ∧ host_address address a) ∨ service_has st dom name a.

Definition under (dom name : str) : Prop := ends_with (lit "." ++ dom) name = true.

Lemma under_dot dom name : under dom name → 46 ∈ name.
Proof. unfold under. rw ends_with_true. intros [q ->]. set_solver. Qed.

Lemma insert_record_elem m n address dom name a :
  under dom name →
  a ∈ default [] (insert_record m n address dom !! name) ↔ a ∈ default [] (m !! name) ∨ (normalise n = name ∧ host_address address a).
Proof.
  intros Hu. unfold insert_record, host_address.
  destruct (ends_with (lit "." ++ dom) (normalise n)) eqn:He; cbn [negb].
  2: { split; [by left|]. intros [?|[<- _]]; [done|]. by unfold under in Hu; rewrite He in Hu. }
  destruct (split_once 47 address) as [[text prefix]|]; [|naive_solver].
  destruct (parse_ip text) as [ip|] eqn:Hip; [|naive_solver].
  case_bool_decide as Hp; cbn [negb]; [|naive_solver].
  rw push_unique_elem. assert (∀ label rest, split_once 46 (normalise n) = Some (label, rest) → name ≠ label) as Hlab.
  { intros label rest [_ Hno]%split_once_Some ->. by apply Hno, (under_dot dom). }
  destruct (split_once 46 (normalise n)) as [[label rest]|]; [rw push_unique_elem; specialize (Hlab label rest eq_refl)|]; naive_solver.
Qed.

Lemma insert_service_elem m s dom name a :
  a ∈ default [] (insert_service_record dom m s !! name) ↔
  a ∈ default [] (m !! name) ∨
  (normalise (sv_name s) = name ∧ ends_with (lit ".svc." ++ dom) name = true ∧ labels_are_safe name = true ∧
   ∃ text, text ∈ sv_addresses s ∧ parse_ip text = Some a).
Proof.
  unfold insert_service_record. destruct (ends_with _ (normalise (sv_name s))) eqn:He; cbn [negb orb].
  2: { split; [by left|]. intros [?|(<- & Hx & _)]; [done|congruence]. }
  destruct (labels_are_safe (normalise (sv_name s))) eqn:Hs; cbn [negb].
  2: { split; [by left|]. intros [?|(<- & _ & Hx & _)]; [done|congruence]. }
  rw push_all_elem list_elem_of_omap. split.
  - intros [?|[-> Hx]]; [by left|by right].
  - intros [?|(<- & _ & _ & Hx)]; [by left|by right].
Qed.

Lemma insert_extra_elem m r name a :
  ends_with (lit ".blaktail") name = true →
  a ∈ default [] (insert_extra_record m r !! name) ↔ a ∈ default [] (m !! name).
Proof.
  intros Hn. unfold insert_extra_record. destruct (length _ =? 0)%nat; [done|].
  destruct (ends_with (lit ".blaktail") (normalise (rec_name r))) eqn:He; cbn [orb]; [done|].
  destruct (parse_ip (rec_value r)); [|done]. case_match; [|done]. rw push_unique_elem. split; [|by left].
  intros [?|[-> _]]; [done|]. by rewrite He in Hn.
Qed.

(** The names under the domain stand for exactly what the peer map says. *)
Lemma records_exact st dom name a :
  valid_domain dom = true → under dom name →
  a ∈ default [] (addresses (records_from_state st dom) !! name) ↔ stands_for st dom name a.
Proof.
  intros Hd Hu. assert (ends_with (lit ".blaktail") name = true) as Hb.
  { unfold valid_domain in Hd. to_prop. unfold under in Hu. rewrite ends_with_true in Hu. destruct Hu as [q ->].
    match goal with H : ends_with _ dom = true |- _ => apply ends_with_true in H as [q' ->] end.
    apply ends_with_true. exists (q ++ lit "." ++ q'). by rewrite -!app_assoc. }
  unfold records_from_state.
  set (m0 := foldl _ ∅ _). set (m1 := foldl _ m0 (peers st)). set (m2 := insert_service_records m1 _ dom).
  assert (a ∈ default [] (m2 !! name) ↔ stands_for st dom name a) as Hm2.
  { unfold m2, insert_service_records. rw foldl_elem; [|intros; apply insert_service_elem].
    unfold m1. rw foldl_elem; [|intros m peer; apply foldl_elem; intros; by apply insert_record_elem].
    unfold m0. rw foldl_elem; [|intros; by apply insert_record_elem]. rw lookup_empty. cbn [default].
    assert (∀ l x, x ∈ List.filter (λ a, negb (bool_decide (a ∈ retiring_ips st))) l ↔ x ∉ retiring_ips st ∧ x ∈ l) as Hcur.
    { intros l x. rewrite list_elem_of_In filter_In -list_elem_of_In negb_true_iff bool_decide_eq_false. tauto. }
    setoid_rewrite Hcur. unfold stands_for, service_has, owns. split.
    - intros [[[Hx|(x & [Hr Hi] & Hn & Hh)]|(p & Hp & x & [Hr Hi] & Hn & Hh)]|(s & Hs & Hn & He & Hl & t & Ht & Ha)].
      + by apply not_elem_of_nil in Hx.
      + left. exists (st_dns_name st), x. tauto.
      + left. exists (dns_name p), x. split; [split; [done|]|done]. right. by exists p.
      + right. by exists s, t.
    - intros [(n & x & [Hr [[-> Hi]|(p & Hp & -> & Hi)]] & Hn & Hh)|(s & t & Hs & Hn & He & Hl & Ht & Ha)]; [left; left; right|left; right|right].
      + by exists x.
      + exists p. split; [done|]. by exists x.
      + exists s. split_and!; try done. by exists t. }
  destruct (org_dns st) as [snapshot|]; [|done]. destruct (managed snapshot); [|done]. cbn [addresses].
  rewrite -Hm2. rw foldl_elem; [|intros; rewrite insert_extra_elem //; instantiate (1 := λ _, False); tauto]. naive_solver.
Qed.

(** A name in the table has an address. *)
Definition no_empty (m : gmap str (list IpAddr)) : Prop := ∀ name l, m !! name = Some l → l ≠ [].

Lemma no_empty_push m key a : no_empty m → no_empty (push_unique m key a).
Proof.
  intros Hm name l. unfold push_unique. rewrite lookup_insert_Some. intros [[-> <-]|[_ Hl]]; [|by eapply Hm].
  case_bool_decide as Hin; [|by destruct (default [] _)]. intros Hnil. rewrite Hnil in Hin. by apply not_elem_of_nil in Hin.
Qed.

Lemma no_empty_fold {B} (f : gmap str (list IpAddr) → B → gmap str (list IpAddr)) l m :
  (∀ m x, no_empty m → no_empty (f m x)) → no_empty m → no_empty (foldl f m l).
Proof. intros Hf. revert m; induction l as [|x l IH]; intros m Hm; cbn [foldl]; [done|]. by apply IH, Hf. Qed.

Lemma no_empty_record m n address dom : no_empty m → no_empty (insert_record m n address dom).
Proof. intros Hm. unfold insert_record. repeat case_match; try done; repeat apply no_empty_push; done. Qed.

Lemma no_empty_service dom m s : no_empty m → no_empty (insert_service_record dom m s).
Proof. intros Hm. unfold insert_service_record. case_match; [done|]. apply no_empty_fold; [|done]. intros; by apply no_empty_push. Qed.

Lemma no_empty_extra m r : no_empty m → no_empty (insert_extra_record m r).
Proof. intros Hm. unfold insert_extra_record. repeat case_match; try done; by apply no_empty_push. Qed.

Lemma records_no_empty st dom : no_empty (addresses (records_from_state st dom)).
Proof.
  unfold records_from_state. set (m0 := foldl _ ∅ _). set (m1 := foldl _ m0 (peers st)). set (m2 := insert_service_records m1 _ dom).
  assert (no_empty m2) as Hm2.
  { apply no_empty_fold; [intros; by apply no_empty_service|]. apply no_empty_fold.
    - intros m peer Hm. apply no_empty_fold; [|done]. intros; by apply no_empty_record.
    - apply no_empty_fold; [intros; by apply no_empty_record|]. by intros name l ?%lookup_empty_Some. }
  destruct (org_dns st) as [snapshot|]; [|done]. destruct (managed snapshot); [|done].
  apply no_empty_fold; [|done]. intros; by apply no_empty_extra.
Qed.

(** ** Resolution *)

(** A standard query for one name in the Internet class. *)
Definition question (i1 i2 f1 f2 : Z) (name : str) (ty : Z) : bytes :=
  [i1; i2; f1; f2; 0; 1; 0; 0; 0; 0; 0; 0] ++ encode_name name ++ [0; ty; 0; 1].

Lemma idx16_app (P : bytes) a b rest : idx16 (P ++ a :: b :: rest) (length P) = Ok (from_be [a; b]).
Proof.
  unfold idx16, index. rw list_lookup_middle //. cbn [ok_or result_bind]. rw lookup_app_r; [|lia].
  by replace (length P + 1 - length P)%nat with 1%nat by lia.
Qed.

Definition standard (f1 f2 : Z) : Prop := Z.land (from_be [f1; f2]) 0x8000 = 0 ∧ Z.land (from_be [f1; f2]) 0x7800 = 0.

(** The reply that is not a zone's: no more than one address, for the name asked about. *)
Definition plain_reply (i1 i2 f1 f2 : Z) (name : str) (ty code : Z) (address : option IpAddr) : bytes :=
  [i1; i2] ++ be_bytes 2 (Z.lor (Z.lor 0x8400 (Z.land (from_be [f1; f2]) 0x0100)) code) ++ be_bytes 2 1
  ++ be_bytes 2 (if bool_decide (is_Some address) then 1 else 0) ++ replicate 4 0 ++ encode_name name ++ [0; ty; 0; 1]
  ++ match address with
     | Some a => ([0xc0; 0x0c] ++ be_bytes 2 ty ++ be_bytes 2 1 ++ be_bytes 4 DNS_TTL_SECS)
                 ++ be_bytes 2 (Z.of_nat (length (octets a))) ++ octets a
     | None => []
     end.

(** How a query for a safe lower-case name is read and decided. *)
Lemma question_reads i1 i2 f1 f2 name ty records :
  standard f1 f2 → labels_are_safe name = true → (length name ≤ 253)%nat → to_ascii_lowercase name = name →
  let magic := magic_name name (domain records) in
  let found := addresses records !! name in
  let q := question i1 i2 f1 f2 name ty in
  dns_action q records =
    match (if negb magic && bool_decide (zone_for name records = None) && bool_decide (found = None)
           then split_resolvers name records else None) with
    | Some rs => Ok (Forward rs)
    | None => reply match (if magic then None else zone_for name records) with
                    | Some zone => zone_response q (length q) name ty 1 zone records
                    | None => Ok (plain_reply i1 i2 f1 f2 name ty
                                    (match found with Some _ => 0 | None => if magic then 3 else 5 end)
                                    (found ≫= λ l, address_for_query l ty))
                    end
    end.
Proof.
  intros [Hf1 Hf2] Hsafe Hlen Hlow magic found q.
  set (enc := encode_name name). set (P := [i1; i2; f1; f2; 0; 1; 0; 0; 0; 0; 0; 0] ++ enc).
  assert (q = P ++ [0; ty; 0; 1]) as Hq by (unfold q, question, P; by rewrite -app_assoc).
  assert (parse_name q DNS_HEADER_LEN = Ok (name, length P)) as Hname.
  { unfold q, question. change DNS_HEADER_LEN with (length [i1; i2; f1; f2; 0; 1; 0; 0; 0; 0; 0; 0]). by rw name_roundtrip. }
  assert (length P + 4 = length q)%nat as Hlq by (rewrite Hq length_app; done).
  assert (12 ≤ length P)%nat as HP by (unfold P; rewrite length_app; simpl; lia).
  assert (idx16 q 2 = Ok (from_be [f1; f2]) ∧ idx16 q 4 = Ok 1) as [H2 H4] by done.
  assert (idx16 q (length P) = Ok ty) as Hty.
  { rewrite Hq. by rw idx16_app. }
  assert (idx16 q (length P + 2) = Ok 1) as Hcl.
  { replace (length P + 2)%nat with (length (P ++ [0; ty])) by (rewrite length_app; done).
    replace q with ((P ++ [0; ty]) ++ [0; 1]) by (rewrite Hq -app_assoc; done). by rw idx16_app. }
  assert (length q <? DNS_HEADER_LEN = false)%nat as Hge by (apply Nat.ltb_ge; unfold DNS_HEADER_LEN; lia).
  assert (length q <? length P + 4 = false)%nat as Hge' by (apply Nat.ltb_ge; lia).
  unfold dns_action. rw Hge H2 H4. cbn [result_bind]. rw Hf1 Hf2. change (negb (0 =? 0) || negb (0 =? 0) || negb (1 =? 1)) with false. cbv iota.
  rw Hname. cbn [result_bind]. rw Hge' Hlow. fold magic found. destruct (if negb magic && _ && _ then _ else _); [done|]. f_equal.
  unfold answer. rw Hge H2 H4. cbn [result_bind]. rw Hf1 Hf2. change (negb (0 =? 0) || negb (0 =? 0) || negb (1 =? 1)) with false. cbv iota.
  rw Hname. cbn [result_bind]. rw Hge' Hty Hcl. cbn [result_bind]. rw Hlow. fold magic found.
  rw Hlq. destruct (if magic then None else zone_for name records); [done|].
  unfold response_head. rw dns_prefix_of_ok; [|lia]. cbn [result_bind]. rw dns_index_range_ok; [|unfold DNS_HEADER_LEN; lia].
  assert (slice DNS_HEADER_LEN (length q) q = enc ++ [0; ty; 0; 1]) as Hslice.
  { unfold q, question. apply slice_last; [done|]. rewrite !length_app. cbn [length]. fold enc. lia. }
  rw Hslice. cbn [result_bind]. change (take 2 q) with [i1; i2]. unfold plain_reply. fold enc.
  change (be_bytes 2 0 ++ be_bytes 2 0 ++ enc ++ [0; ty; 0; 1]) with (replicate 4 0 ++ enc ++ [0; ty; 0; 1]).
  clearbody found magic. destruct found as [l|]; cbn [mbind option_bind].
  - rw (bool_decide_true (is_Some (Some l))); [|by eexists]. rw orb_true_r (bool_decide_false (Some l = None)) //. cbn [negb].
    destruct (address_for_query l ty) as [a|].
    + rw bool_decide_true; [|by eexists]. by rewrite -!app_assoc.
    + rw bool_decide_false; [|by intros []]. by rewrite -!app_assoc.
  - rw (bool_decide_true (None = None)) // (bool_decide_false (is_Some None)); [|by intros []].
    destruct magic; cbn [orb negb]; by rewrite -!app_assoc.
Qed.

(** [C27] Device names resolve to what the peer map says: a query for a lower-case name
    under the tailnet's domain is answered locally; an address in the answer is one
    the map gives that name, of the type asked for and not being retired; without
    one, no address of that type belongs to the name, and the answer is empty where
    the name has an address of the other type and NXDOMAIN where it has none. *)
Theorem device_name_resolves (st : NodeState) (dom name : str) (i1 i2 f1 f2 ty : Z)
    (Hdom : valid_domain dom = true) (Hname : labels_are_safe name = true ∧ (length name ≤ 253)%nat ∧ to_ascii_lowercase name = name)
    (Hunder : ends_with (lit "." ++ dom) name = true) (Hflags : standard f1 f2) (Hty : ty = 1 ∨ ty = 28) :
  ∃ code count body,
    dns_action (question i1 i2 f1 f2 name ty) (records_from_state st dom) =
      Ok (Reply ([i1; i2] ++ be_bytes 2 (Z.lor (Z.lor 0x8400 (Z.land (from_be [f1; f2]) 0x0100)) code) ++ be_bytes 2 1
                 ++ be_bytes 2 count ++ replicate 4 0 ++ encode_name name ++ [0; ty; 0; 1] ++ body)) ∧
    ((count = 1 ∧ code = 0 ∧ ∃ a, stands_for st dom name a ∧ address_type a = ty ∧
        body = [0xc0; 0x0c; 0; ty; 0; 1] ++ be_bytes 4 DNS_TTL_SECS ++ be_bytes 2 (Z.of_nat (length (octets a))) ++ octets a) ∨
     (count = 0 ∧ body = [] ∧ (∀ a, stands_for st dom name a → address_type a ≠ ty) ∧
      (code = 0 ∧ (∃ a, stands_for st dom name a) ∨ code = 3 ∧ ∀ a, ¬ stands_for st dom name a))).
Proof.
  destruct Hname as (Hsafe & Hlen & Hlow). set (records := records_from_state st dom).
  assert (domain records = dom) as Hd.
  { unfold records, records_from_state. destruct (org_dns st) as [s|]; [|done]. by destruct (managed s). }
  assert (magic_name name (domain records) = true) as Hmagic by (unfold magic_name; rw Hd Hunder; apply orb_true_r).
  rw question_reads //. rw Hmagic. cbn [negb andb reply result_bind]. unfold plain_reply.
  pose proof (λ a, records_exact st dom name a Hdom Hunder) as Hex. fold records in Hex.
  pose proof (records_no_empty st dom name) as Hne. fold records in Hne.
  do 3 eexists. split; [reflexivity|]. destruct (addresses records !! name) as [l|]; cbn [default] in Hex; cbn [mbind option_bind].
  - destruct (address_for_query l ty) as [a|] eqn:Ha.
    + left. unfold address_for_query in Ha. apply List.find_some in Ha as [Hin Hm]. rw bool_decide_true; [|by eexists].
      split_and!; [done..|]. exists a. split_and!; [by apply Hex, list_elem_of_In| |].
      * destruct a; cbn [address_type]; to_prop; done.
      * by destruct Hty as [-> | ->].
    + right. rw bool_decide_false; [|by intros []]. split_and!; [done..| |left; split; [done|]].
      2: { destruct l as [|a l]; [by destruct (Hne [] eq_refl)|]. exists a. apply Hex. by left. }
      intros a Hs%Hex%list_elem_of_In <-.
      pose proof (List.find_none _ _ Ha a Hs) as Hn. by destruct a.
  - right. rw bool_decide_false; [|by intros []]. split_and!; [done..| |right].
    + intros a Hs%Hex. by apply not_elem_of_nil in Hs.
    + split; [done|]. intros a Hs%Hex. by apply not_elem_of_nil in Hs.
Qed.

(** ** Privacy *)

Lemma max_by_length_spec {A} (key : A → str) l :
  match max_by_length key l with
  | Some x => x ∈ l ∧ ∀ y, y ∈ l → (length (key y) ≤ length (key x))%nat
  | None => l = []
  end.
Proof.
  unfold max_by_length. induction l as [|x l IH] using rev_ind; [done|]. rewrite foldl_app. cbn [foldl].
  destruct (foldl _ None l) as [b|].
  - destruct IH as [Hb Hmax]. destruct (Nat.ltb_spec (length (key x)) (length (key b))).
    + split; [set_solver|]. intros y [Hy| ->%list_elem_of_singleton]%elem_of_app; [by apply Hmax|lia].
    + split; [set_solver|]. intros y [Hy| ->%list_elem_of_singleton]%elem_of_app; [apply Hmax in Hy; lia|lia].
  - subst. split; [set_solver|]. intros y [Hy| ->%list_elem_of_singleton]%elem_of_app; [set_solver|lia].
Qed.

Lemma zone_for_none name records :
  zone_for name records = None →
  ∀ z, z ∈ zones records → in_suffix name (z_name z) = true →
  ∃ route, route ∈ split_routes records ∧ in_suffix name route.1 = true ∧ (length (z_name z) < length route.1)%nat.
Proof.
  unfold zone_for. intros Hz z Hin Hs. set (l := List.filter _ (zones records)) in Hz.
  pose proof (max_by_length_spec z_name l) as Hmax. assert (z ∈ l) as Hl by by apply filter_elem.
  destruct (max_by_length z_name l) as [b|]; [|by subst l; rewrite Hmax in Hl; apply not_elem_of_nil in Hl].
  destruct Hmax as [_ Hmax]. simpl in Hz. destruct (existsb _ _) eqn:He; [|done]. apply existsb_exists in He as (route & Hr & Hc).
  to_prop. exists route. split_and!; [by apply list_elem_of_In|done|]. apply Hmax in Hl. lia.
Qed.

Lemma split_resolvers_some name records rs :
  split_resolvers name records = Some rs →
  seq_b name "blaktail" = false ∧ ends_with (lit ".blaktail") name = false ∧
  ∃ suffix, (suffix, rs) ∈ split_routes records ∧ in_suffix name suffix = true ∧
    ∀ route, route ∈ split_routes records → in_suffix name route.1 = true → (length route.1 ≤ length suffix)%nat.
Proof.
  unfold split_resolvers. destruct (seq_b name "blaktail"); [done|]. destruct (ends_with _ name); [done|]. cbn [orb].
  set (l := List.filter _ _). pose proof (max_by_length_spec fst l) as Hmax. destruct (max_by_length fst l) as [[suffix rs']|]; [|done].
  simpl. case_match; [done|]. intros [= ->]. destruct Hmax as [[Hin Hs]%filter_elem Hmax]. split_and!; [done..|].
  exists suffix. split_and!; [done..|]. intros route Hr Hrs. apply Hmax. by apply filter_elem.
Qed.

(** [C28] Private names stay on the device: a query leaves only for a dotted name
    outside the tailnet's domain and every .blaktail name, that no published record
    or more specific zone holds, and it goes to the resolvers of the most specific
    split suffix an organisation that manages DNS published for it. *)
Theorem private_names_stay_local (st : NodeState) (dom : str) (query : bytes) (rs : list Resolver)
    (Hout : dns_action query (records_from_state st dom) = Ok (Forward rs)) :
  ∃ name end_ snapshot route, let records := records_from_state st dom in
    (let? (n, end_) := parse_name query DNS_HEADER_LEN in Ok (to_ascii_lowercase n, end_)) = Ok (name, end_) ∧
    46 ∈ name ∧ in_suffix name dom = false ∧ ends_with (lit ".blaktail") name = false ∧ addresses records !! name = None ∧
    org_dns st = Some snapshot ∧ managed snapshot = true ∧ route ∈ org_split snapshot ∧
    let suffix := normalise (sp_suffix route) in
    valid_published_suffix suffix = true ∧ in_suffix name suffix = true ∧ rs = omap parse_resolver (sp_resolvers route) ∧
    (∀ z, z ∈ zones records → in_suffix name (z_name z) = true → (length (z_name z) < length suffix)%nat) ∧
    (∀ r, r ∈ split_routes records → in_suffix name r.1 = true → (length r.1 ≤ length suffix)%nat).
Proof.
  set (records := records_from_state st dom) in *. unfold dns_action in Hout. destruct (_ <? DNS_HEADER_LEN)%nat; [done|].
  destruct (idx16 query 2) as [flags|]; [|done]. destruct (idx16 query 4) as [questions|]; [|done]. cbn [result_bind] in Hout.
  assert (∀ r, reply r ≠ Ok (Forward rs)) as Hreply by by intros [b|x].
  destruct (_ || _); [by apply Hreply in Hout|]. destruct (parse_name query DNS_HEADER_LEN) as [[name0 ne]|]; [|done].
  cbn [result_bind] in Hout. destruct (_ <? ne + 4)%nat; [by apply Hreply in Hout|]. set (name := to_ascii_lowercase name0) in *.
  destruct (negb _ && _ && _) eqn:Hc; [|by apply Hreply in Hout].
  destruct (split_resolvers name records) as [rs'|] eqn:Hs; [|by apply Hreply in Hout]. injection Hout as ->. to_prop.
  destruct (split_resolvers_some name records rs Hs) as (_ & Hbt & suffix & Hin & Hsuf & Hmax).
  assert (domain records = dom) as Hd.
  { unfold records, records_from_state. destruct (org_dns st) as [s|]; [|done]. by destruct (managed s). }
  assert (∃ snapshot route, org_dns st = Some snapshot ∧ managed snapshot = true ∧ route ∈ org_split snapshot ∧ split_route route = Some (suffix, rs))
    as (snapshot & route & Hsn & Hm & Hr & Hroute).
  { unfold records, records_from_state in Hin. destruct (org_dns st) as [s|]; [|by apply not_elem_of_nil in Hin].
    destruct (managed s) eqn:Hm; [|by apply not_elem_of_nil in Hin]. cbn [split_routes] in Hin.
    apply list_elem_of_omap in Hin as (route & Hr & Hroute). by exists s, route. }
  unfold split_route in Hroute. destruct (valid_published_suffix (normalise (sp_suffix route))) eqn:Hv; [|done]. cbn [negb] in Hroute.
  destruct (_ =? 0)%nat; [done|]. injection Hroute as Hsfx Hres. rewrite <- Hsfx in *.
  assert (magic_name name dom = false ∧ zone_for name records = None ∧ addresses records !! name = None) as (Hmagic & Hzone & Hadd).
  { rewrite -Hd. done. }
  unfold magic_name in Hmagic. to_prop. exists name, ne, snapshot, route. cbv zeta. cbn [result_bind]. split_and!; try done.
  - by apply contains_char_true.
  - unfold in_suffix. to_prop. by rw bool_decide_false.
  - intros z Hz Hsz. destruct (zone_for_none name records Hzone z Hz Hsz) as (r & Hr' & Hrs & Hlt). pose proof (Hmax r Hr' Hrs). lia.
Qed.

(** ** A device *)

Definition demo_peer : Peer :=
  mkPeer (lit "p") (lit "laptop") (lit "k") None [lit "100.64.0.9/32"] (lit "laptop.team.blaktail") [] None None None.
Definition demo_snapshot : OrgDnsSnapshot :=
  mkOrgDnsSnapshot 1 true [] [] [mkOrgDnsSplit (lit "corp.example") [lit "10.0.0.53"]] [] [].
Definition demo_node : NodeState :=
  mkNodeState (lit "100.64.0.2/32") [] (lit "desk.team.blaktail") [] [demo_peer] [] (Some demo_snapshot) None.

(** The low bytes of the flags and of the number of answers. *)
Definition outcome_of (r : attempt DnsAction) : Z * Z :=
  match r with Ok (Reply (_ :: _ :: _ :: code :: _ :: _ :: _ :: count :: _)) => (code, count) | _ => (0, 0) end.

(** The laptop has an IPv4 address and no IPv6 address; there is no phone. *)
Lemma device_name_resolves_witness :
  (∃ a, stands_for demo_node (lit "team.blaktail") (lit "laptop.team.blaktail") a ∧ address_type a = 1) ∧
  (∀ a, stands_for demo_node (lit "team.blaktail") (lit "laptop.team.blaktail") a → address_type a ≠ 28) ∧
  (∀ a, ¬ stands_for demo_node (lit "team.blaktail") (lit "phone.team.blaktail") a).
Proof.
  assert (∀ name ty out, outcome_of (dns_action (question 7 7 1 0 name ty) (records_from_state demo_node (lit "team.blaktail"))) = out →
    ∀ code count body, dns_action (question 7 7 1 0 name ty) (records_from_state demo_node (lit "team.blaktail")) =
      Ok (Reply ([7; 7] ++ be_bytes 2 (Z.lor (Z.lor 0x8400 (Z.land (from_be [1; 0]) 0x0100)) code) ++ be_bytes 2 1
                 ++ be_bytes 2 count ++ replicate 4 0 ++ encode_name name ++ [0; ty; 0; 1] ++ body)) →
    (Z.lor (Z.lor 0x8400 (Z.land (from_be [1; 0]) 0x0100)) code `mod` 256, count `mod` 256) = out) as Hout.
  { intros name ty out <- code count body ->. reflexivity. }
  pose proof (λ name ty Hn Hu, device_name_resolves demo_node (lit "team.blaktail") name 7 7 1 0 ty
    ltac:(vm_compute; reflexivity) Hn Hu ltac:(split; vm_compute; reflexivity)) as H. split_and!.
  - destruct (H (lit "laptop.team.blaktail") 1 ltac:(vm_compute; split_and!; [reflexivity|lia|reflexivity]) ltac:(vm_compute; reflexivity) ltac:(by left))
      as (code & count & body & Hq%(Hout _ _ (0, 1)) & [(_ & _ & a & Hs & Ha & _)|(-> & _)]); [by exists a|discriminate|vm_compute; reflexivity].
  - destruct (H (lit "laptop.team.blaktail") 28 ltac:(vm_compute; split_and!; [reflexivity|lia|reflexivity]) ltac:(vm_compute; reflexivity) ltac:(by right))
      as (code & count & body & Hq%(Hout _ _ (0, 0)) & [(-> & _)|(_ & _ & Hno & _)]); [discriminate|exact Hno|vm_compute; reflexivity].
  - destruct (H (lit "phone.team.blaktail") 1 ltac:(vm_compute; split_and!; [reflexivity|lia|reflexivity]) ltac:(vm_compute; reflexivity) ltac:(by left))
      as (code & count & body & Hq%(Hout _ _ (3, 0)) & [(-> & _)|(_ & _ & _ & [[-> _]|[_ Hno]])]); [discriminate..|exact Hno|vm_compute; reflexivity].
Defined.

Lemma private_names_stay_local_witness : org_dns demo_node = Some demo_snapshot ∧ managed demo_snapshot = true.
Proof.
  destruct (private_names_stay_local demo_node (lit "team.blaktail") (question 7 7 1 0 (lit "git.corp.example") 1)
    [mkResolver (V4 (from_be [10; 0; 0; 53])) 53 0] ltac:(vm_compute; reflexivity))
    as (name & end_ & snapshot & route & _ & _ & _ & _ & _ & Hs & Hm & _).
  injection Hs as <-. split; [reflexivity|exact Hm].
Defined.
