(* ===== verification/Resources.v ===== *)
(** * Network resources

    [blaktail-coord/src/resources.rs]: validation of a resource, the overlap
    checks, the table with its create, update and delete transactions, the choice
    of the routing peer, what the console shows of a resource, and the
    distribution the peer maps are built from.

    The tables are those of one organisation: a list of resources, a list of
    devices, and the connector tables of [AppConnectors].  Text comparison in
    [ORDER BY] is by bytes.  Messages are constructors; JSON columns are their
    values. *)

From S2P Require Import Prelude Text Net FlowReport Policy Ipam AclFilter ForwardFilter CoordAcl CoordForward AppConnectors.

Module Resources.

Definition MAX_RESOURCES_PER_ORG : Z := 256.
Definition MAX_ROUTING_PEERS : nat := 8.
Definition MAX_SELECTORS : nat := 16.
Definition NODE_ONLINE_SECS : Z := 90.
Definition RFC1918 : list str := [lit "10.0.0.0/8"; lit "172.16.0.0/12"; lit "192.168.0.0/16"].
Definition IPV4_OVERLAY : str := lit "100.64.0.0/10".
Definition IPV4_SPECIAL : list str :=
  [lit "0.0.0.0/8"; lit "127.0.0.0/8"; lit "169.254.0.0/16"; lit "224.0.0.0/4"; lit "240.0.0.0/4"].
Definition IPV6_SPECIAL : list str :=
  [lit "::/128"; lit "::1/128"; lit "::ffff:0:0/96"; lit "fe80::/10"; lit "ff00::/8"].
Definition CAP_FORWARD_FILTER : str := lit "forward-filter".

Inductive ResourceKind := Cidr | Dns.
#[export] Instance ResourceKind_eq_dec : EqDecision ResourceKind.
Proof. solve_decision. Defined.

Record RoutingPeer := mkRoutingPeer { rp_node : Uuid; rp_metric : Z }.
#[export] Instance ResourceAccess_eq_dec : EqDecision ResourceAccess.
Proof. solve_decision. Defined.
#[export] Instance RoutingPeer_eq_dec : EqDecision RoutingPeer.
Proof. solve_decision. Defined.

(** Options of the request; [masquerade] is [Some false] when NAT is refused. *)
Record ResourceInput := mkResourceInput {
  in_name : str;
  in_description : str;
  in_cidr : option str;
  in_dns_target : option str;
  in_ports : list str;
  in_protocols : list ResourceProtocol;
  in_routing_peers : list RoutingPeer;
  in_access : ResourceAccess;
  in_enabled : bool;
  in_allow_nested : bool;
  in_confirm_public : bool;
  in_masquerade : option bool;
  in_etag : option str;
  in_dry_run : bool
}.

(** A row of [network_resources]. *)
Record NetworkResource := mkNetworkResource {
  nr_id : Uuid;
  nr_name : str;
  nr_description : str;
  nr_kind : ResourceKind;
  nr_cidr : option str;
  nr_dns_target : option str;
  nr_ports : list str;
  nr_protocols : list ResourceProtocol;
  nr_routing_peers : list RoutingPeer;
  nr_access : ResourceAccess;
  nr_enabled : bool;
  nr_allow_nested : bool;
  nr_confirmed_by : option str;
  nr_revision : Z;
  nr_created_at : Z;
  nr_updated_at : Z
}.

(** A row of [nodes]; [OrgNode] of the source is the part of it [load_org_nodes] reads. *)
Record OrgNode := mkOrgNode {
  on_id : Uuid;
  on_name : str;
  on_token_hash : str;
  on_suspended : bool;
  on_revoked : bool;
  on_deleted : bool;
  on_display_name : option str;
  on_advertised : list str;
  on_approved : list str;
  on_last_seen : option Z;
  on_expires : Z;
  on_subject : Subject;
  on_capabilities : list str
}.

Definition app_connector (n : OrgNode) : bool := existsb (λ c, bool_decide (c = CAP_APP_CONNECTOR)) (on_capabilities n).
Definition enforces (capabilities : list str) : bool := existsb (λ c, bool_decide (c = CAP_FORWARD_FILTER)) capabilities.

Definition online (n : OrgNode) (at_ : Z) : bool :=
  match on_last_seen n with Some seen => at_ - seen <=? NODE_ONLINE_SECS | None => false end.

Definition label (n : OrgNode) : str :=
  match on_display_name n with
  | Some name => if (length (trim name) =? 0)%nat then on_name n else name
  | None => on_name n
  end.

(** ** Validation *)

Inductive ResourceError :=
| NotCidrNotation (value : str) | NotAnAddress (value : str) | InvalidPrefix (value : str) | InvalidCidrValue (value : str)
| NotNetworkAddress (value : str) (network : IpAddr) (prefix : Z)
| ReservedRange (cidr range : str) | OverlayPool (cidr overlay : str)
| BadDnsTarget (value : str) | ReservedDnsTarget (target : str)
| BadName | BadDescription | NoMasquerade | OneTarget | TooManyPorts | BadPort (spec : str) | IcmpWithPorts
| NoSelectors | TooManySelectors | UnknownGroup (group : str) | TooManyPeers | BadMetric | PeerTwice (node : Uuid)
| PeerNotActive (node : Uuid) | ConfirmPublic (cidr : str) | ForbiddenRole
| Overlaps (cidr : str) (conflicts : list (str * str))
| RouteOverlap (route name cidr : str) | EtagRequired | PreconditionFailed | ResourceNotFound | TooManyResources | NameTaken
| DraftUnknown (id : Uuid) | DraftTwice (id : Uuid) | DraftPanic.

Record CanonicalCidr := mkCanonicalCidr { cc_cidr : str; cc_public : bool }.

Section resources.
Context (sha256 : bytes → bytes).

Definition org_overlay_ipv6 (org_id : str) : str :=
  let host_zero := org_ula_address sha256 org_id 0 in
  match split_once 47 host_zero with Some (a, _) => a | None => host_zero end ++ lit "/64".

Definition canonical_cidr (value org_id : str) : result ResourceError CanonicalCidr :=
  let value := trim value in
  let? (address, prefix) := ok_or (split_once 47 value) (NotCidrNotation value) in
  let? address := ok_or (parse_ip address) (NotAnAddress value) in
  let? prefix := ok_or (p ← parse_u8 prefix; if p <=? (if is_ipv4 address then 32 else 128) then Some p else None)
                   (InvalidPrefix value) in
  let? (network, _) := map_err (λ _, InvalidCidrValue value) (parse_cidr (show_ip address ++ lit "/" ++ dec prefix)) in
  if negb (bool_decide (network = address)) then Err (NotNetworkAddress value network prefix)
  else
    let cidr := show_ip network ++ lit "/" ++ dec prefix in
    let ipv6 := is_ipv6 network in
    if is_default_route cidr then Ok (mkCanonicalCidr cidr true)
    else match List.find (λ range, cidrs_overlap cidr range) (if ipv6 then IPV6_SPECIAL else IPV4_SPECIAL) with
    | Some range => Err (ReservedRange cidr range)
    | None =>
        let overlay := if ipv6 then org_overlay_ipv6 org_id else IPV4_OVERLAY in
        if cidrs_overlap cidr overlay then Err (OverlayPool cidr overlay)
        else Ok (mkCanonicalCidr cidr (if ipv6 then negb (cidr_within cidr (lit "fc00::/7"))
                                       else negb (existsb (λ private, cidr_within cidr private) RFC1918)))
    end.

Definition bad_dns_label (l : str) : bool :=
  (length l =? 0)%nat || (63 <? length l)%nat || starts_with (lit "-") l || ends_with (lit "-") l
  || negb (forallb (λ c, is_ascii_lowercase c || is_ascii_digit c || (c =? 45)) l).

Definition canonical_dns_target (value : str) : result ResourceError str :=
  let target := to_ascii_lowercase (trim_end_matches 46 (trim value)) in
  let labels := Text.split 46 target in
  let? _ := reject_if ((length target =? 0)%nat || (253 <? length target)%nat || bool_decide (is_Some (parse_ip target)))
              (BadDnsTarget value) in
  let? _ := reject_if ((length labels <? 2)%nat || existsb bad_dns_label labels
                       || match last labels with Some tld => forallb is_ascii_digit tld | None => false end)
              (BadDnsTarget value) in
  let? _ := reject_if (ends_with (lit ".blaktail") target || seq_b target "localhost" || ends_with (lit ".localhost") target)
              (ReservedDnsTarget target) in
  Ok target.

Definition normalise_name (name : str) : result ResourceError str :=
  let name := trim name in
  if (length name =? 0)%nat || (64 <? length (chars name))%nat || existsb is_control (chars name) then Err BadName
  else Ok name.

(** [x] need not come after [y]: the order of texts, and of the key [(metric, node_id)]. *)
Definition text_le (x y : str) : bool := negb (BTree.str_ltb y x).

Definition peer_le (a b : RoutingPeer) : bool :=
  (rp_metric a <? rp_metric b) || ((rp_metric a =? rp_metric b) && text_le (rp_node a) (rp_node b)).

(** [sort] and [dedup] on an enumeration, given its members in order. *)
Definition sorted_members {A} `{EqDecision A} (all l : list A) : list A := List.filter (λ x, bool_decide (x ∈ l)) all.

Definition sorted_access (a : ResourceAccess) : ResourceAccess :=
  mkResourceAccess (sorted_members [Admin; Auditor; Member; NetworkAdmin; Owner] (ra_roles a))
    (sorted_members [Office; Ranger; Store] (ra_tags a)) (BTree.extend [] (map trim (ra_groups a))).

(** ** Preparing a write *)

Record Session := mkSession { ss_user : str; ss_role : Role }.

Record Prepared := mkPrepared {
  pr_name : str;
  pr_description : str;
  pr_kind : ResourceKind;
  pr_cidr : option CanonicalCidr;
  pr_dns_target : option str;
  pr_ports : list str;
  pr_protocols : list ResourceProtocol;
  pr_routing_peers : list RoutingPeer;
  pr_access : ResourceAccess;
  pr_enabled : bool;
  pr_allow_nested : bool;
  pr_confirmed_by : option str
}.

Definition prepare_target (input : ResourceInput) (org_id : str) :
    result ResourceError (ResourceKind * option CanonicalCidr * option str) :=
  match in_cidr input, in_dns_target input with
  | Some cidr, None => let? c := canonical_cidr cidr org_id in Ok (Cidr, Some c, None)
  | None, Some target => let? t := canonical_dns_target target in Ok (Dns, None, Some t)
  | _, _ => Err OneTarget
  end.

Definition prepare_port (spec : str) : result ResourceError str :=
  let? (first, last) := map_err (λ _, BadPort spec) (parse_acl_port_spec spec) in
  Ok (if first =? last then dec first else dec first ++ lit "-" ++ dec last).

(** The loop over the sorted routing peers; [seen] are those in front. *)
Fixpoint check_peers (nodes : list OrgNode) (existing : option NetworkResource) (seen : list Uuid) (ps : list RoutingPeer) :
    result ResourceError unit :=
  match ps with
  | [] => Ok tt
  | p :: rest =>
      let? _ := reject_if (negb ((1 <=? rp_metric p) && (rp_metric p <=? 9999))) BadMetric in
      let? _ := reject_if (bool_decide (rp_node p ∈ seen)) (PeerTwice (rp_node p)) in
      let already := match existing with
                     | Some r => existsb (λ o, bool_decide (rp_node o = rp_node p)) (nr_routing_peers r)
                     | None => false
                     end in
      let? _ := reject_if (negb already && negb (existsb (λ n, bool_decide (on_id n = rp_node p)) nodes))
                  (PeerNotActive (rp_node p)) in
      check_peers nodes existing (seen ++ [rp_node p]) rest
  end.

(** Who confirmed a public route. *)
Definition confirm_public (input : ResourceInput) (session : Session) (existing : option NetworkResource) (cidr : CanonicalCidr) :
    result ResourceError str :=
  let unchanged := r ← existing; if bool_decide (nr_cidr r = Some (cc_cidr cidr)) then nr_confirmed_by r else None in
  match unchanged with
  | Some confirmed => Ok confirmed
  | None =>
      if negb (in_confirm_public input) then Err (ConfirmPublic (cc_cidr cidr))
      else if negb (bool_decide (ss_role session = Owner)) then Err ForbiddenRole
      else Ok (ss_user session)
  end.

Definition prepare (input : ResourceInput) (org_id : str) (session : Session) (acl : Acl) (nodes : list OrgNode)
    (existing : option NetworkResource) : result ResourceError Prepared :=
  let? name := normalise_name (in_name input) in
  let description := trim (in_description input) in
  let? _ := reject_if ((256 <? length (chars description))%nat || existsb is_control (chars description)) BadDescription in
  let? _ := reject_if (bool_decide (in_masquerade input = Some false)) NoMasquerade in
  let? (kind_cidr, dns_target) := prepare_target input org_id in
  let '(kind, cidr) := kind_cidr in
  let? _ := reject_if (MAX_SELECTORS <? length (in_ports input))%nat TooManyPorts in
  let? ports := try_collect prepare_port (in_ports input) in
  let ports := BTree.extend [] ports in
  let protocols := sorted_members [RTcp; RUdp; RIcmp] (in_protocols input) in
  let? _ := reject_if (bool_decide (RIcmp ∈ protocols) && negb (length ports =? 0)%nat) IcmpWithPorts in
  let access := sorted_access (in_access input) in
  let? _ := reject_if ((length (ra_roles access) =? 0)%nat && (length (ra_tags access) =? 0)%nat
                       && (length (ra_groups access) =? 0)%nat) NoSelectors in
  let? _ := reject_if ((MAX_SELECTORS <? length (ra_tags access))%nat || (MAX_SELECTORS <? length (ra_groups access))%nat)
              TooManySelectors in
  let? _ := match List.find (λ g, negb (BTree.contains_key g (groups acl))) (ra_groups access) with
            | Some g => Err (UnknownGroup g)
            | None => Ok tt
            end in
  let? _ := reject_if (MAX_ROUTING_PEERS <? length (in_routing_peers input))%nat TooManyPeers in
  let peers := sort_by peer_le (in_routing_peers input) in
  let? _ := check_peers nodes existing [] peers in
  let? confirmed_by := match cidr with
                       | Some c => if cc_public c then let? u := confirm_public input session existing c in Ok (Some u) else Ok None
                       | None => Ok None
                       end in
  Ok (mkPrepared name description kind cidr dns_target ports protocols peers access (in_enabled input)
        (in_allow_nested input) confirmed_by).

(** ** The table *)

Definition resource_le (a b : NetworkResource) : bool :=
  let la := to_ascii_lowercase (nr_name a) in
  let lb := to_ascii_lowercase (nr_name b) in
  BTree.str_ltb la lb || (bool_decide (la = lb) && text_le (nr_id a) (nr_id b)).

Record Org := mkOrg {
  org_id : str;
  org_acl : Acl;
  org_nodes : list OrgNode;
  org_resources : list NetworkResource;
  org_leases : list LeaseRow;
  org_reports : list ReportRow;
  org_revision : Z
}.

Definition set_resources (o : Org) (rs : list NetworkResource) : Org :=
  mkOrg (org_id o) (org_acl o) (org_nodes o) rs (org_leases o) (org_reports o) (org_revision o).

Definition set_nodes (o : Org) (ns : list OrgNode) : Org :=
  mkOrg (org_id o) (org_acl o) ns (org_resources o) (org_leases o) (org_reports o) (org_revision o).

(** [bump_control_revision] on the organisation's row. *)
Definition bump (o : Org) : Org :=
  mkOrg (org_id o) (org_acl o) (org_nodes o) (org_resources o) (org_leases o) (org_reports o) (org_revision o + 1).

Definition active (n : OrgNode) : bool := negb (on_revoked n) && negb (on_deleted n).

(** The rows of [org_nodes] are in the order of their names. *)
Definition load_org_nodes (o : Org) : list OrgNode := List.filter active (org_nodes o).

Definition load_resources (o : Org) : list NetworkResource := sort_by resource_le (org_resources o).
Definition load_resource (o : Org) (id : Uuid) : option NetworkResource :=
  List.find (λ r, bool_decide (nr_id r = id)) (org_resources o).

Definition overlap_conflicts (o : Org) (cidr : str) (allow_nested : bool) (exclude : option Uuid) : list (str * str) :=
  omap (λ other, if bool_decide (Some (nr_id other) = exclude) then None
                 else match nr_cidr other with
                 | None => None
                 | Some other_cidr =>
                     if is_default_route other_cidr || negb (cidrs_overlap cidr other_cidr) then None
                     else if bool_decide (other_cidr = cidr) || negb allow_nested then Some (nr_name other, other_cidr) else None
                 end) (load_resources o)
  ++ flat_map (λ n, map (λ route, (label n, route))
                      (List.filter (λ route, negb (is_default_route route) && cidrs_overlap cidr route) (on_approved n)))
       (load_org_nodes o).

Definition check_overlaps (o : Org) (p : Prepared) (exclude : option Uuid) : result ResourceError unit :=
  match pr_cidr p with
  | None => Ok tt
  | Some c =>
      if is_default_route (cc_cidr c) then Ok tt
      else match overlap_conflicts o (cc_cidr c) (pr_allow_nested p) exclude with
           | [] => Ok tt
           | conflicts => Err (Overlaps (cc_cidr c) conflicts)
           end
  end.

Definition ensure_routes_free (o : Org) (approved : list str) : result ResourceError unit :=
  try_each (λ route,
    match List.find (λ r, match nr_cidr r with
                          | Some cidr => negb (is_default_route cidr) && cidrs_overlap route cidr
                          | None => false
                          end) (load_resources o) with
    | Some r => Err (RouteOverlap route (nr_name r) (default [] (nr_cidr r)))
    | None => Ok tt
    end) (List.filter (λ route, negb (is_default_route route)) approved).

Definition stored (id : Uuid) (p : Prepared) (revision created_at at_ : Z) : NetworkResource :=
  mkNetworkResource id (pr_name p) (pr_description p) (pr_kind p) (cc_cidr <$> pr_cidr p) (pr_dns_target p) (pr_ports p)
    (pr_protocols p) (pr_routing_peers p) (pr_access p) (pr_enabled p) (pr_allow_nested p) (pr_confirmed_by p) revision
    created_at at_.

(** The unique key of the table on the names; the primary key is on the ids. *)
Definition name_taken (o : Org) (id : Uuid) (name : str) : bool :=
  existsb (λ r, bool_decide (nr_name r = name) && negb (bool_decide (nr_id r = id))) (org_resources o).

(** [crate::hash]: the hexadecimal SHA-256 of a text. *)
Definition hash (value : str) : str := flat_map hex02 (sha256 value).

Definition etag (id : Uuid) (revision : Z) : str :=
  take 32 (hash (lit "network-resource:" ++ id ++ lit ":" ++ dec revision)).

(** [create_in_tx] with the id [Uuid::new_v4] gives. *)
Definition create_in_tx (o : Org) (session : Session) (input : ResourceInput) (id : Uuid) (at_ : Z) : result ResourceError Org :=
  let? p := prepare input (org_id o) session (org_acl o) (load_org_nodes o) None in
  let? _ := check_overlaps o p None in
  let? _ := reject_if (MAX_RESOURCES_PER_ORG <=? Z.of_nat (length (org_resources o))) TooManyResources in
  let? _ := reject_if (bool_decide (is_Some (load_resource o id)) || name_taken o id (pr_name p)) NameTaken in
  Ok (set_resources o (org_resources o ++ [stored id p 1 at_ at_])).

Definition update_in_tx (o : Org) (id : Uuid) (session : Session) (input : ResourceInput) (at_ : Z) : result ResourceError Org :=
  let? expected := ok_or (in_etag input) EtagRequired in
  let? current := ok_or (load_resource o id) ResourceNotFound in
  let? _ := reject_if (negb (bool_decide (etag id (nr_revision current) = expected))) PreconditionFailed in
  let? p := prepare input (org_id o) session (org_acl o) (load_org_nodes o) (Some current) in
  let? _ := check_overlaps o p (Some id) in
  let? _ := reject_if (name_taken o id (pr_name p)) NameTaken in
  Ok (set_resources o (map (λ r, if bool_decide (nr_id r = id) && (nr_revision r =? nr_revision current)
                                 then stored id p (nr_revision r + 1) (nr_created_at r) at_ else r) (org_resources o))).

Definition delete_in_tx (o : Org) (id : Uuid) (if_match : option str) : result ResourceError Org :=
  let? current := ok_or (load_resource o id) ResourceNotFound in
  let? _ := reject_if (match if_match with Some e => negb (bool_decide (e = etag id (nr_revision current))) | None => false end)
              PreconditionFailed in
  Ok (set_resources o (List.filter (λ r, negb (bool_decide (nr_id r = id))) (org_resources o))).

(** The tables after the request: a dry run is rolled back. *)
Definition create (o : Org) (session : Session) (input : ResourceInput) (id : Uuid) (at_ : Z) : result ResourceError Org :=
  let? o' := create_in_tx (bump o) session input id at_ in
  Ok (if in_dry_run input then o else o').

Definition update (o : Org) (id : Uuid) (session : Session) (input : ResourceInput) (at_ : Z) : result ResourceError Org :=
  let? o' := update_in_tx (bump o) id session input at_ in
  Ok (if in_dry_run input then o else o').

(** The create or update body of a live resource. *)
Definition draft_item (r : NetworkResource) : ResourceInput :=
  mkResourceInput (nr_name r) (nr_description r) (nr_cidr r) (if nr_cidr r then None else nr_dns_target r) (nr_ports r)
    (nr_protocols r) (nr_routing_peers r) (nr_access r) (nr_enabled r) (nr_allow_nested r) false None None false.

Definition comparable (i : ResourceInput) :
    str * str * option str * option str * list str * list ResourceProtocol * list RoutingPeer * ResourceAccess * bool * bool :=
  (trim (in_name i), trim (in_description i), in_cidr i, in_dns_target i, in_ports i, in_protocols i, in_routing_peers i,
   in_access i, in_enabled i, in_allow_nested i).

Definition with_etag (i : ResourceInput) (tag : str) : ResourceInput :=
  mkResourceInput (in_name i) (in_description i) (in_cidr i) (in_dns_target i) (in_ports i) (in_protocols i)
    (in_routing_peers i) (in_access i) (in_enabled i) (in_allow_nested i) (in_confirm_public i) (in_masquerade i) (Some tag)
    (in_dry_run i).

(** The loop that reads the draft: each id once, and live. *)
Fixpoint check_wanted (live : list NetworkResource) (before : list Uuid) (wanted : list (option Uuid * ResourceInput)) :
    result ResourceError unit :=
  match wanted with
  | [] => Ok tt
  | (None, _) :: rest => check_wanted live before rest
  | (Some id, _) :: rest =>
      let? _ := reject_if (negb (existsb (λ r, bool_decide (nr_id r = id)) live)) (DraftUnknown id) in
      let? _ := reject_if (bool_decide (id ∈ before)) (DraftTwice id) in
      check_wanted live (id :: before) rest
  end.

Definition wanted_ids (wanted : list (option Uuid * ResourceInput)) : list Uuid := omap fst wanted.

(** Deletions first so a replacement can reuse a name or prefix. *)
Fixpoint draft_deletes (keep : list Uuid) (live : list NetworkResource) (o : Org) : result ResourceError Org :=
  match live with
  | [] => Ok o
  | r :: rest =>
      if bool_decide (nr_id r ∈ keep) then draft_deletes keep rest o
      else let? o' := delete_in_tx o (nr_id r) (Some (etag (nr_id r) (nr_revision r))) in draft_deletes keep rest o'
  end.

Fixpoint draft_updates (live : list NetworkResource) (session : Session) (at_ : Z) (wanted : list (option Uuid * ResourceInput))
    (o : Org) : result ResourceError Org :=
  match wanted with
  | [] => Ok o
  | (None, _) :: rest => draft_updates live session at_ rest o
  | (Some id, input) :: rest =>
      let? current := ok_or (List.find (λ r, bool_decide (nr_id r = id)) live) DraftPanic in
      if bool_decide (comparable (draft_item current) = comparable input) then draft_updates live session at_ rest o
      else let? o' := update_in_tx o id session (with_etag input (etag id (nr_revision current))) at_ in
           draft_updates live session at_ rest o'
  end.

Fixpoint draft_creates (ids : nat → Uuid) (session : Session) (at_ : Z) (wanted : list (option Uuid * ResourceInput)) (o : Org) :
    result ResourceError Org :=
  match wanted with
  | [] => Ok o
  | (Some _, _) :: rest => draft_creates ids session at_ rest o
  | (None, input) :: rest =>
      let? o' := create_in_tx o session input (ids 0%nat) at_ in draft_creates (λ n, ids (S n)) session at_ rest o'
  end.

(** [apply_draft_tx] from the decoded items on; [ids] are the ids [Uuid::new_v4] gives. *)
Definition apply_draft_tx (o : Org) (session : Session) (wanted : list (option Uuid * ResourceInput)) (ids : nat → Uuid)
    (at_ : Z) : result ResourceError Org :=
  let live := load_resources o in
  let? _ := check_wanted live [] wanted in
  let? o := draft_deletes (wanted_ids wanted) live o in
  let? o := draft_updates live session at_ wanted o in
  draft_creates ids session at_ wanted o.

Definition set_etag (resources : list NetworkResource) : str :=
  let parts := sort_by text_le (map (λ r, nr_id r ++ lit ":" ++ dec (nr_revision r)) resources) in
  take 32 (hash (lit "network-resources:" ++ join (lit ",") parts)).

(** [trim_start_matches] with a text. *)
Definition trim_start_of (prefix s : str) : str := strip_many [prefix] (length s) s.

(** [headers] holds the [if-match] header, where it is text. *)
Definition delete (o : Org) (id : Uuid) (if_match_header : option str) : result ResourceError Org :=
  let if_match := (λ v, trim_end_matches 34 (trim_start_of [34] (trim_start_of (lit "W/") (trim v)))) <$> if_match_header in
  delete_in_tx (bump o) id if_match.
End resources.

(** ** Evaluation *)

Inductive PeerState := Primary | Standby | Offline | NotAdvertising | NotConnector | Expired | Missing.

Record RoutingPeerHealth := mkHealth {
  hl_node : Uuid;
  hl_name : option str;
  hl_metric : Z;
  hl_state : PeerState;
  hl_online : bool;
  hl_last_seen : option Z;
  hl_covering : option str;
  hl_enforced : bool
}.

Definition node_by (nodes : list OrgNode) (id : Uuid) : option OrgNode := List.find (λ n, bool_decide (on_id n = id)) nodes.

Definition covering_route (node : option OrgNode) (cidr : option str) : option str :=
  match node, cidr with
  | Some node, Some cidr =>
      List.find (λ route, if is_default_route cidr then bool_decide (route = cidr) else cidr_within cidr route)
        (on_advertised node)
  | _, _ => None
  end.

(** The state of one routing peer, before the primary is marked. *)
Definition peer_state (r : NetworkResource) (nodes : list OrgNode) (at_ : Z) (id : Uuid) : PeerState :=
  match node_by nodes id with
  | None => Missing
  | Some node =>
      if on_expires node <=? at_ then Expired
      else if bool_decide (nr_kind r = Cidr) && bool_decide (covering_route (Some node) (nr_cidr r) = None) then NotAdvertising
      else if bool_decide (nr_kind r = Dns) && negb (app_connector node) then NotConnector
      else if online node at_ then Standby else Offline
  end.

Definition is_candidate (s : PeerState) : bool := match s with Standby | Offline => true | _ => false end.

Definition peer_health (r : NetworkResource) (nodes : list OrgNode) (at_ : Z) (p : RoutingPeer) : RoutingPeerHealth :=
  let node := node_by nodes (rp_node p) in
  mkHealth (rp_node p) (label <$> node) (rp_metric p) (peer_state r nodes at_ (rp_node p))
    (match node with Some n => online n at_ | None => false end) (n ← node; on_last_seen n)
    (covering_route node (nr_cidr r)) (match node with Some n => enforces (on_capabilities n) | None => false end).

Fixpoint mark_primary (selected : option Uuid) (l : list RoutingPeerHealth) : list RoutingPeerHealth :=
  match l with
  | [] => []
  | h :: rest =>
      if bool_decide (Some (hl_node h) = selected)
      then mkHealth (hl_node h) (hl_name h) (hl_metric h) Primary (hl_online h) (hl_last_seen h) (hl_covering h)
             (hl_enforced h) :: rest
      else h :: mark_primary selected rest
  end.

Definition evaluate_peers (r : NetworkResource) (nodes : list OrgNode) (at_ : Z) : option Uuid * list RoutingPeerHealth :=
  let health := map (peer_health r nodes at_) (sort_by peer_le (nr_routing_peers r)) in
  let candidates := map (λ h, (hl_node h, hl_online h)) (List.filter (λ h, is_candidate (hl_state h)) health) in
  let selected := fst <$> match List.find snd candidates with Some c => Some c | None => head candidates end in
  (selected, mark_primary selected health).

(** Unexpired leases by route, and the reports by node. *)
Record OrgLeases := mkOrgLeases { ol_leases : list LeaseRow; ol_reports : list ReportRow }.

Definition no_leases : OrgLeases := mkOrgLeases [] [].

Definition load_leases (o : Org) (at_ : Z) : OrgLeases :=
  mkOrgLeases
    (sort_by (λ a b, text_le (l_route a) (l_route b))
       (List.filter (λ l, bool_decide (l_org l = org_id o) && (at_ <? l_expires_at l)) (org_leases o)))
    (sort_by (λ a b, text_le (p_node a) (p_node b)) (List.filter (λ p, bool_decide (p_org p = org_id o)) (org_reports o))).

Definition leases_of (ol : OrgLeases) (resource node : Uuid) : list LeaseRow :=
  List.filter (of_connector resource node) (ol_leases ol).
Definition report_of (ol : OrgLeases) (resource node : Uuid) : option ReportRow :=
  List.find (λ p, bool_decide (p_node p = node)) (List.filter (λ p, bool_decide (p_resource p = resource)) (ol_reports ol)).

Inductive DnsResolution := Resolved | ResolutionIsBlocked | NotResolved.
Inductive ResourceState := Distributing | Stale | NoRoutingPeer | DnsNotResolved | DnsBlocked | Disabled.

(** Why a client does or does not receive a resource. *)
Inductive ClientReason :=
| IsRoutingPeer | ResourceOff | OutsideAccess | NotResolvedYet | BlockedBy (reason : Reason) | CredentialGone | PolicyBars
| OnlyAsExitNode (router : str) | Via (router : str) | NoConnector | NobodyCarries.

Record ClientDistribution := mkClientDistribution {
  cd_node : Uuid;
  cd_name : str;
  cd_receives : bool;
  cd_reason : ClientReason
}.

Record ResourceDetail := mkResourceDetail {
  rd_resource : NetworkResource;
  rd_dns_resolution : option DnsResolution;
  rd_state : ResourceState;
  rd_selected : option Uuid;
  rd_enforced : bool;
  rd_peers : list RoutingPeerHealth;
  rd_clients : list ClientDistribution;
  rd_answers : list LeaseRow;
  rd_blocked : option Reason
}.

Definition client_verdict (r : NetworkResource) (acl : Acl) (router : option OrgNode) (answers : list LeaseRow)
    (blocked : option Reason) (at_ : Z) (node : OrgNode) : bool * ClientReason :=
  let dns := bool_decide (nr_kind r = Dns) in
  let default_route := match nr_cidr r with Some c => is_default_route c | None => false end in
  if existsb (λ p, bool_decide (rp_node p = on_id node)) (nr_routing_peers r) then (false, IsRoutingPeer)
  else if negb (nr_enabled r) then (false, ResourceOff)
  else if negb (access_matches (nr_access r) (on_subject node) (groups acl)) then (false, OutsideAccess)
  else if dns && bool_decide (is_Some router) && (length answers =? 0)%nat
  then (false, match blocked with None => NotResolvedYet | Some reason => BlockedBy reason end)
  else match router with
  | Some router =>
      if on_expires node <=? at_ then (false, CredentialGone)
      else if negb (allows acl at_ (on_subject node) (on_subject router)) then (false, PolicyBars)
      else if default_route then (false, OnlyAsExitNode (label router))
      else (true, Via (label router))
  | None => (false, if dns then NoConnector else NobodyCarries)
  end.

Definition evaluate (r : NetworkResource) (nodes : list OrgNode) (acl : Acl) (ol : OrgLeases) (at_ : Z) : ResourceDetail :=
  let '(selected, peers) := evaluate_peers r nodes at_ in
  let dns := bool_decide (nr_kind r = Dns) in
  let answers := match selected with Some id => if dns then leases_of ol (nr_id r) id else [] | None => [] end in
  let blocked := id ← selected;
                 report ← report_of ol (nr_id r) id;
                 if dns && (length answers =? 0)%nat && seq_b (p_state report) "blocked" then Some (p_reason report) else None in
  let router := id ← selected; node_by nodes id in
  let state := if negb (nr_enabled r) then Disabled
               else match router with
                    | None => NoRoutingPeer
                    | Some node =>
                        if dns && bool_decide (is_Some blocked) then DnsBlocked
                        else if dns && (length answers =? 0)%nat then DnsNotResolved
                        else if online node at_ then Distributing else Stale
                    end in
  let clients := map (λ node, let '(receives, reason) := client_verdict r acl router answers blocked at_ node in
                              mkClientDistribution (on_id node) (label node) receives reason)
                   (List.filter (λ node, negb (bool_decide (Some (on_id node) = selected))) nodes) in
  mkResourceDetail r (if dns then Some (if negb (length answers =? 0)%nat then Resolved
                                       else if bool_decide (is_Some blocked) then ResolutionIsBlocked else NotResolved)
                        else None) state selected
    (match router with Some n => enforces (on_capabilities n) | None => false end) peers clients answers blocked.

(** ** Distribution *)

Definition active_routes (r : NetworkResource) (nodes : list OrgNode) (ol : OrgLeases) (at_ : Z) :
    list ActiveRoute * list ActiveRoute :=
  match (evaluate_peers r nodes at_).1 with
  | None => ([], [])
  | Some router =>
      let peers := map rp_node (nr_routing_peers r) in
      let service := resource_service (nr_ports r) (nr_protocols r) in
      match nr_kind r with
      | Cidr => (match nr_cidr r with Some cidr => [mkActiveRoute cidr router peers (nr_access r) service] | None => [] end, [])
      | Dns => ([], map (λ l, mkActiveRoute (l_route l) router peers (nr_access r) service) (leases_of ol (nr_id r) router))
      end
  end.

(** A host route stays with the first router that claimed it. *)
Fixpoint claim_routes (protected : list str) (claimed : gmap str Uuid) (host_routes : list ActiveRoute) : list ActiveRoute :=
  match host_routes with
  | [] => []
  | r :: rest =>
      if existsb (λ prefix, cidr_within (ar_cidr r) prefix) protected then claim_routes protected claimed rest
      else
        let owner := default (ar_router r) (claimed !! ar_cidr r) in
        let claimed := <[ar_cidr r := owner]> claimed in
        if bool_decide (owner = ar_router r) then r :: claim_routes protected claimed rest
        else claim_routes protected claimed rest
  end.

Definition load_distribution (o : Org) (loaded_at at_ : Z) : Distribution :=
  let resources := load_resources o in
  let reserved := omap (λ r, cidr ← nr_cidr r; Some (cidr, map rp_node (nr_routing_peers r))) resources in
  if negb (existsb nr_enabled resources) then mkDistribution [] reserved
  else
    let enabled := List.filter nr_enabled resources in
    let ol := if existsb (λ r, bool_decide (nr_kind r = Dns)) enabled then load_leases o loaded_at else no_leases in
    let found := map (λ r, active_routes r (load_org_nodes o) ol at_) enabled in
    let protected := List.filter (λ p, negb (is_default_route p)) (omap nr_cidr enabled ++ flat_map on_approved (load_org_nodes o)) in
    mkDistribution (flat_map fst found ++ claim_routes protected ∅ (flat_map snd found)) reserved.

Definition routes_via (dist : Distribution) (router source_id : Uuid) (source : Subject) (acl : Acl) (exit_selected : bool) :
    list str := map fst (grants_via dist router source_id source acl exit_selected).

(** ** Liveness *)

Definition LIVENESS_CHECK_SECS : Z := 2.

(** The rows of the query: active devices that advertise routes, by id. *)
Definition advertisers (o : Org) : list OrgNode :=
  sort_by (λ a b, text_le (on_id a) (on_id b))
    (List.filter (λ n, negb (length (on_advertised n) =? 0)%nat) (load_org_nodes o)).

Definition online_advertisers (o : Org) (at_ : Z) : list Uuid := map on_id (List.filter (λ n, online n at_) (advertisers o)).

(** [seen] is the process's static table: per organisation, when it was last checked
    and its online advertisers. *)
Definition bump_on_router_liveness_change (seen : gmap str (Z * list Uuid)) (o : Org) (at_ : Z) :
    gmap str (Z * list Uuid) * Org * bool :=
  if match seen !! org_id o with Some (checked, _) => at_ - checked <? LIVENESS_CHECK_SECS | None => false end
  then (seen, o, false)
  else
    let now_online := online_advertisers o at_ in
    let changed := match seen !! org_id o with
                   | Some (_, before) => negb (bool_decide (before = now_online))
                   | None => negb (length (advertisers o) =? 0)%nat
                   end in
    (<[org_id o := (at_, now_online)]> seen, if changed then bump o else o, changed).

End Resources.
