(* ===== verification/ResourcesProps.v ===== *)
(** * Properties of network resources

    The routing peer a resource gets, what a public route needs, which prefixes a
    resource may name, and the agreement of the console's view with the
    distribution the peer maps are built from. *)

From Stdlib Require Import Sorted.
From S2P Require Import Prelude Text Net FlowReport Policy Ipam AclFilter ForwardFilter CoordAcl CoordProps CoordForward CoordForwardProps AppConnectors Resources.

Module ResourcesProps.
Import Resources.

Lemma map_err_ok {E F A} (f : E → F) (r : result E A) a : map_err f r = Ok a → r = Ok a.
Proof. by destruct r; intros [= ->]. Qed.

Lemma ok_inj {E A} (a b : A) : @Ok E A a = Ok b → a = b.
Proof. by intros [=]. Qed.

(** Take a successful chain of [let?] apart. *)
Ltac inv_ok :=
  repeat match goal with
  | H : result_bind (reject_if _ _) _ = Ok _ |- _ => apply then_ok in H as [?%reject_if_ok H]
  | H : result_bind _ _ = Ok _ |- _ => apply bind_ok in H as (? & ? & H); cbn beta in H
  | H : (let '(_, _) := ?x in _) = Ok _ |- _ => destruct x
  | H : ok_or _ _ = Ok _ |- _ => apply ok_or_ok in H
  | H : reject_if _ _ = Ok _ |- _ => apply reject_if_unit in H
  | H : map_err _ _ = Ok _ |- _ => apply map_err_ok in H
  | H : Ok _ = Ok _ |- _ => apply ok_inj in H
  end.

Lemma load_resources_elem o r : r ∈ load_resources o ↔ r ∈ org_resources o.
Proof. unfold load_resources. by rw sort_by_perm. Qed.

(** ** Prefixes *)

Lemma cidrs_overlap_sym a b : cidrs_overlap a b = cidrs_overlap b a.
Proof.
  unfold cidrs_overlap, pools_overlap. destruct (parse_cidr a) as [[na pa]|], (parse_cidr b) as [[nb pb]|]; simpl; try done.
  rw orb_comm. by destruct na, nb.
Qed.

Lemma cidrs_overlap_refl a x : parse_cidr a = Ok x → cidrs_overlap a a = true.
Proof.
  intros H. unfold cidrs_overlap, pools_overlap. destruct x as [n p]. rw H /=.
  destruct n; simpl; by rw Z.eqb_refl.
Qed.

Lemma cidr_within_refl a x : parse_cidr a = Ok x → cidr_within a a = true.
Proof.
  intros H. unfold cidr_within. rw (cidrs_overlap_refl a x H) H. destruct x as [n p]. rw eqb_reflx Z.leb_refl //.
Qed.

(** ** Text order *)

Lemma str_ltb_irrefl a : BTree.str_ltb a a = false.
Proof. induction a as [|x a IH]; simpl; [done|]. rw IH andb_false_r orb_false_r. lia. Qed.

Lemma str_ltb_trans a b c : BTree.str_ltb a b = true → BTree.str_ltb b c = true → BTree.str_ltb a c = true.
Proof.
  revert b c; induction a as [|x a IH]; intros [|y b] [|z c]; simpl; try done.
  rw !orb_true_iff !andb_true_iff. intros [?|[? H1]] [?|[? H2]]; to_prop; [left; lia..|]. right. split; [lia|eauto].
Qed.

Lemma str_ltb_total a b : BTree.str_ltb a b = false → BTree.str_ltb b a = false → a = b.
Proof.
  revert b; induction a as [|x a IH]; intros [|y b]; simpl; try done.
  intros H1 H2. assert (x = y) as -> by lia. rw Z.eqb_refl Z.ltb_irrefl /= in H1, H2. f_equal. by apply IH.
Qed.

Lemma text_le_total a b : text_le a b = false → text_le b a = true.
Proof.
  unfold text_le. intros H%negb_false_iff. apply negb_true_iff. destruct (BTree.str_ltb a b) eqn:Hab; [|done].
  pose proof (str_ltb_trans _ _ _ H Hab) as Hx. by rw str_ltb_irrefl in Hx.
Qed.

Lemma text_le_trans a b c : text_le a b = true → text_le b c = true → text_le a c = true.
Proof.
  unfold text_le. rw !negb_true_iff. intros H1 H2. destruct (BTree.str_ltb c a) eqn:Hca; [|done].
  destruct (BTree.str_ltb c b) eqn:Hcb; [done|]. destruct (BTree.str_ltb b c) eqn:Hbc.
  - rw (str_ltb_trans b c a) // in H1.
  - rw (str_ltb_total c b) // in Hca. congruence.
Qed.

Lemma peer_le_total a b : peer_le a b = false → peer_le b a = true.
Proof.
  unfold peer_le. pose proof (text_le_total (rp_node a) (rp_node b)).
  destruct (text_le (rp_node a) (rp_node b)), (text_le (rp_node b) (rp_node a)); simpl; intuition lia.
Qed.

Lemma peer_le_trans a b c : peer_le a b = true → peer_le b c = true → peer_le a c = true.
Proof.
  unfold peer_le. rw !orb_true_iff !andb_true_iff. intros [?|[? H1]] [?|[? H2]]; to_prop; [left; lia..|]. right.
  split; [lia|by eapply text_le_trans].
Qed.

(** ** The routing peer *)

(** A peer that may carry the resource, and whether it is online. *)
Definition eligible (r : NetworkResource) (nodes : list OrgNode) (at_ : Z) (p : RoutingPeer) : bool :=
  is_candidate (peer_state r nodes at_ (rp_node p)).

Definition peer_online (nodes : list OrgNode) (at_ : Z) (p : RoutingPeer) : bool :=
  match node_by nodes (rp_node p) with Some n => online n at_ | None => false end.

Lemma find_first {A} (f : A → bool) l : head (List.filter f l) = List.find f l.
Proof. induction l as [|x l IH]; simpl; [done|]. by destruct (f x). Qed.

Lemma find_map {A B} (g : A → B) (f : B → bool) l : List.find f (map g l) = g <$> List.find (λ x, f (g x)) l.
Proof. induction l as [|x l IH]; simpl; [done|]. by destruct (f (g x)). Qed.

Lemma selected_find r nodes at_ :
  (evaluate_peers r nodes at_).1 =
  rp_node <$> match List.find (λ p, eligible r nodes at_ p && peer_online nodes at_ p) (sort_by peer_le (nr_routing_peers r)) with
              | Some p => Some p
              | None => List.find (eligible r nodes at_) (sort_by peer_le (nr_routing_peers r))
              end.
Proof.
  unfold evaluate_peers. cbn [fst]. rw filter_map_comm map_map find_map find_filter.
  set (L := sort_by peer_le _).
  change (List.find _ L) with (List.find (λ p, eligible r nodes at_ p && peer_online nodes at_ p) L) at 1.
  destruct (List.find _ L) as [p|]; [done|]. cbn [fmap option_fmap option_map]. rw -find_first.
  change (List.filter _ L) with (List.filter (eligible r nodes at_) L) at 1. by destruct (List.filter _ L).
Qed.

Lemma find_least {A} (le : A → A → bool) (f : A → bool) l x :
  (∀ a, le a a = true) → StronglySorted (λ a b, le a b = true) l →
  List.find f l = Some x → ∀ y, y ∈ l → f y = true → le x y = true.
Proof.
  intros Hrefl Hs. induction Hs as [|z l Hs IH Hz]; simpl; [done|]. destruct (f z) eqn:Hf.
  - intros [= <-] y [->|Hy]%elem_of_cons _; [done|]. rw Forall_forall in Hz. by apply Hz.
  - intros Hx y [->|Hy]%elem_of_cons Hy'; [congruence|]. by apply IH.
Qed.

Lemma peers_sorted l : StronglySorted (λ a b, peer_le a b = true) (sort_by peer_le l).
Proof.
  apply Sorted_StronglySorted; [intros a b c; apply peer_le_trans|].
  apply sort_by_sorted; [apply peer_le_total|apply peer_le_trans].
Qed.

Lemma peer_le_refl a : peer_le a a = true.
Proof. unfold peer_le, text_le. rw str_ltb_irrefl. lia. Qed.

(** The routing peer of a resource: the selected device is one of its routing
    peers and may carry it; among the peers that may, an online one is preferred,
    and of those with the same presence it has the least metric, then the least id.
    No device is selected only when none of the peers may carry the resource. *)
Theorem selected_peer_is_best r nodes at_ :
  match (evaluate_peers r nodes at_).1 with
  | Some id =>
      ∃ p, p ∈ nr_routing_peers r ∧ rp_node p = id ∧ eligible r nodes at_ p = true ∧
        ∀ q, q ∈ nr_routing_peers r → eligible r nodes at_ q = true →
          (peer_online nodes at_ q = true → peer_online nodes at_ p = true) ∧
          (peer_online nodes at_ q = peer_online nodes at_ p → peer_le p q = true)
  | None => ∀ q, q ∈ nr_routing_peers r → eligible r nodes at_ q = false
  end.
Proof.
  rw selected_find. pose proof (peers_sorted (nr_routing_peers r)) as Hs.
  assert (∀ q, q ∈ nr_routing_peers r ↔ q ∈ sort_by peer_le (nr_routing_peers r)) as Hin by (intros q; by rw sort_by_perm).
  destruct (List.find _ _) as [p|] eqn:Hp; simpl.
  - pose proof (find_least _ _ _ _ peer_le_refl Hs Hp) as Hl. apply find_elem in Hp as [Hp [He Ho]%andb_true_iff].
    exists p. split_and!; [by apply Hin|done..|]. intros q Hq%Hin Heq. split; [done|]. rw Ho. intros Hoq. apply Hl; [done|].
    by rw Heq Hoq.
  - assert (∀ q, q ∈ sort_by peer_le (nr_routing_peers r) → eligible r nodes at_ q = true → peer_online nodes at_ q = false) as Hoff.
    { intros q Hq He. pose proof (find_none_elem _ _ _ Hp Hq) as Hx. simpl in Hx. by rw He in Hx. }
    destruct (List.find (eligible _ _ _) _) as [p|] eqn:Hp'; simpl.
    + pose proof (find_least _ _ _ _ peer_le_refl Hs Hp') as Hl. apply find_elem in Hp' as [Hp' He].
      exists p. split_and!; [by apply Hin|done..|]. intros q Hq%Hin Heq. split; [|by intros _; apply Hl].
      rw Hoff //.
    + intros q Hq%Hin. by eapply find_none_elem in Hp'.
Qed.

(** ** Public routes *)

Lemma prepare_inv sha input org session acl nodes existing p :
  prepare sha input org session acl nodes existing = Ok p →
  prepare_target sha input org = Ok (pr_kind p, pr_cidr p, pr_dns_target p) ∧
  pr_allow_nested p = in_allow_nested input ∧
  ∀ c, pr_cidr p = Some c → cc_public c = true →
    ∃ u, pr_confirmed_by p = Some u ∧ confirm_public input session existing c = Ok u.
Proof.
  unfold prepare. intros H. inv_ok. subst. simpl. split_and!; [done..|].
  intros c -> Hc. rw Hc in H12. inv_ok. eauto.
Qed.

Lemma prepared_cidr sha input org session acl nodes existing p c :
  prepare sha input org session acl nodes existing = Ok p → pr_cidr p = Some c →
  ∃ v, in_cidr input = Some v ∧ canonical_cidr sha v org = Ok c ∧ pr_kind p = Cidr.
Proof.
  intros (Ht & _)%prepare_inv Hc. unfold prepare_target in Ht. rw Hc in Ht.
  destruct (in_cidr input) as [v|], (in_dns_target input); inv_ok; simplify_eq/=; naive_solver.
Qed.

Lemma canonical_parses sha v org c : canonical_cidr sha v org = Ok c → ∃ x, parse_cidr (cc_cidr c) = Ok x.
Proof.
  unfold canonical_cidr. intros H. inv_ok. repeat case_match; simplify_eq/=; to_prop; subst; eauto.
Qed.

(** Public routes need an owner: when the prefix a write names is a default
    route or not private, the write succeeds only if its author is an owner who
    confirmed it in this request, or if the resource already had this very prefix
    and a confirmation on record; the record is the one stored. *)
Theorem public_route_confirmed sha input org session acl nodes existing p c
    (Hp : prepare sha input org session acl nodes existing = Ok p) (Hc : pr_cidr p = Some c) (Hpub : cc_public c = true) :
  (pr_confirmed_by p = Some (ss_user session) ∧ in_confirm_public input = true ∧ ss_role session = Owner) ∨
  (∃ r u, existing = Some r ∧ nr_cidr r = Some (cc_cidr c) ∧ nr_confirmed_by r = Some u ∧ pr_confirmed_by p = Some u).
Proof.
  apply prepare_inv in Hp as (_ & _ & Hconf). destruct (Hconf c Hc Hpub) as (u & Hu & Hok). clear Hconf.
  unfold confirm_public in Hok. destruct (r ← existing; _) as [u'|] eqn:He.
  - inv_ok. subst u'. right. destruct existing as [r|]; [|done]. simpl in He. case_bool_decide; [|done]. eauto 10.
  - left. repeat case_match; try done. inv_ok. to_prop. subst. done.
Qed.

Lemma overlap_free a b na pa nb pb ip :
  parse_cidr a = Ok (na, pa) → parse_cidr b = Ok (nb, pb) → cidrs_overlap a b = false → wf_ip ip →
  cidr_contains na pa ip = true → cidr_contains nb pb ip = false.
Proof.
  intros Ha Hb Hn Hw Hin. destruct (cidr_contains nb pb ip) eqn:Hb'; [|done].
  destruct (IpamProps.pools_overlap_exact _ _ _ _ _ _ Ha Hb) as (v & Hv & Hiff). unfold cidrs_overlap in Hn. rw Hv in Hn.
  subst v. naive_solver.
Qed.

(** The ranges no resource may touch, as networks. *)
Definition special_ranges (sha : bytes → bytes) (org : str) (v6 : bool) : list str :=
  (if v6 then IPV6_SPECIAL else IPV4_SPECIAL) ++ [if v6 then org_overlay_ipv6 sha org else IPV4_OVERLAY].

(** A resource's prefix is sound: what [canonical_cidr] returns is the text of a
    network of its family; unless it is a default route, no address in it is
    loopback, link-local, multicast, unspecified or in the overlay pool, and
    one not marked public lies within the private ranges. *)
Theorem canonical_cidr_sound sha v org c
    (Hok : canonical_cidr sha v org = Ok c) (Hd : is_default_route (cc_cidr c) = false) :
  ∃ net pre, parse_cidr (cc_cidr c) = Ok (net, pre) ∧
    (∀ range n p ip, range ∈ special_ranges sha org (is_ipv6 net) → parse_cidr range = Ok (n, p) → wf_ip ip →
       cidr_contains net pre ip = true → cidr_contains n p ip = false) ∧
    (cc_public c = false →
       ∃ range, range ∈ (if is_ipv6 net then [lit "fc00::/7"] else RFC1918) ∧ cidr_within (cc_cidr c) range = true).
Proof.
  unfold canonical_cidr in Hok. inv_ok. case_match; [done|]. to_prop. subst.
  rename select (parse_cidr _ = _) into Hparse. case_match; inv_ok; subst; [cbn [cc_cidr] in Hd; congruence|].
  case_match; [done|]. case_match; [done|]. inv_ok. subst c. cbn [cc_cidr cc_public] in *.
  rename select (List.find _ _ = None) into Hfind. rename select (cidrs_overlap _ _ = false) into Hover.
  pose proof (λ range, find_none_elem _ _ range Hfind) as Hno. cbn beta in Hno.
  eexists _, _. split; [exact Hparse|]. split.
  - intros range n p ip Hr Hrp Hw Hin. eapply overlap_free; [exact Hparse|exact Hrp| |done|done].
    apply elem_of_app in Hr as [Hr| ->%list_elem_of_singleton]; [by apply Hno|done].
  - case_match.
    + intros Hw%negb_false_iff. eexists. split; [apply list_elem_of_here|done].
    + intros (range & Hr & Hw)%negb_false_iff%existsb_elem. eauto.
Qed.

(** ** Distribution *)

Lemma claim_sound protected claimed l a :
  a ∈ claim_routes protected claimed l → a ∈ l ∧ ∀ p, p ∈ protected → cidr_within (ar_cidr a) p = false.
Proof.
  revert claimed; induction l as [|r l IH]; intros claimed; simpl; [by intros ?%elem_of_nil|].
  destruct (existsb _ protected) eqn:He; [intros [? ?]%IH; split; [by right|done]|].
  case_bool_decide; [|intros [? ?]%IH; split; [by right|done]].
  intros [->|[? ?]%IH]%elem_of_cons; (split; [set_solver|]); [|done]. by apply existsb_false.
Qed.

Lemma claim_owner protected claimed l a u :
  a ∈ claim_routes protected claimed l → claimed !! ar_cidr a = Some u → ar_router a = u.
Proof.
  revert claimed; induction l as [|r l IH]; intros claimed; simpl; [by intros ?%elem_of_nil|].
  destruct (existsb _ protected); [apply IH|]. set (owner := default _ _).
  assert (∀ c, claimed !! c = Some u → <[ar_cidr r := owner]> claimed !! c = Some u) as Hkeep.
  { intros c Hc. destruct (decide (ar_cidr r = c)) as [<-|]; [|by rw lookup_insert_ne].
    rw lookup_insert. unfold owner. by rw Hc decide_True. }
  case_bool_decide as Ho; [|intros Ha Hc; by eapply IH, Hkeep].
  intros [->|Ha]%elem_of_cons Hc; [|by eapply IH, Hkeep]. unfold owner in Ho. by rw Hc in Ho.
Qed.

Lemma claim_one protected claimed l a b :
  a ∈ claim_routes protected claimed l → b ∈ claim_routes protected claimed l → ar_cidr a = ar_cidr b →
  ar_router a = ar_router b.
Proof.
  revert claimed; induction l as [|r l IH]; intros claimed; simpl; [by intros ?%elem_of_nil|].
  destruct (existsb _ protected); [apply IH|]. set (owner := default _ _).
  case_bool_decide as Ho; [|apply IH]. intros Ha Hb Heq.
  assert (∀ c, c ∈ claim_routes protected (<[ar_cidr r := owner]> claimed) l → ar_cidr c = ar_cidr r → ar_router c = ar_router r) as Hr.
  { intros c Hc Hcr. rw -Ho. eapply claim_owner; [done|]. by rw Hcr lookup_insert decide_True. }
  apply elem_of_cons in Ha as [->|Ha]; apply elem_of_cons in Hb as [->|Hb]; [done| |by apply Hr|by eapply IH].
  symmetry. by apply Hr.
Qed.

(** The route an enabled prefix resource gives to the routing peer it has. *)
Definition cidr_route (r : NetworkResource) (c : str) (router : Uuid) : ActiveRoute :=
  mkActiveRoute c router (map rp_node (nr_routing_peers r)) (nr_access r) (resource_service (nr_ports r) (nr_protocols r)).

Definition protected_of (o : Org) : list str :=
  List.filter (λ p, negb (is_default_route p))
    (omap nr_cidr (List.filter nr_enabled (load_resources o)) ++ flat_map on_approved (load_org_nodes o)).

(** Every route distributed is that of an enabled prefix, or a host route that lies
    in no enabled prefix and in no approved route; all of the latter agree. *)
Lemma distribution_routes o t at_ :
  ∃ hosts : list ActiveRoute, (∀ a, a ∈ routes (load_distribution o t at_) ↔
      a ∈ hosts ∨
      ∃ r c u, r ∈ org_resources o ∧ nr_enabled r = true ∧ nr_kind r = Cidr ∧ nr_cidr r = Some c ∧
        (evaluate_peers r (load_org_nodes o) at_).1 = Some u ∧ a = cidr_route r c u) ∧
    (∀ a p, a ∈ hosts → p ∈ protected_of o → cidr_within (ar_cidr a) p = false) ∧
    (∀ a b, a ∈ hosts → b ∈ hosts → ar_cidr a = ar_cidr b → ar_router a = ar_router b) ∧
    (∀ a, a ∈ hosts → ∃ r, r ∈ org_resources o ∧ nr_enabled r = true ∧ nr_kind r = Dns ∧
        (evaluate_peers r (load_org_nodes o) at_).1 = Some (ar_router a)).
Proof.
  unfold load_distribution. destruct (existsb nr_enabled (load_resources o)) eqn:Hen; cbn [negb].
  2:{ exists []. simpl. split_and!; [|by intros ?? ?%elem_of_nil..|by intros ? ?%elem_of_nil].
      intros a. split; [by intros ?%elem_of_nil|]. intros [?%elem_of_nil|(r & _ & _ & Hr & He & _)]; [done|].
      rw existsb_false in Hen. rw Hen // in He. by apply load_resources_elem. }
  fold (protected_of o). set (ol := if existsb _ _ then _ else _).
  set (found := map _ _). cbn [routes].
  assert (∀ x, x ∈ found ↔ ∃ r, r ∈ org_resources o ∧ nr_enabled r = true ∧ x = active_routes r (load_org_nodes o) ol at_) as Hf.
  { intros x. unfold found. rw list_elem_of_fmap. setoid_rewrite filter_elem. setoid_rewrite load_resources_elem. naive_solver. }
  eexists. split_and!; [|intros a p Ha Hp; by eapply (proj2 (claim_sound _ _ _ _ Ha))|apply claim_one|].
  - intros a. rw elem_of_app or_comm. apply or_iff_compat_l. rw flat_map_elem. setoid_rewrite Hf. unfold active_routes. split.
    + intros (x & (r & Hr & He & ->) & Ha). destruct (evaluate_peers _ _ _).1 as [u|] eqn:Hu; [|by apply elem_of_nil in Ha].
      destruct (nr_kind r) eqn:Hk; [|by apply elem_of_nil in Ha]. simpl in Ha.
      destruct (nr_cidr r) as [c|] eqn:Hc; [|by apply elem_of_nil in Ha]. apply list_elem_of_singleton in Ha as ->.
      exists r, c, u. done.
    + intros (r & c & u & Hr & He & Hk & Hc & Hu & ->). eexists. split; [by exists r|]. rw Hu Hk Hc. apply list_elem_of_here.
  - intros a [(x & Hx & Ha)%flat_map_elem _]%claim_sound. apply Hf in Hx as (r & Hr & He & ->). exists r.
    unfold active_routes in Ha. destruct (evaluate_peers _ _ _).1 as [u|] eqn:Hu; [|by apply elem_of_nil in Ha].
    destruct (nr_kind r) eqn:Hk; [by apply elem_of_nil in Ha|]. simpl in Ha. apply list_elem_of_fmap in Ha as (l & -> & _). done.
Qed.

(** A list whose keys differ has one element per key. *)
(** The active devices of an organisation have different ids. *)
Lemma active_unique o n m :
  NoDup (map on_id (org_nodes o)) → n ∈ load_org_nodes o → m ∈ load_org_nodes o → on_id n = on_id m → n = m.
Proof.
  intros Hnd [Hn _]%filter_elem [Hm _]%filter_elem Heq. by eapply nodup_key.
Qed.

Lemma node_by_elem nodes id n : node_by nodes id = Some n → n ∈ nodes ∧ on_id n = id.
Proof. intros [? ?%bool_decide_eq_true]%find_elem. done. Qed.

(** The selected device is an active one. *)
Lemma selected_node r nodes at_ id :
  (evaluate_peers r nodes at_).1 = Some id →
  id ∈ map rp_node (nr_routing_peers r) ∧ ∃ n, node_by nodes id = Some n.
Proof.
  rw selected_find. intros Hs.
  assert (∃ p, p ∈ nr_routing_peers r ∧ rp_node p = id ∧ eligible r nodes at_ p = true) as (p & Hp & <- & He).
  { destruct (List.find _ _) as [p|] eqn:Hp.
    - apply find_elem in Hp as [Hp [? _]%andb_true_iff]. rw sort_by_perm in Hp. simplify_eq/=. eauto.
    - apply fmap_Some in Hs as (p & [Hq ?]%find_elem & ->). rw sort_by_perm in Hq. eauto. }
  split; [apply list_elem_of_fmap; eauto|].
  unfold eligible, peer_state in He. destruct (node_by _ _); [eauto|done].
Qed.

Lemma shown_clients r nodes acl ol at_ cd :
  cd ∈ rd_clients (evaluate r nodes acl ol at_) ↔
  ∃ n answers blocked, n ∈ nodes ∧ Some (on_id n) ≠ (evaluate_peers r nodes at_).1 ∧
    let v := client_verdict r acl (id ← (evaluate_peers r nodes at_).1; node_by nodes id) answers blocked at_ n in
    cd = mkClientDistribution (on_id n) (label n) v.1 v.2 ∧
    answers = rd_answers (evaluate r nodes acl ol at_) ∧ blocked = rd_blocked (evaluate r nodes acl ol at_).
Proof.
  unfold evaluate. destruct (evaluate_peers r nodes at_) as [sel peers]. cbn [rd_clients rd_answers rd_blocked fst].
  rw list_elem_of_fmap. setoid_rewrite filter_elem. setoid_rewrite negb_true_iff. setoid_rewrite bool_decide_eq_false.
  split.
  - intros (n & -> & Hn & Hs). eexists n, _, _. split_and!; [done..| |done|done]. by destruct (client_verdict _ _ _ _ _ _ _).
  - intros (n & a & b & Hn & Hs & -> & -> & ->). exists n. split; [|done]. by destruct (client_verdict _ _ _ _ _ _ _).
Qed.

(** What [client_verdict] says of a prefix resource. *)
Lemma verdict_cidr r acl router answers blocked at_ n c :
  nr_enabled r = true → nr_kind r = Cidr → nr_cidr r = Some c → is_default_route c = false →
  (client_verdict r acl router answers blocked at_ n).1 = true ↔
  on_id n ∉ map rp_node (nr_routing_peers r) ∧ access_matches (nr_access r) (on_subject n) (groups acl) = true ∧
  ∃ u, router = Some u ∧ at_ < on_expires n ∧ allows acl at_ (on_subject n) (on_subject u) = true.
Proof.
  intros He Hk Hc Hd. unfold client_verdict. rw Hk He Hc Hd. rw bool_decide_false; [|done]. cbn [andb negb].
  assert (existsb (λ p, bool_decide (rp_node p = on_id n)) (nr_routing_peers r) = bool_decide (on_id n ∈ map rp_node (nr_routing_peers r))) as ->.
  { apply eq_bool_prop_intro. rw !Is_true_true existsb_elem bool_decide_eq_true list_elem_of_fmap.
    setoid_rewrite bool_decide_eq_true. naive_solver. }
  case_bool_decide; simpl; [naive_solver|]. destruct (access_matches _ _ _); simpl; [|naive_solver].
  destruct router as [u|]; [|naive_solver]. destruct (Z.leb_spec (on_expires n) at_); [naive_solver lia|].
  destruct (allows _ _ _ _) eqn:Ha; simpl; naive_solver.
Qed.

Lemma enabled_protected o r c :
  r ∈ org_resources o → nr_enabled r = true → nr_cidr r = Some c → is_default_route c = false → c ∈ protected_of o.
Proof.
  intros Hr He Hc Hd. apply filter_elem. rw Hd. split; [|done]. apply elem_of_app. left. apply list_elem_of_omap.
  exists r. split; [|done]. apply filter_elem. by rw load_resources_elem.
Qed.

(** The distribution hands a prefix of its own to the clients its resource admits. *)
Lemma routes_via_cidr o t at_ r c x u sid subject :
  r ∈ org_resources o → nr_enabled r = true → nr_kind r = Cidr → nr_cidr r = Some c → is_default_route c = false →
  parse_cidr c = Ok x → (∀ r', r' ∈ org_resources o → nr_cidr r' = Some c → r' = r) →
  c ∈ routes_via (load_distribution o t at_) u sid subject (org_acl o) false ↔
  (evaluate_peers r (load_org_nodes o) at_).1 = Some u ∧ sid ∉ map rp_node (nr_routing_peers r) ∧
  access_matches (nr_access r) subject (groups (org_acl o)) = true.
Proof.
  intros Hr He Hk Hc Hd Hparse Huniq. destruct (distribution_routes o t at_) as (hosts & Hroutes & Hprot & _ & _).
  unfold routes_via, grants_via. rw map_map list_elem_of_fmap. setoid_rewrite filter_elem.
  setoid_rewrite andb_true_iff. setoid_rewrite andb_true_iff. setoid_rewrite andb_true_iff.
  setoid_rewrite bool_decide_eq_true. setoid_rewrite negb_true_iff. setoid_rewrite bool_decide_eq_false. split.
  - intros (a & -> & Ha & ((<- & Hpeer) & _) & Hacc). cbn [fst] in *.
    apply Hroutes in Ha as [Ha|(r' & c' & u & Hr' & _ & _ & Hc' & Hu & ->)].
    + pose proof (Hprot a (ar_cidr a) Ha) as Hw. rw (cidr_within_refl _ _ Hparse) in Hw.
      by specialize (Hw (enabled_protected o r _ Hr He Hc Hd)).
    + cbn [cidr_route ar_cidr] in *. assert (r' = r) as -> by (apply Huniq; done). done.
  - intros (Hu & Hpeer & Hacc). exists (cidr_route r c u). split; [done|]. split; [apply Hroutes; right; by exists r, c, u|].
    simpl. rw Hd. done.
Qed.

(** The console tells the truth about prefix resources: for an enabled resource
    with its own prefix, the console shows a device as receiving it exactly when the
    distribution gives the device that prefix through the selected routing peer,
    the device's credential is valid and policy lets it reach that peer. *)
Theorem console_matches_distribution o t at_ r c x n
    (Hids : NoDup (map on_id (org_nodes o))) (Hr : r ∈ org_resources o) (He : nr_enabled r = true) (Hk : nr_kind r = Cidr)
    (Hc : nr_cidr r = Some c) (Hd : is_default_route c = false) (Hparse : parse_cidr c = Ok x)
    (Huniq : ∀ r', r' ∈ org_resources o → nr_cidr r' = Some c → r' = r) (Hn : n ∈ load_org_nodes o) :
  let d := evaluate r (load_org_nodes o) (org_acl o) (load_leases o t) at_ in
  (∃ cd, cd ∈ rd_clients d ∧ cd_node cd = on_id n ∧ cd_receives cd = true) ↔
  ∃ router, router ∈ load_org_nodes o ∧ rd_selected d = Some (on_id router) ∧ at_ < on_expires n ∧
    allows (org_acl o) at_ (on_subject n) (on_subject router) = true ∧
    c ∈ routes_via (load_distribution o t at_) (on_id router) (on_id n) (on_subject n) (org_acl o) false.
Proof.
  intros d. assert (rd_selected d = (evaluate_peers r (load_org_nodes o) at_).1) as ->.
  { unfold d, evaluate. by destruct (evaluate_peers _ _ _). }
  pose proof (λ u, routes_via_cidr o t at_ r c x u (on_id n) (on_subject n) Hr He Hk Hc Hd Hparse Huniq) as Hvia.
  setoid_rewrite Hvia. unfold d. setoid_rewrite shown_clients. split.
  - intros (cd & (n' & a & b & Hn' & Hs & -> & _ & _) & Hid & Hrec). cbn [cd_node cd_receives] in *.
    rw (active_unique o n' n) // in Hrec. apply (verdict_cidr _ _ _ _ _ _ _ c) in Hrec as (Hp & Hacc & u & Hu & Hx & Hal); [|done..].
    destruct (evaluate_peers _ _ _).1 as [id|] eqn:Hsel; [|done]. simpl in Hu. apply node_by_elem in Hu as [Hu <-].
    exists u. done.
  - intros (u & Hu & Hsel & Hx & Hal & _ & Hp & Hacc). destruct (selected_node _ _ _ _ Hsel) as [Hin [m Hm]].
    assert (m = u) as ->. { apply node_by_elem in Hm as [Hm Hid]. by eapply active_unique. }
    eexists. split; [eexists n, _, _; split; [done|]; split; [|split_and!; reflexivity]|].
    + rw Hsel. intros [= Heq]. apply Hp. by rw Heq.
    + split; [done|]. cbn [cd_receives]. eapply (verdict_cidr _ _ _ _ _ _ _ c); [done..|]. rw Hsel /= Hm. split_and!; [done..|]. by exists u.
Qed.

(** ** A concrete organisation *)

Definition sample_node (id : str) (tags : list DeviceTag) (routes approved caps : list str) : OrgNode :=
  mkOrgNode (lit "node-" ++ id) id (lit "token-" ++ id) false false false None routes approved (Some 950) 5000
    (subject_new Member tags) caps.

Definition sample_access : ResourceAccess := mkResourceAccess [Member] [] [].

Definition sample_resource (id : str) (kind : ResourceKind) (cidr dns : option str) : NetworkResource :=
  mkNetworkResource id id [] kind cidr dns [] [] [mkRoutingPeer (lit "node-a") 100; mkRoutingPeer (lit "node-b") 50]
    sample_access true false None 1 900 900.

Definition sample_policy : Acl := mkAcl 1 SameTag [] [] [] [] [] [] None.

(** Two routers, of which [a] alone advertises the prefix, a client [c] and a device
    [d] with an approved route; a DNS answer leased before that route was approved. *)
Definition sample_org : Org :=
  mkOrg (lit "org") sample_policy
    [sample_node (lit "a") [Store] [lit "192.168.0.0/16"] [] [CAP_APP_CONNECTOR];
     sample_node (lit "b") [Store] [] [] [];
     sample_node (lit "c") [Store] [] [] [];
     sample_node (lit "d") [Store] [lit "10.1.0.0/16"] [lit "10.1.0.0/16"] []]
    [sample_resource (lit "files") Cidr (Some (lit "192.168.7.0/24")) None;
     sample_resource (lit "wiki") Dns None (Some (lit "wiki.example.org"))]
    [mkLeaseRow (lit "org") (lit "wiki") (lit "node-a") (lit "10.1.2.3/32") 60 900 1200] [] 7.

Definition sample_client : OrgNode := sample_node (lit "c") [Store] [] [] [].

Lemma console_matches_distribution_witness :
  ∃ router, router ∈ load_org_nodes sample_org ∧ on_id router = lit "node-a" ∧
    lit "192.168.7.0/24" ∈
      routes_via (load_distribution sample_org 1000 1000) (on_id router) (lit "node-c") (on_subject sample_client) sample_policy false.
Proof.
  edestruct (console_matches_distribution sample_org 1000 1000 (sample_resource (lit "files") Cidr (Some (lit "192.168.7.0/24")) None)
    (lit "192.168.7.0/24") (V4 3232237312, 24) sample_client) as [Hfw _]; [|apply list_elem_of_here|reflexivity|reflexivity|reflexivity| | | | |].
  - apply (bool_decide_unpack _). vm_compute. exact I.
  - vm_compute. reflexivity.
  - vm_compute. reflexivity.
  - intros r' Hr'. vm_compute in Hr'. repeat (apply elem_of_cons in Hr' as [->|Hr']; [by vm_compute|]). by apply elem_of_nil in Hr'.
  - right. right. left.
  - destruct Hfw as (router & Hin & Hsel & _ & _ & Hvia).
    + eexists. split; [apply list_elem_of_lookup_2 with 1%nat; vm_compute; reflexivity|]. by vm_compute.
    + exists router. split; [done|]. split; [|exact Hvia]. apply (inj Some). rewrite <- Hsel. vm_compute. reflexivity.
Defined.

(** The console can show what the peer maps do not have: the answer of [wiki] lies
    in the approved route of [d], so it is not distributed, but [c] is shown as
    receiving it. *)
Theorem console_shows_undistributed :
  let d := evaluate (sample_resource (lit "wiki") Dns None (Some (lit "wiki.example.org"))) (load_org_nodes sample_org) sample_policy
             (load_leases sample_org 1000) 1000 in
  rd_state d = Distributing ∧
  (lit "node-c", true) ∈ map (λ c, (cd_node c, cd_receives c)) (rd_clients d) ∧
  routes_via (load_distribution sample_org 1000 1000) (lit "node-a") (lit "node-c") (on_subject sample_client) sample_policy false =
    [lit "192.168.7.0/24"].
Proof.
  split; [reflexivity|]. split; [|vm_compute; reflexivity]. apply list_elem_of_lookup_2 with 1%nat. vm_compute. reflexivity.
Qed.

Definition sample_input (cidr : str) (confirm : bool) : ResourceInput :=
  mkResourceInput (lit "Office") [] (Some cidr) None [lit "443"] [RTcp] [] sample_access true false confirm None None false.

Lemma public_route_confirmed_witness :
  ∃ p, prepare (λ _, []) (sample_input (lit "203.0.113.0/24") true) (lit "org") (mkSession (lit "olive") Owner) sample_policy [] None = Ok p ∧
    pr_confirmed_by p = Some (lit "olive").
Proof.
  eexists. split; [vm_compute; reflexivity|].
  edestruct (public_route_confirmed (λ _, []) (sample_input (lit "203.0.113.0/24") true) (lit "org") (mkSession (lit "olive") Owner)
    sample_policy [] None) as [[H _]|(r & _ & Hr & _)]; [vm_compute; reflexivity|reflexivity|reflexivity|exact H|discriminate Hr].
Defined.

Lemma canonical_cidr_sound_witness :
  ∃ range, range ∈ RFC1918 ∧ cidr_within (lit "10.20.0.0/16") range = true.
Proof.
  edestruct (canonical_cidr_sound (λ _, []) (lit " 10.20.0.0/16") (lit "org") (mkCanonicalCidr (lit "10.20.0.0/16") false))
    as (net & pre & Hp & _ & Hpriv); [vm_compute; reflexivity|reflexivity|].
  vm_compute in Hp. injection Hp as <- <-. exact (Hpriv eq_refl).
Defined.

End ResourcesProps.
