(* ===== verification/Routes.v ===== *)
(** * Route advertisement and approval

    The handlers of [blaktail-coord/src/lib.rs] and [admin.rs] that change a
    device's routes: [update_advertised_routes] (the device), [approve_node_routes]
    (the console) and [api_approve_routes] (the automation API), with the
    validation of the advertised prefixes.  They share the tables of [Resources];
    an [expect] that fails is the error [RoutePanic]. *)

From S2P Require Import Prelude Text Net Policy Ipam AclFilter ForwardFilter CoordAcl CoordForward AppConnectors CoordRules Resources.

Module Routes.
Import Resources.

(** ** Validation *)

Inductive RouteError :=
| NotCidrNotation (route : str) | NotIpv6Cidr (route : str) | NotIpv4Cidr (route : str) | InvalidPrefix (route : str)
| NotValidCidr (route : str) | NotNetworkAddress (route : str) | NotRoutable (route : str) | TooManyRoutes
| NotLocalOrGlobal (route : str) | NotPrivate (route : str) | OverlapsAddressPool (route : str)
| OverlapsAdvertised (route : str) | OverlapsDevicePool (route : str) | RoutePanic
| Unauthorized | Suspended | CredentialExpired | NotFound | ForbiddenRole | ForbiddenScope
| ExpiredNode | NotAdvertised | OverlapsResource (e : ResourceError) | OverlapsRouter (route : str).

Definition ipv4_mask (prefix : Z) : Z := if prefix =? 0 then 0 else Z.land (Z.shiftl U32_MAX (32 - prefix)) U32_MAX.

Definition routes_overlap (left right : str) : bool :=
  match pools_overlap left right with Ok b => b | Err _ => false end.

Definition route_prefix (route : str) : Z := match parse_cidr route with Ok (_, prefix) => prefix | Err _ => 0 end.

Definition parse_ipv4 (s : str) : option Z := match parse_ip s with Some (V4 a) => Some a | _ => None end.
Definition parse_ipv6 (s : str) : option Z := match parse_ip s with Some (V6 a) => Some a | _ => None end.

Definition parse_prefix (limit : Z) (s : str) : option Z := p ← parse_u8 s; if p <=? limit then Some p else None.

Definition canonical_ipv6_route (route : str) : result RouteError str :=
  let route := trim route in
  let? (address, prefix) := ok_or (split_once 47 route) (NotCidrNotation route) in
  let? address := ok_or (parse_ipv6 address) (NotIpv6Cidr route) in
  let? prefix := ok_or (parse_prefix 128 prefix) (InvalidPrefix route) in
  let? (network, _) := map_err (λ _, NotValidCidr route) (parse_cidr (show_ip (V6 address) ++ lit "/" ++ dec prefix)) in
  let? _ := reject_if (negb (bool_decide (network = V6 address))) (NotNetworkAddress route) in
  Ok (show_ip (V6 address) ++ lit "/" ++ dec prefix).

(** [Ipv4Addr::is_loopback], [is_link_local], [is_multicast] and [is_broadcast]. *)
Definition unroutable (a : Z) : bool :=
  (Z.shiftr a 24 =? 127) || (Z.shiftr a 16 =? 0xa9fe) || (Z.shiftr a 28 =? 14) || (a =? U32_MAX).

Definition canonical_ipv4_route (route : str) : result RouteError str :=
  let route := trim route in
  let? (address, prefix) := ok_or (split_once 47 route) (NotCidrNotation route) in
  let? address := ok_or (parse_ipv4 address) (NotIpv4Cidr route) in
  let? prefix := ok_or (parse_prefix 32 prefix) (InvalidPrefix route) in
  let? _ := reject_if (negb (Z.land address (U32_MAX - ipv4_mask prefix) =? 0)) (NotNetworkAddress route) in
  let? _ := reject_if (negb (prefix =? 0) && unroutable address) (NotRoutable route) in
  Ok (show_ip (V4 address) ++ lit "/" ++ dec prefix).

(** The closure [parse] of the two comparisons: a text that is no IPv4 CIDR stops the handler. *)
Definition parse_validated (route : str) : result RouteError (Z * Z) :=
  ok_or ('(address, prefix) ← split_once 47 route; a ← parse_ipv4 address; p ← parse_u8 prefix; Some (a, p)) RoutePanic.

Definition ipv4_routes_overlap (left right : str) : result RouteError bool :=
  let? (left_address, left_prefix) := parse_validated left in
  let? (right_address, right_prefix) := parse_validated right in
  let mask := ipv4_mask (Z.min left_prefix right_prefix) in
  Ok (Z.land left_address mask =? Z.land right_address mask).

Definition ipv4_route_is_within (route container : str) : result RouteError bool :=
  let? (address, prefix) := parse_validated route in
  let? (container_address, container_prefix) := parse_validated container in
  Ok ((container_prefix <=? prefix)
      && (Z.land address (ipv4_mask container_prefix) =? Z.land container_address (ipv4_mask container_prefix))).

(** [iter().any(..)] with a test that may stop. *)
Fixpoint try_any {E A} (f : A → result E bool) (l : list A) : result E bool :=
  match l with
  | [] => Ok false
  | x :: rest => let? b := f x in if b then Ok true else try_any f rest
  end.

(** One turn of the loop over the canonical routes; [later] are the ones behind. *)
Definition check_route (route : str) (later : list str) : result RouteError unit :=
  if is_default_route route then Ok tt
  else
    let v6 := contains_char 58 route in
    let? _ := if v6 then
                reject_if (negb (cidr_within route (lit "fd00::/8") || cidr_within route (lit "2000::/3"))
                           || (route_prefix route <? 16)) (NotLocalOrGlobal route)
              else let? private := try_any (ipv4_route_is_within route) RFC1918 in reject_if (negb private) (NotPrivate route) in
    let? pool := if v6 then Ok false else ipv4_routes_overlap route IPV4_OVERLAY in
    let? _ := reject_if pool (OverlapsAddressPool route) in
    reject_if (existsb (λ other, negb (is_default_route other) && routes_overlap route other) later) (OverlapsAdvertised route).

Fixpoint check_routes (routes : list str) : result RouteError unit :=
  match routes with
  | [] => Ok tt
  | route :: later => let? _ := check_route route later in check_routes later
  end.

Definition canonical_route (route : str) : result RouteError str :=
  if contains_char 58 route then canonical_ipv6_route route else canonical_ipv4_route route.

Definition validate_advertised_routes (routes : list str) : result RouteError (list str) :=
  let? _ := reject_if (32 <? length routes)%nat TooManyRoutes in
  let? canonical := try_collect canonical_route routes in
  let canonical := BTree.extend [] canonical in
  let? _ := check_routes canonical in
  Ok canonical.

(** ** Handlers *)

Section routes.
Context (sha256 : bytes → bytes).

Definition ensure_routes_outside_overlay (org_id : str) (routes : list str) : result RouteError unit :=
  let overlay := match split_once 47 (org_ula_address sha256 org_id 0) with Some (a, _) => a | None => [] end ++ lit "/64" in
  match List.find (λ route, negb (is_default_route route) && routes_overlap route overlay) routes with
  | Some route => Err (OverlapsDevicePool route)
  | None => Ok tt
  end.

Definition with_routes (n : OrgNode) (advertised approved : list str) : OrgNode :=
  mkOrgNode (on_id n) (on_name n) (on_token_hash n) (on_suspended n) (on_revoked n) (on_deleted n) (on_display_name n)
    advertised approved (on_last_seen n) (on_expires n) (on_subject n) (on_capabilities n).

(** [UPDATE nodes SET .. WHERE id=..] *)
Definition write_routes (o : Org) (id : Uuid) (f : OrgNode → OrgNode) : Org :=
  set_nodes o (map (λ n, if bool_decide (on_id n = id) then f n else n) (org_nodes o)).

(** What the transaction of an advertisement writes. *)
Record Advertisement := mkAdvertisement { ad_node : Uuid; ad_routes : list str; ad_retained : list str }.

(** Up to [begin]: the device's row is read from the pool.  [token] is the hash of the bearer token. *)
Definition read_advertisement (before : Org) (node_id token : str) (advertised : list str) (at_ : Z) :
    result RouteError Advertisement :=
  let? routes := validate_advertised_routes advertised in
  let? node := ok_or (List.find (λ n, bool_decide (on_id n = node_id) && bool_decide (on_token_hash n = token) && active n)
                        (org_nodes before)) Unauthorized in
  let? _ := reject_if (on_suspended node) Suspended in
  let? _ := ensure_routes_outside_overlay (org_id before) routes in
  let? _ := reject_if (on_expires node <=? at_) CredentialExpired in
  Ok (mkAdvertisement node_id routes (List.filter (λ route, bool_decide (route ∈ routes)) (on_approved node))).

(** [UPDATE nodes SET .. WHERE id=.. AND (advertised_routes_json<>.. OR approved_routes_json<>..)] *)
Definition advertisement_changes (a : Advertisement) (n : OrgNode) : bool :=
  bool_decide (on_id n = ad_node a)
  && negb (bool_decide (on_advertised n = ad_routes a) && bool_decide (on_approved n = ad_retained a)).

(** The transaction: neither the row's state nor its approvals are read again. *)
Definition write_advertisement (o : Org) (a : Advertisement) : Org :=
  if existsb (advertisement_changes a) (org_nodes o)
  then bump (write_routes o (ad_node a) (λ n, with_routes n (ad_routes a) (ad_retained a)))
  else o.

(** [before] are the tables at the [SELECT], [o] the ones the transaction finds. *)
Definition update_advertised_routes (before o : Org) (node_id token : str) (advertised : list str) (at_ : Z) :
    result RouteError Org :=
  let? a := read_advertisement before node_id token advertised at_ in
  Ok (write_advertisement o a).

Definition find_node (keep : OrgNode → bool) (o : Org) (id : Uuid) : option OrgNode :=
  List.find (λ n, bool_decide (on_id n = id) && keep n) (org_nodes o).

(** What an expired router keeps when [approved] moves to another. *)
Definition yield_routes (approved : list str) (n : OrgNode) : OrgNode :=
  with_routes n (on_advertised n)
    (List.filter (λ route, is_default_route route
                           || negb (existsb (routes_overlap route) (List.filter (λ a, negb (is_default_route a)) approved)))
       (on_approved n)).

Definition approve_node_routes (o : Org) (session : Session) (node_id : Uuid) (input : list str) (at_ : Z) :
    result RouteError Org :=
  let? _ := map_err (λ _, ForbiddenRole) (require (ss_role session) ManageNetworks) in
  let? approved := validate_advertised_routes input in
  let? node := ok_or (find_node (λ n, negb (on_revoked n)) o node_id) NotFound in
  let? _ := reject_if ((on_expires node <=? at_) && existsb (λ r, negb (bool_decide (r ∈ on_approved node))) approved)
              ExpiredNode in
  let? _ := reject_if (existsb (λ r, negb (bool_decide (r ∈ on_advertised node))) approved) NotAdvertised in
  let? _ := map_err OverlapsResource (ensure_routes_free o approved) in
  let others := List.filter (λ n, negb (bool_decide (on_id n = node_id)) && negb (on_revoked n)) (org_nodes o) in
  let other_routes := List.filter (λ r, negb (is_default_route r))
                        (flat_map on_approved (List.filter (λ n, at_ <? on_expires n) others)) in
  let? _ := match List.find (λ r, negb (is_default_route r) && existsb (routes_overlap r) other_routes) approved with
            | Some route => Err (OverlapsRouter route)
            | None => Ok tt
            end in
  let yielded := map (λ n, if negb (bool_decide (on_id n = node_id)) && negb (on_revoked n) && (on_expires n <=? at_)
                           then yield_routes approved n else n) (org_nodes o) in
  Ok (bump (write_routes (set_nodes o yielded) node_id (λ n, with_routes n (on_advertised n) approved))).

(** [routes_write] says whether the caller's key has the scope [RoutesWrite]. *)
Definition api_approve_routes (o : Org) (routes_write : bool) (node_id : Uuid) (approved : list str) : result RouteError Org :=
  let? _ := reject_if (negb routes_write) ForbiddenScope in
  let? node := ok_or (find_node (λ n, negb (on_deleted n)) o node_id) NotFound in
  let? _ := reject_if (existsb (λ r, negb (bool_decide (r ∈ on_advertised node))) approved) NotAdvertised in
  let? _ := map_err OverlapsResource (ensure_routes_free o approved) in
  Ok (bump (write_routes o node_id (λ n, with_routes n (on_advertised n) approved))).

End routes.
End Routes.
