(* ===== verification/RoutesProps.v ===== *)
(** * Properties of route approval

    The rules that keep the routes of an organisation apart, as an invariant of
    every sequence of the requests that change devices' routes and resources, and
    what follows for the peer maps: no prefix is given to two routers. *)

From stdpp Require Import relations.
From S2P Require Import Prelude Text Net FlowReport Policy Ipam AclFilter ForwardFilter CoordAcl CoordProps CoordForward CoordForwardProps AclProps AppConnectors CoordRules Resources ResourcesProps Routes.

Module RoutesProps.
Import Resources ResourcesProps Routes.

(** ** The invariant *)

Definition parses (c : str) : Prop := ∃ x, parse_cidr c = Ok x.

(** No prefix of one list overlaps one of the other, default routes apart. *)
Definition apart (l k : list str) : Prop :=
  ∀ r s, r ∈ l → s ∈ k → is_default_route r = false → is_default_route s = false → cidrs_overlap r s = false.

Record RoutesInv (o : Org) : Prop := mkRoutesInv {
  inv_node_ids : NoDup (map on_id (org_nodes o));
  inv_resource_ids : NoDup (map nr_id (org_resources o));
  inv_advertised : ∀ n r, n ∈ org_nodes o → r ∈ on_advertised n → parses r;
  inv_approved : ∀ n, n ∈ org_nodes o → on_approved n ⊆ on_advertised n;
  inv_apart : ∀ n m, n ∈ org_nodes o → m ∈ org_nodes o → on_id n ≠ on_id m →
    on_revoked n = false → on_revoked m = false → apart (on_approved n) (on_approved m);
  inv_cidr : ∀ x c, x ∈ org_resources o → nr_cidr x = Some c → parses c;
  inv_free : ∀ n x c, n ∈ load_org_nodes o → x ∈ org_resources o → nr_cidr x = Some c → apart (on_approved n) [c];
  inv_nested : ∀ x y c d, x ∈ org_resources o → y ∈ org_resources o → nr_id x ≠ nr_id y →
    nr_cidr x = Some c → nr_cidr y = Some d → is_default_route c = false → is_default_route d = false →
    cidrs_overlap c d = true → c ≠ d ∧ (nr_allow_nested x = true ∨ nr_allow_nested y = true)
}.

Lemma apart_sym l k : apart l k → apart k l.
Proof. intros H r s Hr Hs Hdr Hds. rw cidrs_overlap_sym. by apply H. Qed.

Lemma apart_sub l l' k k' : apart l k → l' ⊆ l → k' ⊆ k → apart l' k'.
Proof. unfold apart. set_solver. Qed.

(** The revision, the policy and the connector tables do not matter. *)
Definition same_routes (o o' : Org) : Prop := org_nodes o' = org_nodes o ∧ org_resources o' = org_resources o.

Lemma inv_same o o' : same_routes o o' → RoutesInv o → RoutesInv o'.
Proof.
  intros [Hn Hr] [? ? ? ? ? ? Hfree ?]. unfold load_org_nodes in Hfree. constructor; unfold load_org_nodes; rewrite ?Hn ?Hr; done.
Qed.

Lemma inv_bump o : RoutesInv o → RoutesInv (bump o).
Proof. by apply inv_same. Qed.

(** ** Changes of the devices *)

Section nodes.
Context (o : Org) (f : OrgNode → OrgNode).
Hypothesis Hinv : RoutesInv o.
Hypothesis Hid : ∀ n, on_id (f n) = on_id n.
Hypothesis Hrev : ∀ n, on_revoked (f n) = false → on_revoked n = false.
Hypothesis Hdel : ∀ n, on_deleted (f n) = false → on_deleted n = false.
Hypothesis Hadv : ∀ n, n ∈ org_nodes o → on_approved (f n) ⊆ on_advertised (f n) ∧ ∀ r, r ∈ on_advertised (f n) → parses r.

Lemma inv_map_nodes :
  (∀ n m, n ∈ org_nodes o → m ∈ org_nodes o → on_id n ≠ on_id m → on_revoked (f n) = false → on_revoked (f m) = false →
     apart (on_approved (f n)) (on_approved (f m))) →
  (∀ n x c, n ∈ load_org_nodes o → x ∈ org_resources o → nr_cidr x = Some c → apart (on_approved (f n)) [c]) →
  RoutesInv (set_nodes o (map f (org_nodes o))).
Proof.
  intros Hapart Hfree. destruct Hinv. constructor; cbn [org_nodes org_resources set_nodes]; try done.
  - rw map_map. by rewrite (map_ext _ on_id).
  - intros n r (m & -> & Hm)%list_elem_of_fmap. by apply Hadv.
  - intros n (m & -> & Hm)%list_elem_of_fmap. by apply Hadv.
  - intros n m (n' & -> & Hn)%list_elem_of_fmap (m' & -> & Hm)%list_elem_of_fmap. rw !Hid. by apply Hapart.
  - intros n x c [(n' & -> & Hn)%list_elem_of_fmap [?%negb_true_iff ?%negb_true_iff]%andb_true_iff]%filter_elem.
    apply Hfree. apply filter_elem. unfold active. rw Hrev // Hdel //.
Qed.

(** Withdrawing approvals keeps everything. *)
Lemma inv_shrink :
  (∀ n, n ∈ org_nodes o → on_approved (f n) ⊆ on_approved n) → RoutesInv (set_nodes o (map f (org_nodes o))).
Proof.
  intros Hsub. apply inv_map_nodes.
  - intros n m Hn Hm Hne Hrn Hrm. eapply apart_sub; [apply (inv_apart o Hinv n m)| |]; auto.
  - intros n x c Hn Hx Hc. eapply apart_sub; [by eapply (inv_free o Hinv n x)| |done]. apply filter_elem in Hn as [? _]. auto.
Qed.
End nodes.

Lemma node_id_unique o n m : RoutesInv o → n ∈ org_nodes o → m ∈ org_nodes o → on_id n = on_id m → n = m.
Proof. intros Hinv. apply nodup_key, inv_node_ids, Hinv. Qed.

Lemma resource_id_unique o x y : RoutesInv o → x ∈ org_resources o → y ∈ org_resources o → nr_id x = nr_id y → x = y.
Proof. intros Hinv. apply nodup_key, inv_resource_ids, Hinv. Qed.

(** ** Validated routes *)

Lemma parse_shown a p : wf_ip a → 0 ≤ p ≤ width a → parse_cidr (show_ip a ++ lit "/" ++ dec p) = Ok (mask_addr a p, p).
Proof.
  intros Ha Hp. unfold parse_cidr. change (lit "/") with [47]. cbn [app]. rw split_once_app; [|apply show_ip_no_slash].
  cbn [ok_or result_bind]. rw trim_graphic; [|apply show_ip_graphic]. rw parse_show_ip; [|done].
  cbn [ok_or result_bind]. rw trim_graphic; [|apply dec_graphic; lia].
  unfold parse_u8. rw parse_uint_dec; [|destruct a; simpl in *; mlia]. cbn [ok_or result_bind].
  destruct (Z.ltb_spec (width a) p); [lia|done].
Qed.

Lemma parse_prefix_range k s p : parse_prefix k s = Some p → 0 ≤ p ≤ k.
Proof.
  unfold parse_prefix, parse_u8. intros (q & Hq & Hp)%bind_Some. apply parse_uint_bound in Hq; [|mlia..]. case_match; to_prop; simplify_eq. lia.
Qed.

(** What a canonical route is: the text of a network address and its prefix. *)
Lemma canonical_route_shown route c :
  canonical_route route = Ok c →
  ∃ a p, wf_ip a ∧ 0 ≤ p ≤ width a ∧ c = show_ip a ++ lit "/" ++ dec p ∧ is_ipv6 a = contains_char 58 route.
Proof.
  unfold canonical_route. destruct (contains_char 58 route) eqn:Hv6.
  - unfold canonical_ipv6_route. intros H. inv_ok. subst c. rename select (parse_ipv6 _ = _) into Ha.
    unfold parse_ipv6 in Ha. case_match; simplify_eq. case_match; simplify_eq.
    eexists (V6 _), _. split; [by eapply parse_ip_wf|]. split; [by eapply parse_prefix_range|]. done.
  - unfold canonical_ipv4_route. intros H. inv_ok. subst c. rename select (parse_ipv4 _ = _) into Ha.
    unfold parse_ipv4 in Ha. case_match; simplify_eq. case_match; simplify_eq.
    eexists (V4 _), _. split; [by eapply parse_ip_wf|]. split; [by eapply parse_prefix_range|]. done.
Qed.

Lemma elem_existsb {A} `{EqDecision A} (x : A) l : x ∈ l ↔ existsb (λ y, bool_decide (y = x)) l = true.
Proof. rw existsb_elem. setoid_rewrite bool_decide_eq_true. naive_solver. Qed.

Lemma extend_elem l xs x : x ∈ BTree.extend l xs ↔ x ∈ l ∨ x ∈ xs.
Proof. by rw !elem_existsb existsb_extend orb_true_iff. Qed.

Lemma collected_shown routes cs c :
  try_collect canonical_route routes = Ok cs → c ∈ BTree.extend [] cs →
  ∃ a p, wf_ip a ∧ 0 ≤ p ≤ width a ∧ c = show_ip a ++ lit "/" ++ dec p.
Proof.
  intros Ht%try_collect_ok Hc. apply extend_elem in Hc as [?%elem_of_nil|Hc]; [done|].
  apply list_elem_of_lookup in Hc as [i Hi]. destruct (Forall2_lookup_r _ _ _ _ _ Ht Hi) as (r & _ & Hr).
  apply canonical_route_shown in Hr as (a & p & Ha & Hp & -> & _). eauto.
Qed.

Lemma validated_inv routes rs :
  validate_advertised_routes routes = Ok rs →
  check_routes rs = Ok tt ∧ ∀ c, c ∈ rs → ∃ a p, wf_ip a ∧ 0 ≤ p ≤ width a ∧ c = show_ip a ++ lit "/" ++ dec p.
Proof.
  unfold validate_advertised_routes. intros H. inv_ok. subst rs. match goal with H : check_routes _ = Ok ?u |- _ => destruct u end. split; [done|].
  intros c. by eapply collected_shown.
Qed.

Lemma validated_parses routes rs c : validate_advertised_routes routes = Ok rs → c ∈ rs → parses c.
Proof. intros [_ Hv]%validated_inv (a & p & Ha & Hp & ->)%Hv. eexists. by apply parse_shown. Qed.

(** ** The requests *)

Definition with_routes_keeps (f : OrgNode → OrgNode) : Prop :=
  ∀ n, on_id (f n) = on_id n ∧ on_revoked (f n) = on_revoked n ∧ on_deleted (f n) = on_deleted n.

Lemma free_apart o approved x c :
  ensure_routes_free o approved = Ok tt → x ∈ org_resources o → nr_cidr x = Some c → apart approved [c].
Proof.
  unfold ensure_routes_free. rw try_each_ok Forall_forall. intros Hf Hx Hc r s Hr ->%list_elem_of_singleton Hdr Hdc.
  specialize (Hf r ltac:(by apply filter_elem; rw Hdr)). cbn beta in Hf. destruct (List.find _ _) eqn:Hfind; [done|].
  pose proof (find_none_elem _ _ x Hfind ltac:(by apply load_resources_elem)) as Hn. cbn beta in Hn. rw Hc Hdc in Hn. done.
Qed.

(** Nothing that was approved for device [id] in [before] has been withdrawn in [o]. *)
Definition nothing_withdrawn (before o : Org) (id : Uuid) : Prop :=
  ∀ n m, n ∈ org_nodes before → m ∈ org_nodes o → on_id n = id → on_id m = id → on_approved n ⊆ on_approved m.

Lemma read_advertisement_inv sha before node_id token routes at_ a :
  read_advertisement sha before node_id token routes at_ = Ok a →
  ad_node a = node_id ∧ validate_advertised_routes routes = Ok (ad_routes a) ∧ ad_retained a ⊆ ad_routes a ∧
  ∃ n, n ∈ org_nodes before ∧ on_id n = node_id ∧ ad_retained a ⊆ on_approved n.
Proof.
  unfold read_advertisement. intros H. inv_ok. subst a. cbn [ad_node ad_routes ad_retained].
  rename select (List.find _ _ = Some _) into Hf. apply find_elem in Hf as [Hin Hf]. to_prop.
  split_and!; [done|done|by intros r [_ Hr%bool_decide_eq_true]%filter_elem|].
  eexists. split_and!; [exact Hin|done|]. by intros r [Hr _]%filter_elem.
Qed.

Lemma advertise_inv sha before o node_id token routes at_ o' :
  RoutesInv o → nothing_withdrawn before o node_id →
  update_advertised_routes sha before o node_id token routes at_ = Ok o' → RoutesInv o'.
Proof.
  intros Hinv Hkeep H. unfold update_advertised_routes in H. inv_ok. subst o'.
  rename select (read_advertisement _ _ _ _ _ _ = _) into Hread.
  apply read_advertisement_inv in Hread as (<- & Hval & Hsub & k & Hk & Hkid & Hret).
  unfold write_advertisement. destruct (existsb _ _); [|done].
  apply inv_bump. apply inv_shrink; [done|intros n; by destruct (bool_decide (on_id n = _))..| |].
  - intros n Hn. destruct (bool_decide (on_id n = _)); [|split; [by apply Hinv|by intros r; apply (inv_advertised o Hinv n)]]. simpl.
    split; [done|]. intros r Hr. by eapply validated_parses.
  - intros n Hn. destruct (bool_decide (on_id n = _)) eqn:Hid; [|done]. to_prop. simpl. etransitivity; [exact Hret|]. by apply Hkeep.
Qed.

(** Approving routes that were advertised, are free of resources and are apart from
    the approvals of every other device. *)
Lemma grant_inv o id approved :
  RoutesInv o → (∀ n, n ∈ org_nodes o → on_id n = id → approved ⊆ on_advertised n) →
  (∀ m, m ∈ org_nodes o → on_id m ≠ id → on_revoked m = false → apart approved (on_approved m)) →
  ensure_routes_free o approved = Ok tt →
  RoutesInv (write_routes o id (λ n, with_routes n (on_advertised n) approved)).
Proof.
  intros Hinv Hadv Hothers Hfree. apply inv_map_nodes; [done|intros n; by destruct (bool_decide (on_id n = _))..| | |].
  - intros n Hn. destruct (bool_decide (on_id n = id)) eqn:Hid; to_prop; simpl; (split; [|by intros r; apply (inv_advertised o Hinv n)]).
    + by apply Hadv.
    + by apply Hinv.
  - intros n m Hn Hm Hne. destruct (bool_decide (on_id n = id)) eqn:Hn', (bool_decide (on_id m = id)) eqn:Hm'; to_prop; simpl.
    + congruence.
    + intros _ Hr. by apply Hothers.
    + intros Hr _. by apply apart_sym, Hothers.
    + by apply (inv_apart o Hinv).
  - intros n x c Hn Hx Hc. destruct (bool_decide (on_id n = id)); [by eapply free_apart|by eapply (inv_free o Hinv)].
Qed.

Lemma yield_sub approved n : on_approved (yield_routes approved n) ⊆ on_approved n.
Proof. intros r [Hr _]%filter_elem. done. Qed.

Lemma yield_apart approved n : apart approved (on_approved (yield_routes approved n)).
Proof.
  intros r s Hr [_ Hs]%filter_elem Hdr Hds. rw Hds in Hs. apply negb_true_iff in Hs.
  rw existsb_false in Hs. rw cidrs_overlap_sym. apply Hs. apply filter_elem. by rw Hdr.
Qed.

Lemma approve_inv o session node_id input at_ o' :
  RoutesInv o → approve_node_routes o session node_id input at_ = Ok o' → RoutesInv o'.
Proof.
  intros Hinv H. unfold approve_node_routes in H. inv_ok. subst o'.
  rename select (find_node _ _ _ = Some _) into Hf. apply find_elem in Hf as [Hin Hf]. to_prop. subst node_id.
  rename select (validate_advertised_routes _ = _) into Hval. rename x0 into approved. rename x1 into node.
  match goal with H : ensure_routes_free _ _ = Ok ?u |- _ => destruct u; rename H into Hfree end.
  rename select (existsb _ approved = false) into Hadv. rw existsb_false in Hadv.
  apply inv_bump. set (y := λ n, if negb (bool_decide (on_id n = on_id node)) && negb (on_revoked n) && (on_expires n <=? at_)
                 then yield_routes approved n else n).
  assert (RoutesInv (set_nodes o (map y (org_nodes o)))) as Hinv'.
  { apply inv_shrink; [done|intros n; unfold y; by destruct (_ && (on_expires n <=? at_))..| |].
    - intros n Hn. unfold y. destruct (_ && (on_expires n <=? at_)); (split; [|by intros r; apply (inv_advertised o Hinv n)]);
        [etransitivity; [apply yield_sub|]|]; by apply (inv_approved o Hinv n).
    - intros n Hn. unfold y. destruct (_ && (on_expires n <=? at_)); [apply yield_sub|done]. }
  apply grant_inv; [done| | |].
  - intros n (m & -> & Hm)%list_elem_of_fmap Hid. assert (on_id m = on_id node) as Hmid.
    { revert Hid. unfold y. by destruct (_ && (on_expires m <=? at_)). }
    rw (node_id_unique o m node Hinv Hm Hin Hmid). intros r Hr. specialize (Hadv r Hr). cbn beta in Hadv. to_prop.
    unfold y. by destruct (_ && (on_expires node <=? at_)).
  - intros n (m & -> & Hm)%list_elem_of_fmap. unfold y.
    destruct (_ && (on_expires m <=? at_)) eqn:Hy; intros Hid Hr; [apply yield_apart|].
    rw bool_decide_false // Hr /= in Hy. apply Z.leb_gt in Hy. intros r s Hr' Hs Hdr Hds.
    destruct (List.find _ approved) eqn:Hfind; [done|]. pose proof (find_none_elem _ _ r Hfind Hr') as Hn. cbn beta in Hn.
    rw Hdr /= existsb_false in Hn. apply Hn, filter_elem. rw Hds. split; [|done]. apply flat_map_elem. exists m. split; [|done].
    apply filter_elem. split; [|lia]. apply filter_elem. split; [done|]. rw bool_decide_false // Hr //.
  - done.
Qed.

(** ** Changes of the resources *)

Lemma overlaps_checked o p exclude c :
  check_overlaps o p exclude = Ok tt → pr_cidr p = Some c → is_default_route (cc_cidr c) = false →
  (∀ x d, x ∈ org_resources o → Some (nr_id x) ≠ exclude → nr_cidr x = Some d → is_default_route d = false →
     cidrs_overlap (cc_cidr c) d = true → d ≠ cc_cidr c ∧ pr_allow_nested p = true) ∧
  (∀ n, n ∈ load_org_nodes o → apart (on_approved n) [cc_cidr c]).
Proof.
  unfold check_overlaps. intros H Hc Hd. rw Hc Hd in H. destruct (overlap_conflicts _ _ _ _) as [|k ks] eqn:Hk; [|done]. clear H.
  assert (∀ k, k ∉ overlap_conflicts o (cc_cidr c) (pr_allow_nested p) exclude) as Hno by (rw Hk; intros ? ?%elem_of_nil; done).
  clear Hk. unfold overlap_conflicts in Hno. split.
  - intros x d Hx Hex Hxd Hdd Ho. apply dec_stable. intros Hneg. apply (Hno (nr_name x, d)), elem_of_app. left.
    apply list_elem_of_omap. exists x. split; [by apply load_resources_elem|]. rw bool_decide_false // Hxd Hdd Ho. cbn [orb negb].
    destruct (bool_decide (d = cc_cidr c)) eqn:Hdc; [done|]. to_prop. destruct (pr_allow_nested p); [|done]. naive_solver.
  - intros n Hn r s Hr ->%list_elem_of_singleton Hdr Hds. rw cidrs_overlap_sym. apply not_true_iff_false. intros Ho.
    apply (Hno (label n, r)), elem_of_app. right. apply flat_map_elem. exists n. split; [done|]. apply list_elem_of_fmap.
    exists r. split; [done|]. apply filter_elem. by rw Hdr Ho.
Qed.

(** Fewer resources, and at most one new one that passed the checks. *)
Lemma inv_put o p z exclude rs sha v :
  RoutesInv o → check_overlaps o p exclude = Ok tt → nr_cidr z = cc_cidr <$> pr_cidr p →
  nr_allow_nested z = pr_allow_nested p →
  (∀ c, pr_cidr p = Some c → canonical_cidr sha v (org_id o) = Ok c) →
  NoDup (map nr_id rs) → (∀ x, x ∈ rs → x = z ∨ x ∈ org_resources o ∧ nr_id x ≠ nr_id z ∧ Some (nr_id x) ≠ exclude) →
  RoutesInv (set_resources o rs).
Proof.
  intros Hinv Hover Hz Hnest Hcan Hnd Hrs.
  assert (∀ c, nr_cidr z = Some c → ∃ cc, pr_cidr p = Some cc ∧ c = cc_cidr cc) as Hzc.
  { intros c. rw Hz. intros (cc & ? & ->)%fmap_Some. eauto. }
  destruct Hinv as [Hids _ Hadv Happ Hap Hcidr Hfree Hnested].
  constructor; cbn [org_nodes org_resources set_resources]; try done.
  - intros x c [->|[Hx _]]%Hrs Hc; [|by eapply Hcidr]. apply Hzc in Hc as (cc & Hcc & ->). by eapply canonical_parses, Hcan.
  - intros n x c Hn [->|[Hx _]]%Hrs Hc; [|by eapply Hfree]. apply Hzc in Hc as (cc & Hcc & ->).
    destruct (is_default_route (cc_cidr cc)) eqn:Hd; [intros r s Hr ->%list_elem_of_singleton; congruence|].
    by eapply (overlaps_checked o p exclude cc Hover Hcc Hd).
  - intros x y c d Hx Hy Hne Hc Hd Hdc Hdd Ho. apply Hrs in Hx as [->|(Hx & Hxz & Hxe)], Hy as [->|(Hy & Hyz & Hye)].
    + done.
    + apply Hzc in Hc as (cc & Hcc & ->). destruct (overlaps_checked o p exclude cc Hover Hcc Hdc) as [H _].
      destruct (H y d Hy Hye Hd Hdd Ho) as [? ?]. rw Hnest. split; [congruence|by left].
    + apply Hzc in Hd as (cc & Hcc & ->). destruct (overlaps_checked o p exclude cc Hover Hcc Hdd) as [H _].
      rw cidrs_overlap_sym in Ho. destruct (H x c Hx Hxe Hc Hdc Ho) as [? ?]. rw Hnest. split; [congruence|by right].
    + by eapply (Hnested x y).
Qed.

Lemma prepared_canonical sha input org session acl nodes existing p :
  prepare sha input org session acl nodes existing = Ok p →
  ∃ v, ∀ c, pr_cidr p = Some c → canonical_cidr sha v org = Ok c.
Proof.
  intros Hp. destruct (pr_cidr p) as [c|] eqn:Hc; [|by exists []].
  destruct (prepared_cidr _ _ _ _ _ _ _ _ _ Hp Hc) as (v & _ & Hv & _). exists v. by intros ? [= <-].
Qed.

Lemma load_resource_elem o id r : load_resource o id = Some r → r ∈ org_resources o ∧ nr_id r = id.
Proof. intros [? ?%bool_decide_eq_true]%find_elem. done. Qed.

Lemma create_tx_inv sha o session input id at_ o' :
  RoutesInv o → create_in_tx sha o session input id at_ = Ok o' → RoutesInv o'.
Proof.
  intros Hinv H. unfold create_in_tx in H. inv_ok. subst o'. rename select (prepare _ _ _ _ _ _ _ = _) into Hp.
  destruct (prepared_canonical _ _ _ _ _ _ _ _ Hp) as [v Hv]. to_prop.
  match goal with H : check_overlaps _ _ _ = Ok ?u |- _ => destruct u; rename H into Hover end.
  assert (∀ y, y ∈ org_resources o → nr_id y ≠ id) as Hfresh.
  { intros y Hy <-. rename select (¬ is_Some _) into Hn. apply Hn. destruct (load_resource o (nr_id y)) eqn:Hl; [done|].
    pose proof (find_none_elem _ _ _ Hl Hy) as Hb. cbn beta in Hb. by rw bool_decide_true in Hb. }
  eapply (inv_put o _ (stored id _ 1 at_ at_) None); [done|exact Hover|done|done|exact Hv| |].
  - rw map_app. apply NoDup_app. split_and!; [apply Hinv| |apply NoDup_singleton].
    intros k (y & -> & Hy)%list_elem_of_fmap Hk%list_elem_of_singleton. by eapply Hfresh.
  - intros y [Hy| ->%list_elem_of_singleton]%elem_of_app; [|by left]. right. split_and!; [done|by apply Hfresh|done].
Qed.

Lemma update_tx_inv sha o id session input at_ o' :
  RoutesInv o → update_in_tx sha o id session input at_ = Ok o' → RoutesInv o'.
Proof.
  intros Hinv H. unfold update_in_tx in H. inv_ok. subst o'. rename select (prepare _ _ _ _ _ _ _ = _) into Hp.
  destruct (prepared_canonical _ _ _ _ _ _ _ _ Hp) as [v Hv].
  match goal with H : check_overlaps _ _ _ = Ok ?u |- _ => destruct u; rename H into Hover end.
  rename select (load_resource _ _ = _) into Hl. apply load_resource_elem in Hl as [Hcur <-]. rename x0 into current, x1 into p.
  eapply (inv_put o p (stored (nr_id current) p (nr_revision current + 1) (nr_created_at current) at_) (Some (nr_id current)));
    [done|exact Hover|done|done|exact Hv| |].
  - rw map_map. rewrite (map_ext _ nr_id); [|intros r; by destruct (bool_decide (nr_id r = _)) eqn:Hb, (nr_revision r =? _); to_prop].
    apply Hinv.
  - intros y (r & -> & Hr)%list_elem_of_fmap. destruct (bool_decide (nr_id r = nr_id current)) eqn:Hb; to_prop; cbn [andb].
    + rw (resource_id_unique o r current Hinv Hr Hcur Hb) Z.eqb_refl. by left.
    + right. split_and!; [done|done|congruence].
Qed.

Lemma delete_tx_inv sha o id tag o' : RoutesInv o → delete_in_tx sha o id tag = Ok o' → RoutesInv o'.
Proof.
  intros Hinv H. unfold delete_in_tx in H. inv_ok. subst o'. destruct Hinv as [? Hnd ? ? ? ? ? ?].
  assert (∀ x, x ∈ List.filter (λ r, negb (bool_decide (nr_id r = id))) (org_resources o) → x ∈ org_resources o) as Hsub
    by (intros y [? _]%filter_elem; done).
  constructor; cbn [org_nodes org_resources set_resources]; eauto.
  by apply nodup_filter_key.
Qed.

Lemma deletes_inv sha keep live o o' : RoutesInv o → draft_deletes sha keep live o = Ok o' → RoutesInv o'.
Proof.
  revert o; induction live as [|r live IH]; intros o Hinv; simpl; [by intros [= <-]|].
  case_bool_decide; [by apply IH|]. intros (o1 & H1 & H2)%bind_ok. eapply IH; [|exact H2]. by eapply delete_tx_inv.
Qed.

Lemma updates_inv sha live session at_ wanted o o' : RoutesInv o → draft_updates sha live session at_ wanted o = Ok o' → RoutesInv o'.
Proof.
  revert o; induction wanted as [|[[id|] input] wanted IH]; intros o Hinv; simpl; [by intros [= <-]| |by apply IH].
  intros (c & _ & H)%bind_ok. case_bool_decide; [by eapply IH|]. apply bind_ok in H as (o1 & H1 & H2).
  eapply IH; [|exact H2]. by eapply update_tx_inv.
Qed.

Lemma creates_inv sha ids session at_ wanted o o' : RoutesInv o → draft_creates sha ids session at_ wanted o = Ok o' → RoutesInv o'.
Proof.
  revert o ids; induction wanted as [|[[id|] input] wanted IH]; intros o ids Hinv; simpl; [by intros [= <-]|by apply IH|].
  intros (o1 & H1 & H2)%bind_ok. eapply IH; [|exact H2]. by eapply create_tx_inv.
Qed.

Lemma draft_inv sha o session wanted ids at_ o' : RoutesInv o → apply_draft_tx sha o session wanted ids at_ = Ok o' → RoutesInv o'.
Proof.
  intros Hinv H. unfold apply_draft_tx in H. inv_ok. eapply creates_inv; [|eassumption]. eapply updates_inv; [|eassumption].
  by eapply deletes_inv.
Qed.

(** ** Reachable tables *)

(** The requests of devices and the console, not the automation API's approvals
    ([api_approval_overlaps]).  An advertisement is written from a row read earlier,
    from any tables [before]; between the read and the write no approval is withdrawn
    from that device ([stale_advertisement_overlaps] has one withdrawn).  The last
    three rules are the requests not modelled here: a device joins with validated routes and no approvals; a
    device's other columns change, where revocation and deletion are final; policy
    and connector tables change. *)
Inductive step (sha : bytes → bytes) : Org → Org → Prop :=
| step_advertise before o node_id token routes at_ o' :
    nothing_withdrawn before o node_id →
    update_advertised_routes sha before o node_id token routes at_ = Ok o' → step sha o o'
| step_approve o session node_id input at_ o' : approve_node_routes o session node_id input at_ = Ok o' → step sha o o'
| step_create o session input id at_ o' : create sha o session input id at_ = Ok o' → step sha o o'
| step_update o id session input at_ o' : update sha o id session input at_ = Ok o' → step sha o o'
| step_delete o id header o' : delete sha o id header = Ok o' → step sha o o'
| step_draft o session wanted ids at_ o' : apply_draft_tx sha (bump o) session wanted ids at_ = Ok o' → step sha o o'
| step_join o n routes :
    validate_advertised_routes routes = Ok (on_advertised n) → on_approved n = [] → on_id n ∉ map on_id (org_nodes o) →
    step sha o (set_nodes o (org_nodes o ++ [n]))
| step_device o f :
    (∀ n, on_id (f n) = on_id n ∧ on_advertised (f n) = on_advertised n ∧ on_approved (f n) = on_approved n) →
    (∀ n, on_revoked (f n) = false → on_revoked n = false) → (∀ n, on_deleted (f n) = false → on_deleted n = false) →
    step sha o (set_nodes o (map f (org_nodes o)))
| step_other o o' : same_routes o o' → step sha o o'.

Definition initial (o : Org) : Prop := org_nodes o = [] ∧ org_resources o = [].

Lemma join_inv o n routes :
  RoutesInv o → validate_advertised_routes routes = Ok (on_advertised n) → on_approved n = [] → on_id n ∉ map on_id (org_nodes o) →
  RoutesInv (set_nodes o (org_nodes o ++ [n])).
Proof.
  intros Hinv Hval Hnone Hfresh.
  assert (∀ l, apart [] l) as Hl by (intros l ? ? ?%elem_of_nil; done).
  assert (∀ l, apart l []) as Hl' by (intros l; by apply apart_sym).
  constructor; cbn [org_nodes org_resources set_nodes]; try apply Hinv.
  - rw map_app. apply NoDup_app. split_and!; [apply Hinv| |apply NoDup_singleton]. by intros k Hk ->%list_elem_of_singleton.
  - intros m r [Hm| ->%list_elem_of_singleton]%elem_of_app Hr; [by eapply (inv_advertised o Hinv)|by eapply validated_parses].
  - intros m [Hm| ->%list_elem_of_singleton]%elem_of_app; [by apply (inv_approved o Hinv)|rw Hnone; apply list_subseteq_nil].
  - intros m k [Hm| ->%list_elem_of_singleton]%elem_of_app [Hk| ->%list_elem_of_singleton]%elem_of_app;
      [by apply (inv_apart o Hinv)|rw Hnone; done..].
  - intros m x c [[Hm| ->%list_elem_of_singleton]%elem_of_app Ha]%filter_elem; [|by rw Hnone].
    apply (inv_free o Hinv). by apply filter_elem.
Qed.

Lemma org_step_inv sha o o' : RoutesInv o → step sha o o' → RoutesInv o'.
Proof.
  intros Hinv Hstep. destruct Hstep.
  - exact (advertise_inv _ _ _ _ _ _ _ _ Hinv H H0).
  - exact (approve_inv _ _ _ _ _ _ Hinv H).
  - unfold create in *. inv_ok. subst. destruct (in_dry_run input); [done|]. eapply create_tx_inv; [by apply inv_bump|eassumption].
  - unfold update in *. inv_ok. subst. destruct (in_dry_run input); [done|]. eapply update_tx_inv; [by apply inv_bump|eassumption].
  - exact (delete_tx_inv _ _ _ _ _ (inv_bump o Hinv) H).
  - exact (draft_inv _ _ _ _ _ _ _ (inv_bump o Hinv) H).
  - exact (join_inv _ _ _ Hinv H H0 H1).
  - apply inv_shrink; [done|intros n; naive_solver..| |].
    + intros n Hn. destruct (H n) as (_ & -> & ->). split; [by apply (inv_approved o Hinv)|by intros r; apply (inv_advertised o Hinv n)].
    + intros n Hn. by destruct (H n) as (_ & _ & ->).
  - by eapply inv_same.
Qed.

Lemma initial_inv o : initial o → RoutesInv o.
Proof.
  intros [Hn Hr]. constructor; unfold load_org_nodes; rw ?Hn ?Hr; try (by constructor);
    intros; by (exfalso; eapply not_elem_of_nil).
Qed.

Lemma org_reachable_inv sha o o' : initial o → rtc (step sha) o o' → RoutesInv o'.
Proof. intros Hi%initial_inv Hsteps. induction Hsteps; [done|]. eauto using org_step_inv. Qed.


(** The prefixes the peer maps may hold for a router: its approved routes and the
    resource routes it carries. *)
Definition router_prefixes (o : Org) (d : Distribution) (n : OrgNode) : list str :=
  List.filter (λ p, negb (is_default_route p)) (on_approved n ++ carried_by d (on_id n)).

Lemma carried_elem d u p : p ∈ carried_by d u ↔ ∃ a, a ∈ routes d ∧ ar_router a = u ∧ ar_cidr a = p.
Proof.
  unfold carried_by. rw list_elem_of_fmap. setoid_rewrite filter_elem. setoid_rewrite bool_decide_eq_true. naive_solver.
Qed.

Lemma approved_protected o n p : n ∈ load_org_nodes o → p ∈ on_approved n → is_default_route p = false → p ∈ protected_of o.
Proof.
  intros Hn Hp Hd. apply filter_elem. rw Hd. split; [|done]. apply elem_of_app. right. apply flat_map_elem. eauto.
Qed.

(** An approved route is carried by nobody else. *)
Lemma approved_not_carried o t at_ n p :
  RoutesInv o → n ∈ load_org_nodes o → p ∈ on_approved n → is_default_route p = false →
  ∀ u, p ∉ carried_by (load_distribution o t at_) u.
Proof.
  intros Hinv Hn Hp Hd u (a & Ha & _ & <-)%carried_elem. pose proof Hn as [Hn' _]%filter_elem.
  destruct (inv_advertised o Hinv n (ar_cidr a) Hn') as [x Hx]; [by apply (inv_approved o Hinv n Hn')|].
  destruct (distribution_routes o t at_) as (hosts & Hr & Hprot & _ & _).
  apply Hr in Ha as [Ha|(r & c & v & Hin & _ & _ & Hc & _ & ->)].
  - pose proof (Hprot a _ Ha (approved_protected o n _ Hn Hp Hd)) as Hw. by rw (cidr_within_refl _ _ Hx) in Hw.
  - cbn [cidr_route ar_cidr] in *. pose proof (inv_free o Hinv n r c Hn Hin Hc c c Hp (list_elem_of_here _ _) Hd Hd) as Ho.
    by rw (cidrs_overlap_refl _ _ Hx) in Ho.
Qed.

Lemma carried_once o t at_ u v p :
  RoutesInv o → is_default_route p = false →
  p ∈ carried_by (load_distribution o t at_) u → p ∈ carried_by (load_distribution o t at_) v → u = v.
Proof.
  intros Hinv Hd (a & Ha & <- & <-)%carried_elem (b & Hb & <- & Heq)%carried_elem.
  destruct (distribution_routes o t at_) as (hosts & Hr & Hprot & Hone & _).
  assert (∀ h r c w, h ∈ hosts → r ∈ org_resources o → nr_enabled r = true → nr_cidr r = Some c → is_default_route c = false →
    ar_cidr h ≠ ar_cidr (cidr_route r c w)) as Hhost.
  { intros h r c w Hh Hin He Hc Hdc Hhc. destruct (inv_cidr o Hinv r c Hin Hc) as [x Hx].
    pose proof (Hprot h c Hh (enabled_protected o r c Hin He Hc Hdc)) as Hw. rw Hhc /= (cidr_within_refl _ _ Hx) // in Hw. }
  apply Hr in Ha as [Ha|(r & c & w & Hin & He & _ & Hc & Hu & ->)], Hb as [Hb|(r' & c' & w' & Hin' & He' & _ & Hc' & Hu' & ->)].
  - by apply Hone.
  - exfalso. eapply (Hhost a r' c' w'); [done..| |done]. by rw -Heq in Hd.
  - exfalso. eapply (Hhost b r c w); done.
  - cbn [cidr_route ar_cidr ar_router] in *. subst c'. destruct (decide (nr_id r = nr_id r')) as [Hid|Hid].
    + rw (resource_id_unique o r r' Hinv Hin Hin' Hid) in Hu. congruence.
    + destruct (inv_cidr o Hinv r c Hin Hc) as [x Hx].
      by destruct (inv_nested o Hinv r r' c c Hin Hin' Hid Hc Hc' Hd Hd (cidrs_overlap_refl _ _ Hx)).
Qed.


(** ** A concrete history *)

Definition no_digest : bytes → bytes := λ _, [].

Definition empty_org : Org := mkOrg (lit "org") sample_policy [] [] [] [] 0.

Definition router_a : OrgNode := sample_node (lit "a") [Store] [lit "10.0.0.0/24"; lit "192.168.0.0/16"] [] [].
Definition router_b : OrgNode := sample_node (lit "b") [Store] [lit "10.0.0.0/24"] [] [].

Definition joined : Org := set_nodes (set_nodes empty_org [router_a]) [router_a; router_b].

Definition network_admin : Session := mkSession (lit "nina") NetworkAdmin.

(** After [a]'s approval. *)
Definition approved_a : Org :=
  match approve_node_routes joined network_admin (lit "node-a") [lit "10.0.0.0/24"] 1000 with Ok o => o | Err _ => joined end.

(** [b] advertises one more prefix; its row was read before [a]'s approval. *)
Definition advertised_b : Org :=
  match update_advertised_routes no_digest joined approved_a (lit "node-b") (on_token_hash router_b)
          [lit "172.16.0.0/12"; lit "10.0.0.0/24"] 1000 with
  | Ok o => o | Err _ => approved_a
  end.

Definition office : ResourceInput :=
  mkResourceInput (lit "Office") [] (Some (lit "192.168.7.0/24")) None [] [] [mkRoutingPeer (lit "node-a") 100] sample_access
    true false false None None false.

Definition with_office : Org :=
  match create no_digest advertised_b network_admin office (lit "office") 1000 with Ok o => o | Err _ => advertised_b end.

Lemma nothing_approved_before : nothing_withdrawn joined approved_a (lit "node-b").
Proof.
  intros n m Hn _ _ _. vm_compute in Hn.
  repeat (apply elem_of_cons in Hn as [->|Hn]; [intros r Hr; vm_compute in Hr; by apply elem_of_nil in Hr|]). by apply elem_of_nil in Hn.
Qed.

Lemma sample_history : rtc (step no_digest) empty_org with_office.
Proof.
  eapply rtc_l; [apply (step_join _ _ router_a (on_advertised router_a)); [vm_compute; reflexivity|reflexivity|apply not_elem_of_nil]|].
  eapply rtc_l; [apply (step_join _ _ router_b (on_advertised router_b)); [vm_compute; reflexivity|reflexivity|]|].
  { intros H. vm_compute in H. apply list_elem_of_singleton in H. discriminate. }
  eapply (rtc_l _ _ approved_a); [apply (step_approve _ _ network_admin (lit "node-a") [lit "10.0.0.0/24"] 1000); vm_compute; reflexivity|].
  eapply (rtc_l _ _ advertised_b).
  { apply (step_advertise _ joined _ (lit "node-b") (on_token_hash router_b) [lit "172.16.0.0/12"; lit "10.0.0.0/24"] 1000);
      [apply nothing_approved_before|vm_compute; reflexivity]. }
  apply rtc_once. apply (step_create _ _ network_admin office (lit "office") 1000). vm_compute. reflexivity.
Defined.



(** Two devices with one approved prefix. *)
Lemma shared_prefix_breaks o n m p :
  org_nodes o = [n; m] → on_id n ≠ on_id m → on_revoked n = false → on_revoked m = false →
  p ∈ on_approved n → p ∈ on_approved m → is_default_route p = false → cidrs_overlap p p = true → ¬ RoutesInv o.
Proof.
  intros Ho Hne Hn Hm Hpn Hpm Hd Hp Hinv.
  pose proof (inv_apart o Hinv n m ltac:(rw Ho; by left) ltac:(rw Ho; by right; left) Hne Hn Hm p p Hpn Hpm Hd Hd). congruence.
Qed.

(** The automation API skips the test against the other routers: it approves for [b]
    the route [a] has, which the console refuses, and both devices then hold it. *)
Theorem api_approval_overlaps :
  approve_node_routes approved_a network_admin (lit "node-b") [lit "10.0.0.0/24"] 1000 = Err (OverlapsRouter (lit "10.0.0.0/24")) ∧
  ∃ o, api_approve_routes approved_a true (lit "node-b") [lit "10.0.0.0/24"] = Ok o ∧
    map on_approved (load_org_nodes o) = [[lit "10.0.0.0/24"]; [lit "10.0.0.0/24"]] ∧ ¬ RoutesInv o.
Proof.
  split; [vm_compute; reflexivity|]. eexists. split; [vm_compute; reflexivity|]. split; [vm_compute; reflexivity|].
  eapply (shared_prefix_breaks _ _ _ (lit "10.0.0.0/24")); [reflexivity|vm_compute; congruence| | | | | |];
    first [reflexivity|apply list_elem_of_here].
Qed.

(** [a]'s approval is withdrawn and the prefix approved for [b]. *)
Definition moved_to_b : Org :=
  match approve_node_routes approved_a network_admin (lit "node-a") [] 1000 with
  | Ok o => match approve_node_routes o network_admin (lit "node-b") [lit "10.0.0.0/24"] 1000 with Ok o' => o' | Err _ => o end
  | Err _ => approved_a
  end.

(** An advertisement of [a] whose row was read before the prefix moved to [b] gives
    it back to [a]: both devices then hold it, although no request was refused. *)
Theorem stale_advertisement_overlaps :
  map on_approved (load_org_nodes moved_to_b) = [[]; [lit "10.0.0.0/24"]] ∧
  ∃ o, update_advertised_routes no_digest approved_a moved_to_b (lit "node-a") (on_token_hash router_a) [lit "10.0.0.0/24"] 1000 = Ok o ∧
    map on_approved (load_org_nodes o) = [[lit "10.0.0.0/24"]; [lit "10.0.0.0/24"]] ∧ ¬ RoutesInv o.
Proof.
  split; [vm_compute; reflexivity|]. eexists. split; [vm_compute; reflexivity|]. split; [vm_compute; reflexivity|].
  eapply (shared_prefix_breaks _ _ _ (lit "10.0.0.0/24")); [reflexivity|vm_compute; congruence| | | | | |];
    first [reflexivity|apply list_elem_of_here].
Qed.

(** ** Validation is total *)

Section shown.
Context (a p : Z).
Hypothesis Ha : is_u32 a.
Hypothesis Hp : 0 ≤ p ≤ 32.

Definition shown_v4 : str := show_ip (V4 a) ++ lit "/" ++ dec p.

Lemma parse_validated_shown : parse_validated shown_v4 = Ok (a, p).
Proof.
  unfold parse_validated, shown_v4. change (lit "/") with [47]. cbn [app]. rw split_once_app; [|apply show_ip_no_slash].
  cbn [mbind option_bind]. unfold parse_ipv4. rw (parse_show_ip (V4 a)); [|done]. cbn [mbind option_bind].
  unfold parse_u8. by rw parse_uint_dec; [|mlia].
Qed.

Lemma within_total R n k : parse_validated R = Ok (n, k) → ∃ b, ipv4_route_is_within shown_v4 R = Ok b.
Proof. intros HR. unfold ipv4_route_is_within. rw parse_validated_shown /= HR /=. eauto. Qed.

Lemma overlap_total R n k : parse_validated R = Ok (n, k) → ∃ b, ipv4_routes_overlap shown_v4 R = Ok b.
Proof. intros HR. unfold ipv4_routes_overlap. rw parse_validated_shown /= HR /=. eauto. Qed.

(** The comparison of texts agrees with [cidr_within]. *)
Lemma within_sound R n k :
  is_u32 n → 0 ≤ k ≤ 32 → parse_validated R = Ok (n, k) → parse_cidr R = Ok (V4 n, k) →
  ipv4_route_is_within shown_v4 R = Ok true → cidr_within shown_v4 R = true.
Proof.
  intros Hn Hk HR HR'. unfold ipv4_route_is_within. rw parse_validated_shown /= HR /=. intros Hok. inv_ok. to_prop.
  rename select (k ≤ p) into Hle. rename select (Z.land a _ = _) into Hland.
  unfold cidr_within. pose proof (parse_shown (V4 a) p Ha Hp) as Hc. change (show_ip (V4 a) ++ lit "/" ++ dec p) with shown_v4 in Hc.
  rw Hc HR'. cbn [mask_addr is_ipv4 Bool.eqb]. rw (proj2 (Z.leb_le k p) Hle). unfold cidrs_overlap, pools_overlap.
  rw Hc HR' /=. apply orb_true_intro. right. apply Z.eqb_eq.
  assert (0 ≤ a < 2 ^ 32) as Ha' by mlia. assert (0 ≤ n < 2 ^ 32) as Hn' by mlia.
  pose proof (mask_value_bound 32 p a Hp Ha') as Hm.
  apply mask_value_eq; [lia..|]. transitivity (a / 2 ^ (32 - k)).
  - symmetry. apply (mask_value_eq 32 k a n); [lia..|]. exact Hland.
  - apply (IpamProps.div_coarser 32 p k); [lia..|]. rw mask_value_div //. rw Z.div_mul //. apply Z.pow_nonzero; lia.
Qed.
End shown.

Lemma shown_colon a p : wf_ip a → 0 ≤ p → contains_char 58 (show_ip a ++ lit "/" ++ dec p) = is_ipv6 a.
Proof.
  intros Ha Hp. rw -contains_colon //. unfold contains_char. rw !existsb_app.
  assert (existsb (Z.eqb 58) (dec p) = false) as ->; [|change (existsb (Z.eqb 58) (lit "/")) with false; by rw !orb_false_r].
  apply existsb_false. intros c Hc. pose proof (dec_digits p Hp) as Hd. rw Forall_forall in Hd. specialize (Hd c Hc). lia.
Qed.

(** The three private ranges, as [parse_validated] and [parse_cidr] read them. *)
Lemma private_ranges R : R ∈ RFC1918 → ∃ n k, is_u32 n ∧ 0 ≤ k ≤ 32 ∧ parse_validated R = Ok (n, k) ∧ parse_cidr R = Ok (V4 n, k).
Proof.
  intros HR. unfold RFC1918 in HR.
  repeat (apply elem_of_cons in HR as [->|HR];
    [eexists _, _; split; [|split; [|split; vm_compute; reflexivity]]; vm_compute; split; discriminate|]).
  by apply elem_of_nil in HR.
Qed.

Lemma try_any_total {E A} (f : A → result E bool) l : (∀ x, x ∈ l → ∃ b, f x = Ok b) → ∃ b, try_any f l = Ok b.
Proof.
  induction l as [|x l IH]; intros Hf; simpl; [eauto|]. destruct (Hf x) as [b ->]; [by left|]. simpl.
  destruct b; [eauto|]. apply IH. intros y Hy. apply Hf. by right.
Qed.

Lemma try_any_true {E A} (f : A → result E bool) l : try_any f l = Ok true → ∃ x, x ∈ l ∧ f x = Ok true.
Proof.
  induction l as [|x l IH]; simpl; [done|]. intros (b & Hb & H)%bind_ok. destruct b; [exists x; split; [by left|done]|].
  apply IH in H as (y & ? & ?). exists y. split; [by right|done].
Qed.

(** What an advertised route may be. *)
Definition routable (c : str) : Prop :=
  is_default_route c = true ∨
  (contains_char 58 c = false ∧ ∃ private, private ∈ RFC1918 ∧ cidr_within c private = true) ∨
  (contains_char 58 c = true ∧ 16 ≤ route_prefix c ∧ (cidr_within c (lit "fd00::/8") = true ∨ cidr_within c (lit "2000::/3") = true)).

Lemma check_route_total a p later :
  wf_ip a → 0 ≤ p ≤ width a →
  match check_route (show_ip a ++ lit "/" ++ dec p) later with
  | Ok _ => routable (show_ip a ++ lit "/" ++ dec p) ∧ apart [show_ip a ++ lit "/" ++ dec p] later
  | Err e => e ≠ RoutePanic
  end.
Proof.
  intros Ha Hp. pose proof (shown_colon a p Ha ltac:(lia)) as Hcolon. set (c := show_ip a ++ _) in *. unfold check_route.
  destruct (is_default_route c) eqn:Hd.
  { split; [by left|]. intros r s ->%list_elem_of_singleton. congruence. }
  assert (∀ later, existsb (λ other, negb (is_default_route other) && routes_overlap c other) later = false → apart [c] later) as Hap.
  { intros l Hl r s ->%list_elem_of_singleton Hs _ Hds. rw existsb_false in Hl. specialize (Hl s Hs). cbn beta in Hl. by rw Hds in Hl. }
  rw Hcolon. destruct a as [v|v]; cbn [is_ipv6].
  - destruct (try_any_total (ipv4_route_is_within c) RFC1918) as [private Hpriv].
    { intros R (n & k & _ & _ & HR & _)%private_ranges. by apply (within_total v p Ha Hp R n k). }
    rw Hpriv. cbn [result_bind]. destruct private; [|done]. cbn [result_bind reject_if negb].
    destruct (overlap_total v p Ha Hp IPV4_OVERLAY 1681915904 10) as [pool Hpool]; [vm_compute; reflexivity|].
    change (shown_v4 v p) with c in Hpool. rw Hpool. cbn [result_bind]. destruct pool; [done|]. cbn [result_bind reject_if].
    destruct (existsb _ later) eqn:Hl; [done|]. cbn [reject_if]. split; [|by apply Hap]. right. left. split; [done|].
    apply try_any_true in Hpriv as (R & HR & Hw). pose proof (private_ranges R HR) as (n & k & Hn & Hk & H1 & H2).
    exists R. split; [done|]. by eapply (within_sound v p Ha Hp R n k).
  - destruct (negb _ || _) eqn:Hv; [done|]. cbn [result_bind reject_if]. destruct (existsb _ later) eqn:Hl; [done|].
    cbn [reject_if]. split; [|by apply Hap]. right. right. to_prop. rename select (_ || _ = true) into Hw.
    apply orb_true_iff in Hw. split; [done|]. split; [lia|done].
Qed.

Lemma check_routes_total rs :
  (∀ c, c ∈ rs → ∃ a p, wf_ip a ∧ 0 ≤ p ≤ width a ∧ c = show_ip a ++ lit "/" ++ dec p) →
  match check_routes rs with
  | Ok _ => (∀ c, c ∈ rs → routable c) ∧ (∀ i j c d, (i < j)%nat → rs !! i = Some c → rs !! j = Some d → apart [c] [d])
  | Err e => e ≠ RoutePanic
  end.
Proof.
  induction rs as [|c rs IH]; intros Hrs; simpl; [split; [by intros ? ?%elem_of_nil|done]|].
  destruct (Hrs c) as (a & p & Ha & Hp & ->); [by left|]. pose proof (check_route_total a p rs Ha Hp) as Hc.
  destruct (check_route _ rs) as [u|e]; cbn [result_bind]; [|done]. destruct Hc as [Hc Hap].
  specialize (IH ltac:(intros d Hd; apply Hrs; by right)). destruct (check_routes rs); [|done]. destruct IH as [Hall Hpairs]. split.
  - intros d [->|Hd]%elem_of_cons; [done|by apply Hall].
  - intros [|i] [|j] d d' Hij; simpl; [lia| |lia|by apply (Hpairs i j); lia]. intros [= <-] Hd'.
    eapply apart_sub; [exact Hap|done|]. intros x ->%list_elem_of_singleton. by eapply list_elem_of_lookup_2.
Qed.

Lemma try_collect_err {E A B} (f : A → result E B) l e : try_collect f l = Err e → ∃ x, x ∈ l ∧ f x = Err e.
Proof.
  induction l as [|x l IH]; simpl; [done|]. destruct (f x) as [y|e'] eqn:Hx; simpl.
  - destruct (try_collect f l); simpl; [done|]. intros [= ->]. destruct IH as (z & ? & ?); [done|]. exists z. split; [by right|done].
  - intros [= ->]. exists x. split; [by left|done].
Qed.

Lemma canonical_no_panic route : canonical_route route ≠ Err RoutePanic.
Proof.
  unfold canonical_route, canonical_ipv6_route, canonical_ipv4_route, reject_if, ok_or, map_err.
  repeat (case_match; cbn [result_bind]; try done).
Qed.

(** Route validation: on no input does it stop with a panic; what it accepts are
    at most 32 canonical prefixes, each a default route, an IPv4 prefix inside a
    private range, or an IPv6 prefix of 16 bits or more that is unique local or
    global unicast, and no two of them overlap. *)
Theorem advertised_routes_valid input :
  match validate_advertised_routes input with
  | Ok rs => (length input ≤ 32)%nat ∧ (∀ c, c ∈ rs → parses c ∧ routable c) ∧
      (∀ i j c d, (i < j)%nat → rs !! i = Some c → rs !! j = Some d → apart [c] [d])
  | Err e => e ≠ RoutePanic
  end.
Proof.
  destruct (validate_advertised_routes input) as [rs|e] eqn:Hv.
  - pose proof (validated_inv _ _ Hv) as [Hc Hshown]. pose proof (check_routes_total rs Hshown) as Hr. rw Hc in Hr.
    destruct Hr as [Hall Hpairs]. split_and!; [|intros c Hc'; split; [by eapply validated_parses|by apply Hall]|done].
    unfold validate_advertised_routes in Hv. inv_ok. to_prop. lia.
  - unfold validate_advertised_routes in Hv. destruct (_ <? _)%nat; cbn [reject_if result_bind] in Hv; [by simplify_eq|].
    destruct (try_collect canonical_route input) as [cs|e'] eqn:Ht; cbn [result_bind] in Hv.
    + assert (∀ c, c ∈ BTree.extend [] cs → ∃ a p, wf_ip a ∧ 0 ≤ p ≤ width a ∧ c = show_ip a ++ lit "/" ++ dec p) as Hshown
        by (intros c; by eapply collected_shown).
      pose proof (check_routes_total _ Hshown) as Hr. destruct (check_routes _); cbn [result_bind] in Hv; [done|]. by simplify_eq.
    + simplify_eq. apply try_collect_err in Ht as (r & _ & Hr). intros ->. by apply canonical_no_panic in Hr.
Qed.

(** ** Liveness *)

Section liveness.
Context (o : Org) (f : OrgNode → OrgNode) (t1 t2 : Z) (r : NetworkResource).
Hypothesis Hids : NoDup (map on_id (org_nodes o)).
Hypothesis Hid : ∀ n, on_id (f n) = on_id n.
Hypothesis Hadv : ∀ n, on_advertised (f n) = on_advertised n.
Hypothesis Hact : ∀ n, active (f n) = active n.
Hypothesis Hexp : ∀ n, n ∈ org_nodes o → (on_expires (f n) <=? t2) = (on_expires n <=? t1).

Definition refreshed : Org := set_nodes o (map f (org_nodes o)).

Lemma refreshed_nodes : load_org_nodes refreshed = map f (load_org_nodes o).
Proof.
  unfold load_org_nodes, refreshed. cbn [org_nodes set_nodes]. rw filter_map_comm. f_equal. apply filter_ext. intros n. apply Hact.
Qed.

Lemma refreshed_node id : node_by (load_org_nodes refreshed) id = f <$> node_by (load_org_nodes o) id.
Proof.
  rw refreshed_nodes. unfold node_by. induction (load_org_nodes o) as [|n l IH]; simpl; [done|]. rw Hid IH.
  by destruct (bool_decide (on_id n = id)).
Qed.

Lemma refreshed_ids : NoDup (map on_id (org_nodes refreshed)).
Proof. unfold refreshed. cbn [org_nodes set_nodes]. rw map_map. by rewrite (map_ext _ on_id). Qed.

(** Online advertisers, by id. *)
Lemma advertiser_online (o' : Org) at_ n :
  NoDup (map on_id (org_nodes o')) → n ∈ load_org_nodes o' → on_advertised n ≠ [] →
  online n at_ = bool_decide (on_id n ∈ online_advertisers o' at_).
Proof.
  intros Hnd Hn Ha. apply eq_bool_prop_intro. rw !Is_true_true bool_decide_eq_true.
  unfold online_advertisers, advertisers. rw list_elem_of_fmap. setoid_rewrite filter_elem. setoid_rewrite sort_by_perm.
  setoid_rewrite filter_elem. split.
  - intros Ho. exists n. split; [done|]. split; [|done]. split; [done|]. by destruct (on_advertised n).
  - intros (m & Heq & [Hm _] & Ho). by rw (active_unique o' n m Hnd Hn Hm Heq).
Qed.

Hypothesis Hkind : nr_kind r = Cidr.

Lemma refreshed_eligible p : eligible r (load_org_nodes refreshed) t2 p = eligible r (load_org_nodes o) t1 p.
Proof.
  unfold eligible, peer_state. rw refreshed_node. destruct (node_by (load_org_nodes o) (rp_node p)) as [n|] eqn:Hn; [|done]. simpl.
  apply node_by_elem in Hn as [[Hin _]%filter_elem _]. rw Hexp // Hkind. destruct (on_expires n <=? t1); [done|].
  rw bool_decide_true //. rw Hadv. cbn [andb]. destruct (bool_decide _); [done|]. rw bool_decide_false //. cbn [andb].
  by destruct (online (f n) t2), (online n t1).
Qed.

Lemma eligible_advertises p : eligible r (load_org_nodes o) t1 p = true →
  ∃ n, node_by (load_org_nodes o) (rp_node p) = Some n ∧ on_advertised n ≠ [].
Proof.
  unfold eligible, peer_state. destruct (node_by _ _) as [n|]; [|done]. intros He. exists n. split; [done|]. intros Hnil.
  revert He. destruct (_ <=? _); [done|]. rw Hkind. unfold covering_route. rw Hnil. destruct (nr_cidr r); done.
Qed.

Lemma refreshed_online p :
  online_advertisers o t1 = online_advertisers refreshed t2 → eligible r (load_org_nodes o) t1 p = true →
  peer_online (load_org_nodes refreshed) t2 p = peer_online (load_org_nodes o) t1 p.
Proof.
  intros Hsame (n & Hn & Ha)%eligible_advertises. unfold peer_online. rw refreshed_node Hn. simpl.
  apply node_by_elem in Hn as [Hin _]. rw (advertiser_online o t1 n) // Hsame.
  rw (advertiser_online refreshed t2 (f n)); [by rw Hid|apply refreshed_ids| |by rw Hadv].
  rw refreshed_nodes. apply list_elem_of_fmap. eauto.
Qed.

Lemma selection_follows :
  online_advertisers o t1 = online_advertisers refreshed t2 →
  (evaluate_peers r (load_org_nodes refreshed) t2).1 = (evaluate_peers r (load_org_nodes o) t1).1.
Proof.
  intros Hsame. rw !selected_find. f_equal. set (L := sort_by _ _).
  assert (∀ l, List.find (λ p, eligible r (load_org_nodes refreshed) t2 p && peer_online (load_org_nodes refreshed) t2 p) l =
    List.find (λ p, eligible r (load_org_nodes o) t1 p && peer_online (load_org_nodes o) t1 p) l) as ->.
  { intros l. induction l as [|p l IH]; simpl; [done|]. rw refreshed_eligible IH.
    destruct (eligible r (load_org_nodes o) t1 p) eqn:He; [|done]. by rw refreshed_online. }
  destruct (List.find _ L); [done|]. induction L as [|p l IH]; simpl; [done|]. by rw refreshed_eligible IH.
Qed.
End liveness.

(** [C36] Idle clients learn of a failover: when devices come and go between two
    liveness checks and this changes the routing peer of a prefix resource, no
    credential having expired in between, the second check moves the organisation's
    control revision, which wakes the clients that wait on it. *)
Theorem failover_is_announced seen o f t1 t2 r checked
    (Hids : NoDup (map on_id (org_nodes o))) (Hid : ∀ n, on_id (f n) = on_id n)
    (Hadv : ∀ n, on_advertised (f n) = on_advertised n) (Hact : ∀ n, active (f n) = active n)
    (Hexp : ∀ n, n ∈ org_nodes o → (on_expires (f n) <=? t2) = (on_expires n <=? t1)) (Hkind : nr_kind r = Cidr)
    (Hseen : seen !! org_id o = Some (checked, online_advertisers o t1)) (Hlate : checked + LIVENESS_CHECK_SECS ≤ t2)
    (Hmoved : (evaluate_peers r (load_org_nodes (refreshed o f)) t2).1 ≠ (evaluate_peers r (load_org_nodes o) t1).1) :
  let '(seen', o', changed) := bump_on_router_liveness_change seen (refreshed o f) t2 in
  changed = true ∧ org_revision o' = org_revision o + 1 ∧ seen' !! org_id o = Some (t2, online_advertisers (refreshed o f) t2).
Proof.
  unfold bump_on_router_liveness_change. change (org_id (refreshed o f)) with (org_id o). rw Hseen.
  destruct (Z.ltb_spec (t2 - checked) LIVENESS_CHECK_SECS); [lia|]. rw bool_decide_false.
  - split_and!; [done|done|]. by rw lookup_insert decide_True.
  - intros Hsame. apply Hmoved. by apply selection_follows.
Qed.

(** Two routers; [a] reports again, [b] does not. *)
Definition two_routers (routes : list str) : Org :=
  mkOrg (lit "org") sample_policy
    [sample_node (lit "a") [Store] routes [] [CAP_APP_CONNECTOR]; sample_node (lit "b") [Store] routes [] [CAP_APP_CONNECTOR]] [] [] [] 7.

Definition a_reports (n : OrgNode) : OrgNode :=
  mkOrgNode (on_id n) (on_name n) (on_token_hash n) (on_suspended n) (on_revoked n) (on_deleted n) (on_display_name n) (on_advertised n)
    (on_approved n) (if seq_b (on_id n) "node-a" then Some 1080 else on_last_seen n) (on_expires n) (on_subject n) (on_capabilities n).

Lemma failover_is_announced_witness :
  let o := two_routers [lit "192.168.0.0/16"] in
  let '(seen', o', changed) :=
    bump_on_router_liveness_change {[lit "org" := (1000, online_advertisers o 1000)]} (refreshed o a_reports) 1100 in
  changed = true ∧ org_revision o' = 8.
Proof.
  intros o. pose proof (failover_is_announced {[lit "org" := (1000, online_advertisers o 1000)]} o a_reports 1000 1100
    (sample_resource (lit "files") Cidr (Some (lit "192.168.7.0/24")) None) 1000) as H.
  destruct (bump_on_router_liveness_change _ _ _) as [[seen' o'] changed]. destruct H as (-> & -> & _).
  - apply (bool_decide_unpack _). vm_compute. exact I.
  - reflexivity.
  - reflexivity.
  - reflexivity.
  - intros n Hn. vm_compute in Hn. repeat (apply elem_of_cons in Hn as [->|Hn]; [reflexivity|]). by apply elem_of_nil in Hn.
  - reflexivity.
  - vm_compute. reflexivity.
  - vm_compute. discriminate.
  - vm_compute. congruence.
  - split; reflexivity.
Defined.

(** The check reads only devices that advertise routes: the failover between two
    connectors of a DNS resource that advertise none goes unannounced. *)
Theorem connector_failover_unannounced :
  let o := two_routers [] in
  let r := sample_resource (lit "wiki") Dns None (Some (lit "wiki.example.org")) in
  (evaluate_peers r (load_org_nodes o) 1000).1 = Some (lit "node-b") ∧
  (evaluate_peers r (load_org_nodes (refreshed o a_reports)) 1100).1 = Some (lit "node-a") ∧
  ∀ seen, (seen !! lit "org" = None ∨ ∃ checked, seen !! lit "org" = Some (checked, online_advertisers o 1000)) →
    (bump_on_router_liveness_change seen (refreshed o a_reports) 1100).2 = false.
Proof.
  intros o r. split; [vm_compute; reflexivity|]. split; [vm_compute; reflexivity|]. intros seen Hseen.
  unfold bump_on_router_liveness_change. change (org_id (refreshed o a_reports)) with (lit "org").
  destruct Hseen as [-> | [checked ->]]; [reflexivity|]. destruct (_ <? _); [done|]. vm_compute. reflexivity.
Qed.

End RoutesProps.
