(* ===== verification/Posture.v ===== *)
(** * Posture checks and provider signals

    [blaktail-coord/src/posture.rs]: definitions of checks, their evaluation on the
    facts known of a device, the deadline that makes agents recompile, and the
    requests that change the checks.  [posture_integrations.rs]: matching provider
    records to devices, the requirement on a provider's signal, and the hardware
    identifiers a device reports.  Messages are constructors; times are seconds,
    whose sums stay far below [2^63]. *)

From S2P Require Import Prelude Text Net FlowReport Policy Ipam AclFilter ForwardFilter CoordAcl CoordForward AppConnectors CoordRules.

(** ** Matching provider records to devices *)

Module Integrations.

Definition MIN_AGE_SECS : Z := 60.
Definition MAX_AGE_SECS : Z := 30 * 24 * 60 * 60.

Definition to_ascii_uppercase (s : str) : str := map (λ c, if (97 <=? c) && (c <=? 122) then c - 32 else c) s.

Definition PLACEHOLDERS : list str :=
  [lit "TOBEFILLEDBYO.E.M."; lit "DEFAULTSTRING"; lit "SYSTEMSERIALNUMBER"; lit "CHASSISSERIALNUMBER"; lit "NOTSPECIFIED";
   lit "NOTAPPLICABLE"; lit "N/A"; lit "NONE"; lit "UNKNOWN"; lit "INVALID"; lit "0123456789"; lit "123456789"].

Definition normalise_serial (value : str) : option str :=
  let serial := to_ascii_uppercase (concat (List.filter (λ c, negb (bool_decide (c ∈ white_space))) (chars value))) in
  match chars serial with
  | [] => None
  | first :: _ =>
      if (length serial <? 4)%nat || (64 <? length serial)%nat || forallb (λ c, bool_decide (c = first)) (chars serial)
         || existsb is_control (chars serial) || bool_decide (serial ∈ PLACEHOLDERS)
      then None else Some serial
  end.

Definition is_hexdigit (c : Z) : bool := is_ascii_digit c || ((97 <=? c) && (c <=? 102)).

(** [chunks(2)] *)
Fixpoint pairs_of (s : str) : list str :=
  match s with
  | a :: b :: rest => [a; b] :: pairs_of rest
  | [a] => [[a]]
  | [] => []
  end.

Definition normalise_mac (value : str) : option str :=
  let hex := to_ascii_lowercase (List.filter (λ c, negb (bool_decide (c ∈ lit ":-. "))) value) in
  if negb (length hex =? 12)%nat || negb (forallb is_hexdigit hex) then None
  else
    first ← parse_uint 16 U8_MAX (take 2 hex);
    if negb (Z.land first 3 =? 0) || forallb (Z.eqb 48) hex then None
    else Some (join (lit ":") (pairs_of hex)).

Definition normalise_hostname (value : str) : option str :=
  host ← to_ascii_lowercase <$> head (Text.split 46 (trim value));
  if negb (length host =? 0)%nat && (length host <=? 63)%nat then Some host else None.

Record NodeKeys := mkNodeKeys {
  k_id : Uuid;
  k_hostname : option str;
  k_serial : option str;
  k_macs : list str;
  k_pinned_at : option Z;
  k_pending : bool
}.

Record StoredSignal := mkStoredSignal {
  g_external_id : str;
  g_hostname : option str;
  g_serial : option str;
  g_macs : list str;
  g_compliant : option bool;
  g_status : str;
  g_last_seen_at : option Z;
  g_synced_at : Z
}.

Inductive MatchKey := SerialNumber | MacAddress | Hostname.

Inductive DeviceMatch :=
| Unmatched
| Ambiguous (candidates : nat)
| IdentityChanged
| Contested
| Matched (external_id : str) (matched_by : MatchKey) (compliant : option bool) (status : str) (last_seen_at : option Z)
    (synced_at : Z).

(** The set an index from keys to records holds for the records [f] accepts, in
    ascending order; [get] of a key no record has is [None]. *)
Definition indices (f : StoredSignal → bool) (signals : list StoredSignal) : list nat :=
  List.filter (λ i, match signals !! i with Some s => f s | None => false end) (seq 0 (length signals)).

Definition same_key (key other : option str) : bool :=
  match key, other with Some a, Some b => bool_decide (a = b) | _, _ => false end.

Definition candidates_of (signals : list StoredSignal) (match_hostname : bool) (node : NodeKeys) : option MatchKey * list nat :=
  let by_serial := indices (λ s, same_key (k_serial node) (g_serial s)) signals in
  if negb (length by_serial =? 0)%nat then (Some SerialNumber, by_serial)
  else
    let macs := indices (λ s, existsb (λ mac, bool_decide (mac ∈ g_macs s)) (k_macs node)) signals in
    if negb (length macs =? 0)%nat then (Some MacAddress, macs)
    else
      let host := h ← k_hostname node; normalise_hostname h in
      let by_host := indices (λ s, same_key host (h ← g_hostname s; normalise_hostname h)) signals in
      if match_hostname && negb (length by_host =? 0)%nat then (Some Hostname, by_host) else (None, []).

(** [claims]: the devices whose set holds the record, in order. *)
Definition claimants_of (candidates : list (option MatchKey * list nat)) (index : nat) : list nat :=
  List.filter (λ n, match candidates !! n with Some (_, set) => bool_decide (index ∈ set) | None => false end)
    (seq 0 (length candidates)).

Definition pin_le (a b : Z * nat) : bool := (a.1 <? b.1) || ((a.1 =? b.1) && (a.2 <=? b.2)%nat).

Definition first_claimant (nodes : list NodeKeys) (claimants : list nat) : option nat :=
  let pinned := omap (λ i, n ← nodes !! i; at_ ← k_pinned_at n; Some (at_, i)) claimants in
  match sort_by pin_le pinned with
  | [(_, index)] => Some index
  | (first, index) :: (second, _) :: _ => if first <? second then Some index else None
  | [] => None
  end.

(** The match of the device at [node_index]. *)
Definition device_match (nodes : list NodeKeys) (signals : list StoredSignal) (candidates : list (option MatchKey * list nat))
    (node_index : nat) : DeviceMatch :=
  match candidates !! node_index with
  | Some (Some key, [index]) =>
      let claimants := claimants_of candidates index in
      let first := first_claimant nodes claimants in
      if (1 <? length claimants)%nat && negb (bool_decide (first = Some node_index))
      then if first then Contested else Ambiguous (length claimants)
      else match signals !! index with
           | Some s => Matched (g_external_id s) key (g_compliant s) (g_status s) (g_last_seen_at s) (g_synced_at s)
           | None => Unmatched
           end
  | Some (_, []) => Unmatched
  | Some (_, many) => Ambiguous (length many)
  | None => Unmatched
  end.

Definition match_devices (nodes : list NodeKeys) (signals : list StoredSignal) (match_hostname : bool) : gmap Uuid DeviceMatch :=
  let candidates := map (candidates_of signals match_hostname) nodes in
  foldl (λ m p, <[p.1 := p.2]> m) ∅
    (imap (λ i node, (k_id node, device_match nodes signals candidates i)) nodes).

(** ** The requirement *)

Inductive MissingData := Fail | Pass.
#[export] Instance MissingData_eq_dec : EqDecision MissingData.
Proof. solve_decision. Defined.

Record IntegrationFact := mkIntegrationFact {
  f_integration_id : str;
  f_provider : str;
  f_name : str;
  f_enabled : bool;
  f_outage_since : option Z;
  f_matched : DeviceMatch
}.

Record IntegrationRow := mkIntegrationRow {
  ir_id : str;
  ir_provider : str;
  ir_name : str;
  ir_match_hostname : bool;
  ir_enabled : bool;
  ir_outage_since : option Z
}.

(** What [attach] inserts for one device and one integration. *)
Definition integration_fact (nodes : list NodeKeys) (signals : str → list StoredSignal) (node_id : Uuid) (i : IntegrationRow) :
    IntegrationFact :=
  let pending := existsb (λ n, k_pending n && bool_decide (k_id n = node_id)) nodes in
  mkIntegrationFact (ir_id i) (ir_provider i) (ir_name i) (ir_enabled i) (ir_outage_since i)
    (if pending then IdentityChanged
     else default Unmatched (match_devices nodes (signals (ir_id i)) (ir_match_hostname i) !! node_id)).

Record IntegrationRequirement := mkIntegrationRequirement {
  q_integration_id : Uuid;
  q_max_age_secs : Z;
  q_max_last_seen_secs : option Z;
  q_on_outage : MissingData
}.

Definition in_range (lo hi v : Z) : bool := (lo <=? v) && (v <=? hi).

(** [IntegrationRequirement::validate] succeeds. *)
Definition requirement_valid (q : IntegrationRequirement) : bool :=
  forallb (in_range MIN_AGE_SECS MAX_AGE_SECS) (q_max_age_secs q :: match q_max_last_seen_secs q with Some m => [m] | None => [] end).

Inductive OutcomeReason :=
| NotConfigured | IntegrationDisabled (provider name : str) | NoRecord (provider : str) | AmbiguousRecord (provider : str) (n : nat)
| ChangedIdentity (provider : str) | ContestedRecord (provider : str) | Reports (provider status : str) (key : MatchKey)
| OutagePass (provider : str) (since : Z) (status : str) (age : Z) | OutageFail (provider : str) (since age limit : Z)
| TooOld (provider : str) (age limit : Z) | NotSeen (provider : str) (age limit : Z) | NoLastSeen (provider : str)
| Compliant (provider status : str) (key : MatchKey) (age : Z).

Record Outcome := mkOutcome { o_passed : bool; o_reason : OutcomeReason; o_lapse : option Z }.

Definition fail (reason : OutcomeReason) : Outcome := mkOutcome false reason None.

Definition assess (requirement : IntegrationRequirement) (fact : option IntegrationFact) (now : Z) : Outcome :=
  match fact with
  | None => fail NotConfigured
  | Some fact =>
      let provider := f_provider fact in
      if negb (f_enabled fact) then fail (IntegrationDisabled provider (f_name fact))
      else match f_matched fact with
      | Unmatched => fail (NoRecord provider)
      | Ambiguous n => fail (AmbiguousRecord provider n)
      | IdentityChanged => fail (ChangedIdentity provider)
      | Contested => fail (ContestedRecord provider)
      | Matched _ matched_by compliant status last_seen_at synced_at =>
          if negb (bool_decide (compliant = Some true)) then fail (Reports provider status matched_by)
          else
            let age := sat_sub_i64 now synced_at in
            if q_max_age_secs requirement <? age then
              match f_outage_since fact, q_on_outage requirement with
              | Some since, Pass => mkOutcome true (OutagePass provider since status age) None
              | Some since, Fail => fail (OutageFail provider since age (q_max_age_secs requirement))
              | None, _ => fail (TooOld provider age (q_max_age_secs requirement))
              end
            else
              let ok lapse := mkOutcome true (Compliant provider status matched_by age) (Some lapse) in
              let lapse := synced_at + q_max_age_secs requirement in
              match q_max_last_seen_secs requirement with
              | None => ok lapse
              | Some max =>
                  match last_seen_at with
                  | Some seen =>
                      if sat_sub_i64 now seen <=? max then ok (Z.min lapse (seen + max))
                      else fail (NotSeen provider (sat_sub_i64 now seen) max)
                  | None => fail (NoLastSeen provider)
                  end
              end
      end
  end.

(** ** Hardware identifiers *)

Record Hardware := mkHardware { h_serial : option str; h_macs : list str }.
#[export] Instance Hardware_eq_dec : EqDecision Hardware.
Proof. solve_decision. Defined.

(** The columns of [nodes] the requests use. *)
Record HwNode := mkHwNode {
  w_id : Uuid;
  w_active : bool;
  w_deleted : bool;
  w_hardware : Hardware;
  w_pinned_at : option Z;
  w_pending : option Hardware
}.

Inductive HwAudit := HardwareChanged (node : Uuid) (serial macs : bool) | HardwareClash (node : Uuid) (with_ : list Uuid)
| HardwareApproved (node : Uuid) (clashes : list Uuid).

Record HwOrg := mkHwOrg { hw_nodes : list HwNode; hw_revision : Z; hw_audit : list HwAudit }.

Definition clashes_with (hardware : Hardware) (n : HwNode) : bool :=
  (bool_decide (is_Some (h_serial (w_hardware n))) && bool_decide (h_serial (w_hardware n) = h_serial hardware))
  || existsb (λ mac, bool_decide (mac ∈ h_macs hardware)) (h_macs (w_hardware n)).

(** The devices that hold an identifier of [hardware], and the pin time a new
    claimant must come after. *)
Definition clashing_nodes (o : HwOrg) (node_id : Uuid) (hardware : Hardware) (at_ : Z) : list Uuid * Z :=
  let rows := List.filter (λ n, negb (bool_decide (w_id n = node_id)) && w_active n && clashes_with hardware n) (hw_nodes o) in
  (map w_id rows, foldl (λ after n, match w_pinned_at n with Some held => Z.max after (held + 1) | None => after end) at_ rows).

Inductive HwError := HwUnauthorized | HwNotFound | HwForbidden | NothingPending.

Definition write_hardware (o : HwOrg) (id : Uuid) (hardware : Hardware) (pinned_at : option Z) (pending : option Hardware) : HwOrg :=
  mkHwOrg (map (λ n, if bool_decide (w_id n = id) then mkHwNode id (w_active n) (w_deleted n) hardware pinned_at pending else n)
             (hw_nodes o)) (hw_revision o + 1) (hw_audit o).

Definition append_hw_audit (o : HwOrg) (l : list HwAudit) : HwOrg := mkHwOrg (hw_nodes o) (hw_revision o) (hw_audit o ++ l).

(** The identifiers a report adds to pins: [next] takes fields never pinned,
    [proposed] every reported one. *)
Definition take_report (pinned : Hardware) (serial : option str) (macs : list str) : Hardware * Hardware :=
  (mkHardware (match h_serial pinned with Some s => Some s | None => serial end)
     (if (length (h_macs pinned) =? 0)%nat then macs else h_macs pinned),
   mkHardware (match serial with Some s => Some s | None => h_serial pinned end)
     (if (length macs =? 0)%nat then h_macs pinned else macs)).

Definition reported_macs (value : str) : list str := BTree.extend [] (take 16 (omap normalise_mac (Text.split 44 value))).

Definition record_hardware (o : HwOrg) (node_id : Uuid) (serial macs : option str) (now : Z) : result HwError HwOrg :=
  if negb (bool_decide (is_Some serial)) && negb (bool_decide (is_Some macs)) then Ok o
  else
    let? row := ok_or (List.find (λ n, bool_decide (w_id n = node_id)) (hw_nodes o)) HwUnauthorized in
    let pinned := w_hardware row in
    let '(next, proposed) := take_report pinned (s ← serial; normalise_serial s)
                               (match macs with Some v => reported_macs v | None => [] end) in
    if bool_decide (proposed = pinned) && negb (bool_decide (is_Some (w_pending row))) then Ok o
    else
      let '(clashes, pin_at) := if bool_decide (proposed = pinned) then ([], now) else clashing_nodes o node_id proposed now in
      let next := if negb (length clashes =? 0)%nat then pinned else next in
      let pending := if bool_decide (proposed = next) then None else Some proposed in
      let newly_pinned := negb (bool_decide (next = pinned)) in
      if negb newly_pinned && bool_decide (pending = w_pending row) then Ok o
      else
        let next_pinned_at := if newly_pinned && negb (bool_decide (is_Some (w_pinned_at row))) then Some pin_at
                              else w_pinned_at row in
        let changed := match pending with
                       | Some change =>
                           if bool_decide (pending = w_pending row) then []
                           else [HardwareChanged node_id (negb (bool_decide (h_serial change = h_serial next)))
                                   (negb (bool_decide (h_macs change = h_macs next)))]
                       | None => []
                       end in
        let clash := if (length clashes =? 0)%nat then [] else [HardwareClash node_id clashes] in
        Ok (append_hw_audit (write_hardware o node_id next next_pinned_at pending) (changed ++ clash)).

Definition approve_hardware (o : HwOrg) (role : Role) (node_id : Uuid) (now : Z) : result HwError HwOrg :=
  let? _ := map_err (λ _, HwForbidden) (require role ManageSecurity) in
  let? row := ok_or (List.find (λ n, bool_decide (w_id n = node_id) && negb (w_deleted n)) (hw_nodes o)) HwNotFound in
  let? hardware := ok_or (w_pending row) NothingPending in
  let '(clashes, pin_at) := clashing_nodes o node_id hardware now in
  Ok (append_hw_audit (write_hardware o node_id hardware (Some pin_at) None) [HardwareApproved node_id clashes]).

End Integrations.

(** ** Checks *)

Module Posture.
Import Integrations.

Definition MAX_CHECKS_PER_ORG : Z := 32.
Definition MIN_AGE_SECS : Z := 60.
Definition MAX_AGE_SECS : Z := 365 * 24 * 60 * 60.
Definition OS_FAMILIES : list str := [lit "linux"; lit "macos"; lit "ios"; lit "android"; lit "windows"].
Definition CAP_ACL_FILTER : str := lit "acl-filter".
Definition CAP_SSH_USERS : str := lit "ssh-users".

Record PostureDefinition := mkPostureDefinition {
  description : str;
  min_agent_version : option str;
  os_families : list str;
  min_os_versions : BTree.map_of str;
  max_credential_age_secs : option Z;
  max_report_age_secs : option Z;
  require_approved_peer : bool;
  on_missing_data : MissingData;
  integration : option IntegrationRequirement
}.

(** [str::split] at any of three characters, first piece. *)
Fixpoint until_any (stops : list Z) (s : str) : str :=
  match s with
  | [] => []
  | c :: s => if existsb (Z.eqb c) stops then [] else c :: until_any stops s
  end.

(** [collect::<Option<Vec<_>>>()] *)
Fixpoint collect_some {A B} (f : A → option B) (l : list A) : option (list B) :=
  match l with
  | [] => Some []
  | x :: l => y ← f x; ys ← collect_some f l; Some (y :: ys)
  end.

Definition parse_version (value : str) : option (list Z) :=
  let value := strip_many [lit "v"] (length (trim value)) (trim value) in
  let core := until_any (lit "-+ ") value in
  parts ← collect_some (parse_uint 10 U64_MAX) (Text.split 46 core);
  if negb (length parts =? 0)%nat && (length parts <=? 4)%nat then Some parts else None.

(** [Vec<u64>] comparison: lexicographic. *)
Fixpoint vec_ge (a b : list Z) : bool :=
  match a, b with
  | _, [] => true
  | [], _ :: _ => false
  | x :: a, y :: b => (y <? x) || ((x =? y) && vec_ge a b)
  end.

Definition pad (n : nat) (v : list Z) : list Z := v ++ replicate (n - length v) 0.

Definition version_at_least (found minimum : list Z) : bool :=
  let len := Nat.max (length found) (length minimum) in
  vec_ge (pad len found) (pad len minimum).

Inductive PostureError :=
| BadDescription | NoRequirement | BadIntegrationAge | BadAgentVersion | UnknownFamily (family : str) | BadOsVersion | BadAge
| BadCheckName | UnknownIntegration | TooManyChecks | NameExists | CheckNotFound | StaleVersion | ForbiddenPosture
| StillReferenced (name : str).

Definition validate (def : PostureDefinition) : result PostureError unit :=
  let? _ := reject_if ((200 <? length (chars (description def)))%nat || existsb is_control (chars (description def)))
              BadDescription in
  let? _ := reject_if (negb (bool_decide (is_Some (min_agent_version def))) && (length (os_families def) =? 0)%nat
                       && (length (min_os_versions def) =? 0)%nat && negb (bool_decide (is_Some (max_credential_age_secs def)))
                       && negb (require_approved_peer def) && match integration def with Some _ => false | None => true end)
              NoRequirement in
  let? _ := reject_if (match integration def with Some q => negb (requirement_valid q) | None => false end) BadIntegrationAge in
  let? _ := reject_if (match min_agent_version def with Some v => negb (bool_decide (is_Some (parse_version v))) | None => false end)
              BadAgentVersion in
  let? _ := match List.find (λ family, negb (bool_decide (family ∈ OS_FAMILIES))) (os_families def ++ map fst (min_os_versions def)) with
            | Some family => Err (UnknownFamily family)
            | None => Ok tt
            end in
  let? _ := reject_if (existsb (λ v, negb (bool_decide (is_Some (parse_version v)))) (map snd (min_os_versions def))) BadOsVersion in
  reject_if (existsb (λ age, negb (in_range MIN_AGE_SECS MAX_AGE_SECS age))
               (omap id [max_credential_age_secs def; max_report_age_secs def])) BadAge.

Record NodeFacts := mkNodeFacts {
  nf_id : Uuid;
  nf_os : option str;
  nf_os_version : option str;
  nf_agent_version : option str;
  nf_capabilities : list str;
  nf_created_at : Z;
  nf_credential_issued_at : option Z;
  nf_credential_expires_at : Z;
  nf_inventory_reported_at : option Z;
  nf_integrations : BTree.map_of IntegrationFact
}.

Definition issued_at (f : NodeFacts) : Z := default (nf_created_at f) (nf_credential_issued_at f).
Definition reported_at (f : NodeFacts) : Z := default (nf_created_at f) (nf_inventory_reported_at f).

Inductive Field := OperatingSystem | OsVersion | AgentVersion.

Inductive ReasonText :=
| CredentialHasExpired | CredentialActive | CredentialOld (age max : Z) | CredentialFresh (age max : Z) | Provider (r : OutcomeReason)
| StaleInventory (field : Field) (age max : Z) | NotReported (field : Field) | OsAllowed (os : str) | OsNotAllowed (os : str)
| OsVersionMeets (os minimum : str) | OsVersionOld (os found minimum : str) | OsVersionOdd (found : str)
| AgentMeets (found minimum : str) | AgentOld (found minimum : str) | AgentOdd (found : str)
| WithPolicy (r : ReasonText) (policy : MissingData).

Inductive Source := AgentReported | CoordinatorObserved | ProviderReported.

Definition Reason : Type := ReasonText * Source.

Record Assessment := mkAssessment {
  as_check : str;
  as_version : Z;
  as_passed : bool;
  as_missing_data : bool;
  as_reasons : list Reason;
  as_expires_at : option Z
}.

(** The locals of [evaluate]. *)
Record Acc := mkAcc { failures : list Reason; missing : list Reason; passes : list Reason; deadline : option Z }.

Definition push_failure (r : Reason) (a : Acc) : Acc := mkAcc (failures a ++ [r]) (missing a) (passes a) (deadline a).
Definition push_missing (r : Reason) (a : Acc) : Acc := mkAcc (failures a) (missing a ++ [r]) (passes a) (deadline a).
Definition push_pass (r : Reason) (a : Acc) : Acc := mkAcc (failures a) (missing a) (passes a ++ [r]) (deadline a).
Definition lapse (at_ : Z) (a : Acc) : Acc :=
  mkAcc (failures a) (missing a) (passes a) (Some (match deadline a with Some d => Z.min d at_ | None => at_ end)).

Section evaluate.
Context (def : PostureDefinition) (facts : NodeFacts) (now : Z).

Definition eval_approved (a : Acc) : Acc :=
  if negb (require_approved_peer def) then a
  else if nf_credential_expires_at facts <=? now then push_failure (CredentialHasExpired, CoordinatorObserved) a
  else lapse (nf_credential_expires_at facts) (push_pass (CredentialActive, CoordinatorObserved) a).

Definition eval_credential_age (a : Acc) : Acc :=
  match max_credential_age_secs def with
  | None => a
  | Some max =>
      let age := sat_sub_i64 now (issued_at facts) in
      if max <? age then push_failure (CredentialOld age max, CoordinatorObserved) a
      else lapse (issued_at facts + max) (push_pass (CredentialFresh age max, CoordinatorObserved) a)
  end.

Definition eval_integration (a : Acc) : Acc :=
  match integration def with
  | None => a
  | Some requirement =>
      let outcome := assess requirement (BTree.get (q_integration_id requirement) (nf_integrations facts)) now in
      let reason := (Provider (o_reason outcome), ProviderReported) in
      if o_passed outcome
      then let a := push_pass reason a in match o_lapse outcome with Some at_ => lapse at_ a | None => a end
      else push_failure reason a
  end.

(** Age and limit, when the agent's report is too old. *)
Definition stale : option (Z * Z) :=
  max ← max_report_age_secs def;
  let age := sat_sub_i64 now (reported_at facts) in
  if max <? age then Some (age, max) else None.

Definition eval_stale (a : Acc) : Acc :=
  match max_report_age_secs def, stale with
  | Some max, None => lapse (reported_at facts + max) a
  | _, _ => a
  end.

(** The closure [reported]. *)
Definition reported (value : option str) (field : Field) (a : Acc) : option str * Acc :=
  match stale with
  | Some (age, max) => (None, push_missing (StaleInventory field age max, AgentReported) a)
  | None =>
      match v ← trim <$> value; if (length v =? 0)%nat then None else Some v with
      | Some v => (Some (to_ascii_lowercase v), a)
      | None => (None, push_missing (NotReported field, AgentReported) a)
      end
  end.

Definition eval_os_version (os minimum : str) (a : Acc) : Acc :=
  let '(value, a) := reported (nf_os_version facts) OsVersion a in
  match v ← value; parse_version v with
  | Some found =>
      if version_at_least found (default [] (parse_version minimum)) then push_pass (OsVersionMeets os minimum, AgentReported) a
      else push_failure (OsVersionOld os (default [] (nf_os_version facts)) minimum, AgentReported) a
  | None =>
      if negb (bool_decide (is_Some stale)) && bool_decide (is_Some (nf_os_version facts))
      then push_missing (OsVersionOdd (default [] (nf_os_version facts)), AgentReported) a else a
  end.

Definition eval_os (a : Acc) : Acc :=
  if (length (os_families def) =? 0)%nat && (length (min_os_versions def) =? 0)%nat then a
  else
    let '(os, a) := reported (nf_os facts) OperatingSystem a in
    match os with
    | None => a
    | Some os =>
        let a := if (length (os_families def) =? 0)%nat then a
                 else if bool_decide (os ∈ os_families def) then push_pass (OsAllowed os, AgentReported) a
                 else push_failure (OsNotAllowed os, AgentReported) a in
        match BTree.get os (min_os_versions def) with Some minimum => eval_os_version os minimum a | None => a end
    end.

Definition eval_agent (a : Acc) : Acc :=
  match min_agent_version def with
  | None => a
  | Some minimum =>
      let '(found, a) := reported (nf_agent_version facts) AgentVersion a in
      match found with
      | None => a
      | Some found =>
          match parse_version found with
          | Some parts =>
              if version_at_least parts (default [] (parse_version minimum)) then push_pass (AgentMeets found minimum, AgentReported) a
              else push_failure (AgentOld found minimum, AgentReported) a
          | None => push_missing (AgentOdd found, AgentReported) a
          end
      end
  end.

Definition evaluated : Acc :=
  eval_agent (eval_os (eval_stale (eval_integration (eval_credential_age (eval_approved (mkAcc [] [] [] None)))))).

Definition evaluate (name : str) (version : Z) : Assessment :=
  let a := evaluated in
  let missing_data := negb (length (missing a) =? 0)%nat in
  let passed := (length (failures a) =? 0)%nat && (negb missing_data || bool_decide (on_missing_data def = Pass)) in
  mkAssessment name version passed missing_data
    (failures a ++ map (λ r, (WithPolicy r.1 (on_missing_data def), r.2)) (missing a) ++ (if passed then passes a else []))
    (if passed then deadline a else None).

End evaluate.

(** ** The context of a compilation *)

Record StoredCheck := mkStoredCheck { sc_id : Uuid; sc_version : Z; sc_definition : PostureDefinition; sc_created_at : Z; sc_updated_at : Z }.

(** [facts] is a [HashMap] by device id. *)
Record PostureContext := mkPostureContext {
  checks : BTree.map_of StoredCheck;
  facts_of : gmap Uuid NodeFacts;
  ctx_now : Z
}.

Definition assess_all (c : PostureContext) (facts : NodeFacts) : list Assessment :=
  map (λ e, evaluate (sc_definition e.2) facts (ctx_now c) e.1 (sc_version e.2)) (checks c).

Definition apply (c : PostureContext) (node_id : Uuid) (subject : Subject) : Subject :=
  match facts_of c !! node_id with
  | None => subject
  | Some facts =>
      mkSubject (role subject) (s_tags subject) (user_id subject) (email subject)
        (BTree.extend [] (map as_check (List.filter as_passed (assess_all c facts)))) (Some (issued_at facts))
  end.

(** Map of a check's name to the rules that name it; places are rule numbers, of
    [rules] and of [ssh]. *)
Definition referenced_checks (acl : Acl) (name : str) : list (bool * nat) :=
  concat (imap (λ i r, map (λ _, (false, i)) (List.filter (λ n, bool_decide (n = name)) (posture r))) (rules acl))
  ++ concat (imap (λ i r, map (λ _, (true, i)) (List.filter (λ n, bool_decide (n = name)) (ssh_posture r))) (ssh acl)).

Definition check_periods (acl : Acl) : list Z :=
  map (λ r, as_i64 (default DEFAULT_SSH_CHECK_PERIOD_SECS (check_period_secs r)))
    (List.filter (λ r, bool_decide (ssh_action r = SshCheck)) (ssh acl)).

Definition times_of (c : PostureContext) (acl : Acl) (facts : NodeFacts) : list Z :=
  omap (λ e, if (length (referenced_checks acl e.1) =? 0)%nat then None
             else as_expires_at (evaluate (sc_definition e.2) facts (ctx_now c) e.1 (sc_version e.2))) (checks c)
  ++ map (λ period, issued_at facts + period) (check_periods acl).

Fixpoint minimum (l : list Z) : option Z :=
  match l with
  | [] => None
  | x :: l => Some (match minimum l with Some m => Z.min x m | None => x end)
  end.

(** The least does not depend on the order of the map. *)
Definition next_deadline `{HashIter Uuid} (c : PostureContext) (acl : Acl) : option Z :=
  minimum (List.filter (λ at_, ctx_now c <? at_) (flat_map (λ e, times_of c acl e.2) (hash_iter (facts_of c)))).

(** ** Requests *)

(** The posture columns of an organisation. *)
Record POrg := mkPOrg {
  p_checks : list (str * StoredCheck);
  p_integrations : list Uuid;
  p_acl : Acl;
  p_revision : Z;
  p_next_eval_at : option Z
}.

Definition set_checks (o : POrg) (l : list (str * StoredCheck)) : POrg :=
  mkPOrg l (p_integrations o) (p_acl o) (p_revision o + 1) (p_next_eval_at o).

Definition record_deadline (o : POrg) (d : option Z) : POrg :=
  match d with
  | None => o
  | Some at_ =>
      if match p_next_eval_at o with None => true | Some n => at_ <? n end
      then mkPOrg (p_checks o) (p_integrations o) (p_acl o) (p_revision o) (Some at_) else o
  end.

(** Whether it fired. *)
Definition due (o : POrg) (now : Z) : POrg * bool :=
  match p_next_eval_at o with
  | Some at_ => if at_ <=? now then (mkPOrg (p_checks o) (p_integrations o) (p_acl o) (p_revision o + 1) None, true) else (o, false)
  | None => (o, false)
  end.

Definition ensure_in_org (o : POrg) (def : PostureDefinition) : result PostureError unit :=
  match integration def with
  | Some q => reject_if (negb (bool_decide (q_integration_id q ∈ p_integrations o))) UnknownIntegration
  | None => Ok tt
  end.

(** With the id [Uuid::new_v4] gives. *)
Definition create_check_as (o : POrg) (r : Role) (name : str) (def : PostureDefinition) (id : Uuid) (at_ : Z) : result PostureError POrg :=
  let? _ := map_err (λ _, ForbiddenPosture) (require r ManagePolicy) in
  let? _ := reject_if (negb (valid_acl_group_name name)) BadCheckName in
  let? _ := validate def in
  let? _ := ensure_in_org o def in
  let? _ := reject_if (MAX_CHECKS_PER_ORG <=? Z.of_nat (length (p_checks o))) TooManyChecks in
  let? _ := reject_if (existsb (λ e, bool_decide (e.1 = name) || bool_decide (sc_id e.2 = id)) (p_checks o)) NameExists in
  Ok (set_checks o (p_checks o ++ [(name, mkStoredCheck id 1 def at_ at_)])).

Definition find_check (o : POrg) (id : Uuid) : option (str * StoredCheck) :=
  List.find (λ e, bool_decide (sc_id e.2 = id)) (p_checks o).

Definition update_check_as (o : POrg) (r : Role) (id : Uuid) (version : Z) (def : PostureDefinition) (at_ : Z) : result PostureError POrg :=
  let? _ := map_err (λ _, ForbiddenPosture) (require r ManagePolicy) in
  let? _ := validate def in
  let? _ := ensure_in_org o def in
  let? (name, row) := ok_or (find_check o id) CheckNotFound in
  let? _ := reject_if (negb (sc_version row =? version)) StaleVersion in
  Ok (set_checks o (map (λ e, if bool_decide (sc_id e.2 = id) && (sc_version e.2 =? version)
                              then (e.1, mkStoredCheck id (sc_version e.2 + 1) def (sc_created_at e.2) at_) else e) (p_checks o))).

Definition delete_check_as (o : POrg) (r : Role) (id : Uuid) : result PostureError POrg :=
  let? _ := map_err (λ _, ForbiddenPosture) (require r ManagePolicy) in
  let? (name, _) := ok_or (find_check o id) CheckNotFound in
  let? _ := reject_if (negb (length (referenced_checks (p_acl o) name) =? 0)%nat) (StillReferenced name) in
  Ok (set_checks o (List.filter (λ e, negb (bool_decide (sc_id e.2 = id))) (p_checks o))).

(** ** Where policy is enforced *)

Inductive PacketFilter := Enforced | UnknownFilter | NotEnforced.

Definition enforcement_profile (os : option str) (capabilities : list str) : PacketFilter * bool :=
  let has cap := existsb (λ v, bool_decide (v = cap)) capabilities in
  (if has CAP_ACL_FILTER then Enforced
   else if match os with Some o => seq_b (to_ascii_lowercase o) "linux" | None => false end then UnknownFilter else NotEnforced,
   has CAP_SSH_USERS).

End Posture.
