(* ===== verification/PostureProps.v ===== *)
(** * Properties of posture checks

    Evaluation as a list of verdicts, one for every requirement, the
    deadline of a passing result, the matching of provider records, hardware pins,
    and the table of checks. *)

From stdpp Require Import relations.
From S2P Require Import Prelude Text Net FlowReport Policy Ipam AclFilter ForwardFilter CoordAcl CoordForward AppConnectors CoordRules Resources ResourcesProps Posture.

Module PostureProps.
Import Integrations Posture ResourcesProps.

(** ** A verdict for every requirement *)

Inductive Verdict := Met | NotMet | Unknown.
#[export] Instance Verdict_eq_dec : EqDecision Verdict.
Proof. solve_decision. Defined.

Section verdicts.
Context (def : PostureDefinition) (facts : NodeFacts) (now : Z).

Definition met (b : bool) : Verdict := if b then Met else NotMet.

(** What the agent reported, unless the report is too old. *)
Definition known (value : option str) : option str :=
  if stale def facts now then None
  else v ← trim <$> value; if (length v =? 0)%nat then None else Some (to_ascii_lowercase v).

Definition version_verdict (value : option str) (minimum : str) : Verdict :=
  match v ← known value; parse_version v with
  | Some found => met (version_at_least found (default [] (parse_version minimum)))
  | None => Unknown
  end.

Definition approved_verdict : list Verdict :=
  if require_approved_peer def then [met (now <? nf_credential_expires_at facts)] else [].

Definition age_verdict : list Verdict :=
  match max_credential_age_secs def with Some max => [met (sat_sub_i64 now (issued_at facts) <=? max)] | None => [] end.

Definition integration_verdict : list Verdict :=
  match integration def with
  | Some q => [met (o_passed (assess q (BTree.get (q_integration_id q) (nf_integrations facts)) now))]
  | None => []
  end.

Definition os_verdict : list Verdict :=
  if (length (os_families def) =? 0)%nat && (length (min_os_versions def) =? 0)%nat then []
  else match known (nf_os facts) with
       | None => [Unknown]
       | Some os =>
           (if (length (os_families def) =? 0)%nat then [] else [met (bool_decide (os ∈ os_families def))])
           ++ match BTree.get os (min_os_versions def) with
              | Some minimum => [version_verdict (nf_os_version facts) minimum]
              | None => []
              end
       end.

Definition agent_verdict : list Verdict :=
  match min_agent_version def with Some minimum => [version_verdict (nf_agent_version facts) minimum] | None => [] end.

Definition verdicts : list Verdict := approved_verdict ++ age_verdict ++ integration_verdict ++ os_verdict ++ agent_verdict.

(** The accumulator holds a failure exactly when a verdict is [NotMet], and missing
    data exactly when one is [Unknown]. *)
Definition sums (a : Acc) (vs : list Verdict) : Prop :=
  (failures a = [] ↔ NotMet ∉ vs) ∧ (missing a = [] ↔ Unknown ∉ vs).

Lemma sums_failure a vs r : sums a vs → sums (push_failure r a) (vs ++ [NotMet]).
Proof. intros [H1 H2]. split; simpl; [split; [by destruct (failures a)|set_solver]|set_solver]. Qed.
Lemma sums_missing a vs r : sums a vs → sums (push_missing r a) (vs ++ [Unknown]).
Proof. intros [H1 H2]. split; simpl; [set_solver|split; [by destruct (missing a)|set_solver]]. Qed.
Lemma sums_pass a vs r : sums a vs → sums (push_pass r a) (vs ++ [Met]).
Proof. intros [H1 H2]. split; simpl; set_solver. Qed.
Lemma sums_lapse a vs at_ : sums a vs → sums (lapse at_ a) vs.
Proof. done. Qed.
(** A second remark on the same missing value. *)
Lemma sums_missing_again a vs r : sums a vs → Unknown ∈ vs → sums (push_missing r a) vs.
Proof. intros [H1 H2] Hin. split; simpl; [done|]. split; [by destruct (missing a)|done]. Qed.

Lemma sums_approved a vs : sums a vs → sums (eval_approved def facts now a) (vs ++ approved_verdict).
Proof.
  intros H. unfold eval_approved, approved_verdict. destruct (require_approved_peer def); simpl; [|by rw app_nil_r].
  rw Z.ltb_antisym. destruct (_ <=? _); simpl; [by apply sums_failure|by apply sums_lapse, sums_pass].
Qed.

Lemma sums_age a vs : sums a vs → sums (eval_credential_age def facts now a) (vs ++ age_verdict).
Proof.
  intros H. unfold eval_credential_age, age_verdict. destruct (max_credential_age_secs def); simpl; [|by rw app_nil_r].
  rw Z.leb_antisym. destruct (_ <? _); simpl; [by apply sums_failure|by apply sums_lapse, sums_pass].
Qed.

Lemma sums_integration a vs : sums a vs → sums (eval_integration def facts now a) (vs ++ integration_verdict).
Proof.
  intros H. unfold eval_integration, integration_verdict. destruct (integration def); simpl; [|by rw app_nil_r].
  destruct (o_passed _); simpl; [|by apply sums_failure]. destruct (o_lapse _); [apply sums_lapse|]; by apply sums_pass.
Qed.

Lemma sums_stale a vs : sums a vs → sums (eval_stale def facts now a) vs.
Proof. intros H. unfold eval_stale. destruct (max_report_age_secs def), (stale def facts now); done. Qed.

Lemma reported_known value field a vs :
  sums a vs →
  (reported def facts now value field a).1 = known value ∧
  match known value with
  | Some _ => (reported def facts now value field a).2 = a
  | None => sums (reported def facts now value field a).2 (vs ++ [Unknown])
  end.
Proof.
  intros H. unfold reported, known. destruct (stale def facts now) as [[age max]|]; simpl; [split; [done|by apply sums_missing]|].
  destruct value as [v|]; simpl; [|split; [done|by apply sums_missing]].
  destruct (length (trim v) =? 0)%nat; simpl; split; try done. by apply sums_missing.
Qed.

Lemma sums_os_version os minimum a vs :
  sums a vs → sums (eval_os_version def facts now os minimum a) (vs ++ [version_verdict (nf_os_version facts) minimum]).
Proof.
  intros H. unfold eval_os_version, version_verdict.
  destruct (reported_known (nf_os_version facts) OsVersion a vs H) as [Hv Ha].
  destruct (reported _ _ _ _ _ _) as [value a']. cbn [fst snd] in *. subst value.
  destruct (known (nf_os_version facts)) as [v|] eqn:Hk; simpl.
  - subst a'. destruct (parse_version v) as [found|]; simpl.
    + destruct (version_at_least _ _); [by apply sums_pass|by apply sums_failure].
    + unfold known in Hk. destruct (stale def facts now); [done|]. destruct (nf_os_version facts); [|done]. simpl. by apply sums_missing.
  - destruct (_ && _); [|done]. apply sums_missing_again; [done|set_solver].
Qed.

Lemma sums_os a vs : sums a vs → sums (eval_os def facts now a) (vs ++ os_verdict).
Proof.
  intros H. unfold eval_os, os_verdict. destruct (_ && _); [by rw app_nil_r|].
  destruct (reported_known (nf_os facts) OperatingSystem a vs H) as [Hv Ha].
  destruct (reported _ _ _ _ _ _) as [value a']. cbn [fst snd] in *. subst value.
  destruct (known (nf_os facts)) as [os|]; [|done]. subst a'. rw app_assoc.
  set (vs' := vs ++ _). assert (sums (if (length (os_families def) =? 0)%nat then a
    else if bool_decide (os ∈ os_families def) then push_pass (OsAllowed os, AgentReported) a
    else push_failure (OsNotAllowed os, AgentReported) a) vs') as H'.
  { unfold vs'. destruct (_ =? _)%nat; [by rw app_nil_r|]. destruct (bool_decide _); [by apply sums_pass|by apply sums_failure]. }
  destruct (BTree.get os (min_os_versions def)); [by apply sums_os_version|by rw app_nil_r].
Qed.

Lemma sums_agent a vs : sums a vs → sums (eval_agent def facts now a) (vs ++ agent_verdict).
Proof.
  intros H. unfold eval_agent, agent_verdict. destruct (min_agent_version def) as [minimum|]; [|by rw app_nil_r].
  unfold version_verdict. destruct (reported_known (nf_agent_version facts) AgentVersion a vs H) as [Hv Ha].
  destruct (reported _ _ _ _ _ _) as [value a']. cbn [fst snd] in *. subst value.
  destruct (known (nf_agent_version facts)) as [v|]; [|done]. subst a'. simpl.
  destruct (parse_version v); simpl; [|by apply sums_missing]. destruct (version_at_least _ _); [by apply sums_pass|by apply sums_failure].
Qed.

Lemma sums_evaluated : sums (evaluated def facts now) verdicts.
Proof.
  unfold evaluated, verdicts. rw !app_assoc. apply sums_agent, sums_os, sums_stale, sums_integration, sums_age.
  apply (sums_approved (mkAcc [] [] [] None) []). split; simpl; set_solver.
Qed.

End verdicts.

Lemma passed_verdicts def facts now name version :
  let vs := verdicts def facts now in
  (as_passed (evaluate def facts now name version) = true ↔
     NotMet ∉ vs ∧ (Unknown ∈ vs → on_missing_data def = Pass)) ∧
  (as_missing_data (evaluate def facts now name version) = true ↔ Unknown ∈ vs).
Proof.
  intros vs. destruct (sums_evaluated def facts now) as [Hf Hm]. fold vs in Hf, Hm. unfold evaluate. cbn [as_passed as_missing_data].
  assert (∀ A (l : list A), (length l =? 0)%nat = true ↔ l = []) as Hnil by (intros A [|? ?]; split; done).
  rw andb_true_iff orb_true_iff !negb_true_iff bool_decide_eq_true negb_false_iff !Hnil Hf Hm.
  rw -not_true_iff_false Hnil Hm. destruct (decide (Unknown ∈ vs)); naive_solver.
Qed.

(** ** The deadline of a passing result *)

Lemma clamp_le a b m : 0 ≤ m < 2 ^ 62 → sat_sub_i64 a b <= m ↔ a - b ≤ m.
Proof. unfold sat_sub_i64. lia. Qed.

Lemma clamp_leb a b m : 0 ≤ m < 2 ^ 62 → (sat_sub_i64 a b <=? m) = (a - b <=? m).
Proof. intros Hm. apply eq_bool_prop_intro. rw !Is_true_true !Z.leb_le. by apply clamp_le. Qed.

Section lapses.
Context (def : PostureDefinition) (facts : NodeFacts) (now : Z).

Definition provider_outcome : option Outcome :=
  q ← integration def; Some (assess q (BTree.get (q_integration_id q) (nf_integrations facts)) now).

(** The moments a passing requirement is due to lapse. *)
Definition lapses : list Z :=
  (if require_approved_peer def && (now <? nf_credential_expires_at facts) then [nf_credential_expires_at facts] else [])
  ++ match max_credential_age_secs def with
     | Some max => if sat_sub_i64 now (issued_at facts) <=? max then [issued_at facts + max] else []
     | None => []
     end
  ++ match provider_outcome with
     | Some o => if o_passed o then match o_lapse o with Some at_ => [at_] | None => [] end else []
     | None => []
     end
  ++ match max_report_age_secs def, stale def facts now with Some max, None => [reported_at facts + max] | _, _ => [] end.

Lemma minimum_app l k :
  minimum (l ++ k) = match minimum l, minimum k with Some a, Some b => Some (Z.min a b) | Some a, None => Some a | None, m => m end.
Proof.
  induction l as [|x l IH]; simpl; [by destruct (minimum k)|]. rw IH. destruct (minimum l), (minimum k); f_equal; lia.
Qed.

Lemma minimum_snoc l x : minimum (l ++ [x]) = Some (match minimum l with Some d => Z.min d x | None => x end).
Proof. rw minimum_app /=. by destruct (minimum l). Qed.

Lemma deadline_lapse a l at_ : deadline a = minimum l → deadline (lapse at_ a) = minimum (l ++ [at_]).
Proof. intros H. simpl. by rw minimum_snoc H. Qed.

Lemma reported_deadline value field a : deadline (reported def facts now value field a).2 = deadline a.
Proof. unfold reported. destruct (stale def facts now) as [[? ?]|]; [done|]. by destruct (v ← trim <$> value; _). Qed.

Lemma os_deadline a : deadline (eval_os def facts now a) = deadline a.
Proof.
  unfold eval_os. destruct (_ && _); [done|]. pose proof (reported_deadline (nf_os facts) OperatingSystem a) as Hr.
  destruct (reported _ _ _ _ _ _) as [[os|] a']; cbn [snd] in Hr; [|done]. rw -Hr. clear Hr.
  set (b := if (_ =? _)%nat then _ else _). assert (deadline b = deadline a') as <-.
  { unfold b. destruct (_ =? _)%nat; [done|]. by destruct (bool_decide _). }
  destruct (BTree.get os _) as [m|]; [|done]. unfold eval_os_version.
  pose proof (reported_deadline (nf_os_version facts) OsVersion b) as Hr. destruct (reported _ _ _ _ _ _) as [v b']. cbn [snd] in Hr.
  rw -Hr. destruct (v ≫= parse_version); [by destruct (version_at_least _ _)|by destruct (_ && _)].
Qed.

Lemma agent_deadline a : deadline (eval_agent def facts now a) = deadline a.
Proof.
  unfold eval_agent. destruct (min_agent_version def); [|done]. pose proof (reported_deadline (nf_agent_version facts) AgentVersion a) as Hr.
  destruct (reported _ _ _ _ _ _) as [[v|] a']; cbn [snd] in Hr; [|done]. rw -Hr.
  destruct (parse_version v); [by destruct (version_at_least _ _)|done].
Qed.

Lemma deadline_minimum : deadline (evaluated def facts now) = minimum lapses.
Proof.
  unfold evaluated, lapses, provider_outcome. rw agent_deadline os_deadline. rw !app_assoc. unfold eval_stale, eval_integration, eval_credential_age, eval_approved.
  set (a1 := if negb (require_approved_peer def) then _ else _). set (l1 := if require_approved_peer def && _ then _ else _).
  assert (deadline a1 = minimum l1) as H1.
  { unfold a1, l1. destruct (require_approved_peer def); simpl; [|done]. rw Z.ltb_antisym. by destruct (_ <=? _). }
  set (a2 := match max_credential_age_secs def with Some _ => _ | None => a1 end). set (l2 := l1 ++ _).
  assert (deadline a2 = minimum l2) as H2.
  { unfold a2, l2. clearbody a1 l1. destruct (max_credential_age_secs def) as [z|]; [|by rw app_nil_r]. rw Z.leb_antisym.
    destruct (z <? _); cbn [negb]; [by rw app_nil_r|]. by apply deadline_lapse. }
  set (a3 := match integration def with Some _ => _ | None => a2 end). set (l3 := l2 ++ _).
  assert (deadline a3 = minimum l3) as H3.
  { unfold a3, l3. destruct (integration def); simpl; [|by rw app_nil_r]. destruct (o_passed _); simpl; [|by rw app_nil_r].
    destruct (o_lapse _); [by apply deadline_lapse|by rw app_nil_r]. }
  destruct (max_report_age_secs def); [|by rw app_nil_r]. destruct (stale def facts now); [by rw app_nil_r|]. by apply deadline_lapse.
Qed.

End lapses.

Lemma minimum_elem l m : minimum l = Some m → m ∈ l ∧ ∀ x, x ∈ l → m ≤ x.
Proof.
  revert m; induction l as [|x l IH]; intros m; simpl; [done|]. intros [= <-]. destruct (minimum l) as [k|] eqn:Hk.
  - destruct (IH k eq_refl) as [Hin Hle]. split.
    + destruct (Z.min_spec x k) as [[_ ->]|[_ ->]]; [by left|by right].
    + intros y [->|Hy]%elem_of_cons; [lia|]. specialize (Hle y Hy). lia.
  - destruct l; [|done]. split; [by left|]. intros y [->|Hy]%elem_of_cons; [lia|by apply elem_of_nil in Hy].
Qed.

Lemma minimum_none l : minimum l = None → l = [].
Proof. by destruct l. Qed.

(** What [validate] promises of the ages. *)
Lemma valid_ages def :
  validate def = Ok tt →
  (∀ m, max_credential_age_secs def = Some m → 60 ≤ m < 2 ^ 62) ∧ (∀ m, max_report_age_secs def = Some m → 60 ≤ m < 2 ^ 62) ∧
  (∀ q, integration def = Some q → 60 ≤ q_max_age_secs q < 2 ^ 62 ∧ ∀ m, q_max_last_seen_secs q = Some m → 60 ≤ m < 2 ^ 62).
Proof.
  unfold validate. intros H. inv_ok. rename select (existsb _ (omap _ _) = false) into Hages. rw existsb_false in Hages.
  assert (∀ m, in_range MIN_AGE_SECS MAX_AGE_SECS m = true → 60 ≤ m < 2 ^ 62) as Hr.
  { unfold in_range, MIN_AGE_SECS, MAX_AGE_SECS. intros m ?. to_prop. lia. }
  assert (∀ m, Integrations.in_range Integrations.MIN_AGE_SECS Integrations.MAX_AGE_SECS m = true → 60 ≤ m < 2 ^ 62) as Hi.
  { unfold Integrations.in_range, Integrations.MIN_AGE_SECS, Integrations.MAX_AGE_SECS. intros m ?. to_prop. lia. }
  split_and!.
  - intros m Hm. apply Hr. apply negb_false_iff. apply Hages. rw Hm. simpl. left.
  - intros m Hm. apply Hr. apply negb_false_iff. apply Hages. rw Hm. destruct (max_credential_age_secs def); simpl; set_solver.
  - intros q Hq. 
    match goal with H : match integration def with Some q => negb (requirement_valid q) | None => false end = false |- _ =>
      rewrite Hq in H; rename H into Hv end.
    apply negb_false_iff in Hv. unfold requirement_valid in Hv. cbn [forallb] in Hv. apply andb_true_iff in Hv as [Hv1 Hv2]. split; [by apply Hi|].
    intros m Hm. rw Hm in Hv2. cbn [forallb] in Hv2. rw andb_true_r in Hv2. by apply Hi.
Qed.

Lemma assess_until q fact now t :
  60 ≤ q_max_age_secs q < 2 ^ 62 → (∀ m, q_max_last_seen_secs q = Some m → 60 ≤ m < 2 ^ 62) → now ≤ t →
  o_passed (assess q fact now) = true →
  (∀ d, o_lapse (assess q fact now) = Some d → now ≤ d) ∧
  ((∀ d, o_lapse (assess q fact now) = Some d → t < d) → o_passed (assess q fact t) = true).
Proof.
  intros Hq Hm Ht. unfold assess. destruct fact as [fact|]; [|done]. destruct (f_enabled fact); [|done]. cbn [negb].
  destruct (f_matched fact) as [| | | |e k compliant status seen synced]; try done. destruct (bool_decide (compliant = Some true)); [|done]. cbn [negb].
  rw !(Z.ltb_antisym (sat_sub_i64 _ _)). rewrite !(clamp_leb _ _ (q_max_age_secs q)); [|lia..].
  destruct (Z.leb_spec (now - synced) (q_max_age_secs q)) as [Hn|Hn]; cbn [negb].
  - destruct (q_max_last_seen_secs q) as [m|]; cbn [o_lapse o_passed].
    + destruct seen as [seen|]; [|done]. specialize (Hm m eq_refl). rw !clamp_leb; [|lia..].
      destruct (Z.leb_spec (now - seen) m); [|done]. cbn [o_lapse o_passed]. intros _. split; [intros d [= <-]; lia|].
      intros Hd. specialize (Hd _ eq_refl). destruct (Z.leb_spec (t - synced) (q_max_age_secs q)); [|lia]. cbn [negb].
      destruct (Z.leb_spec (t - seen) m); [done|lia].
    + intros _. split; [intros d [= <-]; lia|]. intros Hd. specialize (Hd _ eq_refl).
      by destruct (Z.leb_spec (t - synced) (q_max_age_secs q)); [|lia].
  - destruct (f_outage_since fact), (q_on_outage q); try done. intros _. split; [done|]. intros _.
    by destruct (Z.leb_spec (t - synced) (q_max_age_secs q)); [lia|].
Qed.

(** Until the first of its lapses, a passing result holds. *)
Section until.
Context (def : PostureDefinition) (facts : NodeFacts) (now t : Z).
Hypothesis Hvalid : validate def = Ok tt.
Hypothesis Ht : now ≤ t.

Lemma lapses_future d : NotMet ∉ verdicts def facts now → d ∈ lapses def facts now → now ≤ d.
Proof.
  intros Hnot. destruct (valid_ages def Hvalid) as (Hage & Hrep & Hint). unfold lapses. rw !elem_of_app.
  intros [H|[H|[H|H]]].
  - destruct (_ && _) eqn:Hb; [|by apply elem_of_nil in H]. apply list_elem_of_singleton in H as ->. to_prop. lia.
  - destruct (max_credential_age_secs def) as [m|]; [|by apply elem_of_nil in H]. specialize (Hage m eq_refl).
    rw clamp_leb in H; [|lia]. destruct (Z.leb_spec (now - issued_at facts) m); [|by apply elem_of_nil in H].
    apply list_elem_of_singleton in H as ->. lia.
  - unfold provider_outcome in H. destruct (integration def) as [q|] eqn:Hq; [|by apply elem_of_nil in H]. simpl in H.
    destruct (Hint q eq_refl) as [Hm Hl]. destruct (o_passed _) eqn:Hp; [|by apply elem_of_nil in H].
    destruct (assess_until q _ now t Hm Hl Ht Hp) as [Hd _]. destruct (o_lapse _) as [at_|]; [|by apply elem_of_nil in H].
    apply list_elem_of_singleton in H as ->. by apply Hd.
  - unfold stale in H. destruct (max_report_age_secs def) as [m|]; [|by apply elem_of_nil in H]. specialize (Hrep m eq_refl). simpl in H.
    rw Z.ltb_antisym clamp_leb in H; [|lia]. destruct (Z.leb_spec (now - reported_at facts) m); [|by apply elem_of_nil in H]. simpl in H.
    apply list_elem_of_singleton in H as ->. lia.
Qed.

Hypothesis Hbefore : ∀ d, d ∈ lapses def facts now → t < d.

Lemma stale_until : stale def facts now = None ↔ stale def facts t = None.
Proof.
  destruct (valid_ages def Hvalid) as (_ & Hrep & _). pose proof Hbefore as Hb. unfold lapses in Hb.
  assert (∀ d, d ∈ match max_report_age_secs def, stale def facts now with Some max, None => [reported_at facts + max] | _, _ => [] end → t < d) as Hd.
  { intros d Hd. apply Hb. rw !elem_of_app. by right; right; right. }
  clear Hb. revert Hd. unfold stale. destruct (max_report_age_secs def) as [m|]; [|done]. specialize (Hrep m eq_refl). simpl.
  rw !Z.ltb_antisym !clamp_leb; [|lia..]. destruct (Z.leb_spec (now - reported_at facts) m), (Z.leb_spec (t - reported_at facts) m); simpl; try done; [|lia].
  intros Hd. specialize (Hd _ (list_elem_of_here _ _)). lia.
Qed.

Lemma known_until value : known def facts t value = known def facts now value.
Proof.
  unfold known. pose proof stale_until as [H1 H2]. destruct (stale def facts now), (stale def facts t); try done.
  - by specialize (H2 eq_refl).
  - by specialize (H1 eq_refl).
Qed.

Lemma tail_until : os_verdict def facts t ++ agent_verdict def facts t = os_verdict def facts now ++ agent_verdict def facts now.
Proof.
  unfold os_verdict, agent_verdict, version_verdict. rw !known_until. done.
Qed.

Lemma head_until :
  NotMet ∉ verdicts def facts now →
  NotMet ∉ approved_verdict def facts t ++ age_verdict def facts t ++ integration_verdict def facts t.
Proof.
  destruct (valid_ages def Hvalid) as (Hage & _ & Hint). unfold verdicts. rw !not_elem_of_app. intros (H1 & H2 & H3 & _).
  pose proof Hbefore as Hb. unfold lapses in Hb. split_and!.
  - assert (∀ d, d ∈ (if require_approved_peer def && (now <? nf_credential_expires_at facts) then [nf_credential_expires_at facts] else []) → t < d) as Hd
      by (intros d Hd; apply Hb; rw !elem_of_app; by left).
    revert Hd H1. unfold approved_verdict, met. destruct (require_approved_peer def); [|done]. simpl.
    destruct (now <? _); [|intros _ H; by destruct H; left]. intros Hd _. specialize (Hd _ (list_elem_of_here _ _)).
    destruct (Z.ltb_spec t (nf_credential_expires_at facts)); [set_solver|lia].
  - assert (∀ d, d ∈ match max_credential_age_secs def with Some max => if sat_sub_i64 now (issued_at facts) <=? max then [issued_at facts + max] else [] | None => [] end → t < d) as Hd
      by (intros d Hd; apply Hb; rw !elem_of_app; by right; left).
    revert Hd H2. unfold age_verdict, met. destruct (max_credential_age_secs def) as [m|]; [|done]. specialize (Hage m eq_refl).
    rw !clamp_leb; [|lia..]. destruct (now - _ <=? m); [|intros _ H; by destruct H; left]. intros Hd _. specialize (Hd _ (list_elem_of_here _ _)).
    destruct (Z.leb_spec (t - issued_at facts) m); [set_solver|lia].
  - assert (∀ d, d ∈ match provider_outcome def facts now with Some o => if o_passed o then match o_lapse o with Some at_ => [at_] | None => [] end else [] | None => [] end → t < d) as Hd
      by (intros d Hd; apply Hb; rw !elem_of_app; by right; right; left).
    revert Hd H3. unfold integration_verdict, provider_outcome, met. destruct (integration def) as [q|]; [|done]. simpl.
    destruct (Hint q eq_refl) as [Hm Hl]. destruct (o_passed _) eqn:Hp; [|intros _ H; by destruct H; left]. intros Hd _.
    destruct (assess_until q _ now t Hm Hl Ht Hp) as [_ ->]; [set_solver|]. intros d Hd'. apply Hd. rw Hd'. left.
Qed.
End until.

Lemma passes_until def facts now t name version :
  validate def = Ok tt → now ≤ t → (∀ d, d ∈ lapses def facts now → t < d) →
  as_passed (evaluate def facts now name version) = true → as_passed (evaluate def facts t name version) = true.
Proof.
  intros Hvalid Ht Hb. rw !(proj1 (passed_verdicts _ _ _ _ _)). intros [Hnot Hunk].
  pose proof (head_until def facts now t Hvalid Ht Hb Hnot) as Hhead. pose proof (tail_until def facts now t Hvalid Ht Hb) as Htail.
  assert (verdicts def facts t = (approved_verdict def facts t ++ age_verdict def facts t ++ integration_verdict def facts t)
    ++ os_verdict def facts now ++ agent_verdict def facts now) as ->. { unfold verdicts. by rw -Htail !app_assoc. }
  unfold verdicts in Hnot, Hunk. split.
  { rw !not_elem_of_app in Hnot. destruct Hnot as (_ & _ & _ & Ho & Ha). apply not_elem_of_app. split; [exact Hhead|].
    apply not_elem_of_app. done. }
  intros [Hu|Hu]%elem_of_app; [|apply Hunk; rw !elem_of_app in Hu |- *; tauto]. exfalso. revert Hu. unfold approved_verdict, age_verdict, integration_verdict, met.
  clear. rw !elem_of_app. intros [H|[H|H]]; repeat case_match; first [by apply elem_of_nil in H|by apply list_elem_of_singleton in H].
Qed.

(** No result lapses silently: when a check that passes now fails at a later
    time, on the same facts, the present assessment carries a deadline, not in the
    past and not after that time.  So a result holds until its deadline, and
    without one it holds for good. *)
Theorem lapse_has_deadline def facts now t name version
    (Hvalid : validate def = Ok tt) (Ht : now ≤ t)
    (Hpass : as_passed (evaluate def facts now name version) = true)
    (Hlapsed : as_passed (evaluate def facts t name version) = false) :
  ∃ d, as_expires_at (evaluate def facts now name version) = Some d ∧ now ≤ d ≤ t.
Proof.
  pose proof (proj1 (proj1 (passed_verdicts def facts now name version)) Hpass) as [Hnot _].
  assert (as_expires_at (evaluate def facts now name version) = minimum (lapses def facts now)) as ->.
  { unfold evaluate in *. cbn [as_passed as_expires_at] in *. by rw Hpass deadline_minimum. }
  assert (¬ ∀ d, d ∈ lapses def facts now → t < d) as Hsome.
  { intros Hb. pose proof (passes_until def facts now t name version Hvalid Ht Hb Hpass). congruence. }
  destruct (minimum (lapses def facts now)) as [d|] eqn:Hd.
  - exists d. split; [done|]. apply minimum_elem in Hd as [Hin Hmin]. split; [by eapply lapses_future|].
    apply Z.le_ngt. intros Hlt. apply Hsome. intros x Hx%Hmin. lia.
  - destruct Hsome. apply minimum_none in Hd as ->. by intros d ?%elem_of_nil.
Qed.

(** ** A lapse the deadlines miss *)

Definition aged_check : PostureDefinition := mkPostureDefinition [] None [] [] (Some 3600) None false Fail None.

Definition laptop : NodeFacts := mkNodeFacts (lit "node-a") None None None [] 900 (Some 1000) 100000 None [].

Lemma lapse_has_deadline_witness :
  ∃ d, as_expires_at (evaluate aged_check laptop 2000 (lit "fresh") 1) = Some d ∧ 2000 ≤ d ≤ 5000.
Proof. apply (lapse_has_deadline aged_check laptop 2000 5000 (lit "fresh") 1); vm_compute; congruence. Defined.

Definition fresh_rule : AclRule := mkAclRule Allow [Member] [] [] [Member] [] [] [] [] [] [lit "fresh"].
Definition fresh_acl : Acl := mkAcl 1 DenyAll [] [] [] [fresh_rule] [] [] None.

Definition stored_check : StoredCheck := mkStoredCheck (lit "check") 1 aged_check 900 900.

Definition compile_at (now : Z) : PostureContext := mkPostureContext [(lit "fresh", stored_check)] {[lit "node-a" := laptop]} now.

Definition posture_org : POrg := mkPOrg [(lit "fresh", stored_check)] [] fresh_acl 7 None.

Lemma hash_iter_single `{HashIter Uuid} {A} (k : Uuid) (x : A) : hash_iter {[k := x]} = [(k, x)].
Proof. apply Permutation_singleton_r. rw hash_iter_perm. by rw map_to_list_singleton. Qed.

(** The deadline of an age is the last moment it holds, and the deadlines kept are
    those after the present.  The compilation that the deadline wakes, in the same
    second, finds the check passing and keeps no deadline; a second later the check
    fails, and no poll ever wakes the clients for it. *)
Theorem lapse_missed `{HashIter Uuid} :
  let o1 := record_deadline posture_org (next_deadline (compile_at 2000) fresh_acl) in
  let o2 := (due o1 4600).1 in
  let o3 := record_deadline o2 (next_deadline (compile_at 4600) fresh_acl) in
  p_next_eval_at o1 = Some 4600 ∧ (due o1 4600).2 = true ∧
  as_passed (evaluate aged_check laptop 4600 (lit "fresh") 1) = true ∧
  as_passed (evaluate aged_check laptop 4601 (lit "fresh") 1) = false ∧ ∀ t, (due o3 t).2 = false.
Proof.
  unfold next_deadline, compile_at. cbn [facts_of ctx_now]. rw !hash_iter_single. split_and!; [vm_compute; reflexivity..|].
  intros t. vm_compute. reflexivity.
Qed.

(** ** Outages *)

Definition seen_daily : IntegrationRequirement := mkIntegrationRequirement (lit "mdm") 3600 (Some 86400) Pass.

Definition unseen_laptop : IntegrationFact :=
  mkIntegrationFact (lit "mdm") (lit "Fleet") (lit "mdm") true (Some 200100)
    (Matched (lit "host-7") SerialNumber (Some true) (lit "compliant") (Some 100000) 200000).

(** A check that fails open in outages passes a device it refused while the data
    was fresh: the last time the provider saw the device is not looked at. *)
Theorem outage_reopens :
  o_passed (assess seen_daily (Some unseen_laptop) 203000) = false ∧
  o_reason (assess seen_daily (Some unseen_laptop) 203000) = NotSeen (lit "Fleet") 103000 86400 ∧
  o_passed (assess seen_daily (Some unseen_laptop) 204000) = true.
Proof. vm_compute. done. Qed.

(** ** Deadlines reach the polls *)

(** What happens to the deadline column between two polls. *)
Inductive deadline_step : POrg → POrg → Prop :=
| step_record o d : deadline_step o (record_deadline o d)
| step_quiet_poll o now : (due o now).2 = false → deadline_step o (due o now).1
| step_edit o o' : p_next_eval_at o' = p_next_eval_at o → deadline_step o o'.

Lemma kept_deadline o o' d :
  rtc deadline_step o o' → (∃ n, p_next_eval_at o = Some n ∧ n ≤ d) → ∃ n, p_next_eval_at o' = Some n ∧ n ≤ d.
Proof.
  intros Hs. induction Hs as [|o o1 o' Hstep _ IH]; [done|]. intros (n & Hn & Hle). apply IH. clear IH. destruct Hstep as [o e|o now|o o1 He].
  - unfold record_deadline. destruct e as [e|]; [|eauto]. rw Hn. destruct (Z.ltb_spec e n); simpl; [|eauto]. exists e. split; [done|lia].
  - unfold due in *. rw Hn in H. rw Hn. destruct (n <=? now); [done|eauto].
  - rw He. eauto.
Qed.

(** Every deadline reaches a poll: after a compilation recorded a deadline,
    whatever other compilations and edits follow, the first poll at or after the
    deadline fires, unless an earlier poll did, and moves the control revision that
    clients wait on. *)
Theorem recorded_deadline_fires o d o' now
    (Hsteps : rtc deadline_step (record_deadline o (Some d)) o') (Hd : d ≤ now) :
  let '(o2, fired) := due o' now in fired = true ∧ p_revision o2 = p_revision o' + 1 ∧ p_next_eval_at o2 = None.
Proof.
  destruct (kept_deadline _ _ d Hsteps) as (n & Hn & Hle).
  { unfold record_deadline. destruct (p_next_eval_at o) as [n|] eqn:Hn; [|by exists d].
    destruct (Z.ltb_spec d n); simpl; [by exists d|by exists n]. }
  unfold due. rw Hn. destruct (Z.leb_spec n now); [done|lia].
Qed.

Lemma recorded_deadline_fires_witness :
  let '(o2, fired) := due (record_deadline (record_deadline posture_org (Some 4600)) (Some 9000)) 4700 in fired = true.
Proof.
  pose proof (recorded_deadline_fires posture_org 4600 (record_deadline (record_deadline posture_org (Some 4600)) (Some 9000)) 4700) as H.
  destruct (due _ 4700) as [o2 fired]. apply H; [apply rtc_once, step_record|lia].
Defined.

(** ** Matching *)

Lemma indices_elem f signals i : i ∈ indices f signals ↔ ∃ s, signals !! i = Some s ∧ f s = true.
Proof.
  unfold indices. rw filter_elem elem_of_seq. split.
  - intros [_ H]. destruct (signals !! i) as [s|]; [|done]. eauto.
  - intros (s & Hs & Hf). rw Hs. split; [|done]. apply lookup_lt_Some in Hs. lia.
Qed.

(** A key the device and the record share. *)
Definition shares (key : MatchKey) (n : NodeKeys) (s : StoredSignal) : Prop :=
  match key with
  | SerialNumber => ∃ v, k_serial n = Some v ∧ g_serial s = Some v
  | MacAddress => ∃ mac, mac ∈ k_macs n ∧ mac ∈ g_macs s
  | Hostname => ∃ h, (k_hostname n ≫= normalise_hostname) = Some h ∧ (g_hostname s ≫= normalise_hostname) = Some h
  end.

Lemma same_key_spec a b : same_key a b = true ↔ ∃ v, a = Some v ∧ b = Some v.
Proof. destruct a, b; simpl; rw ?bool_decide_eq_true; naive_solver. Qed.

Lemma candidates_share signals mh n key set i :
  candidates_of signals mh n = (Some key, set) → i ∈ set → ∃ s, signals !! i = Some s ∧ shares key n s.
Proof.
  unfold candidates_of. repeat case_match; intros [= <- <-] (s & Hs & Hf)%indices_elem; exists s; (split; [done|]); simpl.
  - by apply same_key_spec.
  - apply existsb_elem in Hf as (mac & ? & ?%bool_decide_eq_true). eauto.
  - by apply same_key_spec.
Qed.

Section matching.
Context (nodes : list NodeKeys) (signals : list StoredSignal) (match_hostname : bool).

Let candidates := map (candidates_of signals match_hostname) nodes.

Lemma claimants_elem k i : i ∈ claimants_of candidates k ↔ ∃ key set, candidates !! i = Some (key, set) ∧ k ∈ set.
Proof.
  unfold claimants_of. rw filter_elem elem_of_seq. split.
  - intros [_ H]. destruct (candidates !! i) as [[key set]|]; [|done]. apply bool_decide_eq_true in H. eauto.
  - intros (key & set & Hc & Hk). rw Hc bool_decide_true //. split; [|done]. apply lookup_lt_Some in Hc. lia.
Qed.

(** A matched device has one candidate; the record is its own. *)
Lemma matched_inv i e key compliant status seen synced :
  device_match nodes signals candidates i = Matched e key compliant status seen synced →
  ∃ k s, candidates !! i = Some (Some key, [k]) ∧ signals !! k = Some s ∧ g_external_id s = e ∧ g_compliant s = compliant ∧
    (length (claimants_of candidates k) ≤ 1 ∨ first_claimant nodes (claimants_of candidates k) = Some i)%nat.
Proof.
  unfold device_match. destruct (candidates !! i) as [[[key'|] [|k [|k' ks]]]|] eqn:Hc; try done.
  destruct (_ && _) eqn:Hb; [by destruct (first_claimant _ _)|]. destruct (signals !! k) as [s|] eqn:Hs; [|done]. intros [= <- <- <- <- <- <-].
  exists k, s. split_and!; try done. apply andb_false_iff in Hb as [Hb|Hb]; to_prop; [by left|by right].
Qed.

(** One record, one device. *)
Lemma matched_once i j e key key' c c' st st' sn sn' sy sy' :
  NoDup (map g_external_id signals) →
  device_match nodes signals candidates i = Matched e key c st sn sy →
  device_match nodes signals candidates j = Matched e key' c' st' sn' sy' → i = j.
Proof.
  intros Hnd (k & s & Hci & Hs & He & _ & Hi)%matched_inv (k' & s' & Hcj & Hs' & He' & _ & Hj)%matched_inv.
  assert (k = k') as <-.
  { eapply NoDup_lookup; [exact Hnd|rw list_lookup_fmap Hs //|rw list_lookup_fmap Hs' /= He He' //]. }
  assert (i ∈ claimants_of candidates k) as Hi' by (apply claimants_elem; eexists _, _; split; [done|by left]).
  assert (j ∈ claimants_of candidates k) as Hj' by (apply claimants_elem; eexists _, _; split; [done|by left]).
  destruct Hi as [Hl|Hi]; [|destruct Hj as [Hl|Hj]; [|congruence]];
    (destruct (claimants_of candidates k) as [|x [|y l]]; simpl in Hl; [by apply elem_of_nil in Hi'| |lia]);
    apply list_elem_of_singleton in Hi', Hj'; congruence.
Qed.

Lemma matches_lookup id m :
  NoDup (map k_id nodes) → match_devices nodes signals match_hostname !! id = Some m →
  ∃ i n, nodes !! i = Some n ∧ k_id n = id ∧ m = device_match nodes signals candidates i.
Proof.
  intros Hnd. unfold match_devices. fold candidates. set (l := imap _ nodes). intros Hm.
  assert (∀ l (acc : gmap Uuid DeviceMatch), foldl (λ m p, <[p.1 := p.2]> m) acc l !! id = Some m → (id, m) ∈ l ∨ acc !! id = Some m) as Hfold.
  { clear. intros l. induction l as [|[k v] l IH]; intros acc; simpl; [by right|]. intros [H|H]%IH; [left; by right|].
    destruct (decide (k = id)) as [->|]; [|rw lookup_insert_ne // in H; by right]. rw lookup_insert decide_True // in H. simplify_eq. left. left. }
  apply Hfold in Hm as [Hm|Hm]; [|by rw lookup_empty in Hm]. apply elem_of_lookup_imap in Hm as (i & n & [= -> ->] & Hn). eauto.
Qed.
End matching.

(** A provider's record speaks for one device: when two devices are matched to
    the record of the same id, they are the same device; and a device is matched
    only to a record it shares the stated key with, whose compliance it is given. *)
Theorem record_speaks_once nodes signals mh id id' e key key' c c' st st' sn sn' sy sy'
    (Hids : NoDup (map k_id nodes)) (Hrecords : NoDup (map g_external_id signals))
    (Hm : match_devices nodes signals mh !! id = Some (Matched e key c st sn sy))
    (Hm' : match_devices nodes signals mh !! id' = Some (Matched e key' c' st' sn' sy')) :
  id = id' ∧ ∃ n s, n ∈ nodes ∧ k_id n = id ∧ s ∈ signals ∧ g_external_id s = e ∧ g_compliant s = c ∧ shares key n s.
Proof.
  apply matches_lookup in Hm as (i & n & Hn & Hid & Hi); [|done]. apply matches_lookup in Hm' as (j & m & Hmj & Hid' & Hj); [|done].
  symmetry in Hi, Hj. pose proof (matched_once _ _ _ _ _ _ _ _ _ _ _ _ _ _ _ _ Hrecords Hi Hj) as <-. split; [congruence|].
  apply matched_inv in Hi as (k & s & Hc & Hs & He & Hcomp & _). rw list_lookup_fmap Hn /= in Hc. injection Hc as Hc.
  destruct (candidates_share _ _ _ _ _ k Hc) as (s' & Hs' & Hsh); [by left|]. simplify_eq.
  exists n, s. split_and!; try done; by eapply list_elem_of_lookup_2.
Qed.

Lemma record_speaks_once_witness :
  let a := mkNodeKeys (lit "a") None (Some (lit "SN-77")) [] (Some 10) false in
  let b := mkNodeKeys (lit "b") None (Some (lit "SN-77")) [] (Some 20) false in
  let s := mkStoredSignal (lit "host-7") None (Some (lit "SN-77")) [] (Some true) (lit "compliant") None 100 in
  match_devices [a; b] [s] false !! lit "b" = Some Contested ∧
  ∃ n s', n ∈ [a; b] ∧ k_id n = lit "a" ∧ s' ∈ [s] ∧ g_external_id s' = lit "host-7" ∧ g_compliant s' = Some true ∧ shares SerialNumber n s'.
Proof.
  intros a b s. split; [vm_compute; reflexivity|].
  edestruct (record_speaks_once [a; b] [s] false (lit "a") (lit "a") (lit "host-7") SerialNumber SerialNumber (Some true) (Some true)
    (lit "compliant") (lit "compliant") None None 100 100) as [_ H]; [| | | |exact H].
  - apply (bool_decide_unpack _). vm_compute. exact I.
  - apply (bool_decide_unpack _). vm_compute. exact I.
  - vm_compute. reflexivity.
  - vm_compute. reflexivity.
Defined.

(** ** Hardware identifiers *)

Definition shares_hw (a b : Hardware) : Prop :=
  (∃ v, h_serial a = Some v ∧ h_serial b = Some v) ∨ (∃ mac, mac ∈ h_macs a ∧ mac ∈ h_macs b).

Lemma shares_hw_sym a b : shares_hw a b → shares_hw b a.
Proof. unfold shares_hw. naive_solver. Qed.

Lemma clashes_spec hw n : clashes_with hw n = true ↔ shares_hw hw (w_hardware n).
Proof.
  unfold clashes_with, shares_hw. rw orb_true_iff andb_true_iff !bool_decide_eq_true existsb_elem.
  setoid_rewrite bool_decide_eq_true. split.
  - intros [[[v Hv] Heq]|(mac & ? & ?)]; [left; exists v; split; congruence|right; eauto].
  - intros [(v & Ha & Hb)|(mac & ? & ?)]; [left; split; [eauto|congruence]|right; eauto].
Qed.

Lemma no_clashes o id hw at_ :
  (clashing_nodes o id hw at_).1 = [] → ∀ m, m ∈ hw_nodes o → w_active m = true → w_id m ≠ id → ¬ shares_hw hw (w_hardware m).
Proof.
  unfold clashing_nodes. cbn [fst]. intros Hnil m Hm Ha Hid Hsh%clashes_spec. apply fmap_nil_inv in Hnil.
  assert (m ∈ List.filter (λ n, negb (bool_decide (w_id n = id)) && w_active n && clashes_with hw n) (hw_nodes o)) as Hin.
  { apply filter_elem. rw bool_decide_false // Ha Hsh. done. }
  rw Hnil in Hin. by apply elem_of_nil in Hin.
Qed.

(** What a report may add to pins, and what it proposes. *)
Lemma report_takes pinned serial macs next proposed :
  take_report pinned serial macs = (next, proposed) →
  (proposed = pinned → next = pinned) ∧
  (h_serial next = h_serial pinned ∨ h_serial pinned = None ∧ h_serial next = h_serial proposed) ∧
  (h_macs next = h_macs pinned ∨ h_macs pinned = [] ∧ h_macs next = h_macs proposed).
Proof.
  destruct pinned as [s ms]. unfold take_report. cbn [h_serial h_macs]. intros [= <- <-]. cbn [h_serial h_macs]. split_and!.
  - destruct s, serial, ms, macs; simpl; by intros [=].
  - destruct s, serial; simpl; auto.
  - destruct ms, macs; simpl; auto.
Qed.

Lemma takes_shares pinned next proposed hw :
  (h_serial next = h_serial pinned ∨ h_serial pinned = None ∧ h_serial next = h_serial proposed) →
  (h_macs next = h_macs pinned ∨ h_macs pinned = [] ∧ h_macs next = h_macs proposed) →
  shares_hw next hw → shares_hw pinned hw ∨ shares_hw proposed hw.
Proof.
  intros Hs Hm [(v & Ha & Hb)|(mac & Ha & Hb)]; [destruct Hs as [He|[_ He]]|destruct Hm as [He|[_ He]]]; rw He in Ha;
    unfold shares_hw; naive_solver.
Qed.

(** The outcome of a report: the tables as they were, or the device's pins extended
    where it had none, by identifiers no other active device holds. *)
Lemma report_inv o id serial macs now o' :
  record_hardware o id serial macs now = Ok o' →
  hw_nodes o' = hw_nodes o ∨
  ∃ row next at_ pending,
    row ∈ hw_nodes o ∧ w_id row = id ∧
    hw_nodes o' = map (λ n, if bool_decide (w_id n = id) then mkHwNode id (w_active n) (w_deleted n) next at_ pending else n) (hw_nodes o) ∧
    (h_serial next = h_serial (w_hardware row) ∨ h_serial (w_hardware row) = None) ∧
    (h_macs next = h_macs (w_hardware row) ∨ h_macs (w_hardware row) = []) ∧
    (∀ m, m ∈ hw_nodes o → w_active m = true → w_id m ≠ id → shares_hw next (w_hardware m) → shares_hw (w_hardware row) (w_hardware m)).
Proof.
  unfold record_hardware. destruct (_ && _); [intros [= <-]; by left|]. intros (row & Hrow%ok_or_ok & H)%bind_ok.
  apply find_elem in Hrow as [Hin Hid%bool_decide_eq_true].
  destruct (take_report _ _ _) as [next proposed] eqn:Ht. apply report_takes in Ht as (Hsame & Hser & Hmac).
  destruct (_ && _); [injection H as <-; by left|].
  assert (∃ clashes pin_at, (if bool_decide (proposed = w_hardware row) then ([], now) else clashing_nodes o id proposed now) = (clashes, pin_at) ∧
    (clashes = [] → proposed ≠ w_hardware row → (clashing_nodes o id proposed now).1 = [])) as (clashes & pin_at & Heq & Hclash).
  { case_bool_decide; [by exists [], now|]. destruct (clashing_nodes o id proposed now) as [c p]. exists c, p. done. }
  rewrite Heq in H. clear Heq. set (next' := if negb (length clashes =? 0)%nat then w_hardware row else next) in H.
  destruct (_ && _); [injection H as <-; by left|]. right. injection H as <-.
  eexists row, next', _, _. split_and!; [done|done|reflexivity| | |].
  - unfold next'. destruct clashes; simpl; [|by left]. destruct Hser as [?|[? _]]; auto.
  - unfold next'. destruct clashes; simpl; [|by left]. destruct Hmac as [?|[? _]]; auto.
  - intros m Hm Ha Hne Hsh. unfold next' in Hsh. destruct clashes as [|c cs]; simpl in Hsh; [|done].
    destruct (decide (proposed = w_hardware row)) as [Hp|Hp]; [by rw Hsame // in Hsh|].
    apply (takes_shares (w_hardware row) next proposed) in Hsh as [Hsh|Hsh]; [done| |done|done].
    exfalso. eapply (no_clashes o id proposed now); eauto.
Qed.

Record HwInv (o : HwOrg) : Prop := mkHwInv {
  hw_ids : NoDup (map w_id (hw_nodes o));
  hw_distinct : ∀ n m, n ∈ hw_nodes o → m ∈ hw_nodes o → w_active n = true → w_active m = true → w_id n ≠ w_id m →
    ¬ shares_hw (w_hardware n) (w_hardware m)
}.

(** Reports of devices; devices join without identifiers, and are deactivated for good. *)
Inductive hw_step : HwOrg → HwOrg → Prop :=
| step_report o id serial macs now o' : record_hardware o id serial macs now = Ok o' → hw_step o o'
| step_hw_join o n : w_hardware n = mkHardware None [] → w_id n ∉ map w_id (hw_nodes o) →
    hw_step o (mkHwOrg (hw_nodes o ++ [n]) (hw_revision o) (hw_audit o))
| step_hw_retire o f :
    (∀ n, w_id (f n) = w_id n ∧ w_hardware (f n) = w_hardware n) → (∀ n, w_active (f n) = true → w_active n = true) →
    hw_step o (mkHwOrg (map f (hw_nodes o)) (hw_revision o) (hw_audit o)).

Lemma report_keeps_inv o id serial macs now o' : HwInv o → record_hardware o id serial macs now = Ok o' → HwInv o'.
Proof.
  intros [Hids Hdist] [Hn|(row & next & at_ & pending & Hrow & Hid & Hn & _ & _ & Hnext)]%report_inv.
  { constructor; rw Hn; done. }
  set (f := λ n, if bool_decide (w_id n = id) then mkHwNode id (w_active n) (w_deleted n) next at_ pending else n) in Hn.
  assert (∀ n, w_id (f n) = w_id n) as Hfid by (intros n; unfold f; by case_bool_decide).
  assert (∀ n, w_active (f n) = w_active n) as Hfact by (intros n; unfold f; by case_bool_decide).
  assert (∀ n m, n ∈ hw_nodes o → m ∈ hw_nodes o → w_active n = true → w_active m = true → w_id n = id → w_id m ≠ id →
    ¬ shares_hw next (w_hardware m)) as Hnew.
  { intros n m Hn' Hm Ha Hb Hnid Hmid Hsh. assert (n = row) as -> by (eapply nodup_key; [exact Hids|done|done|congruence]).
    eapply (Hdist row m); [done..|congruence|]. by apply Hnext. }
  constructor; rw Hn.
  - rw map_map. by rewrite (map_ext _ w_id).
  - intros n m (n' & -> & Hn')%list_elem_of_fmap (m' & -> & Hm')%list_elem_of_fmap. rw !Hfact !Hfid. intros Ha Hb Hne.
    unfold f. case_bool_decide as Hc; case_bool_decide as Hd; cbn [w_hardware]; [congruence| | |by apply Hdist].
    + by apply (Hnew n').
    + intros Hsh%shares_hw_sym. by eapply (Hnew m' n').
Qed.

Lemma hw_step_inv o o' : HwInv o → hw_step o o' → HwInv o'.
Proof.
  intros Hinv Hstep. destruct Hstep as [o id serial macs now o' H|o n Hnone Hfresh|o f Hf Hact]; [by eapply report_keeps_inv|..].
  - destruct Hinv as [Hids Hdist].
    assert (∀ hw, ¬ shares_hw (w_hardware n) hw) as Hno by (intros hw; rw Hnone; intros [(v & [=] & _)|(mac & ?%elem_of_nil & _)]; done).
    constructor; cbn [hw_nodes].
    + rw map_app. apply NoDup_app. split_and!; [done| |apply NoDup_singleton]. by intros k Hk ->%list_elem_of_singleton.
    + intros a b [Ha| ->%list_elem_of_singleton]%elem_of_app [Hb| ->%list_elem_of_singleton]%elem_of_app; [by apply Hdist| | |]; intros _ _ _.
      * intros Hsh%shares_hw_sym. by eapply Hno.
      * by apply Hno.
      * by apply Hno.
  - destruct Hinv as [Hids Hdist]. constructor; cbn [hw_nodes].
    + rw map_map. rewrite (map_ext _ w_id); [done|]. intros n. apply Hf.
    + intros a b (n & -> & Hn)%list_elem_of_fmap (m & -> & Hm)%list_elem_of_fmap.
      destruct (Hf n) as [-> ->], (Hf m) as [-> ->]. intros Ha%Hact Hb%Hact. by apply Hdist.
Qed.

(** No report takes another device's identity: whatever serial numbers and MAC
    addresses devices report, in any order, no two active devices ever hold the same
    serial number or a common MAC address, unless an administrator approves it. *)
Theorem reports_never_share o o' (Hempty : hw_nodes o = []) (Hsteps : rtc hw_step o o') : HwInv o'.
Proof.
  assert (HwInv o) as Hinv by (constructor; rw Hempty; [constructor|by intros ? ? ?%elem_of_nil]). clear Hempty.
  induction Hsteps as [|o o1 o2 Hstep Hsteps IH]; [done|]. apply IH. by eapply hw_step_inv.
Qed.

Definition two_devices : HwOrg :=
  mkHwOrg [mkHwNode (lit "a") true false (mkHardware None []) None None; mkHwNode (lit "b") true false (mkHardware None []) None None] 0 [].

Definition a_reported : HwOrg :=
  match record_hardware two_devices (lit "a") (Some (lit "c02xk1")) None 100 with Ok o => o | Err _ => two_devices end.

(** [b] claims the serial number [a] reported. *)
Definition b_claims : HwOrg :=
  match record_hardware a_reported (lit "b") (Some (lit "C02 XK1")) None 200 with Ok o => o | Err _ => a_reported end.

Lemma reports_never_share_witness :
  HwInv b_claims ∧ map w_pending (hw_nodes b_claims) = [None; Some (mkHardware (Some (lit "C02XK1")) [])] ∧
  map w_pinned_at (hw_nodes b_claims) = [Some 100; None].
Proof.
  split; [|split; vm_compute; reflexivity].
  apply (reports_never_share (mkHwOrg [] 0 [])); [reflexivity|].
  eapply rtc_l; [apply (step_hw_join _ (mkHwNode (lit "a") true false (mkHardware None []) None None)); [reflexivity|apply not_elem_of_nil]|].
  eapply rtc_l; [apply (step_hw_join _ (mkHwNode (lit "b") true false (mkHardware None []) None None)); [reflexivity|]|].
  { intros H. vm_compute in H. apply list_elem_of_singleton in H. discriminate. }
  eapply (rtc_l _ _ a_reported); [apply (step_report _ (lit "a") (Some (lit "c02xk1")) None 100); vm_compute; reflexivity|].
  apply rtc_once. apply (step_report _ (lit "b") (Some (lit "C02 XK1")) None 200). vm_compute. reflexivity.
Defined.

(** Pins change only by approval: a report leaves every serial number and every
    set of MAC addresses already pinned, on its own device and on all others. *)
Theorem pins_are_kept o id serial macs now o' n
    (Hinv : NoDup (map w_id (hw_nodes o))) (Hok : record_hardware o id serial macs now = Ok o') (Hn : n ∈ hw_nodes o) :
  ∃ n', n' ∈ hw_nodes o' ∧ w_id n' = w_id n ∧
    (∀ v, h_serial (w_hardware n) = Some v → h_serial (w_hardware n') = Some v) ∧
    (h_macs (w_hardware n) ≠ [] → h_macs (w_hardware n') = h_macs (w_hardware n)) ∧
    (w_id n ≠ id → n' = n).
Proof.
  apply report_inv in Hok as [Heq|(row & next & at_ & pending & Hrow & Hid & Heq & Hs & Hm & _)].
  { exists n. rw Heq. done. }
  eexists. split; [rw Heq; by apply list_elem_of_fmap_2|]. cbn beta. case_bool_decide as Hc; [|done].
  assert (n = row) as -> by (eapply nodup_key; [exact Hinv|done|done|congruence]). cbn [w_id w_hardware]. split_and!; [done| | |done].
  - intros v Hv. destruct Hs; congruence.
  - intros Hne. by destruct Hm.
Qed.

Lemma pins_are_kept_witness :
  ∃ n', n' ∈ hw_nodes b_claims ∧ h_serial (w_hardware n') = Some (lit "C02XK1").
Proof.
  destruct (pins_are_kept a_reported (lit "b") (Some (lit "C02 XK1")) None 200 b_claims
    (mkHwNode (lit "a") true false (mkHardware (Some (lit "C02XK1")) []) (Some 100) None)) as (n' & Hn & _ & Hs & _).
  - apply (bool_decide_unpack _). vm_compute. exact I.
  - vm_compute. reflexivity.
  - apply list_elem_of_lookup_2 with 0%nat. vm_compute. reflexivity.
  - exists n'. split; [exact Hn|]. by apply Hs.
Defined.

(** An approved claim never outranks the devices that hold the identifier: its pin
    comes after theirs. *)
Lemma later_pin l at_ :
  let after := foldl (λ after n, match w_pinned_at n with Some held => Z.max after (held + 1) | None => after end) at_ l in
  at_ ≤ after ∧ ∀ n held, n ∈ l → w_pinned_at n = Some held → held < after.
Proof.
  revert at_; induction l as [|m l IH]; intros at_; simpl; [split; [lia|by intros ? ? ?%elem_of_nil]|].
  destruct (IH (match w_pinned_at m with Some held => Z.max at_ (held + 1) | None => at_ end)) as [Hle Hall].
  split; [destruct (w_pinned_at m); lia|]. intros n held [->|Hn]%elem_of_cons Hh; [rw Hh in Hle |- *; lia|by eapply Hall].
Qed.

(** Approval does not take a match away: the pin an approval sets comes strictly
    after the pin of every other active device that shares an identifier with the
    approved hardware, so the device that held it first stays first. *)
Theorem approval_ranks_last o r id now o'
    (Hok : approve_hardware o r id now = Ok o') :
  can r ManageSecurity = true ∧ ∃ hardware at_, now ≤ at_ ∧
    (∀ n, n ∈ hw_nodes o' → w_id n = id → w_hardware n = hardware ∧ w_pinned_at n = Some at_ ∧ w_pending n = None) ∧
    (∀ m held, m ∈ hw_nodes o' → w_active m = true → w_id m ≠ id → shares_hw hardware (w_hardware m) →
       w_pinned_at m = Some held → held < at_).
Proof.
  unfold approve_hardware in Hok. apply bind_ok in Hok as (u & Hreq%map_err_ok & Hok). unfold require in Hreq.
  destruct (can r ManageSecurity); [|done]. split; [done|]. apply bind_ok in Hok as (row & _ & Hok).
  apply bind_ok in Hok as (hardware & _ & Hok).
  destruct (clashing_nodes o id hardware now) as [clashes pin_at] eqn:Hc. apply ok_inj in Hok. subst o'.
  unfold clashing_nodes in Hc. injection Hc as _ Hpin. set (rows := List.filter _ (hw_nodes o)) in Hpin.
  destruct (later_pin rows now) as [Hle Hall]. rewrite Hpin in Hle, Hall. exists hardware, pin_at. split_and!; [done| |].
  - intros n (m & -> & Hm)%list_elem_of_fmap. by case_bool_decide.
  - intros m held (m' & -> & Hm)%list_elem_of_fmap. case_bool_decide as Hid; cbn [w_active w_id]; [done|]. intros Ha Hne Hsh Hh.
    eapply Hall; [|exact Hh]. unfold rows. apply filter_elem. split; [done|]. rw bool_decide_false // Ha. by apply clashes_spec.
Qed.

Lemma approval_ranks_last_witness :
  ∃ o', approve_hardware b_claims Owner (lit "b") 90 = Ok o' ∧ ∃ at_, 100 < at_ ∧ map w_pinned_at (hw_nodes o') = [Some 100; Some at_].
Proof.
  eexists. split; [vm_compute; reflexivity|]. exists 101. split; [|vm_compute; reflexivity].
  edestruct (approval_ranks_last b_claims Owner (lit "b") 90) as (_ & hardware & at_ & Hle & Hb & Ha); [vm_compute; reflexivity|].
  destruct (Hb (mkHwNode (lit "b") true false (mkHardware (Some (lit "C02XK1")) []) (Some 101) None)) as (Hh & Hat & _);
    [apply list_elem_of_lookup_2 with 1%nat; reflexivity|reflexivity|].
  injection Hat as ->. eapply (Ha (mkHwNode (lit "a") true false (mkHardware (Some (lit "C02XK1")) []) (Some 100) None)).
  - apply list_elem_of_lookup_2 with 0%nat. reflexivity.
  - reflexivity.
  - intros H. vm_compute in H. discriminate.
  - rewrite <- Hh. left. eexists. split; reflexivity.
  - reflexivity.
Defined.

(** ** The table of checks *)

Record WfChecks (o : POrg) : Prop := mkWfChecks {
  wf_count : Z.of_nat (length (p_checks o)) ≤ MAX_CHECKS_PER_ORG;
  wf_names : NoDup (map fst (p_checks o));
  wf_check_ids : NoDup (map (λ e, sc_id e.2) (p_checks o));
  wf_check : ∀ e, e ∈ p_checks o → valid_acl_group_name e.1 = true ∧ validate (sc_definition e.2) = Ok tt ∧ 1 ≤ sc_version e.2
}.

(** The requests on checks; the last rule stands for changes of other columns. *)
Inductive check_step : POrg → POrg → Prop :=
| step_create_check o r name def id at_ o' : create_check_as o r name def id at_ = Ok o' → check_step o o'
| step_update_check o r id version def at_ o' : update_check_as o r id version def at_ = Ok o' → check_step o o'
| step_delete_check o r id o' : delete_check_as o r id = Ok o' → check_step o o'
| step_poll o now : check_step o (due o now).1
| step_deadline o d : check_step o (record_deadline o d)
| step_columns o o' : p_checks o' = p_checks o → check_step o o'.

Lemma wf_same o o' : p_checks o' = p_checks o → WfChecks o → WfChecks o'.
Proof. intros Heq [? ? ? ?]. constructor; by rw Heq. Qed.

Lemma create_check_wf o r name def id at_ o' : WfChecks o → create_check_as o r name def id at_ = Ok o' → WfChecks o'.
Proof.
  intros [Hc Hn Hi Hw] H. unfold create_check_as in H. inv_ok. subst o'. to_prop.
  match goal with H : validate def = Ok ?u |- _ => destruct u end.
  rename select (existsb _ (p_checks o) = false) into Hno. rw existsb_false in Hno.
  constructor; cbn [p_checks set_checks].
  - rw length_app /=. unfold MAX_CHECKS_PER_ORG in *. lia.
  - rw map_app. apply NoDup_app. split_and!; [done| |apply NoDup_singleton].
    intros k (e & -> & He)%list_elem_of_fmap Hk%list_elem_of_singleton. specialize (Hno e He). cbn [fst] in *. to_prop. done.
  - rw map_app. apply NoDup_app. split_and!; [done| |apply NoDup_singleton].
    intros k (e & -> & He)%list_elem_of_fmap Hk%list_elem_of_singleton. specialize (Hno e He). cbn [snd sc_id] in *. to_prop. done.
  - intros e [He| ->%list_elem_of_singleton]%elem_of_app; [by apply Hw|]. simpl. split_and!; [done..|lia].
Qed.

Lemma update_check_wf o r id version def at_ o' : WfChecks o → update_check_as o r id version def at_ = Ok o' → WfChecks o'.
Proof.
  intros [Hc Hn Hi Hw] H. unfold update_check_as in H. apply bind_ok in H as (u1 & _ & H). apply bind_ok in H as ([] & Hval & H).
  apply bind_ok in H as (u2 & _ & H). apply bind_ok in H as ([name row] & _ & H). apply then_ok in H as [_ H]. apply ok_inj in H. subst o'.
  set (f := λ e : str * StoredCheck, if bool_decide (sc_id e.2 = id) && (sc_version e.2 =? version)
    then (e.1, mkStoredCheck id (sc_version e.2 + 1) def (sc_created_at e.2) at_) else e). assert (∀ e, (f e).1 = e.1 ∧ sc_id (f e).2 = sc_id e.2) as Hf.
  { intros e. unfold f. destruct (bool_decide (sc_id e.2 = id)) eqn:Hb, (sc_version e.2 =? version); to_prop; done. }
  constructor; cbn [p_checks set_checks].
  - by rw length_map.
  - rw map_map. rewrite (map_ext _ fst); [done|]. intros e. apply Hf.
  - rw map_map. rewrite (map_ext _ (λ e, sc_id e.2)); [done|]. intros e. apply Hf.
  - intros e (d & -> & Hd)%list_elem_of_fmap. destruct (Hw d Hd) as (Hvn & Hvd & Hvv). unfold f.
    destruct (_ && _); [|done]. simpl. split_and!; [done..|lia].
Qed.

Lemma delete_check_wf o r id o' : WfChecks o → delete_check_as o r id = Ok o' → WfChecks o'.
Proof.
  intros [Hc Hn Hi Hw] H. unfold delete_check_as in H. apply bind_ok in H as (u1 & _ & H). apply bind_ok in H as ([name row] & _ & H).
  apply then_ok in H as [_ H]. apply ok_inj in H. subst o'. constructor; cbn [p_checks set_checks].
  - pose proof (filter_length_le (λ e : str * StoredCheck, negb (bool_decide (sc_id e.2 = id))) (p_checks o)). lia.
  - by apply nodup_filter_key.
  - by apply nodup_filter_key.
  - intros e [He _]%filter_elem. by apply Hw.
Qed.

Lemma check_step_wf o o' : WfChecks o → check_step o o' → WfChecks o'.
Proof.
  intros Hwf Hstep. destruct Hstep.
  - by eapply create_check_wf.
  - by eapply update_check_wf.
  - by eapply delete_check_wf.
  - eapply wf_same; [|exact Hwf]. unfold due. destruct (p_next_eval_at o); [|done]. by destruct (_ <=? _).
  - eapply wf_same; [|exact Hwf]. unfold record_deadline. destruct d as [d|]; [|done].
    destruct (p_next_eval_at o) as [n|]; [|done]. by destruct (d <? n).
  - by eapply wf_same.
Qed.

(** The checks stay well formed: every sequence of requests from an organisation
    without checks leaves at most 32 of them, with different and valid names, each
    with a definition that passes validation and a version that counts from 1. *)
Theorem checks_well_formed o o' (Hnone : p_checks o = []) (Hsteps : rtc check_step o o') : WfChecks o'.
Proof.
  assert (WfChecks o) as Hwf.
  { constructor; rw Hnone; [done|constructor|constructor|by intros e ?%elem_of_nil]. }
  clear Hnone. induction Hsteps as [|o o1 o2 Hstep _ IH]; [done|]. apply IH. by eapply check_step_wf.
Qed.

Lemma checks_well_formed_witness :
  ∃ o', create_check_as (mkPOrg [] [] fresh_acl 7 None) NetworkAdmin (lit "fresh") aged_check (lit "check") 900 = Ok o' ∧ WfChecks o'.
Proof.
  eexists. split; [vm_compute; reflexivity|]. apply (checks_well_formed (mkPOrg [] [] fresh_acl 7 None)); [reflexivity|].
  apply rtc_once. eapply (step_create_check _ NetworkAdmin (lit "fresh") aged_check (lit "check") 900). vm_compute. reflexivity.
Defined.

End PostureProps.
