(* ===== verification/PostureExact.v ===== *)
(** * What a posture check means

    A reference for [Posture.evaluate] that shares no comparison with it: versions are
    read and ordered component by component, ages are differences of times, and the
    provider's record has its own conditions, the one for an outage included. *)

From S2P Require Import Prelude Text Net FlowReport Policy Ipam AclFilter ForwardFilter CoordAcl CoordForward AppConnectors CoordRules Resources ResourcesProps Posture PostureProps.

Module PostureExact.
Import Integrations Posture ResourcesProps PostureProps.

(** ** Versions *)

(** [v1.2.3-rc1] and the like: at most four numbers, after any number of [v], in front
    of a dash, a plus or a blank. *)
Definition reads_version (text : str) (ns : list Z) : Prop :=
  ∃ k core rest, trim text = replicate k 118 ++ core ++ rest ∧ head (core ++ rest) ≠ Some 118 ∧
    (∀ c, c ∈ core → c ∉ [45; 43; 32]) ∧ match rest with c :: _ => c ∈ [45; 43; 32] | [] => True end ∧
    Forall2 (λ piece n, parse_uint 10 U64_MAX piece = Some n) (Text.split 46 core) ns ∧ (length ns ≤ 4)%nat.

(** A missing component is zero; the first that differs decides. *)
Definition part (v : list Z) (i : nat) : Z := default 0 (v !! i).

Definition at_least (found minimum : list Z) : Prop :=
  (∀ i, part found i = part minimum i) ∨
  ∃ i, part minimum i < part found i ∧ ∀ j, (j < i)%nat → part found j = part minimum j.

Lemma strip_v n s : (length s ≤ n)%nat → ∃ k, s = replicate k 118 ++ strip_many [lit "v"] n s ∧ head (strip_many [lit "v"] n s) ≠ Some 118.
Proof.
  change (lit "v") with [118]. revert s. induction n as [|n IH]; intros s Hl; cbn [strip_many strip_one].
  - destruct s; [|simpl in Hl; lia]. by exists 0%nat.
  - destruct s as [|c s]; [by exists 0%nat|]. cbn [strip_prefix]. destruct (Z.eqb_spec 118 c) as [<-|Hc].
    + simpl in Hl. destruct (IH s ltac:(lia)) as (k & Hk & Hh). exists (S k). split; [|done]. cbn [replicate app]. by f_equal.
    + exists 0%nat. split; [done|]. simpl. congruence.
Qed.

Lemma leading_v k l s t : head s ≠ Some 118 → head t ≠ Some 118 → replicate k 118 ++ s = replicate l 118 ++ t → s = t.
Proof.
  revert l; induction k as [|k IH]; intros [|l] Hs Ht; cbn [replicate app]; [done| | |].
  - intros ->. by destruct Hs.
  - intros <-. by destruct Ht.
  - intros [= H]. by eapply IH.
Qed.

Lemma until_any_split stops s :
  (∀ c, c ∈ until_any stops s → c ∉ stops) ∧
  ∃ rest, s = until_any stops s ++ rest ∧ match rest with c :: _ => c ∈ stops | [] => True end.
Proof.
  induction s as [|c s [IH (rest & Hs & Hr)]]; cbn [until_any]; [split; [by intros c ?%not_elem_of_nil|by exists []]|].
  assert (existsb (Z.eqb c) stops = true ↔ c ∈ stops) as Hc.
  { rw existsb_elem. setoid_rewrite Z.eqb_eq. naive_solver. }
  destruct (existsb (Z.eqb c) stops).
  - split; [by intros x ?%not_elem_of_nil|]. exists (c :: s). split; [done|]. by apply Hc.
  - split; [intros x [->|Hx]%elem_of_cons; [intros Hin; by apply Hc in Hin|by apply IH]|]. exists rest. split; [cbn [app]; by f_equal|done].
Qed.

Lemma until_any_app stops core rest :
  (∀ c, c ∈ core → c ∉ stops) → match rest with c :: _ => c ∈ stops | [] => True end → until_any stops (core ++ rest) = core.
Proof.
  assert (∀ c, existsb (Z.eqb c) stops = true ↔ c ∈ stops) as Hc.
  { intros c. rw existsb_elem. setoid_rewrite Z.eqb_eq. naive_solver. }
  intros Hcore Hrest. induction core as [|c core IH]; cbn [app until_any].
  - destruct rest as [|c rest]; cbn [until_any]; [done|]. by rw (proj2 (Hc c) Hrest).
  - destruct (existsb (Z.eqb c) stops) eqn:He; [apply Hc in He; exfalso; eapply Hcore; [|exact He]; by left|]. f_equal. apply IH. intros x Hx. apply Hcore. by right.
Qed.

Lemma collect_some_iff {A B} (f : A → option B) l ys : collect_some f l = Some ys ↔ Forall2 (λ x y, f x = Some y) l ys.
Proof.
  revert ys; induction l as [|x l IH]; intros ys; cbn [collect_some].
  - split; [intros [= <-]; constructor|by inversion 1].
  - split.
    + intros (y & Hy & (zs & Hzs & [= <-])%bind_Some)%bind_Some. constructor; [done|by apply IH].
    + inversion 1 as [|? y ? zs Hy Hzs]; subst. rewrite Hy. cbn. apply IH in Hzs. by rewrite Hzs.
Qed.

Lemma parse_version_iff text ns : parse_version text = Some ns ↔ reads_version text ns.
Proof.
  unfold parse_version, reads_version. destruct (strip_v (length (trim text)) (trim text) (le_n _)) as (k & Hk & Hh).
  set (value := strip_many [lit "v"] (length (trim text)) (trim text)) in *. change (lit "-+ ") with [45; 43; 32].
  destruct (until_any_split [45; 43; 32] value) as (Hcore & rest & Hv & Hrest). split.
  - intros (parts & Hp%collect_some_iff & Hl)%bind_Some. destruct (_ && _) eqn:Hn; [|done]. injection Hl as <-. to_prop.
    exists k, (until_any [45; 43; 32] value), rest. rw -Hv. by split_and!.
  - intros (k' & core & rest' & Ht & Hh' & Hc' & Hr' & Hp & Hlen). rewrite Hk in Ht. apply leading_v in Ht; [|done..].
    rewrite Ht until_any_app //. rewrite (proj2 (collect_some_iff _ _ _) Hp). cbn [mbind option_bind].
    assert (length ns ≠ 0%nat) as Hne.
    { apply Forall2_length in Hp. rewrite -Hp. destruct core as [|c core]; [done|]. cbn [Text.split]. repeat case_match; simpl; lia. }
    rewrite (proj2 (Nat.eqb_neq _ _) Hne) (proj2 (Nat.leb_le _ _) Hlen). done.
Qed.

Lemma at_least_cons x y a b : at_least (x :: a) (y :: b) ↔ y < x ∨ x = y ∧ at_least a b.
Proof.
  unfold at_least, part. split.
  - intros [He|([|i] & Hi & Hj)].
    + right. split; [exact (He 0%nat)|]. left. intros i. exact (He (S i)).
    + by left.
    + right. split; [apply (Hj 0%nat); lia|]. right. exists i. split; [done|]. intros j Hlt. apply (Hj (S j)). lia.
  - intros [Hlt|[-> [He|(i & Hi & Hj)]]].
    + right. exists 0%nat. split; [done|]. intros j. lia.
    + left. intros [|i]; [done|apply He].
    + right. exists (S i). split; [done|]. intros [|j] Hlt; [done|]. apply Hj. lia.
Qed.

Lemma vec_ge_iff a b : length a = length b → vec_ge a b = true ↔ at_least a b.
Proof.
  revert b; induction a as [|x a IH]; intros [|y b] Hl; try done; cbn [vec_ge].
  - split; [by left|done].
  - rw orb_true_iff andb_true_iff Z.ltb_lt Z.eqb_eq at_least_cons IH //. by injection Hl.
Qed.

Lemma part_pad n v i : part (pad n v) i = part v i.
Proof.
  unfold part, pad. destruct (decide (i < length v)%nat) as [Hi|Hi]; [by rw lookup_app_l|].
  rw lookup_app_r; [|lia]. rw (lookup_ge_None_2 v); [|lia]. destruct (replicate _ _ !! _) eqn:Hr; [|done]. by apply lookup_replicate_1 in Hr as [-> _].
Qed.

Lemma version_at_least_iff found minimum : version_at_least found minimum = true ↔ at_least found minimum.
Proof.
  unfold version_at_least. rw vec_ge_iff; [|unfold pad; rw !length_app !length_replicate; lia]. unfold at_least. by setoid_rewrite part_pad.
Qed.

(** ** What is required *)

Section reference.
Context (def : PostureDefinition) (facts : NodeFacts) (now : Z).

(** The agent's report is recent enough; a device that never reported is as old as
    its registration. *)
Definition current : Prop :=
  ∀ max, max_report_age_secs def = Some max → now - default (nf_created_at facts) (nf_inventory_reported_at facts) ≤ max.

(** A field of the report that is not blank, in lower case. *)
Definition says (value : option str) (x : str) : Prop := ∃ raw, value = Some raw ∧ trim raw ≠ [] ∧ x = to_ascii_lowercase (trim raw).

Definition has_version (value : option str) (ns : list Z) : Prop := ∃ x, says value x ∧ reads_version x ns.

(** The reported version is a version, and below the smallest allowed one. *)
Definition too_low (value : option str) (minimum : str) : Prop :=
  ∃ ns ms, has_version value ns ∧ reads_version minimum ms ∧ ¬ at_least ns ms.

(** The provider vouches for the device: an enabled integration has one record for it,
    compliant, and synchronised and seen recently; or synchronised too long ago, during
    an outage of the provider, where the check passes on outages. *)
Definition vouched (q : IntegrationRequirement) : Prop :=
  ∃ fact external key status seen synced,
    BTree.get (q_integration_id q) (nf_integrations facts) = Some fact ∧ f_enabled fact = true ∧
    f_matched fact = Matched external key (Some true) status seen synced ∧
    ((now - synced ≤ q_max_age_secs q ∧ ∀ max, q_max_last_seen_secs q = Some max → ∃ at_, seen = Some at_ ∧ now - at_ ≤ max) ∨
     (q_max_age_secs q < now - synced ∧ is_Some (f_outage_since fact) ∧ q_on_outage q = Pass)).

Inductive unmet : Prop :=
| unmet_expired : require_approved_peer def = true → nf_credential_expires_at facts ≤ now → unmet
| unmet_age max : max_credential_age_secs def = Some max → max < now - default (nf_created_at facts) (nf_credential_issued_at facts) → unmet
| unmet_provider q : integration def = Some q → ¬ vouched q → unmet
| unmet_family os : current → says (nf_os facts) os → os_families def ≠ [] → os ∉ os_families def → unmet
| unmet_os os minimum : current → says (nf_os facts) os → BTree.get os (min_os_versions def) = Some minimum →
    too_low (nf_os_version facts) minimum → unmet
| unmet_agent minimum : current → min_agent_version def = Some minimum → too_low (nf_agent_version facts) minimum → unmet.

Inductive unknown : Prop :=
| unknown_os : os_families def ≠ [] ∨ min_os_versions def ≠ [] → ¬ (current ∧ ∃ os, says (nf_os facts) os) → unknown
| unknown_os_version os minimum : current → says (nf_os facts) os → BTree.get os (min_os_versions def) = Some minimum →
    (¬ ∃ ns, has_version (nf_os_version facts) ns) → unknown
| unknown_agent minimum : min_agent_version def = Some minimum → ¬ (current ∧ ∃ ns, has_version (nf_agent_version facts) ns) → unknown.

(** ** The code's verdicts *)

Hypothesis Hvalid : validate def = Ok tt.

Lemma current_iff : stale def facts now = None ↔ current.
Proof using Hvalid.
  unfold stale, current, reported_at. destruct (max_report_age_secs def) as [max|] eqn:Hm; cbn [mbind option_bind]; [|done].
  pose proof (proj1 (proj2 (valid_ages def Hvalid)) max Hm) as Hr. rw Z.ltb_antisym clamp_leb; [|lia].
  destruct (Z.leb_spec (now - default (nf_created_at facts) (nf_inventory_reported_at facts)) max) as [Hle|Hlt]; simpl.
  - split; [|done]. by intros _ ? [= <-].
  - split; [done|]. intros Hc. specialize (Hc max eq_refl). lia.
Qed.

Lemma current_dec : current ∨ ¬ current.
Proof using Hvalid. destruct (stale def facts now) eqn:Hs; [right|left; by apply current_iff]. intros Hc%current_iff. congruence. Qed.

Lemma known_iff value x : known def facts now value = Some x ↔ current ∧ says value x.
Proof using Hvalid.
  unfold known, says. rw -current_iff. destruct (stale def facts now); [naive_solver|]. split.
  - intros (v & (raw & -> & ->)%fmap_Some & Hv)%bind_Some. destruct (trim raw) eqn:Ht; [done|]. injection Hv as <-. split; [done|].
    exists raw. by rw Ht.
  - intros (_ & raw & -> & Hne & ->). cbn. destruct (trim raw); done.
Qed.

Lemma version_known value ns :
  (v ← known def facts now value; parse_version v) = Some ns ↔ current ∧ has_version value ns.
Proof using Hvalid.
  unfold has_version. rw bind_Some. setoid_rewrite known_iff. setoid_rewrite parse_version_iff. naive_solver.
Qed.

Lemma version_verdict_iff value minimum :
  is_Some (parse_version minimum) →
  (version_verdict def facts now value minimum = NotMet ↔ current ∧ too_low value minimum) ∧
  (version_verdict def facts now value minimum = Unknown ↔ ¬ (current ∧ ∃ ns, has_version value ns)).
Proof using Hvalid.
  intros [ms Hms]. unfold version_verdict, too_low. rw Hms. cbn [default from_option id].
  destruct (v ← known def facts now value; parse_version v) as [ns|] eqn:Hv.
  - apply version_known in Hv as [Hc Hv]. pose proof (version_at_least_iff ns ms) as Hge. split.
    + unfold met. destruct (version_at_least ns ms) eqn:Hb.
      * split; [done|]. intros (_ & ns' & ms' & Hv' & Hms' & Hnot). exfalso. apply Hnot.
        assert (Some ns' = Some ns) as [= ->] by (rw -(proj2 (version_known value ns')) // -(proj2 (version_known value ns)) //).
        apply parse_version_iff in Hms'. rewrite Hms in Hms'. injection Hms' as <-. by apply Hge.
      * split; [|done]. intros _. split; [done|]. exists ns, ms. split_and!; [done|by apply parse_version_iff|]. intros ?%Hge. done.
    + split; [unfold met; by destruct (version_at_least ns ms)|]. intros Hn. exfalso. apply Hn. eauto.
  - split; [split; [done|]; intros (Hc & ns & _ & Hv' & _)|split; [|done]; intros _ (Hc & ns & Hv')];
      by rewrite (proj2 (version_known value ns)) in Hv.
Qed.

Lemma met_notmet b : met b = NotMet ↔ b = false.
Proof using. by destruct b. Qed.
Lemma met_unknown b : met b ≠ Unknown.
Proof using. by destruct b. Qed.

(** A record that cannot vouch. *)
Ltac refuted := split; [done|]; intros (? & ? & ? & ? & ? & ? & ? & ? & ? & _); congruence.

Lemma assess_iff q fact :
  integration def = Some q → BTree.get (q_integration_id q) (nf_integrations facts) = fact →
  o_passed (assess q fact now) = true ↔ vouched q.
Proof using Hvalid.
  intros Hq Hget. destruct (proj2 (proj2 (valid_ages def Hvalid)) q Hq) as [Ha Hs]. unfold vouched. rw Hget. unfold assess.
  destruct fact as [fact|]; [|refuted].
  destruct (f_enabled fact) eqn:He; cbn [negb]; [|refuted].
  destruct (f_matched fact) as [| | | |ext key compliant status seen synced] eqn:Hm; [refuted..|].
  case_bool_decide as Hc; cbn [negb]; [subst compliant|refuted].
  rw Z.ltb_antisym clamp_leb; [|lia]. destruct (Z.leb_spec (now - synced) (q_max_age_secs q)) as [Hle|Hlt]; cbn [negb].
  - assert (o_passed (match q_max_last_seen_secs q with
      | Some max => match seen with
          | Some at_ => if sat_sub_i64 now at_ <=? max then mkOutcome true (Compliant (f_provider fact) status key (sat_sub_i64 now synced))
                          (Some (Z.min (synced + q_max_age_secs q) (at_ + max)))
                        else fail (NotSeen (f_provider fact) (sat_sub_i64 now at_) max)
          | None => fail (NoLastSeen (f_provider fact))
          end
      | None => mkOutcome true (Compliant (f_provider fact) status key (sat_sub_i64 now synced)) (Some (synced + q_max_age_secs q))
      end) = true ↔ ∀ max, q_max_last_seen_secs q = Some max → ∃ at_, seen = Some at_ ∧ now - at_ ≤ max) as Hseen.
    { destruct (q_max_last_seen_secs q) as [max|]; [|done]. destruct seen as [at_|]; [|split; [done|]; intros H; by destruct (H max eq_refl) as (? & ? & _)].
      rw clamp_leb; [|by specialize (Hs max eq_refl); lia]. destruct (Z.leb_spec (now - at_) max); cbn [o_passed].
      - split; [|done]. intros _ ? [= <-]. eauto.
      - split; [done|]. intros H'. destruct (H' max eq_refl) as (? & [= <-] & ?). lia. }
    rw Hseen. split.
    + intros H'. exists fact, ext, key, status, seen, synced. split_and!; try done. by left.
    + intros (? & ? & ? & ? & ? & ? & [= <-] & _ & Hm' & [[_ H']|[Hlt _]]); rewrite Hm in Hm'; simplify_eq; [done|lia].
  - assert (o_passed (match f_outage_since fact with
      | Some since => match q_on_outage q with
          | Fail => fail (OutageFail (f_provider fact) since (sat_sub_i64 now synced) (q_max_age_secs q))
          | Pass => mkOutcome true (OutagePass (f_provider fact) since status (sat_sub_i64 now synced)) None
          end
      | None => fail (TooOld (f_provider fact) (sat_sub_i64 now synced) (q_max_age_secs q))
      end) = true ↔ is_Some (f_outage_since fact) ∧ q_on_outage q = Pass) as Hout.
    { destruct (f_outage_since fact), (q_on_outage q); cbn [o_passed fail]; split; try done; intros [[? ?] ?]; done. }
    rw Hout. split.
    + intros [Ho Hp]. exists fact, ext, key, status, seen, synced. split_and!; try done. by right.
    + intros (? & ? & ? & ? & ? & ? & [= <-] & _ & Hm' & [[Hle _]|(_ & Ho & Hp)]); rewrite Hm in Hm'; simplify_eq; [lia|done].
Qed.

(** What [validate] promises of the versions. *)
Lemma valid_versions :
  (∀ minimum, min_agent_version def = Some minimum → is_Some (parse_version minimum)) ∧
  (∀ os minimum, BTree.get os (min_os_versions def) = Some minimum → is_Some (parse_version minimum)).
Proof using Hvalid.
  pose proof Hvalid as H. unfold validate in H. inv_ok.
  rename select (existsb _ (map snd _) = false) into Hos. rw existsb_false in Hos. split.
  - intros minimum Hm. rename select (match min_agent_version def with Some v => negb (bool_decide (is_Some (parse_version v))) | None => false end = false) into Hv. rewrite Hm in Hv. by to_prop.
  - intros os minimum Hg. unfold BTree.get in Hg. apply fmap_Some in Hg as ([k v] & Hf%find_some & ->).
    apply (bool_decide_eq_true (is_Some (parse_version v))), negb_false_iff. apply (Hos v).
    apply list_elem_of_fmap. exists (k, v). split; [done|]. apply list_elem_of_In. by destruct Hf.
Qed.

Lemma approved_iff v :
  v ∈ approved_verdict def facts now ↔ require_approved_peer def = true ∧ v = met (now <? nf_credential_expires_at facts).
Proof using.
  unfold approved_verdict. destruct (require_approved_peer def); [rw list_elem_of_singleton; tauto|].
  split; [by intros ?%elem_of_nil|by intros [? ?]].
Qed.

Lemma age_iff v :
  v ∈ age_verdict def facts now ↔ ∃ max, max_credential_age_secs def = Some max ∧ v = met (sat_sub_i64 now (issued_at facts) <=? max).
Proof using.
  unfold age_verdict. destruct (max_credential_age_secs def) as [max|].
  - rw list_elem_of_singleton. split; [eauto|by intros (? & [= <-] & ?)].
  - split; [by intros ?%elem_of_nil|by intros (? & ? & ?)].
Qed.

Lemma integration_iff v :
  v ∈ integration_verdict def facts now ↔
  ∃ q, integration def = Some q ∧ v = met (o_passed (assess q (BTree.get (q_integration_id q) (nf_integrations facts)) now)).
Proof using.
  unfold integration_verdict. destruct (integration def) as [q|].
  - rw list_elem_of_singleton. split; [eauto|by intros (? & [= <-] & ?)].
  - split; [by intros ?%elem_of_nil|by intros (? & ? & ?)].
Qed.

Lemma agent_iff v :
  v ∈ agent_verdict def facts now ↔
  ∃ minimum, min_agent_version def = Some minimum ∧ v = version_verdict def facts now (nf_agent_version facts) minimum.
Proof using.
  unfold agent_verdict. destruct (min_agent_version def) as [m|].
  - rw list_elem_of_singleton. split; [eauto|by intros (? & [= <-] & ?)].
  - split; [by intros ?%elem_of_nil|by intros (? & ? & ?)].
Qed.

Lemma nil_length {A} (l : list A) : (length l =? 0)%nat = true ↔ l = [].
Proof using. by destruct l. Qed.

Lemma get_nonempty {A} k (m : BTree.map_of A) v : BTree.get k m = Some v → m ≠ [].
Proof using. by destruct m. Qed.

Lemma os_iff v :
  v ∈ os_verdict def facts now ↔
  (v = Unknown ∧ known def facts now (nf_os facts) = None ∧ (os_families def ≠ [] ∨ min_os_versions def ≠ [])) ∨
  ∃ os, known def facts now (nf_os facts) = Some os ∧
    ((os_families def ≠ [] ∧ v = met (bool_decide (os ∈ os_families def))) ∨
     ∃ minimum, BTree.get os (min_os_versions def) = Some minimum ∧ v = version_verdict def facts now (nf_os_version facts) minimum).
Proof using.
  unfold os_verdict. destruct (_ && _) eqn:Hnone.
  - apply andb_true_iff in Hnone as [->%nil_length Hm%nil_length]. rw Hm. split; [by intros ?%elem_of_nil|].
    intros [(_ & _ & [|])|(os & _ & [[? _]|(? & ? & _)])]; done.
  - assert (os_families def ≠ [] ∨ min_os_versions def ≠ []) as Hsome.
    { apply andb_false_iff in Hnone as [Hn|Hn]; [left|right]; intros He%nil_length; congruence. }
    destruct (known def facts now (nf_os facts)) as [os|].
    2: { rw list_elem_of_singleton. split; [by left|]. intros [[? _]|(? & ? & _)]; done. }
    assert (∀ P : Prop, P ↔ (v = Unknown ∧ Some os = None ∧ (os_families def ≠ [] ∨ min_os_versions def ≠ [])) ∨ P) as Hdrop.
    { intros P. split; [by right|]. by intros [(_ & ? & _)|?]. }
    rw -Hdrop elem_of_app. trans ((os_families def ≠ [] ∧ v = met (bool_decide (os ∈ os_families def))) ∨
     ∃ minimum, BTree.get os (min_os_versions def) = Some minimum ∧ v = version_verdict def facts now (nf_os_version facts) minimum).
    2: { split; [eauto|by intros (? & [= <-] & ?)]. }
    f_equiv.
    + destruct (length (os_families def) =? 0)%nat eqn:Hl.
      * apply nil_length in Hl. split; [by intros ?%elem_of_nil|by intros [? _]].
      * rw list_elem_of_singleton. split; [|tauto]. split; [|done]. intros He%nil_length. congruence.
    + destruct (BTree.get os _) as [m|]; [rw list_elem_of_singleton; split; [eauto|by intros (? & [= <-] & ?)]|].
      split; [by intros ?%elem_of_nil|by intros (? & ? & ?)].
Qed.

Lemma unmet_verdict : unmet → NotMet ∈ verdicts def facts now.
Proof using Hvalid.
  unfold verdicts. rw !elem_of_app approved_iff age_iff integration_iff os_iff agent_iff. destruct valid_versions as [Hagent Hos].
  intros [Hr He|max Hm Hlt|q Hq Hv|os Hc Hs Hne Hn|os minimum Hc Hs Hg Hlow|minimum Hc Hm Hlow].
  - left. split; [done|]. symmetry. apply met_notmet. lia.
  - right; left. exists max. split; [done|]. symmetry. apply met_notmet. pose proof (proj1 (valid_ages def Hvalid) max Hm) as Hr.
    rw clamp_leb; [|lia]. unfold issued_at. lia.
  - right; right; left. exists q. split; [done|]. symmetry. apply met_notmet, not_true_iff_false. by rw (assess_iff q _ Hq eq_refl).
  - right; right; right; left; right. exists os. split; [by apply known_iff|]. left. split; [done|]. by rw bool_decide_false.
  - right; right; right; left; right. exists os. split; [by apply known_iff|]. right. exists minimum. split; [done|]. symmetry.
    by apply version_verdict_iff; [eapply Hos|].
  - right; right; right; right. exists minimum. split; [done|]. symmetry. by apply version_verdict_iff; [apply Hagent|].
Qed.

Lemma verdict_unmet : NotMet ∈ verdicts def facts now → unmet.
Proof using Hvalid.
  unfold verdicts. rw !elem_of_app approved_iff age_iff integration_iff os_iff agent_iff. destruct valid_versions as [Hagent Hos].
  intros [(Hr & Hv)|[(max & Hm & Hv)|[(q & Hq & Hv)|[[(Hv & _)|(os & Hk%known_iff & [(Hne & Hv)|(minimum & Hg & Hv)])]|(minimum & Hm & Hv)]]]];
    symmetry in Hv.
  - apply met_notmet in Hv. apply unmet_expired; [done|lia].
  - apply met_notmet in Hv. pose proof (proj1 (valid_ages def Hvalid) max Hm) as Hr. rewrite clamp_leb in Hv; [|lia].
    apply (unmet_age max); [done|]. unfold issued_at in Hv. lia.
  - apply met_notmet, not_true_iff_false in Hv. apply (unmet_provider q); [done|]. by rewrite (assess_iff q _ Hq eq_refl) in Hv.
  - done.
  - apply met_notmet, bool_decide_eq_false in Hv. destruct Hk. by apply (unmet_family os).
  - apply version_verdict_iff in Hv as [Hc Hlow]; [|by eapply Hos]. destruct Hk. by apply (unmet_os os minimum).
  - apply version_verdict_iff in Hv as [Hc Hlow]; [|by apply Hagent]. by apply (unmet_agent minimum).
Qed.

Lemma known_none value : known def facts now value = None ↔ ¬ (current ∧ ∃ x, says value x).
Proof using Hvalid.
  destruct (known def facts now value) as [x|] eqn:Hk.
  - apply known_iff in Hk as [Hc Hs]. split; [done|]. intros Hn. exfalso. apply Hn. eauto.
  - split; [|done]. intros _ (Hc & x & Hs). by rewrite (proj2 (known_iff value x)) in Hk.
Qed.

Lemma unknown_verdict : unknown ↔ Unknown ∈ verdicts def facts now.
Proof using Hvalid.
  unfold verdicts. rw !elem_of_app approved_iff age_iff integration_iff os_iff agent_iff. destruct valid_versions as [Hagent Hos]. split.
  - intros [Hreq Hn|os minimum Hc Hs Hg Hn|minimum Hm Hn].
    + right; right; right; left; left. split_and!; [done|by apply known_none|done].
    + right; right; right; left; right. exists os. split; [by apply known_iff|]. right. exists minimum. split; [done|]. symmetry.
      apply version_verdict_iff; [by eapply Hos|]. by intros [_ ?].
    + right; right; right; right. exists minimum. split; [done|]. symmetry. by apply version_verdict_iff; [apply Hagent|].
  - intros [(Hr & Hv)|[(max & Hm & Hv)|[(q & Hq & Hv)|[[(_ & Hk%known_none & Hreq)|(os & Hk%known_iff & [(Hne & Hv)|(minimum & Hg & Hv)])]|(minimum & Hm & Hv)]]]];
      try (symmetry in Hv; by apply met_unknown in Hv).
    + by apply unknown_os.
    + symmetry in Hv. apply version_verdict_iff in Hv; [|by eapply Hos]. destruct Hk. apply (unknown_os_version os minimum); try done.
      intros Hn. by apply Hv.
    + symmetry in Hv. apply version_verdict_iff in Hv; [|by apply Hagent]. by apply (unknown_agent minimum).
Qed.

End reference.

(** [C26] Of a check that passes validation: a device passes exactly when no requirement
    is known to be unmet and, unless the check is set to pass on missing data, none
    is unknown.  Unmet and unknown are stated on their own: a credential that has expired
    or is too old, an operating system that is not listed, a version below the
    smallest allowed one component by component, a provider that does not vouch for
    the device; a report that is absent, blank, too old or not a version.  A provider
    that has no record, or a record too old to count, is unmet and never unknown, with
    the one exception the check can ask for: during an outage of the provider a
    compliant record that has become too old still counts when [q_on_outage] is
    [Pass], whatever [on_missing_data] says. *)
Theorem evaluate_exact def facts now name version (Hvalid : validate def = Ok tt) :
  (as_passed (evaluate def facts now name version) = true ↔
     ¬ unmet def facts now ∧ (unknown def facts now → on_missing_data def = Pass)) ∧
  (as_missing_data (evaluate def facts now name version) = true ↔ unknown def facts now).
Proof.
  destruct (passed_verdicts def facts now name version) as [Hp Hm]. rw (unknown_verdict def facts now Hvalid). split; [|done].
  rw Hp. f_equiv. split; intros Hn H; apply Hn; [by apply unmet_verdict|by apply verdict_unmet].
Qed.

(** A laptop on agent 1.4.2 and macOS 14.1, checked for agent 1.4 and macOS 14.2. *)
Definition version_check : PostureDefinition :=
  mkPostureDefinition (lit "versions") (Some (lit "v1.4")) [lit "macos"; lit "linux"] [(lit "macos", lit "14.2")] None (Some 3600) false Fail
    (Some (mkIntegrationRequirement (lit "mdm") 600 None Pass)).

Definition laptop (os_version : str) : NodeFacts :=
  mkNodeFacts (lit "n") (Some (lit "macOS ")) (Some os_version) (Some (lit "1.4.2-rc1")) [] 0 None 0 (Some 9000)
    [(lit "mdm", mkIntegrationFact (lit "mdm") (lit "intune") (lit "MDM") true (Some 9500)
        (Matched (lit "x") SerialNumber (Some true) (lit "compliant") None 8000))].

(** The record of the provider is 2000 seconds old, over the 600 allowed, and counts
    because of the outage; macOS 14.1 is too old, 14.2 is not, and a version that is no
    version is unknown. *)
Lemma evaluate_exact_witness :
  unmet version_check (laptop (lit "14.1")) 10000 ∧ ¬ unmet version_check (laptop (lit "14.2.1")) 10000 ∧
  ¬ unknown version_check (laptop (lit "14.2.1")) 10000 ∧ unknown version_check (laptop (lit "sonoma")) 10000 ∧
  vouched (laptop (lit "14.1")) 10000 (mkIntegrationRequirement (lit "mdm") 600 None Pass).
Proof.
  assert (validate version_check = Ok tt) as Hvalid by (vm_compute; reflexivity).
  pose proof (λ v, evaluate_exact version_check (laptop v) 10000 (lit "versions") 1 Hvalid) as H. split_and!.
  - apply (unmet_os _ _ _ (lit "macos") (lit "14.2")); [apply current_iff; [exact Hvalid|vm_compute; reflexivity]| |vm_compute; reflexivity|].
    + exists (lit "macOS "). split_and!; [reflexivity|vm_compute; discriminate|vm_compute; reflexivity].
    + exists [14; 1], [14; 2]. split_and!.
      * exists (lit "14.1"). split; [exists (lit "14.1"); split_and!; [reflexivity|vm_compute; discriminate|vm_compute; reflexivity]|].
        apply parse_version_iff. vm_compute. reflexivity.
      * apply parse_version_iff. vm_compute. reflexivity.
      * intros Hge%version_at_least_iff. vm_compute in Hge. discriminate.
  - apply (proj1 (H (lit "14.2.1"))). vm_compute. reflexivity.
  - intros Hu%(proj2 (H (lit "14.2.1"))). vm_compute in Hu. discriminate.
  - apply (proj2 (H (lit "sonoma"))). vm_compute. reflexivity.
  - eapply (assess_iff version_check _ _ Hvalid); [reflexivity|reflexivity|vm_compute; reflexivity].
Defined.

End PostureExact.
