(* ===== verification/OrgDns.v ===== *)
(** * Organisation DNS

    [blaktail-coord/src/org_dns.rs]: the DNS document an organisation publishes, its
    canonical form, the snapshot a device is sent, the advisory findings and the
    explanation of what a device does with a name; and the stored document with its
    revisions ([lib.rs], [dns_workspace.rs]).

    IDNA and the Unicode tables of the standard library are parameters.  Messages
    are constructors; a JSON document is the value it decodes to. *)

From S2P Require Import Prelude Text Net Policy Ipam CoordAcl AppConnectors CoordRules.

Module OrgDns.

Definition MAX_GLOBAL_RESOLVERS : nat := 8.
Definition MAX_SPLIT_ROUTES : nat := 32.
Definition MAX_RESOLVERS_PER_SPLIT : nat := 4.
Definition MAX_SEARCH_DOMAINS : nat := 6.
Definition MAX_RECORDS : nat := 64.
Definition MAX_DOMAIN_LEN : nat := 253.
Definition MAX_LABEL_LEN : nat := 63.
Definition MAX_NAMESERVER_GROUPS : nat := 16.
Definition MAX_GROUP_NAME_LEN : nat := 64.
Definition MAX_MATCH_DOMAINS : nat := 16.
Definition MAX_ZONES : nat := 16.
Definition MAX_ZONE_RECORDS : nat := 256.
Definition MAX_TXT_LEN : nat := 1024.
Definition MAX_CNAME_CHAIN : nat := 8.
Definition MIN_TTL : Z := 30.
Definition MAX_TTL : Z := 86400.
Definition DEFAULT_TTL : Z := 300.
Definition DEVICE_TAGS : list str := [lit "office"; lit "ranger"; lit "store"].

(** ** The document *)

Inductive ZoneRecordType := A | Aaaa | Cname | Txt.
#[export] Instance ZoneRecordType_eq_dec : EqDecision ZoneRecordType.
Proof. solve_decision. Defined.

Definition as_str (t : ZoneRecordType) : str :=
  match t with A => lit "A" | Aaaa => lit "AAAA" | Cname => lit "CNAME" | Txt => lit "TXT" end.

Inductive DnsRecordType := RecA | RecAaaa.
#[export] Instance DnsRecordType_eq_dec : EqDecision DnsRecordType.
Proof. solve_decision. Defined.

Definition record_type_name (t : DnsRecordType) : str := match t with RecA => lit "A" | RecAaaa => lit "AAAA" end.

Record SplitDnsRoute := mkSplit { suffix : str; resolvers : list str }.
Record DnsRecord := mkDnsRecord { r_name : str; r_type : DnsRecordType; r_value : str }.
Record ZoneRecord := mkZoneRecord { zr_name : str; zr_type : ZoneRecordType; zr_value : str; zr_ttl : Z }.
Record DnsZone := mkDnsZone { z_name : str; z_enabled : bool; z_records : list ZoneRecord }.

Record NameserverGroup := mkGroup {
  g_name : str;
  g_resolvers : list str;
  match_domains : list str;
  g_enabled : bool;
  all_devices : bool;
  tags : list str
}.

Record OrgDnsSettings := mkSettings {
  managed : bool;
  global_resolvers : list str;
  split : list SplitDnsRoute;
  search_domains : list str;
  records : list DnsRecord;
  nameserver_groups : list NameserverGroup;
  zones : list DnsZone
}.

#[export] Instance DnsRecord_eq_dec : EqDecision DnsRecord.
Proof. solve_decision. Defined.
#[export] Instance SplitDnsRoute_eq_dec : EqDecision SplitDnsRoute.
Proof. solve_decision. Defined.
#[export] Instance ZoneRecord_eq_dec : EqDecision ZoneRecord.
Proof. solve_decision. Defined.
#[export] Instance DnsZone_eq_dec : EqDecision DnsZone.
Proof. solve_decision. Defined.
#[export] Instance NameserverGroup_eq_dec : EqDecision NameserverGroup.
Proof. solve_decision. Defined.
#[export] Instance OrgDnsSettings_eq_dec : EqDecision OrgDnsSettings.
Proof. solve_decision. Defined.

Definition default_settings : OrgDnsSettings := mkSettings true [] [] [] [] [] [].

Definition applies_to (g : NameserverGroup) (device_tags : list str) : bool :=
  g_enabled g && (all_devices g || existsb (λ tag, bool_decide (tag ∈ device_tags)) (tags g)).

Inductive DnsError :=
| TooMany (what : str)
| NoResolver (suffix : str)
| TooManyResolvers (suffix : str)
| DuplicateSuffix (suffix : str)
| DuplicateSearch
| OutsideSuffixes (name : str)
| DuplicateRecord (kind name : str)
| ZoneForwarded (zone : str)
| RecordInZone (name zone : str)
| BadGroupName
| DuplicateGroup (name : str)
| GroupResolvers (name : str)
| GroupResolverTwice (name : str)
| GroupDomains (name : str)
| GroupDomainTwice (name : str)
| AlreadySplit (domain : str)
| UnknownTag (tag : str)
| GroupTarget (name : str)
| DuplicateZone (name : str)
| ZonesOverlap (a b : str)
| RecordOutsideZone (name zone : str)
| BadTtl (name : str)
| CnameSelf (name : str)
| BadTxt (name : str)
| ApexCname (zone : str)
| CnameNotAlone (name : str)
| CnameLoop (name : str)
| UnusableAddress (name value : str)
| BadAddress (name : str)
| BadResolver (text : str)
| BadIpv4 (value : str)
| BadIpv6 (value : str)
| EmptyName
| WildcardName
| IdnaFailed (text : str)
| NameTooLong (name : str)
| EmptyLabel (name : str)
| MixedScripts (text : str)
| BadLabel (label : str)
| HyphenLabel (label : str)
| PrivateSuffix
| InvalidDocument
| NoPrevious
| RevisionNotKept (revision : Z)
| StaleEtag
| DnsForbidden
| ExpectFailed
| DnsNotFound.

(** ** Names and addresses *)

(** [name == zone || name.ends_with(format!(".{zone}"))] *)
Definition under (name zone : str) : bool := bool_decide (name = zone) || ends_with (lit "." ++ zone) name.

Definition zone_contains (zones : list str) (name : str) : bool := existsb (under name) zones.

Definition private_name (domain : str) : bool := seq_b domain "blaktail" || ends_with (lit ".blaktail") domain.

Definition reject_private_suffix (domain : str) : result DnsError () := reject_if (private_name domain) PrivateSuffix.

Definition unique_count (values : list str) : nat := length (BTree.extend [] values).

Definition parse_resolver (value : str) : result DnsError str :=
  let trimmed := trim value in
  let? address := ok_or (parse_ip trimmed) (BadResolver trimmed) in
  Ok (show_ip address).

Definition parse_ipv4 (value : str) : result DnsError str :=
  match parse_ip (trim value) with
  | Some (V4 a) => Ok (show_ip (V4 a))
  | _ => Err (BadIpv4 value)
  end.

Definition parse_ipv6 (value : str) : result DnsError str :=
  match parse_ip (trim value) with
  | Some (V6 a) => Ok (show_ip (V6 a))
  | _ => Err (BadIpv6 value)
  end.

Definition is_broadcast (a : IpAddr) : bool := match a with V4 b => b =? U32_MAX | V6 _ => false end.

Definition reject_unusable_address (name value : str) : result DnsError () :=
  let? address := ok_or (parse_ip value) (BadAddress name) in
  reject_if (is_unspecified address || is_multicast address || is_broadcast address) (UnusableAddress name value).

Section names.
Context (domain_to_ascii : str → option str) (domain_to_unicode : str → str).
Context (is_alphabetic : str → bool) (to_lowercase : str → str).

Definition ascii_letter (ch : str) : bool := match ch with [c] => is_ascii_alphabetic c | _ => false end.

Definition mixed_scripts (name : str) : bool :=
  existsb ascii_letter (chars name) && existsb (λ ch, negb (ascii_letter ch) && is_alphabetic ch) (chars name).

Definition check_label (label : str) : result DnsError () :=
  let? _ := reject_if ((length label =? 0)%nat || (MAX_LABEL_LEN <? length label)%nat) (BadLabel label) in
  reject_if (starts_with (lit "-") label || ends_with (lit "-") label) (HyphenLabel label).

Definition canonicalize_domain (input : str) : result DnsError str :=
  let trimmed := trim_end_matches 46 (trim input) in
  let? _ := reject_if ((length trimmed =? 0)%nat || seq_b trimmed ".") EmptyName in
  let? _ := reject_if (contains_char 42 trimmed) WildcardName in
  let? ascii := ok_or (domain_to_ascii trimmed) (IdnaFailed trimmed) in
  let? _ := reject_if (MAX_DOMAIN_LEN <? length ascii)%nat (NameTooLong ascii) in
  let? _ := reject_if (starts_with (lit ".") ascii || ends_with (lit ".") ascii || contains_str (lit "..") ascii)
              (EmptyLabel ascii) in
  let? _ := reject_if (mixed_scripts (domain_to_unicode ascii)) (MixedScripts trimmed) in
  let? _ := try_each check_label (Text.split 46 ascii) in
  Ok ascii.

(** A canonical name outside [.blaktail]. *)
Definition public_domain (input : str) : result DnsError str :=
  let? domain := canonicalize_domain input in
  let? _ := reject_private_suffix domain in
  Ok domain.

(** ** Canonical form *)

Fixpoint canonical_split (seen : list str) (routes : list SplitDnsRoute) : result DnsError (list SplitDnsRoute) :=
  match routes with
  | [] => Ok []
  | route :: routes =>
      let? _ := reject_if (length (resolvers route) =? 0)%nat (NoResolver (suffix route)) in
      let? _ := reject_if (MAX_RESOLVERS_PER_SPLIT <? length (resolvers route))%nat (TooManyResolvers (suffix route)) in
      let? domain := public_domain (suffix route) in
      let? _ := reject_if (bool_decide (domain ∈ seen)) (DuplicateSuffix domain) in
      let? rs := try_collect parse_resolver (resolvers route) in
      let? rest := canonical_split (domain :: seen) routes in
      Ok (mkSplit domain rs :: rest)
  end.

Definition approved_zones (split : list SplitDnsRoute) (search : list str) : list str := map suffix split ++ search.

Definition canonical_record (approved : list str) (record : DnsRecord) : result DnsError DnsRecord :=
  let? name := public_domain (r_name record) in
  let? _ := reject_if (negb (zone_contains approved name)) (OutsideSuffixes name) in
  let? value := match r_type record with RecA => parse_ipv4 (r_value record) | RecAaaa => parse_ipv6 (r_value record) end in
  Ok (mkDnsRecord name (r_type record) value).

Fixpoint check_duplicates (seen : list (str * DnsRecordType * str)) (records : list DnsRecord) : result DnsError () :=
  match records with
  | [] => Ok tt
  | r :: records =>
      let key := (r_name r, r_type r, r_value r) in
      let? _ := reject_if (bool_decide (key ∈ seen)) (DuplicateRecord (record_type_name (r_type r)) (r_name r)) in
      check_duplicates (key :: seen) records
  end.

Definition canonical_tag (tag : str) : result DnsError str :=
  let tag := to_ascii_lowercase (trim tag) in
  if bool_decide (tag ∈ DEVICE_TAGS) then Ok tag else Err (UnknownTag tag).

Definition match_domain (split : list SplitDnsRoute) (domain : str) : result DnsError str :=
  let? domain := public_domain domain in
  let? _ := reject_if (existsb (λ route, bool_decide (suffix route = domain)) split) (AlreadySplit domain) in
  Ok domain.

Fixpoint canonical_groups_from (split : list SplitDnsRoute) (names : list str) (groups : list NameserverGroup) :
    result DnsError (list NameserverGroup) :=
  match groups with
  | [] => Ok []
  | group :: groups =>
      let name := trim (g_name group) in
      let? _ := reject_if ((length name =? 0)%nat || (MAX_GROUP_NAME_LEN <? length (chars name))%nat
                           || existsb is_control (chars name)) BadGroupName in
      let? _ := reject_if (bool_decide (to_lowercase name ∈ names)) (DuplicateGroup name) in
      let? _ := reject_if ((length (g_resolvers group) =? 0)%nat
                           || (MAX_RESOLVERS_PER_SPLIT <? length (g_resolvers group))%nat) (GroupResolvers name) in
      let? rs := try_collect parse_resolver (g_resolvers group) in
      let? _ := reject_if (negb (unique_count rs =? length rs)%nat) (GroupResolverTwice name) in
      let? _ := reject_if ((length (match_domains group) =? 0)%nat || (MAX_MATCH_DOMAINS <? length (match_domains group))%nat)
                  (GroupDomains name) in
      let? domains := try_collect (match_domain split) (match_domains group) in
      let? _ := reject_if (negb (unique_count domains =? length domains)%nat) (GroupDomainTwice name) in
      let? tags := try_collect canonical_tag (tags group) in
      let tags := BTree.extend [] tags in
      let? _ := reject_if (negb (Bool.eqb (all_devices group) (length tags =? 0)%nat)) (GroupTarget name) in
      let? rest := canonical_groups_from split (to_lowercase name :: names) groups in
      Ok (mkGroup name rs domains (g_enabled group) (all_devices group) tags :: rest)
  end.

Definition canonical_groups (groups : list NameserverGroup) (split : list SplitDnsRoute) :
    result DnsError (list NameserverGroup) :=
  let? _ := reject_if (MAX_NAMESERVER_GROUPS <? length groups)%nat (TooMany (lit "nameserver groups")) in
  canonical_groups_from split [] groups.

Definition record_owner (zone name : str) : result DnsError str :=
  let raw := trim_end_matches 46 (trim name) in
  if seq_b raw "@" then Ok zone
  else if negb (length raw =? 0)%nat && negb (contains_char 46 raw) then canonicalize_domain (raw ++ lit "." ++ zone)
  else
    let? name := canonicalize_domain raw in
    let? _ := reject_if (negb (zone_contains [zone] name)) (RecordOutsideZone name zone) in
    Ok name.

Definition record_value (name : str) (record : ZoneRecord) : result DnsError str :=
  match zr_type record with
  | A => let? value := parse_ipv4 (zr_value record) in
         let? _ := reject_unusable_address name value in Ok value
  | Aaaa => let? value := parse_ipv6 (zr_value record) in
            let? _ := reject_unusable_address name value in Ok value
  | Cname => let? target := canonicalize_domain (zr_value record) in
             let? _ := reject_if (bool_decide (target = name)) (CnameSelf name) in Ok target
  | Txt => let value := zr_value record in
           let? _ := reject_if ((length value =? 0)%nat || (MAX_TXT_LEN <? length value)%nat
                                || negb (forallb (λ b, (32 <=? b) && (b <=? 126)) value)) (BadTxt name) in Ok value
  end.

Definition canonical_zone_record (zone : str) (record : ZoneRecord) : result DnsError ZoneRecord :=
  let? name := record_owner zone (zr_name record) in
  let? _ := reject_if (negb ((MIN_TTL <=? zr_ttl record) && (zr_ttl record <=? MAX_TTL))) (BadTtl name) in
  let? value := record_value name record in
  Ok (mkZoneRecord name (zr_type record) value (zr_ttl record)).

(** The CNAME of a name. *)
Definition next_cname (records : list ZoneRecord) (current : str) : option ZoneRecord :=
  List.find (λ o, bool_decide (zr_name o = current) && bool_decide (zr_type o = Cname)) records.

(** The loop [for _ in 0..=MAX_CNAME_CHAIN]: [true] when the chain comes back to [start]. *)
Fixpoint chain_returns (n : nat) (records : list ZoneRecord) (start current : str) : bool :=
  match n with
  | O => false
  | S n =>
      bool_decide (current = start)
      || match next_cname records current with
         | Some next => chain_returns n records start (zr_value next)
         | None => false
         end
  end.

Definition check_cname (zone : str) (records : list ZoneRecord) (record : ZoneRecord) : result DnsError () :=
  if negb (bool_decide (zr_type record = Cname)) then Ok tt
  else
    let? _ := reject_if (bool_decide (zr_name record = zone)) (ApexCname zone) in
    let? _ := reject_if (1 <? length (List.filter (λ o, bool_decide (zr_name o = zr_name record)) records))%nat
                (CnameNotAlone (zr_name record)) in
    reject_if (chain_returns (S MAX_CNAME_CHAIN) records (zr_name record) (zr_value record)) (CnameLoop (zr_name record)).

Fixpoint check_zone_records (zone : str) (all : list ZoneRecord) (seen : list (str * ZoneRecordType * str))
    (records : list ZoneRecord) : result DnsError () :=
  match records with
  | [] => Ok tt
  | r :: records =>
      let key := (zr_name r, zr_type r, zr_value r) in
      let? _ := reject_if (bool_decide (key ∈ seen)) (DuplicateRecord (as_str (zr_type r)) (zr_name r)) in
      let? _ := check_cname zone all r in
      check_zone_records zone all (key :: seen) records
  end.

Definition check_against (name : str) (existing : DnsZone) : result DnsError () :=
  let? _ := reject_if (bool_decide (z_name existing = name)) (DuplicateZone name) in
  reject_if (zone_contains [z_name existing] name || zone_contains [name] (z_name existing)) (ZonesOverlap (z_name existing) name).

Fixpoint canonical_zones_from (canonical : list DnsZone) (zones : list DnsZone) : result DnsError (list DnsZone) :=
  match zones with
  | [] => Ok canonical
  | zone :: zones =>
      let? name := public_domain (z_name zone) in
      let? _ := try_each (check_against name) canonical in
      let? _ := reject_if (MAX_ZONE_RECORDS <? length (z_records zone))%nat (TooMany (lit "zone records")) in
      let? rs := try_collect (canonical_zone_record name) (z_records zone) in
      let? _ := check_zone_records name rs [] rs in
      canonical_zones_from (canonical ++ [mkDnsZone name (z_enabled zone) rs]) zones
  end.

Definition canonical_zones (zones : list DnsZone) : result DnsError (list DnsZone) :=
  let? _ := reject_if (MAX_ZONES <? length zones)%nat (TooMany (lit "zones")) in
  canonical_zones_from [] zones.

Definition check_zone (forwarded : list str) (records : list DnsRecord) (zone : DnsZone) : result DnsError () :=
  let? _ := reject_if (bool_decide (z_name zone ∈ forwarded)) (ZoneForwarded (z_name zone)) in
  match List.find (λ r, zone_contains [z_name zone] (r_name r)) records with
  | Some r => Err (RecordInZone (r_name r) (z_name zone))
  | None => Ok tt
  end.

Definition canonicalise (s : OrgDnsSettings) : result DnsError OrgDnsSettings :=
  let? _ := reject_if (MAX_GLOBAL_RESOLVERS <? length (global_resolvers s))%nat (TooMany (lit "global resolvers")) in
  let? _ := reject_if (MAX_SPLIT_ROUTES <? length (split s))%nat (TooMany (lit "split routes")) in
  let? _ := reject_if (MAX_SEARCH_DOMAINS <? length (search_domains s))%nat (TooMany (lit "search domains")) in
  let? _ := reject_if (MAX_RECORDS <? length (records s))%nat (TooMany (lit "records")) in
  let? globals := try_collect parse_resolver (global_resolvers s) in
  let? routes := canonical_split [] (split s) in
  let? search := try_collect public_domain (search_domains s) in
  let? _ := reject_if (negb (unique_count search =? length search)%nat) DuplicateSearch in
  let? extra := try_collect (canonical_record (approved_zones routes search)) (records s) in
  let? _ := check_duplicates [] extra in
  let? groups := canonical_groups (nameserver_groups s) routes in
  let? zs := canonical_zones (zones s) in
  let forwarded := map suffix routes ++ flat_map match_domains groups in
  let? _ := try_each (check_zone forwarded extra) zs in
  Ok (mkSettings (managed s) globals routes search extra groups zs).

(** ** What a device does with a name *)

Inductive Source := FromZone | FromGroup | FromSplit.
#[global] Instance Source_eq_dec : EqDecision Source.
Proof. solve_decision. Defined.

Record DnsCandidate := mkCandidate { c_suffix : str; c_source : Source; c_label : str; c_applies : bool }.

Inductive Answer := NotHandled | MagicDns | Unmanaged | LegacyRecord | ZoneAnswer | ZoneNxdomain | ForwardTo.

Record DnsExplanation := mkExplanation {
  e_name : str;
  e_managed : bool;
  e_answer : Answer;
  e_matched : option str;
  e_zone : option str;
  e_group : option str;
  e_resolvers : list str;
  e_records : list ZoneRecord;
  e_candidates : list DnsCandidate
}.

Definition zone_type (t : DnsRecordType) : ZoneRecordType := match t with RecA => A | RecAaaa => Aaaa end.

(** The zones, groups and routes whose suffix the name is under. *)
Definition candidates (s : OrgDnsSettings) (name : str) (device_tags : list str) : list DnsCandidate :=
  map (λ z, mkCandidate (z_name z) FromZone (z_name z) true)
    (List.filter (λ z, z_enabled z && under name (z_name z)) (zones s))
  ++ flat_map (λ g, map (λ domain, mkCandidate domain FromGroup (g_name g) (applies_to g device_tags))
                      (List.filter (under name) (match_domains g))) (nameserver_groups s)
  ++ map (λ route, mkCandidate (suffix route) FromSplit (suffix route) true)
       (List.filter (λ route, under name (suffix route)) (split s)).

(** The longest suffix, the first of those. *)
Definition best_candidate (l : list DnsCandidate) : option DnsCandidate :=
  foldl (λ best c, match best with
                   | None => Some c
                   | Some b => if (length (c_suffix b) <? length (c_suffix c))%nat then Some c else best
                   end) None l.

(** The name, asked about as it is when it has one label. *)
Definition explained_name (name : str) : result DnsError (bool * str) :=
  let trimmed := to_ascii_lowercase (trim_end_matches 46 (trim name)) in
  let short := negb (length trimmed =? 0)%nat && negb (contains_char 46 trimmed) in
  if short then Ok (true, trimmed) else let? name := canonicalize_domain name in Ok (false, name).

Definition explain (s : OrgDnsSettings) (name : str) (device_tags : list str) : result DnsError DnsExplanation :=
  let? (short, name) := explained_name name in
  if short || private_name name then Ok (mkExplanation name (managed s) MagicDns None None None [] [] [])
  else if negb (managed s) then Ok (mkExplanation name (managed s) Unmanaged None None None [] [] [])
  else
    let cs := candidates s name device_tags in
    match List.filter (λ r, bool_decide (r_name r = name)) (records s) with
    | r :: rs =>
        Ok (mkExplanation name (managed s) LegacyRecord None None None []
              (map (λ r, mkZoneRecord (r_name r) (zone_type (r_type r)) (r_value r) 30) (r :: rs)) cs)
    | [] =>
        match best_candidate (List.filter c_applies cs) with
        | None => Ok (mkExplanation name (managed s) NotHandled None None None [] [] cs)
        | Some best =>
            match c_source best with
            | FromZone =>
                let? zone := ok_or (List.find (λ z, bool_decide (z_name z = c_suffix best)) (zones s)) ExpectFailed in
                let found := List.filter (λ r, bool_decide (zr_name r = name)) (z_records zone) in
                Ok (mkExplanation name (managed s) (if (length found =? 0)%nat then ZoneNxdomain else ZoneAnswer)
                      (Some (c_suffix best)) (Some (c_suffix best)) None [] found cs)
            | FromGroup =>
                let? group := ok_or (List.find (λ g, applies_to g device_tags
                                                     && bool_decide (c_suffix best ∈ match_domains g)) (nameserver_groups s))
                                ExpectFailed in
                Ok (mkExplanation name (managed s) ForwardTo (Some (c_suffix best)) None (Some (g_name group))
                      (g_resolvers group) [] cs)
            | FromSplit =>
                let? route := ok_or (List.find (λ route, bool_decide (suffix route = c_suffix best)) (split s)) ExpectFailed in
                Ok (mkExplanation name (managed s) ForwardTo (Some (c_suffix best)) None None (resolvers route) [] cs)
            end
        end
    end.

(** [max_by_key]: the last of the longest. *)
Definition longest_split_match (name : str) (routes : list SplitDnsRoute) : result DnsError (option SplitDnsRoute) :=
  let? name := canonicalize_domain name in
  Ok (foldl (λ best route, match best with
                           | None => Some route
                           | Some b => Some (if (length (suffix route) <? length (suffix b))%nat then b else route)
                           end) None (List.filter (λ route, under name (suffix route)) routes)).

Definition record_preview (s : OrgDnsSettings) : list (str * option str) :=
  map (λ r, (r_name r, match longest_split_match (r_name r) (split s) with
                       | Ok (Some route) => Some (suffix route)
                       | _ => None
                       end)) (records s).

End names.

(** ** What a device is sent *)

Record AgentZone := mkAgentZone { az_name : str; az_records : list ZoneRecord }.

Record OrgDnsAgentView := mkView {
  v_revision : Z;
  v_managed : bool;
  v_magic_dns_suffix : str;
  v_global_resolvers : list str;
  v_split : list SplitDnsRoute;
  v_search_domains : list str;
  v_records : list DnsRecord;
  v_zones : list AgentZone
}.

Definition is_ascii_hexdigit (c : Z) : bool := is_ascii_digit c || ((97 <=? c) && (c <=? 102)) || ((65 <=? c) && (c <=? 70)).

Definition organisation_magic_dns_suffix (hash : str → str) (org_id : str) : str :=
  let prefix := take 8 (List.filter is_ascii_hexdigit org_id) in
  (if (length prefix =? 8)%nat then prefix else take 8 (hash org_id)) ++ lit ".blaktail".

Definition add_domain (rs : list str) (split : list SplitDnsRoute) (domain : str) : list SplitDnsRoute :=
  if existsb (λ route, bool_decide (suffix route = domain)) split then split else split ++ [mkSplit domain rs].

Definition add_group (split : list SplitDnsRoute) (g : NameserverGroup) : list SplitDnsRoute :=
  foldl (add_domain (g_resolvers g)) split (match_domains g).

Definition flat_record (r : ZoneRecord) : option DnsRecord :=
  match zr_type r with
  | A => Some (mkDnsRecord (zr_name r) RecA (zr_value r))
  | Aaaa => Some (mkDnsRecord (zr_name r) RecAaaa (zr_value r))
  | Cname | Txt => None
  end.

Definition agent_view (hash : str → str) (s : OrgDnsSettings) (org_id : str) (revision : Z) (device_tags : list str) :
    OrgDnsAgentView :=
  let enabled := List.filter z_enabled (zones s) in
  mkView revision (managed s) (organisation_magic_dns_suffix hash org_id) (global_resolvers s)
    (foldl add_group (split s) (List.filter (λ g, applies_to g device_tags) (nameserver_groups s))
     ++ map (λ z, mkSplit (z_name z) []) enabled)
    (search_domains s)
    (records s ++ flat_map (λ z, omap flat_record (z_records z)) enabled)
    (map (λ z, mkAgentZone (z_name z) (z_records z)) enabled).

(** ** Advisory findings *)

Inductive DnsWarning :=
| LoopbackResolver (resolver : str)
| GroupShadowed (group domain earlier : str)
| GroupShared (domain earlier group : str)
| EmptyZone (zone : str)
| OddTarget (name kind value : str) (reason : str)
| CnameLeaves (name target : str)
| OddRecord (name value : str) (reason : str).

Definition address_warning (a : IpAddr) : option str :=
  if is_loopback a then Some (lit "loopback")
  else match a with
  | V4 b => if is_link_local_v4 b then Some (lit "link-local") else None
  | V6 b => if Z.land (b / 2 ^ 112) 0xffc0 =? 0xfe80 then Some (lit "link-local") else None
  end.

Definition used_resolvers (s : OrgDnsSettings) : list str :=
  BTree.extend [] (flat_map resolvers (split s) ++ flat_map g_resolvers (nameserver_groups s)).

Definition covers (earlier group : NameserverGroup) : bool :=
  all_devices earlier || (negb (all_devices group) && forallb (λ tag, bool_decide (tag ∈ tags earlier)) (tags group)).

Definition shadow_warnings (group earlier : NameserverGroup) : list DnsWarning :=
  map (λ domain, if covers earlier group then GroupShadowed (g_name group) domain (g_name earlier)
                 else GroupShared domain (g_name earlier) (g_name group))
    (List.filter (λ domain, bool_decide (domain ∈ match_domains earlier)) (match_domains group)).

Fixpoint group_warnings (before : list NameserverGroup) (groups : list NameserverGroup) : list DnsWarning :=
  match groups with
  | [] => []
  | group :: groups =>
      (if g_enabled group then flat_map (shadow_warnings group) (List.filter g_enabled before) else [])
      ++ group_warnings (before ++ [group]) groups
  end.

Definition local_names (s : OrgDnsSettings) : list str :=
  flat_map (λ z, map zr_name (z_records z)) (List.filter z_enabled (zones s)) ++ map r_name (records s).

Definition zone_record_warning (names : list str) (r : ZoneRecord) : list DnsWarning :=
  match zr_type r with
  | A | Aaaa =>
      match parse_ip (zr_value r) ≫= address_warning with
      | Some reason => [OddTarget (zr_name r) (as_str (zr_type r)) (zr_value r) reason]
      | None => []
      end
  | Cname =>
      let target := zr_value r in
      if bool_decide (target ∈ names) || ends_with (lit ".blaktail") target || seq_b target "blaktail" then []
      else [CnameLeaves (zr_name r) target]
  | Txt => []
  end.

Definition zone_warnings (names : list str) (z : DnsZone) : list DnsWarning :=
  (if (length (z_records z) =? 0)%nat then [EmptyZone (z_name z)] else [])
  ++ flat_map (zone_record_warning names) (z_records z).

Definition warnings (s : OrgDnsSettings) : list DnsWarning :=
  map LoopbackResolver (List.filter (λ r, match parse_ip r with Some a => is_loopback a | None => false end) (used_resolvers s))
  ++ group_warnings [] (nameserver_groups s)
  ++ flat_map (zone_warnings (local_names s)) (List.filter z_enabled (zones s))
  ++ omap (λ r, reason ← (a ← parse_ip (r_value r); address_warning a);
                Some (OddRecord (r_name r) (r_value r) reason)) (records s).

(** ** The stored document *)

Definition KEEP_REVISIONS : Z := 50.

(** The DNS columns of the organisation's row, and [org_dns_revisions]. *)
Record DnsRow := mkDnsRow {
  dns_json : str;
  dns_revision : Z;
  dns_previous_json : option str;
  control_revision : Z;
  revisions : list (Z * str)
}.

Record OrgDnsResponse := mkResponse {
  rs_revision : Z;
  rs_etag : str;
  rs_has_previous : bool;
  rs_dns : OrgDnsSettings
}.

(** The body of a [PUT]: a rollback, or a document as its text. *)
Inductive DnsRequest :=
| RollbackTo (revision : Z)
| Rollback
| Publish (text : str).

Definition record_revision (rows : list (Z * str)) (revision : Z) (json : str) : list (Z * str) :=
  List.filter (λ row, negb (row.1 <=? revision - KEEP_REVISIONS)) (rows ++ [(revision, json)]).

Section store.
Context (domain_to_ascii : str → option str) (domain_to_unicode : str → str).
Context (is_alphabetic : str → bool) (to_lowercase : str → str).
Context (to_json : OrgDnsSettings → str) (from_json : str → option OrgDnsSettings) (hash : str → str).

Definition parse_settings (json : str) : result DnsError OrgDnsSettings :=
  if (length (trim json) =? 0)%nat then Ok default_settings
  else
    let? settings := ok_or (from_json json) InvalidDocument in
    canonicalise domain_to_ascii domain_to_unicode is_alphabetic to_lowercase settings.

Definition org_dns_from_row (row : DnsRow) : OrgDnsResponse :=
  mkResponse (dns_revision row) (hash (dec_signed (dns_revision row) ++ lit ":" ++ dns_json row))
    (match dns_previous_json row with Some value => negb (length value =? 0)%nat | None => false end)
    (match parse_settings (dns_json row) with Ok dns => dns | Err _ => default_settings end).

Definition load_previous_dns_tx (row : DnsRow) : result DnsError OrgDnsSettings :=
  let? previous := ok_or (dns_previous_json row) NoPrevious in
  parse_settings previous.

Definition load_revision_tx (row : DnsRow) (revision : Z) : result DnsError OrgDnsSettings :=
  let? json := ok_or (snd <$> List.find (λ e, e.1 =? revision) (revisions row)) (RevisionNotKept revision) in
  parse_settings json.

Definition write_org_dns_tx (row : DnsRow) (current : OrgDnsResponse) (next : OrgDnsSettings) : DnsRow :=
  mkDnsRow (to_json next) (rs_revision current + 1) (Some (to_json (rs_dns current))) (control_revision row)
    (record_revision (revisions row) (rs_revision current + 1) (to_json next)).

Definition publish_org_dns (row : DnsRow) (current : OrgDnsResponse) (next : OrgDnsSettings) : DnsRow :=
  let row := write_org_dns_tx row current next in
  mkDnsRow (dns_json row) (dns_revision row) (dns_previous_json row) (control_revision row + 1) (revisions row).

Definition stale_match (expected etag : str) : bool :=
  negb (bool_decide (expected = etag)) && negb (bool_decide (expected = [34] ++ etag ++ [34])).

Definition put_dns (row : DnsRow) (role : Role) (if_match : option str) (request : DnsRequest) : result DnsError DnsRow :=
  let? _ := map_err (λ _, DnsForbidden) (require role ManageDns) in
  let current := org_dns_from_row row in
  let? _ := match (e ← trim <$> if_match; if (length e =? 0)%nat then None else Some e) with
            | Some expected => reject_if (stale_match expected (rs_etag current)) StaleEtag
            | None => Ok tt
            end in
  let? next := match request with
               | RollbackTo revision => load_revision_tx row revision
               | Rollback => load_previous_dns_tx row
               | Publish text => parse_settings text
               end in
  Ok (publish_org_dns row current next).

End store.

End OrgDns.
