(* ===== verification/OrgDnsProps.v ===== *)
(** * What organisation DNS guarantees

    The canonical form of a document is stable, and the explanation the console
    gives of a name is what the name server of the device ([Dns]) does with it. *)

From S2P Require Import Prelude Text Net Policy Packet CoordAcl AppConnectors AclFilter Dns DnsProps OrgDns.

Module OrgDnsProps.
Import OrgDns.

#[local] Opaque be_limbs.

(** ** Suffixes *)

Lemma under_true name zone : under name zone = true ↔ name = zone ∨ ∃ q, name = q ++ lit "." ++ zone.
Proof. unfold under. rewrite orb_true_iff bool_decide_eq_true ends_with_true. tauto. Qed.

Lemma under_suffix name zone : under name zone = true → ∃ q, name = q ++ zone.
Proof. intros [->|[q ->]]%under_true; [by exists []|]. exists (q ++ lit "."). by rewrite -app_assoc. Qed.

(** Two suffixes of a name are the same when they are as long. *)
Lemma under_same name a b : under name a = true → under name b = true → length a = length b → a = b.
Proof. intros [q ->]%under_suffix [q' Hq]%under_suffix Hl. by apply app_inj_2 in Hq as [_ ->]. Qed.

(** ** Trimming *)

Lemma strip_one_keeps pats t g :
  Forall (Forall (λ c, ¬ graphic c)) pats → match g with c :: _ => graphic c | [] => False end →
  ∀ r, strip_one pats (t ++ g) = Some r → ∃ t', r = t' ++ g.
Proof.
  intros Hp Hg. induction Hp as [|p pats Hp _ IH]; intros r; cbn [strip_one]; [done|].
  destruct (strip_prefix p (t ++ g)) as [r'|] eqn:Hr; [|by apply IH]. intros [= ->]. apply strip_prefix_Some in Hr.
  apply app_eq_inv in Hr as [(k & -> & Hk)|(k & -> & Hk)]; [by exists k|]. destruct k as [|c k]; [by exists []|].
  destruct g as [|c' g]; [done|]. injection Hk as -> ->. apply Forall_app in Hp as [_ [Hc _]%Forall_cons]. done.
Qed.

Lemma strip_many_keeps pats n t g :
  Forall (Forall (λ c, ¬ graphic c)) pats → match g with c :: _ => graphic c | [] => False end →
  ∃ t', strip_many pats n (t ++ g) = t' ++ g.
Proof.
  intros Hp Hg. revert t; induction n as [|n IH]; intros t; cbn [strip_many]; [by exists t|].
  destruct (strip_one pats (t ++ g)) as [r|] eqn:Hr; [|by exists t]. apply strip_one_keeps in Hr as [t' ->]; [|done..]. apply IH.
Qed.

(** Trimming stops at visible text. *)
Lemma trim_keeps t g : Forall graphic g → g ≠ [] → ∃ t', trim (t ++ g) = t' ++ g.
Proof.
  intros Hg Hne. unfold trim, trim_start. destruct (strip_many_keeps white_space (length (t ++ g)) t g) as [t' ->].
  { unfold graphic. repeat constructor; lia. }
  { destruct Hg; [done|]. done. }
  exists t'. unfold trim_end. rw strip_many_graphic; [by rewrite reverse_involutive|exact white_space_rev_not_graphic|].
  rewrite reverse_app. destruct (reverse g) as [|c r] eqn:Hr; [|].
  - apply (f_equal reverse) in Hr. by rewrite reverse_involutive in Hr.
  - cbn [app]. apply Forall_reverse in Hg. rewrite Hr in Hg. by apply Forall_cons in Hg as [? _].
Qed.

Lemma safe_graphic d : Dns.labels_are_safe d = true → Forall graphic d ∧ d ≠ [].
Proof.
  intros Hs. split; [|by intros ->]. rewrite -(join_split 46 d). apply join_Forall; [constructor; [unfold graphic; lia|done]|].
  unfold Dns.labels_are_safe in Hs. rewrite forallb_forall in Hs. apply Forall_forall. intros l Hl%list_elem_of_In%Hs.
  unfold Dns.safe_label in Hl. apply andb_true_iff in Hl as [_ Hl]. apply Forall_forall. intros c Hc. rewrite forallb_forall in Hl.
  apply list_elem_of_In, Hl in Hc. unfold Dns.name_char, is_ascii_alphanumeric, is_ascii_alphabetic, is_ascii_lowercase, is_ascii_uppercase,
    is_ascii_digit in Hc. unfold graphic. lia.
Qed.

Lemma trim_end_keeps c d : ends_with [c] d = false → trim_end_matches c d = d.
Proof.
  unfold ends_with, trim_end_matches, starts_with. change (reverse [c]) with [c]. intros H. case_bool_decide as Hn; [done|].
  assert (∀ n x, strip_prefix [c] x = None → strip_many [[c]] n x = x) as Hs.
  { intros [|n] x Hx; [done|]. cbn [strip_many strip_one]. by rw Hx. }
  rw Hs; [by rewrite reverse_involutive|]. destruct (strip_prefix [c] (reverse d)); [by destruct Hn|done].
Qed.

(** ** What the canonical form promises *)

(** The text of an address. *)
Definition address_text (v : str) : Prop := ∃ a, wf_ip a ∧ v = show_ip a.

Lemma parse_resolver_ok v t : parse_resolver v = Ok t → address_text t.
Proof.
  unfold parse_resolver. rewrite bind_ok. intros (a & Ha & [= <-]). apply ok_or_ok in Ha. exists a. split; [by eapply parse_ip_wf|done].
Qed.

Lemma parse_resolver_text t : address_text t → parse_resolver t = Ok t.
Proof.
  intros (a & Hw & ->). unfold parse_resolver. rw trim_graphic; [|apply show_ip_graphic]. by rw parse_show_ip.
Qed.

Lemma parse_resolvers_ok vs ts : try_collect parse_resolver vs = Ok ts → length ts = length vs ∧ Forall address_text ts.
Proof.
  intros Hf. split; [by eapply try_collect_length|]. apply Forall_forall. intros t Ht.
  destruct (try_collect_elem _ _ _ t Hf Ht) as (v & _ & Hv). by eapply parse_resolver_ok.
Qed.

(** What the document relies on of [idna::domain_to_ascii]: its results are in lower
    case and stay as they are, and labels are encoded one by one and joined by dots,
    so a suffix that is already encoded stays. *)
Class IdnaLaws (domain_to_ascii : str → option str) : Prop := {
  idna_lower t a : domain_to_ascii t = Some a → to_ascii_lowercase a = a;
  idna_fixed t a : domain_to_ascii t = Some a → domain_to_ascii a = Some a;
  idna_dot t a : domain_to_ascii t = Some a → 46 ∈ t → 46 ∈ a;
  idna_tail t z a : domain_to_ascii z = Some z → domain_to_ascii (t ++ lit "." ++ z) = Some a → ∃ q, a = q ++ lit "." ++ z
}.

Section canonical.
Context (domain_to_ascii : str → option str) (domain_to_unicode : str → str).
Context (is_alphabetic : str → bool) (to_lowercase : str → str).
#[local] Abbreviation canonicalise := (canonicalise domain_to_ascii domain_to_unicode is_alphabetic to_lowercase).
#[local] Abbreviation canonicalize_domain := (canonicalize_domain domain_to_ascii domain_to_unicode is_alphabetic).
#[local] Abbreviation public_domain := (public_domain domain_to_ascii domain_to_unicode is_alphabetic).

(** A name the canonical form may hold, and one outside [.blaktail]. *)
Definition canonical (d : str) : Prop := ∃ input, canonicalize_domain input = Ok d.
Definition published (d : str) : Prop := canonical d ∧ private_name d = false.

Lemma public_published input d : public_domain input = Ok d → published d.
Proof.
  unfold OrgDns.public_domain. rewrite bind_ok. intros (d' & Hd & H). rewrite then_ok in H. destruct H as [Hp [= <-]].
  split; [by exists input|by apply reject_if_ok in Hp].
Qed.

Record wf (s : OrgDnsSettings) : Prop := mkWf {
  wf_suffixes : NoDup (map suffix (split s));
  wf_split r : r ∈ split s → published (suffix r) ∧ resolvers r ≠ [] ∧ Forall address_text (resolvers r);
  wf_records r : r ∈ records s → published (r_name r) ∧ ∃ a, wf_ip a ∧ r_value r = show_ip a ∧
                   is_ipv4 a = bool_decide (r_type r = RecA);
  wf_groups g : g ∈ nameserver_groups s → g_resolvers g ≠ [] ∧ Forall address_text (g_resolvers g) ∧
                  ∀ d, d ∈ match_domains g → published d ∧ d ∉ map suffix (split s);
  wf_zone_names : NoDup (map z_name (zones s));
  wf_zones z : z ∈ zones s → published (z_name z) ∧ z_name z ∉ map suffix (split s) ++ flat_map match_domains (nameserver_groups s) ∧
                 (∀ r, r ∈ records s → under (r_name r) (z_name z) = false) ∧
                 ∀ r, r ∈ z_records z → ∃ raw, canonical_zone_record domain_to_ascii domain_to_unicode is_alphabetic (z_name z) raw = Ok r
}.

Lemma canonical_split_ok seen routes out :
  canonical_split domain_to_ascii domain_to_unicode is_alphabetic seen routes = Ok out →
  NoDup (map suffix out) ∧ (∀ d, d ∈ map suffix out → d ∉ seen) ∧
  ∀ r, r ∈ out → published (suffix r) ∧ resolvers r ≠ [] ∧ Forall address_text (resolvers r).
Proof.
  revert seen out; induction routes as [|route routes IH]; intros seen out; cbn [canonical_split].
  { intros [= <-]. split_and!; [constructor|set_solver..]. }
  rewrite !then_ok. intros (Hne & _ & (d & Hd & (Hseen & (rs & Hrs & (rest & Hrest & [= <-])%bind_ok)%bind_ok)%then_ok)%bind_ok).
  apply reject_if_ok in Hne, Hseen. to_prop. destruct (IH _ _ Hrest) as (Hnd & Hfresh & Hall). apply parse_resolvers_ok in Hrs as [Hl Hrs].
  cbn [map suffix]. split_and!.
  - constructor; [|done]. intros Hin%Hfresh. set_solver.
  - intros x [->|Hx]%elem_of_cons; [done|]. apply Hfresh in Hx. set_solver.
  - intros r [->|Hr]%elem_of_cons; [|by apply Hall]. split_and!; [by eapply public_published| |done].
    cbn [resolvers]. intros ->. simpl in Hl. lia.
Qed.

Lemma canonical_record_ok approved r r' :
  canonical_record domain_to_ascii domain_to_unicode is_alphabetic approved r = Ok r' →
  published (r_name r') ∧ ∃ a, wf_ip a ∧ r_value r' = show_ip a ∧ is_ipv4 a = bool_decide (r_type r' = RecA).
Proof.
  unfold canonical_record. intros (d & Hd & (_ & (v & Hv & [= <-])%bind_ok)%then_ok)%bind_ok. split; [by eapply public_published|].
  destruct (r_type r); unfold parse_ipv4, parse_ipv6 in Hv; destruct (parse_ip _) as [[a|a]|] eqn:Ha; try done; injection Hv as <-;
    (eexists; split_and!; [by eapply parse_ip_wf|done|done]).
Qed.

Lemma match_domain_ok routes d d' :
  match_domain domain_to_ascii domain_to_unicode is_alphabetic routes d = Ok d' → published d' ∧ d' ∉ map suffix routes.
Proof.
  unfold match_domain. intros (x & Hx & (Hn & [= <-])%then_ok)%bind_ok. split; [by eapply public_published|].
  apply reject_if_ok in Hn. intros (r & -> & Hr)%list_elem_of_fmap. rewrite existsb_false in Hn. specialize (Hn r Hr). by case_bool_decide.
Qed.

Lemma canonical_groups_ok routes names groups out :
  canonical_groups_from domain_to_ascii domain_to_unicode is_alphabetic to_lowercase routes names groups = Ok out →
  ∀ g, g ∈ out → g_resolvers g ≠ [] ∧ Forall address_text (g_resolvers g) ∧
    ∀ d, d ∈ match_domains g → published d ∧ d ∉ map suffix routes.
Proof.
  revert names out; induction groups as [|group groups IH]; intros names out; cbn [canonical_groups_from].
  { intros [= <-]. set_solver. }
  rewrite !then_ok. intros (_ & _ & Hn & H). apply bind_ok in H as (rs & Hrs & H). rewrite !then_ok in H. destruct H as (_ & _ & H).
  apply bind_ok in H as (ds & Hds & H). rewrite then_ok in H. destruct H as (_ & H). apply bind_ok in H as (ts & _ & H).
  rewrite then_ok in H. destruct H as (_ & H). apply bind_ok in H as (rest & Hrest & [= <-]).
  intros g [->|Hg]%elem_of_cons; [|by eapply IH]. cbn [g_resolvers match_domains]. apply parse_resolvers_ok in Hrs as [Hl Hrs].
  apply reject_if_ok in Hn. to_prop. split_and!; [|done|].
  - intros ->. simpl in Hl. lia.
  - intros d Hd. destruct (try_collect_elem _ _ _ d Hds Hd) as (x & _ & Hx). by eapply match_domain_ok.
Qed.

#[local] Abbreviation canonical_zone_record := (canonical_zone_record domain_to_ascii domain_to_unicode is_alphabetic).
#[local] Abbreviation canonical_zones_from := (canonical_zones_from domain_to_ascii domain_to_unicode is_alphabetic).

(** A zone the canonical form may hold. *)
Definition zone_ok (z : DnsZone) : Prop :=
  published (z_name z) ∧ ∀ r, r ∈ z_records z → ∃ raw, canonical_zone_record (z_name z) raw = Ok r.

Lemma canonical_zones_ok acc zs out :
  canonical_zones_from acc zs = Ok out → NoDup (map z_name acc) → Forall zone_ok acc → NoDup (map z_name out) ∧ Forall zone_ok out.
Proof.
  revert acc; induction zs as [|z zs IH]; intros acc; cbn [OrgDns.canonical_zones_from]; [by intros [= <-]|].
  intros H Hnd Hok. apply bind_ok in H as (d & Hd & H). rewrite !then_ok in H. destruct H as (Hnew & _ & H).
  apply bind_ok in H as (rs & Hrs & H). rewrite then_ok in H. destruct H as [_ H]. apply IH in H; [done| |].
  - rewrite map_app NoDup_app. split_and!; [done| |apply NoDup_singleton].
    intros x (z' & -> & Hz')%list_elem_of_fmap Hx%list_elem_of_singleton. cbn [z_name] in Hx. apply try_each_ok in Hnew.
    rewrite Forall_forall in Hnew. specialize (Hnew z' Hz'). unfold check_against in Hnew. rewrite then_ok in Hnew.
    destruct Hnew as [Hn%reject_if_ok _]. by to_prop.
  - rewrite Forall_app Forall_singleton. split; [done|]. split; [by eapply public_published|]. cbn [z_name z_records].
    intros r Hr. destruct (try_collect_elem _ _ _ r Hrs Hr) as (raw & _ & Hraw). by exists raw.
Qed.

Lemma check_zone_ok forwarded extra z :
  check_zone forwarded extra z = Ok () → z_name z ∉ forwarded ∧ ∀ r, r ∈ extra → under (r_name r) (z_name z) = false.
Proof.
  unfold check_zone. rewrite then_ok. intros [Hf%reject_if_ok Hr]. to_prop. split; [done|]. intros r Hin.
  destruct (List.find _ extra) as [x|] eqn:Hx; [done|]. pose proof (find_none_elem _ _ r Hx Hin) as Hn.
  unfold zone_contains in Hn. cbn [existsb] in Hn. by rewrite orb_false_r in Hn.
Qed.

Lemma canonicalise_wf s0 s : canonicalise s0 = Ok s → wf s.
Proof.
  unfold OrgDns.canonicalise. rewrite !then_ok. intros (_ & _ & _ & _ & H). apply bind_ok in H as (gl & _ & H).
  apply bind_ok in H as (routes & Hroutes & H). apply bind_ok in H as (search & _ & H). rewrite then_ok in H. destruct H as [_ H].
  apply bind_ok in H as (extra & Hextra & H). rewrite then_ok in H. destruct H as [_ H]. apply bind_ok in H as (groups & Hgroups & H).
  apply bind_ok in H as (zs & Hzs & H). rewrite then_ok in H. destruct H as [Hcheck [= <-]].
  apply canonical_split_ok in Hroutes as (Hnd & _ & Hsplit).
  unfold canonical_groups in Hgroups. rewrite then_ok in Hgroups. destruct Hgroups as [_ Hgroups].
  unfold canonical_zones in Hzs. rewrite then_ok in Hzs. destruct Hzs as [_ [Hznd Hzok]%canonical_zones_ok]; [|constructor..].
  apply try_each_ok in Hcheck. rewrite Forall_forall in Hcheck. rewrite Forall_forall in Hzok.
  constructor; cbn [split records nameserver_groups zones]; try done.
  - intros r Hr. destruct (try_collect_elem _ _ _ r Hextra Hr) as (x & _ & Hx). by eapply canonical_record_ok.
  - by eapply canonical_groups_ok.
  - intros z Hz. destruct (Hzok z Hz) as [Hp Hrec]. destruct (check_zone_ok _ _ _ (Hcheck z Hz)) as [Hf He]. done.
Qed.

(** ** Canonical names *)

Context {Hidna : IdnaLaws domain_to_ascii}.

Lemma canonical_inv d : canonical d →
  (∃ t, domain_to_ascii t = Some d) ∧ (length d ≤ 253)%nat ∧ starts_with (lit ".") d = false ∧ ends_with (lit ".") d = false ∧
  contains_str (lit "..") d = false ∧ mixed_scripts is_alphabetic (domain_to_unicode d) = false ∧ try_each check_label (Text.split 46 d) = Ok ().
Proof.
  intros [input H]. unfold OrgDns.canonicalize_domain in H. rewrite !then_ok in H. destruct H as (_ & _ & H).
  apply bind_ok in H as (a & Ha%ok_or_ok & H). rewrite !then_ok in H. destruct H as (Hl & Hd & Hm & Hc & [= <-]).
  apply reject_if_ok in Hl, Hd, Hm. unfold MAX_DOMAIN_LEN in Hl. to_prop. split_and!; try done. by eexists.
Qed.

Lemma canonical_lower d : canonical d → to_ascii_lowercase d = d.
Proof. intros [[t Ht] _]%canonical_inv. by eapply idna_lower. Qed.

Lemma canonical_normal d : canonical d → Dns.normalise d = d.
Proof.
  intros Hd. pose proof (canonical_lower d Hd). apply canonical_inv in Hd as (_ & _ & _ & He & _).
  unfold Dns.normalise. by rw trim_end_keeps.
Qed.

(** A name the name server of a device takes as it is. *)
Lemma published_suffix d : published d → Dns.labels_are_safe d = true → Dns.valid_published_suffix d = true.
Proof.
  intros [Hc Hp] Hs. unfold private_name in Hp. to_prop. apply canonical_inv in Hc as (_ & Hl & _).
  unfold Dns.valid_published_suffix. rw (proj2 (Nat.leb_le _ _) Hl) Hs.
  match goal with H : seq_b d "blaktail" = false |- _ => rw H end. match goal with H : ends_with _ d = false |- _ => rw H end.
  destruct d; done.
Qed.

(** What a record of a zone is. *)
Definition value_ok (r : ZoneRecord) : Prop :=
  match zr_type r with
  | A => ∃ a, wf_ip (V4 a) ∧ zr_value r = show_ip (V4 a)
  | Aaaa => ∃ a, wf_ip (V6 a) ∧ zr_value r = show_ip (V6 a)
  | Cname => canonical (zr_value r)
  | Txt => (1 ≤ length (zr_value r) ≤ 1024)%nat ∧ forallb (λ b, (32 <=? b) && (b <=? 126)) (zr_value r) = true
  end.

Lemma canonicalize_inv input d :
  canonicalize_domain input = Ok d → domain_to_ascii (trim_end_matches 46 (trim input)) = Some d.
Proof.
  unfold OrgDns.canonicalize_domain. rewrite !then_ok. intros (_ & _ & H). apply bind_ok in H as (a & Ha%ok_or_ok & H).
  rewrite !then_ok in H. by destruct H as (_ & _ & _ & _ & [= <-]).
Qed.

Lemma canonical_fixed d : canonical d → domain_to_ascii d = Some d.
Proof. intros [[t Ht] _]%canonical_inv. by eapply idna_fixed. Qed.

Lemma record_owner_ok zone name owner :
  canonical zone → Dns.labels_are_safe zone = true →
  record_owner domain_to_ascii domain_to_unicode is_alphabetic zone name = Ok owner → canonical owner ∧ under owner zone = true.
Proof.
  intros Hz Hs. unfold record_owner. destruct (seq_b _ "@").
  { intros [= <-]. split; [done|]. apply under_true. by left. }
  destruct (_ && _).
  - intros H. assert (canonical owner) as Ho by by eexists. split; [done|]. apply under_true. right. apply canonicalize_inv in H.
    destruct (safe_graphic zone Hs) as [Hg Hne]. set (raw := trim_end_matches 46 (trim name)) in *.
    destruct (trim_keeps raw (lit "." ++ zone)) as [t' Ht]; [change (lit ".") with [46]; constructor; [unfold graphic; lia|done]|done|].
    rewrite Ht in H. rewrite trim_end_keeps in H. 2: { apply canonical_inv in Hz as (_ & _ & _ & He & _).
      destruct (ends_with [46] (t' ++ lit "." ++ zone)) eqn:Hx; [|done]. exfalso. apply ends_with_true in Hx as [q Hq].
      destruct zone as [|c r _] using rev_ind; [done|]. rewrite !app_assoc in Hq. apply app_inj_2 in Hq as [_ [= ->]]; [|done].
      assert (ends_with (lit ".") (r ++ [46]) = true) as Hy by (apply ends_with_true; by exists r). by rewrite Hy in He. }
    by apply (idna_tail t' zone owner (canonical_fixed zone Hz)).
  - intros (n & Hn & [Hc%reject_if_ok [= <-]]%then_ok)%bind_ok. split; [by eexists|]. to_prop.
    unfold zone_contains in Hc. cbn [existsb] in Hc. by rewrite orb_false_r in Hc.
Qed.

Lemma zone_record_ok zone raw r :
  canonical zone → Dns.labels_are_safe zone = true → canonical_zone_record zone raw = Ok r →
  canonical (zr_name r) ∧ under (zr_name r) zone = true ∧ 30 ≤ zr_ttl r ≤ 86400 ∧ value_ok r.
Proof.
  intros Hz Hs. unfold OrgDns.canonical_zone_record. intros (n & Hn & [Ht (v & Hv & [= <-])%bind_ok]%then_ok)%bind_ok.
  apply reject_if_ok in Ht. unfold MIN_TTL, MAX_TTL in Ht. to_prop. destruct (record_owner_ok zone _ n Hz Hs Hn) as [Hc Hu].
  cbn [zr_name zr_ttl]. split_and!; [done..|]. unfold value_ok. cbn [zr_type zr_value]. unfold record_value in Hv.
  destruct (zr_type raw).
  - apply bind_ok in Hv as (x & Hx & Hv). rewrite then_ok in Hv. destruct Hv as [_ [= <-]]. unfold parse_ipv4 in Hx.
    destruct (parse_ip _) as [[a|a]|] eqn:Ha; try done. injection Hx as <-. exists a. split; [by eapply parse_ip_wf|done].
  - apply bind_ok in Hv as (x & Hx & Hv). rewrite then_ok in Hv. destruct Hv as [_ [= <-]]. unfold parse_ipv6 in Hx.
    destruct (parse_ip _) as [[a|a]|] eqn:Ha; try done. injection Hx as <-. exists a. split; [by eapply parse_ip_wf|done].
  - apply bind_ok in Hv as (x & Hx & Hv). rewrite then_ok in Hv. destruct Hv as [_ [= <-]]. by eexists.
  - rewrite then_ok in Hv. destruct Hv as [Hr%reject_if_ok [= <-]]. unfold MAX_TXT_LEN in Hr. to_prop. split; [lia|done].
Qed.

(** A record as the device decodes it, and the names it publishes. *)
Definition zone_record_of (r : ZoneRecord) : Dns.OrgDnsZoneRecord :=
  Dns.mkOrgDnsZoneRecord (zr_name r) (as_str (zr_type r)) (zr_value r) (zr_ttl r).

Definition record_names (r : ZoneRecord) : list str := zr_name r :: if bool_decide (zr_type r = Cname) then [zr_value r] else [].

(** The entry a device keeps of a record. *)
Definition device_entry (r : ZoneRecord) : option Dns.ZoneRecord :=
  d ← Dns.zone_data (zone_record_of r); Some (Dns.mkZoneRecord d (zr_ttl r)).

Lemma device_entry_some r :
  value_ok r → (∀ d, d ∈ record_names r → Dns.labels_are_safe d = true) → is_Some (Dns.zone_data (zone_record_of r)).
Proof.
  unfold value_ok, Dns.zone_data, record_names, zone_record_of. cbn [Dns.zr_value Dns.zr_type]. destruct (zr_type r).
  - intros (a & Hw & ->) _. rw trim_graphic; [|apply show_ip_graphic]. rw parse_show_ip //.
  - intros (a & Hw & ->) _. rw trim_graphic; [|apply show_ip_graphic]. rw parse_show_ip //.
  - intros Hc Hs. rw (bool_decide_true (Cname = Cname)) // in Hs. specialize (Hs (zr_value r)). assert (Dns.labels_are_safe (zr_value r) = true) as Hsafe by (apply Hs; set_solver).
    destruct (safe_graphic _ Hsafe) as [Hg Hne]. rw trim_graphic //. rw canonical_normal //. rw Hsafe.
    apply canonical_inv in Hc as (_ & Hl & _). rw (proj2 (Nat.leb_le _ _) Hl). destruct (zr_value r); [done|]. by eexists.
  - intros [Hl Hf] _. unfold Dns.MAX_TXT_LEN. rw (proj2 (Nat.leb_le (length (zr_value r)) 1024)); [|lia].
    assert (forallb (λ b, (32 <=? b) && (b <? 127)) (zr_value r) = true) as ->; [|by eexists].
    rewrite !forallb_forall in Hf |- *. intros b Hb%Hf. lia.
Qed.

End canonical.

(** ** Routes of a device *)

Definition routes (s : OrgDnsSettings) (device_tags : list str) : list SplitDnsRoute :=
  foldl add_group (split s) (List.filter (λ g, applies_to g device_tags) (nameserver_groups s)).

(** Adding only appends, routes of new suffixes. *)
Lemma add_domain_spec rs acc d :
  ∃ more, add_domain rs acc d = acc ++ more ∧ d ∈ map suffix (acc ++ more) ∧
    (NoDup (map suffix acc) → NoDup (map suffix (acc ++ more))) ∧
    ∀ r, r ∈ more → r = mkSplit d rs ∧ d ∉ map suffix acc.
Proof.
  unfold add_domain. destruct (existsb _ acc) eqn:He.
  - exists []. rewrite app_nil_r. apply existsb_elem in He as (r & Hr & He). to_prop. split_and!; [done| |done|set_solver].
    apply list_elem_of_fmap. by exists r.
  - exists [mkSplit d rs]. assert (d ∉ map suffix acc) as Hd.
    { intros (r & -> & Hr)%list_elem_of_fmap. rewrite existsb_false in He. specialize (He r Hr). by case_bool_decide. }
    rewrite map_app. split_and!; [done|set_solver| |].
    + intros Hn. apply NoDup_app. split_and!; [done|set_solver|apply NoDup_singleton].
    + intros r ->%list_elem_of_singleton. done.
Qed.

Lemma add_group_spec acc g :
  ∃ more, add_group acc g = acc ++ more ∧
    (NoDup (map suffix acc) → NoDup (map suffix (acc ++ more))) ∧
    (∀ d, d ∈ match_domains g → d ∈ map suffix (acc ++ more)) ∧
    ∀ r, r ∈ more → suffix r ∈ match_domains g ∧ resolvers r = g_resolvers g ∧ suffix r ∉ map suffix acc.
Proof.
  unfold add_group. generalize (match_domains g) as ds. intros ds; revert acc.
  induction ds as [|d ds IH]; intros acc; cbn [foldl].
  { exists []. rewrite app_nil_r. split_and!; [done|done|set_solver|set_solver]. }
  destruct (add_domain_spec (g_resolvers g) acc d) as (m1 & -> & Hd & Hn1 & Hm1). destruct (IH (acc ++ m1)) as (m2 & -> & Hn2 & Hin & Hm2).
  exists (m1 ++ m2). rewrite app_assoc. split_and!; [done|tauto| |].
  - intros x [->|Hx]%elem_of_cons; [|by apply Hin]. rewrite map_app. set_solver.
  - intros r [Hr|Hr]%elem_of_app.
    + destruct (Hm1 r Hr) as [-> Hf]. cbn [suffix resolvers]. split_and!; [set_solver|done|done].
    + destruct (Hm2 r Hr) as (? & ? & Hf). rewrite map_app in Hf. split_and!; [set_solver|done|set_solver].
Qed.

Lemma add_groups_spec acc gs :
  ∃ more, foldl add_group acc gs = acc ++ more ∧
    (NoDup (map suffix acc) → NoDup (map suffix (acc ++ more))) ∧
    (∀ g d, g ∈ gs → d ∈ match_domains g → d ∈ map suffix (acc ++ more)) ∧
    ∀ r, r ∈ more → suffix r ∉ map suffix acc ∧ ∃ g, List.find (λ g, bool_decide (suffix r ∈ match_domains g)) gs = Some g ∧ resolvers r = g_resolvers g.
Proof.
  revert acc; induction gs as [|g gs IH]; intros acc; cbn [foldl].
  { exists []. rewrite app_nil_r. split_and!; [done|done|set_solver|set_solver]. }
  destruct (add_group_spec acc g) as (m1 & -> & Hn1 & Hd1 & Hm1). destruct (IH (acc ++ m1)) as (m2 & -> & Hn2 & Hd2 & Hm2).
  exists (m1 ++ m2). rewrite app_assoc. split_and!; [done|tauto| |].
  - intros g' d [->|Hg]%elem_of_cons Hd; [|by eapply Hd2]. apply Hd1 in Hd. rewrite map_app. set_solver.
  - intros r [Hr|Hr]%elem_of_app; cbn [List.find].
    + destruct (Hm1 r Hr) as (Hin & Hrs & Hf). split; [done|]. exists g. by rw bool_decide_true.
    + destruct (Hm2 r Hr) as (Hf & g' & Hg & Hrs). rewrite map_app in Hf. split; [set_solver|]. exists g'.
      rw bool_decide_false; [done|]. intros Hd%Hd1. rewrite map_app in Hd. set_solver.
Qed.

(** ** The records of a device *)

(** The snapshot as the device decodes it: the same keys. *)
Definition record_of (r : DnsRecord) : Dns.OrgDnsRecord := Dns.mkOrgDnsRecord (r_name r) (record_type_name (r_type r)) (r_value r).

Definition snapshot_of (v : OrgDnsAgentView) : Dns.OrgDnsSnapshot :=
  Dns.mkOrgDnsSnapshot (v_revision v) (v_managed v) (map record_of (v_records v)) (v_search_domains v)
    (map (λ r, Dns.mkOrgDnsSplit (suffix r) (resolvers r)) (v_split v)) (v_global_resolvers v)
    (map (λ z, Dns.mkOrgDnsZone (az_name z) (map zone_record_of (az_records z))) (v_zones v)).

(** Every name a document publishes. *)
Definition zone_names (z : DnsZone) : list str := z_name z :: flat_map record_names (z_records z).
Definition names (s : OrgDnsSettings) : list str :=
  map suffix (split s) ++ flat_map match_domains (nameserver_groups s) ++ map r_name (records s) ++ flat_map zone_names (zones s).

(** All names are made of letters, digits and hyphens, as devices require. *)
Definition plain (s : OrgDnsSettings) : Prop := ∀ d, d ∈ names s → Dns.labels_are_safe d = true.

Lemma plain_suffix s r : plain s → r ∈ split s → Dns.labels_are_safe (suffix r) = true.
Proof. intros Hp Hr. apply Hp. unfold names. rewrite !elem_of_app. left. apply list_elem_of_fmap. by exists r. Qed.

Lemma plain_domain s g d : plain s → g ∈ nameserver_groups s → d ∈ match_domains g → Dns.labels_are_safe d = true.
Proof. intros Hp Hg Hd. apply Hp. unfold names. rewrite !elem_of_app. right; left. apply flat_map_elem. by exists g. Qed.

Lemma plain_zone s z d : plain s → z ∈ zones s → d ∈ zone_names z → Dns.labels_are_safe d = true.
Proof. intros Hp Hz Hd. apply Hp. unfold names. rewrite !elem_of_app. right; right; right. apply flat_map_elem. by exists z. Qed.

Lemma plain_record s r : plain s → r ∈ records s → Dns.labels_are_safe (r_name r) = true.
Proof. intros Hp Hr. apply Hp. unfold names. rewrite !elem_of_app. right; right; left. apply list_elem_of_fmap. by exists r. Qed.

Lemma device_resolver v : address_text v → ∃ a, Dns.parse_resolver v = Some a.
Proof.
  intros (a & Hw & ->). unfold Dns.parse_resolver. rw trim_graphic; [|apply show_ip_graphic].
  rw parse_show_ip //. assert (Dns.parse_socket_addr (show_ip a) = None) as ->; [|by eexists].
  assert (read_given_char 91 (show_ip a) = None) as H6.
  { pose proof (show_ip_chars a) as Hc. unfold read_given_char. destruct (show_ip a) as [|c r]; [done|].
    apply Forall_cons in Hc as [Hc _]. unfold addr_char in Hc. by destruct (Z.eqb_spec 91 c); [lia|]. }
  unfold Dns.parse_socket_addr. rw H6. destruct a as [b|b]; cbn [show_ip].
  - rewrite -{1}(app_nil_r (show_v4 b)). by rw read_ipv4_show.
  - by rw show_v6_no_ipv4.
Qed.

Lemma device_resolvers vs : vs ≠ [] → Forall address_text vs → (length (omap Dns.parse_resolver vs) =? 0)%nat = false.
Proof.
  destruct vs as [|v vs]; [done|]. intros _ [Hv _]%Forall_cons. apply device_resolver in Hv as [a Ha]. simpl. by rw Ha.
Qed.

(** ** Maps of lists *)

(** A key is never mapped to the empty list. *)
Lemma push_not_empty {A} `{EqDecision A} (m : gmap str (list A)) k v k' :
  m !! k' ≠ Some [] → Dns.push_unique m k v !! k' ≠ Some [].
Proof.
  intros Hm. unfold Dns.push_unique. destruct (decide (k' = k)) as [->|Hne]; [|by rw lookup_insert_ne].
  rw lookup_insert_eq. intros [= H]. case_bool_decide as Hv; [|by destruct (default [] (m !! k))].
  rewrite H in Hv. by apply not_elem_of_nil in Hv.
Qed.

Lemma fold_not_empty {A X} (f : gmap str (list A) → X → gmap str (list A)) l m k :
  (∀ m x, m !! k ≠ Some [] → f m x !! k ≠ Some []) → m !! k ≠ Some [] → foldl f m l !! k ≠ Some [].
Proof. intros Hf. revert m; induction l as [|x l IH]; intros m Hm; cbn [foldl]; auto. Qed.

Lemma lookup_none {A} (o : option (list A)) : o ≠ Some [] → o = None ↔ ∀ x, x ∉ default [] o.
Proof.
  intros Hm. split; [intros ->; set_solver|]. intros Hx. destruct o as [[|x l]|]; [done|set_solver|done].
Qed.

(** What a device takes from an extra record. *)
Definition extra_of (r : Dns.OrgDnsRecord) (name : str) (a : IpAddr) : Prop :=
  Dns.normalise (Dns.rec_name r) = name ∧ name ≠ [] ∧ ends_with (lit ".blaktail") name = false ∧ parse_ip (Dns.rec_value r) = Some a ∧
  (let kind := Dns.to_ascii_uppercase (Dns.rec_type r) in
   (if seq_b kind "A" then is_ipv4 a else if seq_b kind "AAAA" then is_ipv6 a else false) = true).

Lemma insert_extra_of m r name a :
  a ∈ default [] (Dns.insert_extra_record m r !! name) ↔ a ∈ default [] (m !! name) ∨ extra_of r name a.
Proof.
  unfold Dns.insert_extra_record, extra_of. destruct (Nat.eqb_spec (length (Dns.normalise (Dns.rec_name r))) 0) as [H0|H0]; cbn [orb].
  { apply length_zero_iff_nil in H0. split; [by left|]. intros [?|(<- & Hne & _)]; done. }
  destruct (ends_with _ (Dns.normalise _)) eqn:He.
  { split; [by left|]. intros [?|(<- & _ & Hx & _)]; [done|]. congruence. }
  destruct (parse_ip (Dns.rec_value r)) as [b|]; [|naive_solver]. cbv zeta.
  destruct (if seq_b _ "A" then _ else _) eqn:Hk; [rw push_unique_elem|]; split; try by left.
  - intros [?|[-> ->]]; [by left|right]. split_and!; try done. by intros Hn; rewrite Hn in H0.
  - intros [?|(<- & _ & _ & [= ->] & _)]; [by left|by right].
  - intros [?|(_ & _ & _ & [= ->] & Hx)]; [done|]. congruence.
Qed.

Lemma insert_record_other m n address dom name :
  46 ∈ name → ends_with (lit "." ++ dom) name = false → Dns.insert_record m n address dom !! name = m !! name.
Proof.
  intros Hd Hu. unfold Dns.insert_record. destruct (ends_with (lit "." ++ dom) (Dns.normalise n)) eqn:He; [|done]. cbn [negb].
  destruct (split_once 47 address) as [[text prefix]|]; [|done]. destruct (parse_ip text); [|done]. destruct (negb _); [done|].
  unfold Dns.push_unique at 1. rw lookup_insert_ne; [|intros <-; congruence].
  destruct (split_once 46 (Dns.normalise n)) as [[label rest]|] eqn:Hs; [|done]. apply split_once_Some in Hs as [_ Hno].
  unfold Dns.push_unique. rw lookup_insert_ne; [done|]. by intros <-.
Qed.

Lemma insert_service_other m sv dom name :
  ends_with (lit "." ++ dom) name = false → Dns.insert_service_record dom m sv !! name = m !! name.
Proof.
  intros Hu. unfold Dns.insert_service_record. destruct (ends_with (lit ".svc." ++ dom) _) eqn:He; [|done]. cbn [negb orb].
  destruct (negb _); [done|]. assert (Dns.normalise (Dns.sv_name sv) ≠ name) as Hne.
  { intros <-. apply ends_with_true in He as [q Hq]. assert (ends_with (lit "." ++ dom) (Dns.normalise (Dns.sv_name sv)) = true) as Hx; [|congruence].
    apply ends_with_true. exists (q ++ lit ".svc"). rewrite Hq -app_assoc. done. }
  generalize (omap parse_ip (Dns.sv_addresses sv)) as l. intros l. revert m. induction l as [|a l IH]; intros m; cbn [foldl]; [done|].
  rw IH. unfold Dns.push_unique. by rw lookup_insert_ne.
Qed.

Lemma fold_other {A X} (f : gmap str (list A) → X → gmap str (list A)) l m k :
  (∀ m x, f m x !! k = m !! k) → foldl f m l !! k = m !! k.
Proof. intros Hf. revert m; induction l as [|x l IH]; intros m; cbn [foldl]; [done|]. by rw IH Hf. Qed.

(** Outside its domain a device has the addresses of the extra records only. *)
Lemma outside_addresses (st : Dns.NodeState) dom name snapshot :
  Dns.org_dns st = Some snapshot → 46 ∈ name → ends_with (lit "." ++ dom) name = false →
  let m := Dns.addresses (Dns.records_from_state st dom) in
  (Dns.managed snapshot = false → m !! name = None) ∧
  (Dns.managed snapshot = true →
   (∀ a, a ∈ default [] (m !! name) ↔ ∃ r, r ∈ Dns.org_records snapshot ∧ extra_of r name a) ∧
   (m !! name = None ↔ ∀ r a, r ∈ Dns.org_records snapshot → ¬ extra_of r name a)).
Proof.
  intros Hst Hd Hu. unfold Dns.records_from_state. rw Hst.
  set (m0 := foldl _ ∅ _). set (m1 := foldl _ m0 (Dns.peers st)). set (m2 := Dns.insert_service_records m1 _ dom).
  assert (m2 !! name = None) as Hm2.
  { unfold m2, Dns.insert_service_records. rw fold_other; [|intros; by apply insert_service_other].
    unfold m1. rw fold_other; [|intros; apply fold_other; intros; by apply insert_record_other].
    unfold m0. rw fold_other; [|intros; by apply insert_record_other]. apply lookup_empty. }
  split; intros ->; [done|]. cbn [Dns.addresses]. set (m := foldl Dns.insert_extra_record m2 _).
  assert (∀ a, a ∈ default [] (m !! name) ↔ ∃ r, r ∈ Dns.org_records snapshot ∧ extra_of r name a) as Hel.
  { intros a. unfold m. rw foldl_elem; [|intros; apply insert_extra_of]. rw Hm2. cbn [default]. set_solver. }
  split; [done|]. rewrite lookup_none; [setoid_rewrite Hel; naive_solver|]. apply fold_not_empty; [|by rw Hm2].
  intros m' r Hm'. unfold Dns.insert_extra_record. destruct (_ || _); [done|]. destruct (parse_ip _); [|done].
  destruct (if seq_b _ "A" then _ else _); [|done]. by apply push_not_empty.
Qed.

(** ** The longest suffix *)

Lemma best_candidate_spec l :
  match best_candidate l with
  | Some b => b ∈ l ∧ ∀ c, c ∈ l → (length (c_suffix c) ≤ length (c_suffix b))%nat
  | None => l = []
  end.
Proof.
  unfold best_candidate. induction l as [|x l IH] using rev_ind; [done|]. rewrite foldl_app. cbn [foldl].
  destruct (foldl _ None l) as [b|].
  - destruct IH as [Hb Hmax]. destruct (Nat.ltb_spec (length (c_suffix b)) (length (c_suffix x))).
    + split; [set_solver|]. intros y [Hy| ->%list_elem_of_singleton]%elem_of_app; [apply Hmax in Hy; lia|lia].
    + split; [set_solver|]. intros y [Hy| ->%list_elem_of_singleton]%elem_of_app; [by apply Hmax|lia].
  - subst. split; [set_solver|]. intros y [Hy| ->%list_elem_of_singleton]%elem_of_app; [set_solver|lia].
Qed.

Section device.
Context (domain_to_ascii : str → option str) (domain_to_unicode : str → str) (is_alphabetic : str → bool).
Context {Hidna : IdnaLaws domain_to_ascii}.
#[local] Abbreviation wf := (wf domain_to_ascii domain_to_unicode is_alphabetic).
#[local] Abbreviation published := (published domain_to_ascii domain_to_unicode is_alphabetic).
#[local] Abbreviation canonical := (canonical domain_to_ascii domain_to_unicode is_alphabetic).
Context (s : OrgDnsSettings) (Hwf : wf s) (Hplain : plain s) (device_tags : list str).

(** Routes of a device have distinct, published, plain suffixes and resolvers. *)
Lemma routes_ok :
  NoDup (map suffix (routes s device_tags)) ∧
  (∀ r, r ∈ routes s device_tags → published (suffix r) ∧ Dns.labels_are_safe (suffix r) = true ∧ resolvers r ≠ [] ∧ Forall address_text (resolvers r)) ∧
  (∀ r, r ∈ split s → r ∈ routes s device_tags) ∧
  (∀ g d, List.find (λ g, applies_to g device_tags && bool_decide (d ∈ match_domains g)) (nameserver_groups s) = Some g →
          mkSplit d (g_resolvers g) ∈ routes s device_tags) ∧
  (∀ r, r ∈ routes s device_tags → r ∈ split s ∨ ∃ g, g ∈ nameserver_groups s ∧ applies_to g device_tags = true ∧ suffix r ∈ match_domains g).
Proof.
  unfold routes. set (gs := List.filter _ _). destruct (add_groups_spec (split s) gs) as (more & -> & Hnd & Hcov & Hmore).
  assert (∀ g, g ∈ gs ↔ g ∈ nameserver_groups s ∧ applies_to g device_tags = true) as Hgs by (intros g; unfold gs; by rewrite filter_elem).
  assert (∀ d, List.find (λ g, applies_to g device_tags && bool_decide (d ∈ match_domains g)) (nameserver_groups s)
               = List.find (λ g, bool_decide (d ∈ match_domains g)) gs) as Hfind.
  { intros d. unfold gs. by rw find_filter. }
  split_and!; [by apply Hnd, Hwf| | | |].
  - intros r [Hr|Hr]%elem_of_app.
    + destruct (wf_split _ _ _ _ Hwf r Hr) as (? & ? & ?). split_and!; try done. by eapply plain_suffix.
    + destruct (Hmore r Hr) as (_ & g & Hg & ->). apply find_elem in Hg as [[Hg _]%Hgs Hd]. to_prop.
      destruct (wf_groups _ _ _ _ Hwf g Hg) as (? & ? & Hp). destruct (Hp _ Hd). split_and!; try done. by eapply plain_domain.
  - set_solver.
  - intros g d Hg. rewrite Hfind in Hg. apply find_elem in Hg as Hin. destruct Hin as [Hin Hd]. to_prop.
    pose proof (Hcov g d Hin Hd) as (r & -> & Hr)%list_elem_of_fmap. apply Hgs in Hin as [Hin _].
    apply elem_of_app in Hr as [Hr|Hr].
    + destruct (wf_groups _ _ _ _ Hwf g Hin) as (_ & _ & Hp). destruct (Hp _ Hd) as [_ []]. apply list_elem_of_fmap. by exists r.
    + destruct (Hmore r Hr) as (_ & g' & Hg' & Hrs). assert (g' = g) as -> by congruence. rewrite -Hrs. destruct r. set_solver.
  - intros r [Hr|Hr]%elem_of_app; [by left|right]. destruct (Hmore r Hr) as (_ & g & Hg & _).
    apply find_elem in Hg as [[Hg Ha]%Hgs Hd]. to_prop. by exists g.
Qed.

(** The map of a device's zone. *)
Definition zone_entries (z : DnsZone) : gmap str (list Dns.ZoneRecord) :=
  foldl (Dns.insert_zone_record (z_name z)) ∅ (map zone_record_of (z_records z)).
Definition device_zone (z : DnsZone) : Dns.Zone := Dns.mkZone (z_name z) (zone_entries z).

Lemma zone_plain z : z ∈ zones s → canonical (z_name z) ∧ Dns.labels_are_safe (z_name z) = true.
Proof. intros Hz. split; [by apply (wf_zones _ _ _ _ Hwf z Hz)|]. eapply plain_zone; [done..|]. by left. Qed.

(** The records of a zone as they reach the device. *)
Lemma zone_record_plain z r : z ∈ zones s → r ∈ z_records z →
  canonical (zr_name r) ∧ Dns.labels_are_safe (zr_name r) = true ∧ under (zr_name r) (z_name z) = true ∧ 30 ≤ zr_ttl r ∧
  is_Some (Dns.zone_data (zone_record_of r)).
Proof.
  intros Hz Hr. destruct (zone_plain z Hz) as [Hc Hs]. destruct (wf_zones _ _ _ _ Hwf z Hz) as (_ & _ & _ & Hraw).
  destruct (Hraw r Hr) as [raw Hraw']. destruct (zone_record_ok _ _ _ _ _ _ Hc Hs Hraw') as (Hn & Hu & Ht & Hv).
  assert (∀ d, d ∈ record_names r → Dns.labels_are_safe d = true) as Hnames.
  { intros d Hd. eapply plain_zone; [done..|]. right. apply flat_map_elem. by exists r. }
  split_and!; [done|by apply Hnames; left|done|lia|by eapply device_entry_some].
Qed.

Lemma zone_lookup z k : z ∈ zones s →
  (∀ x, x ∈ default [] (zone_entries z !! k) ↔ ∃ r, r ∈ z_records z ∧ zr_name r = k ∧ device_entry r = Some x) ∧
  (zone_entries z !! k = None ↔ ∀ r, r ∈ z_records z → zr_name r ≠ k).
Proof.
  intros Hz. pose proof (λ r, zone_record_plain z r Hz) as Hplain'. unfold zone_entries. revert Hplain'. generalize (z_records z) as rs.
  intros rs Hrs. set (m := foldl _ ∅ _).
  assert (∀ x, x ∈ default [] (m !! k) ↔ ∃ r, r ∈ rs ∧ zr_name r = k ∧ device_entry r = Some x) as Hel.
  { intros x. unfold m. enough (∀ l m0, (∀ r, r ∈ l → r ∈ rs) → x ∈ default [] (foldl (Dns.insert_zone_record (z_name z)) m0 (map zone_record_of l) !! k) ↔
      x ∈ default [] (m0 !! k) ∨ ∃ r, r ∈ l ∧ zr_name r = k ∧ device_entry r = Some x) as Hf.
    { rewrite Hf // lookup_empty. cbn [default]. set_solver. }
    induction l as [|r l IH]; intros m0 Hl; cbn [map foldl]; [set_solver|]. rewrite IH; [|set_solver]. clear IH.
    destruct (Hrs r) as (Hc & Hs & Hu & Ht & [d Hd]); [apply Hl; by left|]. unfold Dns.insert_zone_record, device_entry. cbn [Dns.zr_name Dns.zr_ttl zone_record_of].
    rw (canonical_normal domain_to_ascii domain_to_unicode is_alphabetic (zr_name r) Hc). change (Dns.in_suffix (zr_name r) (z_name z)) with (under (zr_name r) (z_name z)).
    rw Hu Hs Hd. cbn [negb orb]. destruct (Z.eqb_spec (zr_ttl r) 0); [lia|]. rewrite push_unique_elem. setoid_rewrite elem_of_cons.
    cbn [mbind option_bind]. split.
    - intros [[Hx|[-> ->]]|(r' & Hr' & Hk & He)]; [by left|right; exists r; rw Hd; tauto|right; exists r'; tauto].
    - intros [Hx|(r' & [->|Hr'] & <- & He)]; [tauto| |right; by exists r']. left; right. rewrite Hd in He. by injection He as <-. }
  split; [done|]. rewrite lookup_none.
  2: { apply fold_not_empty; [|by rw lookup_empty]. intros m' r Hm'. unfold Dns.insert_zone_record. destruct (_ || _); [done|].
       destruct (Dns.zone_data r); [|done]. by apply push_not_empty. }
  setoid_rewrite Hel. split.
  - intros Hno r Hr <-. destruct (Hrs r Hr) as (_ & _ & _ & _ & [d Hd]). eapply Hno. exists r. split_and!; try done. unfold device_entry. by rw Hd.
  - intros Hno x (r & Hr & Hk & _). by eapply Hno.
Qed.

Context (hash : str → str) (org_id : str) (revision : Z).
Definition sent : Dns.OrgDnsSnapshot := snapshot_of (agent_view hash s org_id revision device_tags).

Lemma sent_zones : Dns.zones_from_snapshot sent = map device_zone (List.filter z_enabled (zones s)).
Proof.
  unfold Dns.zones_from_snapshot, sent, agent_view. cbn [snapshot_of Dns.org_zones v_zones]. rewrite map_map. cbn [az_name az_records].
  assert (∀ zs acc, (∀ z, z ∈ zs → z ∈ zones s) → NoDup (map z_name (acc ++ zs)) →
    foldl Dns.add_zone (map device_zone acc) (map (λ z, Dns.mkOrgDnsZone (z_name z) (map zone_record_of (z_records z))) zs)
    = map device_zone (acc ++ zs)) as Hall.
  { induction zs as [|z zs IH]; intros acc Hin Hnd; cbn [map foldl]; [by rewrite app_nil_r|].
    replace (acc ++ z :: zs) with ((acc ++ [z]) ++ zs) in Hnd |- * by by rewrite -app_assoc.
    rewrite -IH; [|set_solver|done]. f_equal. rewrite map_app. cbn [map]. unfold Dns.add_zone. cbn [Dns.oz_name Dns.oz_records].
    destruct (wf_zones _ _ _ _ Hwf z) as (Hp & _); [set_solver|]. rw (canonical_normal domain_to_ascii domain_to_unicode is_alphabetic (z_name z)); [|by apply Hp].
    rw (published_suffix domain_to_ascii domain_to_unicode is_alphabetic (z_name z) Hp); [|eapply plain_zone; [done|by apply Hin; left|by left]]. cbn [negb orb].
    rw bool_decide_false; [done|]. rewrite map_map. cbn [Dns.z_name device_zone]. rewrite !map_app in Hnd.
    apply NoDup_app in Hnd as (Hnd & _ & _). apply NoDup_app in Hnd as (_ & Hd & _). intros Hz. apply (Hd _ Hz). set_solver. }
  apply (Hall _ []); [by intros z [? _]%filter_elem|]. cbn [app]. apply nodup_filter_key, Hwf.
Qed.

Lemma sent_routes :
  Dns.split_from_snapshot sent = map (λ r, (suffix r, omap Dns.parse_resolver (resolvers r))) (routes s device_tags).
Proof.
  unfold Dns.split_from_snapshot, sent, agent_view. cbn [snapshot_of Dns.org_split v_split]. fold (routes s device_tags).
  rewrite map_app map_map omap_app. cbn [suffix resolvers].
  assert (∀ zs : list DnsZone, omap Dns.split_route (map (λ z, Dns.mkOrgDnsSplit (z_name z) []) zs) = []) as ->.
  { induction zs as [|z zs IH]; [done|]. cbn [map omap list_omap]. unfold Dns.split_route at 1. cbn [Dns.sp_resolvers omap list_omap].
    by destruct (negb _). }
  rewrite app_nil_r. destruct routes_ok as (_ & Hr & _). revert Hr. generalize (routes s device_tags) as rs.
  induction rs as [|r rs IH]; intros Hr; [done|]. cbn [map omap list_omap]. destruct (Hr r) as (Hp & Hs & Hne & Ht); [by left|].
  unfold Dns.split_route at 1. cbn [Dns.sp_suffix Dns.sp_resolvers]. rw (canonical_normal domain_to_ascii domain_to_unicode is_alphabetic (suffix r)); [|apply Hp].
  rw (published_suffix domain_to_ascii domain_to_unicode is_alphabetic _ Hp Hs). cbn [negb]. rw device_resolvers //. f_equal. apply IH. intros r' Hr'. apply Hr. by right.
Qed.

(** ** The decision for a name *)

Context (st : Dns.NodeState) (dom : str) (Hst : Dns.org_dns st = Some sent).
Context (Hmanaged : managed s = true).
#[local] Abbreviation device := (Dns.records_from_state st dom).

Lemma device_routes : Dns.split_routes device = map (λ r, (suffix r, omap Dns.parse_resolver (resolvers r))) (routes s device_tags).
Proof. unfold Dns.records_from_state. rw Hst. change (Dns.managed sent) with (managed s). rw Hmanaged. apply sent_routes. Qed.

Lemma device_zones : Dns.zones device = map device_zone (List.filter z_enabled (zones s)).
Proof. unfold Dns.records_from_state. rw Hst. change (Dns.managed sent) with (managed s). rw Hmanaged. apply sent_zones. Qed.

Context (name : str).

(** The candidates that count: enabled zones and routes above the name. *)
Lemma applying c :
  c ∈ List.filter c_applies (candidates s name device_tags) →
  under name (c_suffix c) = true ∧
  match c_source c with
  | FromZone => ∃ z, z ∈ zones s ∧ z_enabled z = true ∧ z_name z = c_suffix c
  | FromGroup => ∃ g, g ∈ nameserver_groups s ∧ applies_to g device_tags = true ∧ c_suffix c ∈ match_domains g
  | FromSplit => ∃ r, r ∈ split s ∧ suffix r = c_suffix c
  end.
Proof.
  intros [Hc Ha]%filter_elem. unfold candidates in Hc. rewrite !elem_of_app in Hc. destruct Hc as [Hc|[Hc|Hc]].
  - apply list_elem_of_fmap in Hc as (z & -> & [Hz Hu]%filter_elem). to_prop. split; [done|]. by exists z.
  - apply flat_map_elem in Hc as (g & Hg & (d & -> & [Hd Hu]%filter_elem)%list_elem_of_fmap). split; [done|]. by exists g.
  - apply list_elem_of_fmap in Hc as (r & -> & [Hr Hu]%filter_elem). split; [done|]. by exists r.
Qed.

Lemma zone_applies z : z ∈ zones s → z_enabled z = true → under name (z_name z) = true →
  mkCandidate (z_name z) FromZone (z_name z) true ∈ List.filter c_applies (candidates s name device_tags).
Proof.
  intros Hz He Hu. apply filter_elem. split; [|done]. unfold candidates. rewrite !elem_of_app. left. apply list_elem_of_fmap. exists z.
  split; [done|]. apply filter_elem. by rw He Hu.
Qed.

Lemma route_applies r : r ∈ routes s device_tags → under name (suffix r) = true →
  ∃ c, c ∈ List.filter c_applies (candidates s name device_tags) ∧ c_suffix c = suffix r ∧ c_source c ≠ FromZone.
Proof.
  intros Hr Hu. destruct routes_ok as (_ & _ & _ & _ & Hfrom). destruct (Hfrom r Hr) as [Hs|(g & Hg & Ha & Hd)].
  - exists (mkCandidate (suffix r) FromSplit (suffix r) true). split; [|done]. apply filter_elem. split; [|done].
    unfold candidates. rewrite !elem_of_app. right; right. apply list_elem_of_fmap. exists r. split; [done|]. by apply filter_elem.
  - exists (mkCandidate (suffix r) FromGroup (g_name g) true). split; [|done]. apply filter_elem. split; [|done].
    unfold candidates. rewrite !elem_of_app. right; left. apply flat_map_elem. exists g. split; [done|]. apply list_elem_of_fmap.
    exists (suffix r). rw Ha. split; [done|]. by apply filter_elem.
Qed.

#[local] Abbreviation best := (best_candidate (List.filter c_applies (candidates s name device_tags))).

(** A zone's name is no route's. *)
Lemma zone_not_route z r : z ∈ zones s → r ∈ routes s device_tags → z_name z ≠ suffix r.
Proof.
  intros Hz Hr Heq. destruct (wf_zones _ _ _ _ Hwf z Hz) as (_ & Hno & _). apply Hno. rewrite Heq. apply elem_of_app.
  destruct routes_ok as (_ & _ & _ & _ & Hfrom). destruct (Hfrom r Hr) as [Hs|(g & Hg & _ & Hd)].
  - left. apply list_elem_of_fmap. by exists r.
  - right. apply flat_map_elem. by exists g.
Qed.

Lemma zone_wins c z :
  best = Some c → c_source c = FromZone → z ∈ zones s → z_name z = c_suffix c → Dns.zone_for name device = Some (device_zone z).
Proof.
  intros Hb Hsrc Hz Hn. pose proof (best_candidate_spec (List.filter c_applies (candidates s name device_tags))) as Hbest.
  rewrite Hb in Hbest. destruct Hbest as [Hin Hmax]. destruct (applying c Hin) as [Hu Hc]. rewrite Hsrc in Hc.
  destruct Hc as (z' & Hz' & He & Hn'). assert (z' = z) as -> by (eapply nodup_key; [apply (wf_zone_names _ _ _ _ Hwf)|done|done|congruence]).
  unfold Dns.zone_for. rw device_zones device_routes. set (l := List.filter _ _).
  assert (device_zone z ∈ l) as Hl.
  { apply filter_elem. split; [|cbn [Dns.z_name device_zone]; rewrite Hn; exact Hu]. apply list_elem_of_fmap. exists z. split; [done|]. by apply filter_elem. }
  pose proof (max_by_length_spec Dns.z_name l) as Hm. destruct (Dns.max_by_length Dns.z_name l) as [x|]; [|by rewrite Hm in Hl; apply not_elem_of_nil in Hl].
  destruct Hm as [[(zx & -> & [Hzx Hex]%filter_elem)%list_elem_of_fmap Hux]%filter_elem Hm]. specialize (Hm _ Hl). cbn [Dns.z_name device_zone] in Hm, Hux.
  pose proof (Hmax _ (zone_applies zx Hzx Hex Hux)) as Hle. cbn [c_suffix] in Hle.
  assert (zx = z) as ->.
  { eapply nodup_key; [apply (wf_zone_names _ _ _ _ Hwf)|done|done|]. eapply (under_same name); [exact Hux|by rewrite Hn|]. rewrite Hn in Hm |- *. lia. }
  cbn [mbind option_bind]. assert (existsb (λ route, (length (Dns.z_name (device_zone z)) <? length route.1)%nat && Dns.in_suffix name route.1)
    (map (λ r, (suffix r, omap Dns.parse_resolver (resolvers r))) (routes s device_tags)) = false) as ->; [|done].
  apply existsb_false. intros x (r & -> & Hr)%list_elem_of_fmap. cbn [fst Dns.z_name device_zone].
  destruct (Dns.in_suffix name (suffix r)) eqn:Hs; [|apply andb_false_r]. destruct (route_applies r Hr Hs) as (c' & Hc' & Hc's & _).
  apply Hmax in Hc'. rewrite Hc's in Hc'. rewrite Hn andb_true_r. by apply Nat.ltb_ge.
Qed.

Lemma route_wins c r :
  best = Some c → c_source c ≠ FromZone → r ∈ routes s device_tags → suffix r = c_suffix c → private_name name = false →
  Dns.zone_for name device = None ∧ Dns.split_resolvers name device = Some (omap Dns.parse_resolver (resolvers r)).
Proof.
  intros Hb Hsrc Hr Hn Hpriv. pose proof (best_candidate_spec (List.filter c_applies (candidates s name device_tags))) as Hbest.
  rewrite Hb in Hbest. destruct Hbest as [Hin Hmax]. destruct (applying c Hin) as [Hu _]. destruct routes_ok as (Hnd & Hrok & _). split.
  - unfold Dns.zone_for. rw device_zones device_routes. set (l := List.filter _ _). pose proof (max_by_length_spec Dns.z_name l) as Hm.
    destruct (Dns.max_by_length Dns.z_name l) as [x|]; [|done]. cbn [mbind option_bind].
    destruct Hm as [[(zx & -> & [Hzx Hex]%filter_elem)%list_elem_of_fmap Hux]%filter_elem _]. cbn [Dns.z_name device_zone] in Hux |- *.
    pose proof (Hmax _ (zone_applies zx Hzx Hex Hux)) as Hle. cbn [c_suffix] in Hle.
    assert (length (z_name zx) ≠ length (suffix r)) as Hneq.
    { intros Heq. apply (zone_not_route zx r Hzx Hr). eapply (under_same name); [exact Hux|by rewrite Hn|done]. }
    assert (existsb (λ route, (length (z_name zx) <? length route.1)%nat && Dns.in_suffix name route.1)
      (map (λ r, (suffix r, omap Dns.parse_resolver (resolvers r))) (routes s device_tags)) = true) as ->; [|done].
    apply existsb_elem. exists (suffix r, omap Dns.parse_resolver (resolvers r)). split; [apply list_elem_of_fmap; by exists r|].
    cbn [fst]. change (Dns.in_suffix name (suffix r)) with (under name (suffix r)). rewrite Hn Hu andb_true_r. apply Nat.ltb_lt. rewrite Hn in Hneq. lia.
  - unfold Dns.split_resolvers. unfold private_name in Hpriv. rw Hpriv device_routes. set (l := List.filter _ _).
    assert ((suffix r, omap Dns.parse_resolver (resolvers r)) ∈ l) as Hl.
    { apply filter_elem. split; [apply list_elem_of_fmap; by exists r|]. cbn [fst]. rewrite Hn. exact Hu. }
    pose proof (max_by_length_spec fst l) as Hm. destruct (Dns.max_by_length fst l) as [x|]; [|by rewrite Hm in Hl; apply not_elem_of_nil in Hl].
    destruct Hm as [[(rx & -> & Hrx)%list_elem_of_fmap Hux]%filter_elem Hm]. specialize (Hm _ Hl). cbn [fst] in Hm, Hux.
    destruct (route_applies rx Hrx Hux) as (c' & Hc' & Hc's & _). apply Hmax in Hc'. rewrite Hc's in Hc'.
    assert (rx = r) as ->.
    { eapply nodup_key; [exact Hnd|done|done|]. eapply (under_same name); [exact Hux|by rewrite Hn|]. rewrite Hn in Hm |- *. lia. }
    cbn [mbind option_bind snd]. destruct (Hrok r Hr) as (_ & _ & Hne & Ht). by rw device_resolvers.
Qed.

Lemma nothing_wins :
  best = None → Dns.zone_for name device = None ∧ Dns.split_resolvers name device = None.
Proof.
  intros Hb. pose proof (best_candidate_spec (List.filter c_applies (candidates s name device_tags))) as Hbest. rewrite Hb in Hbest. split.
  - unfold Dns.zone_for. rw device_zones. set (l := List.filter _ _). pose proof (max_by_length_spec Dns.z_name l) as Hm.
    destruct (Dns.max_by_length Dns.z_name l) as [x|]; [|done].
    destruct Hm as [[(zx & -> & [Hzx Hex]%filter_elem)%list_elem_of_fmap Hux]%filter_elem _].
    pose proof (zone_applies zx Hzx Hex Hux) as Hin. rewrite Hbest in Hin. by apply not_elem_of_nil in Hin.
  - unfold Dns.split_resolvers. case_match; [done|]. rw device_routes. set (l := List.filter _ _). pose proof (max_by_length_spec fst l) as Hm.
    destruct (Dns.max_by_length fst l) as [x|]; [|done]. destruct Hm as [[(rx & -> & Hrx)%list_elem_of_fmap Hux]%filter_elem _].
    destruct (route_applies rx Hrx Hux) as (c' & Hc' & _). rewrite Hbest in Hc'. by apply not_elem_of_nil in Hc'.
Qed.

End device.

(** ** The explanation *)

(** No address record of a zone lies below a route of the device that is more
    specific than the zone. *)
Definition undivided (s : OrgDnsSettings) (device_tags : list str) : Prop :=
  ∀ z r route, z ∈ zones s → z_enabled z = true → r ∈ z_records z → flat_record r ≠ None → route ∈ routes s device_tags →
    under (zr_name r) (suffix route) = true → (length (suffix route) < length (z_name z))%nat.

(** A reply from a zone: the answers that fit, and whether some did not. *)
Definition zone_reply (i1 i2 f1 f2 : Z) (name : str) (ty : Z) (kept rest : list Dns.Answer) : bytes :=
  [i1; i2] ++ be_bytes 2 (Z.lor (Z.lor 0x8400 (match rest with [] => 0 | _ => 0x0200 end)) (Z.land (from_be [f1; f2]) 0x0100))
  ++ be_bytes 2 1 ++ be_bytes 2 (Z.of_nat (length kept)) ++ replicate 4 0 ++ Dns.encode_name name ++ [0; ty; 0; 1]
  ++ flat_map (Dns.encode_answer name) kept.

(** The answer that was left out would not have fitted. *)
Definition full (q : bytes) (name : str) (kept rest : list Dns.Answer) : Prop :=
  match rest with
  | [] => True
  | a :: _ => (Dns.MAX_RESPONSE_LEN < length q + length (flat_map (Dns.encode_answer name) kept) + length (Dns.encode_answer name a))%nat
  end.

(** What a query of a given type finds among records of its name: the alias, and what
    it leads to, where there is one; else every record of the type. *)
Definition finds (name : str) (ty : Z) (entries : list Dns.ZoneRecord) (answers : list Dns.Answer) : Prop :=
  (∃ target ttl more, Dns.mkZoneRecord (Dns.Cname target) ttl ∈ entries ∧
     answers = Dns.mkAnswer name ttl 5 (Dns.encode_name target) :: more) ∨
  ((∀ target ttl, Dns.mkZoneRecord (Dns.Cname target) ttl ∉ entries) ∧ answers = flat_map (Dns.zone_answer name ty) entries).

(** A [.blaktail] name of another tailnet. *)
Definition foreign (dom name : str) : Prop := 46 ∈ name ∧ name ≠ dom ∧ ends_with (lit "." ++ dom) name = false.
#[export] Instance foreign_decision dom name : Decision (foreign dom name).
Proof. unfold foreign. apply _. Defined.

(** What the name server of the device does with a query for the explained name, by
    the answer the console announces. *)
Definition device_agrees (s : OrgDnsSettings) (st : Dns.NodeState) (dom : str) (e : DnsExplanation) (i1 i2 f1 f2 ty : Z) : Prop :=
  let device := Dns.records_from_state st dom in
  let q := question i1 i2 f1 f2 (e_name e) ty in
  match e_answer e with
  | MagicDns =>
      ∃ found, found ≠ Some [] ∧
        (46 ∉ e_name e → found = Dns.addresses device !! e_name e) ∧
        (ends_with (lit "." ++ dom) (e_name e) = true → ∀ a, a ∈ default [] found ↔ stands_for st dom (e_name e) a) ∧
        (46 ∈ e_name e → ends_with (lit "." ++ dom) (e_name e) = false → found = None) ∧
        Dns.dns_action q device =
          Ok (Dns.Reply (plain_reply i1 i2 f1 f2 (e_name e) ty
                           (match found with Some _ => 0 | None => if decide (foreign dom (e_name e)) then 5 else 3 end)
                           (found ≫= λ l, Dns.address_for_query l ty)))
  | Unmanaged | NotHandled => Dns.dns_action q device = Ok (Dns.Reply (plain_reply i1 i2 f1 f2 (e_name e) ty 5 None))
  | LegacyRecord =>
      ∃ l, l ≠ [] ∧ (∀ a, a ∈ l ↔ ∃ r, r ∈ e_records e ∧ parse_ip (zr_value r) = Some a) ∧
        Dns.dns_action q device = Ok (Dns.Reply (plain_reply i1 i2 f1 f2 (e_name e) ty 0 (Dns.address_for_query l ty)))
  | ForwardTo => Dns.dns_action q device = Ok (Dns.Forward (omap Dns.parse_resolver (e_resolvers e)))
  | ZoneAnswer =>
      ∃ zone entries kept rest, zone ∈ zones s ∧ e_zone e = Some (z_name zone) ∧
        (∀ r, r ∈ e_records e ↔ r ∈ z_records zone ∧ zr_name r = e_name e) ∧
        (∀ x, x ∈ entries ↔ ∃ r, r ∈ e_records e ∧ device_entry r = Some x) ∧
        finds (e_name e) ty entries (kept ++ rest) ∧ full q (e_name e) kept rest ∧
        Dns.dns_action q device = Ok (Dns.Reply (zone_reply i1 i2 f1 f2 (e_name e) ty kept rest))
  | ZoneNxdomain =>
      ∃ zone, zone ∈ zones s ∧ e_zone e = Some (z_name zone) ∧ (∀ r, r ∈ z_records zone → zr_name r ≠ e_name e) ∧
        Dns.dns_action q device =
          Ok (Dns.Reply (plain_reply i1 i2 f1 f2 (e_name e) ty
                           (if existsb (λ r, under (zr_name r) (e_name e)) (z_records zone) then 0 else 3) None))
  end.

(** ** Replies of a zone *)

(** A published zone holds no [.blaktail] name. *)
Lemma zone_not_private name z : private_name z = false → under name z = true → private_name name = false.
Proof.
  assert (46 ∉ lit "blaktail") as Hdot by (apply (bool_decide_unpack _); vm_compute; exact I).
  intros Hz Hu. unfold under in Hu. apply orb_true_iff in Hu as [->%bool_decide_eq_true|[p ->]%ends_with_true]; [done|].
  unfold private_name in *. apply orb_false_iff in Hz as [Hz1 Hz2]. apply not_true_iff_false. intros Hp.
  apply orb_true_iff in Hp as [Hp%seq_b_eq|[q Hq]%ends_with_true]; [apply Hdot; rewrite -Hp; set_solver|].
  change (lit "." ++ z) with (46 :: z) in Hq. change (lit ".blaktail") with (46 :: lit "blaktail") in Hq.
  apply app_eq_inv in Hq as [(k & -> & Hk)|(k & -> & Hk)]; (destruct k as [|c k]; [injection Hk as Hk; apply not_true_iff_false in Hz1; apply Hz1; apply seq_b_eq; congruence|]);
    injection Hk as _ Hk.
  - apply Hdot. rewrite Hk. set_solver.
  - assert (ends_with (lit ".blaktail") z = true); [|congruence]. apply ends_with_true. exists k. done.
Qed.

Lemma question_head i1 i2 f1 f2 name ty flags count :
  let q := question i1 i2 f1 f2 name ty in
  Dns.response_head q (length q) flags count =
    Ok ([i1; i2] ++ be_bytes 2 flags ++ be_bytes 2 1 ++ be_bytes 2 count ++ replicate 4 0 ++ Dns.encode_name name ++ [0; ty; 0; 1]).
Proof.
  intros q. unfold Dns.response_head. assert (length q = 12 + length (Dns.encode_name name) + 4)%nat as Hl.
  { unfold q, question. rewrite !length_app. simpl. lia. }
  rw dns_prefix_of_ok; [|lia]. cbn [result_bind]. rw dns_index_range_ok; [|unfold Dns.DNS_HEADER_LEN; lia].
  assert (slice Dns.DNS_HEADER_LEN (length q) q = Dns.encode_name name ++ [0; ty; 0; 1]) as ->; [|done].
  unfold q at 2, question. apply slice_last; [done|]. unfold q, question. by rewrite !length_app.
Qed.

Lemma pack_kept question_end name answers body count :
  ∃ kept rest, answers = kept ++ rest ∧
    Dns.pack_answers question_end name body count answers =
      (body ++ flat_map (Dns.encode_answer name) kept, count + Z.of_nat (length kept), match rest with [] => false | _ => true end) ∧
    match rest with
    | [] => True
    | a :: _ => (Dns.MAX_RESPONSE_LEN < question_end + length (body ++ flat_map (Dns.encode_answer name) kept) + length (Dns.encode_answer name a))%nat
    end.
Proof.
  revert body count. induction answers as [|a answers IH]; intros body count; cbn [Dns.pack_answers].
  - exists [], []. cbn [app flat_map length]. rewrite app_nil_r Z.add_0_r. done.
  - destruct (Nat.ltb_spec Dns.MAX_RESPONSE_LEN (question_end + length body + length (Dns.encode_answer name a))) as [Hlt|Hge].
    + exists [], (a :: answers). cbn [app flat_map length]. rewrite app_nil_r Z.add_0_r. done.
    + destruct (IH (body ++ Dns.encode_answer name a) (count + 1)) as (kept & rest & -> & Hpack & Hfull). exists (a :: kept), rest.
      cbn [app flat_map length]. rewrite app_assoc. split_and!; [done| |done]. rewrite Hpack. do 2 f_equal. lia.
Qed.

Lemma collect_more fuel name ty records acc : ∃ more, Dns.collect_answers fuel name ty records acc = acc ++ more.
Proof.
  revert name acc. induction fuel as [|fuel IH]; intros name acc; cbn [Dns.collect_answers]; [exists []; by rewrite app_nil_r|].
  destruct (if Dns.magic_name name _ then None else _) as [zone|]; [|by eexists].
  destruct (Dns.z_records zone !! name) as [entries|]; [|exists []; by rewrite app_nil_r].
  destruct (Dns.cname_of entries) as [[target ttl]|]; [|by eexists]. cbv zeta.
  destruct (_ && _); [|by eexists]. destruct (IH target (acc ++ [Dns.mkAnswer name ttl 5 (Dns.encode_name target)])) as [more ->].
  exists (Dns.mkAnswer name ttl 5 (Dns.encode_name target) :: more). by rewrite -app_assoc.
Qed.

(** What the zone that holds a name collects for it. *)
Lemma collect_finds name ty device zone entries :
  Dns.magic_name name (Dns.domain device) = false → Dns.zone_for name device = Some zone → Dns.z_records zone !! name = Some entries →
  finds name ty entries (Dns.collect_answers (S Dns.MAX_CNAME_DEPTH) name ty device []).
Proof.
  intros Hm Hz He. cbn [Dns.collect_answers]. rw Hm Hz He. unfold finds.
  assert (∀ target ttl, Dns.cname_of entries = Some (target, ttl) → Dns.mkZoneRecord (Dns.Cname target) ttl ∈ entries) as Hin.
  { intros target ttl. unfold Dns.cname_of. intros Hh%head_Some_elem_of. apply list_elem_of_omap in Hh as ([d t] & Hx & Hd).
    destruct d; cbn [Dns.data] in Hd; simplify_eq. done. }
  destruct (Dns.cname_of entries) as [[target ttl]|] eqn:Hc.
  - left. specialize (Hin target ttl eq_refl). cbv zeta. destruct (_ && _); [|by exists target, ttl, []].
    destruct (collect_more Dns.MAX_CNAME_DEPTH target ty device ([] ++ [Dns.mkAnswer name ttl 5 (Dns.encode_name target)])) as [more ->]. by exists target, ttl, more.
  - right. split; [|done]. intros target ttl Hx. unfold Dns.cname_of in Hc. apply head_None in Hc.
    assert ((target, ttl) ∈ omap (λ record, match Dns.data record with Dns.Cname target => Some (target, Dns.ttl record) | _ => None end) entries) as Hy
      by (apply list_elem_of_omap; by eexists).
    rewrite Hc in Hy. by apply not_elem_of_nil in Hy.
Qed.

Section zone_replies.
Context (i1 i2 f1 f2 : Z) (name : str) (ty : Z) (device : Dns.Records) (zone : Dns.Zone).
Context (Hmagic : Dns.magic_name name (Dns.domain device) = false) (Hzone : Dns.zone_for name device = Some zone).
#[local] Abbreviation q := (question i1 i2 f1 f2 name ty).
#[local] Abbreviation below := (existsb (λ e : str * list Dns.ZoneRecord, Dns.in_suffix e.1 name) (map_to_list (Dns.z_records zone))).

Lemma empty_zone_reply :
  Dns.z_records zone !! name = None →
  Dns.zone_response q (length q) name ty 1 zone device = Ok (plain_reply i1 i2 f1 f2 name ty (if below then 0 else 3) None).
Proof using Hmagic Hzone.
  intros Hnone. unfold Dns.zone_response. assert (Dns.idx16 q 2 = Ok (from_be [f1; f2])) as -> by done. cbn [result_bind].
  assert ((if below && (1 =? 1) then Dns.collect_answers (S Dns.MAX_CNAME_DEPTH) name ty device [] else []) = []) as ->.
  { destruct (_ && _); [|done]. cbn [Dns.collect_answers]. by rw Hmagic Hzone Hnone. }
  cbn [Dns.pack_answers]. rw question_head. cbn [result_bind]. unfold plain_reply. rw bool_decide_false; [|by intros []].
  change (Z.lor (Z.lor (Z.lor 0x8000 0x0400) 0) (Z.land (from_be [f1; f2]) 0x0100)) with (Z.lor 0x8400 (Z.land (from_be [f1; f2]) 0x0100)).
  by rewrite -!app_assoc.
Qed.

Lemma full_zone_reply entries :
  Dns.z_records zone !! name = Some entries →
  ∃ kept rest, finds name ty entries (kept ++ rest) ∧ full q name kept rest ∧
    Dns.zone_response q (length q) name ty 1 zone device = Ok (zone_reply i1 i2 f1 f2 name ty kept rest).
Proof using Hmagic Hzone.
  intros He. unfold Dns.zone_response. assert (Dns.idx16 q 2 = Ok (from_be [f1; f2])) as -> by done. cbn [result_bind].
  assert (below = true) as ->.
  { apply existsb_elem. exists (name, entries). split; [by apply elem_of_map_to_list|]. unfold Dns.in_suffix. cbn [fst]. by rw bool_decide_true. }
  change (if true && (1 =? 1) then ?x else ?y) with x.
  set (answers := Dns.collect_answers _ _ _ _ _). assert (finds name ty entries answers) as Hf by by apply (collect_finds name ty device zone).
  destruct (pack_kept (length q) name answers [] 0) as (kept & rest & Ha & -> & Hfull). exists kept, rest. rewrite -Ha. split_and!; [done|done|].
  rw question_head. cbn [result_bind]. unfold zone_reply. rewrite Z.lor_0_r. destruct rest; by rewrite -!app_assoc.
Qed.

End zone_replies.

Lemma valid_domain_private dom : Dns.valid_domain dom = true → ∃ q, dom = q ++ lit ".blaktail".
Proof. unfold Dns.valid_domain. intros H. to_prop. by apply ends_with_true. Qed.

(** A dotted name outside [.blaktail] is no name of the tailnet. *)
Lemma not_magic dom name : Dns.valid_domain dom = true → 46 ∈ name → private_name name = false →
  Dns.magic_name name dom = false ∧ ends_with (lit "." ++ dom) name = false.
Proof.
  intros [q ->]%valid_domain_private Hd Hp. unfold private_name in Hp. to_prop.
  match goal with H : ends_with _ name = false |- _ => rename H into He end.
  assert (ends_with (lit "." ++ q ++ lit ".blaktail") name = false) as Hu.
  { destruct (ends_with (lit "." ++ _) name) eqn:Hx; [|done]. apply ends_with_true in Hx as [p ->]. exfalso.
    assert (ends_with (lit ".blaktail") (p ++ lit "." ++ q ++ lit ".blaktail") = true) as Hy; [|congruence].
    apply ends_with_true. exists (p ++ lit "." ++ q). by rewrite -!app_assoc. }
  split; [|done]. unfold Dns.magic_name. rw Hu. rewrite orb_false_r. apply orb_false_iff. split.
  - apply negb_false_iff. unfold contains_char. apply existsb_elem. exists 46. split; [done|]. apply Z.eqb_refl.
  - apply bool_decide_eq_false. intros ->. assert (ends_with (lit ".blaktail") (q ++ lit ".blaktail") = true) as Hy; [|congruence].
    apply ends_with_true. by exists q.
Qed.

Lemma device_domain st dom : Dns.domain (Dns.records_from_state st dom) = dom.
Proof. unfold Dns.records_from_state. destruct (Dns.org_dns st) as [x|]; [|done]. by destruct (Dns.managed x). Qed.

Lemma lower_idem t : to_ascii_lowercase (to_ascii_lowercase t) = to_ascii_lowercase t.
Proof.
  unfold to_ascii_lowercase. rewrite map_map. apply map_ext. intros c. unfold ascii_lower.
  destruct (is_ascii_uppercase c) eqn:Hc; [|by rw Hc]. unfold is_ascii_uppercase in *. to_prop.
  destruct (Z.leb_spec (c + 32) 90); [lia|]. by rewrite andb_false_r.
Qed.

Lemma bind_err {E A B} (r : result E A) (k : A → result E B) x :
  result_bind r k = Err x ↔ r = Err x ∨ ∃ a, r = Ok a ∧ k a = Err x.
Proof. destruct r; simpl; naive_solver. Qed.

(** The records shown for extra records have their values. *)
Lemma shown_values (l : list DnsRecord) a :
  (∃ x, x ∈ l ∧ parse_ip (r_value x) = Some a) ↔
  ∃ x, x ∈ map (λ r, mkZoneRecord (r_name r) (zone_type (r_type r)) (r_value r) 30) l ∧ parse_ip (zr_value x) = Some a.
Proof. setoid_rewrite list_elem_of_fmap. naive_solver. Qed.

Lemma find_present {A} (f : A → bool) l x : x ∈ l → f x = true → ∃ y, List.find f l = Some y ∧ y ∈ l ∧ f y = true.
Proof.
  intros Hx Hf. destruct (List.find f l) as [y|] eqn:He; [exists y; apply find_elem in He; by destruct He|].
  pose proof (find_none_elem f l x He Hx). congruence.
Qed.

Section explained.
Context (domain_to_ascii : str → option str) (domain_to_unicode : str → str) (is_alphabetic : str → bool).
Context {Hidna : IdnaLaws domain_to_ascii}.
#[local] Abbreviation wf := (wf domain_to_ascii domain_to_unicode is_alphabetic).
#[local] Abbreviation canonical := (canonical domain_to_ascii domain_to_unicode is_alphabetic).
#[local] Abbreviation explain := (explain domain_to_ascii domain_to_unicode is_alphabetic).

(** The name asked about: in lower case, and dotted and canonical unless it is short. *)
Lemma explained_name_ok raw short name :
  explained_name domain_to_ascii domain_to_unicode is_alphabetic raw = Ok (short, name) →
  to_ascii_lowercase name = name ∧ (short = true → contains_char 46 name = false) ∧ (short = false → canonical name ∧ 46 ∈ name).
Proof.
  unfold explained_name. set (t := trim_end_matches 46 (trim raw)). destruct (_ && _) eqn:Hs.
  { intros [= <- <-]. split_and!; [apply lower_idem| |done]. intros _. by to_prop. }
  intros (d & Hd & [= <- <-])%bind_ok. assert (canonical d) as Hc by by exists raw. split_and!; [by eapply canonical_lower|done|]. intros _. split; [done|].
  apply canonicalize_inv in Hd as Ha. fold t in Ha. eapply idna_dot; [exact Ha|]. apply andb_false_iff in Hs as [Hs|Hs]; apply negb_false_iff in Hs.
  - exfalso. apply Nat.eqb_eq in Hs. unfold to_ascii_lowercase in Hs. rewrite length_map in Hs. unfold canonicalize_domain in Hd. fold t in Hd. rw Hs in Hd. done.
  - unfold contains_char in Hs. apply existsb_elem in Hs as (c & Hc' & <-%Z.eqb_eq). unfold to_ascii_lowercase in Hc'.
    apply list_elem_of_fmap in Hc' as (x & Hx & Hin). unfold ascii_lower in Hx.
    destruct (is_ascii_uppercase x) eqn:Hup; [|by rewrite Hx]. unfold is_ascii_uppercase in Hup. to_prop. lia.
Qed.

Lemma explained_name_expects raw x :
  explained_name domain_to_ascii domain_to_unicode is_alphabetic raw = Err x → x ≠ ExpectFailed.
Proof.
  unfold explained_name. destruct (_ && _); [done|]. destruct (canonicalize_domain _ _ _ raw) as [d|y] eqn:Hc; cbn [result_bind]; [done|].
  intros [= ->] ->. assert (∀ b y, @reject_if DnsError b y = Err ExpectFailed → y = ExpectFailed) as Hrej by (intros [] ? [=]; done).
  assert (∀ l, try_each check_label l ≠ Err ExpectFailed) as Hlab.
  { induction l as [|t l IH]; cbn [try_each]; [done|]. intros [H|(? & _ & H)]%bind_err; [|done]. unfold check_label in H.
    apply bind_err in H as [H|(? & _ & H)]; by apply Hrej in H. }
  unfold canonicalize_domain in Hc. repeat (apply bind_err in Hc as [Hc|(? & _ & Hc)]; [first [by apply Hrej in Hc|by apply Hlab in Hc|by destruct (domain_to_ascii _)]|]).
  done.
Qed.

Context (s : OrgDnsSettings) (Hwf : wf s) (Hplain : plain s) (device_tags : list str) (hash : str → str) (org_id : str) (revision : Z).
#[local] Abbreviation sent := (sent s device_tags hash org_id revision).

Lemma record_extra r name a :
  canonical (r_name r) → (∃ b, wf_ip b ∧ r_value r = show_ip b ∧ is_ipv4 b = bool_decide (r_type r = RecA)) →
  name ≠ [] → private_name name = false → extra_of (record_of r) name a ↔ r_name r = name ∧ parse_ip (r_value r) = Some a.
Proof.
  intros Hc (b & Hw & Hv & Hb) Hne Hp. unfold extra_of, record_of. cbn [Dns.rec_name Dns.rec_value Dns.rec_type].
  rw (canonical_normal domain_to_ascii domain_to_unicode is_alphabetic (r_name r) Hc). unfold private_name in Hp. to_prop.
  rewrite Hv parse_show_ip //. destruct (r_type r), b; simpl in Hb; try done; naive_solver.
Qed.

(** The extra records that reach the device: the document's and the zones' addresses. *)
Lemma sent_extra name a : name ≠ [] → private_name name = false →
  (∃ r, r ∈ Dns.org_records sent ∧ extra_of r name a) ↔
  (∃ r, r ∈ records s ∧ r_name r = name ∧ parse_ip (r_value r) = Some a) ∨
  (∃ z r, z ∈ zones s ∧ z_enabled z = true ∧ r ∈ z_records z ∧ flat_record r ≠ None ∧ zr_name r = name ∧ parse_ip (zr_value r) = Some a).
Proof.
  intros Hne Hp. unfold OrgDnsProps.sent, agent_view. cbn [snapshot_of Dns.org_records v_records].
  assert (∀ z r f, z ∈ zones s → r ∈ z_records z → flat_record r = Some f →
    (extra_of (record_of f) name a ↔ zr_name r = name ∧ parse_ip (zr_value r) = Some a)) as Hflat.
  { intros z r f Hz Hr Hf. destruct (wf_zones _ _ _ _ Hwf z Hz) as (_ & _ & _ & Hraw). destruct (Hraw r Hr) as [raw Hraw'].
    edestruct (zone_record_ok domain_to_ascii domain_to_unicode is_alphabetic (z_name z)) as (Hn & _ & _ & Hv);
      [by apply (wf_zones _ _ _ _ Hwf z Hz)|eapply plain_zone; [done..|by left]|exact Hraw'|].
    unfold flat_record in Hf. unfold value_ok in Hv. destruct (zr_type r); try done; injection Hf as <-; destruct Hv as (x & Hw & Hx);
      (rewrite record_extra; [done|done|by eexists; split_and!; [exact Hw|exact Hx|done]|done|done]). }
  setoid_rewrite list_elem_of_fmap. setoid_rewrite elem_of_app. split.
  - intros (x & (r & -> & [Hr|Hr]) & Hx).
    + left. exists r. split; [done|]. apply record_extra in Hx; [done|by apply (wf_records _ _ _ _ Hwf r Hr)|by apply (wf_records _ _ _ _ Hwf r Hr)|done|done].
    + right. apply flat_map_elem in Hr as (z & [Hz He]%filter_elem & (zr & Hzr & Hf)%list_elem_of_omap). exists z, zr.
      apply (Hflat z zr r Hz Hzr Hf) in Hx as [Hn Ha]. split_and!; try done. by rewrite Hf.
  - intros [(r & Hr & Hn & Ha)|(z & zr & Hz & He & Hzr & Hf & Hn & Ha)].
    + exists (record_of r). split; [exists r; split; [done|by left]|]. apply record_extra; [by apply (wf_records _ _ _ _ Hwf r Hr)|by apply (wf_records _ _ _ _ Hwf r Hr)|done..].
    + destruct (flat_record zr) as [f|] eqn:Hff; [|done]. exists (record_of f). split; [|by apply (Hflat z zr f Hz Hzr Hff)].
      exists f. split; [done|]. right. apply flat_map_elem. exists z. split; [by apply filter_elem|]. apply list_elem_of_omap. by exists zr.
Qed.

Context (st : Dns.NodeState) (dom : str) (Hst : Dns.org_dns st = Some sent) (Hdom : Dns.valid_domain dom = true).
#[local] Abbreviation device := (Dns.records_from_state st dom).
Context (i1 i2 f1 f2 ty : Z) (Hflags : standard f1 f2).

(** A query for a dotted name outside [.blaktail]. *)
Lemma outside_action name :
  Dns.labels_are_safe name = true → (length name ≤ 253)%nat → to_ascii_lowercase name = name → 46 ∈ name → private_name name = false →
  let q := question i1 i2 f1 f2 name ty in
  let found := Dns.addresses device !! name in
  Dns.dns_action q device =
    match Dns.zone_for name device, found with
    | Some zone, _ => Dns.reply (Dns.zone_response q (length q) name ty 1 zone device)
    | None, Some l => Ok (Dns.Reply (plain_reply i1 i2 f1 f2 name ty 0 (Dns.address_for_query l ty)))
    | None, None => match Dns.split_resolvers name device with
                    | Some rs => Ok (Dns.Forward rs)
                    | None => Ok (Dns.Reply (plain_reply i1 i2 f1 f2 name ty 5 None))
                    end
    end.
Proof.
  intros Hs Hl Hlow Hd Hp q found. destruct (not_magic dom name Hdom Hd Hp) as [Hm _]. unfold q. rw question_reads //.
  rw device_domain Hm. fold found. cbn [negb andb]. destruct (Dns.zone_for name device) as [z|].
  - rw (bool_decide_false (Some z = None)) //.
  - destruct found as [l|]; [done|]. by destruct (Dns.split_resolvers name device).
Qed.

(** The addresses a device has for a name outside its domain. *)
Lemma device_addresses name :
  managed s = true → 46 ∈ name → private_name name = false →
  (∀ a, a ∈ default [] (Dns.addresses device !! name) ↔
     (∃ r, r ∈ records s ∧ r_name r = name ∧ parse_ip (r_value r) = Some a) ∨
     (∃ z r, z ∈ zones s ∧ z_enabled z = true ∧ r ∈ z_records z ∧ flat_record r ≠ None ∧ zr_name r = name ∧ parse_ip (zr_value r) = Some a)) ∧
  (Dns.addresses device !! name = None ↔ ∀ a, a ∉ default [] (Dns.addresses device !! name)).
Proof.
  intros Hm Hd Hp. destruct (not_magic dom name Hdom Hd Hp) as [_ Hu]. assert (name ≠ []) as Hne by (intros ->; set_solver).
  destruct (outside_addresses st dom name sent Hst Hd Hu) as [_ Hout]. destruct (Hout Hm) as [Hel Hnone]. split.
  - intros a. by rewrite Hel sent_extra.
  - rewrite Hnone. setoid_rewrite Hel. naive_solver.
Qed.

Lemma no_addresses name :
  managed s = true → 46 ∈ name → private_name name = false → (∀ r, r ∈ records s → r_name r ≠ name) →
  (∀ z r, z ∈ zones s → z_enabled z = true → r ∈ z_records z → flat_record r ≠ None → zr_name r ≠ name) →
  Dns.addresses device !! name = None.
Proof.
  intros Hm Hd Hp Hr Hz. destruct (device_addresses name Hm Hd Hp) as [Hel ->]. intros a Ha. apply Hel in Ha.
  destruct Ha as [(r & Hin & Hn & _)|(z & r & Hin & He & Hzr & Hf & Hn & _)]; [by eapply Hr|by eapply Hz].
Qed.

(** Address records of a zone lie below the zone. *)
Lemma zone_record_under z r : z ∈ zones s → r ∈ z_records z → under (zr_name r) (z_name z) = true.
Proof. intros Hz Hr. eapply (zone_record_plain domain_to_ascii domain_to_unicode is_alphabetic s); done. Qed.

(** ** The console's explanation is what the device does *)

Lemma legacy_agrees name r rs :
  managed s = true → Dns.labels_are_safe name = true → (length name ≤ 253)%nat → to_ascii_lowercase name = name → 46 ∈ name → private_name name = false →
  List.filter (λ r, bool_decide (r_name r = name)) (records s) = r :: rs →
  ∃ l, l ≠ [] ∧ (∀ a, a ∈ l ↔ ∃ x, x ∈ r :: rs ∧ parse_ip (r_value x) = Some a) ∧
    Dns.dns_action (question i1 i2 f1 f2 name ty) device = Ok (Dns.Reply (plain_reply i1 i2 f1 f2 name ty 0 (Dns.address_for_query l ty))).
Proof.
  intros Hm Hs Hl Hlow Hd Hp Hf.
  assert (∀ x, x ∈ r :: rs ↔ x ∈ records s ∧ r_name x = name) as Hrs by (intros x; by rewrite -Hf filter_elem bool_decide_eq_true).
  assert (∀ z, z ∈ zones s → under name (z_name z) = false) as Hno.
  { intros z Hz. destruct (proj1 (Hrs r)) as [Hr <-]; [by left|]. by apply (wf_zones _ _ _ _ Hwf z Hz). }
  assert (Dns.zone_for name device = None) as Hzf.
  { unfold Dns.zone_for. rewrite (device_zones domain_to_ascii domain_to_unicode is_alphabetic s Hwf Hplain device_tags hash org_id revision st dom Hst Hm).
    set (l := List.filter _ _). pose proof (max_by_length_spec Dns.z_name l) as Hx. destruct (Dns.max_by_length Dns.z_name l) as [x|]; [|done].
    destruct Hx as [[(zx & -> & [Hzx _]%filter_elem)%list_elem_of_fmap Hux]%filter_elem _]. apply Hno in Hzx. change (under name (z_name zx) = true) in Hux. congruence. }
  destruct (device_addresses name Hm Hd Hp) as [Hel Hnone].
  assert (∀ a, a ∈ default [] (Dns.addresses device !! name) ↔ ∃ x, x ∈ r :: rs ∧ parse_ip (r_value x) = Some a) as Hel'.
  { intros a. rewrite Hel. setoid_rewrite Hrs. split; [|intros (x & [Hx Hn] & Ha); left; by exists x].
    intros [(x & Hx & Hn & Ha)|(z & x & Hz & _ & Hx & _ & Hn & _)]; [by exists x|]. pose proof (zone_record_under z x Hz Hx) as Hu.
    rewrite Hn Hno // in Hu. }
  rw outside_action //. rw Hzf. destruct (wf_records _ _ _ _ Hwf r) as (_ & b & Hw & Hv & _); [by apply Hrs; left|].
  assert (b ∈ default [] (Dns.addresses device !! name)) as Hb.
  { apply Hel'. exists r. split; [by left|]. rewrite Hv. by apply parse_show_ip. }
  destruct (Dns.addresses device !! name) as [l|]; [|by apply not_elem_of_nil in Hb]. exists l. split_and!; [|exact Hel'|done].
  by intros ->; apply not_elem_of_nil in Hb.
Qed.

Lemma unmanaged_agrees name :
  managed s = false → Dns.labels_are_safe name = true → (length name ≤ 253)%nat → to_ascii_lowercase name = name → 46 ∈ name → private_name name = false →
  Dns.dns_action (question i1 i2 f1 f2 name ty) device = Ok (Dns.Reply (plain_reply i1 i2 f1 f2 name ty 5 None)).
Proof.
  intros Hm Hs Hl Hlow Hd Hp. destruct (not_magic dom name Hdom Hd Hp) as [_ Hu].
  destruct (outside_addresses st dom name sent Hst Hd Hu) as [Hnone _]. specialize (Hnone Hm). rw outside_action //. rw Hnone.
  assert (Dns.zones device = [] ∧ Dns.split_routes device = []) as [Hz Hr].
  { unfold Dns.records_from_state. rw Hst. change (Dns.managed sent) with (managed s). by rw Hm. }
  assert (Dns.zone_for name device = None) as ->; [unfold Dns.zone_for; by rw Hz|].
  assert (Dns.split_resolvers name device = None) as ->; [|done]. unfold Dns.split_resolvers. case_match; [done|]. by rw Hr.
Qed.

(** Names of the tailnet are answered from the device's own table; a [.blaktail] name
    of another one is refused. *)
Lemma private_agrees name :
  Dns.labels_are_safe name = true → (length name ≤ 253)%nat → to_ascii_lowercase name = name → contains_char 46 name = false ∨ private_name name = true →
  let found := Dns.addresses device !! name in
  found ≠ Some [] ∧
  (ends_with (lit "." ++ dom) name = true → ∀ a, a ∈ default [] found ↔ stands_for st dom name a) ∧
  (46 ∈ name → ends_with (lit "." ++ dom) name = false → found = None) ∧
  Dns.dns_action (question i1 i2 f1 f2 name ty) device =
    Ok (Dns.Reply (plain_reply i1 i2 f1 f2 name ty (match found with Some _ => 0 | None => if decide (foreign dom name) then 5 else 3 end)
                     (found ≫= λ l, Dns.address_for_query l ty))).
Proof.
  intros Hs Hl Hlow Hp found.
  assert (46 ∈ name ↔ contains_char 46 name = true) as Hdot.
  { unfold contains_char. rw existsb_elem. setoid_rewrite Z.eqb_eq. naive_solver. }
  assert (Dns.magic_name name dom = negb (bool_decide (foreign dom name))) as Hmagic.
  { unfold Dns.magic_name, foreign. apply eq_bool_prop_intro. rw !Is_true_true orb_true_iff orb_true_iff negb_true_iff bool_decide_eq_true negb_true_iff bool_decide_eq_false.
    rw Hdot. destruct (contains_char 46 name), (ends_with (lit "." ++ dom) name), (decide (name = dom)); naive_solver. }
  split_and!.
  - intros Hnil. by apply (records_no_empty st dom name []).
  - intros Hu a. by apply records_exact.
  - intros Hd Hu. destruct Hp as [Hp|Hp]; [apply Hdot in Hd; congruence|].
    destruct (outside_addresses st dom name sent Hst Hd Hu) as [Hun Hman]. destruct (managed s) eqn:Hm; [|by apply Hun].
    apply (proj2 (Hman Hm)). intros r a _ (_ & _ & Hno & _). unfold private_name in Hp. rewrite Hno orb_false_r in Hp. apply seq_b_eq in Hp. subst name.
    by apply Hdot in Hd.
  - rw question_reads //. rw device_domain Hmagic. fold found. destruct (decide (foreign dom name)) as [Hf|Hf].
    2: { rw bool_decide_false //. }
    rw (bool_decide_true (foreign dom name)) //. cbn [negb andb]. destruct Hf as (Hd & Hne & Hu). destruct Hp as [Hp|Hp]; [apply Hdot in Hd; congruence|].
    assert (Dns.zone_for name device = None) as ->.
    { unfold Dns.zone_for. set (l := List.filter _ _). assert (l = []) as ->; [|done]. destruct l as [|x l'] eqn:Hx; [done|].
      assert (x ∈ l) as [Hin Hsuf]%filter_elem by (rewrite Hx; by left). exfalso. destruct (managed s) eqn:Hm.
      - rewrite (device_zones domain_to_ascii domain_to_unicode is_alphabetic s Hwf Hplain device_tags hash org_id revision st dom Hst Hm) in Hin.
        apply list_elem_of_fmap in Hin as (z & -> & [Hz _]%filter_elem). destruct (wf_zones _ _ _ _ Hwf z Hz) as ([_ Hpub] & _).
        rewrite (zone_not_private name (z_name z) Hpub Hsuf) in Hp. done.
      - unfold Dns.records_from_state in Hin. rewrite Hst in Hin. change (Dns.managed sent) with (managed s) in Hin. rewrite Hm in Hin. by apply not_elem_of_nil in Hin. }
    assert (Dns.split_resolvers name device = None) as -> by (unfold Dns.split_resolvers; unfold private_name in Hp; by rw Hp).
    by rewrite if_same.
Qed.

Context (Hundivided : undivided s device_tags).
#[local] Abbreviation best name := (best_candidate (List.filter c_applies (candidates s name device_tags))).

(** The name lies in no zone record when a route wins or nothing does. *)
Lemma forward_no_addresses name :
  managed s = true → 46 ∈ name → private_name name = false → List.filter (λ r, bool_decide (r_name r = name)) (records s) = [] →
  match best name with Some c => c_source c ≠ FromZone ∧ ∃ r, r ∈ routes s device_tags ∧ suffix r = c_suffix c | None => True end →
  Dns.addresses device !! name = None.
Proof.
  intros Hm Hd Hp Hf Hbest. apply no_addresses; [done..| |].
  - intros r Hr Hn. assert (r ∈ List.filter (λ r, bool_decide (r_name r = name)) (records s)) as Hin.
    { apply filter_elem. split; [done|]. by apply bool_decide_eq_true. }
    rewrite Hf in Hin. by apply not_elem_of_nil in Hin.
  - intros z r Hz He Hr Hflat <-. pose proof (zone_record_under z r Hz Hr) as Hu. pose proof (zone_applies s device_tags _ z Hz He Hu) as Happ.
    pose proof (best_candidate_spec (List.filter c_applies (candidates s (zr_name r) device_tags))) as Hmax.
    destruct (best (zr_name r)) as [c|]; [|by rewrite Hmax in Happ; apply not_elem_of_nil in Happ].
    destruct Hmax as [Hin Hmax]. destruct Hbest as (_ & route & Hroute & Hsuf). apply Hmax in Happ. cbn [c_suffix] in Happ.
    destruct (applying s device_tags _ c Hin) as [Huc _]. rewrite -Hsuf in Huc, Happ.
    pose proof (Hundivided z r route Hz He Hr Hflat Hroute Huc). lia.
Qed.

Lemma zone_agrees name c z :
  managed s = true → Dns.labels_are_safe name = true → (length name ≤ 253)%nat → to_ascii_lowercase name = name → 46 ∈ name → private_name name = false →
  best name = Some c → c_source c = FromZone → z ∈ zones s → z_name z = c_suffix c →
  let q := question i1 i2 f1 f2 name ty in
  (∀ x, x ∈ default [] (zone_entries z !! name) ↔ ∃ r, r ∈ List.filter (λ r, bool_decide (zr_name r = name)) (z_records z) ∧ device_entry r = Some x) ∧
  (zone_entries z !! name = None ↔ List.filter (λ r, bool_decide (zr_name r = name)) (z_records z) = []) ∧
  existsb (λ e : str * list Dns.ZoneRecord, Dns.in_suffix e.1 name) (map_to_list (zone_entries z)) = existsb (λ r, under (zr_name r) name) (z_records z) ∧
  Dns.magic_name name (Dns.domain device) = false ∧ Dns.zone_for name device = Some (device_zone z) ∧
  Dns.dns_action q device = Dns.reply (Dns.zone_response q (length q) name ty 1 (device_zone z) device).
Proof.
  intros Hm Hs Hl Hlow Hd Hp Hb Hsrc Hz Hn. destruct (zone_lookup domain_to_ascii domain_to_unicode is_alphabetic s Hwf Hplain z name Hz) as [Hel Hnone].
  assert (∀ r, r ∈ List.filter (λ r, bool_decide (zr_name r = name)) (z_records z) ↔ r ∈ z_records z ∧ zr_name r = name) as Hf
    by (intros r; by rewrite filter_elem bool_decide_eq_true). split_and!.
  - intros x. rewrite Hel. setoid_rewrite Hf. naive_solver.
  - rewrite Hnone. split.
    + intros Hno. destruct (List.filter _ (z_records z)) as [|r l]; [done|]. destruct (proj1 (Hf r)) as [Hr He]; [by left|]. by destruct (Hno r Hr).
    + intros He r Hr Hx. assert (r ∈ @nil ZoneRecord) as Hin by (rewrite -He; by apply Hf). by apply not_elem_of_nil in Hin.
  - apply eq_bool_prop_intro. rw !Is_true_true !existsb_elem. split.
    + intros ([k l] & Hk%elem_of_map_to_list & Hu). destruct (zone_lookup domain_to_ascii domain_to_unicode is_alphabetic s Hwf Hplain z k Hz) as [_ Hno].
      destruct (existsb (λ r, bool_decide (zr_name r = k)) (z_records z)) eqn:Hx.
      * apply existsb_elem in Hx as (r & Hr & <-%bool_decide_eq_true). by exists r.
      * rewrite existsb_false in Hx. rewrite (proj2 Hno) in Hk; [done|]. intros r Hr Hk'. specialize (Hx r Hr). by to_prop.
    + intros (r & Hr & Hu). destruct (zone_lookup domain_to_ascii domain_to_unicode is_alphabetic s Hwf Hplain z (zr_name r) Hz) as [_ Hno].
      destruct (zone_entries z !! zr_name r) as [l|] eqn:Hk; [|by destruct (proj1 Hno eq_refl r Hr)].
      exists (zr_name r, l). split; [by apply elem_of_map_to_list|done].
  - rw device_domain. by apply not_magic.
  - by apply (zone_wins domain_to_ascii domain_to_unicode is_alphabetic s Hwf Hplain device_tags hash org_id revision st dom Hst Hm name c z).
  - rw outside_action //. by rw (zone_wins domain_to_ascii domain_to_unicode is_alphabetic s Hwf Hplain device_tags hash org_id revision st dom Hst Hm name c z).
Qed.

Lemma route_agrees name c r :
  managed s = true → Dns.labels_are_safe name = true → (length name ≤ 253)%nat → to_ascii_lowercase name = name → 46 ∈ name → private_name name = false →
  List.filter (λ r, bool_decide (r_name r = name)) (records s) = [] →
  best name = Some c → c_source c ≠ FromZone → r ∈ routes s device_tags → suffix r = c_suffix c →
  Dns.dns_action (question i1 i2 f1 f2 name ty) device = Ok (Dns.Forward (omap Dns.parse_resolver (resolvers r))).
Proof.
  intros Hm Hs Hl Hlow Hd Hp Hf Hb Hsrc Hr Hn. rw outside_action //.
  destruct (route_wins domain_to_ascii domain_to_unicode is_alphabetic s Hwf Hplain device_tags hash org_id revision st dom Hst Hm name c r) as [-> ->]; [done..|].
  rw forward_no_addresses //. rw Hb. eauto.
Qed.

Lemma explain_agrees raw :
  explain s raw device_tags ≠ Err ExpectFailed ∧
  ∀ e, explain s raw device_tags = Ok e → Dns.labels_are_safe (e_name e) = true → (length (e_name e) ≤ 253)%nat →
    device_agrees s st dom e i1 i2 f1 f2 ty.
Proof.
  unfold OrgDns.explain. destruct (explained_name _ _ _ raw) as [[short name]|x] eqn:Hname; cbn [result_bind].
  2: { split; [|done]. intros [= ->]. by apply explained_name_expects in Hname. }
  destruct (explained_name_ok raw short name Hname) as (Hlow & Hshort & Hdot). destruct (short || private_name name) eqn:Hmag.
  { split; [done|]. intros e [= <-] Hs Hl. destruct (private_agrees name) as (Hne & Hown & Hfor & Hact); [done..|destruct short; [left; by apply Hshort|by right]|].
    unfold device_agrees. cbn [e_answer e_name]. by eexists. }
  apply orb_false_iff in Hmag as [-> Hp]. destruct (Hdot eq_refl) as [_ Hd]. destruct (managed s) eqn:Hm; cbn [negb].
  2: { split; [done|]. intros e [= <-] Hs Hl. by apply unmanaged_agrees. }
  destruct (List.filter _ (records s)) as [|r rs] eqn:Hf.
  2: { split; [done|]. intros e [= <-] Hs Hl. unfold device_agrees. cbn [e_answer e_name e_records].
       destruct (legacy_agrees name r rs Hm Hs Hl Hlow Hd Hp Hf) as (l & Hne & Hel & Hact). exists l. split_and!; [done| |exact Hact].
       intros a. rewrite Hel. apply (shown_values (r :: rs)). }
  pose proof (best_candidate_spec (List.filter c_applies (candidates s name device_tags))) as Hbest.
  destruct (best name) as [c|] eqn:Hb.
  2: { split; [done|]. intros e [= <-] Hs Hl. unfold device_agrees. cbn [e_answer e_name]. rw outside_action //.
       destruct (nothing_wins domain_to_ascii domain_to_unicode is_alphabetic s Hwf Hplain device_tags hash org_id revision st dom Hst Hm name Hb) as [-> ->].
       rw forward_no_addresses //. by rw Hb. }
  destruct Hbest as [Hin _]. destruct (applying s device_tags name c Hin) as [_ Hsrc]. destruct (c_source c) eqn:Hc.
  - destruct Hsrc as (z0 & Hz0 & _ & Hzn0). destruct (find_present (λ z, bool_decide (z_name z = c_suffix c)) (zones s) z0) as (z & Hfind & Hz & Hzn);
      [done|by apply bool_decide_eq_true|]. rw Hfind. cbn [ok_or result_bind]. to_prop. split; [done|]. intros e [= <-] Hs Hl.
    destruct (zone_agrees name c z Hm Hs Hl Hlow Hd Hp Hb Hc Hz Hzn) as (Hel & Hnone & Hbelow & Hmagic & Hzf & Hact).
    assert (∀ x, x ∈ List.filter (λ r, bool_decide (zr_name r = name)) (z_records z) ↔ x ∈ z_records z ∧ zr_name x = name) as Hshown
      by (intros x; by rewrite filter_elem bool_decide_eq_true).
    destruct (List.filter (λ r, bool_decide (zr_name r = name)) (z_records z)) as [|r rs] eqn:Hfz; cbn [length Nat.eqb]; unfold device_agrees; cbn [e_answer e_name e_zone e_records].
    + exists z. rewrite Hact (empty_zone_reply i1 i2 f1 f2 name ty device (device_zone z) Hmagic Hzf (proj2 Hnone eq_refl)) -Hbelow Hzn.
      split_and!; [done..| |done]. intros x Hx Hxn. by apply (not_elem_of_nil x), Hshown.
    + destruct (zone_entries z !! name) as [l|] eqn:Hlk; [|by assert (r :: rs = []) by by apply Hnone].
      destruct (full_zone_reply i1 i2 f1 f2 name ty device (device_zone z) Hmagic Hzf l Hlk) as (kept & rest & Hfinds & Hfull & Hreply).
      exists z, l, kept, rest. rewrite Hact Hreply Hzn. done.
  - destruct Hsrc as (g0 & Hg0 & Ha0 & Hd0).
    destruct (find_present (λ g, applies_to g device_tags && bool_decide (c_suffix c ∈ match_domains g)) (nameserver_groups s) g0) as (g & Hfind & Hg & _);
      [done|rw Ha0; by apply bool_decide_eq_true|]. rw Hfind. cbn [ok_or result_bind]. split; [done|]. intros e [= <-] Hs Hl.
    unfold device_agrees. cbn [e_answer e_name e_resolvers].
    destruct (routes_ok domain_to_ascii domain_to_unicode is_alphabetic s Hwf Hplain device_tags) as (_ & _ & _ & Hroute & _).
    by apply (route_agrees name c (mkSplit (c_suffix c) (g_resolvers g)) Hm Hs Hl Hlow Hd Hp Hf Hb); [rewrite Hc|apply Hroute|].
  - destruct Hsrc as (r0 & Hr0 & Hn0).
    destruct (find_present (λ route, bool_decide (suffix route = c_suffix c)) (split s) r0) as (r & Hfind & Hr & Hn);
      [done|by apply bool_decide_eq_true|]. rw Hfind. cbn [ok_or result_bind]. to_prop. split; [done|]. intros e [= <-] Hs Hl.
    unfold device_agrees. cbn [e_answer e_name e_resolvers].
    destruct (routes_ok domain_to_ascii domain_to_unicode is_alphabetic s Hwf Hplain device_tags) as (_ & _ & Hsplit & _ & _).
    by apply (route_agrees name c r Hm Hs Hl Hlow Hd Hp Hf Hb); [rewrite Hc|apply Hsplit|].
Qed.

End explained.

(** [C29] What the device does with a name the console explains, whatever answer the
    console announces: for a document that [canonicalise] accepts, with names of
    letters, digits and hyphens only ([plain]) and no address record of a zone below a
    more specific route of the device ([undivided]), a device with these tags that
    has adopted the snapshot forwards the name to exactly the resolvers shown; answers
    it with the records shown, the alias first where one of them is one; refuses it
    where nothing is announced; answers names of the tailnet from its own
    table, with NXDOMAIN for unknown ones, but refuses the [.blaktail] names of other
    tailnets.  Where [explain] announces NXDOMAIN for a zone, the device says NXDOMAIN
    when no record of the zone lies below the name and gives an empty answer
    otherwise. *)
Theorem preview_matches_device
    (domain_to_ascii : str → option str) (domain_to_unicode : str → str) (is_alphabetic : str → bool) (to_lowercase : str → str)
    (Hidna : IdnaLaws domain_to_ascii) (s0 s : OrgDnsSettings) (device_tags : list str) (hash : str → str) (org_id : str) (revision : Z)
    (st : Dns.NodeState) (dom raw : str) (i1 i2 f1 f2 ty : Z)
    (Hcanonical : canonicalise domain_to_ascii domain_to_unicode is_alphabetic to_lowercase s0 = Ok s)
    (Hplain : plain s) (Hundivided : undivided s device_tags)
    (Hst : Dns.org_dns st = Some (snapshot_of (agent_view hash s org_id revision device_tags)))
    (Hdom : Dns.valid_domain dom = true) (Hflags : standard f1 f2) :
  explain domain_to_ascii domain_to_unicode is_alphabetic s raw device_tags ≠ Err ExpectFailed ∧
  ∀ e, explain domain_to_ascii domain_to_unicode is_alphabetic s raw device_tags = Ok e →
    Dns.labels_are_safe (e_name e) = true → (length (e_name e) ≤ 253)%nat →
    device_agrees s st dom e i1 i2 f1 f2 ty.
Proof.
  eapply (explain_agrees domain_to_ascii domain_to_unicode is_alphabetic s); try done. by eapply canonicalise_wf.
Qed.

(** IDNA on names that are ASCII already. *)
Definition ascii_only (t : str) : option str := if is_ascii t then Some (to_ascii_lowercase t) else None.

#[export] Instance ascii_only_laws : IdnaLaws ascii_only.
Proof.
  assert (∀ t, is_ascii t = true → is_ascii (to_ascii_lowercase t) = true) as Hasc.
  { intros t Ht. unfold is_ascii in *. rewrite !forallb_forall in Ht |- *. intros c Hc. unfold to_ascii_lowercase in Hc. apply in_map_iff in Hc as (x & <- & Hx%Ht).
    unfold ascii_lower. destruct (is_ascii_uppercase x) eqn:Hu; [|done]. unfold is_ascii_uppercase in Hu. to_prop. apply Z.ltb_lt. lia. }
  split; unfold ascii_only.
  - intros t a. case_match; [|done]. intros [= <-]. apply lower_idem.
  - intros t a. case_match; [|done]. intros [= <-]. rw Hasc //. by rw lower_idem.
  - intros t a. case_match; [|done]. intros [= <-] Hin. unfold to_ascii_lowercase. apply list_elem_of_fmap. by exists 46.
  - intros t z a. destruct (is_ascii z); [|done]. intros [= Hz]. case_match; [|done]. intros [= <-]. exists (to_ascii_lowercase t).
    unfold to_ascii_lowercase in *. by rewrite map_app -{2}Hz.
Qed.

(** ** Examples *)

Definition demo_settings : OrgDnsSettings :=
  mkSettings true [] [mkSplit (lit "corp.example") [lit "10.0.0.53"]] [] [mkDnsRecord (lit "wiki.corp.example") RecA (lit "10.0.0.10")]
    [mkGroup (lit "Office AD") [lit "10.0.0.54"] [lit "ad.example"] true false [lit "office"]]
    [mkDnsZone (lit "apps.example") true
       [mkZoneRecord (lit "www.apps.example") A (lit "10.0.0.11") 300; mkZoneRecord (lit "docs.apps.example") Cname (lit "www.apps.example") 300]].

Definition demo_state (s : OrgDnsSettings) : Dns.NodeState :=
  Dns.mkNodeState (lit "100.64.0.1/32") [] (lit "laptop.0a1b2c3d.blaktail") [] [] []
    (Some (snapshot_of (agent_view (λ x, x) s (lit "0a1b2c3d") 7 [lit "office"]))) None.

Definition demo_canonicalise : OrgDnsSettings → result DnsError OrgDnsSettings := canonicalise ascii_only (λ x, x) (λ _, false) to_ascii_lowercase.
Definition demo_explain (s : OrgDnsSettings) (name : string) : result DnsError DnsExplanation :=
  explain ascii_only (λ x, x) (λ _, false) s (lit name) [lit "office"].

Lemma undivided_checked s device_tags :
  forallb (λ z, forallb (λ r, bool_decide (flat_record r = None)
                              || forallb (λ route, negb (under (zr_name r) (suffix route)) || (length (suffix route) <? length (z_name z))%nat)
                                   (routes s device_tags)) (z_records z)) (zones s) = true → undivided s device_tags.
Proof.
  rewrite forallb_forall. intros H z r route Hz%list_elem_of_In%H _ Hr%list_elem_of_In Hf Hroute%list_elem_of_In Hu.
  rewrite forallb_forall in Hz. apply Hz, orb_true_iff in Hr as [Hr|Hr]; [by to_prop|]. rewrite forallb_forall in Hr.
  apply Hr in Hroute. rewrite Hu in Hroute. by apply Nat.ltb_lt.
Qed.

Lemma preview_matches_device_witness :
  let shown name answer := ∃ e, demo_explain demo_settings name = Ok e ∧ e_answer e = answer ∧
    device_agrees demo_settings (demo_state demo_settings) (lit "0a1b2c3d.blaktail") e 0 9 1 0 1 in
  demo_canonicalise demo_settings = Ok demo_settings ∧ shown "DC1.ad.example."%string ForwardTo ∧ shown "docs.apps.example"%string ZoneAnswer ∧
  shown "nothing.apps.example"%string ZoneNxdomain ∧ shown "wiki.corp.example"%string LegacyRecord ∧ shown "laptop.0a1b2c3d.blaktail"%string MagicDns.
Proof.
  intros shown. assert (demo_canonicalise demo_settings = Ok demo_settings) as Hc by by vm_compute.
  assert (plain demo_settings) as Hp
    by (refine (proj1 (Forall_forall (λ d, Dns.labels_are_safe d = true) (names demo_settings)) _); by apply (bool_decide_unpack _); vm_compute).
  assert (undivided demo_settings [lit "office"]) as Hu by (apply undivided_checked; by vm_compute).
  assert (∀ name answer e, demo_explain demo_settings name = Ok e → e_answer e = answer → Dns.labels_are_safe (e_name e) = true →
    (length (e_name e) <=? 253)%nat = true → shown name answer) as Hshown.
  { intros name answer e He Ha Hs Hl. exists e. split_and!; [exact He|exact Ha|].
    destruct (preview_matches_device ascii_only (λ x, x) (λ _, false) to_ascii_lowercase _ demo_settings demo_settings [lit "office"] (λ x, x)
      (lit "0a1b2c3d") 7 (demo_state demo_settings) (lit "0a1b2c3d.blaktail") (lit name) 0 9 1 0 1 Hc Hp Hu eq_refl eq_refl ltac:(by split)) as [_ H].
    apply H; [exact He|exact Hs|by apply Nat.leb_le]. }
  clearbody shown. refine (conj Hc (conj _ (conj _ (conj _ (conj _ _))))); (eapply Hshown; vm_compute; reflexivity).
Defined.

(** ** Where the explanation and the device part *)

Definition demo_domain : str := lit "0a1b2c3d.blaktail".
Definition demo_action (s : OrgDnsSettings) (name : string) : attempt Dns.DnsAction :=
  Dns.dns_action (question 0 9 1 0 (lit name) 1) (Dns.records_from_state (demo_state s) demo_domain).

Definition divided_settings : OrgDnsSettings :=
  mkSettings true [] [mkSplit (lit "x.apps.example") [lit "10.0.0.53"]] [] [] []
    [mkDnsZone (lit "apps.example") true [mkZoneRecord (lit "www.x.apps.example") A (lit "10.0.0.11") 300]].

(** An address record of a zone below a more specific route: the console shows the
    name as forwarded, but the snapshot repeats the record among the extra records,
    and the device answers it itself. *)
Lemma divided_zone_diverges :
  demo_canonicalise divided_settings = Ok divided_settings ∧
  (e_answer <$> result_ok (demo_explain divided_settings "www.x.apps.example")) = Some ForwardTo ∧
  demo_action divided_settings "www.x.apps.example" =
    Ok (Dns.Reply (plain_reply 0 9 1 0 (lit "www.x.apps.example") 1 0 (Some (V4 0x0a00000b)))).
Proof. by vm_compute. Qed.

(** A name with records only below it: the console announces NXDOMAIN, the device
    answers without an error. *)
Lemma empty_name_diverges :
  let s := mkSettings true [] [] [] [] [] [mkDnsZone (lit "apps.example") true [mkZoneRecord (lit "www.x.apps.example") A (lit "10.0.0.11") 300]] in
  demo_canonicalise s = Ok s ∧ (e_answer <$> result_ok (demo_explain s "x.apps.example")) = Some ZoneNxdomain ∧
  ∃ rest, demo_action s "x.apps.example" = Ok (Dns.Reply ([0; 9; 0x85; 0x00] ++ rest)).
Proof. split_and!; [by vm_compute|by vm_compute|]. eexists. by vm_compute. Qed.

(** A [.blaktail] name outside the tailnet's own domain is refused, not denied. *)
Lemma foreign_blaktail_refused :
  (e_answer <$> result_ok (demo_explain demo_settings "db.ffffffff.blaktail")) = Some MagicDns ∧
  demo_action demo_settings "db.ffffffff.blaktail" = Ok (Dns.Reply (plain_reply 0 9 1 0 (lit "db.ffffffff.blaktail") 1 5 None)).
Proof. by vm_compute. Qed.

(** A ring of ten CNAMEs is accepted: the check follows nine. *)
Definition ring_label (n : nat) : str := lit "h" ++ dec (Z.of_nat n) ++ lit ".apps.example".
Definition ring (n : nat) : OrgDnsSettings :=
  mkSettings true [] [] [] [] []
    [mkDnsZone (lit "apps.example") true (map (λ i, mkZoneRecord (ring_label i) Cname (ring_label (S i mod n)) 300) (seq 0 n))].

Lemma long_cname_loop_accepted :
  demo_canonicalise (ring 9) = Err (CnameLoop (ring_label 0)) ∧ demo_canonicalise (ring 10) = Ok (ring 10).
Proof. by vm_compute. Qed.

(** The apex record of a zone with one label moves when the stored document is read. *)
Definition apex_settings (owner : string) : OrgDnsSettings :=
  mkSettings true [] [] [] [] [] [mkDnsZone (lit "corp") true [mkZoneRecord (lit owner) A (lit "10.0.0.11") 300]].

Lemma apex_record_moves :
  demo_canonicalise (apex_settings "@") = Ok (apex_settings "corp") ∧
  demo_canonicalise (apex_settings "corp") = Ok (apex_settings "corp.corp").
Proof. by vm_compute. Qed.

End OrgDnsProps.
