(* ===== verification/OrgDnsStable.v ===== *)
(** * The canonical form is stable

    A stored DNS document is read back through the same canonicalisation, by the
    console, by rollbacks and for every device.  This file shows that reading a
    canonical document leaves it as it is, so that the entity tag, the history and
    the snapshots all speak of the document that was published. *)

From stdpp Require Import sorting.
From S2P Require Import Prelude Text Net Policy Ipam CoordAcl AppConnectors CoordRules HeaderProps Dns DnsProps Resources ResourcesProps Routes RoutesProps OrgDns OrgDnsProps.

Module OrgDnsStable.
Import OrgDns OrgDnsProps.

(** ** Trimming twice *)

Lemma strip_many_done pats n t :
  Forall (λ p, p ≠ []) pats → (length t ≤ n)%nat → strip_one pats (strip_many pats n t) = None.
Proof.
  intros Hp. assert (strip_one pats [] = None) as Hnil.
  { clear -Hp. induction Hp as [|p pats Hp _ IH]; [done|]. destruct p; [done|]. cbn [strip_one strip_prefix]. done. }
  assert (∀ x r, strip_one pats x = Some r → (length r < length x)%nat) as Hshrink.
  { clear -Hp. intros x r. induction Hp as [|p pats Hp _ IH]; cbn [strip_one]; [done|].
    destruct (strip_prefix p x) as [r'|] eqn:Hx; [|done]. intros [= ->]. apply strip_prefix_Some in Hx as ->. rewrite length_app. destruct p; [done|]. simpl. lia. }
  revert t; induction n as [|n IH]; intros t Hl; cbn [strip_many]; [destruct t; [done|simpl in Hl; lia]|].
  destruct (strip_one pats t) as [r|] eqn:Hr; [|done]. apply IH. apply Hshrink in Hr. lia.
Qed.

Lemma strip_many_none pats n t : strip_one pats t = None → strip_many pats n t = t.
Proof. intros H. destruct n; cbn [strip_many]; [done|]. by rw H. Qed.

Lemma strip_one_prefix pats t u : strip_one pats (t ++ u) = None → strip_one pats t = None.
Proof.
  induction pats as [|p pats IH]; cbn [strip_one]; [done|]. destruct (strip_prefix p (t ++ u)) eqn:Hx; [done|]. intros Hr.
  destruct (strip_prefix p t) as [r|] eqn:Ht; [|by apply IH]. apply strip_prefix_Some in Ht as ->. by rewrite -app_assoc strip_prefix_app in Hx.
Qed.

Lemma strip_many_suffix pats n t : ∃ p, t = p ++ strip_many pats n t.
Proof.
  revert t; induction n as [|n IH]; intros t; cbn [strip_many]; [by exists []|]. destruct (strip_one pats t) as [r|] eqn:Hr; [|by exists []].
  destruct (IH r) as [p Hp]. assert (∃ q, t = q ++ r) as [q ->].
  { clear -Hr. induction pats as [|p pats IH]; cbn [strip_one] in Hr; [done|]. destruct (strip_prefix p t) as [r'|] eqn:Hx; [|by apply IH].
    injection Hr as ->. apply strip_prefix_Some in Hx. by exists p. }
  exists (q ++ p). by rewrite -app_assoc -Hp.
Qed.

Lemma trim_idem t : trim (trim t) = trim t.
Proof.
  unfold trim. set (y := trim_start t). assert (strip_one white_space y = None) as Hy.
  { apply strip_many_done; [|done]. by apply (bool_decide_unpack _); vm_compute. }
  assert (strip_one white_space (trim_end y) = None) as Hs.
  { destruct (strip_many_suffix (map reverse white_space) (length y) (reverse y)) as [p Hp]. apply (f_equal reverse) in Hp.
    rewrite reverse_involutive reverse_app in Hp. rewrite Hp in Hy. by eapply strip_one_prefix. }
  unfold trim_start at 1. rw strip_many_none //. unfold trim_end at 1. rw strip_many_none; [by rewrite reverse_involutive|].
  unfold trim_end. rewrite reverse_involutive. apply strip_many_done; [|by rewrite length_reverse]. by apply (bool_decide_unpack _); vm_compute.
Qed.

(** ** Sets of strings *)

Definition ascending : list str → Prop := StronglySorted (λ a b, BTree.str_ltb a b = true).

Lemma set_insert_elem x l y : y ∈ BTree.insert x l ↔ y = x ∨ y ∈ l.
Proof.
  induction l as [|z l IH]; cbn [BTree.insert]; [set_solver|]. case_bool_decide as Hx; [set_solver|].
  destruct (BTree.str_ltb x z); [set_solver|]. rewrite !elem_of_cons IH. naive_solver.
Qed.

Lemma insert_ascending x l : ascending l → ascending (BTree.insert x l).
Proof.
  induction 1 as [|z l Hl IH Hz]; cbn [BTree.insert]; [repeat constructor|]. case_bool_decide as Hx; [by constructor|].
  destruct (BTree.str_ltb x z) eqn:Hlt.
  - constructor; [by constructor|]. constructor; [done|]. eapply Forall_impl; [exact Hz|]. intros y. simpl. by apply ResourcesProps.str_ltb_trans.
  - constructor; [done|]. apply Forall_forall. intros y [->|Hy]%set_insert_elem; [|by eapply Forall_forall in Hz].
    destruct (BTree.str_ltb z x) eqn:Hzx; [done|]. by pose proof (ResourcesProps.str_ltb_total x z Hlt Hzx).
Qed.

Lemma extend_ascending l xs : ascending l → ascending (BTree.extend l xs).
Proof. unfold BTree.extend. revert l; induction xs as [|x xs IH]; intros l Hl; cbn [foldl]; [done|]. by apply IH, insert_ascending. Qed.

Lemma insert_last x l : (∀ y, y ∈ l → BTree.str_ltb y x = true) → BTree.insert x l = l ++ [x].
Proof.
  induction l as [|y l IH]; intros Hl; cbn [BTree.insert]; [done|]. assert (BTree.str_ltb y x = true) as Hy by (apply Hl; by left).
  rw bool_decide_false; [|intros ->; by rewrite ResourcesProps.str_ltb_irrefl in Hy].
  destruct (BTree.str_ltb x y) eqn:Hx.
  { pose proof (ResourcesProps.str_ltb_trans _ _ _ Hy Hx) as Hyy. by rewrite ResourcesProps.str_ltb_irrefl in Hyy. }
  cbn [app]. f_equal. apply IH. intros z Hz. apply Hl. by right.
Qed.

Lemma extend_stable l : ascending l → BTree.extend [] l = l.
Proof.
  unfold BTree.extend. induction l as [|x l IH] using rev_ind; intros Hl; [done|]. rewrite foldl_app. cbn [foldl].
  assert (ascending l ∧ ∀ y, y ∈ l → BTree.str_ltb y x = true) as [Hs Hx].
  { clear IH. induction l as [|y l IH]; [by split; [constructor|set_solver]|]. inversion_clear Hl as [|? ? Hl' Hf]. destruct (IH Hl') as [H1 H2].
    apply Forall_app in Hf as [Hf [Hyx _]%Forall_cons]. split; [by constructor|]. intros z [->|Hz]%elem_of_cons; [done|by apply H2]. }
  rw IH //. by apply insert_last.
Qed.

Lemma extend_twice xs : BTree.extend [] (BTree.extend [] xs) = BTree.extend [] xs.
Proof. apply extend_stable, extend_ascending. constructor. Qed.

(** ** Names *)

Lemma try_collect_stable {E A} (f : A → result E A) l : (∀ x, x ∈ l → f x = Ok x) → try_collect f l = Ok l.
Proof. intros Hf. apply try_collect_ok. apply Forall2_same_length_lookup. split; [done|]. intros i x y Hx Hy. assert (x = y) as -> by congruence. apply Hf. by eapply list_elem_of_lookup_2. Qed.

Lemma resolvers_stable ts : Forall address_text ts → try_collect parse_resolver ts = Ok ts.
Proof. rewrite Forall_forall. intros Ht. apply try_collect_stable. intros t Hin. by apply parse_resolver_text, Ht. Qed.

Lemma safe_no_star d : Dns.labels_are_safe d = true → contains_char 42 d = false.
Proof.
  intros Hs. unfold contains_char. apply existsb_false. intros c Hc. apply Z.eqb_neq. intros <-.
  rewrite -(join_split 46 d) in Hc. unfold Dns.labels_are_safe in Hs. rewrite forallb_forall in Hs.
  assert (Forall (λ c, c ≠ 42) (join [46] (Text.split 46 d))) as Hf; [|by eapply Forall_forall in Hf].
  apply join_Forall; [by repeat constructor|]. apply Forall_forall. intros l Hl%list_elem_of_In%Hs. unfold Dns.safe_label in Hl.
  apply andb_true_iff in Hl as [_ Hl]. rewrite forallb_forall in Hl. apply Forall_forall. intros x Hx%list_elem_of_In%Hl.
  unfold Dns.name_char, is_ascii_alphanumeric, is_ascii_alphabetic, is_ascii_lowercase, is_ascii_uppercase, is_ascii_digit in Hx. lia.
Qed.

Section stable.
Context (domain_to_ascii : str → option str) (domain_to_unicode : str → str).
Context (is_alphabetic : str → bool) (to_lowercase : str → str) {Hidna : IdnaLaws domain_to_ascii}.
#[local] Abbreviation canonicalise := (canonicalise domain_to_ascii domain_to_unicode is_alphabetic to_lowercase).
#[local] Abbreviation canonicalize_domain := (canonicalize_domain domain_to_ascii domain_to_unicode is_alphabetic).
#[local] Abbreviation public_domain := (public_domain domain_to_ascii domain_to_unicode is_alphabetic).
#[local] Abbreviation canonical := (canonical domain_to_ascii domain_to_unicode is_alphabetic).
#[local] Abbreviation published := (published domain_to_ascii domain_to_unicode is_alphabetic).

(** A canonical name devices accept is read as it is. *)
Lemma canonicalize_stable d : canonical d → Dns.labels_are_safe d = true → canonicalize_domain d = Ok d.
Proof.
  intros Hc Hs. pose proof (canonical_fixed _ _ _ d Hc) as Hfix. apply canonical_inv in Hc as (_ & Hl & Hb & He & Hdd & Hm & Hlab).
  destruct (safe_graphic d Hs) as [Hg Hne]. unfold OrgDns.canonicalize_domain. rw trim_graphic // trim_end_keeps //.
  rw safe_no_star // Hfix. cbn [ok_or result_bind]. rw Hb He Hdd Hm Hlab. unfold MAX_DOMAIN_LEN. rw (proj2 (Nat.ltb_ge 253 (length d))) //.
  destruct d as [|c d]; [done|]. cbn [length Nat.eqb orb].
  destruct (seq_b (c :: d) ".") eqn:Hdot; [|done]. unfold seq_b in Hdot. to_prop. by rewrite Hdot in Hs.
Qed.

Lemma public_stable d : published d → Dns.labels_are_safe d = true → public_domain d = Ok d.
Proof. intros [Hc Hp] Hs. unfold OrgDns.public_domain. rw canonicalize_stable //. cbn [result_bind]. unfold reject_private_suffix. by rw Hp. Qed.

(** ** Parts of the document *)

Lemma split_stable seen rs out :
  canonical_split domain_to_ascii domain_to_unicode is_alphabetic seen rs = Ok out →
  (∀ r, r ∈ out → Dns.labels_are_safe (suffix r) = true) →
  length out = length rs ∧ canonical_split domain_to_ascii domain_to_unicode is_alphabetic seen out = Ok out.
Proof.
  revert seen out; induction rs as [|r rs IH]; intros seen out; cbn [canonical_split]; [by intros [= <-]|].
  rewrite !then_ok. intros (Hne & Hmax & H) Hs. apply bind_ok in H as (d & Hd & H). rewrite then_ok in H. destruct H as [Hseen H].
  apply bind_ok in H as (ts & Hts & H). apply bind_ok in H as (rest & Hrest & [= <-]). apply parse_resolvers_ok in Hts as [Hlen Hts].
  apply reject_if_ok in Hne, Hmax. cbn [canonical_split suffix resolvers]. rw Hlen Hne Hmax. cbn [reject_if result_bind]. rw public_stable; [|by eapply public_published|by apply (Hs (mkSplit d ts)); left].
  cbn [result_bind]. rw Hseen resolvers_stable //. cbn [result_bind].
  destruct (IH (d :: seen) rest Hrest) as [Hl ->]; [intros x Hx; apply Hs; by right|]. simpl. by rw Hl.
Qed.

Lemma record_stable approved r r' :
  canonical_record domain_to_ascii domain_to_unicode is_alphabetic approved r = Ok r' → Dns.labels_are_safe (r_name r') = true →
  canonical_record domain_to_ascii domain_to_unicode is_alphabetic approved r' = Ok r'.
Proof.
  intros H Hs. pose proof (canonical_record_ok _ _ _ _ _ _ H) as (Hp & a & Hw & Hv & Hty). unfold canonical_record in *.
  apply bind_ok in H as (d & Hd & H). rewrite then_ok in H. destruct H as [Ha H]. apply bind_ok in H as (v & _ & [= <-]). cbn [r_name r_type r_value] in *.
  rw public_stable //. cbn [result_bind]. rw Ha. cbn [result_bind]. unfold parse_ipv4, parse_ipv6.
  rewrite Hv trim_graphic; [|apply show_ip_graphic]. rw parse_show_ip //. by destruct (r_type r), a.
Qed.

Lemma tag_stable t t' : canonical_tag t = Ok t' → canonical_tag t' = Ok t'.
Proof.
  unfold canonical_tag. case_bool_decide as Ht; [|done]. intros [= <-]. set (x := to_ascii_lowercase (trim t)) in *.
  assert (Forall (λ y, to_ascii_lowercase (trim y) = y) DEVICE_TAGS) as Hf by by repeat constructor.
  rewrite Forall_forall in Hf. rw Hf //. by rw bool_decide_true.
Qed.

Lemma groups_stable routes seen gs out :
  canonical_groups_from domain_to_ascii domain_to_unicode is_alphabetic to_lowercase routes seen gs = Ok out →
  (∀ g d, g ∈ out → d ∈ match_domains g → Dns.labels_are_safe d = true) →
  length out = length gs ∧ canonical_groups_from domain_to_ascii domain_to_unicode is_alphabetic to_lowercase routes seen out = Ok out.
Proof.
  revert seen out; induction gs as [|g gs IH]; intros seen out; cbn [canonical_groups_from]; [by intros [= <-]|].
  rewrite !then_ok. intros (Hname & Hnew & Hres & H) Hs. apply bind_ok in H as (ts & Hts & H). rewrite !then_ok in H. destruct H as (Hut & Hdom & H).
  apply bind_ok in H as (ds & Hds & H). rewrite then_ok in H. destruct H as [Hud H]. apply bind_ok in H as (tags' & Htags & H).
  rewrite then_ok in H. destruct H as [Hall H]. apply bind_ok in H as (rest & Hrest & [= <-]). apply parse_resolvers_ok in Hts as [Hlen Hts].
  assert (length ds = length (match_domains g)) as Hld by by eapply try_collect_length.
  cbn [canonical_groups_from g_name g_resolvers match_domains g_enabled all_devices tags].
  rw trim_idem Hname Hnew. cbn [result_bind]. rw Hlen Hres resolvers_stable //. cbn [result_bind]. rw Hlen in Hut. rw Hlen Hut Hld Hdom. cbn [result_bind].
  rw (try_collect_stable (match_domain _ _ _ routes) ds).
  { cbn [result_bind]. rw Hld in Hud. rw Hld Hud. cbn [result_bind]. rw try_collect_stable.
    - cbn [result_bind]. rw extend_twice Hall. cbn [result_bind].
      destruct (IH _ rest Hrest) as [Hl ->]; [intros g' d Hg'; apply Hs; by right|]. simpl. by rw Hl.
    - intros t [Ht|Ht]%RoutesProps.extend_elem; [by apply not_elem_of_nil in Ht|].
      destruct (try_collect_elem _ _ _ t Htags Ht) as (x & _ & Hx). by eapply tag_stable. }
  intros d Hd. destruct (try_collect_elem _ _ _ d Hds Hd) as (x & _ & Hx). destruct (match_domain_ok _ _ _ _ _ _ Hx) as [Hp Hno].
  unfold match_domain. rw public_stable //; [|by eapply Hs; [left|]]. cbn [result_bind].
  unfold match_domain in Hx. apply bind_ok in Hx as (d' & _ & Hx). rewrite then_ok in Hx. destruct Hx as [Hx [= ->]]. by rw Hx.
Qed.

Lemma owner_stable zone owner :
  46 ∈ zone → canonical owner → Dns.labels_are_safe owner = true → under owner zone = true →
  record_owner domain_to_ascii domain_to_unicode is_alphabetic zone owner = Ok owner.
Proof.
  intros Hdot Hc Hs Hu. destruct (safe_graphic owner Hs) as [Hg Hne]. pose proof Hc as Hc'. apply canonical_inv in Hc' as (_ & _ & _ & He & _).
  unfold record_owner. rw trim_graphic // trim_end_keeps //.
  destruct (seq_b owner "@") eqn:Hat; [unfold seq_b in Hat; to_prop; by rewrite Hat in Hs|].
  assert (contains_char 46 owner = true) as Hco.
  { unfold contains_char. apply existsb_elem. exists 46. split; [|apply Z.eqb_refl]. apply under_suffix in Hu as [q ->]. set_solver. }
  rw Hco. rewrite andb_false_r. rw canonicalize_stable //. cbn [result_bind]. unfold zone_contains. cbn [existsb]. by rw Hu.
Qed.

Lemma zone_record_stable zone raw r :
  46 ∈ zone → canonical zone → Dns.labels_are_safe zone = true → (∀ d, d ∈ record_names r → Dns.labels_are_safe d = true) →
  canonical_zone_record domain_to_ascii domain_to_unicode is_alphabetic zone raw = Ok r →
  canonical_zone_record domain_to_ascii domain_to_unicode is_alphabetic zone r = Ok r.
Proof.
  intros Hdot Hz Hzs Hs H. destruct (zone_record_ok _ _ _ _ _ _ Hz Hzs H) as (Hc & Hu & _ & Hv). unfold canonical_zone_record in *.
  apply bind_ok in H as (n & _ & H). rewrite then_ok in H. destruct H as [Ht H]. apply bind_ok in H as (v & Hval & [= <-]).
  cbn [zr_name zr_ttl zr_type zr_value] in *. unfold record_names in Hs. cbn [zr_name zr_type zr_value] in Hs.
  rw owner_stable //; [|apply Hs; by left]. cbn [result_bind]. rw Ht. cbn [result_bind]. unfold value_ok in Hv. cbn [zr_type zr_value] in Hv.
  unfold record_value in *. cbn [zr_type zr_value]. destruct (zr_type raw).
  - destruct Hv as (a & Hw & ->). apply bind_ok in Hval as (x & _ & Hx). rewrite then_ok in Hx. destruct Hx as [Hx [= ->]].
    unfold parse_ipv4. rw trim_graphic; [|apply show_ip_graphic]. rw parse_show_ip //. cbn [result_bind]. by rw Hx.
  - destruct Hv as (a & Hw & ->). apply bind_ok in Hval as (x & _ & Hx). rewrite then_ok in Hx. destruct Hx as [Hx [= ->]].
    unfold parse_ipv6. rw trim_graphic; [|apply show_ip_graphic]. rw parse_show_ip //. cbn [result_bind]. by rw Hx.
  - apply bind_ok in Hval as (x & _ & Hx). rewrite then_ok in Hx. destruct Hx as [Hx [= ->]].
    rw canonicalize_stable //; [|apply Hs; rw (bool_decide_true (Cname = Cname)) //; set_solver]. cbn [result_bind]. by rw Hx.
  - rewrite then_ok in Hval. destruct Hval as [Hx [= <-]]. by rw Hx.
Qed.

Lemma zones_stable acc zs out :
  canonical_zones_from domain_to_ascii domain_to_unicode is_alphabetic acc zs = Ok out →
  (∀ z, z ∈ out → 46 ∈ z_name z ∧ ∀ d, d ∈ zone_names z → Dns.labels_are_safe d = true) →
  ∃ new, out = acc ++ new ∧ length new = length zs ∧ canonical_zones_from domain_to_ascii domain_to_unicode is_alphabetic acc new = Ok out.
Proof.
  revert acc out; induction zs as [|z zs IH]; intros acc out; cbn [canonical_zones_from].
  { intros [= <-] _. exists []. by rewrite app_nil_r. }
  intros H Hs. apply bind_ok in H as (d & Hd & H). rewrite !then_ok in H. destruct H as (Hnew & Hmax & H).
  apply bind_ok in H as (rs & Hrs & H). rewrite then_ok in H. destruct H as [Hcheck H].
  destruct (IH _ _ H Hs) as (new & -> & Hlen & Hrest). exists (mkDnsZone d (z_enabled z) rs :: new). rewrite -app_assoc. cbn [app].
  split_and!; [done|by simpl; rw Hlen|]. destruct (Hs (mkDnsZone d (z_enabled z) rs)) as [Hdot Hsafe]; [set_solver|]. cbn [z_name] in Hdot.
  pose proof (public_published _ _ _ _ _ Hd) as Hp. assert (Dns.labels_are_safe d = true) as Hds by (apply Hsafe; by left).
  cbn [canonical_zones_from z_name z_enabled z_records]. rw public_stable //. cbn [result_bind]. rw Hnew. cbn [result_bind].
  rw (try_collect_length _ _ _ Hrs) Hmax. cbn [result_bind]. rw try_collect_stable.
  { cbn [result_bind]. rw Hcheck. cbn [result_bind]. rw Hrest. by rewrite -app_assoc. }
  intros r Hr. destruct (try_collect_elem _ _ _ r Hrs Hr) as (raw & _ & Hraw). eapply (zone_record_stable d raw r); try done; [by apply Hp|].
  intros x Hx. apply Hsafe. right. apply flat_map_elem. by exists r.
Qed.

(** What a document must be for devices to take all of it: names of letters, digits
    and hyphens, and zones of two labels or more. *)
Definition storable (s : OrgDnsSettings) : Prop :=
  plain s ∧ (∀ d, d ∈ search_domains s → Dns.labels_are_safe d = true) ∧ ∀ z, z ∈ zones s → 46 ∈ z_name z.

Lemma canonicalise_stable s0 s : canonicalise s0 = Ok s → storable s → canonicalise s = Ok s.
Proof.
  intros H (Hplain & Hsearch & Hzones). unfold OrgDns.canonicalise in H. rewrite !then_ok in H. destruct H as (H1 & H2 & H3 & H4 & H).
  apply bind_ok in H as (gl & Hgl & H). apply bind_ok in H as (rs & Hrs & H). apply bind_ok in H as (search & Hse & H). rewrite then_ok in H. destruct H as [Hu H].
  apply bind_ok in H as (extra & Hextra & H). rewrite then_ok in H. destruct H as [Hdup H]. apply bind_ok in H as (groups & Hgroups & H).
  apply bind_ok in H as (zs & Hzs & H). rewrite then_ok in H. destruct H as [Hcheck [= <-]].
  apply parse_resolvers_ok in Hgl as [Hlg Hgl]. unfold canonical_groups in Hgroups. rewrite then_ok in Hgroups. destruct Hgroups as [Hng Hgroups].
  unfold canonical_zones in Hzs. rewrite then_ok in Hzs. destruct Hzs as [Hnz Hzs]. cbn [search_domains zones] in Hsearch, Hzones.
  set (s := mkSettings (managed s0) gl rs search extra groups zs) in *.
  destruct (split_stable _ _ _ Hrs) as [Hrl Hrs']; [intros r Hr; by eapply (plain_suffix s)|].
  destruct (groups_stable _ _ _ _ Hgroups) as [Hgl' Hgroups']; [intros g d Hg Hd; by eapply (plain_domain s)|].
  destruct (zones_stable [] (zones s0) zs Hzs) as (new & Hnew & Hzl & Hzs').
  { intros z Hz. split; [by apply Hzones|]. intros d Hd. by eapply (plain_zone s). }
  cbn [app] in Hnew. subst new. unfold OrgDns.canonicalise. cbn [global_resolvers split search_domains records nameserver_groups zones managed].
  rw Hlg H1 Hrl H2 (try_collect_length _ _ _ Hse) H3 (try_collect_length _ _ _ Hextra) H4. cbn [result_bind].
  rw resolvers_stable //. cbn [result_bind]. rw Hrs'. cbn [result_bind]. rw try_collect_stable.
  2: { intros d Hd. destruct (try_collect_elem _ _ _ d Hse Hd) as (x & _ & Hx). apply public_stable; [by eapply public_published|by apply Hsearch]. }
  cbn [result_bind]. rw (try_collect_length _ _ _ Hse) in Hu. rw (try_collect_length _ _ _ Hse) Hu. cbn [result_bind]. rw try_collect_stable.
  2: { intros r Hr. destruct (try_collect_elem _ _ _ r Hextra Hr) as (x & _ & Hx). eapply record_stable; [exact Hx|]. by eapply (plain_record s). }
  cbn [result_bind]. rw Hdup. cbn [result_bind]. unfold canonical_groups. rw Hgl' Hng. cbn [result_bind]. rw Hgroups'. cbn [result_bind]. unfold canonical_zones. rw Hzl Hnz. cbn [result_bind]. rw Hzs'. cbn [result_bind]. by rw Hcheck.
Qed.

(** ** The store *)

Context (to_json : OrgDnsSettings → str) (from_json : str → option OrgDnsSettings) (hash : str → str).
#[local] Abbreviation parse_settings := (parse_settings domain_to_ascii domain_to_unicode is_alphabetic to_lowercase from_json).
#[local] Abbreviation org_dns_from_row := (org_dns_from_row domain_to_ascii domain_to_unicode is_alphabetic to_lowercase from_json hash).
#[local] Abbreviation put_dns := (put_dns domain_to_ascii domain_to_unicode is_alphabetic to_lowercase to_json from_json hash).

(** The documents published so far, the first one being the default, and their rows. *)
Definition entries (docs : list OrgDnsSettings) : list (Z * str) := drop 1 (imap (λ i d, (Z.of_nat i, to_json d)) docs).
Definition kept (docs : list OrgDnsSettings) : list (Z * str) :=
  List.filter (λ e, negb (e.1 <=? Z.of_nat (length docs) - 1 - KEEP_REVISIONS)) (entries docs).

(** The row holds the last document, its revision, the one before and the history. *)
Record stored (docs : list OrgDnsSettings) (row : DnsRow) : Prop := mkStored {
  st_docs : ∀ d, d ∈ docs → canonicalise d = Ok d;
  st_json : ∃ d, last docs = Some d ∧ dns_json row = to_json d;
  st_revision : dns_revision row = Z.of_nat (length docs) - 1;
  st_previous : dns_previous_json row = to_json <$> last (take (length docs - 1) docs);
  st_revisions : revisions row = kept docs
}.

(** The document a request asks for, in terms of the documents published so far. *)
Definition requested (docs : list OrgDnsSettings) (request : DnsRequest) (d : OrgDnsSettings) : Prop :=
  match request with
  | Publish text => parse_settings text = Ok d
  | Rollback => (2 ≤ length docs)%nat ∧ docs !! (length docs - 2)%nat = Some d
  | RollbackTo r => 1 ≤ r ∧ Z.of_nat (length docs) - 1 - KEEP_REVISIONS < r ∧ docs !! Z.to_nat r = Some d
  end.

Context (Hjson : ∀ d, from_json (to_json d) = Some d) (Hblank : ∀ d, trim (to_json d) ≠ []).

Lemma read_back d : canonicalise d = Ok d → parse_settings (to_json d) = Ok d.
Proof.
  intros Hd. unfold OrgDns.parse_settings. destruct (trim (to_json d)) eqn:Ht; [by destruct (Hblank d)|]. cbn [length Nat.eqb]. by rw Hjson /= Hd.
Qed.

Lemma entries_snoc docs d : docs ≠ [] → entries (docs ++ [d]) = entries docs ++ [(Z.of_nat (length docs), to_json d)].
Proof.
  intros Hne. unfold entries. rewrite imap_app. cbn [imap]. rewrite Nat.add_0_r drop_app_le; [done|]. rewrite length_imap. destruct docs; [done|]. simpl. lia.
Qed.

Lemma kept_snoc docs d : docs ≠ [] → kept (docs ++ [d]) = record_revision (kept docs) (Z.of_nat (length docs)) (to_json d).
Proof.
  intros Hne. unfold kept, record_revision. rewrite entries_snoc // length_app. cbn [length]. rewrite !List.filter_app. f_equal.
  - induction (entries docs) as [|e l IH]; cbn [List.filter]; [done|].
    destruct (Z.leb_spec e.1 (Z.of_nat (length docs + 1) - 1 - KEEP_REVISIONS)), (Z.leb_spec e.1 (Z.of_nat (length docs) - 1 - KEEP_REVISIONS));
      cbn [negb List.filter]; try lia; try exact IH.
    + destruct (Z.leb_spec e.1 (Z.of_nat (length docs) - KEEP_REVISIONS)); [exact IH|lia].
    + destruct (Z.leb_spec e.1 (Z.of_nat (length docs) - KEEP_REVISIONS)); [lia|]. cbn [negb]. by f_equal.
  - cbn [List.filter fst]. by replace (Z.of_nat (length docs + 1) - 1 - KEEP_REVISIONS) with (Z.of_nat (length docs) - KEEP_REVISIONS) by lia.
Qed.

Lemma entries_elem docs r j : (r, j) ∈ entries docs ↔ 1 ≤ r ∧ ∃ d, docs !! Z.to_nat r = Some d ∧ j = to_json d.
Proof.
  unfold entries. rewrite list_elem_of_lookup. setoid_rewrite lookup_drop. setoid_rewrite list_lookup_imap. split.
  - intros [i Hi]. destruct (docs !! (1 + i)%nat) as [d|] eqn:Hd; [|done]. injection Hi as <- <-. split; [lia|]. exists d. by rewrite Nat2Z.id.
  - intros (Hr & d & Hd & ->). exists (Z.to_nat r - 1)%nat. replace (1 + (Z.to_nat r - 1))%nat with (Z.to_nat r) by lia. rewrite Hd /=. by rewrite Z2Nat.id; [|lia].
Qed.

Lemma previous_ok docs row d :
  stored docs row → load_previous_dns_tx domain_to_ascii domain_to_unicode is_alphabetic to_lowercase from_json row = Ok d ↔ requested docs Rollback d.
Proof.
  intros Hst. unfold load_previous_dns_tx. rw (st_previous _ _ Hst). cbn [requested].
  assert (last (take (length docs - 1) docs) = if (2 <=? length docs)%nat then docs !! (length docs - 2)%nat else None) as ->.
  { rewrite last_lookup length_take. destruct (Nat.leb_spec 2 (length docs)).
    - rewrite lookup_take_lt; [|lia]. f_equal. lia.
    - by replace (length docs - 1)%nat with 0%nat by lia. }
  destruct (Nat.leb_spec 2 (length docs)) as [Hl|Hl]; cbn [fmap option_fmap option_map].
  2: { split; [done|]. intros [? _]. lia. }
  destruct (docs !! (length docs - 2)%nat) as [x|] eqn:Hx; cbn [fmap option_fmap option_map ok_or result_bind]; [|naive_solver].
  rw read_back; [naive_solver|]. apply (st_docs _ _ Hst). by eapply list_elem_of_lookup_2.
Qed.

Lemma revision_ok docs row r d :
  stored docs row → load_revision_tx domain_to_ascii domain_to_unicode is_alphabetic to_lowercase from_json row r = Ok d ↔ requested docs (RollbackTo r) d.
Proof.
  intros Hst. unfold load_revision_tx. rw (st_revisions _ _ Hst). cbn [requested].
  assert (∀ j, (r, j) ∈ kept docs ↔ 1 ≤ r ∧ Z.of_nat (length docs) - 1 - KEEP_REVISIONS < r ∧ ∃ x, docs !! Z.to_nat r = Some x ∧ j = to_json x) as Hkept.
  { intros j. unfold kept. rewrite filter_elem entries_elem. cbn [fst]. rewrite negb_true_iff Z.leb_gt. naive_solver. }
  destruct (List.find (λ e, e.1 =? r) (kept docs)) as [[r' j]|] eqn:Hf; cbn [fmap option_fmap option_map ok_or result_bind snd].
  - apply find_elem in Hf as [Hin Hr]. cbn [fst] in Hr. to_prop. subst r'. apply Hkept in Hin as (H1 & H2 & x & Hx & ->).
    rw read_back; [naive_solver|]. apply (st_docs _ _ Hst). by eapply list_elem_of_lookup_2.
  - split; [done|]. intros (H1 & H2 & Hd). assert ((r, to_json d) ∈ kept docs) as Hin by (apply Hkept; eauto).
    pose proof (find_none_elem _ _ _ Hf Hin) as Hn. cbn [fst] in Hn. to_prop. done.
Qed.

Lemma request_ok docs row request d :
  stored docs row →
  match request with
  | RollbackTo revision => load_revision_tx domain_to_ascii domain_to_unicode is_alphabetic to_lowercase from_json row revision
  | Rollback => load_previous_dns_tx domain_to_ascii domain_to_unicode is_alphabetic to_lowercase from_json row
  | Publish text => parse_settings text
  end = Ok d ↔ requested docs request d.
Proof. intros Hst. destruct request; [by apply revision_ok|by apply previous_ok|done]. Qed.

(** A document a request can ask for is stable. *)
Lemma requested_stable docs row request d :
  stored docs row → (∀ text, request = Publish text → storable d) → requested docs request d → canonicalise d = Ok d.
Proof.
  intros Hst Hs. destruct request as [r| |text]; cbn [requested].
  - intros (_ & _ & Hd). apply (st_docs _ _ Hst). by eapply list_elem_of_lookup_2.
  - intros [_ Hd]. apply (st_docs _ _ Hst). by eapply list_elem_of_lookup_2.
  - specialize (Hs text eq_refl). unfold OrgDns.parse_settings. destruct (_ =? 0)%nat; [by intros [= <-]|].
    intros (x & _ & Hx)%bind_ok. by eapply canonicalise_stable.
Qed.

Lemma shown docs row : stored docs row → last docs = Some (rs_dns (org_dns_from_row row)) ∧ rs_revision (org_dns_from_row row) = Z.of_nat (length docs) - 1.
Proof.
  intros Hst. split; [|apply (st_revision _ _ Hst)]. destruct (st_json _ _ Hst) as (d & Hd & Hj). unfold OrgDns.org_dns_from_row. cbn [rs_dns].
  rw Hj read_back; [done|]. apply (st_docs _ _ Hst). apply last_Some in Hd as [l ->]. set_solver.
Qed.

Lemma publish_stored docs row d :
  stored docs row → canonicalise d = Ok d →
  stored (docs ++ [d]) (publish_org_dns to_json row (org_dns_from_row row) d).
Proof.
  intros Hst Hd. destruct (shown docs row Hst) as [Hlast Hrev]. assert (docs ≠ []) as Hne by by destruct docs.
  unfold publish_org_dns, write_org_dns_tx. constructor; cbn [dns_json dns_revision dns_previous_json revisions].
  - intros x [Hx| ->%list_elem_of_singleton]%elem_of_app; [by apply (st_docs _ _ Hst)|done].
  - exists d. by rewrite last_snoc.
  - rw Hrev. rewrite length_app /=. lia.
  - rewrite length_app /=. replace (length docs + 1 - 1)%nat with (length docs) by lia. by rewrite take_app_length Hlast.
  - rw Hrev kept_snoc // (st_revisions _ _ Hst). f_equal. lia.
Qed.

End stable.

(** [C30] As long as every document published has only names of letters, digits and
    hyphens and zones of two labels or more ([storable]), the stored document
    implements a history of documents: readers see the last document published and its
    revision; a change succeeds exactly for a role that may manage DNS, with no entity
    tag or the current one, and a request that names a document: a new one, the one
    before the last, or one of the last fifty; and the document it names becomes the
    last of the history.  Without the condition it fails: the apex record of a zone
    with one label is stored as another document ([apex_record_moves]). *)
Theorem dns_store_refines
    (domain_to_ascii : str → option str) (domain_to_unicode : str → str) (is_alphabetic : str → bool) (to_lowercase : str → str)
    (Hidna : IdnaLaws domain_to_ascii) (to_json : OrgDnsSettings → str) (from_json : str → option OrgDnsSettings) (hash : str → str)
    (Hjson : ∀ d, from_json (to_json d) = Some d) (Hblank : ∀ d, trim (to_json d) ≠ [])
    (docs : list OrgDnsSettings) (row : DnsRow)
    (Hstored : stored domain_to_ascii domain_to_unicode is_alphabetic to_lowercase to_json docs row) (role : Role) (request : DnsRequest)
    (Hdevices : ∀ text d, request = Publish text →
       parse_settings domain_to_ascii domain_to_unicode is_alphabetic to_lowercase from_json text = Ok d → storable d) :
  let current := org_dns_from_row domain_to_ascii domain_to_unicode is_alphabetic to_lowercase from_json hash row in
  let put := put_dns domain_to_ascii domain_to_unicode is_alphabetic to_lowercase to_json from_json hash row role in
  last docs = Some (rs_dns current) ∧ rs_revision current = Z.of_nat (length docs) - 1 ∧
  (∀ if_match row', put if_match request = Ok row' →
     ∃ d, requested domain_to_ascii domain_to_unicode is_alphabetic to_lowercase from_json docs request d ∧ can role ManageDns = true ∧
       stored domain_to_ascii domain_to_unicode is_alphabetic to_lowercase to_json (docs ++ [d]) row') ∧
  (∀ d if_match, can role ManageDns = true → if_match = None ∨ if_match = Some (rs_etag current) ∧ Forall graphic (rs_etag current) →
     requested domain_to_ascii domain_to_unicode is_alphabetic to_lowercase from_json docs request d → ∃ row', put if_match request = Ok row').
Proof.
  intros current put. destruct (shown _ _ _ _ _ _ hash Hjson Hblank _ _ Hstored) as [Hlast Hrev]. split_and!; [done|done| |].
  - intros m row'. unfold put, OrgDns.put_dns. rewrite then_ok. intros [Hrole H]. rewrite then_ok in H. destruct H as [_ H].
    apply bind_ok in H as (d & Hd & [= <-]). rewrite request_ok // in Hd. exists d. split_and!; [done| |].
    + unfold require in Hrole. by destruct (can role ManageDns).
    + apply publish_stored; [done..|]. eapply requested_stable; try done. intros text ->. by apply (Hdevices text).
  - intros d m Hrole Hm Hreq. unfold put, OrgDns.put_dns, require. rw Hrole. cbn [map_err result_bind]. fold current.
    assert (match (e ← trim <$> m; if (length e =? 0)%nat then None else Some e) with
            | Some expected => reject_if (stale_match expected (rs_etag current)) StaleEtag | None => Ok tt end = Ok tt) as ->.
    { destruct Hm as [->|[-> Hg]]; [done|]. cbn [fmap option_fmap option_map mbind option_bind]. rw trim_graphic //.
      destruct (length (rs_etag current) =? 0)%nat; [done|].
      unfold stale_match. by rw (bool_decide_true (rs_etag current = rs_etag current)). }
    cbn [result_bind]. rewrite -request_ok // in Hreq. rw Hreq. by eexists.
Qed.

(** ** Example *)

#[export] Instance zone_type_countable : Countable ZoneRecordType.
Proof.
  refine (inj_countable' (λ t, match t with A => 0 | Aaaa => 1 | Cname => 2 | Txt => 3 end)
            (λ n, if n =? 0 then A else if n =? 1 then Aaaa else if n =? 2 then Cname else Txt) _). by intros [].
Defined.
#[export] Instance record_type_countable : Countable DnsRecordType.
Proof. refine (inj_countable' (λ t, match t with RecA => true | RecAaaa => false end) (λ b : bool, if b then RecA else RecAaaa) _). by intros []. Defined.
#[export] Instance zone_record_countable : Countable ZoneRecord.
Proof. refine (inj_countable' (λ r, (zr_name r, zr_type r, zr_value r, zr_ttl r)) (λ '(n, t, v, l), mkZoneRecord n t v l) _). by intros []. Defined.
#[export] Instance dns_record_countable : Countable DnsRecord.
Proof. refine (inj_countable' (λ r, (r_name r, r_type r, r_value r)) (λ '(n, t, v), mkDnsRecord n t v) _). by intros []. Defined.
#[export] Instance split_countable : Countable SplitDnsRoute.
Proof. refine (inj_countable' (λ r, (suffix r, resolvers r)) (λ '(n, l), mkSplit n l) _). by intros []. Defined.
#[export] Instance zone_countable : Countable DnsZone.
Proof. refine (inj_countable' (λ z, (z_name z, z_enabled z, z_records z)) (λ '(n, e, l), mkDnsZone n e l) _). by intros []. Defined.
#[export] Instance group_countable : Countable NameserverGroup.
Proof.
  refine (inj_countable' (λ g, (g_name g, g_resolvers g, match_domains g, g_enabled g, all_devices g, tags g))
            (λ '(n, r, m, e, a, t), mkGroup n r m e a t) _). by intros [].
Defined.
#[export] Instance settings_countable : Countable OrgDnsSettings.
Proof.
  refine (inj_countable' (λ s, (managed s, global_resolvers s, split s, search_domains s, records s, nameserver_groups s, zones s))
            (λ '(m, g, r, d, e, n, z), mkSettings m g r d e n z) _). by intros [].
Defined.

Definition demo_to_json (d : OrgDnsSettings) : str := 123 :: text_of d.
Definition demo_from_json (text : str) : option OrgDnsSettings := of_text (drop 1 text).

Lemma demo_json_reads d : demo_from_json (demo_to_json d) = Some d.
Proof. unfold demo_from_json, demo_to_json. cbn [drop]. apply of_text_of. Qed.

Lemma demo_json_visible d : trim (demo_to_json d) ≠ [].
Proof.
  unfold demo_to_json. rw trim_graphic; [done|]. constructor; [unfold graphic; lia|]. eapply Forall_impl; [apply pos_text_chars|]. apply b64_char_graphic.
Qed.

#[local] Opaque demo_to_json demo_from_json.

Definition demo_row : DnsRow := mkDnsRow (demo_to_json default_settings) 0 None 5 [].

Lemma dns_store_refines_witness :
  ∃ row', put_dns ascii_only (λ x, x) (λ _, false) to_ascii_lowercase demo_to_json demo_from_json (λ x, x) demo_row Admin None (Publish (demo_to_json demo_settings)) = Ok row' ∧
    stored ascii_only (λ x, x) (λ _, false) to_ascii_lowercase demo_to_json [default_settings; demo_settings] row'.
Proof.
  assert (parse_settings ascii_only (λ x, x) (λ _, false) to_ascii_lowercase demo_from_json (demo_to_json demo_settings) = Ok demo_settings) as Hparse.
  { apply (read_back ascii_only (λ x, x) (λ _, false) to_ascii_lowercase demo_to_json demo_from_json demo_json_reads demo_json_visible). by vm_compute. }
  assert (stored ascii_only (λ x, x) (λ _, false) to_ascii_lowercase demo_to_json [default_settings] demo_row) as Hst.
  { constructor; [|exists default_settings; split; reflexivity|reflexivity..]. intros d ->%list_elem_of_singleton. by vm_compute. }
  destruct (dns_store_refines ascii_only (λ x, x) (λ _, false) to_ascii_lowercase _ demo_to_json demo_from_json (λ x, x) demo_json_reads demo_json_visible
    [default_settings] demo_row Hst Admin (Publish (demo_to_json demo_settings))) as (_ & _ & Hsound & Hcomplete).
  { intros text d Heq Hd. assert (Ok (E := DnsError) demo_settings = Ok d) as Hok.
    { etransitivity; [symmetry; exact Hparse|]. rewrite -Hd. f_equal. exact (f_equal (λ r, match r with Publish t => t | _ => [] end) Heq). }
    injection Hok as <-. split_and!.
    - refine (proj1 (Forall_forall (λ d, Dns.labels_are_safe d = true) (names demo_settings)) _). by apply (bool_decide_unpack _); vm_compute.
    - refine (proj1 (Forall_forall (λ d, Dns.labels_are_safe d = true) (search_domains demo_settings)) _). by apply (bool_decide_unpack _); vm_compute.
    - refine (proj1 (Forall_forall (λ z, 46 ∈ z_name z) (zones demo_settings)) _). by apply (bool_decide_unpack _); vm_compute. }
  destruct (Hcomplete demo_settings None eq_refl (or_introl eq_refl) Hparse) as [row' Hrow']. exists row'. split; [exact Hrow'|].
  destruct (Hsound None row' Hrow') as (d & Hd & _ & Hst'). cbn [requested] in Hd. rewrite Hparse in Hd. by injection Hd as <-.
Defined.

End OrgDnsStable.
