(* ===== verification/Topology.v ===== *)
(** * The topology view

    [blaktail-coord/src/topology.rs] with [device_flow] of [policy_explain.rs]: the
    devices of an organisation as the console shows them, and the edges between
    them that policy, approved routes and network resources open.  Change drafts
    compare the edges before and after.

    Explanations in words are left out; states, kinds and bases are constructors. *)

From S2P Require Import Prelude Text Net FlowReport Policy AclFilter CoordAcl CoordForward AppConnectors Resources Posture.

Module Topology.
Import Resources Posture.

Definition TRANSPORT_FRESH_SECS : Z := 10 * 60.
Definition MAX_EDGE_NODES : nat := 400.
Definition TRANSPORTS : list str := [lit "direct"; lit "relay"; lit "mixed"].

(** ** Devices *)

(** A row of [nodes] with the columns this view adds to those of [OrgNode], and the
    facts [load_facts] reads of it. *)
Record DeviceRow := mkDeviceRow {
  d_node : OrgNode;
  d_facts : NodeFacts;
  d_allowed_ips : list str;
  d_transport : option str;
  d_reported_at : option Z
}.

Inductive NodeState := Online | StaleNode | Never | Suspended | ExpiredNode.
#[export] Instance NodeState_eq_dec : EqDecision NodeState.
Proof. solve_decision. Defined.

Record TransportView := mkTransportView { tv_state : str; tv_reported_at : option Z; tv_stale : bool }.

Record NodeView := mkNodeView {
  v_id : Uuid;
  v_label : str;
  v_role : Role;
  v_tags : list DeviceTag;
  v_state : NodeState;
  v_last_seen : option Z;
  v_transport : TransportView;
  v_packet_filter : PacketFilter;
  v_advertised : list str;
  v_approved : list str
}.

(** [in_base]: role, tags and owner of the facts, before posture. *)
Record Inputs := mkInputs {
  in_ctx : PostureContext;
  in_base : gmap Uuid Subject;
  in_nodes : list NodeView
}.

Definition node_state (n : OrgNode) (at_ : Z) : NodeState :=
  if on_suspended n then Suspended
  else if on_expires n <=? at_ then ExpiredNode
  else match on_last_seen n with
       | None => Never
       | Some seen => if at_ - seen <=? Resources.NODE_ONLINE_SECS then Online else StaleNode
       end.

Definition node_view (at_ : Z) (d : DeviceRow) : NodeView :=
  let n := d_node d in
  let transport := t ← d_transport d; if bool_decide (t ∈ TRANSPORTS) then Some t else None in
  mkNodeView (on_id n) (label n) (role (on_subject n)) (s_tags (on_subject n)) (node_state n at_) (on_last_seen n)
    (mkTransportView (default (lit "not_measured") transport) (d_reported_at d)
       (bool_decide (is_Some transport)
        && match d_reported_at d with Some reported => TRANSPORT_FRESH_SECS <? at_ - reported | None => true end))
    (enforcement_profile (nf_os (d_facts d)) (on_capabilities n)).1
    (on_advertised n) (on_approved n).

(** The rows are in the order of the query, by name and id. *)
Definition load_inputs (checks : BTree.map_of StoredCheck) (rows : list DeviceRow) (at_ : Z) : Inputs :=
  let rows := List.filter (λ d, active (d_node d)) rows in
  mkInputs (mkPostureContext checks (list_to_map (map (λ d, (on_id (d_node d), d_facts d)) rows)) at_)
    (list_to_map (map (λ d, (on_id (d_node d), on_subject (d_node d))) rows))
    (map (node_view at_) rows).

Definition in_peer_maps (v : NodeView) : bool := match v_state v with Suspended | ExpiredNode => false | _ => true end.

Inductive Path := Direct | Relayed | Mixed | UnknownPath | PeerOffline.

Definition fresh_transport (v : NodeView) : str :=
  if tv_stale (v_transport v) then lit "not_measured" else tv_state (v_transport v).

Definition path_between (a b : NodeView) : Path :=
  if negb (bool_decide (v_state a = Online)) || negb (bool_decide (v_state b = Online)) then PeerOffline
  else
    let either kind := seq_b (fresh_transport a) kind || seq_b (fresh_transport b) kind in
    if either "relay" then Relayed
    else if either "mixed" then Mixed
    else if seq_b (fresh_transport a) "direct" && seq_b (fresh_transport b) "direct" then Direct
    else UnknownPath.

Definition device_subject (inputs : Inputs) (id : Uuid) : option Subject :=
  base ← in_base inputs !! id; Some (Posture.apply (in_ctx inputs) id base).

(** [subjects]: what the peer-map compiler uses for each device that takes part. *)
Definition subject_of (inputs : Inputs) (v : NodeView) : option (Subject * NodeFacts) :=
  if in_peer_maps v then
    facts ← facts_of (in_ctx inputs) !! v_id v; s ← device_subject inputs (v_id v); Some (s, facts)
  else None.

(** ** One flow between two devices *)

Inductive Basis :=
| ByRule | ByDenyRule | BySameTag | ByDefaultDeny | SshIsClosed | NoPairing | ResourceAccessBasis | RouteApproved.
#[export] Instance Basis_eq_dec : EqDecision Basis.
Proof. solve_decision. Defined.

Inductive EdgeEnforcement := DeviceEnforced | PeerMapOnly | FilterUnknown | NotFiltered | RouteNotFiltered.

Section flow.
Context (acl : Acl) (now : Z) (source destination : Subject) (dest : NodeFacts).
Context (protocol : option AclProtocol) (port : option Z).

Definition flow : DeviceFlow :=
  device_flow acl now source destination (existsb (λ c, bool_decide (c = CAP_SSH_USERS)) (nf_capabilities dest)) protocol port.

Definition matching (rule : AclRule) : bool := rule_matches acl rule source destination port protocol None.

Definition flow_rules : list nat :=
  omap (λ e, if matching e.2 then Some e.1 else None) (zip (seq 0 (length (rules acl))) (rules acl)).

(** The basis computed with the flow, and the one shown. *)
Definition inner_basis : Basis :=
  if existsb (λ r, matching r && bool_decide (action r = Deny)) (rules acl) then ByDenyRule
  else if existsb (λ r, matching r && bool_decide (action r = Allow)) (rules acl) then ByRule
  else if df_policy_allows flow then BySameTag
  else if ssh_governed acl source destination && bool_decide (port = Some 22) then SshIsClosed
  else ByDefaultDeny.

Definition basis : Basis := if negb (df_paired flow) && df_policy_allows flow then NoPairing else inner_basis.

Definition enforcement : EdgeEnforcement :=
  if negb (df_paired flow) then PeerMapOnly
  else match (enforcement_profile (nf_os dest) (nf_capabilities dest)).1 with
       | Enforced => DeviceEnforced
       | UnknownFilter => FilterUnknown
       | NotEnforced => NotFiltered
       end.
End flow.

(** ** Edges *)

Inductive EdgeKind := DeviceEdge | ResourceEdge | RouteEdge | ExitEdge.
#[export] Instance EdgeKind_eq_dec : EqDecision EdgeKind.
Proof. solve_decision. Defined.

Definition kind_str (k : EdgeKind) : str :=
  match k with DeviceEdge => lit "device" | ResourceEdge => lit "resource" | RouteEdge => lit "route" | ExitEdge => lit "exit" end.

(** Where the console changes what opened the edge. *)
Inductive EditTarget := EditPolicy | EditResource (id : Uuid) | EditDevice (id : Uuid).

Record Edge := mkEdge {
  e_kind : EdgeKind;
  e_source : Uuid;
  e_target : option Uuid;
  e_resource : option Uuid;
  e_destination : str;
  e_basis : Basis;
  e_enforcement : EdgeEnforcement;
  e_path : Path;
  e_edit : EditTarget;
  e_rules : list nat
}.

(** [Edge::key]: what is reachable, not how. *)
Definition key (e : Edge) : str :=
  kind_str (e_kind e) ++ [124] ++ e_source e ++ [124] ++ default [] (e_target e) ++ [124] ++ default [] (e_resource e)
  ++ [124] ++ e_destination e.

Section edges.
Context (inputs : Inputs) (acl : Acl) (now : Z) (networks : list ResourceDetail).

Definition taking_part : list NodeView :=
  List.filter (λ v, bool_decide (is_Some (subject_of inputs v))) (in_nodes inputs).
Definition evaluated : list NodeView := take MAX_EDGE_NODES taking_part.

Definition device_edge (source target : NodeView) (s t : Subject) (facts : NodeFacts) : list Edge :=
  if decision (flow acl now s t facts None None) then
    [mkEdge DeviceEdge (v_id source) (Some (v_id target)) None (v_label target) (basis acl now s t facts None None)
       (enforcement acl now s t facts None None) (path_between source target) EditPolicy (flow_rules acl s t None None)]
  else [].

(** Approved device routes ride on the router's peer entry. *)
Definition route_edges (source target : NodeView) (s t : Subject) (facts : NodeFacts) : list Edge :=
  if df_paired (flow acl now s t facts None None) then
    map (λ cidr, mkEdge (if is_default_route cidr then ExitEdge else RouteEdge) (v_id source) (Some (v_id target)) None cidr
                   RouteApproved RouteNotFiltered (path_between source target) (EditDevice (v_id target)) []) (v_approved target)
  else [].

Definition pair_edges (source target : NodeView) : list Edge :=
  if bool_decide (v_id target = v_id source) then []
  else match subject_of inputs source, subject_of inputs target with
       | Some (s, _), Some (t, facts) => device_edge source target s t facts ++ route_edges source target s t facts
       | _, _ => []
       end.

(** [by_id] is a map: of two entries with one id the last one stays. *)
Definition by_id (id : Uuid) : option NodeView := List.find (λ v, bool_decide (v_id v = id)) (rev evaluated).

Definition resource_destination (r : NetworkResource) : str :=
  match nr_cidr r with Some c => c | None => default [] (nr_dns_target r) end.

Definition resource_edge (detail : ResourceDetail) (router source : NodeView) : Edge :=
  let r := rd_resource detail in
  mkEdge ResourceEdge (v_id source) (Some (v_id router)) (Some (nr_id r))
    (nr_name r ++ lit " (" ++ resource_destination r ++ lit ")") ResourceAccessBasis RouteNotFiltered
    (path_between source router) (EditResource (nr_id r)) [].

Definition resource_edges (detail : ResourceDetail) : list Edge :=
  match rd_selected detail ≫= by_id with
  | None => []
  | Some router => omap (λ client, if cd_receives client then resource_edge detail router <$> by_id (cd_node client) else None)
                     (rd_clients detail)
  end.

Definition edges : list Edge * bool :=
  (flat_map (λ source, flat_map (pair_edges source) evaluated) evaluated ++ flat_map resource_edges networks,
   (MAX_EDGE_NODES <? length taking_part)%nat).
End edges.

(** [overview_conn] of [resources.rs], its resources. *)
Definition overview (o : Org) (at_ : Z) : list ResourceDetail :=
  map (λ r, Resources.evaluate r (load_org_nodes o) (org_acl o) (load_leases o at_) at_) (load_resources o).

(** ** Groups *)

Record GroupView := mkGroupView { gv_name : str; gv_members : nat; gv_devices : list Uuid }.

Definition group_views (inputs : Inputs) (acl : Acl) : list GroupView :=
  map (λ e, mkGroupView e.1 (length (List.filter (λ m, negb (length (trim m) =? 0)%nat) e.2))
              (map v_id (List.filter (λ v, match subject_of inputs v with Some (s, _) => subject_in_group s e.2 | None => false end)
                           (in_nodes inputs)))) (groups acl).

End Topology.
