(* ===== verification/Json.v ===== *)
(** * JSON values

    [serde_json::Value] as the coordinator uses it where it looks into documents
    without decoding them: a number is its text, an object the list of its fields in
    the order of their keys (the map of [serde_json] is a [BTreeMap]).  Reading and
    printing JSON text, and the decoding of structs, are parameters of the
    definitions that need them. *)

From S2P Require Import Prelude Text.

Inductive Value :=
| JNull
| JBool (b : bool)
| JNumber (text : str)
| JString (s : str)
| JArray (items : list Value)
| JObject (fields : list (str * Value)).

#[export] Instance Value_eq_dec : EqDecision Value.
Proof.
  refine (fix go (a b : Value) : Decision (a = b) :=
    match a, b with
    | JNull, JNull => left eq_refl
    | JBool x, JBool y => cast_if (decide (x = y))
    | JNumber x, JNumber y => cast_if (decide (x = y))
    | JString x, JString y => cast_if (decide (x = y))
    | JArray x, JArray y => cast_if (@list_eq_dec _ go x y)
    | JObject x, JObject y => cast_if (@list_eq_dec _ (@prod_eq_dec _ _ _ go) x y)
    | _, _ => right _
    end); clear go; abstract congruence.
Defined.

(** [value.as_object()], [value[key]] and [value.as_array()]. *)
Definition field (key : str) (fields : list (str * Value)) : option Value :=
  snd <$> List.find (λ f, bool_decide (f.1 = key)) fields.

Definition index (v : Value) (key : str) : Value :=
  match v with JObject fields => default JNull (field key fields) | _ => JNull end.

Definition is_object (v : Value) : bool := match v with JObject _ => true | _ => false end.

Definition as_array (v : Value) : option (list Value) := match v with JArray items => Some items | _ => None end.

Definition as_string (v : Value) : option str := match v with JString s => Some s | _ => None end.

(** [object.remove(key)] *)
Definition remove (key : str) (fields : list (str * Value)) : list (str * Value) :=
  List.filter (λ f, negb (bool_decide (f.1 = key))) fields.
