(* ===== verification/ChangeDrafts.v ===== *)
(** * Change drafts

    [blaktail-coord/src/change_drafts.rs]: proposed policy, DNS and resource
    documents with the live entity tags they are based on; creation, editing, rebase,
    preview, publication and discarding, with the policy writer of [lib.rs], the
    reader of draft items of [resources.rs] and the route warnings of
    [dns_workspace.rs].

    The tables are those of one organisation.  A handler that reads before its
    transaction takes the tables of each of its reads, so that other writers may act
    in between.  JSON columns are their values; JSON text, the decoding of structs,
    IDNA and SHA-256 are the class [Codecs]. *)

From S2P Require Import Prelude Text Net FlowReport Policy Ipam AclFilter CoordAcl CoordForward CoordRules AppConnectors Resources Posture OrgDns Topology Json.

Module ChangeDrafts.
Import Resources OrgDns Topology.

Definition DRAFT_TTL_SECS : Z := 7 * 24 * 60 * 60.
Definition MAX_PAYLOAD_BYTES : Z := 256 * 1024.
Definition MAX_OPEN_DRAFTS : Z := 50.
Definition MAX_PAIRS : nat := 20.
Definition SECRET_KEYS : list str :=
  [lit "secret"; lit "password"; lit "token"; lit "private_key"; lit "api_key"; lit "preshared"].

(** ** Data *)

Inductive Surface := OnPolicy | OnDns | OnResources.
#[export] Instance Surface_eq_dec : EqDecision Surface.
Proof. solve_decision. Defined.

Definition permission (s : Surface) : Permission :=
  match s with OnPolicy => ManagePolicy | OnDns => ManageDns | OnResources => ManageNetworks end.

Record Payload := mkPayload { p_policy : option Value; p_dns : option Value; p_resources : option (list Value) }.

Definition surfaces (p : Payload) : list Surface :=
  (if p_policy p then [OnPolicy] else []) ++ (if p_dns p then [OnDns] else []) ++ (if p_resources p then [OnResources] else []).

Record Base := mkBase {
  policy_etag : option str;
  policy_revision : option Z;
  dns_etag : option str;
  dns_base_revision : option Z;
  resources_etag : option str
}.
Definition no_base : Base := mkBase None None None None None.

Record RevisionChange := mkRevisionChange { before_revision : Z; after_revision : Z; changed : bool }.

Inductive ChangeOp := OpDelete | OpUpdate | OpCreate.

(** The items are the bodies [draft_item] makes of the rows. *)
Record ResourceChange := mkResourceChange {
  rc_op : ChangeOp;
  rc_id : Uuid;
  rc_name : str;
  rc_before : option ResourceInput;
  rc_after : option ResourceInput
}.

Record Applied := mkApplied {
  ap_policy : option RevisionChange;
  ap_dns : option RevisionChange;
  ap_resources : list ResourceChange;
  ap_control_revision : Z;
  ap_dns_settings : option OrgDnsSettings;
  ap_acl : option Acl
}.

Inductive RiskCode :=
| DenyRemoved | DefaultWidened | ResourceDeleted | DefaultRouteExposure | NestedOverlap | AccessWidened | AccessRemoved | DnsConflict.
#[export] Instance RiskCode_eq_dec : EqDecision RiskCode.
Proof. solve_decision. Defined.

Definition code_str (c : RiskCode) : str :=
  match c with
  | DenyRemoved => lit "deny_removed"
  | DefaultWidened => lit "default_widened"
  | ResourceDeleted => lit "resource_deleted"
  | DefaultRouteExposure => lit "default_route_exposure"
  | NestedOverlap => lit "route_overlap"
  | AccessWidened => lit "access_widened"
  | AccessRemoved => lit "access_removed"
  | DnsConflict => lit "dns_conflict"
  end.

Inductive DraftStatus := Open | Published | Discarded | Expired.
#[export] Instance DraftStatus_eq_dec : EqDecision DraftStatus.
Proof. solve_decision. Defined.

Record DraftResult := mkDraftResult { published_at : Z; dr_applied : Applied; confirmed : list RiskCode }.

(** A row of [change_drafts]. *)
Record Draft := mkDraft {
  d_id : Uuid;
  d_title : str;
  d_status : DraftStatus;
  d_version : Z;
  d_payload : Payload;
  d_base : Base;
  d_created_by : str;
  d_created_by_name : str;
  d_updated_by : str;
  d_created_at : Z;
  d_updated_at : Z;
  d_expires_at : Z;
  d_closed_at : option Z;
  d_closed_by : option str;
  d_result : option DraftResult
}.

Record AclRow := mkAclRow { acl_json : str; acl_revision : Z; acl_previous : option str }.

(** The tables of the organisation; [t_dns] holds the DNS columns of its row and the
    control revision. *)
Record Tables := mkTables {
  t_org : str;
  t_acl : AclRow;
  t_dns : DnsRow;
  t_nodes : list DeviceRow;
  t_checks : BTree.map_of Posture.StoredCheck;
  t_resources : list NetworkResource;
  t_leases : list LeaseRow;
  t_reports : list ReportRow;
  t_drafts : list Draft
}.

Definition set_acl (t : Tables) (a : AclRow) : Tables :=
  mkTables (t_org t) a (t_dns t) (t_nodes t) (t_checks t) (t_resources t) (t_leases t) (t_reports t) (t_drafts t).
Definition set_dns (t : Tables) (d : DnsRow) : Tables :=
  mkTables (t_org t) (t_acl t) d (t_nodes t) (t_checks t) (t_resources t) (t_leases t) (t_reports t) (t_drafts t).
Definition set_rows (t : Tables) (rs : list NetworkResource) : Tables :=
  mkTables (t_org t) (t_acl t) (t_dns t) (t_nodes t) (t_checks t) rs (t_leases t) (t_reports t) (t_drafts t).
Definition set_drafts (t : Tables) (ds : list Draft) : Tables :=
  mkTables (t_org t) (t_acl t) (t_dns t) (t_nodes t) (t_checks t) (t_resources t) (t_leases t) (t_reports t) ds.

(** The tables as [resources.rs] sees them. *)
Definition org_of (t : Tables) (acl : Acl) : Org :=
  mkOrg (t_org t) acl (map d_node (t_nodes t)) (t_resources t) (t_leases t) (t_reports t) (control_revision (t_dns t)).

Definition bump_control_revision (t : Tables) : Tables :=
  let d := t_dns t in
  set_dns t (mkDnsRow (dns_json d) (dns_revision d) (dns_previous_json d) (control_revision d + 1) (revisions d)).

Record User := mkUser { u_session : Session; u_name : str; u_email : str }.

Inductive ChangeError :=
| NoSuchDraft | NotAllowed | DraftClosed (s : DraftStatus) | StaleVersion | CorruptData
| LooksSecret (path : list str) | NoSurface | NotAnObject | TooLarge | BadTitle | TooManyDrafts | DuplicateId
| RebaseRequired (stale : list Surface) | InvalidDraft (errors : list ChangeError) | ConfirmRisks (codes : list RiskCode)
| InvalidAcl | PolicyError (e : AclError) | ResourcesError (e : ResourceError) | DnsDocumentError (e : DnsError)
| ItemNotObject (index : nat) | ItemBadId (index : nat) | ItemReserved (index : nat) | ItemUnknown (index : nat) (id : Uuid)
| ItemTwice (id : Uuid) | ItemInvalid (index : nat)
| TooManyPairs | BadPair | NoSuchDevice.

(** ** Drafts as they are shown *)

Definition may_manage (who : User) (l : list Surface) : bool :=
  forallb (λ s, can (ss_role (u_session who)) (permission s)) l.

Definition require_surfaces (who : User) (l : list Surface) : result ChangeError unit :=
  try_each (λ s, map_err (λ _, NotAllowed) (require (ss_role (u_session who)) (permission s))) l.

Record DraftView := mkDraftView {
  dv_draft : Draft;
  dv_surfaces : list Surface;
  dv_payload : option Payload;
  dv_result : option DraftResult;
  dv_can_edit : bool
}.

(** [dv_draft] stands for the columns shown to everybody: all but payload and result. *)
Definition view (draft : Draft) (who : User) : DraftView :=
  let full := may_manage who (surfaces (d_payload draft)) in
  mkDraftView draft (surfaces (d_payload draft)) (if full then Some (d_payload draft) else None)
    (if full then d_result draft else None) (full && bool_decide (d_status draft = Open)).

Definition expire (at_ : Z) (d : Draft) : Draft :=
  if bool_decide (d_status d = Open) && (d_expires_at d <=? at_)
  then mkDraft (d_id d) (d_title d) Expired (d_version d) (d_payload d) (d_base d) (d_created_by d) (d_created_by_name d)
         (d_updated_by d) (d_created_at d) (d_updated_at d) (d_expires_at d) (Some at_) (d_closed_by d) (d_result d)
  else d.

Definition expire_drafts (t : Tables) (at_ : Z) : Tables := set_drafts t (map (expire at_) (t_drafts t)).

Definition find_draft (t : Tables) (id : Uuid) : option Draft := List.find (λ d, bool_decide (d_id d = id)) (t_drafts t).

Definition load_draft (t : Tables) (id : Uuid) (at_ : Z) : result ChangeError Draft :=
  ok_or (find_draft (expire_drafts t at_) id) NoSuchDraft.

Definition ensure_open (d : Draft) : result ChangeError unit :=
  reject_if (negb (bool_decide (d_status d = Open))) (DraftClosed (d_status d)).

Definition ensure_version (d : Draft) (version : Z) : result ChangeError unit :=
  reject_if (negb (d_version d =? version)) StaleVersion.

(** [ORDER BY updated_at DESC,id LIMIT 100] *)
Definition draft_le (a b : Draft) : bool :=
  (d_updated_at b <? d_updated_at a) || ((d_updated_at a =? d_updated_at b) && text_le (d_id a) (d_id b)).

Definition list_drafts (t : Tables) (who : User) (at_ : Z) : result ChangeError (list DraftView) :=
  let? _ := map_err (λ _, NotAllowed) (require (ss_role (u_session who)) ViewNetwork) in
  Ok (map (λ d, let v := view d who in mkDraftView (dv_draft v) (dv_surfaces v) None (dv_result v) (dv_can_edit v))
        (take 100 (sort_by draft_le (t_drafts (expire_drafts t at_))))).

Definition get_one (t : Tables) (who : User) (id : Uuid) (at_ : Z) : result ChangeError DraftView :=
  let? _ := map_err (λ _, NotAllowed) (require (ss_role (u_session who)) ViewNetwork) in
  let? draft := load_draft t id at_ in
  Ok (view draft who).

(** ** What a payload may hold *)

Definition secret_key (key : str) : bool := existsb (λ word, contains_str word (to_ascii_lowercase key)) SECRET_KEYS.

(** The path is that of the error; the members of an array are numbered. *)
Fixpoint reject_secrets (value : Value) (path : list str) : result ChangeError unit :=
  match value with
  | JObject fields =>
      (fix go (l : list (str * Value)) : result ChangeError unit :=
         match l with
         | [] => Ok tt
         | (key, child) :: l =>
             let? _ := reject_if (secret_key key) (LooksSecret (path ++ [key])) in
             let? _ := reject_secrets child (path ++ [key]) in
             go l
         end) fields
  | JArray items =>
      (fix go (l : list Value) (n : Z) : result ChangeError unit :=
         match l with
         | [] => Ok tt
         | child :: l => let? _ := reject_secrets child (path ++ [dec n]) in go l (n + 1)
         end) items 0
  | _ => Ok tt
  end.

Definition payload_value (p : Payload) : Value :=
  JObject ((match p_dns p with Some v => [(lit "dns", v)] | None => [] end)
           ++ (match p_policy p with Some v => [(lit "policy", v)] | None => [] end)
           ++ (match p_resources p with Some l => [(lit "resources", JArray l)] | None => [] end)).

Definition normalise_title (title : str) : result ChangeError str :=
  let title := trim title in
  if (length title =? 0)%nat || (120 <? length (chars title))%nat || existsb is_control (chars title) then Err BadTitle
  else Ok title.

(** ** Code outside the repository *)

(** [serde_json] (text to value and back, and the structs the documents are read
    into), [uuid], [idna], the Unicode tables of [str], and SHA-256. *)
Class Codecs := {
  sha256 : bytes → bytes;
  domain_to_ascii : str → option str;
  domain_to_unicode : str → str;
  is_alphabetic : str → bool;
  to_lowercase : str → str;
  parse_json : str → option Value;
  print_json : Value → str;
  acl_of_value : Value → option Acl;
  acl_from_str : str → option Acl;
  input_of_value : Value → option ResourceInput;
  item_value : NetworkResource → Value;
  parse_uuid : str → option Uuid;
  dns_value : OrgDnsSettings → Value;
  dns_to_json : OrgDnsSettings → str;
  dns_from_json : str → option OrgDnsSettings
}.

Section drafts.
Context `{Codecs}.

Definition hash (text : str) : str := Resources.hash sha256 text.
#[local] Abbreviation parse_settings := (OrgDns.parse_settings domain_to_ascii domain_to_unicode is_alphabetic to_lowercase dns_from_json).
#[local] Abbreviation org_dns_from_row :=
  (OrgDns.org_dns_from_row domain_to_ascii domain_to_unicode is_alphabetic to_lowercase dns_from_json hash).

Definition check_payload (p : Payload) : result ChangeError unit :=
  let? _ := reject_if (length (surfaces p) =? 0)%nat NoSurface in
  let? _ := reject_if (match p_policy p with Some v => negb (is_object v) | None => false end
                       || match p_dns p with Some v => negb (is_object v) | None => false end) NotAnObject in
  let? _ := reject_if (MAX_PAYLOAD_BYTES <? Z.of_nat (length (print_json (payload_value p)))) TooLarge in
  reject_secrets (payload_value p) [lit "payload"].

(** ** The live documents *)

Record Live := mkLive {
  lv_policy : Value;
  lv_policy_etag : str;
  lv_policy_revision : Z;
  lv_dns : Value;
  lv_dns_etag : str;
  lv_dns_revision : Z;
  lv_resources : list Value;
  lv_resources_etag : str
}.

(** [set_etag] and [draft_item] of [load_resources], as [draft_snapshot] makes them. *)
Definition draft_snapshot (t : Tables) : list Value * str :=
  let resources := sort_by resource_le (t_resources t) in
  (map item_value resources, Resources.set_etag sha256 resources).

Definition live_tx (t : Tables) : result ChangeError Live :=
  let acl := t_acl t in
  let dns := org_dns_from_row (t_dns t) in
  let '(items, tag) := draft_snapshot t in
  let? policy := ok_or (parse_json (acl_json acl)) CorruptData in
  Ok (mkLive policy (hash (acl_json acl)) (acl_revision acl) (dns_value (rs_dns dns)) (rs_etag dns) (rs_revision dns) items tag).

Definition capture_base (live : Live) (b : Base) (s : Surface) : Base :=
  match s with
  | OnPolicy => mkBase (Some (lv_policy_etag live)) (Some (lv_policy_revision live)) (dns_etag b) (dns_base_revision b) (resources_etag b)
  | OnDns => mkBase (policy_etag b) (policy_revision b) (Some (lv_dns_etag live)) (Some (lv_dns_revision live)) (resources_etag b)
  | OnResources => mkBase (policy_etag b) (policy_revision b) (dns_etag b) (dns_base_revision b) (Some (lv_resources_etag live))
  end.

Definition stale (b : Base) (live : Live) (s : Surface) : bool :=
  match s with
  | OnPolicy => negb (bool_decide (policy_etag b = Some (lv_policy_etag live)))
  | OnDns => negb (bool_decide (dns_etag b = Some (lv_dns_etag live)))
  | OnResources => negb (bool_decide (resources_etag b = Some (lv_resources_etag live)))
  end.

Definition stale_surfaces (d : Draft) (live : Live) : list Surface :=
  List.filter (stale (d_base d) live) (surfaces (d_payload d)).

(** ** Applying a draft *)

Definition storeable_acl_json (value : Value) (at_ : Z) : result ChangeError str :=
  let value := match value with
               | JObject fields =>
                   JObject (remove (lit "has_previous") (remove (lit "revision") (remove (lit "etag") (remove (lit "generated") fields))))
               | v => v
               end in
  let? acl := ok_or (acl_of_value value) InvalidAcl in
  let? _ := map_err PolicyError (validate acl at_) in
  Ok (print_json value).

(** Compare-and-swap on the revision the caller read. *)
Definition publish_acl_tx (t : Tables) (current next : str) (revision : Z) : result ChangeError Tables :=
  if acl_revision (t_acl t) =? revision then Ok (set_acl t (mkAclRow next (revision + 1) (Some current)))
  else Err StaleVersion.

Definition b2z (b : bool) : Z := if b then 1 else 0.

Definition apply_policy (t : Tables) (policy : option Value) (at_ : Z) :
    result ChangeError (Tables * option RevisionChange * option Acl) :=
  match policy with
  | None => Ok (t, None, None)
  | Some policy =>
      let current := t_acl t in
      let? next := storeable_acl_json policy at_ in
      let changed := negb (bool_decide (next = acl_json current)) in
      let? t := if changed then publish_acl_tx t (acl_json current) next (acl_revision current) else Ok t in
      let? acl := ok_or (acl_from_str next) CorruptData in
      Ok (t, Some (mkRevisionChange (acl_revision current) (acl_revision current + b2z changed) changed), Some acl)
  end.

Definition read_id (index : nat) (fields : list (str * Value)) : result ChangeError (option Uuid) :=
  match field (lit "id") fields with
  | None | Some JNull => Ok None
  | Some v => let? id := ok_or (as_string v ≫= parse_uuid) (ItemBadId index) in Ok (Some id)
  end.

(** The loop of [apply_draft_tx] that reads the items; [before] are the ids read. *)
Fixpoint read_items (live : list NetworkResource) (before : list Uuid) (index : nat) (items : list Value) :
    result ChangeError (list (option Uuid * ResourceInput)) :=
  match items with
  | [] => Ok []
  | item :: items =>
      let? fields := match item with JObject fields => Ok fields | _ => Err (ItemNotObject index) end in
      let? id := read_id index fields in
      let fields := remove (lit "id") fields in
      let? _ := reject_if (bool_decide (is_Some (field (lit "etag") fields)) || bool_decide (is_Some (field (lit "dry_run") fields)))
                  (ItemReserved index) in
      let? _ := match id with
                | None => Ok tt
                | Some id =>
                    let? _ := reject_if (negb (existsb (λ r, bool_decide (nr_id r = id)) live)) (ItemUnknown index id) in
                    reject_if (bool_decide (id ∈ before)) (ItemTwice id)
                end in
      let? input := ok_or (input_of_value (JObject fields)) (ItemInvalid index) in
      let? rest := read_items live (match id with Some id => id :: before | None => before end) (S index) items in
      Ok ((id, input) :: rest)
  end.

(** The changes, with the rows as the transaction leaves them (each is written once);
    [after] are the rows at the end. *)
Definition row_of (rows : list NetworkResource) (id : Uuid) : option NetworkResource :=
  List.find (λ r, bool_decide (nr_id r = id)) rows.

Definition delete_changes (live : list NetworkResource) (keep : list Uuid) : list ResourceChange :=
  map (λ r, mkResourceChange OpDelete (nr_id r) (nr_name r) (Some (draft_item r)) None)
    (List.filter (λ r, negb (bool_decide (nr_id r ∈ keep))) live).

Definition update_change (live after : list NetworkResource) (w : option Uuid * ResourceInput) : option ResourceChange :=
  id ← w.1; current ← row_of live id; updated ← row_of after id;
  if bool_decide (comparable (draft_item current) = comparable w.2) then None
  else Some (mkResourceChange OpUpdate id (nr_name updated) (Some (draft_item current)) (Some (draft_item updated))).

Fixpoint create_changes (after : list NetworkResource) (ids : nat → Uuid) (wanted : list (option Uuid * ResourceInput)) :
    list ResourceChange :=
  match wanted with
  | [] => []
  | (Some _, _) :: rest => create_changes after ids rest
  | (None, _) :: rest =>
      match row_of after (ids 0%nat) with
      | Some r => [mkResourceChange OpCreate (nr_id r) (nr_name r) None (Some (draft_item r))]
      | None => []
      end ++ create_changes after (λ n, ids (S n)) rest
  end.

Definition resource_changes (live after : list NetworkResource) (ids : nat → Uuid) (wanted : list (option Uuid * ResourceInput)) :
    list ResourceChange :=
  delete_changes live (wanted_ids wanted) ++ omap (update_change live after) wanted ++ create_changes after ids wanted.

(** The policy in force is the one the transaction has written. *)
Definition apply_resources (t : Tables) (session : Session) (items : option (list Value)) (ids : nat → Uuid) (at_ : Z) :
    result ChangeError (Tables * list ResourceChange) :=
  match items with
  | None => Ok (t, [])
  | Some items =>
      let? acl := ok_or (acl_from_str (acl_json (t_acl t))) CorruptData in
      let o := org_of t acl in
      let live := load_resources o in
      let? wanted := read_items live [] 0 items in
      let? o' := map_err ResourcesError (apply_draft_tx sha256 o session wanted ids at_) in
      Ok (set_rows t (org_resources o'), resource_changes live (org_resources o') ids wanted)
  end.

Definition apply_dns (t : Tables) (dns : option Value) :
    result ChangeError (Tables * option RevisionChange * option OrgDnsSettings) :=
  match dns with
  | None => Ok (t, None, None)
  | Some dns =>
      let current := org_dns_from_row (t_dns t) in
      let? next := map_err DnsDocumentError (parse_settings (print_json dns)) in
      let changed := negb (bool_decide (dns_value next = dns_value (rs_dns current))) in
      let t := if changed then set_dns t (write_org_dns_tx dns_to_json (t_dns t) current next) else t in
      Ok (t, Some (mkRevisionChange (rs_revision current) (rs_revision current + b2z changed) changed), Some next)
  end.

Definition check_base (t : Tables) (d : Draft) : result ChangeError unit :=
  let? live := live_tx t in
  match stale_surfaces d live with [] => Ok tt | stale => Err (RebaseRequired stale) end.

(** The transaction of preview and publication; [ids] are the ids [Uuid::new_v4]
    gives to created resources. *)
Definition apply_tx (t : Tables) (who : User) (d : Draft) (enforce_base : bool) (ids : nat → Uuid) (at_ : Z) :
    result ChangeError (Tables * Applied) :=
  let t := bump_control_revision t in
  let control := control_revision (t_dns t) in
  let? _ := if enforce_base then check_base t d else Ok tt in
  let? (t, policy, acl) := apply_policy t (p_policy (d_payload d)) at_ in
  let? (t, resources) := apply_resources t (u_session who) (p_resources (d_payload d)) ids at_ in
  let? (t, dns, settings) := apply_dns t (p_dns (d_payload d)) in
  Ok (t, mkApplied policy dns resources control settings acl).

(** ** Route warnings *)

Inductive Warning :=
| Advisory (w : DnsWarning)
| ResolverUnrouted (resolver : str)
| RecordUnrouted (name value : str).

Definition is_private (address : IpAddr) : bool :=
  match address with V4 b => is_private_v4 b | V6 b => Z.land (b / 2 ^ 112) 0xfe00 =? 0xfc00 end.

Definition parse_prefix (value : str) : option (IpAddr * Z) :=
  '(address, len) ← split_once 47 value; a ← parse_ip address; n ← parse_u8 len; Some (a, n).

(** [checked_shl] by the whole width gives no mask, so every address is inside. *)
Definition prefix_contains (network : IpAddr) (len : Z) (address : IpAddr) : bool :=
  let inside width n a :=
    let mask := Z.land (2 ^ width - 1) (Z.shiftl (2 ^ width - 1) (width - len)) in
    (len <=? width) && (Z.land n mask =? Z.land a mask) in
  match network, address with
  | V4 n, V4 a => inside 32 n a
  | V6 n, V6 a => inside 128 n a
  | _, _ => false
  end.

Definition route_warnings (t : Tables) (dns : OrgDnsSettings) : list Warning :=
  let rows := List.filter (λ d, active (d_node d)) (t_nodes t) in
  let prefixes := omap parse_prefix (flat_map (λ d, d_allowed_ips d ++ on_approved (d_node d)) rows) in
  let unreached value := match parse_ip value with
                         | Some a => is_private a && negb (existsb (λ p, prefix_contains p.1 p.2 a) prefixes)
                         | None => false
                         end in
  let address r := match zr_type r with A | Aaaa => true | Cname | Txt => false end in
  map ResolverUnrouted (List.filter unreached (used_resolvers dns))
  ++ map (λ e, RecordUnrouted e.1 e.2)
       (List.filter (λ e, unreached e.2)
          (map (λ r, (r_name r, r_value r)) (records dns)
           ++ flat_map (λ z, map (λ r, (zr_name r, zr_value r)) (List.filter address (z_records z)))
                (List.filter z_enabled (zones dns)))).

(** ** Risks *)

Inductive Severity := High | Caution.

Record RiskFlag := mkRiskFlag { rf_code : RiskCode; rf_severity : Severity }.

Definition deny_rules (policy : Value) : list Value :=
  flat_map (λ section, List.filter (λ rule, bool_decide (index rule (lit "action") = JString (lit "deny")))
                         (default [] (as_array (index policy section)))) [lit "rules"; lit "ssh"].

Definition same_tag (policy : Value) : bool := bool_decide (index policy (lit "defaults") = JString (lit "same_tag")).

Definition policy_risks (live policy : Value) : list RiskFlag :=
  let after := deny_rules policy in
  (if existsb (λ rule, negb (bool_decide (rule ∈ after))) (deny_rules live) then [mkRiskFlag DenyRemoved High] else [])
  ++ (if negb (same_tag live) && same_tag policy then [mkRiskFlag DefaultWidened High] else []).

Definition offers_default (i : ResourceInput) : bool :=
  match in_cidr i with Some c => is_default_route c | None => false end && in_enabled i.

Definition resource_risks (c : ResourceChange) : list RiskFlag :=
  match rc_after c with
  | None => [mkRiskFlag ResourceDeleted Caution]
  | Some after =>
      (if offers_default after
          && match rc_before c with
             | None => true
             | Some before => negb (offers_default before) || negb (bool_decide (in_access before = in_access after))
             end
       then [mkRiskFlag DefaultRouteExposure High] else [])
      ++ (if in_allow_nested after
             && match rc_before c with
                | None => true
                | Some before => negb (in_allow_nested before) || negb (bool_decide (in_cidr before = in_cidr after))
                end
          then [mkRiskFlag NestedOverlap Caution] else [])
  end.

(** The first flag of each code stays. *)
Fixpoint first_of_code (seen : list RiskCode) (flags : list RiskFlag) : list RiskFlag :=
  match flags with
  | [] => []
  | f :: flags =>
      if bool_decide (rf_code f ∈ seen) then first_of_code seen flags else f :: first_of_code (rf_code f :: seen) flags
  end.

Definition risks (live : Live) (d : Draft) (applied : Applied) (added removed : list Edge) (warnings : list Warning) : list RiskFlag :=
  first_of_code []
    (match p_policy (d_payload d) with Some policy => policy_risks (lv_policy live) policy | None => [] end
     ++ flat_map resource_risks (ap_resources applied)
     ++ (if existsb (λ e, bool_decide (e_kind e = ExitEdge)) added then [mkRiskFlag DefaultRouteExposure High] else [])
     ++ (if (length added =? 0)%nat then [] else [mkRiskFlag AccessWidened High])
     ++ (if (length removed =? 0)%nat then [] else [mkRiskFlag AccessRemoved Caution])
     ++ (if bool_decide (is_Some (p_dns (d_payload d))) && negb (length warnings =? 0)%nat then [mkRiskFlag DnsConflict Caution] else [])).

(** ** Preview *)

Record PairRequest := mkPairRequest {
  pr_source : Uuid;
  pr_destination : Uuid;
  pr_protocol : option AclProtocol;
  pr_port : option Z
}.

Record Verdict := mkVerdict { vd_allow : bool; vd_basis : Basis; vd_enforcement : EdgeEnforcement }.

Record PairResult := mkPairResult { pair : PairRequest; pair_before : Verdict; pair_after : option Verdict; pair_changed : bool }.

Record Preview := mkPreview {
  pv_version : Z;
  pv_valid : bool;
  pv_errors : list ChangeError;
  pv_stale : list Surface;
  pv_policy : option (Value * Value);
  pv_dns : option (Value * Value);
  pv_resources : list ResourceChange;
  pv_added : list Edge;
  pv_removed : list Edge;
  pv_truncated : bool;
  pv_pairs : list PairResult;
  pv_risks : list RiskFlag;
  pv_warnings : list Warning
}.

Definition pair_verdict (inputs : Inputs) (acl : Acl) (at_ : Z) (p : PairRequest) : result ChangeError Verdict :=
  let facts id := ok_or (Posture.facts_of (in_ctx inputs) !! id) NoSuchDevice in
  let subject id := ok_or (device_subject inputs id) NoSuchDevice in
  let? _ := facts (pr_source p) in
  let? dest := facts (pr_destination p) in
  let? s := subject (pr_source p) in
  let? t := subject (pr_destination p) in
  Ok (mkVerdict (decision (flow acl at_ s t dest (pr_protocol p) (pr_port p))) (basis acl at_ s t dest (pr_protocol p) (pr_port p))
        (enforcement acl at_ s t dest (pr_protocol p) (pr_port p))).

Definition edge_delta (before after : list Edge) : list Edge * list Edge :=
  (List.filter (λ e, negb (bool_decide (key e ∈ map key before))) after,
   List.filter (λ e, negb (bool_decide (key e ∈ map key after))) before).

Definition check_pair (p : PairRequest) : result ChangeError unit :=
  reject_if (bool_decide (pr_port p = Some 0) || (bool_decide (pr_protocol p = Some AclIcmp) && bool_decide (is_Some (pr_port p)))) BadPair.

(** The edges a topology shows, and whether some are left out: the devices are read
    from [inputs], the networks from [t]. *)
Definition edges_of (inputs t : Tables) (acl : Acl) (at_ : Z) : result ChangeError (list Edge * bool) :=
  let? in_force := ok_or (acl_from_str (acl_json (t_acl t))) CorruptData in
  Ok (edges (load_inputs (t_checks inputs) (t_nodes inputs) at_) acl at_ (overview (org_of t in_force) at_)).

Definition build (t : Tables) (at_ : Z) : result ChangeError (list Edge * bool) :=
  let? acl := ok_or (acl_from_str (acl_json (t_acl t))) CorruptData in
  edges_of t t acl at_.

Definition after_pair (inputs : Inputs) (acl : Acl) (at_ : Z) (r : PairResult) : result ChangeError PairResult :=
  let? after := pair_verdict inputs acl at_ (pair r) in
  Ok (mkPairResult (pair r) (pair_before r) (Some after)
        (negb (bool_decide (vd_allow after = vd_allow (pair_before r))) || negb (bool_decide (vd_basis after = vd_basis (pair_before r))))).

(** The tables at each read of a preview: the devices, the live documents, the
    networks, the transaction that is rolled back, and the routes for the warnings. *)
Record PreviewReads := mkPreviewReads {
  rd_inputs : Tables;
  rd_live : Tables;
  rd_networks : Tables;
  rd_tx : Tables;
  rd_routes : Tables
}.

Definition compute_preview (rd : PreviewReads) (who : User) (d : Draft) (pairs : list PairRequest) (ids : nat → Uuid) (at_ : Z) :
    result ChangeError Preview :=
  let? _ := reject_if (MAX_PAIRS <? length pairs)%nat TooManyPairs in
  let? _ := try_each check_pair pairs in
  let inputs := load_inputs (t_checks (rd_inputs rd)) (t_nodes (rd_inputs rd)) at_ in
  let? live := live_tx (rd_live rd) in
  let? before_acl := ok_or (acl_of_value (lv_policy live)) CorruptData in
  let? (before_edges, before_truncated) := edges_of (rd_inputs rd) (rd_networks rd) before_acl at_ in
  let? results := try_collect (λ p, let? before := pair_verdict inputs before_acl at_ p in Ok (mkPairResult p before None false)) pairs in
  let stale := stale_surfaces d live in
  let policy := (λ after, (lv_policy live, after)) <$> p_policy (d_payload d) in
  match apply_tx (rd_tx rd) who d false ids at_ with
  | Err error => Ok (mkPreview (d_version d) false [error] stale policy None [] [] [] false results [] [])
  | Ok (t', applied) =>
      let after_acl := default before_acl (ap_acl applied) in
      let? (after_edges, after_truncated) := edges_of (rd_inputs rd) t' after_acl at_ in
      let '(added, removed) := edge_delta before_edges after_edges in
      let? results := try_collect (after_pair inputs after_acl at_) results in
      let dns := (λ s, (lv_dns live, dns_value s)) <$> ap_dns_settings applied in
      let warnings := match ap_dns_settings applied with
                      | Some s => map Advisory (OrgDns.warnings s) ++ route_warnings (rd_routes rd) s
                      | None => []
                      end in
      Ok (mkPreview (d_version d) true [] stale policy dns (ap_resources applied) added removed (before_truncated || after_truncated)
            results (risks live d applied added removed warnings) warnings)
  end.

Definition preview (loaded : Tables) (rd : PreviewReads) (who : User) (id : Uuid) (pairs : list PairRequest) (ids : nat → Uuid) (at_ : Z) :
    result ChangeError Preview :=
  let? draft := load_draft loaded id at_ in
  let? _ := require_surfaces who (surfaces (d_payload draft)) in
  let? _ := ensure_open draft in
  compute_preview rd who draft pairs ids at_.

(** ** Writers *)

(** [UPDATE ... WHERE id AND status='open' AND version], and the number of rows it
    must have changed. *)
Definition commit_row (t : Tables) (id : Uuid) (version : Z) (f : Draft → Draft) : result ChangeError Tables :=
  let hit d := bool_decide (d_id d = id) && bool_decide (d_status d = Open) && (d_version d =? version) in
  if existsb hit (t_drafts t) then Ok (set_drafts t (map (λ d, if hit d then f d else d) (t_drafts t))) else Err StaleVersion.

(** A set of surfaces, in their order. *)
Definition surface_set (l : list Surface) : list Surface :=
  List.filter (λ s, bool_decide (s ∈ l)) [OnPolicy; OnDns; OnResources].

Definition open_drafts (t : Tables) : Z := Z.of_nat (length (List.filter (λ d, bool_decide (d_status d = Open)) (t_drafts t))).

Definition live_payload (live : Live) (l : list Surface) : Payload :=
  mkPayload (if bool_decide (OnPolicy ∈ l) then Some (lv_policy live) else None)
    (if bool_decide (OnDns ∈ l) then Some (lv_dns live) else None)
    (if bool_decide (OnResources ∈ l) then Some (lv_resources live) else None).

(** [counted] are the tables in which the open drafts are counted, [t] those the
    transaction finds; [id] is the id [Uuid::new_v4] gives, the primary key. *)
Definition create_draft (counted t : Tables) (who : User) (title : str) (wanted : list Surface) (id : Uuid) (at_ : Z) :
    result ChangeError Tables :=
  let wanted := surface_set wanted in
  let? _ := reject_if (length wanted =? 0)%nat NoSurface in
  let? _ := require_surfaces who wanted in
  let? title := normalise_title title in
  let? _ := reject_if (MAX_OPEN_DRAFTS <=? open_drafts (expire_drafts counted at_)) TooManyDrafts in
  let? live := live_tx t in
  let payload := live_payload live wanted in
  let? _ := check_payload payload in
  let? _ := reject_if (bool_decide (is_Some (find_draft t id))) DuplicateId in
  let user := ss_user (u_session who) in
  Ok (set_drafts t (t_drafts t ++
        [mkDraft id title Open 1 payload (foldl (capture_base live) no_base wanted) user
           (if (length (u_name who) =? 0)%nat then u_email who else u_name who) user at_ at_ (at_ + DRAFT_TTL_SECS) None None None])).

(** The base of an edited draft: a surface it had keeps its base, a new one takes the
    live one. *)
Definition keep_base (old : Base) (b : Base) (s : Surface) : Base :=
  match s with
  | OnPolicy => mkBase (policy_etag old) (policy_revision old) (dns_etag b) (dns_base_revision b) (resources_etag b)
  | OnDns => mkBase (policy_etag b) (policy_revision b) (dns_etag old) (dns_base_revision old) (resources_etag b)
  | OnResources => mkBase (policy_etag b) (policy_revision b) (dns_etag b) (dns_base_revision b) (resources_etag old)
  end.

Definition edited_base (old : Base) (had : list Surface) (live : option Live) (b : Base) (s : Surface) : Base :=
  if bool_decide (s ∈ had) then keep_base old b s
  else match live with Some live => capture_base live b s | None => b end.

Record UpdateRequest := mkUpdateRequest { ur_version : Z; ur_title : option str; ur_payload : Payload }.

(** [loaded] are the tables the draft is read from, [read] those the live documents
    are read from, [t] those the transaction finds. *)
Definition update_draft (loaded read t : Tables) (who : User) (id : Uuid) (input : UpdateRequest) (at_ : Z) :
    result ChangeError Tables :=
  let? draft := load_draft loaded id at_ in
  let old := surfaces (d_payload draft) in
  let new := surfaces (ur_payload input) in
  let? _ := require_surfaces who (surface_set (old ++ new)) in
  let? _ := ensure_open draft in
  let? _ := ensure_version draft (ur_version input) in
  let? title := match ur_title input with Some title => normalise_title title | None => Ok (d_title draft) end in
  let? _ := check_payload (ur_payload input) in
  let? live := if (length (List.filter (λ s, negb (bool_decide (s ∈ old))) new) =? 0)%nat then Ok None
               else let? live := live_tx read in Ok (Some live) in
  let base := foldl (edited_base (d_base draft) old live) no_base new in
  commit_row t id (ur_version input) (λ d,
    mkDraft (d_id d) title (d_status d) (d_version d + 1) (ur_payload input) base (d_created_by d) (d_created_by_name d)
      (ss_user (u_session who)) (d_created_at d) at_ (d_expires_at d) (d_closed_at d) (d_closed_by d) (d_result d)).

Definition rebase_draft (loaded read t : Tables) (who : User) (id : Uuid) (version at_ : Z) : result ChangeError Tables :=
  let? draft := load_draft loaded id at_ in
  let? _ := require_surfaces who (surfaces (d_payload draft)) in
  let? _ := ensure_open draft in
  let? _ := ensure_version draft version in
  let? live := live_tx read in
  let base := foldl (capture_base live) no_base (surfaces (d_payload draft)) in
  commit_row t id version (λ d,
    mkDraft (d_id d) (d_title d) (d_status d) (d_version d + 1) (d_payload d) base (d_created_by d) (d_created_by_name d)
      (ss_user (u_session who)) (d_created_at d) at_ (d_expires_at d) (d_closed_at d) (d_closed_by d) (d_result d)).

Definition close_draft (who : User) (at_ : Z) (s : DraftStatus) (r : option DraftResult) (d : Draft) : Draft :=
  mkDraft (d_id d) (d_title d) s (d_version d + 1) (d_payload d) (d_base d) (d_created_by d) (d_created_by_name d)
    (ss_user (u_session who)) (d_created_at d) at_ (d_expires_at d) (Some at_) (Some (ss_user (u_session who)))
    (match r with Some r => Some r | None => d_result d end).

Definition discard_draft (loaded t : Tables) (who : User) (id : Uuid) (version at_ : Z) : result ChangeError Tables :=
  let? draft := load_draft loaded id at_ in
  let? _ := require_surfaces who (surfaces (d_payload draft)) in
  let? _ := ensure_open draft in
  let? _ := ensure_version draft version in
  commit_row t id version (close_draft who at_ Discarded None).

(** The draft is read at [loaded], the preview computed at [read] and the transaction
    runs on [t]; [ids1] are the ids of the preview, [ids] those of the publication. *)
Definition publish (loaded : Tables) (read : PreviewReads) (t : Tables) (who : User) (id : Uuid) (version : Z) (confirm : list str) (ids1 ids : nat → Uuid)
    (at0 at_ : Z) : result ChangeError Tables :=
  let? draft := load_draft loaded id at0 in
  let? _ := require_surfaces who (surfaces (d_payload draft)) in
  let? _ := ensure_open draft in
  let? _ := ensure_version draft version in
  let? pv := compute_preview read who draft [] ids1 at0 in
  let? _ := match pv_stale pv with [] => Ok tt | stale => Err (RebaseRequired stale) end in
  let? _ := reject_if (negb (pv_valid pv)) (InvalidDraft (pv_errors pv)) in
  let codes := map rf_code (pv_risks pv) in
  let? _ := match List.filter (λ c, negb (bool_decide (code_str c ∈ confirm))) codes with
            | [] => Ok tt
            | unconfirmed => Err (ConfirmRisks unconfirmed)
            end in
  let? (t', applied) := apply_tx t who draft true ids at_ in
  commit_row t' id version (close_draft who at_ Published (Some (mkDraftResult at_ applied codes))).

End drafts.
End ChangeDrafts.
