(* ===== verification/DraftProps.v ===== *)
(** * Properties of change drafts

    Drafts as a state machine under concurrent requests: the invariant of its rows,
    and what each request does to the row it has read.  A history lists
    the tables of an organisation, the newest first; a handler acts on the newest and
    may have read any of them. *)

From S2P Require Import Prelude Text Net FlowReport Policy Ipam AclFilter ForwardFilter CoordAcl CoordProps CoordForward CoordForwardProps AclProps CoordRules AppConnectors Resources ResourcesProps Routes RoutesProps Posture OrgDns Topology Json ChangeDrafts.

Module DraftProps.
Import Resources ResourcesProps RoutesProps OrgDns Topology ChangeDrafts.

(** ** Histories *)

Section histories.
Context `{Codecs}.

Inductive step (past : list Tables) (t t' : Tables) : Prop :=
| step_expire at_ : t' = expire_drafts t at_ → step past t t'
| step_create counted who title wanted id at_ :
    counted ∈ past → create_draft counted t who title wanted id at_ = Ok t' → step past t t'
| step_update loaded read who id input at_ :
    loaded ∈ past → read ∈ past → update_draft loaded read t who id input at_ = Ok t' → step past t t'
| step_rebase loaded read who id version at_ :
    loaded ∈ past → read ∈ past → rebase_draft loaded read t who id version at_ = Ok t' → step past t t'
| step_discard loaded who id version at_ :
    loaded ∈ past → discard_draft loaded t who id version at_ = Ok t' → step past t t'
| step_publish loaded read who id version confirm ids1 ids at0 at_ :
    loaded ∈ past → [rd_inputs read; rd_live read; rd_networks read; rd_tx read; rd_routes read] ⊆ past →
    publish loaded read t who id version confirm ids1 ids at0 at_ = Ok t' → step past t t'
| step_other : t_drafts t' = t_drafts t → step past t t'.

Inductive history : list Tables → Prop :=
| history_start t : t_drafts t = [] → history [t]
| history_step past t t' : history (t :: past) → step (t :: past) t t' → history (t' :: t :: past).

(** What may become of a row: a closed one stays as it is, and an open one that still
    has its version is the same. *)
Record later (d d' : Draft) : Prop := mkLater {
  later_id : d_id d' = d_id d;
  later_owner : d_created_by d' = d_created_by d;
  later_created : d_created_at d' = d_created_at d;
  later_expires : d_expires_at d' = d_expires_at d;
  later_version : d_version d ≤ d_version d';
  later_closed : d_status d ≠ Open → d' = d;
  later_open : d_status d' = Open → d_version d' = d_version d → d' = d
}.

Lemma later_refl d : later d d.
Proof. by constructor. Qed.

Lemma later_trans a b c : later a b → later b c → later a c.
Proof.
  intros [] []. constructor; try congruence; [lia| |].
  - intros Hs. rewrite -> later_closed0 in later_closed1; auto.
  - intros Ho Hv. assert (d_version b = d_version a) as Hb by lia. assert (c = b) as -> by (apply later_open1; [done|lia]). auto.
Qed.

(** An open row has a payload that passes the checks and a base for every surface. *)
Definition based (b : Base) (s : Surface) : Prop :=
  match s with
  | OnPolicy => is_Some (policy_etag b)
  | OnDns => is_Some (dns_etag b)
  | OnResources => is_Some (resources_etag b)
  end.

Record DraftOk (d : Draft) : Prop := mkDraftOk {
  ok_version : 1 ≤ d_version d;
  ok_expires : d_expires_at d = d_created_at d + DRAFT_TTL_SECS;
  ok_payload : check_payload (d_payload d) = Ok tt;
  ok_base : ∀ s, s ∈ surfaces (d_payload d) → based (d_base d) s;
  ok_closed : d_status d = Open ↔ d_closed_at d = None;
  ok_result : d_status d = Published ↔ is_Some (d_result d)
}.

(** How the rows of one table continue those of an older one. *)
Definition continues (ds ds' : list Draft) : Prop := ∃ old new, ds' = old ++ new ∧ Forall2 later ds old.

Lemma continues_trans a b c : continues a b → continues b c → continues a c.
Proof.
  intros (o1 & n1 & -> & H1) (o2 & n2 & -> & H2). apply Forall2_app_inv_l in H2 as (x & y & Hx & _ & ->).
  exists x, (y ++ n2). split; [by rewrite app_assoc|]. revert x Hx. induction H1 as [|a b la lb Hab _ IH]; intros x Hx.
  - apply Forall2_nil_inv_l in Hx as ->. constructor.
  - apply Forall2_cons_inv_l in Hx as (c & x' & Hc & Hx' & ->). constructor; [by eapply later_trans|by apply IH].
Qed.

Lemma continues_map (f : Draft → Draft) ds : (∀ d, d ∈ ds → later d (f d)) → continues ds (map f ds).
Proof.
  intros Hf. exists (map f ds), []. split; [by rewrite app_nil_r|]. apply Forall2_fmap_r. apply Forall_Forall2_diag.
  by apply Forall_forall.
Qed.

Lemma continues_refl ds : continues ds ds.
Proof. exists ds, []. split; [by rewrite app_nil_r|]. apply Forall_Forall2_diag, Forall_forall. intros d _. apply later_refl. Qed.

Lemma continues_elem ds ds' d : continues ds ds' → d ∈ ds → ∃ d', d' ∈ ds' ∧ later d d'.
Proof.
  intros (old & new & -> & Hf) (i & Hi)%list_elem_of_lookup. eapply Forall2_lookup_l in Hf as (d' & Hd' & Hl); [|exact Hi].
  exists d'. split; [|done]. apply elem_of_app. left. by eapply list_elem_of_lookup_2.
Qed.

(** ** Writers keep rows in order *)

Definition hits (id : Uuid) (version : Z) (d : Draft) : bool :=
  bool_decide (d_id d = id) && bool_decide (d_status d = Open) && (d_version d =? version).

Lemma commit_row_ok t id version f t' :
  commit_row t id version f = Ok t' ↔
  (∃ d, d ∈ t_drafts t ∧ hits id version d = true) ∧ t' = set_drafts t (map (λ d, if hits id version d then f d else d) (t_drafts t)).
Proof.
  unfold commit_row. change (λ d, bool_decide (d_id d = id) && bool_decide (d_status d = Open) && (d_version d =? version)) with (hits id version).
  rewrite -existsb_elem. destruct (existsb _ _); [split; [by intros [= <-]|by intros [_ ->]]|by split; [|intros []]].
Qed.

(** A row that is written moves to its next version, and may be closed. *)
Record moves (d d' : Draft) : Prop := mkMoves {
  moves_id : d_id d' = d_id d;
  moves_owner : d_created_by d' = d_created_by d;
  moves_created : d_created_at d' = d_created_at d;
  moves_expires : d_expires_at d' = d_expires_at d;
  moves_version : d_version d' = d_version d + 1
}.

Lemma moves_later id version d d' : hits id version d = true → moves d d' → later d d'.
Proof. unfold hits. intros Hh []. to_prop. constructor; [done..|lia|congruence|lia]. Qed.

Lemma expire_later at_ d : later d (expire at_ d).
Proof. unfold expire. case_match; to_prop; [|apply later_refl]. constructor; simpl; [done..|congruence|done]. Qed.

Lemma expire_ok at_ d : DraftOk d → DraftOk (expire at_ d).
Proof.
  intros []. unfold expire. case_match; to_prop; [|by constructor]. constructor; simpl; try done.
  destruct ok_result0 as [_ Hr]. split; [done|]. intros Hs%Hr. congruence.
Qed.

Lemma expire_open at_ d : d_status (expire at_ d) = Open → expire at_ d = d.
Proof. unfold expire. by case_match. Qed.

(** The row a request loads, when it is open, is a row of the tables it read. *)
Lemma load_draft_open t id at_ d : load_draft t id at_ = Ok d → d_status d = Open → d ∈ t_drafts t ∧ d_id d = id.
Proof.
  unfold load_draft, find_draft. rewrite ok_or_ok. intros (Hin & Hid)%find_elem Ho. to_prop. simpl in Hin.
  apply list_elem_of_fmap in Hin as (d0 & -> & Hd0). pose proof (expire_open _ _ Ho) as He.
  rewrite He in Hid. by rewrite He.
Qed.

(** ** What applying a draft leaves alone *)

(** Every table but the policy row, the DNS columns and the resources. *)
Record same_rest (t t' : Tables) : Prop := mkSameRest {
  rest_org : t_org t' = t_org t;
  rest_nodes : t_nodes t' = t_nodes t;
  rest_checks : t_checks t' = t_checks t;
  rest_leases : t_leases t' = t_leases t;
  rest_reports : t_reports t' = t_reports t;
  rest_drafts : t_drafts t' = t_drafts t
}.

Lemma same_rest_refl t : same_rest t t.
Proof. done. Qed.

Lemma apply_policy_ok t v at_ t' change acl :
  apply_policy t v at_ = Ok (t', change, acl) →
  match v with
  | None => t' = t ∧ acl = None
  | Some v => ∃ text, storeable_acl_json v at_ = Ok text ∧ acl_from_str text = acl ∧ is_Some acl ∧
      t' = (if bool_decide (text = acl_json (t_acl t)) then t
            else set_acl t (mkAclRow text (acl_revision (t_acl t) + 1) (Some (acl_json (t_acl t)))))
  end.
Proof.
  unfold apply_policy. destruct v as [v|]; [|by intros [= <- <- <-]]. intros Ha. inv_ok. injection Ha as <- <- <-.
  eexists. split_and!; [done|done|done|]. case_bool_decide; simpl in *; [by simplify_eq|].
  rename select (publish_acl_tx _ _ _ _ = _) into Hp. unfold publish_acl_tx in Hp. rewrite Z.eqb_refl in Hp. by simplify_eq.
Qed.

Lemma apply_resources_ok t session items ids at_ t' changes :
  apply_resources t session items ids at_ = Ok (t', changes) →
  match items with
  | None => t' = t ∧ changes = []
  | Some items => ∃ acl wanted o', acl_from_str (acl_json (t_acl t)) = Some acl ∧
      read_items (load_resources (org_of t acl)) [] 0 items = Ok wanted ∧
      apply_draft_tx sha256 (org_of t acl) session wanted ids at_ = Ok o' ∧ t' = set_rows t (org_resources o')
  end.
Proof.
  unfold apply_resources. destruct items as [items|]; [|by intros [= <- <-]]. intros Ha. inv_ok. injection Ha as <- <-. eauto 10.
Qed.

Lemma apply_dns_ok t v t' change settings :
  apply_dns t v = Ok (t', change, settings) →
  match v with
  | None => t' = t ∧ settings = None
  | Some v => ∃ s, OrgDns.parse_settings domain_to_ascii domain_to_unicode is_alphabetic to_lowercase dns_from_json (print_json v) = Ok s ∧
      settings = Some s ∧
      let current := OrgDns.org_dns_from_row domain_to_ascii domain_to_unicode is_alphabetic to_lowercase dns_from_json hash (t_dns t) in
      t' = if bool_decide (dns_value s = dns_value (rs_dns current)) then t
           else set_dns t (write_org_dns_tx dns_to_json (t_dns t) current s)
  end.
Proof.
  unfold apply_dns. destruct v as [v|]; [|by intros [= <- <- <-]]. intros Ha. inv_ok. injection Ha as <- <- <-.
  eexists. split_and!; [done|done|]. simpl. by destruct (bool_decide _).
Qed.

Lemma apply_tx_rest t who d enforce ids at_ t' applied :
  apply_tx t who d enforce ids at_ = Ok (t', applied) → same_rest t t' ∧ control_revision (t_dns t') = control_revision (t_dns t) + 1.
Proof.
  unfold apply_tx. intros Ha. inv_ok. injection Ha as <- <-.
  rename select (apply_policy _ _ _ = _) into Hp. rename select (apply_resources _ _ _ _ _ = _) into Hr. rename select (apply_dns _ _ = _) into Hd.
  apply apply_policy_ok in Hp. apply apply_resources_ok in Hr. apply apply_dns_ok in Hd.
  destruct (p_policy _); destruct (p_resources _); destruct (p_dns _); repeat match goal with H : ∃ _, _ |- _ => destruct H | H : _ ∧ _ |- _ => destruct H end; cbn zeta in *; subst;
    repeat case_match; done.
Qed.

(** ** The invariant of a history *)

Record inv (t : Tables) (past : list Tables) : Prop := mkInv {
  inv_ids : NoDup (map d_id (t_drafts t));
  inv_rows : ∀ u, u ∈ t :: past → Forall DraftOk (t_drafts u);
  inv_later : ∀ u, u ∈ t :: past → continues (t_drafts u) (t_drafts t)
}.

(** The row a request has loaded is the row its transaction finds. *)
Lemma same_row t past u id at_ draft version d :
  inv t past → u ∈ t :: past → load_draft u id at_ = Ok draft → d_status draft = Open → d_version draft = version →
  d ∈ t_drafts t → hits id version d = true → d = draft.
Proof.
  intros [Hids _ Hlater] Hu Hl Ho Hv Hd Hh. destruct (load_draft_open _ _ _ _ Hl Ho) as [Hin Hid].
  destruct (continues_elem _ _ _ (Hlater u Hu) Hin) as (d' & Hd' & Hlat). unfold hits in Hh. to_prop.
  assert (d = d') as ->; [|by apply (later_open _ _ Hlat); congruence].
  eapply (nodup_key d_id); [exact Hids|done|done|]. rewrite (later_id _ _ Hlat). congruence.
Qed.

Lemma ensure_open_ok d : ensure_open d = Ok tt → d_status d = Open.
Proof. unfold ensure_open. rewrite reject_if_ok. by intros ?%negb_false_iff%bool_decide_eq_true. Qed.

Lemma ensure_version_ok d v : ensure_version d v = Ok tt → d_version d = v.
Proof. unfold ensure_version. rewrite reject_if_ok. by intros ?%negb_false_iff%Z.eqb_eq. Qed.

Lemma fold_based (g : Base → Surface → Base) l b s :
  (∀ b s, s ∈ l → based (g b s) s) → (∀ b s s', s ≠ s' → based b s' → based (g b s) s') →
  s ∈ l ∨ based b s → based (foldl g b l) s.
Proof.
  intros Hset Hkeep. revert b. induction l as [|x l IH]; intros b Hs; simpl; [by destruct Hs as [Hs%not_elem_of_nil|]|].
  apply IH; [intros; apply Hset; set_solver|]. destruct (decide (x = s)) as [->|Hne]; [right; apply Hset; set_solver|].
  destruct Hs as [[->|Hs]%elem_of_cons|Hs]; [done|by left|right]. by apply Hkeep.
Qed.

Lemma capture_based live l s : s ∈ l → based (foldl (capture_base live) no_base l) s.
Proof.
  intros Hs. apply fold_based; [|by intros b [] []|by left]. by intros b [] _; simpl.
Qed.

Lemma edited_based old had live l s :
  (∀ s, s ∈ had → based old s) → (live = None → ∀ s, s ∈ l → s ∈ had) → s ∈ l → based (foldl (edited_base old had live) no_base l) s.
Proof.
  intros Hold Hlive Hs. apply fold_based; [| |by left].
  - intros b x Hx. unfold edited_base. case_bool_decide as Hh; [by destruct x; apply (Hold _ Hh)|].
    destruct live as [live|]; [by destruct x; eexists|]. by destruct (Hh (Hlive eq_refl x Hx)).
  - intros b x y Hne Hb. unfold edited_base. by case_bool_decide; destruct live, x, y.
Qed.

(** A write to the row that was loaded keeps the invariant when the new row is sound. *)
Lemma commit_inv t past u id at_ version draft f t1 t' :
  inv t past → u ∈ t :: past → load_draft u id at_ = Ok draft → d_status draft = Open → d_version draft = version →
  t_drafts t1 = t_drafts t → commit_row t1 id version f = Ok t' → (DraftOk draft → moves draft (f draft) ∧ DraftOk (f draft)) →
  inv t' (t :: past).
Proof.
  intros Hinv Hu Hl Ho Hv Hsame [_ ->]%commit_row_ok Hf.
  assert (∀ d, d ∈ t_drafts t → DraftOk d) as Hok by (apply Forall_forall, (inv_rows _ _ Hinv); set_solver).
  assert (∀ d, d ∈ t_drafts t → hits id version d = true → moves d (f d) ∧ DraftOk (f d)) as Hhit.
  { intros d Hd Hh. pose proof (same_row _ _ _ _ _ _ _ _ Hinv Hu Hl Ho Hv Hd Hh) as ->. by apply Hf, Hok. }
  assert (continues (t_drafts t) (map (λ d, if hits id version d then f d else d) (t_drafts t))) as Hc.
  { apply continues_map. intros d Hd. destruct (hits id version d) eqn:Hh; [|apply later_refl].
    eapply moves_later; [exact Hh|]. by apply Hhit. }
  constructor; simpl; rewrite Hsame.
  - rewrite map_map (map_ext_in _ d_id); [apply Hinv|]. intros d Hd%list_elem_of_In. destruct (hits id version d) eqn:Hh; [|done].
    apply (Hhit d Hd Hh).
  - intros w [->|Hw]%elem_of_cons; [simpl|by apply Hinv]. apply Forall_forall. intros d (d0 & -> & Hd0)%list_elem_of_fmap.
    destruct (hits id version d0) eqn:Hh; [by apply Hhit|by apply Hok].
  - intros w [->|Hw]%elem_of_cons; [simpl; apply continues_refl|]. eapply continues_trans; [by apply Hinv|done].
Qed.

Lemma live_added (old new : list Surface) (r : result ChangeError Live) live :
  (if (length (List.filter (λ s, negb (bool_decide (s ∈ old))) new) =? 0)%nat then Ok None
   else let? live := r in Ok (Some live)) = Ok live →
  live = None → ∀ s, s ∈ new → s ∈ old.
Proof.
  destruct (length _ =? 0)%nat eqn:Hl; [|destruct r; simpl; congruence]. intros _ _ s Hs. apply Nat.eqb_eq, length_zero_iff_nil in Hl.
  destruct (decide (s ∈ old)) as [|Hn]; [done|]. assert (s ∈ List.filter (λ s, negb (bool_decide (s ∈ old))) new) as Hx.
  { apply filter_elem. by rewrite bool_decide_false. }
  rewrite Hl in Hx. by apply not_elem_of_nil in Hx.
Qed.

Lemma publish_shape loaded read t who id version confirm ids1 ids at0 at_ t' :
  publish loaded read t who id version confirm ids1 ids at0 at_ = Ok t' →
  ∃ draft pv t1 applied, load_draft loaded id at0 = Ok draft ∧ d_status draft = Open ∧ d_version draft = version ∧
    require_surfaces who (surfaces (d_payload draft)) = Ok tt ∧
    compute_preview read who draft [] ids1 at0 = Ok pv ∧ pv_stale pv = [] ∧ pv_valid pv = true ∧
    (∀ f, f ∈ pv_risks pv → code_str (rf_code f) ∈ confirm) ∧ apply_tx t who draft true ids at_ = Ok (t1, applied) ∧
    commit_row t1 id version (close_draft who at_ Published (Some (mkDraftResult at_ applied (map rf_code (pv_risks pv))))) = Ok t'.
Proof.
  unfold publish. intros Hp. apply bind_ok in Hp as (draft & Hl & Hp). rewrite !then_ok in Hp.
  destruct Hp as (Hr & Ho%ensure_open_ok & Hv%ensure_version_ok & Hp). apply bind_ok in Hp as (pv & Hpv & Hp). rewrite !then_ok in Hp.
  destruct Hp as (Hs & Hval%reject_if_ok & Hc & Hp). apply bind_ok in Hp as ([t1 applied] & Ha & Hp). to_prop.
  exists draft, pv, t1, applied. split_and!; try done; [by destruct (pv_stale pv)|].
  intros f Hf. destruct (List.filter _ _) as [|c l] eqn:Hfil; [|done].
  destruct (decide (code_str (rf_code f) ∈ confirm)) as [|Hn]; [done|].
  assert (rf_code f ∈ List.filter (λ c, negb (bool_decide (code_str c ∈ confirm))) (map rf_code (pv_risks pv))) as Hx.
  { apply filter_elem. split; [|by rewrite bool_decide_false]. apply list_elem_of_fmap. eauto. }
  rewrite Hfil in Hx. by apply not_elem_of_nil in Hx.
Qed.

Lemma surfaces_live live l s : s ∈ surfaces (live_payload live l) → s ∈ l.
Proof.
  unfold surfaces, live_payload. simpl. repeat case_bool_decide; simpl; rewrite ?elem_of_cons ?elem_of_nil; naive_solver.
Qed.

Lemma create_shape counted t who title wanted id at_ t' :
  create_draft counted t who title wanted id at_ = Ok t' →
  ∃ draft, t' = set_drafts t (t_drafts t ++ [draft]) ∧ d_id draft = id ∧ find_draft t id = None ∧ DraftOk draft.
Proof.
  unfold create_draft. intros Hc. inv_ok. subst t'. to_prop. rename select (check_payload _ = _) into Hp.
  match type of Hp with _ = Ok ?u => destruct u end.
  eexists. split_and!; [done|done|by apply eq_None_not_Some|]. constructor; simpl; try done.
  intros s Hs. by eapply capture_based, surfaces_live.
Qed.

Lemma update_shape loaded read t who id input at_ t' :
  update_draft loaded read t who id input at_ = Ok t' →
  ∃ draft f, load_draft loaded id at_ = Ok draft ∧ d_status draft = Open ∧ d_version draft = ur_version input ∧
    commit_row t id (ur_version input) f = Ok t' ∧ (DraftOk draft → moves draft (f draft) ∧ DraftOk (f draft)).
Proof.
  unfold update_draft. intros Hu. apply bind_ok in Hu as (draft & Hl & Hu). rewrite !then_ok in Hu.
  destruct Hu as (_ & Ho%ensure_open_ok & Hv%ensure_version_ok & Hu). apply bind_ok in Hu as (title & _ & Hu). apply then_ok in Hu as [Hp Hu].
  apply bind_ok in Hu as (live & Hlive & Hu). eexists draft, _. split_and!; [done..|exact Hu|]. intros []. split; [done|].
  constructor; simpl; try done; [lia|]. intros s Hs. apply edited_based; [done|by eapply live_added|done].
Qed.

Lemma rebase_shape loaded read t who id version at_ t' :
  rebase_draft loaded read t who id version at_ = Ok t' →
  ∃ draft f, load_draft loaded id at_ = Ok draft ∧ d_status draft = Open ∧ d_version draft = version ∧
    commit_row t id version f = Ok t' ∧ (DraftOk draft → moves draft (f draft) ∧ DraftOk (f draft)).
Proof.
  unfold rebase_draft. intros Hu. apply bind_ok in Hu as (draft & Hl & Hu). rewrite !then_ok in Hu.
  destruct Hu as (_ & Ho%ensure_open_ok & Hv%ensure_version_ok & Hu). apply bind_ok in Hu as (live & Hlive & Hu).
  eexists draft, _. split_and!; [done..|exact Hu|]. intros []. split; [done|]. constructor; simpl; try done; [lia|].
  intros s Hs. by apply capture_based.
Qed.

Lemma close_ok who at_ status r d :
  status = Discarded ∧ r = None ∨ status = Published ∧ is_Some r → d_status d = Open → DraftOk d →
  moves d (close_draft who at_ status r d) ∧ DraftOk (close_draft who at_ status r d).
Proof.
  intros Hs Ho []. split; [done|].
  assert (d_result d = None) as Hn by (apply eq_None_not_Some; intros Hr%ok_result0; congruence).
  destruct Hs as [[-> ->]|[-> [x ->]]]; constructor; simpl; rewrite ?Hn; try done; lia.
Qed.

Lemma discard_shape loaded t who id version at_ t' :
  discard_draft loaded t who id version at_ = Ok t' →
  ∃ draft, load_draft loaded id at_ = Ok draft ∧ d_status draft = Open ∧ d_version draft = version ∧
    commit_row t id version (close_draft who at_ Discarded None) = Ok t'.
Proof.
  unfold discard_draft. intros Hu. apply bind_ok in Hu as (draft & Hl & Hu). rewrite !then_ok in Hu.
  destruct Hu as (_ & Ho%ensure_open_ok & Hv%ensure_version_ok & Hu). eauto 10.
Qed.

Lemma create_inv t past draft :
  inv t past → find_draft t (d_id draft) = None → DraftOk draft → inv (set_drafts t (t_drafts t ++ [draft])) (t :: past).
Proof.
  intros [Hids Hrows Hlater] Hf Hok.
  assert (continues (t_drafts t) (t_drafts t ++ [draft])) as Hc.
  { exists (t_drafts t), [draft]. split; [done|].
    apply Forall_Forall2_diag, Forall_forall. intros d _. apply later_refl. }
  constructor; simpl.
  - rewrite map_app. apply NoDup_app. split_and!; [done| |apply NoDup_singleton].
    intros k (d & -> & Hd)%list_elem_of_fmap Hk%list_elem_of_singleton. pose proof (find_none_elem _ _ _ Hf Hd) as Hb.
    cbn beta in Hb. rewrite bool_decide_true in Hb; done.
  - intros u [->|Hu]%elem_of_cons; [|by apply Hrows]. simpl. apply Forall_app. split; [apply Hrows; set_solver|by apply Forall_singleton].
  - intros u [->|Hu]%elem_of_cons; [apply continues_refl|]. eapply continues_trans; [by apply Hlater|done].
Qed.

Lemma draft_step_inv t past t' : inv t past → step (t :: past) t t' → inv t' (t :: past).
Proof.
  intros Hinv Hstep. destruct Hstep as [at_ ->|counted who title wanted id at_ _ Hc|loaded read who id input at_ Hl _ Hu|
    loaded read who id version at_ Hl _ Hu|loaded who id version at_ Hl Hu|loaded read who id version confirm ids1 ids at0 at_ Hl _ Hu|Hsame].
  - destruct Hinv as [Hids Hrows Hlater]. assert (continues (t_drafts t) (map (expire at_) (t_drafts t))) as Hc
      by (apply continues_map; intros; apply expire_later).
    constructor; simpl.
    + rewrite map_map (map_ext _ d_id); [done|]. intros d. apply (later_id _ _ (expire_later at_ d)).
    + intros u [->|Hu]%elem_of_cons; [|by apply Hrows]. simpl. apply Forall_fmap. eapply Forall_impl; [apply Hrows; set_solver|].
      intros d. apply expire_ok.
    + intros u [->|Hu]%elem_of_cons; [apply continues_refl|]. eapply continues_trans; [by apply Hlater|done].
  - apply create_shape in Hc as (draft & -> & <- & Hf & Hok). by apply create_inv.
  - apply update_shape in Hu as (draft & f & Hload & Ho & Hv & Hc & Hf). by eapply commit_inv.
  - apply rebase_shape in Hu as (draft & f & Hload & Ho & Hv & Hc & Hf). by eapply commit_inv.
  - apply discard_shape in Hu as (draft & Hload & Ho & Hv & Hc). eapply commit_inv; try done. intros. by apply close_ok; [left| |].
  - apply publish_shape in Hu as (draft & pv & t1 & applied & Hload & Ho & Hv & _ & _ & _ & _ & _ & Ha & Hc).
    apply apply_tx_rest in Ha as [[] _]. eapply commit_inv; try done. intros. apply close_ok; [right|done..]. by split; [|eexists].
  - destruct Hinv as [Hids Hrows Hlater]. constructor; rewrite ?Hsame; [done| |].
    + intros u [->|Hu]%elem_of_cons; [rewrite Hsame; apply Hrows; set_solver|by apply Hrows].
    + intros u [->|Hu]%elem_of_cons; [rewrite Hsame; apply continues_refl|by apply Hlater].
Qed.

Lemma history_inv t past : history (t :: past) → inv t past.
Proof.
  remember (t :: past) as h eqn:He. intros Hh. revert t past He. induction Hh as [t0 Hnil|past0 t0 t1 Hh IH Hstep]; intros t past [= <- <-].
  - constructor; rewrite ?Hnil; [constructor| |]; intros u ->%list_elem_of_singleton; rewrite Hnil; [constructor|apply continues_refl].
  - apply draft_step_inv; [|done]. by apply IH.
Qed.

End histories.

End DraftProps.
