(* ===== verification/DraftRows.v ===== *)
(** * The resource rows a draft writes

    The rows of the table after a publication: which of the old ones stay, what each
    of them holds, and the rows of the new resources. *)

From S2P Require Import Prelude Text Net FlowReport Policy Ipam AclFilter ForwardFilter CoordAcl CoordProps CoordForward CoordForwardProps AclProps CoordRules AppConnectors Resources ResourcesProps Routes RoutesProps.

Module DraftRows.
Import Resources ResourcesProps RoutesProps.

(** ** The rows of the resource table *)

Section rows.
Context (sha : bytes → bytes).

Lemma filter_always {A} (g : A → bool) l : (∀ x, g x = true) → List.filter g l = l.
Proof. intros Hg. induction l as [|x l IH]; simpl; [done|]. by rw Hg IH. Qed.

Lemma filter_twice {A} (g h : A → bool) l : List.filter g (List.filter h l) = List.filter (λ x, g x && h x) l.
Proof. induction l as [|x l IH]; simpl; [done|]. destruct (h x); simpl; rw IH; by destruct (g x). Qed.

Lemma deletes_rows keep live o o' :
  draft_deletes sha keep live o = Ok o' →
  o' = set_resources o (List.filter (λ r, bool_decide (nr_id r ∈ keep) || negb (bool_decide (nr_id r ∈ map nr_id live))) (org_resources o)).
Proof.
  revert o; induction live as [|r live IH]; intros o; simpl.
  - intros [= <-]. rw filter_always; [by destruct o|]. intros x. by rw orb_true_r.
  - case_bool_decide as Hk.
    + intros ->%IH. f_equal. apply filter_ext. intros x. destruct (decide (nr_id x = nr_id r)) as [He|Hne]; [by rw He bool_decide_true|].
      do 2 f_equal. apply bool_decide_ext. rw elem_of_cons. tauto.
    + intros (o1 & H1 & ->%IH)%bind_ok. unfold delete_in_tx in H1. inv_ok. subst o1. unfold set_resources. simpl. f_equal.
      rw filter_twice. apply filter_ext. intros y. destruct (decide (nr_id y = nr_id r)) as [He|Hne].
      * rw He (bool_decide_true (nr_id r = _)) // (bool_decide_false (nr_id r ∈ keep)) //.
        rw (bool_decide_true (nr_id r ∈ nr_id r :: map nr_id live)); [by rw andb_false_r|by left].
      * rw (bool_decide_false (nr_id y = nr_id r)) // andb_true_r. do 2 f_equal. apply bool_decide_ext. rw elem_of_cons. tauto.
Qed.

Definition new_items (wanted : list (option Uuid * ResourceInput)) : list ResourceInput :=
  omap (λ w, match w.1 with Some _ => None | None => Some w.2 end) wanted.

(** The rows of created resources: their ids apart they do not depend on the ids. *)
Lemma creates_rows ids session at_ wanted o o' :
  draft_creates sha ids session at_ wanted o = Ok o' →
  ∃ ps, try_collect (λ input, prepare sha input (org_id o) session (org_acl o) (load_org_nodes o) None) (new_items wanted) = Ok ps ∧
    o' = set_resources o (org_resources o ++ imap (λ n p, stored (ids n) p 1 at_ at_) ps).
Proof.
  revert o ids; induction wanted as [|[[id|] input] wanted IH]; intros o ids; simpl.
  - intros [= <-]. exists []. split; [done|]. rw app_nil_r. by destruct o.
  - by intros ?%IH.
  - intros (o1 & H1 & (ps & Hps & ->)%IH)%bind_ok. unfold create_in_tx in H1. inv_ok. subst o1. simpl in Hps |- *.
    rename select (prepare _ _ _ _ _ _ _ = Ok _) into Hp. exists (x :: ps). split; [by rw Hp /= Hps|]. unfold set_resources. simpl. f_equal. rw -app_assoc. f_equal.
Qed.

Lemma check_wanted_live live before wanted id : check_wanted live before wanted = Ok tt → id ∈ wanted_ids wanted → id ∈ map nr_id live.
Proof.
  revert before; induction wanted as [|[[k|] input] wanted IH]; intros before; simpl; [by intros _ ?%not_elem_of_nil| |by apply IH].
  rw !then_ok !reject_if_ok. intros (Hl & _ & Hc) [->|Hid]%elem_of_cons; [|by eapply IH].
  to_prop. apply existsb_elem in Hl as (r & Hr & He). to_prop. apply list_elem_of_fmap. eauto.
Qed.


Lemma check_wanted_once live before wanted :
  check_wanted live before wanted = Ok tt → NoDup (wanted_ids wanted) ∧ ∀ id, id ∈ wanted_ids wanted → id ∉ before.
Proof.
  revert before; induction wanted as [|[[k|] input] wanted IH]; intros before; simpl; [|intros Hc|by apply IH].
  - intros _. split; [apply NoDup_nil_2|by intros id ?%not_elem_of_nil].
  - rw !then_ok !reject_if_ok in Hc. destruct Hc as (_ & Hk & [Hn Hb]%IH). to_prop. split.
    + apply NoDup_cons. split; [|done]. intros Hin%Hb. apply Hin. by left.
    + intros id [->|Hid]%elem_of_cons; [done|]. intros Hx. apply (Hb id Hid). by right.
Qed.

(** *** Contents *)

(** The row holds what the item says. *)
Record carries (org : str) (i : ResourceInput) (r : NetworkResource) : Prop := mkCarries {
  ca_name : nr_name r = trim (in_name i);
  ca_description : nr_description r = trim (in_description i);
  ca_target : match in_cidr i, in_dns_target i with
              | Some c, None => nr_kind r = Cidr ∧ nr_dns_target r = None ∧
                  ∃ cc, canonical_cidr sha c org = Ok cc ∧ nr_cidr r = Some (cc_cidr cc)
              | None, Some d => nr_kind r = Dns ∧ nr_cidr r = None ∧ ∃ x, canonical_dns_target d = Ok x ∧ nr_dns_target r = Some x
              | _, _ => False
              end;
  ca_ports : ∀ port, port ∈ nr_ports r ↔ ∃ spec, spec ∈ in_ports i ∧ prepare_port spec = Ok port;
  ca_protocols : ∀ x, x ∈ nr_protocols r ↔ x ∈ in_protocols i;
  ca_peers : nr_routing_peers r ≡ₚ in_routing_peers i;
  ca_roles : ∀ x, x ∈ ra_roles (nr_access r) ↔ x ∈ ra_roles (in_access i);
  ca_tags : ∀ x, x ∈ ra_tags (nr_access r) ↔ x ∈ ra_tags (in_access i);
  ca_groups : ∀ g, g ∈ ra_groups (nr_access r) ↔ ∃ raw, raw ∈ ra_groups (in_access i) ∧ g = trim raw;
  ca_enabled : nr_enabled r = in_enabled i;
  ca_nested : nr_allow_nested r = in_allow_nested i
}.

Lemma sorted_members_elem {A} `{EqDecision A} (all l : list A) x : x ∈ all → x ∈ sorted_members all l ↔ x ∈ l.
Proof. intros Hx. unfold sorted_members. rw filter_elem bool_decide_eq_true. tauto. Qed.

Lemma normalised_name n n' : normalise_name n = Ok n' → n' = trim n.
Proof. unfold normalise_name. case_match; [done|]. by intros [= <-]. Qed.

Lemma collected_elem {E A B} (f : A → result E B) l l' y : try_collect f l = Ok l' → y ∈ l' ↔ ∃ x, x ∈ l ∧ f x = Ok y.
Proof.
  intros Hc%try_collect_ok. induction Hc as [|a b l l' Hab _ IH]; [split; [by intros ?%not_elem_of_nil|by intros (x & ?%not_elem_of_nil & _)]|].
  rw elem_of_cons IH. setoid_rewrite elem_of_cons. split; [naive_solver|]. intros (x & [->|Hx] & Hf); [left; congruence|right; eauto].
Qed.

Lemma prepared_carries i org session acl nodes existing p id revision created at_ :
  prepare sha i org session acl nodes existing = Ok p → carries org i (stored id p revision created at_).
Proof.
  unfold prepare. intros Hp. inv_ok. subst p. rename select (normalise_name _ = _) into Hn. apply normalised_name in Hn.
  rename select (try_collect _ _ = _) into Hports. rename select (prepare_target _ _ _ = _) into Ht.
  constructor; try done; cbn [stored nr_kind nr_cidr nr_dns_target nr_ports nr_routing_peers nr_access nr_protocols nr_description nr_enabled nr_allow_nested
    pr_kind pr_cidr pr_dns_target pr_ports pr_routing_peers pr_access pr_protocols sorted_access ra_roles ra_tags ra_groups].
  - unfold prepare_target in Ht. destruct (in_cidr i), (in_dns_target i); inv_ok; simplify_eq/=; eauto 10.
  - intros port. rw extend_elem -(collected_elem _ _ _ _ Hports). split; [by intros [?%not_elem_of_nil|?]|by right].
  - intros q. apply sorted_members_elem. destruct q; set_solver.
  - apply sort_by_perm.
  - intros q. apply sorted_members_elem. destruct q; set_solver.
  - intros q. apply sorted_members_elem. destruct q; set_solver.
  - intros g. rw extend_elem list_elem_of_fmap. split; [intros [?%not_elem_of_nil|(raw & -> & Hr)]; [done|eauto]|intros (raw & Hr & ->); right; eauto].
Qed.

Lemma carries_etag org i tag r : carries org (with_etag i tag) r → carries org i r.
Proof. intros []. by constructor. Qed.

(** What becomes of a row the draft keeps: the same row where the item says what the
    row says, and otherwise a row with what the item says, at the next revision. *)
Definition replaced (org : str) (at_ : Z) (wanted : list (option Uuid * ResourceInput)) (r r' : NetworkResource) : Prop :=
  ∃ i, (Some (nr_id r), i) ∈ wanted ∧
    if bool_decide (comparable (draft_item r) = comparable i) then r' = r
    else nr_id r' = nr_id r ∧ nr_revision r' = nr_revision r + 1 ∧ nr_created_at r' = nr_created_at r ∧ nr_updated_at r' = at_ ∧ carries org i r'.

Definition treated (org : str) (at_ : Z) (wanted : list (option Uuid * ResourceInput)) (r r' : NetworkResource) : Prop :=
  if bool_decide (nr_id r ∈ wanted_ids wanted) then replaced org at_ wanted r r' else r' = r.

Lemma wanted_ids_cons w wanted id : id ∈ wanted_ids (w :: wanted) ↔ w.1 = Some id ∨ id ∈ wanted_ids wanted.
Proof. unfold wanted_ids. destruct w as [[k|] i]; simpl; rw ?elem_of_cons; naive_solver. Qed.

Lemma treated_later org at_ w wanted r r' : w.1 ≠ Some (nr_id r) → treated org at_ wanted r r' → treated org at_ (w :: wanted) r r'.
Proof.
  intros Hw. unfold treated. rw (bool_decide_ext (nr_id r ∈ wanted_ids (w :: wanted)) (nr_id r ∈ wanted_ids wanted)).
  - case_bool_decide; [|done]. intros (i & Hi & Hr). exists i. split; [by right|done].
  - rw wanted_ids_cons. tauto.
Qed.

(** One update, on a table with unique ids. *)
Lemma update_row o id session input at_ o' :
  update_in_tx sha o id session input at_ = Ok o' → NoDup (map nr_id (org_resources o)) →
  ∃ f, o' = set_resources o (map f (org_resources o)) ∧ (∀ r, nr_id (f r) = nr_id r) ∧ (∀ r, nr_id r ≠ id → f r = r) ∧
    ∀ r, r ∈ org_resources o → nr_id r = id →
      nr_revision (f r) = nr_revision r + 1 ∧ nr_created_at (f r) = nr_created_at r ∧ nr_updated_at (f r) = at_ ∧ carries (org_id o) input (f r).
Proof.
  unfold update_in_tx. intros Hu Hnd. inv_ok. subst o'. rename select (load_resource _ _ = _) into Hl. apply load_resource_elem in Hl as [Hin Hid].
  rename select (prepare _ _ _ _ _ _ _ = _) into Hp. eexists. split; [done|]. split_and!.
  - intros r. by destruct (bool_decide (nr_id r = id)) eqn:Hb, (nr_revision r =? _); to_prop.
  - intros r Hr. cbn beta. by rw bool_decide_false.
  - intros r Hr Hrid. assert (r = x0) as -> by (eapply (nodup_key nr_id); [done|done|done|congruence]). cbn beta.
    rw bool_decide_true // Z.eqb_refl. cbn [andb]. split_and!; try done. by eapply prepared_carries.
Qed.

Lemma updates_rows live session at_ wanted o o' :
  draft_updates sha live session at_ wanted o = Ok o' → NoDup (wanted_ids wanted) → NoDup (map nr_id (org_resources o)) →
  (∀ r, r ∈ org_resources o → nr_id r ∈ wanted_ids wanted → List.find (λ x, bool_decide (nr_id x = nr_id r)) live = Some r) →
  o' = set_resources o (org_resources o') ∧ Forall2 (treated (org_id o) at_ wanted) (org_resources o) (org_resources o').
Proof.
  revert o; induction wanted as [|[[id|] input] wanted IH]; intros o; simpl.
  - intros [= <-] _ _ _. split; [by destruct o|]. apply Forall_Forall2_diag, Forall_forall. intros r _. unfold treated.
    by rw bool_decide_false; [|apply not_elem_of_nil].
  - intros (current & Hc%ok_or_ok & Hu)%bind_ok [Hid Hw]%NoDup_cons Hnd Hlive.
    assert (∀ r, r ∈ org_resources o → nr_id r = id → r = current) as Hcur.
    { intros r Hr <-. specialize (Hlive r Hr (list_elem_of_here _ _)). congruence. }
    case_bool_decide as Hsame.
    + destruct (IH o Hu Hw Hnd) as [Hrest Hall]; [intros r Hr Hx; apply Hlive; [done|by right]|]. split; [done|].
      apply Forall2_same_length_lookup. split; [by eapply Forall2_length|]. intros k r r' Hk Hk'. pose proof (Forall2_lookup_lr _ _ _ _ _ _ Hall Hk Hk') as Ht.
      destruct (decide (nr_id r = id)) as [He|Hne]; [|apply treated_later; [simpl; congruence|done]].
      unfold treated in Ht |- *. rw He bool_decide_false // in Ht. rw bool_decide_true; [|rw wanted_ids_cons; left; simpl; congruence].
      exists input. split; [rw He; by left|]. rw (Hcur r) //; [|by eapply list_elem_of_lookup_2]. rw bool_decide_true //.
      rw Ht. apply Hcur; [by eapply list_elem_of_lookup_2|done].
    + apply bind_ok in Hu as (o1 & H1 & Hu). destruct (update_row _ _ _ _ _ _ H1 Hnd) as (f & -> & Hfid & Hfo & Hf).
      destruct (IH _ Hu Hw) as [Hrest Hall].
      { simpl. rw map_map. by rewrite (map_ext _ nr_id). }
      { simpl. intros r (r0 & -> & Hr0)%list_elem_of_fmap Hx. rw Hfid in Hx. assert (nr_id r0 ≠ id) as Hne by (intros He; by rw He in Hx).
        rw Hfo //. apply Hlive; [done|by right]. }
      split; [by rw Hrest|]. apply Forall2_same_length_lookup. split; [apply Forall2_length in Hall; by rw -Hall /= length_map|].
      intros k r r' Hk Hk'. pose proof (Forall2_lookup_lr _ _ _ k (f r) r' Hall) as Ht. simpl in Ht. rw list_lookup_fmap Hk in Ht. specialize (Ht eq_refl Hk').
      pose proof (list_elem_of_lookup_2 _ _ _ Hk) as Hr. destruct (decide (nr_id r = id)) as [He|Hne].
      * unfold treated in Ht |- *. rw Hfid He bool_decide_false // in Ht. subst r'. rw bool_decide_true; [|rw wanted_ids_cons; left; simpl; congruence].
        exists input. split; [rw He; by left|]. rw (Hcur r) // bool_decide_false //. destruct (Hf r Hr He) as (H2 & H3 & H4 & H5%carries_etag).
        rw -(Hcur r) //.
      * apply treated_later; [simpl; congruence|]. by rw Hfo // in Ht.
  - intros Hu Hw Hnd Hlive. destruct (IH o Hu Hw Hnd Hlive) as [Hrest Hall]. split; [done|]. eapply Forall2_impl; [exact Hall|].
    intros r r' Ht. by apply treated_later.
Qed.

(** The rows after a draft, on a table with unique ids: of the rows there were the ones
    the draft names, each as its item says, and behind them one row for each new item. *)
Lemma draft_rows o session wanted ids at_ o' :
  apply_draft_tx sha o session wanted ids at_ = Ok o' → NoDup (map nr_id (org_resources o)) →
  ∃ kept created, o' = set_resources o (kept ++ created) ∧
    Forall2 (replaced (org_id o) at_ wanted) (List.filter (λ r, bool_decide (nr_id r ∈ wanted_ids wanted)) (org_resources o)) kept ∧
    length created = length (new_items wanted) ∧
    ∀ n i, new_items wanted !! n = Some i →
      ∃ r, created !! n = Some r ∧ nr_id r = ids n ∧ nr_revision r = 1 ∧ nr_created_at r = at_ ∧ nr_updated_at r = at_ ∧ carries (org_id o) i r.
Proof.
  unfold apply_draft_tx. intros Ha Hnd. apply then_ok in Ha as [Hw Ha]. apply bind_ok in Ha as (o1 & Hd & Ha). apply bind_ok in Ha as (o2 & Hu & Hc).
  apply deletes_rows in Hd as ->. destruct (check_wanted_once _ _ _ Hw) as [Hids _].
  assert (List.filter (λ r, bool_decide (nr_id r ∈ wanted_ids wanted) || negb (bool_decide (nr_id r ∈ map nr_id (load_resources o)))) (org_resources o) =
    List.filter (λ r, bool_decide (nr_id r ∈ wanted_ids wanted)) (org_resources o)) as Hrows.
  { apply filter_ext_in. intros r Hr%list_elem_of_In. rw (bool_decide_true (nr_id r ∈ map _ _)); [by rw orb_false_r|].
    apply list_elem_of_fmap_2. by apply load_resources_elem. }
  rw Hrows in Hu. clear Hrows.
  destruct (updates_rows _ _ _ _ _ _ Hu Hids) as [Hrest Hall]; [by apply nodup_filter_key| |].
  { simpl. intros r [Hr _]%filter_elem _. destruct (List.find _ (load_resources o)) as [x|] eqn:Hf.
    - apply find_elem in Hf as [Hx Hxid]. to_prop. f_equal. eapply (nodup_key nr_id); [exact Hnd|by apply load_resources_elem|done|done].
    - eapply find_none_elem in Hf; [|by apply load_resources_elem]. by rw bool_decide_true in Hf. }
  apply creates_rows in Hc as (ps & Hps & ->). simpl in Hall. rw Hrest in Hps. simpl in Hps. unfold load_org_nodes in Hps. simpl in Hps.
  eexists (org_resources o2), _. split; [by rw Hrest|]. split; [|split].
  - apply Forall2_same_length_lookup. split; [by eapply Forall2_length|]. intros k r r' Hk Hk'.
    pose proof (Forall2_lookup_lr _ _ _ _ _ _ Hall Hk Hk') as Ht. unfold treated in Ht. apply list_elem_of_lookup_2, filter_elem in Hk as [_ Hk]. by rw Hk in Ht.
  - rw length_imap. by apply try_collect_length in Hps.
  - intros n i Hn. apply try_collect_ok in Hps. destruct (Forall2_lookup_l _ _ _ _ _ Hps Hn) as (p & Hp & Hprep).
    eexists. split; [by rw list_lookup_imap Hp|]. split_and!; try done. by eapply prepared_carries.
Qed.

End rows.
End DraftRows.
