(* ===== verification/DraftPublish.v ===== *)
(** * Publication of change drafts

    What a publication writes, and what it needs: the base of every surface is the
    live one when the transaction runs, and nothing new becomes reachable without a
    confirmation.  Concrete documents show what the risk flags miss. *)

From S2P Require Import Prelude Text Net FlowReport Policy Ipam AclFilter ForwardFilter CoordAcl CoordProps CoordForward CoordForwardProps AclProps CoordRules AppConnectors Resources ResourcesProps Routes RoutesProps Posture OrgDns Topology Json ChangeDrafts DraftProps DraftRows.

Module DraftPublish.
Import Resources ResourcesProps RoutesProps OrgDns Topology ChangeDrafts DraftProps DraftRows.

(** The invariant of the routes is about devices and resources. *)
Lemma RoutesInv_rows o o' : org_nodes o' = org_nodes o → org_resources o' = org_resources o → RoutesInv o → RoutesInv o'.
Proof.
  intros Hn Hr []. assert (load_org_nodes o' = load_org_nodes o) as Hl by (unfold load_org_nodes; by rewrite Hn).
  constructor; rewrite ?Hn ?Hr ?Hl; done.
Qed.

(** ** What a publication writes *)

Section publication.
Context `{Codecs}.

Definition bumped (t : Tables) : DnsRow := t_dns (bump_control_revision t).

Definition policy_written (t t' : Tables) (v : option Value) (at_ : Z) : Prop :=
  match v with
  | None => t_acl t' = t_acl t
  | Some v => ∃ text, storeable_acl_json v at_ = Ok text ∧
      t_acl t' = if bool_decide (text = acl_json (t_acl t)) then t_acl t
                 else mkAclRow text (acl_revision (t_acl t) + 1) (Some (acl_json (t_acl t)))
  end.

(** The items are the full set: of the rows there were, the ones the items name stay,
    each with what its item says (the same row where the item says nothing new, the
    next revision otherwise), and each new item has a new row with what it says. *)
Definition resources_written (t t' : Tables) (items : option (list Value)) (ids : nat → Uuid) (at_ : Z) : Prop :=
  match items with
  | None => t_resources t' = t_resources t
  | Some items => ∃ wanted kept created, read_items (sort_by resource_le (t_resources t)) [] 0 items = Ok wanted ∧
      t_resources t' = kept ++ created ∧
      Forall2 (replaced sha256 (t_org t) at_ wanted) (List.filter (λ r, bool_decide (nr_id r ∈ wanted_ids wanted)) (t_resources t)) kept ∧
      length created = length (new_items wanted) ∧
      ∀ n i, new_items wanted !! n = Some i →
        ∃ r, created !! n = Some r ∧ nr_id r = ids n ∧ nr_revision r = 1 ∧ nr_created_at r = at_ ∧ nr_updated_at r = at_ ∧
          carries sha256 (t_org t) i r
  end.

Definition dns_written (t t' : Tables) (v : option Value) : Prop :=
  match v with
  | None => t_dns t' = bumped t
  | Some v => ∃ s, OrgDns.parse_settings domain_to_ascii domain_to_unicode is_alphabetic to_lowercase dns_from_json (print_json v) = Ok s ∧
      let current := OrgDns.org_dns_from_row domain_to_ascii domain_to_unicode is_alphabetic to_lowercase dns_from_json hash (t_dns t) in
      t_dns t' = if bool_decide (dns_value s = dns_value (rs_dns current)) then bumped t
                 else write_org_dns_tx dns_to_json (bumped t) current s
  end.

Lemma set_acl_id t : set_acl t (t_acl t) = t.
Proof. by destruct t. Qed.
Lemma set_rows_id t : set_rows t (t_resources t) = t.
Proof. by destruct t. Qed.
Lemma set_dns_id t : set_dns t (t_dns t) = t.
Proof. by destruct t. Qed.

(** The three surfaces, one after the other, each changing its own table. *)
Lemma apply_tx_steps t who d enforce ids at_ t' applied :
  apply_tx t who d enforce ids at_ = Ok (t', applied) →
  ∃ t0 t1 change dns, (enforce = true → check_base t d = Ok tt) ∧
    apply_policy (bump_control_revision t) (p_policy (d_payload d)) at_ = Ok (t0, change, ap_acl applied) ∧
    apply_resources t0 (u_session who) (p_resources (d_payload d)) ids at_ = Ok (t1, ap_resources applied) ∧
    apply_dns t1 (p_dns (d_payload d)) = Ok (t', dns, ap_dns_settings applied) ∧
    t0 = set_acl (bump_control_revision t) (t_acl t0) ∧ t1 = set_rows t0 (t_resources t1) ∧ t' = set_dns t1 (t_dns t').
Proof.
  unfold apply_tx. intros Ha. apply then_ok in Ha as [Hb Ha]. inv_ok. injection Ha as <- <-.
  rename select (apply_policy _ _ _ = _) into Hp. rename select (apply_resources _ _ _ _ _ = _) into Hr. rename select (apply_dns _ _ = _) into Hd.
  eexists _, _, _, _. split_and!; [by intros ->|exact Hp|exact Hr|exact Hd| | |].
  - apply apply_policy_ok in Hp. destruct (p_policy _); [destruct Hp as (? & _ & _ & _ & ->)|destruct Hp as [-> _]];
    [case_match|]; try done; by rewrite set_acl_id.
  - apply apply_resources_ok in Hr. destruct (p_resources _); [by destruct Hr as (? & ? & ? & _ & _ & _ & ->)|destruct Hr as [-> _]; by rewrite set_rows_id].
  - apply apply_dns_ok in Hd. destruct (p_dns _); [destruct Hd as (? & _ & _ & ->)|destruct Hd as [-> _]]; cbn zeta;
    [destruct (bool_decide _)|]; try done; by rewrite set_dns_id.
Qed.

Lemma apply_tx_written t who d enforce ids at_ t' applied :
  apply_tx t who d enforce ids at_ = Ok (t', applied) → NoDup (map nr_id (t_resources t)) →
  policy_written t t' (p_policy (d_payload d)) at_ ∧ resources_written t t' (p_resources (d_payload d)) ids at_ ∧
  dns_written t t' (p_dns (d_payload d)) ∧ (∀ acl acl', RoutesInv (org_of t acl) → RoutesInv (org_of t' acl')).
Proof.
  intros (t0 & t1 & change & dns & _ & Hp & Hr & Hd & E0 & E1 & E2)%apply_tx_steps Hkey.
  apply apply_policy_ok in Hp. apply apply_resources_ok in Hr. apply apply_dns_ok in Hd.
  assert (t_dns t1 = bumped t) as Hdns by (rewrite E1 E0; done). assert (t_nodes t' = t_nodes t) as Hn by (rewrite E2 E1 E0; done).
  split_and!.
  - unfold policy_written. assert (t_acl t' = t_acl t0) as -> by (rewrite E2 E1; done). destruct (p_policy _) as [v|]; [|by destruct Hp as [-> _]].
    destruct Hp as (text & Ht & _ & _ & ->). exists text. split; [done|].
    change (t_acl (bump_control_revision t)) with (t_acl t). by destruct (bool_decide _).
  - unfold resources_written. assert (t_resources t' = t_resources t1) as -> by (rewrite E2; done). destruct (p_resources _) as [items|].
    + destruct Hr as (acl & wanted & o' & _ & Hw & Ha & ->). unfold load_resources, org_of in Hw. rewrite E0 in Hw.
      destruct (draft_rows _ _ _ _ _ _ _ Ha) as (kept & created & -> & Hkept & Hlen & Hnew); [by rewrite E0|].
      exists wanted, kept, created. rewrite E0 in Hkept Hnew. done.
    + destruct Hr as [-> _]. by rewrite E0.
  - unfold dns_written. destruct (p_dns _) as [v|]; [|destruct Hd as [-> _]; done].
    destruct Hd as (x & Hx & _ & Hd). exists x. split; [done|]. cbn zeta in Hd |- *. rewrite Hd Hdns.
    change (OrgDns.org_dns_from_row domain_to_ascii domain_to_unicode is_alphabetic to_lowercase dns_from_json hash (bumped t))
      with (OrgDns.org_dns_from_row domain_to_ascii domain_to_unicode is_alphabetic to_lowercase dns_from_json hash (t_dns t)).
    by repeat case_bool_decide.
  - intros acl acl' Hinv. assert (t_resources t' = t_resources t1) as Ht by (rewrite E2; done). destruct (p_resources _) as [items|].
    + destruct Hr as (acl0 & wanted & o' & _ & _ & Ha & ->). apply draft_inv in Ha as Hi; [|eapply RoutesInv_rows; [..|exact Hinv]; simpl; by rewrite E0].
      destruct (draft_rows _ _ _ _ _ _ _ Ha) as (kept & created & -> & _); [by rewrite E0|].
      eapply RoutesInv_rows; [..|exact Hi]; simpl; [|done]. rewrite Hn. by rewrite E0.
    + destruct Hr as [-> _]. eapply RoutesInv_rows; [..|exact Hinv]; simpl; [by rewrite Hn|]. by rewrite Ht E0.
Qed.

(** ** Edges of the topology *)

(** Ids as [uuid] prints them have no separator of the keys. *)
Definition plain_ids (t : Tables) : Prop :=
  (∀ d, d ∈ t_nodes t → 124 ∉ on_id (d_node d)) ∧ ∀ r, r ∈ t_resources t → 124 ∉ nr_id r.

(** An id [Uuid::new_v4] has just made. *)
Definition fresh (t : Tables) (id : Uuid) : Prop :=
  (∀ r, r ∈ t_resources t → nr_id r ≠ id) ∧ (∀ l, l ∈ t_leases t → l_resource l ≠ id) ∧
  (∀ p, p ∈ t_reports t → p_resource p ≠ id) ∧ 124 ∉ id.

Lemma sep_inj (a b x y : str) : 124 ∉ a → 124 ∉ b → a ++ [124] ++ x = b ++ [124] ++ y → a = b ∧ x = y.
Proof.
  intros Ha Hb He. pose proof (split_once_app 124 a x Ha) as H1. pose proof (split_once_app 124 b y Hb) as H2.
  simpl in He, H1, H2. rewrite He H2 in H1. by simplify_eq.
Qed.

Lemma kind_plain k : 124 ∉ kind_str k.
Proof. destruct k; apply (bool_decide_unpack _); by vm_compute. Qed.

Definition plain_edge (e : Edge) : Prop := 124 ∉ e_source e ∧ 124 ∉ default [] (e_target e) ∧ 124 ∉ default [] (e_resource e).

Lemma key_inj e e' : plain_edge e → plain_edge e' → key e = key e' →
  kind_str (e_kind e) = kind_str (e_kind e') ∧ default [] (e_resource e) = default [] (e_resource e').
Proof.
  intros (Hs & Ht & Hr) (Hs' & Ht' & Hr') Hk. unfold key in Hk.
  apply sep_inj in Hk as [Hkind Hk]; [|apply kind_plain..].
  apply sep_inj in Hk as [_ Hk]; [|done..]. apply sep_inj in Hk as [_ Hk]; [|done..]. by apply sep_inj in Hk as [? _].
Qed.

Lemma evaluated_elem inputs v : v ∈ evaluated inputs → v ∈ in_nodes inputs.
Proof. intros Hv. apply elem_of_take in Hv as (i & Hv & _). apply list_elem_of_lookup_2, filter_elem in Hv. apply Hv. Qed.

Lemma by_id_elem inputs id v : by_id inputs id = Some v → v ∈ evaluated inputs.
Proof. intros [Hv _]%find_elem. apply list_elem_of_In. apply in_rev. by apply list_elem_of_In. Qed.

Lemma input_ids checks rows at_ v : v ∈ in_nodes (load_inputs checks rows at_) → ∃ d, d ∈ rows ∧ v_id v = on_id (d_node d).
Proof. simpl. intros (d & -> & [Hd _]%filter_elem)%list_elem_of_fmap. by exists d. Qed.

Lemma pair_edge_shape inputs acl now a b e :
  e ∈ pair_edges inputs acl now a b → e_source e = v_id a ∧ e_target e = Some (v_id b) ∧ e_resource e = None ∧ e_kind e ≠ ResourceEdge.
Proof.
  unfold pair_edges. case_bool_decide; [by intros ?%not_elem_of_nil|].
  destruct (subject_of inputs a) as [[x ?]|]; [|by intros ?%not_elem_of_nil]. destruct (subject_of inputs b) as [[y f]|]; [|by intros ?%not_elem_of_nil].
  intros [He|He]%elem_of_app.
  - unfold device_edge in He. case_match; [|by apply not_elem_of_nil in He]. by apply list_elem_of_singleton in He as ->.
  - unfold route_edges in He. case_match; [|by apply not_elem_of_nil in He]. apply list_elem_of_fmap in He as (c & -> & _).
    simpl. by destruct (is_default_route c).
Qed.

Lemma resource_edge_shape inputs detail e :
  e ∈ resource_edges inputs detail →
  ∃ router source, router ∈ evaluated inputs ∧ source ∈ evaluated inputs ∧ e = resource_edge detail router source.
Proof.
  unfold resource_edges. destruct (rd_selected detail ≫= by_id inputs) as [router|] eqn:Hr; [|by intros ?%not_elem_of_nil].
  intros (client & _ & He)%list_elem_of_omap. destruct (cd_receives client); [|done]. apply fmap_Some in He as (v & Hv & ->).
  exists router, v. split_and!; [|by eapply by_id_elem|done]. apply bind_Some in Hr as (id & _ & Hr). by eapply by_id_elem.
Qed.

Lemma edges_elem inputs acl now nets e :
  e ∈ (edges inputs acl now nets).1 ↔
  (∃ a b, a ∈ evaluated inputs ∧ b ∈ evaluated inputs ∧ e ∈ pair_edges inputs acl now a b) ∨
  ∃ detail, detail ∈ nets ∧ e ∈ resource_edges inputs detail.
Proof.
  unfold edges. simpl. rewrite elem_of_app !flat_map_elem. setoid_rewrite flat_map_elem. naive_solver.
Qed.

(** Leases and reports are by id: a new resource has none. *)
Lemma no_leases_of o at_ id node : (∀ l, l ∈ org_leases o → l_resource l ≠ id) → leases_of (load_leases o at_) id node = [].
Proof.
  intros Hf. unfold leases_of, load_leases. simpl. apply list_filter_nil. intros l Hl. rewrite sort_by_perm in Hl. apply filter_elem in Hl as [Hl _].
  unfold of_connector. by rewrite bool_decide_false; [|apply Hf].
Qed.

Lemma no_report_of o at_ id node : (∀ p, p ∈ org_reports o → p_resource p ≠ id) → report_of (load_leases o at_) id node = None.
Proof.
  intros Hf. unfold report_of, load_leases. simpl. rewrite list_filter_nil; [done|]. intros l Hl. rewrite sort_by_perm in Hl.
  apply filter_elem in Hl as [Hl _]. by rewrite bool_decide_false; [|apply Hf].
Qed.

(** Two new resources that differ in their ids have the same router and clients. *)
Lemma evaluate_twin o nodes acl at_ now p id1 id2 :
  (∀ l, l ∈ org_leases o → l_resource l ≠ id1 ∧ l_resource l ≠ id2) → (∀ r, r ∈ org_reports o → p_resource r ≠ id1 ∧ p_resource r ≠ id2) →
  let d1 := Resources.evaluate (stored id1 p 1 at_ at_) nodes acl (load_leases o now) now in
  let d2 := Resources.evaluate (stored id2 p 1 at_ at_) nodes acl (load_leases o now) now in
  rd_selected d1 = rd_selected d2 ∧ rd_clients d1 = rd_clients d2.
Proof.
  intros Hl Hr. unfold Resources.evaluate.
  change (evaluate_peers (stored id1 p 1 at_ at_) nodes now) with (evaluate_peers (stored id2 p 1 at_ at_) nodes now).
  destruct (evaluate_peers _ _ _) as [[sel|] peers]; [|done]. simpl.
  rewrite !no_leases_of; [|by intros l ?%Hl; destruct_and?..]. by rewrite !no_report_of; [|by intros r ?%Hr; destruct_and?..].
Qed.

(** ** The preview's edges and those of the publication *)

Lemma resources_twin t session items ids1 ids2 at_ u1 c1 u2 c2 :
  apply_resources t session items ids1 at_ = Ok (u1, c1) → apply_resources t session items ids2 at_ = Ok (u2, c2) →
  ∃ kept ps, t_resources u1 = kept ++ imap (λ n p, stored (ids1 n) p 1 at_ at_) ps ∧
             t_resources u2 = kept ++ imap (λ n p, stored (ids2 n) p 1 at_ at_) ps.
Proof.
  intros H1%apply_resources_ok H2%apply_resources_ok. destruct items as [items|].
  - destruct H1 as (acl & wanted & o1 & Ha & Hw & Hd1 & ->), H2 as (acl2 & wanted2 & o2 & Ha2 & Hw2 & Hd2 & ->).
    rewrite Ha in Ha2. injection Ha2 as <-. rewrite Hw in Hw2. injection Hw2 as <-. unfold apply_draft_tx in Hd1, Hd2.
    apply then_ok in Hd1 as [_ Hd1]. apply then_ok in Hd2 as [_ Hd2].
    apply bind_ok in Hd1 as (x & Hx & Hd1). apply bind_ok in Hd1 as (y & Hy & Hc1%creates_rows). rewrite Hx /= Hy /= in Hd2.
    apply creates_rows in Hd2 as (ps2 & Hps2 & ->). destruct Hc1 as (ps & Hps & ->). rewrite Hps in Hps2. injection Hps2 as <-. eauto.
  - destruct H1 as [-> _], H2 as [-> _]. exists (t_resources t), []. by rewrite app_nil_r.
Qed.

Definition detail_of (t : Tables) (acl : Acl) (at_ : Z) (r : NetworkResource) : ResourceDetail :=
  Resources.evaluate r (load_org_nodes (org_of t acl)) acl (load_leases (org_of t acl) at_) at_.

Lemma overview_elem t acl at_ d : d ∈ overview (org_of t acl) at_ ↔ ∃ r, r ∈ t_resources t ∧ d = detail_of t acl at_ r.
Proof. unfold overview, detail_of. rewrite list_elem_of_fmap. setoid_rewrite load_resources_elem. simpl. naive_solver. Qed.

Lemma detail_same t t' acl at_ r : same_rest t t' → detail_of t' acl at_ r = detail_of t acl at_ r.
Proof. intros [H1 H2 _ H3 H4 _]. unfold detail_of, load_org_nodes, load_leases, org_of. simpl. by rewrite H1 H2 H3 H4. Qed.

Lemma overview_rest t u acl at_ d : same_rest t u → d ∈ overview (org_of u acl) at_ ↔ ∃ r, r ∈ t_resources u ∧ d = detail_of t acl at_ r.
Proof.
  intros Hr. rewrite overview_elem. split; intros (r & Hin & ->); exists r; (split; [done|]); [|symmetry]; by apply detail_same.
Qed.

Section compare.
Context (t t1 t2 : Tables) (acl acl' in_force in_force' : Acl) (at_ : Z) (ids1 ids2 : nat → Uuid).
Context (kept : list NetworkResource) (ps : list Prepared).
Context (Hrest1 : same_rest t t1) (Hrest2 : same_rest t t2) (Hplain : plain_ids t).
Context (Hfresh1 : ∀ n, fresh t (ids1 n)) (Hfresh2 : ∀ n, fresh t (ids2 n)).
Context (Hrows1 : t_resources t1 = kept ++ imap (λ n p, stored (ids1 n) p 1 at_ at_) ps).
Context (Hrows2 : t_resources t2 = kept ++ imap (λ n p, stored (ids2 n) p 1 at_ at_) ps).

#[local] Abbreviation inputs := (load_inputs (t_checks t) (t_nodes t) at_).
#[local] Abbreviation before := (edges inputs acl at_ (overview (org_of t in_force) at_)).1.
#[local] Abbreviation after u := (edges inputs acl' at_ (overview (org_of u in_force') at_)).1.

Lemma node_plain v : v ∈ evaluated inputs → 124 ∉ v_id v.
Proof. intros (d & Hd & ->)%evaluated_elem%input_ids. by apply (proj1 Hplain). Qed.

Lemma resource_edge_plain detail e : e ∈ resource_edges inputs detail → 124 ∉ nr_id (rd_resource detail) → plain_edge e.
Proof.
  intros (router & source & Hr & Hs & ->)%resource_edge_shape Hp. unfold plain_edge. simpl. split_and!; [by apply node_plain..|done].
Qed.

Lemma before_plain e : e ∈ before → plain_edge e ∧ (e_kind e = ResourceEdge → ∃ r, r ∈ t_resources t ∧ e_resource e = Some (nr_id r)).
Proof.
  rewrite edges_elem. intros [(a & b & Ha & Hb & He)|(d & (r & Hr & ->)%overview_elem & He)].
  - apply pair_edge_shape in He as (Hs & Ht & Hr & Hk). unfold plain_edge. rewrite Hs Ht Hr. simpl.
    split; [|done]. split_and!; [by apply node_plain..|apply not_elem_of_nil].
  - split; [eapply resource_edge_plain; [exact He|]; by apply (proj2 Hplain)|]. intros _.
    apply resource_edge_shape in He as (? & ? & _ & _ & ->). by exists r.
Qed.

(** An edge of a new resource is new. *)
Lemma created_is_new n p e :
  e ∈ resource_edges inputs (detail_of t in_force' at_ (stored (ids1 n) p 1 at_ at_)) → key e ∉ map key before.
Proof.
  intros He (e0 & Hk & He0)%list_elem_of_fmap. destruct (Hfresh1 n) as (Hf & _ & _ & Hp).
  apply before_plain in He0 as [Hp0 Hr0]. apply key_inj in Hk as [Hkind Hres]; [|by eapply resource_edge_plain|done].
  apply resource_edge_shape in He as (? & ? & _ & _ & ->). simpl in Hkind, Hres.
  destruct Hr0 as (r & Hr & Hr0); [by destruct (e_kind e0)|]. rewrite Hr0 /= in Hres. by apply (Hf r Hr).
Qed.

Lemma new_row ids n r :
  imap (λ n p, stored (ids n) p 1 at_ at_) ps !! n = Some r → ∃ p, ps !! n = Some p ∧ r = stored (ids n) p 1 at_ at_.
Proof. rewrite list_lookup_imap. intros (p & Hp & ->)%fmap_Some. eauto. Qed.

Lemma twin_edge n p e :
  e ∈ resource_edges inputs (detail_of t in_force' at_ (stored (ids2 n) p 1 at_ at_)) →
  ∃ e1, e1 ∈ resource_edges inputs (detail_of t in_force' at_ (stored (ids1 n) p 1 at_ at_)) ∧ e_kind e1 = e_kind e.
Proof.
  intros He. pose proof (evaluate_twin (org_of t in_force') (load_org_nodes (org_of t in_force')) in_force' at_ at_ p (ids1 n) (ids2 n)) as Ht.
  destruct Ht as [Hs Hc].
  { intros l Hl. split; [by apply (Hfresh1 n)|by apply (Hfresh2 n)]. }
  { intros r Hr. split; [by apply (Hfresh1 n)|by apply (Hfresh2 n)]. }
  unfold resource_edges in He |- *. unfold detail_of in He |- *. rewrite Hs Hc.
  destruct (rd_selected _ ≫= by_id inputs) as [router|]; [|by apply not_elem_of_nil in He].
  apply list_elem_of_omap in He as (client & Hcl & He). destruct (cd_receives client) eqn:Hrec; [|done].
  apply fmap_Some in He as (v & Hv & ->). eexists. split; [apply list_elem_of_omap; exists client; split; [done|]; by rewrite Hrec Hv|done].
Qed.

Lemma after_opens e : e ∈ after t2 → key e ∉ map key before → ∃ e1, e1 ∈ after t1 ∧ key e1 ∉ map key before ∧ e_kind e1 = e_kind e.
Proof.
  intros He Hk. apply edges_elem in He as [Hpair|(d & (r & Hr & ->)%(overview_rest _ _ _ _ _ Hrest2) & He)].
  { exists e. split; [|done]. apply edges_elem. by left. }
  rewrite Hrows2 in Hr. apply elem_of_app in Hr as [Hr|(n & (p & Hp & ->)%new_row)%list_elem_of_lookup].
  - exists e. split; [|done]. apply edges_elem. right. eexists. split; [|exact He]. apply (overview_rest _ _ _ _ _ Hrest1).
    exists r. split; [|done]. rewrite Hrows1. apply elem_of_app. by left.
  - apply twin_edge in He as (e1 & He1 & Hkind). exists e1. split_and!; [|by eapply created_is_new|done].
    apply edges_elem. right. eexists. split; [|exact He1]. apply (overview_rest _ _ _ _ _ Hrest1). eexists. split; [|done].
    rewrite Hrows1. apply elem_of_app. right. apply list_elem_of_lookup. exists n. by rewrite list_lookup_imap Hp.
Qed.

Lemma after_closes e : e ∈ before → key e ∉ map key (after t2) → key e ∉ map key (after t1).
Proof.
  intros He Hk (e1 & Hkey & He1)%list_elem_of_fmap. apply edges_elem in He1.
  destruct He1 as [Hpair|(d & (r & Hr & ->)%(overview_rest _ _ _ _ _ Hrest1) & He1)].
  { apply Hk, list_elem_of_fmap. exists e1. split; [done|]. apply edges_elem. by left. }
  rewrite Hrows1 in Hr. apply elem_of_app in Hr as [Hr|(n & (p & Hp & ->)%new_row)%list_elem_of_lookup].
  - apply Hk, list_elem_of_fmap. exists e1. split; [done|]. apply edges_elem. right. eexists. split; [|exact He1].
    apply (overview_rest _ _ _ _ _ Hrest2). exists r. split; [|done]. rewrite Hrows2. apply elem_of_app. by left.
  - apply created_is_new in He1. apply He1. rewrite -Hkey. apply list_elem_of_fmap. eauto.
Qed.
End compare.

(** ** Risks *)

Lemma first_of_code_keeps f flags seen :
  f ∈ flags → rf_code f ∈ seen ∨ ∃ f', f' ∈ first_of_code seen flags ∧ rf_code f' = rf_code f.
Proof.
  revert seen; induction flags as [|x flags IH]; intros seen; [by intros ?%not_elem_of_nil|]. simpl.
  intros [->|Hf]%elem_of_cons; (case_bool_decide as Hs; [|]).
  - by left.
  - right. exists x. split; [constructor|done].
  - by apply IH.
  - destruct (IH (rf_code x :: seen) Hf) as [[Hx|Hin]%elem_of_cons|(f' & Hf' & He)]; [|by left|].
    + right. exists x. split; [constructor|done].
    + right. exists f'. split; [by constructor|done].
Qed.

Lemma kept_code f flags : f ∈ flags → ∃ f', f' ∈ first_of_code [] flags ∧ rf_code f' = rf_code f.
Proof. intros Hf. by destruct (first_of_code_keeps f flags [] Hf) as [?%not_elem_of_nil|]. Qed.

Lemma risks_widened live d ap added removed warnings :
  added ≠ [] → ∃ f, f ∈ risks live d ap added removed warnings ∧ rf_code f = AccessWidened.
Proof.
  intros Ha. apply (kept_code (mkRiskFlag AccessWidened High)). rewrite !elem_of_app. right; right; right; left.
  destruct added; [done|constructor].
Qed.

Lemma risks_exposed live d ap added removed warnings e :
  e ∈ added → e_kind e = ExitEdge → ∃ f, f ∈ risks live d ap added removed warnings ∧ rf_code f = DefaultRouteExposure.
Proof.
  intros He Hk. apply (kept_code (mkRiskFlag DefaultRouteExposure High)). rewrite !elem_of_app. right; right; left.
  rewrite (proj2 (existsb_elem _ _)); [constructor|]. exists e. by rewrite bool_decide_true.
Qed.

Lemma risks_removed live d ap added removed warnings :
  removed ≠ [] → ∃ f, f ∈ risks live d ap added removed warnings ∧ rf_code f = AccessRemoved.
Proof.
  intros Ha. apply (kept_code (mkRiskFlag AccessRemoved Caution)). rewrite !elem_of_app. right; right; right; right; left.
  destruct removed; [done|constructor].
Qed.

(** All reads of a preview find the same tables. *)
Definition at_once (t : Tables) : PreviewReads := mkPreviewReads t t t t t.

Lemma preview_shape t who d ids at_ pv :
  compute_preview (at_once t) who d [] ids at_ = Ok pv → pv_valid pv = true →
  ∃ live before_acl t' ap before after b1 b2 warnings, live_tx t = Ok live ∧ acl_of_value (lv_policy live) = Some before_acl ∧
    edges_of t t before_acl at_ = Ok (before, b1) ∧ apply_tx t who d false ids at_ = Ok (t', ap) ∧
    edges_of t t' (default before_acl (ap_acl ap)) at_ = Ok (after, b2) ∧
    pv_risks pv = risks live d ap (edge_delta before after).1 (edge_delta before after).2 warnings.
Proof.
  unfold compute_preview. simpl. intros Hp Hv. apply bind_ok in Hp as (live & Hl & Hp). apply bind_ok in Hp as (acl & Ha%ok_or_ok & Hp).
  apply bind_ok in Hp as ([before b1] & Hb & Hp). destruct (apply_tx t who d false ids at_) as [[t' ap]|] eqn:Ht; [|by simplify_eq/=].
  apply bind_ok in Hp as ([after b2] & Hf & Hp). simpl in Hp. injection Hp as <-. eexists live, acl, t', ap, before, after, b1, b2, _. done.
Qed.

Lemma policy_in_force t v at_ t0 change acl f :
  apply_policy (bump_control_revision t) v at_ = Ok (t0, change, acl) → acl_from_str (acl_json (t_acl t)) = Some f →
  acl_from_str (acl_json (t_acl t0)) = Some (default f acl).
Proof.
  intros Hp%apply_policy_ok Hf. destruct v as [v|]; [|by destruct Hp as [-> ->]]. destruct Hp as (text & _ & <- & [a Ha] & ->).
  rewrite Ha. simpl. case_bool_decide as He; [|done]. simpl in He |- *. by rewrite -He.
Qed.

Lemma elem_nonempty {A} (x : A) l : x ∈ l → l ≠ [].
Proof. intros Hx ->. by apply not_elem_of_nil in Hx. Qed.

Lemma ok_first {E A B} (x : A * B) a b : @Ok E _ x = Ok (a, b) → x.1 = a.
Proof. by intros [= ->]. Qed.

Lemma edges_of_rest t u acl at_ f :
  acl_from_str (acl_json (t_acl u)) = Some f →
  edges_of t u acl at_ = Ok (edges (load_inputs (t_checks t) (t_nodes t) at_) acl at_ (overview (org_of u f) at_)).
Proof. intros Hf. unfold edges_of. by rewrite Hf. Qed.

(** The preview and the publication of a draft on the same tables. *)
Lemma preview_and_publication t who d ids1 ids at_ t1 ap1 t2 ap2 f :
  apply_tx t who d false ids1 at_ = Ok (t1, ap1) → apply_tx t who d true ids at_ = Ok (t2, ap2) →
  acl_from_str (acl_json (t_acl t)) = Some f →
  ∃ kept ps f', ap_acl ap1 = ap_acl ap2 ∧ f' = default f (ap_acl ap1) ∧
    acl_from_str (acl_json (t_acl t1)) = Some f' ∧ acl_from_str (acl_json (t_acl t2)) = Some f' ∧
    t_resources t1 = kept ++ imap (λ n p, stored (ids1 n) p 1 at_ at_) ps ∧
    t_resources t2 = kept ++ imap (λ n p, stored (ids n) p 1 at_ at_) ps.
Proof.
  intros (u0 & u1 & c1 & dns1 & _ & Hp1 & Hr1 & _ & _ & E1 & E1')%apply_tx_steps (v0 & v1 & c2 & dns2 & _ & Hp2 & Hr2 & _ & _ & E2 & E2')%apply_tx_steps Hf.
  rewrite Hp1 in Hp2. injection Hp2 as <- <- Hacl. destruct (resources_twin _ _ _ _ _ _ _ _ _ _ Hr1 Hr2) as (kept & ps & Hk1 & Hk2).
  exists kept, ps, (default f (ap_acl ap1)). pose proof (policy_in_force _ _ _ _ _ _ _ Hp1 Hf) as Hin.
  split_and!; [done|done| | | |]; [rewrite E1' E1; exact Hin|rewrite E2' E2; exact Hin|by rewrite E1' E1 /= -?E1|by rewrite E2' /=].
Qed.
End publication.

(** [C21] Drafts under concurrent requests: whatever requests run and wherever they read,
    the ids of an organisation's drafts are unique; every draft has a payload that
    passes the checks and a base for each of its surfaces, expires seven days after
    its creation, is closed when its closing time is set and published when it has a
    result; and each draft of any earlier time is still there, unchanged if it was
    closed then, with a version that never falls, and unchanged if it is open and has
    the same version. *)
Theorem draft_lifecycle `{Codecs} (t : Tables) (past : list Tables) (Hh : history (t :: past)) :
  NoDup (map d_id (t_drafts t)) ∧ Forall DraftOk (t_drafts t) ∧
  ∀ u d, u ∈ past → d ∈ t_drafts u → ∃ d', d' ∈ t_drafts t ∧ later d d'.
Proof.
  destruct (history_inv _ _ Hh) as [Hids Hrows Hlater]. split_and!; [done|apply Hrows; set_solver|].
  intros u d Hu Hd. eapply continues_elem; [|exact Hd]. apply Hlater. set_solver.
Qed.

(** [C19] A publication is exact: whatever other requests do between the moment the draft
    is read and the transaction, a publication that succeeds finds the very draft it
    read, open and at the version asked for, by someone who may manage each of its
    surfaces, with the base of each surface equal to the live one when the
    transaction runs.  It then writes the policy, resources and DNS of the draft and
    nothing of the surfaces the draft leaves alone.  The resource rows (whose ids are
    unique, the table's key) become the full set the draft lists: a row it does not
    name is gone; a row it names is unchanged where its item says what the row says,
    and otherwise holds what the item says at the next revision; each new item has a
    new row that holds what it says.  The control revision rises once; routes that
    were apart stay apart; and of the drafts this one is closed, at its next version. *)
Theorem publication_is_exact `{Codecs} (t : Tables) (past : list Tables) (loaded : Tables) (read : PreviewReads) (who : User) (id : Uuid) (version : Z)
    (confirm : list str) (ids1 ids : nat → Uuid) (at0 at_ : Z) (t' : Tables)
    (Hh : history (t :: past)) (Hloaded : loaded ∈ t :: past) (Hkey : NoDup (map nr_id (t_resources t)))
    (Hp : publish loaded read t who id version confirm ids1 ids at0 at_ = Ok t') :
  ∃ draft outcome, draft ∈ t_drafts loaded ∧ draft ∈ t_drafts t ∧ d_id draft = id ∧ d_status draft = Open ∧ d_version draft = version ∧
    may_manage who (surfaces (d_payload draft)) = true ∧ check_base t draft = Ok tt ∧
    policy_written t t' (p_policy (d_payload draft)) at_ ∧ resources_written t t' (p_resources (d_payload draft)) ids at_ ∧
    dns_written t t' (p_dns (d_payload draft)) ∧ control_revision (t_dns t') = control_revision (t_dns t) + 1 ∧
    (∀ acl acl', RoutesInv (org_of t acl) → RoutesInv (org_of t' acl')) ∧
    t_drafts t' = map (λ d, if bool_decide (d_id d = id) then close_draft who at_ Published (Some outcome) d else d) (t_drafts t).
Proof.
  apply publish_shape in Hp as (draft & pv & t1 & applied & Hl & Ho & Hv & Hr & _ & _ & _ & _ & Ha & Hc).
  pose proof (apply_tx_written _ _ _ _ _ _ _ _ Ha Hkey) as (Hpol & Hres & Hdns & Hinv). pose proof (apply_tx_rest _ _ _ _ _ _ _ _ Ha) as [Hrest Hctl].
  apply apply_tx_steps in Ha as (_ & _ & _ & _ & Hb & _). apply commit_row_ok in Hc as [(d & Hd & Hh') ->].
  rewrite (rest_drafts _ _ Hrest) in Hd |- *. pose proof (history_inv _ _ Hh) as Hi.
  pose proof (λ d, same_row _ _ _ _ _ _ _ d Hi Hloaded Hl Ho Hv) as Hsame. pose proof (Hsame d Hd Hh') as ->.
  destruct (load_draft_open _ _ _ _ Hl Ho) as [Hin Hid].
  eexists draft, _. split_and!; try done; [|by apply Hb|].
  - apply forallb_forall. intros s Hs%list_elem_of_In. unfold require_surfaces in Hr. apply try_each_ok in Hr. rewrite Forall_forall in Hr.
    specialize (Hr s Hs). unfold require in Hr. by destruct (can _ _).
  - simpl. apply map_ext_in. intros d Hd'%list_elem_of_In. destruct (hits id version d) eqn:Hhit.
    + rewrite bool_decide_true; [done|]. by rewrite (Hsame d Hd' Hhit).
    + rewrite bool_decide_false; [done|]. intros He. rewrite -Hid in He.
      assert (d = draft) as -> by (eapply (nodup_key d_id); [apply (inv_ids _ _ Hi)|done|done|done]). congruence.
Qed.

(** [C20] Nothing opens or closes without a confirmation: when a publication succeeds on
    the tables its preview was computed on, the topology before and after it can be
    built, and every path the new topology has and the old one has not was confirmed
    as [access_widened], one through an exit node also as [default_route_exposure],
    and every path that is gone as [access_removed]; although the ids of created
    resources are not those of the preview. *)
Theorem nothing_opens_unconfirmed `{Codecs} (loaded t : Tables) (who : User) (id : Uuid) (version : Z) (confirm : list str)
    (ids1 ids : nat → Uuid) (at_ : Z) (t' : Tables)
    (Hp : publish loaded (at_once t) t who id version confirm ids1 ids at_ at_ = Ok t')
    (Htext : ∀ v, parse_json (acl_json (t_acl t)) = Some v → acl_of_value v = acl_from_str (acl_json (t_acl t)))
    (Hplain : plain_ids t) (Hfresh1 : ∀ n, fresh t (ids1 n)) (Hfresh : ∀ n, fresh t (ids n)) :
  ∃ before after b1 b2, build t at_ = Ok (before, b1) ∧ build t' at_ = Ok (after, b2) ∧
    (∀ e, e ∈ after → key e ∉ map key before →
       lit "access_widened" ∈ confirm ∧ (e_kind e = ExitEdge → lit "default_route_exposure" ∈ confirm)) ∧
    (∀ e, e ∈ before → key e ∉ map key after → lit "access_removed" ∈ confirm).
Proof.
  apply publish_shape in Hp as (draft & pv & t2 & ap2 & _ & _ & _ & _ & Hpv & _ & Hvalid & Hconf & Ha2 & Hc).
  apply preview_shape in Hpv as (live & acl & t1 & ap1 & before & after1 & b1 & b2 & w & Hlive & Hacl & Hbefore & Ha1 & Hafter & Hrisks); [|done].
  assert (acl_from_str (acl_json (t_acl t)) = Some acl) as Hf.
  { rewrite -Hacl. symmetry. apply Htext. unfold live_tx in Hlive. destruct (draft_snapshot t). inv_ok. by subst. }
  destruct (preview_and_publication _ _ _ _ _ _ _ _ _ _ _ Ha1 Ha2 Hf) as (kept & ps & f' & Hacl2 & Hf' & Hf1 & Hf2 & Hrows1 & Hrows2).
  destruct (apply_tx_rest _ _ _ _ _ _ _ _ Ha1) as [Hrest1 _]. destruct (apply_tx_rest _ _ _ _ _ _ _ _ Ha2) as [Hrest2 _].
  apply commit_row_ok in Hc as [_ ->]. rewrite -Hf' in Hafter.
  rewrite (edges_of_rest t t acl at_ acl Hf) in Hbefore. rewrite (edges_of_rest t t1 f' at_ f' Hf1) in Hafter.
  apply ok_first in Hbefore, Hafter. rewrite Hrisks in Hconf.
  set (before_all := edges _ acl at_ _) in Hbefore. set (after_all := edges (load_inputs (t_checks t) (t_nodes t) at_) f' at_ (overview (org_of t2 f') at_)).
  exists before_all.1, after_all.1, before_all.2, after_all.2. rewrite -!surjective_pairing. split_and!.
  - unfold build. rewrite Hf /=. by rewrite (edges_of_rest t t acl at_ acl Hf).
  - unfold build. simpl. rewrite Hf2 /=. unfold edges_of. simpl. rewrite Hf2 /=. by rewrite (rest_checks _ _ Hrest2) (rest_nodes _ _ Hrest2).
  - intros e He Hk. destruct (after_opens t t1 t2 acl f' acl f' at_ ids1 ids kept ps Hrest1 Hrest2 Hplain Hfresh1 Hfresh Hrows1 Hrows2 e He Hk)
      as (e1 & He1 & Hk1 & Hkind). rewrite Hafter in He1. fold before_all in Hk1. rewrite Hbefore in Hk1.
    assert (e1 ∈ (edge_delta before after1).1) as Hadd by (apply filter_elem; split; [done|]; by rewrite bool_decide_false).
    split.
    + destruct (risks_widened live draft ap1 _ (edge_delta before after1).2 w (elem_nonempty _ _ Hadd)) as (x & Hx & Hcode). specialize (Hconf x Hx). by rewrite Hcode in Hconf.
    + intros Hexit. destruct (risks_exposed live draft ap1 _ (edge_delta before after1).2 w e1 Hadd) as (x & Hx & Hcode); [congruence|].
      specialize (Hconf x Hx). by rewrite Hcode in Hconf.
  - intros e He Hk. pose proof (after_closes t t1 t2 acl f' acl f' at_ ids1 ids kept ps Hrest1 Hrest2 Hplain Hfresh1 Hrows1 Hrows2 e He Hk) as Hk1.
    rewrite Hafter in Hk1. rewrite Hbefore in He.
    assert (e ∈ (edge_delta before after1).2) as Hrem by (apply filter_elem; split; [done|]; by rewrite bool_decide_false).
    destruct (risks_removed live draft ap1 (edge_delta before after1).1 _ w (elem_nonempty _ _ Hrem)) as (x & Hx & Hcode). specialize (Hconf x Hx). by rewrite Hcode in Hconf.
Qed.

(** ** A run *)

Definition text (s : string) : Value := JString (lit s).
Definition rule_doc (action : string) (ports : list Value) : Value :=
  JObject [(lit "action", text action); (lit "dst_ports", JArray ports); (lit "src_roles", JArray [text "member"])].
Definition policy_doc (rules : list Value) : Value := JObject [(lit "defaults", text "deny"); (lit "rules", JArray rules)].

Definition closed_doc : Value := policy_doc [].
Definition open_doc : Value := policy_doc [rule_doc "allow" []].
Definition members (action : Action) (ports : list str) : AclRule := mkAclRule action [Member] [] [] [] [] [] [] ports [] [].
Definition policy_of (rules : list AclRule) : Acl := mkAcl 1 DenyAll [] [] [] rules [] [] None.

Definition lan_doc : Value := JObject [(lit "name", text "lan")].
Definition lan : ResourceInput :=
  mkResourceInput (lit "lan") [] (Some (lit "10.9.0.0/16")) None [] [] [mkRoutingPeer (lit "node-r") 10]
    (mkResourceAccess [Member] [] []) true false false None None false.

(** Another prefix, switched off by the draft that names its row. *)
Definition wiki_doc : Value := JObject [(lit "name", text "wiki")].
Definition wiki : ResourceInput :=
  mkResourceInput (lit "wiki") [] (Some (lit "10.8.0.0/16")) None [] [] [mkRoutingPeer (lit "node-r") 10]
    (mkResourceAccess [Member] [] []) false false false None None false.
Definition prefix_row (id name cidr : string) : NetworkResource :=
  mkNetworkResource (lit id) (lit name) [] Cidr (Some (lit cidr)) None [] [] [mkRoutingPeer (lit "node-r") 10]
    (mkResourceAccess [Member] [] []) true false None 3 500 600.

#[local] Instance demo_codecs : Codecs := {|
  sha256 := λ x, x;
  domain_to_ascii := λ x, Some x;
  domain_to_unicode := λ x, x;
  is_alphabetic := λ _, false;
  to_lowercase := to_ascii_lowercase;
  parse_json := λ s, if seq_b s "closed" then Some closed_doc else if seq_b s "open" then Some open_doc else None;
  print_json := λ v, if bool_decide (v = closed_doc) then lit "closed" else if bool_decide (v = open_doc) then lit "open" else lit "{}";
  acl_of_value := λ v, if bool_decide (v = closed_doc) then Some (policy_of [])
                       else if bool_decide (v = open_doc) then Some (policy_of [members Allow []]) else None;
  acl_from_str := λ s, if seq_b s "closed" then Some (policy_of [])
                       else if seq_b s "open" then Some (policy_of [members Allow []]) else None;
  input_of_value := λ v, if bool_decide (v = lan_doc) then Some lan else if bool_decide (v = wiki_doc) then Some wiki else None;
  item_value := λ r, JObject [(lit "id", JString (nr_id r))];
  parse_uuid := λ s, Some s;
  dns_value := λ _, JNull;
  dns_to_json := λ _, lit "{}";
  dns_from_json := λ _, Some default_settings
|}.

Definition device (id : string) (advertised : list str) : DeviceRow :=
  mkDeviceRow (mkOrgNode (lit id) (lit id) (lit id) false false false None advertised [] (Some 950) 5000
                 (mkSubject Member [] (lit id) [] [] None) [])
    (Posture.mkNodeFacts (lit id) None None None [] 900 (Some 900) 5000 None []) [] None None.

Definition demo_start : Tables :=
  mkTables (lit "org") (mkAclRow (lit "closed") 4 None) (mkDnsRow (lit "{}") 2 None 30 [])
    [device "node-c" []; device "node-r" [lit "10.9.0.0/16"]] [] [] [] [] [].

Definition alice : User := mkUser (mkSession (lit "alice") Admin) (lit "Alice") [].
Definition demo_id : Uuid := lit "draft-1".
Definition demo_payload : Payload := mkPayload (Some open_doc) None (Some [lan_doc]).
(** One resource is created. *)
Definition preview_ids (n : nat) : Uuid := lit "preview-1".
Definition publish_ids (n : nat) : Uuid := lit "resource-1".

Definition ok_tables (r : result ChangeError Tables) : Tables := match r with Ok t => t | Err _ => demo_start end.

Definition demo_created : Tables := ok_tables (create_draft demo_start demo_start alice (lit "open the lan") [OnPolicy; OnResources] demo_id 1000).
Definition demo_edited : Tables :=
  ok_tables (update_draft demo_created demo_created demo_created alice demo_id (mkUpdateRequest 1 None demo_payload) 1010).
Definition demo_publish : result ChangeError Tables :=
  publish demo_edited (at_once demo_edited) demo_edited alice demo_id 2 [lit "access_widened"] preview_ids publish_ids 1020 1020.

Lemma demo_history : history [demo_edited; demo_created; demo_start].
Proof.
  repeat (eapply history_step); [by apply history_start| |].
  - eapply (step_create _ _ _ demo_start alice (lit "open the lan") [OnPolicy; OnResources] demo_id 1000); [constructor|]. by vm_compute.
  - eapply (step_update _ _ _ demo_created demo_created alice demo_id (mkUpdateRequest 1 None demo_payload) 1010); [constructor|constructor|].
    by vm_compute.
Qed.

Lemma draft_lifecycle_witness :
  history [demo_edited; demo_created; demo_start] ∧ Forall DraftOk (t_drafts demo_edited) ∧
  ∃ d d', d ∈ t_drafts demo_created ∧ d_version d = 1 ∧ d' ∈ t_drafts demo_edited ∧ d_version d' = 2 ∧ later d d'.
Proof.
  destruct (draft_lifecycle demo_edited [demo_created; demo_start] demo_history) as (_ & Hok & Hlater). split_and!; [exact demo_history|exact Hok|].
  destruct (t_drafts demo_created) as [|d l] eqn:Hd; [by vm_compute in Hd|]. assert (d_version d = 1) as Hv by (vm_compute in Hd; by injection Hd as <- _).
  destruct (Hlater demo_created d) as (d' & Hd' & Hl); [constructor|rewrite Hd; constructor|]. exists d, d'. split_and!; [constructor|done|done| |done].
  revert Hd'. vm_compute. by intros ->%list_elem_of_singleton.
Defined.

(** Two prefixes: a draft changes the first, drops the second and creates a third. *)
Definition rows_start : Tables :=
  mkTables (lit "org") (mkAclRow (lit "closed") 4 None) (mkDnsRow (lit "{}") 2 None 30 [])
    [device "node-c" []; device "node-r" [lit "10.9.0.0/16"]] [] [prefix_row "r-1" "wiki" "10.8.0.0/16"; prefix_row "r-2" "old" "10.7.0.0/16"] [] [] [].
Definition rows_payload : Payload := mkPayload None None (Some [JObject [(lit "id", text "r-1"); (lit "name", text "wiki")]; lan_doc]).
Definition rows_created : Tables := ok_tables (create_draft rows_start rows_start alice (lit "tidy up") [OnResources] demo_id 1000).
Definition rows_edited : Tables :=
  ok_tables (update_draft rows_created rows_created rows_created alice demo_id (mkUpdateRequest 1 None rows_payload) 1010).
Definition rows_publish : result ChangeError Tables :=
  publish rows_edited (at_once rows_edited) rows_edited alice demo_id 2 [lit "resource_deleted"] preview_ids publish_ids 1020 1020.

Lemma rows_history : history [rows_edited; rows_created; rows_start].
Proof.
  repeat (eapply history_step); [by apply history_start| |].
  - eapply (step_create _ _ _ rows_start alice (lit "tidy up") [OnResources] demo_id 1000); [constructor|]. by vm_compute.
  - eapply (step_update _ _ _ rows_created rows_created alice demo_id (mkUpdateRequest 1 None rows_payload) 1010); [constructor|constructor|].
    by vm_compute.
Qed.

Lemma publication_is_exact_witness :
  ∃ t', rows_publish = Ok t' ∧ control_revision (t_dns t') = 31 ∧ t_acl t' = t_acl rows_edited ∧
    (∃ draft, draft ∈ t_drafts rows_edited ∧ d_version draft = 2 ∧ check_base rows_edited draft = Ok tt ∧
       resources_written rows_edited t' (p_resources (d_payload draft)) publish_ids 1020) ∧
    map (λ r, (nr_id r, nr_enabled r, nr_revision r)) (t_resources t') = [(lit "r-1", false, 4); (lit "resource-1", true, 1)].
Proof.
  destruct rows_publish as [t'|] eqn:Hp; [|by vm_compute in Hp]. exists t'. split; [done|].
  destruct (publication_is_exact rows_edited [rows_created; rows_start] rows_edited (at_once rows_edited) alice demo_id 2 [lit "resource_deleted"]
    preview_ids publish_ids 1020 1020 t' rows_history) as (draft & outcome & _ & Hin & _ & _ & Hv & _ & Hb & Hpol & Hres & _ & Hc & _ & _);
    [constructor|apply (bool_decide_unpack _); by vm_compute|exact Hp|].
  split_and!.
  - rewrite Hc. vm_compute. reflexivity.
  - transitivity (t_acl (ok_tables rows_publish)); [by rewrite Hp|vm_compute; reflexivity].
  - exists draft. split; [exact Hin|]. split; [exact Hv|]. split; [exact Hb|exact Hres].
  - transitivity (map (λ r, (nr_id r, nr_enabled r, nr_revision r)) (t_resources (ok_tables rows_publish))); [by rewrite Hp|vm_compute; reflexivity].
Defined.

Lemma demo_tables :
  t_nodes demo_edited = t_nodes demo_start ∧ t_resources demo_edited = [] ∧ t_leases demo_edited = [] ∧ t_reports demo_edited = [].
Proof. by vm_compute. Qed.

Lemma demo_fresh id : 124 ∉ id → fresh demo_edited id.
Proof.
  intros Hid. destruct demo_tables as (_ & Hr & Hl & Hp). unfold fresh. rewrite Hr Hl Hp.
  split; [|split; [|split; [|exact Hid]]]; intros x Hx; by apply not_elem_of_nil in Hx.
Qed.

Lemma demo_plain : plain_ids demo_edited.
Proof.
  destruct demo_tables as (Hn & Hr & _). unfold plain_ids. rewrite Hn Hr. split; [|by intros r ?%not_elem_of_nil].
  intros d [-> | ->%list_elem_of_singleton]%elem_of_cons; apply (bool_decide_unpack _); by vm_compute.
Qed.

Lemma nothing_opens_unconfirmed_witness :
  ∃ t' before after b1 b2, demo_publish = Ok t' ∧ build demo_edited 1020 = Ok (before, b1) ∧ build t' 1020 = Ok (after, b2) ∧
    ∀ e, e ∈ after → key e ∉ map key before → lit "access_widened" ∈ [lit "access_widened"].
Proof.
  destruct demo_publish as [t'|] eqn:Hp; [|by vm_compute in Hp]. exists t'.
  destruct (nothing_opens_unconfirmed demo_edited demo_edited alice demo_id 2 [lit "access_widened"] preview_ids publish_ids 1020 t' Hp)
    as (before & after & b1 & b2 & H1 & H2 & H3 & _).
  - intros v Hv. vm_compute in Hv. injection Hv as <-. by vm_compute.
  - exact demo_plain.
  - intros n. apply demo_fresh. apply (bool_decide_unpack _). by vm_compute.
  - intros n. apply demo_fresh. apply (bool_decide_unpack _). by vm_compute.
  - exists before, after, b1, b2. split; [reflexivity|]. split; [exact H1|]. split; [exact H2|].
    intros e He Hk. exact (proj1 (H3 e He Hk)).
Defined.

(** ** What the checks and the risks miss *)

(** A policy with a group whose name holds one of the words of [SECRET_KEYS], which is
    a name policies may use, has no drafts. *)
Lemma secret_like_group_blocks `{Codecs} counted t who title id at_ t' :
  valid_acl_group_name (lit "token-admins") = true ∧
  (parse_json (acl_json (t_acl t)) = Some (JObject [(lit "groups", JObject [(lit "token-admins", JArray [text "a@example.com"])])]) →
   create_draft counted t who title [OnPolicy] id at_ ≠ Ok t').
Proof.
  split; [by vm_compute|]. intros Hp Hc. unfold create_draft in Hc. inv_ok. rename select (live_tx _ = _) into Hl.
  unfold live_tx in Hl. destruct (draft_snapshot t). rewrite Hp /= in Hl. injection Hl as <-. rename select (check_payload _ = _) into Hk.
  unfold check_payload in Hk. do 3 apply then_ok in Hk as [_ Hk].
  by vm_compute in Hk.
Qed.

(** Leaving out [defaults], which reads as [same_tag], is not a widened default. *)
Lemma dropped_default_unflagged : policy_risks (policy_doc []) (JObject [(lit "rules", JArray [])]) = [].
Proof. by vm_compute. Qed.

(** Opening all ports where one was open is no new path. *)
Lemma ports_widened_unflagged :
  let inputs := load_inputs [] (t_nodes demo_start) 1020 in
  let ssh := (edges inputs (policy_of [members Allow [lit "22"]]) 1020 []).1 in
  let any := (edges inputs (policy_of [members Allow []]) 1020 []).1 in
  length ssh = 2%nat ∧ edge_delta ssh any = ([], []) ∧
  policy_risks (policy_doc [rule_doc "allow" [text "22"]]) (policy_doc [rule_doc "allow" []]) = [].
Proof. by vm_compute. Qed.

End DraftPublish.
