(* ===== verification/Pq.v ===== *)
(** * Post-quantum pre-shared keys on the agent

    [blaktaild/src/pq.rs]: the hybrid key exchange two peers run inside their
    tunnel, what an agent keeps and reports per peer, the driver that rotates keys,
    and the iptables chain that blocks a pair whose required key is missing.  The
    cryptographic primitives, base64 and JSON are the class [Crypto]; the WireGuard
    device and the state file are the class [Host]. *)

From S2P Require Import Prelude Text Net Policy AclFilter CoordAcl AppConnectors ForwardFilter.

Module Pq.

(** ** Primitives *)

(** SHA-256, HKDF-SHA256 (salt, input, info), HMAC-SHA256 (key, message), X25519
    (secrets and public values are byte strings), ML-KEM-768 with its random input
    as an argument, standard base64, and [serde_json] on messages. *)
Class Crypto (Message : Type) := {
  sha256 : bytes → bytes;
  hkdf_expand : bytes → bytes → bytes → bytes;
  hmac : bytes → bytes → bytes;
  x_public : bytes → bytes;
  x_dh : bytes → bytes → bytes;
  x_contributory : bytes → bool;
  kem_generate : bytes → bytes * bytes;
  kem_key_ok : bytes → bool;
  kem_encapsulate : bytes → bytes → bytes * bytes;
  kem_decapsulate : bytes → bytes → bytes;
  b64_encode : bytes → str;
  b64_decode : str → option bytes;
  json_encode : Message → option bytes;
  json_decode : bytes → option Message
}.

(** ** Constants *)

Definition CAPABILITY : str := lit "pq-psk".
Definition ALGORITHM : str := lit "ml-kem-768+x25519".
Definition PORT : Z := PQ_PORT.
Definition ROTATE_SECS : Z := 120.
Definition PSK_LIFETIME_SECS : Z := 600.
Definition STALE_REVERT_SECS : Z := 200.
Definition BLOCK_CHAIN : str := lit "BLAKTAIL-PQ".
Definition BLOCK_TABLE : str := lit "mangle".
Definition VERSION : Z := 2.
Definition LABEL : bytes := lit "blaktail pq-psk v2".
Definition MAX_LINE : Z := 8 * 1024.
Definition RETRY_SECS : Z := 10.
Definition X25519_LEN : Z := 32.
Definition ct_len : Z := 1088.
Definition ek_len : Z := 1184.

(** ** Messages and errors *)

Inductive PqError :=
| Unexpected
| Version
| Malformed (field : str)
| WrongPeer
| WrongRole
| StaleEpoch (epoch last : Z)
| Confirmation
| WeakDh
| Rejected (reason : str) (last_epoch : Z)
| Io (what : str)
| Timeout.

Definition error_text (e : PqError) : str :=
  match e with
  | Unexpected => lit "unexpected message"
  | Version => lit "unsupported protocol version"
  | Malformed f => lit "malformed field " ++ f
  | WrongPeer => lit "wireguard keys in the exchange do not match this peer pair"
  | WrongRole => lit "only the peer with the lower WireGuard key initiates"
  | StaleEpoch e l => lit "stale or replayed epoch " ++ dec e ++ lit " (last accepted " ++ dec l ++ lit ")"
  | Confirmation => lit "key confirmation failed"
  | WeakDh => lit "X25519 exchange was not contributory"
  | Rejected r _ => lit "peer rejected the exchange: " ++ r
  | Io s => lit "exchange I/O failed: " ++ s
  | Timeout => lit "exchange timed out"
  end.

Inductive Message :=
| Init (v epoch : Z) (initiator responder x25519 mlkem_ek : str)
| Resp (v epoch : Z) (x25519 mlkem_ct confirm : str)
| Confirm (v epoch : Z) (confirm : str)
| Ack (v epoch : Z)
| Reject (v : Z) (reason : str) (last_epoch : Z).

(** [a >= b] on byte arrays. *)
Definition bytes_geb (a b : bytes) : bool := negb (BTree.str_ltb a b).

(** [reason.chars().take(64).collect()] *)
Definition short_reason (reason : str) : str := concat (take 64 (chars reason)).

(** [fold(0u8, |acc, (a, b)| acc | (a ^ b))] *)
Definition constant_time_eq (left right : bytes) : bool :=
  (len left =? len right)
  && (foldl (λ acc p, Z.lor acc (Z.lxor p.1 p.2)) 0 (zip left right) =? 0).

Section exchange.
Context `{Crypto Message}.

Definition decode_key (value : str) : option bytes :=
  bytes ← b64_decode (trim value);
  if len bytes =? 32 then Some bytes else None.

Definition decode_field (value : str) (n : Z) (name : str) : result PqError bytes :=
  let? bytes := ok_or (b64_decode value) (Malformed name) in
  if negb (len bytes =? n) then Err (Malformed name) else Ok bytes.

(** ** Key derivation *)

(** [(part.len() as u32).to_be_bytes()], then the part. *)
Definition prefixed (part : bytes) : bytes := be_bytes 4 (len part mod (U32_MAX + 1)) ++ part.

Definition transcript_input (epoch : Z) (initiator_wg responder_wg initiator_x25519 mlkem_ek responder_x25519
    mlkem_ct : bytes) : bytes :=
  LABEL ++ [VERSION] ++ be_bytes 8 epoch
  ++ concat (map prefixed [initiator_wg; responder_wg; initiator_x25519; mlkem_ek; responder_x25519; mlkem_ct]).

Definition transcript (epoch : Z) (initiator_wg responder_wg initiator_x25519 mlkem_ek responder_x25519
    mlkem_ct : bytes) : bytes :=
  sha256 (transcript_input epoch initiator_wg responder_wg initiator_x25519 mlkem_ek responder_x25519 mlkem_ct).

Definition static_agreement (own peer : bytes) : result PqError bytes :=
  let shared := x_dh own peer in
  if negb (x_contributory shared) then Err WeakDh else Ok shared.

Definition PSK_INFO : bytes := lit "blaktail pq-psk v2 wireguard psk".
Definition CONFIRM_INFO : bytes := lit "blaktail pq-psk v2 key confirmation".

(** The pre-shared key and the key-confirmation key. *)
Definition derive (mlkem_secret x25519_secret static_secret transcript : bytes) : bytes * bytes :=
  let ikm := mlkem_secret ++ x25519_secret ++ static_secret in
  (hkdf_expand transcript ikm PSK_INFO, hkdf_expand transcript ikm CONFIRM_INFO).

Definition confirm_tag (key role transcript : bytes) : bytes := hmac key (role ++ transcript).

(** ** The initiator *)

Record Initiator := mkInitiator {
  i_epoch : Z;
  i_own : bytes;
  i_peer : bytes;
  i_static_secret : bytes;
  i_x25519 : bytes;
  i_x25519_public : bytes;
  i_dk : bytes;
  i_ek : bytes
}.

(** [secret] and [seed] are what the random generators return. *)
Definition initiate (own peer static_secret : bytes) (epoch : Z) (secret seed : bytes) :
    result PqError (Initiator * Message) :=
  if bytes_geb own peer then Err WrongRole
  else
    let x25519_public := x_public secret in
    let '(dk, ek) := kem_generate seed in
    Ok (mkInitiator epoch own peer static_secret secret x25519_public dk ek,
        Init VERSION epoch (b64_encode own) (b64_encode peer) (b64_encode x25519_public) (b64_encode ek)).

Definition initiator_finish (self : Initiator) (response : Message) : result PqError (bytes * Message) :=
  let? (x25519, mlkem_ct, confirm) :=
    match response with
    | Resp v epoch x25519 mlkem_ct confirm =>
        if negb (v =? VERSION) then Err Version
        else if negb (epoch =? i_epoch self) then Err (StaleEpoch epoch (i_epoch self))
        else Ok (x25519, mlkem_ct, confirm)
    | Reject _ reason last_epoch => Err (Rejected (short_reason reason) last_epoch)
    | _ => Err Unexpected
    end in
  let? responder_x25519 := decode_field x25519 X25519_LEN (lit "x25519") in
  let? ct := decode_field mlkem_ct ct_len (lit "mlkem_ct") in
  let? confirm := decode_field confirm 32 (lit "confirm") in
  let kem_secret := kem_decapsulate (i_dk self) ct in
  let dh := x_dh (i_x25519 self) responder_x25519 in
  if negb (x_contributory dh) then Err WeakDh
  else
    let th := transcript (i_epoch self) (i_own self) (i_peer self) (i_x25519_public self) (i_ek self)
                responder_x25519 ct in
    let '(psk, confirm_key) := derive kem_secret dh (i_static_secret self) th in
    if negb (bool_decide (confirm = confirm_tag confirm_key (lit "responder") th)) then Err Confirmation
    else Ok (psk, Confirm VERSION (i_epoch self) (b64_encode (confirm_tag confirm_key (lit "initiator") th))).

(** ** The responder *)

Record Responder := mkResponder { r_epoch : Z; r_psk : bytes; r_expected : bytes }.

Definition reject (reason : str) (last_epoch : Z) : Message := Reject VERSION reason last_epoch.

Definition respond (own peer static_secret : bytes) (last_epoch : Z) (init : Message) (secret seed : bytes) :
    result PqError (Responder * Message) :=
  match init with
  | Init v epoch initiator responder x25519 mlkem_ek =>
      if negb (v =? VERSION) then Err Version
      else if negb (bool_decide (decode_key initiator = Some peer)) || negb (bool_decide (decode_key responder = Some own))
      then Err WrongPeer
      else if bytes_geb peer own then Err WrongRole
      else if epoch <=? last_epoch then Err (StaleEpoch epoch last_epoch)
      else
        let? initiator_x25519 := decode_field x25519 X25519_LEN (lit "x25519") in
        let? ek := decode_field mlkem_ek ek_len (lit "mlkem_ek") in
        if negb (kem_key_ok ek) then Err (Malformed (lit "mlkem_ek"))
        else
          let '(ct, kem_secret) := kem_encapsulate ek seed in
          let responder_x25519 := x_public secret in
          let dh := x_dh secret initiator_x25519 in
          if negb (x_contributory dh) then Err WeakDh
          else
            let th := transcript epoch peer own initiator_x25519 ek responder_x25519 ct in
            let '(psk, confirm_key) := derive kem_secret dh static_secret th in
            let tag := confirm_tag confirm_key (lit "responder") th in
            let expected := confirm_tag confirm_key (lit "initiator") th in
            Ok (mkResponder epoch psk expected,
                Resp VERSION epoch (b64_encode responder_x25519) (b64_encode ct) (b64_encode tag))
  | _ => Err Unexpected
  end.

Definition responder_finish (self : Responder) (confirm : Message) : result PqError bytes :=
  match confirm with
  | Confirm v epoch confirm =>
      if negb (v =? VERSION) then Err Version
      else if negb (epoch =? r_epoch self) then Err (StaleEpoch epoch (r_epoch self))
      else
        let? tag := decode_field confirm 32 (lit "confirm") in
        if negb (constant_time_eq tag (r_expected self)) then Err Confirmation else Ok (r_psk self)
  | _ => Err Unexpected
  end.

(** ** The wire: one JSON message per line *)

Definition send_line (m : Message) : result PqError bytes :=
  let? line := ok_or (json_encode m) (Malformed (lit "encode")) in Ok (line ++ [10]).

(** [read_until] on a reader limited to [limit] bytes: what it read and what is left. *)
Fixpoint read_until (c : Z) (limit : nat) (stream : bytes) : bytes * bytes :=
  match limit, stream with
  | S limit, x :: rest =>
      if x =? c then ([x], rest) else let '(line, rest) := read_until c limit rest in (x :: line, rest)
  | _, _ => ([], stream)
  end.

Definition recv_line (stream : bytes) : result PqError Message * bytes :=
  let '(line, rest) := read_until 10 (Z.to_nat MAX_LINE) stream in
  (if (len line =? 0) || negb (ends_with [10] line) then Err (Malformed (lit "frame"))
   else ok_or (json_decode line) (Malformed (lit "frame")), rest).

End exchange.

(** ** Sessions

    The two asynchronous functions as programs that send and receive messages; the
    environment chooses the outcome of each. *)

Inductive Session (A : Type) :=
| Done (a : A)
| Send (m : Message) (k : result PqError () → Session A)
| Recv (k : result PqError Message → Session A)
| Install (epoch : Z) (psk : bytes) (k : result str () → Session A).
Arguments Done {A} a.
Arguments Send {A} m k.
Arguments Recv {A} k.
Arguments Install {A} epoch psk k.

Definition Outcome : Type := result PqError (Z * bytes).

(** [send(..).await?; k], [let x = recv(..).await?; k] and [let x = e?; k]. *)
Definition send_then (m : Message) (k : Session Outcome) : Session Outcome :=
  Send m (λ r, match r with Ok _ => k | Err e => Done (Err e) end).
Definition recv_then (k : Message → Session Outcome) : Session Outcome :=
  Recv (λ r, match r with Ok m => k m | Err e => Done (Err e) end).
Definition try_then {A} (r : result PqError A) (k : A → Session Outcome) : Session Outcome :=
  match r with Ok a => k a | Err e => Done (Err e) end.

Section sessions.
Context `{Crypto Message}.

Definition await_ack (epoch : Z) (psk : bytes) (m : Message) : Outcome :=
  match m with
  | Ack v acked => if (v =? VERSION) && (acked =? epoch) then Ok (epoch, psk) else Err Unexpected
  | Reject _ reason last_epoch => Err (Rejected (short_reason reason) last_epoch)
  | _ => Err Unexpected
  end.

Definition run_initiator (own peer static_secret : bytes) (epoch : Z) (secret seed : bytes) : Session Outcome :=
  try_then (initiate own peer static_secret epoch secret seed) (λ '(state, init),
  send_then init (
  recv_then (λ response,
  try_then (initiator_finish state response) (λ '(psk, confirm),
  send_then confirm (
  recv_then (λ m, Done (await_ack epoch psk m))))))).

Record ResponderContext := mkResponderContext {
  c_own : bytes;
  c_peer : bytes;
  c_static_secret : bytes;
  c_last_epoch : Z
}.

Definition reject_reason (e : PqError) : str :=
  match e with
  | StaleEpoch _ _ => lit "stale_epoch"
  | WrongPeer => lit "wrong_peer"
  | WrongRole => lit "wrong_role"
  | Version => lit "version"
  | _ => lit "invalid"
  end.

Definition run_responder (context : ResponderContext) (secret seed : bytes) : Session Outcome :=
  recv_then (λ init,
  match respond (c_own context) (c_peer context) (c_static_secret context) (c_last_epoch context) init secret seed with
  | Err error => Send (reject (reject_reason error) (c_last_epoch context)) (λ _, Done (Err error))
  | Ok (pending, response) =>
      send_then response (
      recv_then (λ confirm,
      try_then (responder_finish pending confirm) (λ psk,
      Install (r_epoch pending) psk (λ installed,
        match installed with
        | Err error => Send (reject (lit "install_failed") (c_last_epoch context)) (λ _, Done (Err (Io error)))
        | Ok _ => send_then (Ack VERSION (r_epoch pending)) (Done (Ok (r_epoch pending, psk)))
        end))))
  end).

End sessions.

End Pq.
