(* ===== verification/PqExchange.v ===== *)
(** * The key exchange agrees, and accepts only its partner

    Two honest peers end with the same key; a side that accepts the other's
    confirmation holds the same key over the same transcript, whatever was changed
    on the way, unless two hash inputs of the two runs collide; and the initiator
    never ends with a key the responder has not installed. *)

From S2P Require Import Prelude Text Net Policy AclFilter CoordAcl AppConnectors Ingress HeaderProps Pq.

Module PqExchange.
Import Pq.

(** ** What the exchange relies on *)

(** Base64 on byte strings round-trips and has no blanks; X25519 commutes; ML-KEM
    decapsulates what was encapsulated to its key; sizes are the documented ones;
    JSON text of a message is one line and decodes, also with the line feed. *)
Class CryptoLaws `(C : Crypto Message) : Prop := {
  b64_roundtrip : ∀ bs, wf_bytes bs → b64_decode (b64_encode bs) = Some bs;
  b64_graphic : ∀ bs, Forall graphic (b64_encode bs);
  x_public_size : ∀ s, wf_bytes (x_public s) ∧ len (x_public s) = 32;
  x_dh_comm : ∀ a b, x_dh a (x_public b) = x_dh b (x_public a);
  hmac_size : ∀ k m, wf_bytes (hmac k m) ∧ len (hmac k m) = 32;
  kem_key_size : ∀ seed, let ek := (kem_generate seed).2 in wf_bytes ek ∧ len ek = ek_len ∧ kem_key_ok ek = true;
  kem_ct_size : ∀ ek r, kem_key_ok ek = true → let ct := (kem_encapsulate ek r).1 in wf_bytes ct ∧ len ct = ct_len;
  kem_correct : ∀ seed r, let '(dk, ek) := kem_generate seed in
    let '(ct, secret) := kem_encapsulate ek r in kem_decapsulate dk ct = secret;
  json_line : ∀ m line, json_encode m = Some line → 10 ∉ line ∧ json_decode (line ++ [10]) = Some m
}.

(** A side of a pair: what the agent passes, from its own WireGuard secret. *)
Section sides.
Context `{Crypto Message}.

Definition honest_initiator (wg peer : bytes) (epoch : Z) (secret seed : bytes) : result PqError (Initiator * Message) :=
  let? static_secret := static_agreement wg peer in
  initiate (x_public wg) peer static_secret epoch secret seed.

Definition honest_responder (wg peer : bytes) (last_epoch : Z) (init : Message) (secret seed : bytes) :
    result PqError (Responder * Message) :=
  let? static_secret := static_agreement wg peer in
  respond (x_public wg) peer static_secret last_epoch init secret seed.

(** The inputs of SHA-256 and of HMAC that a run computes with. *)
Definition tag_queries (key th : bytes) : list (bytes * bytes) :=
  [(key, lit "responder" ++ th); (key, lit "initiator" ++ th)].

Definition initiator_queries (st : Initiator) (response : Message) : list bytes * list (bytes * bytes) :=
  match response with
  | Resp _ _ x ct _ =>
      let x := default [] (b64_decode x) in
      let ct := default [] (b64_decode ct) in
      let input := transcript_input (i_epoch st) (i_own st) (i_peer st) (i_x25519_public st) (i_ek st) x ct in
      let key := (derive (kem_decapsulate (i_dk st) ct) (x_dh (i_x25519 st) x) (i_static_secret st) (sha256 input)).2 in
      ([input], tag_queries key (sha256 input))
  | _ => ([], [])
  end.

Definition responder_queries (wg peer : bytes) (init : Message) (secret seed : bytes) : list bytes * list (bytes * bytes) :=
  match init with
  | Init _ epoch _ _ x ek =>
      let x := default [] (b64_decode x) in
      let ek := default [] (b64_decode ek) in
      let '(ct, kem_secret) := kem_encapsulate ek seed in
      let input := transcript_input epoch peer (x_public wg) x ek (x_public secret) ct in
      let key := (derive kem_secret (x_dh secret x) (x_dh wg peer) (sha256 input)).2 in
      ([input], tag_queries key (sha256 input))
  | _ => ([], [])
  end.

(** Two different inputs among these have the same hash or the same tag. *)
Definition collision (q1 q2 : list bytes * list (bytes * bytes)) : Prop :=
  (∃ a b, a ∈ q1.1 ++ q2.1 ∧ b ∈ q1.1 ++ q2.1 ∧ a ≠ b ∧ sha256 a = sha256 b) ∨
  (∃ a b, a ∈ q1.2 ++ q2.2 ∧ b ∈ q1.2 ++ q2.2 ∧ a ≠ b ∧ hmac a.1 a.2 = hmac b.1 b.2).

(** The two sides ran one exchange: with each other, in one epoch, on the public
    values that were sent. *)
Definition matched (wi wr : bytes) (st : Initiator) (peer_r : bytes) (response init resp : Message) : Prop :=
  i_peer st = x_public wr ∧ peer_r = x_public wi ∧
  ∃ v v' ki kr x ek x' ct t t',
    init = Init v (i_epoch st) ki kr x ek ∧ b64_decode x = Some (i_x25519_public st) ∧ b64_decode ek = Some (i_ek st) ∧
    response = Resp v' (i_epoch st) x' ct t ∧
    ∃ y z, b64_decode x' = Some y ∧ b64_decode ct = Some z ∧ resp = Resp VERSION (i_epoch st) (b64_encode y) (b64_encode z) t'.

End sides.

(** ** Comparison and transcripts *)

Lemma xor_fold l acc :
  foldl (λ acc (p : Z * Z), Z.lor acc (Z.lxor p.1 p.2)) acc l = 0 ↔ acc = 0 ∧ Forall (λ p, p.1 = p.2) l.
Proof.
  revert acc. induction l as [|[a b] l IH]; intros acc; simpl; [rw Forall_nil; tauto|].
  rw IH Z.lor_eq_0_iff Z.lxor_eq_0_iff Forall_cons /=. tauto.
Qed.

(** The comparison that does not stop early decides equality. *)
Lemma constant_time_eq_spec a b : constant_time_eq a b = bool_decide (a = b).
Proof.
  apply eq_true_iff_eq. unfold constant_time_eq. rw bool_decide_eq_true andb_true_iff !Z.eqb_eq xor_fold.
  split; [|intros ->; split_and!; [done..|]; induction b; by constructor].
  unfold len. intros (Hl & _ & HF). assert (length a = length b) as Hab by lia. clear Hl.
  revert b Hab HF. induction a as [|x a IH]; intros [|y b]; simpl; [done..|].
  intros [= Hab] [Hxy HF]%Forall_cons. simpl in Hxy. subst. f_equal. by apply IH.
Qed.

Definition short (part : bytes) : Prop := len part ≤ U32_MAX.

Lemma prefixed_inj p q r s : short p → short q → prefixed p ++ r = prefixed q ++ s → p = q ∧ r = s.
Proof.
  unfold short, prefixed. intros Hp Hq Heq. rewrite <-!(app_assoc (be_bytes 4 _)) in Heq.
  apply app_inj_1 in Heq as [Hl Hrest]; [|by rw !length_be_limbs].
  assert (len p = len q) as Hlen.
  { apply (f_equal from_be) in Hl. rw !Z.mod_small in Hl; [|mlia..].
    rewrite !from_limbs_be in Hl; [done|lia|mlia|lia|mlia]. }
  apply app_inj_1 in Hrest; [done|]. unfold len in Hlen. lia.
Qed.

Lemma shorts a b c d f g :
  len a = 32 → len b = 32 → len c = 32 → len d = ek_len → len f = 32 → len g = ct_len → Forall short [a; b; c; d; f; g].
Proof. unfold ek_len, ct_len. intros. repeat constructor; unfold short, U32_MAX; lia. Qed.

Lemma transcript_inj e a b c d f g e' a' b' c' d' f' g' :
  is_u64 e → is_u64 e' → Forall short [a; b; c; d; f; g] → Forall short [a'; b'; c'; d'; f'; g'] →
  transcript_input e a b c d f g = transcript_input e' a' b' c' d' f' g' →
  e = e' ∧ a = a' ∧ b = b' ∧ c = c' ∧ d = d' ∧ f = f' ∧ g = g'.
Proof.
  intros He He' HF HF' Heq. unfold transcript_input in Heq. apply app_inv_head, app_inv_head in Heq.
  apply app_inj_1 in Heq as [Hee Heq]; [|by rw !length_be_limbs].
  apply (f_equal from_be) in Hee. rewrite !from_limbs_be in Hee; [|lia|mlia|lia|mlia].
  rewrite !Forall_cons in HF. rewrite !Forall_cons in HF'. destruct HF as (?&?&?&?&?&?&_), HF' as (?&?&?&?&?&?&_).
  cbn [map concat] in Heq.
  do 6 (apply prefixed_inj in Heq as [? Heq]; [|done..]). by subst.
Qed.

(** ** What an accepting side computed *)

Section accept.
Context `{Crypto Message}.

Lemma decode_field_ok v n name b : decode_field v n name = Ok b ↔ b64_decode v = Some b ∧ len b = n.
Proof.
  unfold decode_field. destruct (b64_decode v) as [b'|]; simpl; [|split; [done|by intros [? _]]].
  destruct (Z.eqb_spec (len b') n); simpl; split; naive_solver.
Qed.

Lemma decode_field_fits v n name b : b64_decode v = Some b → len b = n → decode_field v n name = Ok b.
Proof. intros ? ?. by apply decode_field_ok. Qed.

Lemma decode_key_ok v b : decode_key v = Some b ↔ b64_decode (trim v) = Some b ∧ len b = 32.
Proof.
  unfold decode_key. destruct (b64_decode (trim v)) as [b'|]; simpl; [|split; [done|by intros [? _]]].
  destruct (Z.eqb_spec (len b') 32); split; naive_solver.
Qed.

Lemma static_agreement_ok wg peer s : static_agreement wg peer = Ok s ↔ s = x_dh wg peer ∧ x_contributory (x_dh wg peer) = true.
Proof. unfold static_agreement. destruct (x_contributory _); simpl; split; naive_solver. Qed.

Lemma initiate_ok own peer ss epoch secret seed st init :
  initiate own peer ss epoch secret seed = Ok (st, init) →
  BTree.str_ltb own peer = true ∧
  st = mkInitiator epoch own peer ss secret (x_public secret) (kem_generate seed).1 (kem_generate seed).2 ∧
  init = Init VERSION epoch (b64_encode own) (b64_encode peer) (b64_encode (x_public secret)) (b64_encode (kem_generate seed).2).
Proof.
  unfold initiate, bytes_geb. destruct (BTree.str_ltb own peer); simpl; [|done].
  destruct (kem_generate seed) as [dk ek]. by intros [= <- <-].
Qed.

(** The initiator's transcript and confirmation key for a responder's values. *)
Definition initiator_input (st : Initiator) (x ct : bytes) : bytes :=
  transcript_input (i_epoch st) (i_own st) (i_peer st) (i_x25519_public st) (i_ek st) x ct.
Definition initiator_keys (st : Initiator) (x ct : bytes) : bytes * bytes :=
  derive (kem_decapsulate (i_dk st) ct) (x_dh (i_x25519 st) x) (i_static_secret st) (sha256 (initiator_input st x ct)).

Lemma initiator_finish_ok st response psk c :
  initiator_finish st response = Ok (psk, c) ↔
  ∃ x ct tag xb ctb, response = Resp VERSION (i_epoch st) x ct tag ∧
    b64_decode x = Some xb ∧ len xb = 32 ∧ b64_decode ct = Some ctb ∧ len ctb = ct_len ∧
    x_contributory (x_dh (i_x25519 st) xb) = true ∧
    b64_decode tag = Some (confirm_tag (initiator_keys st xb ctb).2 (lit "responder") (sha256 (initiator_input st xb ctb))) ∧
    len (confirm_tag (initiator_keys st xb ctb).2 (lit "responder") (sha256 (initiator_input st xb ctb))) = 32 ∧
    psk = (initiator_keys st xb ctb).1 ∧
    c = Confirm VERSION (i_epoch st)
          (b64_encode (confirm_tag (initiator_keys st xb ctb).2 (lit "initiator") (sha256 (initiator_input st xb ctb)))).
Proof.
  split.
  - unfold initiator_finish. destruct response as [|v e x ct tag| | |]; try done.
    destruct (Z.eqb_spec v VERSION) as [->|]; cbn [negb result_bind]; [|done].
    destruct (Z.eqb_spec e (i_epoch st)) as [->|]; cbn [negb result_bind]; [|done].
    intros (xb & [Hx Hxl]%decode_field_ok & Hf)%bind_ok. revert Hf.
    intros (ctb & [Hct Hctl]%decode_field_ok & Hf)%bind_ok. revert Hf.
    intros (tb & [Ht Htl]%decode_field_ok & Hf)%bind_ok. revert Hf. cbv zeta.
    destruct (x_contributory _) eqn:Hdh; cbn [negb]; [|done].
    change (transcript (i_epoch st) _ _ _ _ _ _) with (sha256 (initiator_input st xb ctb)).
    change (derive _ _ _ _) with (initiator_keys st xb ctb).
    destruct (initiator_keys st xb ctb) as [k ck] eqn:Hk. case_bool_decide as Htag; cbn [negb]; [|done].
    intros [= <- <-]. subst tb. exists x, ct, tag, xb, ctb. rw Hk. by split_and!.
  - intros (x & ct & tag & xb & ctb & -> & Hx & Hxl & Hct & Hctl & Hdh & Ht & Htl & -> & ->).
    unfold initiator_finish. rw !Z.eqb_refl. cbn [negb result_bind].
    rewrite (decode_field_fits x _ _ xb); [|done..]. cbn [result_bind].
    rewrite (decode_field_fits ct _ _ ctb); [|done..]. cbn [result_bind].
    rewrite (decode_field_fits tag _ _ _ Ht Htl). cbn [result_bind]. cbv zeta.
    rewrite Hdh. cbn [negb].
    change (transcript (i_epoch st) _ _ _ _ _ _) with (sha256 (initiator_input st xb ctb)).
    change (derive _ _ _ _) with (initiator_keys st xb ctb).
    destruct (initiator_keys st xb ctb) as [k ck]. by rw bool_decide_true.
Qed.

Definition responder_input (own peer : bytes) (epoch : Z) (xb ekb secret seed : bytes) : bytes :=
  transcript_input epoch peer own xb ekb (x_public secret) (kem_encapsulate ekb seed).1.
Definition responder_keys (own peer ss : bytes) (epoch : Z) (xb ekb secret seed : bytes) : bytes * bytes :=
  derive (kem_encapsulate ekb seed).2 (x_dh secret xb) ss (sha256 (responder_input own peer epoch xb ekb secret seed)).

Lemma respond_ok own peer ss last init secret seed rs resp :
  respond own peer ss last init secret seed = Ok (rs, resp) ↔
  ∃ epoch ki kr x ek xb ekb, init = Init VERSION epoch ki kr x ek ∧
    decode_key ki = Some peer ∧ decode_key kr = Some own ∧ BTree.str_ltb peer own = true ∧ last < epoch ∧
    b64_decode x = Some xb ∧ len xb = 32 ∧ b64_decode ek = Some ekb ∧ len ekb = ek_len ∧ kem_key_ok ekb = true ∧
    x_contributory (x_dh secret xb) = true ∧
    let th := sha256 (responder_input own peer epoch xb ekb secret seed) in
    let keys := responder_keys own peer ss epoch xb ekb secret seed in
    rs = mkResponder epoch keys.1 (confirm_tag keys.2 (lit "initiator") th) ∧
    resp = Resp VERSION epoch (b64_encode (x_public secret)) (b64_encode (kem_encapsulate ekb seed).1)
             (b64_encode (confirm_tag keys.2 (lit "responder") th)).
Proof.
  unfold responder_keys, responder_input. split.
  - unfold respond. destruct init as [v e ki kr x ek| | | |]; try done.
    destruct (Z.eqb_spec v VERSION) as [->|]; cbn [negb]; [|done].
    case_bool_decide as Hki; cbn [negb orb]; [|done]. case_bool_decide as Hkr; cbn [negb]; [|done].
    unfold bytes_geb. destruct (BTree.str_ltb peer own) eqn:Hlt; cbn [negb]; [|done].
    destruct (Z.leb_spec e last); [done|].
    intros (xb & [Hx Hxl]%decode_field_ok & Hf)%bind_ok. revert Hf.
    intros (ekb & [Hek Hekl]%decode_field_ok & Hf)%bind_ok. revert Hf.
    destruct (kem_key_ok ekb) eqn:Hok; cbn [negb]; [|done]. destruct (kem_encapsulate ekb seed) as [ct ks] eqn:Henc. cbv zeta.
    destruct (x_contributory _) eqn:Hdh; cbn [negb]; [|done]. unfold transcript.
    destruct (derive _ _ _ _) as [k ck] eqn:Hk. intros [= <- <-].
    exists e, ki, kr, x, ek, xb, ekb. rw Henc. cbn [fst snd]. rw Hk. by split_and!.
  - intros (e & ki & kr & x & ek & xb & ekb & -> & Hki & Hkr & Hlt & He & Hx & Hxl & Hek & Hekl & Hok & Hdh & -> & ->).
    unfold respond, bytes_geb. rw Z.eqb_refl !bool_decide_true // Hlt. cbn [negb orb].
    destruct (Z.leb_spec e last); [lia|].
    rewrite (decode_field_fits x _ _ xb); [|done..]. cbn [result_bind].
    rewrite (decode_field_fits ek _ _ ekb); [|done..]. cbn [result_bind].
    rewrite Hok. cbn [negb]. destruct (kem_encapsulate ekb seed) as [ct ks]. cbv zeta. rewrite Hdh. cbn [negb fst snd].
    unfold transcript. by destruct (derive _ _ _ _).
Qed.

Lemma responder_finish_ok rs m psk :
  responder_finish rs m = Ok psk ↔
  ∃ tag, m = Confirm VERSION (r_epoch rs) tag ∧ b64_decode tag = Some (r_expected rs) ∧ len (r_expected rs) = 32 ∧ psk = r_psk rs.
Proof.
  split.
  - unfold responder_finish. destruct m as [| |v e tag| |]; try done.
    destruct (Z.eqb_spec v VERSION) as [->|]; cbn [negb]; [|done]. destruct (Z.eqb_spec e (r_epoch rs)) as [->|]; cbn [negb]; [|done].
    intros (tb & [Ht Htl]%decode_field_ok & Hf)%bind_ok. revert Hf. rw constant_time_eq_spec.
    case_bool_decide as Heq; cbn [negb]; [|done]. intros [= <-]. subst tb. by exists tag.
  - intros (tag & -> & Ht & Htl & ->). unfold responder_finish. rw !Z.eqb_refl. cbn [negb].
    rewrite (decode_field_fits tag _ _ _ Ht Htl). cbn [result_bind]. by rw constant_time_eq_spec bool_decide_true.
Qed.

End accept.

(** ** Agreement *)

Section agreement.
Context `{CryptoLaws}.

Lemma decode_own_key bs : wf_bytes bs → len bs = 32 → decode_key (b64_encode bs) = Some bs.
Proof using All. intros Hwf Hl. apply decode_key_ok. rw trim_graphic; [|apply b64_graphic]. by rw b64_roundtrip. Qed.

(** Both sides derive the same keys from the same public values. *)
Lemma keys_agree wi wr epoch si ei sr er :
  let st := mkInitiator epoch (x_public wi) (x_public wr) (x_dh wi (x_public wr)) si (x_public si)
              (kem_generate ei).1 (kem_generate ei).2 in
  let ct := (kem_encapsulate (i_ek st) er).1 in
  initiator_keys st (x_public sr) ct =
  responder_keys (x_public wr) (x_public wi) (x_dh wr (x_public wi)) epoch (x_public si) (i_ek st) sr er.
Proof using All.
  cbv zeta. unfold initiator_keys, responder_keys, initiator_input, responder_input.
  cbn [i_epoch i_own i_peer i_static_secret i_x25519 i_x25519_public i_dk i_ek]. rw (x_dh_comm wi wr) (x_dh_comm si sr).
  pose proof (kem_correct ei er) as Hk. destruct (kem_generate ei) as [dk ek]. cbn [fst snd].
  destruct (kem_encapsulate ek er) as [ct secret]. cbn [fst snd]. by rw Hk.
Qed.

(** Equal tags come from equal keys and equal transcripts. *)
Lemma tags_match role a b ck ck' :
  role = lit "responder" ∨ role = lit "initiator" →
  hmac ck (role ++ sha256 a) = hmac ck' (role ++ sha256 b) →
  (a = b ∧ ck = ck') ∨ collision ([a], tag_queries ck (sha256 a)) ([b], tag_queries ck' (sha256 b)).
Proof using.
  intros Hrole Ht. destruct (decide ((ck, role ++ sha256 a) = (ck', role ++ sha256 b))) as [Heq|Hne].
  - injection Heq as -> Hsha%app_inv_head. destruct (decide (a = b)) as [->|Hab]; [by left|]. right. left.
    exists a, b. simpl. split_and!; [left|right; left|done|done].
  - right. right. exists (ck, role ++ sha256 a), (ck', role ++ sha256 b). unfold tag_queries. simpl.
    split_and!; [| |done|done].
    + destruct Hrole as [-> | ->]; [left|right; left].
    + destruct Hrole as [-> | ->]; [right; right; left|right; right; right; left].
Qed.

(** The roles' tags differ. *)
Lemma roles_apart (ck th : bytes) : (ck, lit "responder" ++ th) ≠ (ck, lit "initiator" ++ th).
Proof using. by intros [=]. Qed.

(** Equal transcripts of two honest runs: one exchange, and the same keys. *)
Lemma transcripts_match wi wr peer_i peer_r epoch e si ei sr er xb ekb x ct st :
  is_u64 epoch → is_u64 e → len peer_i = 32 → len peer_r = 32 → len xb = 32 → len ekb = ek_len → len x = 32 → len ct = ct_len →
  kem_key_ok ekb = true →
  st = mkInitiator epoch (x_public wi) peer_i (x_dh wi peer_i) si (x_public si) (kem_generate ei).1 (kem_generate ei).2 →
  initiator_input st x ct = responder_input (x_public wr) peer_r e xb ekb sr er →
  e = epoch ∧ peer_i = x_public wr ∧ peer_r = x_public wi ∧ xb = i_x25519_public st ∧ ekb = i_ek st ∧
  x = x_public sr ∧ ct = (kem_encapsulate ekb er).1 ∧
  initiator_keys st x ct = responder_keys (x_public wr) peer_r (x_dh wr peer_r) e xb ekb sr er.
Proof using All.
  intros He He' Hpi Hpr Hxb Hekb Hx Hct Hok -> Heq.
  pose proof (proj2 (x_public_size wi)). pose proof (proj2 (x_public_size wr)). pose proof (proj2 (x_public_size si)).
  pose proof (proj2 (x_public_size sr)). destruct (kem_key_size ei) as (_ & Hek & _). destruct (kem_ct_size ekb er Hok) as [_ Hcl].
  unfold initiator_input, responder_input in Heq. cbn [i_epoch i_own i_peer i_x25519_public i_ek] in *.
  apply transcript_inj in Heq as (<- & <- & -> & <- & <- & -> & ->); [|done|done|apply shorts; lia..].
   split_and!; [done..|]. by apply keys_agree.
Qed.

Definition confirm_field (m : Message) : option str :=
  match m with Resp _ _ _ _ c | Confirm _ _ c => Some c | _ => None end.

Definition wf_epoch (m : Message) : Prop :=
  match m with Init _ e _ _ _ _ | Resp _ e _ _ _ | Confirm _ e _ | Ack _ e | Reject _ _ e => is_u64 e end.

Lemma honest_initiator_ok wg peer epoch secret seed st init :
  honest_initiator wg peer epoch secret seed = Ok (st, init) →
  x_contributory (x_dh wg peer) = true ∧ BTree.str_ltb (x_public wg) peer = true ∧
  st = mkInitiator epoch (x_public wg) peer (x_dh wg peer) secret (x_public secret) (kem_generate seed).1 (kem_generate seed).2 ∧
  init = Init VERSION epoch (b64_encode (x_public wg)) (b64_encode peer) (b64_encode (x_public secret)) (b64_encode (kem_generate seed).2).
Proof using.
  intros (s & [-> Hc]%static_agreement_ok & (? & ? & ?)%initiate_ok)%bind_ok. done.
Qed.

Lemma honest_responder_ok wg peer last init secret seed rs resp :
  honest_responder wg peer last init secret seed = Ok (rs, resp) ↔
  x_contributory (x_dh wg peer) = true ∧ respond (x_public wg) peer (x_dh wg peer) last init secret seed = Ok (rs, resp).
Proof using.
  unfold honest_responder. rw bind_ok. split.
  - intros (s & [-> Hc]%static_agreement_ok & Hr). done.
  - intros [Hc Hr]. exists (x_dh wg peer). split; [by apply static_agreement_ok|done].
Qed.

Lemma initiator_queries_eq st x ct xb ctb v e t :
  b64_decode x = Some xb → b64_decode ct = Some ctb →
  initiator_queries st (Resp v e x ct t) =
  ([initiator_input st xb ctb], tag_queries (initiator_keys st xb ctb).2 (sha256 (initiator_input st xb ctb))).
Proof using. intros Hx Hct. unfold initiator_queries. by rw Hx Hct. Qed.

Lemma responder_queries_eq wg peer v e ki kr x ek xb ekb secret seed :
  b64_decode x = Some xb → b64_decode ek = Some ekb →
  let input := responder_input (x_public wg) peer e xb ekb secret seed in
  responder_queries wg peer (Init v e ki kr x ek) secret seed =
  ([input], tag_queries (responder_keys (x_public wg) peer (x_dh wg peer) e xb ekb secret seed).2 (sha256 input)).
Proof using.
  intros Hx Hek input. unfold responder_queries. rw Hx Hek. cbn [default from_option id]. subst input.
  unfold responder_keys, responder_input. by destruct (kem_encapsulate ekb seed).
Qed.

(** A side that is confirmed by a tag of the other side's run: both ran the same
    exchange, and a tag of one role is a tag of that role's run. *)
Lemma runs_match wi wr peer_i peer_r epoch e last si ei sr er st init0 init rs resp response x ct xb ctb tag v e' role :
  is_u64 epoch → len peer_i = 32 → wf_epoch init →
  honest_initiator wi peer_i epoch si ei = Ok (st, init0) →
  honest_responder wr peer_r last init sr er = Ok (rs, resp) →
  response = Resp v e' x ct tag → b64_decode x = Some xb → len xb = 32 → b64_decode ct = Some ctb → len ctb = ct_len →
  e' = epoch → r_epoch rs = e →
  role = lit "responder" ∨ role = lit "initiator" →
  (∀ k th, (k, role ++ th) ∈ (responder_queries wr peer_r init sr er).2 →
    hmac (initiator_keys st xb ctb).2 (role ++ sha256 (initiator_input st xb ctb)) = hmac k (role ++ th)) →
  (matched wi wr st peer_r response init resp ∧ e = epoch ∧ (initiator_keys st xb ctb).1 = r_psk rs ∧
   r_expected rs = confirm_tag (initiator_keys st xb ctb).2 (lit "initiator") (sha256 (initiator_input st xb ctb))) ∨
  collision (initiator_queries st response) (responder_queries wr peer_r init sr er).
Proof using All.
  intros He Hpi Hwf (_ & _ & Hst & _)%honest_initiator_ok [_ Hr]%honest_responder_ok -> Hx Hxl Hct Hctl -> <- Hrole Htag.
  apply respond_ok in Hr as (e & ki & kr & y & ek & yb & ekb & -> & Hki & Hkr & _ & _ & Hy & Hyl & Hek & Hekl & Hok & _ & -> & ->).
  rw (responder_queries_eq _ _ _ _ _ _ _ _ yb ekb) // in Htag |- *. rw (initiator_queries_eq _ _ _ xb ctb) //.
  apply decode_key_ok in Hki as [_ Hpr]. cbn [r_epoch r_psk r_expected].
  edestruct (tags_match role) as [[Hin Hkey]|Hc]; [exact Hrole| |left|by right].
  { apply Htag. cbn [snd]. unfold tag_queries. destruct Hrole as [-> | ->]; [left|right; left]. }
  pose proof Hin as Hin'. apply (transcripts_match wi wr peer_i peer_r epoch e si ei sr er yb ekb xb ctb st) in Hin as (-> & -> & -> & -> & -> & -> & -> & Hkeys); [|done..].
  rw Hin' Hkeys. split_and!; [|done..]. split_and!; [by subst st|done|].
  eexists _, _, _, _, _, _, _, _, _, _. split; [by subst st|]. split; [done|]. split; [done|]. split; [by subst st|].
  eexists _, _. split; [done|]. split; [done|]. by subst st.
Qed.

(** [C14] Whatever was changed on the way, an initiator that accepts a response with
    the confirmation of an honest responder ran the same exchange with it: each is the
    peer the other meant, epoch and public values are those that were sent, both hold
    the same key, and the responder will accept the initiator's confirmation; unless
    two inputs the two runs hashed collide. *)
Theorem initiator_accepts_partner wi wr peer_i peer_r epoch last si ei sr er st init0 init rs resp response tag psk c :
  is_u64 epoch → len peer_i = 32 → wf_epoch init →
  honest_initiator wi peer_i epoch si ei = Ok (st, init0) →
  honest_responder wr peer_r last init sr er = Ok (rs, resp) →
  confirm_field resp = Some tag → confirm_field response = Some tag →
  initiator_finish st response = Ok (psk, c) →
  (matched wi wr st peer_r response init resp ∧ r_epoch rs = epoch ∧ r_psk rs = psk ∧ responder_finish rs c = Ok psk) ∨
  collision (initiator_queries st response) (responder_queries wr peer_r init sr er).
Proof using All.
  intros He Hpi Hwf Hi Hr Htr Hti Hf.
  apply initiator_finish_ok in Hf as (x & ct & t & xb & ctb & -> & Hx & Hxl & Hct & Hctl & _ & Ht & Htl & -> & ->).
  pose proof Hi as (_ & _ & Hst & _)%honest_initiator_ok.
  destruct (runs_match wi wr peer_i peer_r epoch (r_epoch rs) last si ei sr er st init0 init rs resp
    (Resp VERSION (i_epoch st) x ct t) x ct xb ctb t VERSION (i_epoch st) (lit "responder")) as [(Hm & Hep & Hk & Hexp)|Hc];
    [done..|by subst st|done|by left| |left|by right].
  - intros k th Hq. injection Hti as ->. apply honest_responder_ok in Hr as [_ Hr].
    apply respond_ok in Hr as (e & ki & kr & y & ek & yb & ekb & -> & _ & _ & _ & _ & Hy & _ & Hek & _ & _ & _ & _ & ->).
    rw (responder_queries_eq _ _ _ _ _ _ _ _ yb ekb) // in Hq. injection Htr as <-.
    rw b64_roundtrip in Ht; [|apply hmac_size]. apply (inj Some) in Ht. cbn [snd] in Hq.
    apply elem_of_cons in Hq as [Hq|[[=]|[]%elem_of_nil]%elem_of_cons]. apply pair_equal_spec in Hq as [-> ->%app_inv_head]. by symmetry.
  - split_and!; [done|done|done|]. apply responder_finish_ok. eexists. split; [by rw Hep Hst|].
    rw Hexp b64_roundtrip; [|apply hmac_size]. split_and!; [done|apply hmac_size|done].
Qed.

(** The responder's own tag is no confirmation. *)
Lemma reflection_refused wr peer_r last init sr er rs resp m tag psk :
  honest_responder wr peer_r last init sr er = Ok (rs, resp) →
  confirm_field m = Some tag → responder_finish rs m = Ok psk →
  confirm_field resp ≠ Some tag ∨ collision ([], []) (responder_queries wr peer_r init sr er).
Proof using All.
  intros [_ Hr]%honest_responder_ok Hm Hf. apply responder_finish_ok in Hf as (t & -> & Ht & _ & _). injection Hm as ->.
  apply respond_ok in Hr as (e & ki & kr & y & ek & yb & ekb & -> & _ & _ & _ & _ & Hy & _ & Hek & _ & _ & _ & -> & ->).
  rw (responder_queries_eq _ _ _ _ _ _ _ _ yb ekb) //. cbn [confirm_field r_expected] in *.
  match goal with |- Some ?t' ≠ Some tag ∨ _ => destruct (decide (t' = tag)) as [<-|Hne]; [right|left; congruence] end.
  rw b64_roundtrip in Ht; [|apply hmac_size]. apply (inj Some) in Ht. right. eexists (_, _), (_, _). cbn [fst snd app].
  split; [left|]. split; [right; left|]. split; [apply roles_apart|done].
Qed.

(** Whatever was changed on the way, a responder accepts an honest initiator's
    confirmation only for the exchange they ran with each other, with the same key;
    and it never accepts its own tag sent back; unless two inputs of the runs collide. *)
Theorem responder_accepts_partner wi wr peer_i peer_r epoch last si ei sr er st init0 init rs resp m tag psk' :
  is_u64 epoch → len peer_i = 32 → wf_epoch init →
  honest_initiator wi peer_i epoch si ei = Ok (st, init0) →
  honest_responder wr peer_r last init sr er = Ok (rs, resp) →
  confirm_field m = Some tag → responder_finish rs m = Ok psk' →
  (∀ response psk c, initiator_finish st response = Ok (psk, c) → confirm_field c = Some tag →
    (matched wi wr st peer_r response init resp ∧ r_epoch rs = epoch ∧ psk = psk') ∨
    collision (initiator_queries st response) (responder_queries wr peer_r init sr er)) ∧
  (confirm_field resp ≠ Some tag ∨ collision ([], []) (responder_queries wr peer_r init sr er)).
Proof using All.
  intros He Hpi Hwf Hi Hr Htm Hf. split; [|by eapply reflection_refused].
  intros response psk c Hfi Htc. apply responder_finish_ok in Hf as (t & -> & Ht & _ & ->). injection Htm as ->.
  apply initiator_finish_ok in Hfi as (x & ct & t' & xb & ctb & -> & Hx & Hxl & Hct & Hctl & _ & _ & _ & -> & ->).
  injection Htc as <-. rw b64_roundtrip in Ht; [|apply hmac_size]. apply (inj Some) in Ht.
  pose proof Hi as (_ & _ & Hst & _)%honest_initiator_ok.
  destruct (runs_match wi wr peer_i peer_r epoch (r_epoch rs) last si ei sr er st init0 init rs resp
    (Resp VERSION (i_epoch st) x ct t') x ct xb ctb t' VERSION (i_epoch st) (lit "initiator")) as [(Hm & Hep & Hk & Hexp)|Hc];
    [done..|by subst st|done|by right| |by left|by right].
  intros k th Hq. apply honest_responder_ok in Hr as [_ Hr].
  apply respond_ok in Hr as (e & ki & kr & y & ek & yb & ekb & -> & _ & _ & _ & _ & Hy & _ & Hek & _ & _ & _ & -> & _).
  rw (responder_queries_eq _ _ _ _ _ _ _ _ yb ekb) // in Hq. cbn [snd r_expected] in *.
  apply elem_of_cons in Hq as [[=]|[Hq|[]%elem_of_nil]%elem_of_cons]. apply pair_equal_spec in Hq as [-> ->%app_inv_head]. done.
Qed.

(** A framed message is read back, with what follows it left in the stream. *)
Lemma recv_send m line rest :
  send_line m = Ok line → len line ≤ MAX_LINE → recv_line (line ++ rest) = (Ok m, rest).
Proof using All.
  unfold send_line. destruct (json_encode m) as [json|] eqn:Hj; simpl; [|done]. intros [= <-] Hlen.
  apply json_line in Hj as [Hfree Hdec].
  assert (∀ n, (length json < n)%nat → read_until 10 n ((json ++ [10]) ++ rest) = (json ++ [10], rest)) as Hread.
  { clear Hlen Hdec. induction json as [|x json IH]; intros [|n] Hn; simpl in *; [lia|done|lia|].
    apply not_elem_of_cons in Hfree as [Hx Hfree]. destruct (Z.eqb_spec x 10); [done|]. by rw IH //; lia. }
  unfold recv_line. rw Hread; [|unfold len, MAX_LINE in *; rw length_app /= in Hlen; lia]. rw Hdec. cbn [ok_or]. f_equal.
  destruct (len (json ++ [10]) =? 0) eqn:Hz.
  { to_prop. unfold len in Hz. rw length_app /= in Hz. lia. }
  assert (ends_with [10] (json ++ [10]) = true) as ->; [|done]. unfold ends_with. rw reverse_app. apply starts_with_true. by eexists.
Qed.

End agreement.

(** ** A model of the primitives, to evaluate exchanges on *)

Definition M256 : Z := 2 ^ 256.
Definition num32 (z : Z) : bytes := be_bytes 32 (z mod M256).
Definition mix (bs : bytes) : bytes := num32 (foldl Z.add (len bs) bs).
Definition message_tuple (m : Message) : (Z * Z * str * str * str * str) + ((Z * Z * str * str * str) + ((Z * Z * str) + ((Z * Z) + (Z * str * Z)))) :=
  match m with
  | Init v e a b c d => inl (v, e, a, b, c, d)
  | Resp v e a b c => inr (inl (v, e, a, b, c))
  | Confirm v e a => inr (inr (inl (v, e, a)))
  | Ack v e => inr (inr (inr (inl (v, e))))
  | Reject v r e => inr (inr (inr (inr (v, r, e))))
  end.
Definition tuple_message t : Message :=
  match t with
  | inl (v, e, a, b, c, d) => Init v e a b c d
  | inr (inl (v, e, a, b, c)) => Resp v e a b c
  | inr (inr (inl (v, e, a))) => Confirm v e a
  | inr (inr (inr (inl (v, e)))) => Ack v e
  | inr (inr (inr (inr (v, r, e)))) => Reject v r e
  end.

Definition toy : Crypto Message := {|
  sha256 := mix;
  hkdf_expand := λ salt ikm info, mix (salt ++ ikm ++ info);
  hmac := λ key m, mix (key ++ m);
  x_public := λ s, num32 (3 * from_be s);
  x_dh := λ s p, num32 (from_be s * from_be p);
  x_contributory := λ k, negb (bool_decide (k = num32 0));
  kem_generate := λ seed, (seed, be_bytes 1184 (from_be seed mod M256));
  kem_key_ok := λ ek, bool_decide (length ek = 1184%nat);
  kem_encapsulate := λ ek r, (be_bytes 1088 (from_be r mod M256), num32 (from_be r));
  kem_decapsulate := λ dk ct, num32 (from_be ct);
  b64_encode := text_of;
  b64_decode := of_text;
  json_encode := λ m, Some (text_of (message_tuple m));
  json_decode := λ l, tuple_message <$> of_text (removelast l)
|}.

Lemma from_num32 z : from_be (num32 z) = z mod M256.
Proof. unfold num32. apply from_limbs_be; [lia|]. apply Z.mod_pos_bound. by vm_compute. Qed.

Lemma num32_size z : wf_bytes (num32 z) ∧ len (num32 z) = 32.
Proof. split; [apply be_bytes_wf|]. unfold len, num32. by rw length_be_limbs. Qed.

#[export] Instance toy_laws : CryptoLaws toy.
Proof.
  split; cbn [toy b64_encode b64_decode x_public x_dh hmac kem_generate kem_key_ok kem_encapsulate kem_decapsulate json_encode json_decode].
  - intros bs _. apply of_text_of.
  - intros bs. eapply Forall_impl; [apply pos_text_chars|]. apply b64_char_graphic.
  - intros s. apply num32_size.
  - intros a b. unfold num32 at 1 3. f_equal. rw !from_num32 !Z.mul_mod_idemp_r; [|by vm_compute..]. f_equal. lia.
  - intros k m. apply num32_size.
  - intros seed. cbv zeta. cbn [snd]. split_and!; [apply be_bytes_wf|unfold len; by rw length_be_limbs|].
    apply bool_decide_eq_true, length_be_limbs.
  - intros ek r _. cbv zeta. cbn [fst]. split; [apply be_bytes_wf|]. unfold len. by rw length_be_limbs.
  - intros seed r. assert (0 ≤ from_be r mod M256 < 256 ^ Z.of_nat 1088) as Hr.
    { pose proof (Z.mod_pos_bound (from_be r) M256 ltac:(by vm_compute)) as [? Hlt]. split; [done|].
      etransitivity; [exact Hlt|]. apply (bool_decide_eq_true_1 _). by vm_compute. }
    rewrite from_limbs_be; [|lia|exact Hr]. unfold num32. by rw Z.mod_mod.
  - intros m line [= <-]. split.
    + intros Hin. eapply Forall_forall in Hin; [|apply pos_text_chars]. by destruct Hin as [Hin|[Hin|Hin]]; vm_compute in Hin.
    + rw removelast_last of_text_of. by destruct m.
Qed.

Definition demo_wi : bytes := num32 5.
Definition demo_wr : bytes := num32 7.
Definition demo_dead : Initiator := mkInitiator 0 [] [] [] [] [] [] [].
Definition demo_start : Initiator * Message :=
  default (demo_dead, Ack 0 0) (result_ok (honest_initiator (H := toy) demo_wi (x_public (Crypto := toy) demo_wr) 1 (num32 11) (num32 13))).
Definition demo_answer : Responder * Message :=
  default (mkResponder 0 [] [], Ack 0 0)
    (result_ok (honest_responder (H := toy) demo_wr (x_public (Crypto := toy) demo_wi) 0 demo_start.2 (num32 17) (num32 19))).
Definition demo_tag : str := default [] (confirm_field demo_answer.2).
Definition demo_end : bytes * Message := default ([], Ack 0 0) (result_ok (initiator_finish (H := toy) demo_start.1 demo_answer.2)).

Lemma demo_start_ok :
  honest_initiator (H := toy) demo_wi (x_public (Crypto := toy) demo_wr) 1 (num32 11) (num32 13) = Ok (demo_start.1, demo_start.2).
Proof. vm_compute. reflexivity. Qed.

Lemma demo_answer_ok :
  honest_responder (H := toy) demo_wr (x_public (Crypto := toy) demo_wi) 0 demo_start.2 (num32 17) (num32 19) = Ok (demo_answer.1, demo_answer.2).
Proof. vm_compute. reflexivity. Qed.

Lemma demo_end_ok : initiator_finish (H := toy) demo_start.1 demo_answer.2 = Ok (demo_end.1, demo_end.2).
Proof. vm_compute. reflexivity. Qed.

Lemma initiator_accepts_partner_witness :
  (matched (H := toy) demo_wi demo_wr demo_start.1 (x_public (Crypto := toy) demo_wi) demo_answer.2 demo_start.2 demo_answer.2 ∧
   r_epoch demo_answer.1 = 1 ∧ r_psk demo_answer.1 = demo_end.1 ∧ responder_finish (H := toy) demo_answer.1 demo_end.2 = Ok demo_end.1) ∨
  collision (H := toy) (initiator_queries (H := toy) demo_start.1 demo_answer.2)
    (responder_queries (H := toy) demo_wr (x_public (Crypto := toy) demo_wi) demo_start.2 (num32 17) (num32 19)).
Proof.
  apply (initiator_accepts_partner (C := toy) demo_wi demo_wr (x_public (Crypto := toy) demo_wr) (x_public (Crypto := toy) demo_wi)
    1 0 (num32 11) (num32 13) (num32 17) (num32 19) demo_start.1 demo_start.2 demo_start.2 demo_answer.1 demo_answer.2 demo_answer.2
    demo_tag demo_end.1 demo_end.2).
  - mlia.
  - apply num32_size.
  - vm_compute. split; discriminate.
  - exact demo_start_ok.
  - exact demo_answer_ok.
  - vm_compute. reflexivity.
  - vm_compute. reflexivity.
  - exact demo_end_ok.
Defined.

Lemma responder_accepts_partner_witness :
  ((matched (H := toy) demo_wi demo_wr demo_start.1 (x_public (Crypto := toy) demo_wi) demo_answer.2 demo_start.2 demo_answer.2 ∧
    r_epoch demo_answer.1 = 1 ∧ demo_end.1 = r_psk demo_answer.1) ∨
   collision (H := toy) (initiator_queries (H := toy) demo_start.1 demo_answer.2)
     (responder_queries (H := toy) demo_wr (x_public (Crypto := toy) demo_wi) demo_start.2 (num32 17) (num32 19))) ∧
  responder_finish (H := toy) demo_answer.1 demo_end.2 = Ok (r_psk demo_answer.1).
Proof.
  assert (responder_finish (H := toy) demo_answer.1 demo_end.2 = Ok (r_psk demo_answer.1)) as Hf
    by (vm_compute; reflexivity).
  split; [|exact Hf].
  refine (proj1 (responder_accepts_partner (C := toy) demo_wi demo_wr (x_public (Crypto := toy) demo_wr) (x_public (Crypto := toy) demo_wi)
    1 0 (num32 11) (num32 13) (num32 17) (num32 19) demo_start.1 demo_start.2 demo_start.2 demo_answer.1 demo_answer.2 demo_end.2
    (default [] (confirm_field demo_end.2)) (r_psk demo_answer.1) _ _ _ demo_start_ok demo_answer_ok _ Hf) demo_answer.2 _ _ demo_end_ok _).
  - mlia.
  - apply num32_size.
  - vm_compute. split; discriminate.
  - vm_compute. reflexivity.
  - vm_compute. reflexivity.
Defined.

End PqExchange.
