(* ===== verification/PqSession.v ===== *)
(** * The exchange over a network

    The two sessions of an exchange run against a network that may lose, repeat and
    reorder messages, cut either side off at any time and fail any installation.
    The initiator never ends with a key the responder lacks; on a network that
    delivers, both end with the same key. *)

From S2P Require Import Prelude Text Net Policy AclFilter CoordAcl AppConnectors Ingress HeaderProps Pq PqExchange.

Module PqSession.
Import Pq PqExchange.

(** ** The network *)

(** The two sides, what each has sent, and the keys the responder installed. *)
Record Net := mkNet {
  initiator_side : Session Outcome;
  responder_side : Session Outcome;
  to_responder : list Message;
  to_initiator : list Message;
  installed_keys : list (Z * bytes)
}.

Definition started (i r : Session Outcome) : Net := mkNet i r [] [] [].

(** A failed write may still have delivered its message; any message that was sent
    can be received, any number of times; either side can be timed out. *)
Inductive net_step : Net → Net → Prop :=
| step_isend m k r q p log res :
    net_step (mkNet (Send m k) r q p log) (mkNet (k res) r (q ++ [m]) p log)
| step_ilose m k r q p log e :
    net_step (mkNet (Send m k) r q p log) (mkNet (k (Err e)) r q p log)
| step_irecv m k r q p log :
    m ∈ p → net_step (mkNet (Recv k) r q p log) (mkNet (k (Ok m)) r q p log)
| step_ifail k r q p log e :
    net_step (mkNet (Recv k) r q p log) (mkNet (k (Err e)) r q p log)
| step_icut i r q p log :
    net_step (mkNet i r q p log) (mkNet (Done (Err Timeout)) r q p log)
| step_rsend m k i q p log res :
    net_step (mkNet i (Send m k) q p log) (mkNet i (k res) q (p ++ [m]) log)
| step_rlose m k i q p log e :
    net_step (mkNet i (Send m k) q p log) (mkNet i (k (Err e)) q p log)
| step_rrecv m k i q p log :
    m ∈ q → net_step (mkNet i (Recv k) q p log) (mkNet i (k (Ok m)) q p log)
| step_rfail k i q p log e :
    net_step (mkNet i (Recv k) q p log) (mkNet i (k (Err e)) q p log)
| step_rinstall epoch psk k i q p log :
    net_step (mkNet i (Install epoch psk k) q p log) (mkNet i (k (Ok ())) q p (log ++ [(epoch, psk)]))
| step_rrefuse epoch psk k i q p log e :
    net_step (mkNet i (Install epoch psk k) q p log) (mkNet i (k (Err e)) q p log)
| step_rcut i r q p log :
    net_step (mkNet i r q p log) (mkNet i (Done (Err Timeout)) q p log).

(** A network that delivers every message once, in order, and lets the responder
    install: the two outcomes and the installed keys. *)
Fixpoint talk (fuel : nat) (i r : Session Outcome) (q p : list Message) (log : list (Z * bytes)) :
    option (Outcome * Outcome * list (Z * bytes)) :=
  match fuel with
  | O => None
  | S fuel =>
      match i, r with
      | Done a, Done b => Some (a, b, log)
      | Send m k, _ => talk fuel (k (Ok ())) r (q ++ [m]) p log
      | _, Send m k => talk fuel i (k (Ok ())) q (p ++ [m]) log
      | _, Install epoch psk k => talk fuel i (k (Ok ())) q p (log ++ [(epoch, psk)])
      | Recv k, Recv k' =>
          match p, q with
          | m :: p, _ => talk fuel (k (Ok m)) r q p log
          | [], m :: q => talk fuel i (k' (Ok m)) q p log
          | [], [] => None
          end
      | Recv k, Done _ => match p with m :: p => talk fuel (k (Ok m)) r q p log | [] => None end
      | Done _, Recv k' => match q with m :: q => talk fuel i (k' (Ok m)) q p log | [] => None end
      | Install _ _ _, _ => None
      end
  end.

(** One move of the delivering network. *)
Section moves.
Context (fuel : nat) (m : Message) (k : Session Outcome) (f g : Message → Session Outcome) (o : Outcome)
        (q p : list Message) (log : list (Z * bytes)).

Lemma talk_isend r : talk (S fuel) (send_then m k) r q p log = talk fuel k r (q ++ [m]) p log.
Proof using. done. Qed.
Lemma talk_rsend : talk (S fuel) (recv_then f) (send_then m k) q p log = talk fuel (recv_then f) k q (p ++ [m]) log.
Proof using. done. Qed.
Lemma talk_rrecv : talk (S fuel) (recv_then f) (recv_then g) (m :: q) [] log = talk fuel (recv_then f) (g m) q [] log.
Proof using. done. Qed.
Lemma talk_irecv : talk (S fuel) (recv_then f) (recv_then g) q (m :: p) log = talk fuel (f m) (recv_then g) q p log.
Proof using. done. Qed.
Lemma talk_iend : talk (S fuel) (recv_then f) (Done o) q (m :: p) log = talk fuel (f m) (Done o) q p log.
Proof using. done. Qed.
Lemma talk_install e psk h :
  talk (S fuel) (recv_then f) (Install e psk h) q p log = talk fuel (recv_then f) (h (Ok ())) q p (log ++ [(e, psk)]).
Proof using. done. Qed.

End moves.

Section network.
Context `{CryptoLaws}.

(** The sessions of a pair, as the agents start them. *)
Definition initiator_session (wi peer : bytes) (epoch : Z) (secret seed : bytes) : Session Outcome :=
  run_initiator (x_public wi) peer (x_dh wi peer) epoch secret seed.
Definition responder_session (wr peer : bytes) (last : Z) (secret seed : bytes) : Session Outcome :=
  run_responder (mkResponderContext (x_public wr) peer (x_dh wr peer) last) secret seed.

(** ** Two honest sides *)

Context (wi wr : bytes) (epoch last : Z) (si ei sr er : bytes).

Definition pair_st : Initiator :=
  mkInitiator epoch (x_public wi) (x_public wr) (x_dh wi (x_public wr)) si (x_public si) (kem_generate ei).1 (kem_generate ei).2.
Definition pair_init : Message :=
  Init VERSION epoch (b64_encode (x_public wi)) (b64_encode (x_public wr)) (b64_encode (x_public si)) (b64_encode (kem_generate ei).2).
Definition pair_keys : bytes * bytes :=
  responder_keys (x_public wr) (x_public wi) (x_dh wr (x_public wi)) epoch (x_public si) (kem_generate ei).2 sr er.
Definition pair_th : bytes := sha256 (responder_input (x_public wr) (x_public wi) epoch (x_public si) (kem_generate ei).2 sr er).
Definition pair_rs : Responder := mkResponder epoch pair_keys.1 (confirm_tag pair_keys.2 (lit "initiator") pair_th).
Definition pair_resp : Message :=
  Resp VERSION epoch (b64_encode (x_public sr)) (b64_encode (kem_encapsulate (kem_generate ei).2 er).1)
    (b64_encode (confirm_tag pair_keys.2 (lit "responder") pair_th)).
Definition pair_confirm : Message := Confirm VERSION epoch (b64_encode (confirm_tag pair_keys.2 (lit "initiator") pair_th)).

(** A responder that answers the initiator's message does so with these values. *)
Lemma respond_pair rs resp :
  respond (x_public wr) (x_public wi) (x_dh wr (x_public wi)) last pair_init sr er = Ok (rs, resp) →
  rs = pair_rs ∧ resp = pair_resp ∧ x_contributory (x_dh sr (x_public si)) = true.
Proof using All.
  intros (e & ki & kr & y & ek & yb & ekb & [= <- <- <- <- <-] & _ & _ & _ & _ & Hy & _ & Hek & _ & _ & Hdh & -> & ->)%respond_ok.
  rw b64_roundtrip in Hy; [|apply x_public_size]. rw b64_roundtrip in Hek; [|apply kem_key_size]. by simplify_eq.
Qed.

Lemma finish_pair :
  x_contributory (x_dh sr (x_public si)) = true →
  initiator_finish pair_st pair_resp = Ok (pair_keys.1, pair_confirm) ∧ responder_finish pair_rs pair_confirm = Ok pair_keys.1.
Proof using All.
  intros Hdh. pose proof (keys_agree wi wr epoch si ei sr er) as Hk. cbv zeta in Hk. fold pair_st in Hk.
  cbn [i_ek pair_st] in Hk. fold pair_keys in Hk. destruct (kem_key_size ei) as (_ & _ & Hok). destruct (kem_ct_size _ er Hok) as [Hcw Hcl].
  split.
  - apply initiator_finish_ok. eexists _, _, _, (x_public sr), (kem_encapsulate (kem_generate ei).2 er).1.
    split; [done|]. rw !b64_roundtrip; [|apply hmac_size|done|apply x_public_size].
    change (sha256 (initiator_input pair_st _ _)) with pair_th. rw Hk.
    split_and!; [done|apply x_public_size|done|done|by rw x_dh_comm|done|apply hmac_size|done|done].
  - apply responder_finish_ok. eexists. split; [done|]. rw b64_roundtrip; [|apply hmac_size]. split_and!; [done|apply hmac_size|done].
Qed.

(** ** Where the sides can be *)

Definition key : bytes := pair_keys.1.

Definition await (psk : bytes) : Session Outcome := recv_then (λ m, Done (await_ack epoch psk m)).
Definition after_response : Session Outcome :=
  recv_then (λ response, try_then (initiator_finish pair_st response) (λ '(psk, confirm), send_then confirm (await psk))).

Inductive initiator_at (log : list (Z * bytes)) : Session Outcome → Prop :=
| at_init : initiator_at log (send_then pair_init after_response)
| at_response : initiator_at log after_response
| at_confirm : initiator_at log (send_then pair_confirm (await key))
| at_ack : initiator_at log (await key)
| at_failed e : initiator_at log (Done (Err e))
| at_end : (epoch, key) ∈ log → initiator_at log (Done (Ok (epoch, key))).

Definition acknowledge : Session Outcome := send_then (Ack VERSION epoch) (Done (Ok (epoch, key))).
Definition turn_down (reason : str) (e : PqError) : Session Outcome := Send (reject reason last) (λ _, Done (Err e)).
Definition after_confirm : Session Outcome :=
  recv_then (λ confirm, try_then (responder_finish pair_rs confirm) (λ psk,
    Install epoch psk (λ installed,
      match installed with
      | Err e => turn_down (lit "install_failed") (Io e)
      | Ok _ => send_then (Ack VERSION epoch) (Done (Ok (epoch, psk)))
      end))).

Inductive responder_at (log : list (Z * bytes)) : Session Outcome → Prop :=
| at_start : responder_at log (responder_session wr (x_public wi) last sr er)
| at_turn_down reason e : responder_at log (turn_down reason e)
| at_answer : x_contributory (x_dh sr (x_public si)) = true → responder_at log (send_then pair_resp after_confirm)
| at_wait : x_contributory (x_dh sr (x_public si)) = true → responder_at log after_confirm
| at_install :
    responder_at log (Install epoch key (λ installed,
      match installed with
      | Err e => turn_down (lit "install_failed") (Io e)
      | Ok _ => acknowledge
      end))
| at_acknowledge : (epoch, key) ∈ log → responder_at log acknowledge
| at_over o : responder_at log (Done o).

Inductive sent_back (log : list (Z * bytes)) : Message → Prop :=
| back_resp : x_contributory (x_dh sr (x_public si)) = true → sent_back log pair_resp
| back_reject v reason e : sent_back log (Reject v reason e)
| back_ack : (epoch, key) ∈ log → sent_back log (Ack VERSION epoch).

Definition net_inv (n : Net) : Prop :=
  initiator_at (installed_keys n) (initiator_side n) ∧ responder_at (installed_keys n) (responder_side n) ∧
  Forall (λ m, m = pair_init ∨ m = pair_confirm) (to_responder n) ∧ Forall (sent_back (installed_keys n)) (to_initiator n) ∧
  Forall (.= (epoch, key)) (installed_keys n).

Lemma initiator_at_mono log x s : initiator_at log s → initiator_at (log ++ [x]) s.
Proof using. destruct 1; constructor. apply elem_of_app; by left. Qed.

Lemma sent_back_mono log x m : sent_back log m → sent_back (log ++ [x]) m.
Proof using. destruct 1; constructor; [done|]. apply elem_of_app; by left. Qed.

Lemma initiator_receives log m : sent_back log m →
  initiator_at log (try_then (initiator_finish pair_st m) (λ '(psk, confirm), send_then confirm (await psk))) ∧
  initiator_at log (Done (await_ack epoch key m)).
Proof using All.
  destruct 1 as [Hdh|v reason e|Hlog].
  - rw (proj1 (finish_pair Hdh)). split; constructor.
  - split; constructor.
  - split; [constructor|]. cbn [await_ack]. rw !Z.eqb_refl. by constructor.
Qed.

Lemma responder_receives log m : m = pair_init ∨ m = pair_confirm →
  responder_at log (match respond (x_public wr) (x_public wi) (x_dh wr (x_public wi)) last m sr er with
    | Err error => turn_down (reject_reason error) error
    | Ok (pending, response) =>
        send_then response (recv_then (λ confirm, try_then (responder_finish pending confirm) (λ psk,
          Install (r_epoch pending) psk (λ installed,
            match installed with
            | Err error => Send (reject (lit "install_failed") last) (λ _, Done (Err (Io error)))
            | Ok _ => send_then (Ack VERSION (r_epoch pending)) (Done (Ok (r_epoch pending, psk)))
            end))))
    end).
Proof using All.
  intros [-> | ->]; [|constructor]. destruct (respond _ _ _ _ _ _ _) as [[rs resp]|e] eqn:Hr; [|constructor].
  apply respond_pair in Hr as (-> & -> & Hdh). by constructor.
Qed.

Lemma responder_confirms log m : x_contributory (x_dh sr (x_public si)) = true → m = pair_init ∨ m = pair_confirm →
  responder_at log (try_then (responder_finish pair_rs m) (λ psk,
    Install epoch psk (λ installed,
      match installed with
      | Err e => turn_down (lit "install_failed") (Io e)
      | Ok _ => send_then (Ack VERSION epoch) (Done (Ok (epoch, psk)))
      end))).
Proof using All. intros Hdh [-> | ->]; [constructor|]. rw (proj2 (finish_pair Hdh)). constructor. Qed.

Lemma initiator_sends log m k : initiator_at log (Send m k) →
  (m = pair_init ∨ m = pair_confirm) ∧ ∀ res, initiator_at log (k res).
Proof using.
  intros Hs. inversion Hs; subst; (split; [tauto|]); intros [[]|e]; constructor.
Qed.

Lemma initiator_recvs log k : initiator_at log (Recv k) →
  (∀ m, sent_back log m → initiator_at log (k (Ok m))) ∧ ∀ e, initiator_at log (k (Err e)).
Proof using All.
  intros Hs. inversion Hs; subst; (split; [|intros e; constructor]); intros m Hm; by apply initiator_receives.
Qed.

Lemma responder_sends log m k : responder_at log (Send m k) → sent_back log m ∧ ∀ res, responder_at log (k res).
Proof using.
  intros Hs. inversion Hs; subst.
  - split; [apply back_reject|intros res; constructor].
  - split; [by constructor|intros [[]|e]; by constructor].
  - split; [by constructor|intros [[]|e]; by constructor].
Qed.

Lemma responder_recvs log k : responder_at log (Recv k) →
  (∀ m, m = pair_init ∨ m = pair_confirm → responder_at log (k (Ok m))) ∧ ∀ e, responder_at log (k (Err e)).
Proof using All.
  intros Hs. inversion Hs; subst; (split; [|intros e; constructor]); intros m Hm;
    [by apply responder_receives|by apply responder_confirms].
Qed.

Lemma responder_installs log e psk k : responder_at log (Install e psk k) →
  (e, psk) = (epoch, key) ∧ responder_at (log ++ [(e, psk)]) (k (Ok ())) ∧ ∀ er, responder_at log (k (Err er)).
Proof using.
  intros Hs. inversion Hs; subst. split_and!; [done| |intros; constructor].
  constructor. apply elem_of_app. right. by constructor.
Qed.

Lemma net_inv_step n n' : net_step n n' → net_inv n → net_inv n'.
Proof using All.
  unfold net_inv. destruct 1; cbn [initiator_side responder_side to_responder to_initiator installed_keys];
    intros (Hi & Hr & Hq & Hp & Hl).
  - apply initiator_sends in Hi as [Hm Hk]. split_and!; [done|done| |done|done]. apply Forall_app. by split; [|constructor].
  - apply initiator_sends in Hi as [Hm Hk]. by split_and!.
  - apply initiator_recvs in Hi as [Hk _]. split_and!; [|done..]. apply Hk. by eapply Forall_forall in Hp.
  - apply initiator_recvs in Hi as [_ Hk]. by split_and!.
  - split_and!; [constructor|done..].
  - apply responder_sends in Hr as [Hm Hk]. split_and!; [done|done|done| |done]. apply Forall_app. by split; [|constructor].
  - apply responder_sends in Hr as [Hm Hk]. by split_and!.
  - apply responder_recvs in Hr as [Hk _]. split_and!; [done| |done..]. apply Hk. by eapply Forall_forall in Hq.
  - apply responder_recvs in Hr as [_ Hk]. by split_and!.
  - apply responder_installs in Hr as (Hek & Hk & _). split_and!; [by apply initiator_at_mono|done|done| |].
    + eapply Forall_impl; [exact Hp|]. intros m. apply sent_back_mono.
    + apply Forall_app. by split; [|constructor].
  - apply responder_installs in Hr as (_ & _ & Hk). by split_and!.
  - split_and!; [done|constructor|done..].
Qed.

Lemma net_inv_started : net_inv (started (initiator_session wi (x_public wr) epoch si ei) (responder_session wr (x_public wi) last sr er)).
Proof using All.
  unfold net_inv, started. cbn [initiator_side responder_side to_responder to_initiator installed_keys].
  split_and!; [|constructor..]. unfold initiator_session, run_initiator.
  destruct (initiate _ _ _ _ _ _) as [[st init]|e] eqn:Hi; [|constructor].
  apply initiate_ok in Hi as (_ & -> & ->). constructor.
Qed.

Lemma reachable_net_inv n :
  rtc net_step (started (initiator_session wi (x_public wr) epoch si ei) (responder_session wr (x_public wi) last sr er)) n →
  net_inv n.
Proof using All.
  intros Hrun. pose proof net_inv_started as H0. revert H0.
  induction Hrun as [|a b c Hab Hbc IH]; [done|]. intros Ha. apply IH. by eapply net_inv_step.
Qed.

(** [C15] Whatever the network does with the messages of an exchange (loses, repeats,
    reorders them, cuts a side off, fails the installation), an initiator that ends
    with a key ends with one the responder has installed, and the responder installs
    no other key in that exchange. *)
Theorem initiator_ends_installed n o :
  rtc net_step (started (initiator_session wi (x_public wr) epoch si ei) (responder_session wr (x_public wi) last sr er)) n →
  initiator_side n = Done (Ok o) →
  o.1 = epoch ∧ o ∈ installed_keys n ∧ Forall (.= o) (installed_keys n).
Proof using All.
  intros Hrun. apply reachable_net_inv in Hrun as (Hat & _ & _ & _ & Hl). intros Hi.
  rw Hi in Hat. inversion Hat; subst. by split_and!.
Qed.

Lemma exchange_talks fuel :
  BTree.str_ltb (x_public wi) (x_public wr) = true → last < epoch → x_contributory (x_dh sr (x_public si)) = true → (10 ≤ fuel)%nat →
  talk fuel (initiator_session wi (x_public wr) epoch si ei) (responder_session wr (x_public wi) last sr er) [] [] [] =
  Some (Ok (epoch, key), Ok (epoch, key), [(epoch, key)]).
Proof using All.
  intros Hlt He Hdh Hf. do 10 (destruct fuel as [|fuel]; [lia|]). clear Hf.
  destruct (finish_pair Hdh) as [Hfi Hfr].
  assert (initiate (x_public wi) (x_public wr) (x_dh wi (x_public wr)) epoch si ei = Ok (pair_st, pair_init)) as Hi.
  { unfold initiate, bytes_geb. rw Hlt. cbn [negb]. unfold pair_st, pair_init. by destruct (kem_generate ei). }
  assert (respond (x_public wr) (x_public wi) (x_dh wr (x_public wi)) last pair_init sr er = Ok (pair_rs, pair_resp)) as Hr.
  { apply respond_ok. destruct (kem_key_size ei) as (Hew & Hel & Hok).
    eexists _, _, _, _, _, (x_public si), (kem_generate ei).2. split; [done|].
    rw !decode_own_key; [|apply x_public_size..]. rw !b64_roundtrip; [|done|apply x_public_size].
    split_and!; try done. apply x_public_size. }
  assert (initiator_session wi (x_public wr) epoch si ei = send_then pair_init after_response) as ->.
  { unfold initiator_session, run_initiator. by rewrite Hi. }
  rewrite talk_isend. unfold after_response, responder_session, run_responder. rewrite talk_rrecv.
  cbn [c_own c_peer c_static_secret c_last_epoch]. rewrite Hr talk_rsend. cbn [app]. rewrite talk_irecv Hfi. cbn [try_then].
  rewrite talk_isend. unfold await. cbn [app]. rewrite talk_rrecv Hfr. cbn [try_then]. rewrite talk_install talk_rsend. cbn [app r_epoch pair_rs].
  rewrite talk_iend. cbn [await_ack]. by rewrite !Z.eqb_refl.
Qed.

(** When the pair's keys are in order, the agreements are not degenerate and the
    epoch is new to the responder, an exchange on a network that delivers ends on both
    sides with the epoch and one key, which the responder has installed. *)
Theorem exchange_agrees :
  BTree.str_ltb (x_public wi) (x_public wr) = true → last < epoch → x_contributory (x_dh sr (x_public si)) = true →
  ∃ psk, ∀ fuel, (10 ≤ fuel)%nat →
    talk fuel (initiator_session wi (x_public wr) epoch si ei) (responder_session wr (x_public wi) last sr er) [] [] [] =
    Some (Ok (epoch, psk), Ok (epoch, psk), [(epoch, psk)]).
Proof using All. intros Hlt He Hdh. exists key. intros fuel Hf. by apply exchange_talks. Qed.

End network.

(** What the delivering network does is a run of the network. *)
Lemma talk_reaches fuel i r q p log a b log' Q P :
  talk fuel i r q p log = Some (a, b, log') → q ⊆ Q → p ⊆ P →
  ∃ n, rtc net_step (mkNet i r Q P log) n ∧ initiator_side n = Done a ∧ installed_keys n = log'.
Proof.
  revert i r q p log Q P. induction fuel as [|fuel IH]; intros i r q p log Q P; [done|]. cbn [talk]. intros Ht Hq Hp.
  assert (∀ i' r' q' p' log2 Q' P', net_step (mkNet i r Q P log) (mkNet i' r' Q' P' log2) →
    talk fuel i' r' q' p' log2 = Some (a, b, log') → q' ⊆ Q' → p' ⊆ P' →
    ∃ n, rtc net_step (mkNet i r Q P log) n ∧ initiator_side n = Done a ∧ installed_keys n = log') as Hgo.
  { intros i' r' q' p' log2 Q' P' Hs Hrest Hq' Hp'. destruct (IH _ _ _ _ _ Q' P' Hrest Hq' Hp') as (n & Hn & ?).
    exists n. split; [|done]. by eapply rtc_l. }
  assert (∀ (l L : list Message) m, l ⊆ L → l ++ [m] ⊆ L ++ [m]) as Hsnoc.
  { intros l L m Hl. apply list_subseteq_app_iff_l. split; [by apply list_subseteq_app_l|by apply list_subseteq_app_r]. }
  destruct i as [oi|m k|k|ep psk k].
  - destruct r as [or|m' k'|k'|ep' psk' k'].
    + injection Ht as <- <- <-. eexists. split; [apply rtc_refl|done].
    + eapply Hgo; [apply (step_rsend _ _ _ _ _ _ (Ok ()))|exact Ht|done|by apply Hsnoc].
    + destruct q as [|m q]; [done|]. apply list_subseteq_cons_iff in Hq as [Hm Hq]. eapply Hgo; [by apply step_rrecv|exact Ht|done|done].
    + eapply Hgo; [apply step_rinstall|exact Ht|done|done].
  - eapply Hgo; [apply (step_isend _ _ _ _ _ _ (Ok ()))|exact Ht|by apply Hsnoc|done].
  - destruct r as [or|m' k'|k'|ep' psk' k'].
    + destruct p as [|m p]; [done|]. apply list_subseteq_cons_iff in Hp as [Hm Hp]. eapply Hgo; [by apply step_irecv|exact Ht|done|done].
    + eapply Hgo; [apply (step_rsend _ _ _ _ _ _ (Ok ()))|exact Ht|done|by apply Hsnoc].
    + destruct p as [|m p]; [destruct q as [|m q]; [done|]|].
      * apply list_subseteq_cons_iff in Hq as [Hm Hq]. eapply Hgo; [by apply step_rrecv|exact Ht|done|done].
      * apply list_subseteq_cons_iff in Hp as [Hm Hp]. eapply Hgo; [by apply step_irecv|exact Ht|done|done].
    + eapply Hgo; [apply step_rinstall|exact Ht|done|done].
  - destruct r as [or|m' k'|k'|ep' psk' k']; [done| |done|].
    + eapply Hgo; [apply (step_rsend _ _ _ _ _ _ (Ok ()))|exact Ht|done|by apply Hsnoc].
    + eapply Hgo; [apply step_rinstall|exact Ht|done|done].
Qed.

Definition demo_initiator : Session Outcome :=
  initiator_session (C := toy) demo_wi (x_public (Crypto := toy) demo_wr) 1 (num32 11) (num32 13).
Definition demo_responder : Session Outcome :=
  responder_session (C := toy) demo_wr (x_public (Crypto := toy) demo_wi) 0 (num32 17) (num32 19).

Lemma exchange_agrees_witness :
  ∃ psk, talk 10 demo_initiator demo_responder [] [] [] = Some (Ok (1, psk), Ok (1, psk), [(1, psk)]).
Proof.
  destruct (exchange_agrees (C := toy) demo_wi demo_wr 1 0 (num32 11) (num32 13) (num32 17) (num32 19)) as [psk Hpsk];
    [by vm_compute|lia|by vm_compute|]. exists psk. by apply Hpsk.
Defined.

Lemma initiator_ends_installed_witness :
  ∃ n o, rtc net_step (started demo_initiator demo_responder) n ∧ initiator_side n = Done (Ok o) ∧
    o.1 = 1 ∧ o ∈ installed_keys n ∧ Forall (.= o) (installed_keys n).
Proof.
  destruct (talk_reaches 10 demo_initiator demo_responder [] [] [] _ _ _ [] []
    (exchange_talks (C := toy) demo_wi demo_wr 1 0 (num32 11) (num32 13) (num32 17) (num32 19) 10
       ltac:(by vm_compute) ltac:(lia) ltac:(by vm_compute) ltac:(lia)) ltac:(done) ltac:(done)) as (n & Hn & Hi & _).
  exists n, (1, key (C := toy) demo_wi demo_wr 1 (num32 11) (num32 13) (num32 17) (num32 19)). split; [exact Hn|]. split; [exact Hi|].
  exact (initiator_ends_installed (C := toy) demo_wi demo_wr 1 0 (num32 11) (num32 13) (num32 17) (num32 19) n _ Hn Hi).
Defined.

End PqSession.
