(* ===== verification/PqRuntime.v ===== *)
(** * The post-quantum runtime of an agent

    The rest of [blaktaild/src/pq.rs]: what the agent keeps per peer, the report it
    derives from it, reconciliation with the peer map, the rotation driver, the
    listener's side of an exchange, persistence, and the iptables chain that blocks a
    pair.  The WireGuard device, the clock and the state file are the class [Host];
    operations take the host's state and return the next. *)

From S2P Require Import Prelude Text Net Policy AclFilter CoordAcl AppConnectors ForwardFilter Pq.

Module PqRuntime.
Import Pq.

(** [a.saturating_sub(b)] *)
Definition sat_sub (a b : Z) : Z := Z.max 0 (a - b).

(** ** Peers *)

#[export] Instance PeerPq_eq_dec : EqDecision PeerPq.
Proof. solve_decision. Defined.

(** [#[derive(Default)]] *)
Definition default_pq : PeerPq := mkPeerPq Off false false.

Record PeerPlan := mkPeerPlan {
  pl_id : str;
  pl_key : str;
  pl_raw_key : bytes;
  pl_pq : PeerPq;
  pl_hosts : list IpAddr;
  pl_routes : list str
}.
#[export] Instance PeerPlan_eq_dec : EqDecision PeerPlan.
Proof. solve_decision. Defined.

Definition wants_exchange (self : PeerPlan) (local_capable : bool) : bool :=
  negb (bool_decide (ppq_mode (pl_pq self) = Off)) && ppq_capable (pl_pq self) && local_capable.

(** ** Per-peer state *)

Record Installed := mkInstalled { in_epoch : Z; in_at : Z; in_applied_at : Z; in_psk : bytes }.

Record Track := mkTrack {
  t_last_epoch : Z;
  t_installed : option Installed;
  t_last_attempt_at : Z;
  t_last_error : option str
}.
Definition default_track : Track := mkTrack 0 None 0 None.
Definition with_installed (t : Track) (i : option Installed) : Track :=
  mkTrack (t_last_epoch t) i (t_last_attempt_at t) (t_last_error t).

Record PeerReport := mkPeerReport {
  rp_peer_id : str;
  rp_state : str;
  rp_mode : Mode;
  rp_algorithm : str;
  rp_epoch : Z;
  rp_last_rotation_at : option Z;
  rp_blocked : bool;
  rp_reason : str
}.

Definition is_fresh (now : Z) (i : Installed) : bool := sat_sub now (in_at i) <=? PSK_LIFETIME_SECS.

Definition state_reason (plan : PeerPlan) (installed : option Installed) (local_capable : bool) (now : Z) : str * str :=
  match ppq_mode (pl_pq plan) with
  | Off => (lit "classical", lit "policy_off")
  | mode =>
      if negb local_capable then
        match mode with
        | Require_ => (lit "required_not_established", lit "local_not_capable")
        | _ => (lit "classical", lit "local_not_capable")
        end
      else if negb (ppq_capable (pl_pq plan)) then
        match mode with
        | Require_ => (lit "required_not_established", lit "peer_not_capable")
        | _ => (lit "classical", lit "peer_not_capable")
        end
      else if match installed with Some i => is_fresh now i | None => false end then (lit "established", [])
      else
        match mode, installed with
        | Require_, Some _ => (lit "required_not_established", lit "rotation_failed")
        | Require_, None => (lit "required_not_established", lit "not_yet_established")
        | _, Some _ => (lit "degraded", lit "rotation_failed")
        | _, None => (lit "negotiating", lit "not_yet_established")
        end
  end.

Definition evaluate (plan : PeerPlan) (track : option Track) (local_capable block_enforced : bool) (now : Z) : PeerReport :=
  let installed : option Installed := track ≫= t_installed in
  let '(state, reason) := state_reason plan installed local_capable now in
  let wants_block := seq_b state "required_not_established" && ppq_block (pl_pq plan) in
  let reason := if wants_block && negb block_enforced then lit "block_not_supported_here" else reason in
  let shown : option Installed := if negb (seq_b state "classical") && negb (seq_b state "negotiating") then installed else None in
  mkPeerReport (pl_id plan) state (ppq_mode (pl_pq plan)) (if shown then ALGORITHM else [])
    (from_option in_epoch 0 shown) (in_at <$> shown) (wants_block && block_enforced) reason.

(** ** The host *)

Record PersistedPeer := mkPersistedPeer { pp_last_epoch : Z; pp_epoch : Z; pp_at : Z; pp_psk : option str }.

(** [PskDevice], and the state file: its decoded content, and a write that may fail.
    [set_psk] with [None] clears a peer's key. *)
Class Host (W : Type) := {
  set_psk : W → str → option bytes → result str () * W;
  latest_handshakes : W → result str (gmap str Z);
  set_blocked : W → list PeerPlan → result str bool * W;
  enforces_blocks : bool;
  write_state : W → gmap str PersistedPeer → result str () * W;
  read_state : W → option (gmap str PersistedPeer)
}.

(** ** The runtime's state *)

Record Shared := mkShared {
  sh_own : bytes;
  sh_secret : option bytes;
  sh_local_capable : bool;
  sh_plans : BTree.map_of PeerPlan;
  sh_tracks : gmap str Track;
  sh_port : Z;
  sh_block_enforced : bool;
  sh_applied_blocks : option (list PeerPlan)
}.
Definition with_plans (s : Shared) (plans : BTree.map_of PeerPlan) : Shared :=
  mkShared (sh_own s) (sh_secret s) (sh_local_capable s) plans (sh_tracks s) (sh_port s) (sh_block_enforced s) (sh_applied_blocks s).
Definition with_tracks (s : Shared) (tracks : gmap str Track) : Shared :=
  mkShared (sh_own s) (sh_secret s) (sh_local_capable s) (sh_plans s) tracks (sh_port s) (sh_block_enforced s) (sh_applied_blocks s).
Definition with_applied (s : Shared) (applied : option (list PeerPlan)) : Shared :=
  mkShared (sh_own s) (sh_secret s) (sh_local_capable s) (sh_plans s) (sh_tracks s) (sh_port s) (sh_block_enforced s) applied.

Inductive Task := Serve (addr : SocketAddr) | Drive.

Record Runtime := mkRuntime {
  rt_shared : Shared;
  rt_device : bool;
  rt_tasks : list Task;
  rt_listen : option SocketAddr;
  rt_known_keys : list str
}.
Definition with_shared (r : Runtime) (s : Shared) : Runtime :=
  mkRuntime s (rt_device r) (rt_tasks r) (rt_listen r) (rt_known_keys r).

Section runtime.
Context `{Crypto Message} `{Host W} `{!HashIter str}.

(** [cfg!(any(linux, macos))] and the value of [BLAKTAIL_DISABLE_PQ_PSK]. *)
Definition locally_capable (supported : bool) (disable : option str) : bool :=
  supported && match disable with Some value => negb (seq_b (trim value) "1") | None => true end.

(** [content] is the text of the key file, where it can be read. *)
Definition read_private_key (content : option str) : option bytes := content ≫= decode_key.

Definition from_peer (peer : Peer) : option PeerPlan :=
  raw_key ← decode_key (wg_public_key peer);
  Some (mkPeerPlan (peer_id peer) (wg_public_key peer) raw_key (default default_pq (pq peer))
          (omap parse_ip (overlay_host_addrs (allowed_ips peer))) (allowed_ips peer)).

(** [crate::peer_key_hex] *)
Definition peer_key_hex (peer_key_b64 : str) : option str :=
  raw ← b64_decode (trim peer_key_b64);
  Some (concat (map hex02 raw)).

(** [wg show <interface> latest-handshakes] *)
Definition handshake_line (line : str) : option (str * Z) :=
  '(key, stamp) ← split_once 9 line;
  hex ← peer_key_hex key;
  secs ← parse_u64 (trim stamp);
  Some (hex, secs).

Definition parse_handshakes (text : str) : gmap str Z :=
  foldl (λ m line, match handshake_line line with Some (hex, secs) => <[hex := secs]> m | None => m end) ∅ (lines text).

(** ** Persistence *)

Definition load_track (now : Z) (peer : PersistedPeer) : Track :=
  let installed :=
    bytes ← pp_psk peer ≫= decode_key;
    if sat_sub now (pp_at peer) <=? PSK_LIFETIME_SECS
    then Some (mkInstalled (pp_epoch peer) (pp_at peer) now bytes) else None in
  mkTrack (pp_last_epoch peer) installed 0 None.

Definition load_tracks (w : W) (now : Z) : gmap str Track :=
  match read_state w with
  | Some peers => load_track now <$> peers
  | None => ∅
  end.

Definition save_track (t : Track) : PersistedPeer :=
  mkPersistedPeer (t_last_epoch t) (from_option in_epoch 0 (t_installed t)) (from_option in_at 0 (t_installed t))
    ((λ i, b64_encode (in_psk i)) <$> t_installed t).

Definition save_tracks (w : W) (tracks : gmap str Track) : result str () * W := write_state w (save_track <$> tracks).

Definition persist (s : Shared) (w : W) : W := (save_tracks w (sh_tracks s)).2.

(** ** Reports and blocks *)

Definition reports_of (s : Shared) (now : Z) : list PeerReport :=
  map (λ e : str * PeerPlan, evaluate e.2 (sh_tracks s !! pl_key e.2) (sh_local_capable s) (sh_block_enforced s) now) (sh_plans s).

Definition blocked_plans (s : Shared) (reports : list PeerReport) : list PeerPlan :=
  map fst (List.filter (λ p : PeerPlan * PeerReport, seq_b (rp_state p.2) "required_not_established" && ppq_block (pl_pq p.1))
             (zip (map snd (sh_plans s)) reports)).

Definition refresh (device : bool) (s : Shared) (now : Z) (w : W) : list PeerReport * Shared * W :=
  let reports := reports_of s now in
  let blocked := blocked_plans s reports in
  if bool_decide (sh_applied_blocks s = Some blocked) then (reports, s, w)
  else if device then
    match set_blocked w blocked with
    | (Ok _, w) => (reports, with_applied s (Some blocked), w)
    | (Err _, w) => (reports, s, w)
    end
  else (reports, s, w).

(** ** Lifecycle *)

Definition with_options (private_key : option bytes) (device local_capable : bool) (port : Z) (now : Z) (w : W) : Runtime :=
  mkRuntime
    (mkShared (match private_key with Some secret => x_public secret | None => replicate 32 0 end) private_key
       (local_capable && device && bool_decide (is_Some private_key)) [] (load_tracks w now) port
       (device && enforces_blocks) None)
    device [] None [].

Definition new (private_key : option bytes) (device : bool) (supported : bool) (disable : option str) (now : Z) (w : W) : Runtime :=
  with_options private_key device (locally_capable supported disable) PORT now w.

Definition capable (r : Runtime) : bool := sh_local_capable (rt_shared r).

Definition installed (r : Runtime) (peer_key : str) : option (Z * bytes) :=
  track ← sh_tracks (rt_shared r) !! peer_key;
  i ← t_installed track;
  Some (in_epoch i, in_psk i).

Definition stop (r : Runtime) : Runtime := mkRuntime (rt_shared r) (rt_device r) [] None (rt_known_keys r).

Definition clear (r : Runtime) (w : W) : Runtime * W :=
  let r := stop r in
  let w := if rt_device r then (set_blocked w []).2 else w in
  (with_shared r (with_applied (rt_shared r) None), w).

Definition reports (r : Runtime) (now : Z) (w : W) : list PeerReport * Runtime * W :=
  let '(out, s, w) := refresh (rt_device r) (rt_shared r) now w in (out, with_shared r s, w).

(** ** Reconciliation with the peer map *)

Definition plans_of (peers : list Peer) : BTree.map_of PeerPlan :=
  foldl (λ m plan, BTree.put (pl_key plan) plan m) [] (omap from_peer peers).

Definition wanted (plans : BTree.map_of PeerPlan) (local_capable : bool) (key : str) : bool :=
  match BTree.get key plans with Some plan => wants_exchange plan local_capable | None => false end.

Definition to_clear (s : Shared) (plans : BTree.map_of PeerPlan) : list str :=
  map fst (List.filter (λ e : str * Track, bool_decide (is_Some (t_installed e.2)) && negb (wanted plans (sh_local_capable s) e.1))
             (hash_iter (sh_tracks s))).

Definition clear_one (device : bool) (plans : BTree.map_of PeerPlan) (acc : gmap str Track * W) (key : str) : gmap str Track * W :=
  let '(tracks, w) := acc in
  (alter (λ t, with_installed t None) key tracks,
   if BTree.contains_key key plans && device then (set_psk w key None).2 else w).

Definition reinstall_one (known : list str) (now : Z) (acc : gmap str Track * W) (e : str * Track) : gmap str Track * W :=
  let '(tracks, w) := acc in
  let '(key, track) := e in
  if bool_decide (key ∈ known) then acc
  else match t_installed track with
       | None => acc
       | Some i =>
           match set_psk w key (Some (in_psk i)) with
           | (Ok _, w) => (<[key := with_installed track (Some (mkInstalled (in_epoch i) (in_at i) now (in_psk i)))]> tracks, w)
           | (Err _, w) => (tracks, w)
           end
       end.

Definition start_tasks (r : Runtime) (listen : option SocketAddr) : Runtime :=
  let r := stop r in
  if rt_device r
  then mkRuntime (rt_shared r) (rt_device r)
         (match listen with Some addr => [Serve addr] | None => [] end ++ [Drive]) listen (rt_known_keys r)
  else r.

Definition manage (r : Runtime) (peers : list Peer) (listen_ip : option IpAddr) (now : Z) (w : W) : list PeerReport * Runtime * W :=
  let plans := plans_of peers in
  let s := rt_shared r in
  let cleared := to_clear s plans in
  let '(tracks, w) := foldl (clear_one (rt_device r) plans) (sh_tracks s, w) cleared in
  let tracks := filter (λ e : str * Track, BTree.contains_key e.1 plans = true) tracks in
  let s := with_plans (with_tracks s tracks) plans in
  let w := match cleared with [] => w | _ => persist s w end in
  let active := existsb (λ e, wants_exchange e.2 (sh_local_capable s)) plans in
  let '(tracks, w) := if rt_device r then foldl (reinstall_one (rt_known_keys r) now) (sh_tracks s, w) (hash_iter (sh_tracks s))
                      else (sh_tracks s, w) in
  let s := with_tracks s tracks in
  let r := mkRuntime s (rt_device r) (rt_tasks r) (rt_listen r) (map fst plans) in
  let listen := (λ ip, mkSocketAddr ip (sh_port s)) <$> listen_ip in
  let idle := match rt_tasks r with [] => true | _ => false end in
  let r := if active && (idle || negb (bool_decide (rt_listen r = listen))) then start_tasks r listen
           else if negb active && negb idle then stop r else r in
  reports r now w.

(** ** The rotation driver *)

Definition is_stale (now : Z) (handshakes : gmap str Z) (key : str) (i : Installed) : bool :=
  let last := default 0 (peer_key_hex key ≫= (handshakes !!.)) in
  STALE_REVERT_SECS <? sat_sub now (Z.max last (in_applied_at i)).

Definition revert_one (now : Z) (handshakes : gmap str Z) (acc : gmap str Track * bool * W) (e : str * Track) :
    gmap str Track * bool * W :=
  let '(tracks, reverted, w) := acc in
  let '(key, track) := e in
  match t_installed track with
  | None => acc
  | Some i =>
      if is_stale now handshakes key i
      then (<[key := with_installed track None]> tracks, true, (set_psk w key None).2)
      else acc
  end.

Record Job := mkJob { j_key : str; j_peer : bytes; j_host : IpAddr; j_epoch : Z; j_static_secret : bytes }.

Definition exchange_host (plan : PeerPlan) : option IpAddr :=
  match List.find is_ipv4 (pl_hosts plan) with Some ip => Some ip | None => head (pl_hosts plan) end.

Definition is_due (now : Z) (track : Track) : bool :=
  match t_installed track with Some i => ROTATE_SECS <=? sat_sub now (in_at i) | None => true end
  && (RETRY_SECS <=? sat_sub now (t_last_attempt_at track)).

Definition plan_job (s : Shared) (now : Z) (acc : gmap str Track * list Job) (e : str * PeerPlan) : gmap str Track * list Job :=
  let '(tracks, jobs) := acc in
  let plan := e.2 in
  if negb (wants_exchange plan (sh_local_capable s)) || bytes_geb (sh_own s) (pl_raw_key plan) then acc
  else match exchange_host plan with
       | None => acc
       | Some host =>
           let track := default default_track (tracks !! pl_key plan) in
           if is_due now track then
             match (λ secret, static_agreement secret (pl_raw_key plan)) <$> sh_secret s with
             | Some (Ok static_secret) =>
                 (<[pl_key plan := mkTrack (t_last_epoch track) (t_installed track) now (t_last_error track)]> tracks,
                  jobs ++ [mkJob (pl_key plan) (pl_raw_key plan) host (u64_add (t_last_epoch track) 1) static_secret])
             | _ =>
                 (<[pl_key plan := mkTrack (t_last_epoch track) (t_installed track) now (Some (error_text WeakDh))]> tracks, jobs)
             end
           else (<[pl_key plan := track]> tracks, jobs)
       end.

(** One turn of [drive]'s loop; each job becomes an exchange of its own. *)
Definition tick (s : Shared) (now : Z) (w : W) : list Job * Shared * W :=
  let handshakes := match latest_handshakes w with Ok m => m | Err _ => ∅ end in
  let '(tracks, reverted, w) := foldl (revert_one now handshakes) (sh_tracks s, false, w) (hash_iter (sh_tracks s)) in
  let s := with_tracks s tracks in
  let w := if reverted : bool then persist s w else w in
  let '(tracks, jobs) := foldl (plan_job s now) (sh_tracks s, []) (sh_plans s) in
  let s := with_tracks s tracks in
  let '(_, s, w) := refresh true s now w in
  (jobs, s, w).

(** The exchange of a job, and what becomes of its outcome. *)
Definition job_session (s : Shared) (j : Job) (secret seed : bytes) : Session Outcome :=
  run_initiator (sh_own s) (j_peer j) (j_static_secret j) (j_epoch j) secret seed.

Definition install_track (track : Track) (epoch at_ applied_at : Z) (psk : bytes) : Track :=
  mkTrack (Z.max (t_last_epoch track) epoch) (Some (mkInstalled epoch at_ applied_at psk)) (t_last_attempt_at track) None.

Definition record_initiator_outcome (s : Shared) (key : str) (outcome : Outcome) (at_ applied_at : Z) (w : W) : Shared * W :=
  match outcome with
  | Ok (epoch, psk) =>
      match set_psk w key (Some psk) with
      | (Err _, w) => (s, w)
      | (Ok _, w) =>
          let track := default default_track (sh_tracks s !! key) in
          let s := with_tracks s (<[key := install_track track epoch at_ applied_at psk]> (sh_tracks s)) in
          (s, persist s w)
      end
  | Err error =>
      let track := default default_track (sh_tracks s !! key) in
      let track :=
        match error with
        | Rejected _ last_epoch => mkTrack (Z.max (t_last_epoch track) last_epoch) (t_installed track) 0 (t_last_error track)
        | _ => track
        end in
      (with_tracks s (<[key := mkTrack (t_last_epoch track) (t_installed track) (t_last_attempt_at track) (Some (error_text error))]>
                        (sh_tracks s)), w)
  end.

(** ** The listener *)

Definition accept_context (s : Shared) (from : IpAddr) : result PqError ResponderContext :=
  let found := List.find (λ e : str * PeerPlan, bool_decide (from ∈ pl_hosts e.2)) (sh_plans s) in
  let? plan := ok_or (e ← found; if wants_exchange e.2 (sh_local_capable s) then Some e.2 else None) WrongPeer in
  let? secret := ok_or (sh_secret s) WrongPeer in
  let? static_secret := static_agreement secret (pl_raw_key plan) in
  Ok (mkResponderContext (sh_own s) (pl_raw_key plan) static_secret
        (from_option t_last_epoch 0 (sh_tracks s !! pl_key plan))).

(** The session of a connection, the key under which it installs, and the two parts
    of its installation: the device without the lock, the state with it. *)
Definition accept_session (s : Shared) (from : IpAddr) (secret seed : bytes) : result PqError (str * Session Outcome) :=
  let? context := accept_context s from in
  Ok (b64_encode (c_peer context), run_responder context secret seed).

Definition install_device (w : W) (key : str) (psk : bytes) : result str () * W := set_psk w key (Some psk).

Definition install_state (s : Shared) (key : str) (epoch : Z) (psk : bytes) (at_ applied_at : Z) (w : W) : Shared * W :=
  let track := default default_track (sh_tracks s !! key) in
  let s := with_tracks s (<[key := install_track track epoch at_ applied_at psk]> (sh_tracks s)) in
  (s, persist s w).

End runtime.

End PqRuntime.
