(* ===== verification/PqDevice.v ===== *)
(** * Blocking a pair on Linux, and the device interfaces

    The iptables rules that block a pair whose required key is missing, the commands
    that install and remove them, and the requests to the macOS device:
    [block_rules], [WgCommandDevice] and [UapiDevice] of [blaktaild/src/pq.rs]. *)

From S2P Require Import Prelude Text Net Policy AclFilter CoordAcl AppConnectors ForwardFilter Pq PqRuntime.

Module PqDevice.
Import Pq PqRuntime.

(** ** The rules *)

Record BlockPlan := mkBlockPlan { bp_ipv4 : list (list str); bp_ipv6 : list (list str) }.

Definition base (route direction : str) (rest : list str) : list str :=
  [lit "-t"; BLOCK_TABLE; lit "-A"; BLOCK_CHAIN; direction; route] ++ rest.

Definition exchange_rules (route direction : str) : list (list str) :=
  [base route direction [lit "-p"; lit "tcp"; lit "--dport"; dec PORT; lit "-j"; lit "RETURN"];
   base route direction [lit "-p"; lit "tcp"; lit "--sport"; dec PORT; lit "-m"; lit "conntrack"; lit "--ctstate"; lit "ESTABLISHED";
                         lit "-j"; lit "RETURN"]].

(** The family of a route and its rules; [None] where the route is skipped. *)
Definition route_rules (route : str) : option (bool * list (list str)) :=
  '(address, prefix) ← split_once 47 route;
  parsed ← parse_ip address;
  if seq_b prefix "0" then None
  else
    let host := (is_ipv4 parsed && seq_b prefix "32") || (is_ipv6 parsed && seq_b prefix "128") in
    Some (is_ipv4 parsed,
          (if host then exchange_rules route (lit "-s") ++ exchange_rules route (lit "-d") else [])
          ++ [base route (lit "-s") [lit "-j"; lit "DROP"]; base route (lit "-d") [lit "-j"; lit "DROP"]]).

Definition push_route (plan : BlockPlan) (route : str) : BlockPlan :=
  match route_rules route with
  | Some (true, rules) => mkBlockPlan (bp_ipv4 plan ++ rules) (bp_ipv6 plan)
  | Some (false, rules) => mkBlockPlan (bp_ipv4 plan) (bp_ipv6 plan ++ rules)
  | None => plan
  end.

Definition block_rules (blocked : list PeerPlan) : BlockPlan :=
  foldl (λ plan peer, foldl push_route plan (pl_routes peer)) (mkBlockPlan [] []) blocked.

(** ** The commands *)

Definition iptables (bin : str) (args : list str) : Prog (result Error ()) :=
  Run bin args (λ r,
    Ret (match r with
         | None => Err (ForwardFilter.Message (lit "could not execute " ++ bin))
         | Some (true, _) => Ok ()
         | Some (false, stderr) => Err (ForwardFilter.Message (bin ++ lit " failed: " ++ trim stderr))
         end)).

Definition HOOKS : list str := [lit "PREROUTING"; lit "OUTPUT"].

Fixpoint run_all (bin : str) (commands : list (list str)) {A} (k : Prog A) : Prog A :=
  match commands with
  | [] => k
  | args :: commands => run bin args; run_all bin commands k
  end.

Definition clear_commands (table : str) : list (list str) :=
  flat_map (λ hook, replicate 4 [lit "-t"; table; lit "-D"; hook; lit "-j"; BLOCK_CHAIN]) HOOKS
  ++ [[lit "-t"; table; lit "-F"; BLOCK_CHAIN]; [lit "-t"; table; lit "-X"; BLOCK_CHAIN]].

Definition clear_blocks {A} (k : Prog A) : Prog A :=
  run_all (lit "iptables") (flat_map clear_commands [lit "raw"; BLOCK_TABLE])
    (run_all (lit "ip6tables") (flat_map clear_commands [lit "raw"; BLOCK_TABLE]) k).

Fixpoint must_all (bin : str) (commands : list (list str)) : Prog (result Error ()) :=
  match commands with
  | [] => Ret (Ok ())
  | args :: commands => try iptables bin args; must_all bin commands
  end.

(** Chain, rules, hooks of one family. *)
Definition install_commands (rules : list (list str)) : list (list str) :=
  [[lit "-t"; BLOCK_TABLE; lit "-N"; BLOCK_CHAIN]] ++ rules
  ++ map (λ hook, [lit "-t"; BLOCK_TABLE; lit "-I"; hook; lit "1"; lit "-j"; BLOCK_CHAIN]) HOOKS.

Definition wg_set_blocked (blocked : list PeerPlan) : Prog (result Error bool) :=
  clear_blocks
    (match blocked with
     | [] => Ret (Ok true)
     | _ =>
         let plan := block_rules blocked in
         try must_all (lit "iptables") (install_commands (bp_ipv4 plan));
         try must_all (lit "ip6tables") (install_commands (bp_ipv6 plan));
         Ret (Ok true)
     end).

(** ** The macOS device *)

Section uapi.
Context `{Crypto Message}.

Definition to_hex (psk : bytes) : str := concat (map hex02 psk).

(** The request of [UapiDevice::set_psk], and the keys [MacOsNetwork] sends again. *)
Definition uapi_set_psk (peer_key_b64 : str) (psk : option bytes) : option str :=
  hex ← peer_key_hex peer_key_b64;
  let value := match psk with Some psk => to_hex psk | None => replicate 64 48 end in
  Some (lit "set=1" ++ [10] ++ lit "public_key=" ++ hex ++ [10] ++ lit "preshared_key=" ++ value ++ [10; 10]).

Definition remember_psk (keys : gmap str bytes) (peer_key_b64 : str) (psk : option bytes) : gmap str bytes :=
  match psk with
  | Some psk => <[trim peer_key_b64 := psk]> keys
  | None => delete (trim peer_key_b64) keys
  end.

Definition uapi_line (acc : gmap str Z * option str) (line : str) : gmap str Z * option str :=
  let '(map, current) := acc in
  match split_once 61 line with
  | Some (name, value) =>
      if seq_b name "public_key" then (map, Some (trim value))
      else if seq_b name "last_handshake_time_sec" then
        match current with
        | Some key => (<[key := default 0 (parse_u64 (trim value))]> map, current)
        | None => acc
        end
      else acc
  | None => acc
  end.

Definition uapi_handshakes (response : str) : gmap str Z := (foldl uapi_line (∅, None) (lines response)).1.

End uapi.

End PqDevice.
