(* ===== verification/PqBlock.v ===== *)
(** * A pair without its required key is cut off

    What iptables promises about the rules of the block chain, the verdict of the
    chain, what a successful installation leaves in the tables, and the composition
    with the report: a required pair without a fresh key is dropped, the exchange
    apart.  Concrete runs show how a block is lost. *)

From S2P Require Import Prelude Text Net Policy AclFilter AclProps CoordAcl AppConnectors ForwardFilter ForwardProps ForwardInstall Ingress HeaderProps Pq PqExchange PqRuntime PqDevice.

Module PqBlock.
Import Pq PqRuntime PqDevice.

(** ** What iptables does with the rules *)

Record Packet := mkPacket {
  pk_source : IpAddr;
  pk_dest : IpAddr;
  pk_proto : Z;
  pk_sport : Z;
  pk_dport : Z;
  pk_established : bool
}.

Inductive Direction := Source | Dest.
Definition direction_text (d : Direction) : str := match d with Source => lit "-s" | Dest => lit "-d" end.

Inductive Extra := Anything | ToListener | ListenerReply.
Definition extra_args (m : Extra) : list str :=
  match m with
  | Anything => []
  | ToListener => [lit "-p"; lit "tcp"; lit "--dport"; dec PORT]
  | ListenerReply => [lit "-p"; lit "tcp"; lit "--sport"; dec PORT; lit "-m"; lit "conntrack"; lit "--ctstate"; lit "ESTABLISHED"]
  end.
Definition extra_matches (m : Extra) (p : Packet) : bool :=
  match m with
  | Anything => true
  | ToListener => (pk_proto p =? TCP) && (pk_dport p =? PORT)
  | ListenerReply => (pk_proto p =? TCP) && (pk_sport p =? PORT) && pk_established p
  end.

(** The network a route names. *)
Definition route_net (route : str) : option (IpAddr * Z) :=
  '(address, prefix) ← split_once 47 route;
  parsed ← parse_ip address;
  n ← parse_u8 prefix;
  if n <=? full_prefix parsed then Some (parsed, n) else None.

Definition end_of (d : Direction) (p : Packet) : IpAddr := match d with Source => pk_source p | Dest => pk_dest p end.
Definition verdict_text (passes : bool) : str := if passes then lit "RETURN" else lit "DROP".

Definition rule (d : Direction) (route : str) (m : Extra) (passes : bool) : list str :=
  [direction_text d; route] ++ extra_args m ++ [lit "-j"; verdict_text passes].

(** A rule decides exactly the packets its route and its extra match match:
    [Some true] leaves the chain, [Some false] drops. *)
Class PqFilter := {
  pq_verdict : list str → Packet → option bool;
  pq_verdict_rule : ∀ d route n prefix m passes p, route_net route = Some (n, prefix) →
    pq_verdict (rule d route m passes) p =
    if in_network n prefix (end_of d p) && extra_matches m p then Some passes else None
}.

Fixpoint pq_chain `{PqFilter} (rules : list (list str)) (p : Packet) : option bool :=
  match rules with
  | [] => None
  | r :: rules => match pq_verdict r p with Some v => Some v | None => pq_chain rules p end
  end.

(** ** The verdict of the planned chain *)

(** The argument vector of [-t mangle -A BLAKTAIL-PQ], without its first four words,
    is the rule that ends up in the chain. *)
Definition stored (args : list str) : list str := drop 4 args.
Definition family_rules (v4 : bool) (plan : BlockPlan) : list (list str) := map stored (if v4 then bp_ipv4 plan else bp_ipv6 plan).

Definition skipped (route : str) : bool := bool_decide (route_rules route = None).
Definition is_host (route : str) : bool :=
  match split_once 47 route with
  | Some (address, prefix) =>
      match parse_ip address with Some (V4 _) => seq_b prefix "32" | Some (V6 _) => seq_b prefix "128" | None => false end
  | None => false
  end.
Definition touches (p : Packet) (route : str) : bool :=
  match route_net route with
  | Some (n, prefix) => in_network n prefix (pk_source p) || in_network n prefix (pk_dest p)
  | None => false
  end.

(** The exchange: to the listener's port, or a reply from it. *)
Definition is_exchange (p : Packet) : bool :=
  (pk_proto p =? TCP) && ((pk_dport p =? PORT) || ((pk_sport p =? PORT) && pk_established p)).

Definition routes_of (blocked : list PeerPlan) : list str := flat_map pl_routes blocked.

(** The route that decides about a packet: the first that covers one of its ends. *)
Definition deciding (blocked : list PeerPlan) (p : Packet) : option str :=
  List.find (λ r, negb (skipped r) && touches p r) (routes_of blocked).

Definition readable (route : str) : Prop := route_rules route = None ∨ is_Some (route_net route).

Section verdict.
Context `{PqFilter}.
Context (p : Packet) (Hfamily : is_ipv4 (pk_source p) = is_ipv4 (pk_dest p)).

Lemma pq_chain_app r1 r2 : pq_chain (r1 ++ r2) p = match pq_chain r1 p with Some v => Some v | None => pq_chain r2 p end.
Proof using. induction r1 as [|r r1 IH]; simpl; [done|]. by destruct (pq_verdict r p). Qed.

Lemma in_network_family n prefix a : in_network n prefix a = true → is_ipv4 n = is_ipv4 a.
Proof using. by destruct n, a. Qed.

(** The rules of one route, in the chain of its family. *)
Lemma route_verdict route v4 rules :
  route_rules route = Some (v4, rules) → is_Some (route_net route) →
  pq_chain (map stored rules) p = if touches p route then Some (is_host route && is_exchange p) else None.
Proof using.
  unfold route_rules, touches, is_host. intros Hr [[n prefix] Hnet]. rw Hnet. pose proof Hnet as Hnet'. revert Hr. unfold route_net in Hnet'.
  destruct (split_once 47 route) as [[address text]|]; cbn [mbind option_bind] in *; [|done].
  destruct (parse_ip address) as [parsed|]; cbn [mbind option_bind] in *; [|done].
  destruct (parse_u8 text) as [k|]; cbn [mbind option_bind] in *; [|done].
  assert (parsed = n) as -> by (case_match; by simplify_eq). clear Hnet'. case_match; [done|]. intros [= <- <-].
  pose proof (λ d m b, pq_verdict_rule d route n prefix m b p Hnet) as Hv. unfold rule in Hv.
  pose proof (Hv Source Anything false) as H1. pose proof (Hv Dest Anything false) as H2.
  pose proof (Hv Source ToListener true) as H3. pose proof (Hv Source ListenerReply true) as H4.
  pose proof (Hv Dest ToListener true) as H5. pose proof (Hv Dest ListenerReply true) as H6. clear Hv.
  cbn [direction_text extra_args verdict_text app end_of extra_matches] in H1, H2, H3, H4, H5, H6.
  rewrite map_app pq_chain_app. 
  set (host := is_ipv4 n && seq_b text "32" || is_ipv6 n && seq_b text "128").
  assert (match n with V4 _ => seq_b text "32" | V6 _ => seq_b text "128" end = host) as -> by (subst host; destruct n; simpl; by rw ?orb_false_r).
  unfold is_exchange.
  destruct host; cbn [map app exchange_rules base stored drop pq_chain andb].
  - rewrite H3 H4 H5 H6 H1 H2.
    destruct (in_network n prefix (pk_source p)), (in_network n prefix (pk_dest p)), (pk_proto p =? TCP), (pk_dport p =? PORT),
      (pk_sport p =? PORT), (pk_established p); done.
  - rewrite H1 H2. destruct (in_network n prefix (pk_source p)), (in_network n prefix (pk_dest p)); done.
Qed.

(** The rules a route adds to a family's chain. *)
Definition added (v4 : bool) (route : str) : list (list str) :=
  match route_rules route with
  | Some (b, rules) => if Bool.eqb b v4 then map stored rules else []
  | None => []
  end.

Lemma push_routes v4 plan routes :
  family_rules v4 (foldl push_route plan routes) = family_rules v4 plan ++ flat_map (added v4) routes.
Proof using.
  revert plan. induction routes as [|r routes IH]; intros plan; simpl; [by rw app_nil_r|]. rw IH app_assoc. f_equal.
  unfold push_route, added, family_rules. destruct (route_rules r) as [[[] rules]|], v4; simpl; by rw ?map_app ?app_nil_r.
Qed.

Lemma block_rules_family v4 blocked : family_rules v4 (block_rules blocked) = flat_map (added v4) (routes_of blocked).
Proof using.
  unfold block_rules, routes_of.
  assert (∀ plan, family_rules v4 (foldl (λ plan peer, foldl push_route plan (pl_routes peer)) plan blocked) =
    family_rules v4 plan ++ flat_map (added v4) (flat_map pl_routes blocked)) as Hgo.
  { induction blocked as [|peer blocked IH]; intros plan; simpl; [by rw app_nil_r|]. by rw IH push_routes flat_map_app app_assoc. }
  rw Hgo. by destruct v4.
Qed.

Lemma touches_family route v4 rules n prefix :
  route_rules route = Some (v4, rules) → route_net route = Some (n, prefix) → is_ipv4 n = v4.
Proof using.
  unfold route_rules, route_net. destruct (split_once 47 route) as [[address text]|]; cbn [mbind option_bind]; [|done].
  destruct (parse_ip address) as [parsed|]; cbn [mbind option_bind]; [|done]. case_match; [done|]. intros [= <- _].
  destruct (parse_u8 text); cbn [mbind option_bind]; [|done]. case_match; [|done]. by intros [= <- _].
Qed.

(** The chain of the packet's family decides by the first route that covers an end. *)
Lemma planned_verdict blocked :
  Forall readable (routes_of blocked) →
  pq_chain (family_rules (is_ipv4 (pk_source p)) (block_rules blocked)) p =
  (λ r, is_host r && is_exchange p) <$> deciding blocked p.
Proof using Hfamily.
  rw block_rules_family. unfold deciding. induction 1 as [|r routes Hr _ IH]; [done|]. cbn [flat_map List.find].
  rw pq_chain_app. unfold added at 1, skipped at 1. destruct (route_rules r) as [[v4 rules]|] eqn:Hrr.
  - destruct Hr as [Hr|Hn]; [congruence|]. rw bool_decide_false //. cbn [negb andb].
    pose proof (route_verdict r v4 rules Hrr Hn) as Hv. destruct (touches p r) eqn:Ht.
    + unfold touches in Ht. destruct Hn as [[n prefix] Hnet]. rw Hnet in Ht. pose proof (touches_family _ _ _ _ _ Hrr Hnet) as <-.
      assert (is_ipv4 n = is_ipv4 (pk_source p)) as Hf.
      { apply orb_true_iff in Ht as [Ht|Ht]; apply in_network_family in Ht; congruence. }
      rw Hf eqb_reflx Hv. done.
    + destruct (Bool.eqb v4 _); [by rw Hv|done].
  - rw bool_decide_true //. 
Qed.

End verdict.

(** ** The tables *)

(** The chains of one table, built-in ones included. *)
Abbreviation Chains := (gmap str (list (list str))).

Definition on_chain (c : str) (f : list (list str) → option (list (list str))) (t : Chains) : option Chains :=
  l ← t !! c; l ← f l; Some (<[c := l]> t).

(** The documented effect of a command on its table. *)
Definition chain_effect (op c : str) (rest : list str) (t : Chains) : option Chains :=
  if seq_b op "-N" then if bool_decide (is_Some (t !! c)) then None else Some (<[c := []]> t)
  else if seq_b op "-F" then on_chain c (λ _, Some []) t
  else if seq_b op "-X" then
    if bool_decide (t !! c = Some []) && bool_decide (map_Forall (λ _ l, existsb (refers c) l = false) t) then Some (delete c t) else None
  else if seq_b op "-A" then on_chain c (λ l, Some (l ++ [rest])) t
  else if seq_b op "-D" then on_chain c (remove_first rest) t
  else if seq_b op "-I" then match rest with pos :: r => on_chain c (insert_at pos r) t | [] => None end
  else None.

(** A command on [-t table] that reports success had its documented effect; one that
    fails had none; other tables and the other binary's are left alone. *)
Class TableRunner (World : Type) := {
  invoke : World → str → list str → Reply * World;
  table_of : World → str → str → Chains;
  invoke_effect : ∀ w bin table op c rest r w',
    invoke w bin ([lit "-t"; table; op; c] ++ rest) = (r, w') →
    if succeeded r then chain_effect op c rest (table_of w bin table) = Some (table_of w' bin table)
    else table_of w' bin table = table_of w bin table;
  invoke_other : ∀ w bin table op c rest r w' bin' table',
    invoke w bin ([lit "-t"; table; op; c] ++ rest) = (r, w') → (bin', table') ≠ (bin, table) →
    table_of w' bin' table' = table_of w bin' table'
}.

Fixpoint perform `{TableRunner World} {A} (m : Prog A) (w : World) : A * World :=
  match m with
  | Ret a => (a, w)
  | Run bin args k => let (r, w') := invoke w bin args in perform (k r) w'
  end.

Definition jump : list str := [lit "-j"; BLOCK_CHAIN].

(** The chain holds [rules], and packets of both hooks meet it first. *)
Definition in_force (rules : list (list str)) (t : Chains) : Prop :=
  t !! BLOCK_CHAIN = Some rules ∧ ∀ hook, hook ∈ HOOKS → ∃ l, t !! hook = Some (jump :: l).

(** ** A successful installation *)

Definition command_effect (t : Chains) (args : list str) : option Chains :=
  match args with
  | _ :: _ :: op :: c :: rest => chain_effect op c rest t
  | _ => None
  end.
Fixpoint effects (commands : list (list str)) (t : Chains) : option Chains :=
  match commands with
  | [] => Some t
  | args :: commands => t ← command_effect t args; effects commands t
  end.
Definition on_mangle (args : list str) : Prop := ∃ op c rest, args = [lit "-t"; BLOCK_TABLE; op; c] ++ rest.

Section installation.
Context `{TableRunner World}.

Lemma perform_bind {A B} (m : Prog A) (f : A → Prog B) w :
  perform (pbind m f) w = perform (f (perform m w).1) (perform m w).2.
Proof using. revert w. induction m as [a|bin args k IH]; intros w; simpl; [done|]. destruct (invoke w bin args). apply IH. Qed.

Lemma iptables_ok bin args w w' u :
  perform (iptables bin args) w = (Ok u, w') → on_mangle args →
  command_effect (table_of w bin BLOCK_TABLE) args = Some (table_of w' bin BLOCK_TABLE) ∧
  ∀ bin', bin' ≠ bin → table_of w' bin' BLOCK_TABLE = table_of w bin' BLOCK_TABLE.
Proof using.
  unfold iptables. cbn [perform]. destruct (invoke w bin args) as [r w1] eqn:Hi. destruct r as [[[] err]|]; intros [= _ <-] (op & c & rest & ->).
  split.
  - apply invoke_effect in Hi. exact Hi.
  - intros bin' Hb. eapply invoke_other; [exact Hi|congruence].
Qed.

Lemma must_all_ok bin commands w w' u :
  perform (must_all bin commands) w = (Ok u, w') → Forall on_mangle commands →
  effects commands (table_of w bin BLOCK_TABLE) = Some (table_of w' bin BLOCK_TABLE) ∧
  ∀ bin', bin' ≠ bin → table_of w' bin' BLOCK_TABLE = table_of w bin' BLOCK_TABLE.
Proof using.
  revert w. induction commands as [|args commands IH]; intros w; cbn [must_all effects]; [by intros [= _ <-]|].
  rewrite perform_bind. destruct (perform (iptables bin args) w) as [[[]|e] w1] eqn:Hi; cbn [fst snd]; [|done].
  intros Hr [Ha Hc]%Forall_cons. apply iptables_ok in Hi as [He Ho]; [|done]. rewrite He. cbn [mbind option_bind].
  destruct (IH w1 Hr Hc) as [Hes Hos]. split; [done|]. intros bin' Hb. by rewrite Hos // Ho.
Qed.

Lemma effects_app c1 c2 t : effects (c1 ++ c2) t = t' ← effects c1 t; effects c2 t'.
Proof using. revert t. induction c1 as [|a c1 IH]; intros t; cbn [app effects]; [done|]. destruct (command_effect t a); cbn [mbind option_bind]; [apply IH|done]. Qed.

Definition appends (args : list str) : Prop := ∃ rest, args = [lit "-t"; BLOCK_TABLE; lit "-A"; BLOCK_CHAIN] ++ rest.

Lemma effects_rules rules t l :
  Forall appends rules → t !! BLOCK_CHAIN = Some l → effects rules t = Some (<[BLOCK_CHAIN := l ++ map stored rules]> t).
Proof using.
  intros Hr. revert t l. induction Hr as [|args rules [rest ->] _ IH]; intros t l Ht; cbn [effects map].
  { by rewrite app_nil_r insert_id. }
  change (command_effect t _) with (on_chain BLOCK_CHAIN (λ l, Some (l ++ [rest])) t). unfold on_chain. rewrite Ht. cbn [mbind option_bind].
  rewrite (IH _ (l ++ [rest])); [|by rewrite lookup_insert_eq]. by rewrite insert_insert_eq -app_assoc.
Qed.

Lemma hook_effect hook t t' :
  command_effect t [lit "-t"; BLOCK_TABLE; lit "-I"; hook; lit "1"; lit "-j"; BLOCK_CHAIN] = Some t' →
  ∃ l, t !! hook = Some l ∧ t' = <[hook := jump :: l]> t.
Proof using.
  change (command_effect t _) with (on_chain hook (insert_at (lit "1") jump) t). unfold on_chain.
  destruct (t !! hook) as [l|]; cbn [mbind option_bind]; [|done]. unfold insert_at.
  change (parse_uint 10 U32_MAX (lit "1")) with (Some 1). cbn [mbind option_bind].
  destruct ((1 <=? 1) && _); cbn [mbind option_bind]; [|done]. intros [= <-]. by exists l.
Qed.

Lemma install_in_force rules t t' :
  Forall appends rules → effects (install_commands rules) t = Some t' → in_force (map stored rules) t'.
Proof using.
  intros Hr. unfold install_commands. rewrite !effects_app. cbn [effects].
  change (command_effect t _) with (if bool_decide (is_Some (t !! BLOCK_CHAIN)) then None else Some (<[BLOCK_CHAIN := []]> t)).
  destruct (bool_decide _); cbn [mbind option_bind]; [done|].
  rewrite effects_app (effects_rules _ _ []) //; [|by rewrite lookup_insert_eq]. cbn [mbind option_bind app map HOOKS effects].
  destruct (command_effect _ _) as [t1|] eqn:H1; cbn [mbind option_bind]; [|done].
  destruct (command_effect t1 _) as [t2|] eqn:H2; cbn [mbind option_bind]; [|done]. intros [= <-].
  apply hook_effect in H1 as (l1 & _ & ->). apply hook_effect in H2 as (l2 & _ & ->). split.
  - by rewrite lookup_insert_ne // lookup_insert_ne // lookup_insert_eq.
  - intros hook [-> |[-> |[]%elem_of_nil]%elem_of_cons]%elem_of_cons.
    + exists l1. by rewrite lookup_insert_ne // lookup_insert_eq.
    + exists l2. by rewrite lookup_insert_eq.
Qed.

Lemma route_rules_append route v4 rules : route_rules route = Some (v4, rules) → Forall appends rules.
Proof using.
  unfold route_rules. destruct (split_once 47 route) as [[a b]|]; cbn [mbind option_bind]; [|done].
  destruct (parse_ip a) as [ip|]; cbn [mbind option_bind]; [|done]. case_match; [done|]. intros [= _ <-].
  apply Forall_app. split; [case_match; [|constructor]|]; repeat constructor; by eexists.
Qed.

Definition all_append (plan : BlockPlan) : Prop := Forall appends (bp_ipv4 plan) ∧ Forall appends (bp_ipv6 plan).

Lemma foldl_keeps {A B} (P : A → Prop) (f : A → B → A) l a : (∀ a b, P a → P (f a b)) → P a → P (foldl f a l).
Proof using. intros Hf. revert a. induction l as [|b l IH]; intros a Ha; simpl; [done|]. by apply IH, Hf. Qed.

Lemma block_rules_append blocked : all_append (block_rules blocked).
Proof using.
  unfold block_rules. apply foldl_keeps; [|split; constructor]. intros plan peer. apply foldl_keeps. clear.
  intros plan route [H4 H6]. unfold push_route, all_append. destruct (route_rules route) as [[[] rules]|] eqn:Hr; [| |done];
    apply route_rules_append in Hr; split; try done; by apply Forall_app.
Qed.

Definition family_bin (v4 : bool) : str := if v4 then lit "iptables" else lit "ip6tables".

(** What the agent has put in place when [set_blocked] reports success. *)
Lemma set_blocked_in_force blocked w w' b v4 :
  perform (wg_set_blocked blocked) w = (Ok b, w') → blocked ≠ [] →
  in_force (family_rules v4 (block_rules blocked)) (table_of w' (family_bin v4) BLOCK_TABLE).
Proof using.
  intros Hp Hne. unfold wg_set_blocked, clear_blocks in Hp.
  assert (∀ bin commands (k : Prog (result Error bool)) w, ∃ w1, perform (run_all bin commands k) w = perform k w1) as Hclear.
  { clear. intros bin commands k. induction commands as [|args commands IH]; intros w; cbn [run_all perform]; [by exists w|].
    destruct (invoke w bin args) as [r w1]. apply IH. }
  destruct (Hclear (lit "iptables") (flat_map clear_commands [lit "raw"; BLOCK_TABLE]) (run_all (lit "ip6tables") (flat_map clear_commands [lit "raw"; BLOCK_TABLE])
    match blocked with [] => Ret (Ok true) | _ => try must_all (lit "iptables") (install_commands (bp_ipv4 (block_rules blocked)));
      try must_all (lit "ip6tables") (install_commands (bp_ipv6 (block_rules blocked))); Ret (Ok true) end) w) as [w1 Hw1].
  rewrite Hw1 in Hp. clear Hw1.
  destruct (Hclear (lit "ip6tables") (flat_map clear_commands [lit "raw"; BLOCK_TABLE])
    match blocked with [] => Ret (Ok true) | _ => try must_all (lit "iptables") (install_commands (bp_ipv4 (block_rules blocked)));
      try must_all (lit "ip6tables") (install_commands (bp_ipv6 (block_rules blocked))); Ret (Ok true) end w1) as [w2 Hw2].
  rewrite Hw2 in Hp. clear Hw2 Hclear. destruct (block_rules_append blocked) as [H4 H6].
  assert (∀ rules, Forall appends rules → Forall on_mangle (install_commands rules)) as Hmangle.
  { intros rules Hr. unfold install_commands. apply Forall_app. split; [repeat constructor; by eexists _, _, _|]. apply Forall_app. split.
    - eapply Forall_impl; [exact Hr|]. intros args [rest ->]. by eexists _, _, _.
    - repeat constructor; by eexists _, _, _. }
  generalize dependent (block_rules blocked). intros plan. destruct blocked as [|peer blocked]; [done|]. rewrite perform_bind.
  destruct (perform (must_all (lit "iptables") _) w2) as [[u|e] w3] eqn:Hm4; cbn [fst snd]; [|done]. rewrite perform_bind.
  destruct (perform (must_all (lit "ip6tables") _) w3) as [[u'|e] w4] eqn:Hm6; cbn [fst snd perform]; [|done].
  intros [= _ <-] H4 H6. apply must_all_ok in Hm4 as [He4 _]; [|by apply Hmangle]. apply must_all_ok in Hm6 as [He6 Ho]; [|by apply Hmangle].
  destruct v4; unfold family_rules, family_bin; [rewrite Ho; [|by vm_compute]|]; by eapply install_in_force.
Qed.

End installation.

(** ** Reports and blocks *)

(** The pair has a hybrid key within its lifetime. *)
Definition protected (s : Shared) (now : Z) (plan : PeerPlan) : bool :=
  sh_local_capable s && ppq_capable (pl_pq plan)
  && match sh_tracks s !! pl_key plan ≫= t_installed with Some i => is_fresh now i | None => false end.

Lemma required_state s now plan :
  ppq_mode (pl_pq plan) = Require_ → protected s now plan = false →
  (state_reason plan (sh_tracks s !! pl_key plan ≫= t_installed) (sh_local_capable s) now).1 = lit "required_not_established".
Proof.
  unfold state_reason, protected. intros ->. destruct (sh_local_capable s); cbn [negb andb]; [|done].
  destruct (ppq_capable (pl_pq plan)); cbn [negb andb]; [|done]. destruct (sh_tracks s !! pl_key plan ≫= t_installed) as [i|]; [|done].
  by intros ->.
Qed.

Lemma report_state plan track local_capable enforced now :
  rp_state (evaluate plan track local_capable enforced now) = (state_reason plan (track ≫= t_installed) local_capable now).1.
Proof. unfold evaluate. by destruct (state_reason _ _ _ _). Qed.

Lemma report_blocked plan track local_capable enforced now :
  rp_blocked (evaluate plan track local_capable enforced now) =
  seq_b (rp_state (evaluate plan track local_capable enforced now)) "required_not_established" && ppq_block (pl_pq plan) && enforced.
Proof. unfold evaluate. by destruct (state_reason _ _ _ _). Qed.

Lemma blocked_plans_elem s now plan :
  plan ∈ blocked_plans s (reports_of s now) ↔
  ∃ k, (k, plan) ∈ sh_plans s ∧ ppq_block (pl_pq plan) = true ∧
    rp_state (evaluate plan (sh_tracks s !! pl_key plan) (sh_local_capable s) (sh_block_enforced s) now) = lit "required_not_established".
Proof.
  unfold blocked_plans, reports_of. induction (sh_plans s) as [|[k pl] plans IH]; cbn [map zip zip_with List.filter].
  { split; [by intros ?%elem_of_nil|by intros (? & ?%elem_of_nil & _)]. }
  cbn [fst snd]. destruct (seq_b _ _ && ppq_block (pl_pq pl)) eqn:Hb; cbn [map fst].
  - rewrite elem_of_cons IH. apply andb_true_iff in Hb as [Hst Hbl]. apply bool_decide_eq_true in Hst. split.
    + intros [-> |(k' & Hin & ?)]; [exists k; split; [by left|done]|exists k'; split; [by right|done]].
    + intros (k' & [[= -> ->]|Hin]%elem_of_cons & ?); [by left|right; by exists k'].
  - rewrite IH. split.
    + intros (k' & Hin & ?). exists k'. split; [by right|done].
    + intros (k' & [[= -> ->]|Hin]%elem_of_cons & Hbl & Hst); [|by exists k']. exfalso. rewrite Hbl andb_true_r in Hb.
      apply bool_decide_eq_false in Hb. done.
Qed.

Section linux.
Context `{TableRunner World} `{PqFilter} `{Crypto Message} `{!HashIter str}.
Context (wg_set_psk : World → str → option bytes → result str () * World) (wg_handshakes : World → result str (gmap str Z))
        (write_file : World → gmap str PersistedPeer → result str () * World) (read_file : World → option (gmap str PersistedPeer)).

(** [WgCommandDevice] with the other parts of the host as they are. *)
Definition linux_host : Host World := {|
  set_psk := wg_set_psk;
  latest_handshakes := wg_handshakes;
  set_blocked := λ w blocked,
    match perform (wg_set_blocked blocked) w with
    | (Ok b, w) => (Ok b, w)
    | (Err (ForwardFilter.Message e), w) => (Err e, w)
    end;
  enforces_blocks := true;
  write_state := write_file;
  read_state := read_file
|}.
#[local] Existing Instance linux_host.

(** The tables hold the blocks the agent believes it applied. *)
Definition blocks_hold (s : Shared) (w : World) : Prop :=
  ∀ blocked v4, sh_applied_blocks s = Some blocked → blocked ≠ [] →
    in_force (family_rules v4 (block_rules blocked)) (table_of w (family_bin v4) BLOCK_TABLE).

Lemma refresh_holds s now w reports s' w' :
  blocks_hold s w → refresh true s now w = (reports, s', w') →
  sh_applied_blocks s' = Some (blocked_plans s (reports_of s now)) → blocks_hold s' w' ∧ reports = reports_of s now.
Proof using.
  intros Hold. unfold refresh. case_bool_decide as Heq; [by intros [= <- <- <-]|]. cbn [set_blocked linux_host].
  destruct (perform (wg_set_blocked _) w) as [[b|[e]] w1] eqn:Hp; intros [= <- <- <-] Happ; [|congruence].
  split; [|done]. intros blocked v4 Hb Hne. cbn [sh_applied_blocks with_applied] in Hb. injection Hb as <-. by eapply set_blocked_in_force.
Qed.

(** A hook hands the packet to the block chain first, and that drops it. *)
Definition dropped (w : World) (hook : str) (p : Packet) : Prop :=
  ∃ l rules, table_of w (family_bin (is_ipv4 (pk_source p))) BLOCK_TABLE !! hook = Some (jump :: l) ∧
    table_of w (family_bin (is_ipv4 (pk_source p))) BLOCK_TABLE !! BLOCK_CHAIN = Some rules ∧ pq_chain rules p = Some false.

(** [C16] On a Linux agent whose tables hold the blocks it believes applied, after a
    refresh that applied its blocked set, every peer that policy requires a hybrid key
    for and that has none within its lifetime (or that, or whose own agent, cannot make
    one) is reported as not established.  Where the policy blocks, and provided the
    routes of all blocked peers are networks iptables reads or default routes, a packet
    from or to one of its routes that is not a default route is dropped on input and on
    output, unless it is TCP to port 51822 or an established TCP reply from that port,
    whichever host has it.  Default routes are not blocked. *)
Theorem required_pair_is_cut_off s now w reports s' w' k plan :
  blocks_hold s w → refresh true s now w = (reports, s', w') →
  sh_applied_blocks s' = Some (blocked_plans s (reports_of s now)) →
  Forall readable (routes_of (blocked_plans s (reports_of s now))) →
  (k, plan) ∈ sh_plans s → ppq_mode (pl_pq plan) = Require_ → protected s now plan = false →
  (∃ report, report ∈ reports ∧ rp_peer_id report = pl_id plan ∧ rp_state report = lit "required_not_established" ∧
     rp_blocked report = ppq_block (pl_pq plan) && sh_block_enforced s) ∧
  (ppq_block (pl_pq plan) = true → ∀ route p hook,
     route ∈ pl_routes plan → skipped route = false → touches p route = true → is_ipv4 (pk_source p) = is_ipv4 (pk_dest p) →
     hook ∈ HOOKS → is_exchange p = true ∨ dropped w' hook p).
Proof using.
  intros Hold Hrefresh Happ Hread Hin Hmode Hprot. destruct (refresh_holds _ _ _ _ _ _ Hold Hrefresh Happ) as [Hforce ->].
  pose proof (required_state s now plan Hmode Hprot) as Hst. split.
  - eexists. split; [apply list_elem_of_fmap; exists (k, plan); split; [reflexivity|done]|]. cbn [snd].
    rewrite report_blocked report_state Hst. split; [|done]. unfold evaluate. by destruct (state_reason _ _ _ _).
  - intros Hblock route p hook Hroute Hskip Htouch Hfam Hhook. destruct (is_exchange p) eqn:Hex; [by left|right].
    assert (plan ∈ blocked_plans s (reports_of s now)) as Hpl.
    { apply blocked_plans_elem. exists k. by rewrite report_state. }
    assert (blocked_plans s (reports_of s now) ≠ []) as Hne by (intros He; rewrite He in Hpl; by apply elem_of_nil in Hpl).
    destruct (Hforce _ (is_ipv4 (pk_source p)) Happ Hne) as [Hchain Hhooks]. destruct (Hhooks hook Hhook) as [l Hl].
    eexists l, _. split_and!; [done|done|]. rewrite planned_verdict //. unfold deciding.
    destruct (List.find _ _) as [r|] eqn:Hf; cbn; [by rewrite Hex andb_false_r|].
    eapply find_none_elem in Hf; [|apply flat_map_elem; by exists plan]. by rewrite Hskip Htouch in Hf.
Qed.

End linux.

(** ** A model of iptables, to evaluate blocks on *)

Definition extra_of (rest : list str) : option (Extra * bool) :=
  List.find (λ c : Extra * bool, bool_decide (rest = extra_args c.1 ++ [lit "-j"; verdict_text c.2]))
    [(Anything, false); (Anything, true); (ToListener, false); (ToListener, true); (ListenerReply, false); (ListenerReply, true)].

Definition model_verdict (args : list str) (p : Packet) : option bool :=
  match args with
  | d :: route :: rest =>
      match route_net route, extra_of rest with
      | Some (n, prefix), Some (m, passes) =>
          if in_network n prefix (if seq_b d "-s" then pk_source p else pk_dest p) && extra_matches m p then Some passes else None
      | _, _ => None
      end
  | _ => None
  end.

#[export] Instance model_filter : PqFilter.
Proof.
  refine {| pq_verdict := model_verdict |}.
  intros d route n prefix m passes p Hn. unfold rule, model_verdict. cbn [app]. rewrite Hn.
  assert (extra_of (extra_args m ++ [lit "-j"; verdict_text passes]) = Some (m, passes)) as -> by (by destruct m, passes; vm_compute).
  by destruct d.
Defined.

(** Tables, and commands that fail once. *)
Record ModelWorld := mkModelWorld { mw_tables : gmap (str * str) Chains; mw_refused : list (list str) }.

Definition empty_table : Chains := {[ lit "PREROUTING" := []; lit "OUTPUT" := [] ]}.
Definition model_table (w : ModelWorld) (bin table : str) : Chains := default empty_table (mw_tables w !! (bin, table)).

Definition model_invoke (w : ModelWorld) (bin : str) (args : list str) : Reply * ModelWorld :=
  if bool_decide (args ∈ mw_refused w)
  then (Some (false, []), mkModelWorld (mw_tables w) (List.filter (λ a, negb (bool_decide (a = args))) (mw_refused w)))
  else match args with
       | _ :: table :: op :: c :: rest =>
           match chain_effect op c rest (model_table w bin table) with
           | Some t => (Some (true, []), mkModelWorld (<[(bin, table) := t]> (mw_tables w)) (mw_refused w))
           | None => (Some (false, []), w)
           end
       | _ => (Some (false, []), w)
       end.

#[export] Instance model_runner : TableRunner ModelWorld.
Proof.
  refine {| invoke := model_invoke; table_of := model_table |}.
  - intros w bin table op c rest r w'. unfold model_invoke. cbn [app]. case_bool_decide; [by intros [= <- <-]|].
    destruct (chain_effect op c rest _) as [t|] eqn:He; intros [= <- <-]; cbn [succeeded]; [|done].
    unfold model_table in *. cbn [mw_tables] in *. by rewrite lookup_insert_eq.
  - intros w bin table op c rest r w' bin' table'. unfold model_invoke. cbn [app]. case_bool_decide; [by intros [= <- <-]|].
    destruct (chain_effect op c rest _) as [t|] eqn:He; intros [= <- <-] Hne; [|done].
    unfold model_table. cbn [mw_tables]. by rewrite lookup_insert_ne.
Defined.

Definition quiet_psk (w : ModelWorld) (_ : str) (_ : option bytes) : result str () * ModelWorld := (Ok (), w).
Definition quiet_handshakes (_ : ModelWorld) : result str (gmap str Z) := Ok ∅.
Definition quiet_write (w : ModelWorld) (_ : gmap str PersistedPeer) : result str () * ModelWorld := (Ok (), w).
Definition quiet_read (_ : ModelWorld) : option (gmap str PersistedPeer) := None.
#[export] Instance model_host : Host ModelWorld := linux_host quiet_psk quiet_handshakes quiet_write quiet_read.

Definition demo_plan (key route : str) : PeerPlan := mkPeerPlan key key [] (mkPeerPq Require_ true true) [] [route].
Definition demo_a : PeerPlan := demo_plan (lit "a") (lit "100.64.0.2/32").
Definition demo_b : PeerPlan := demo_plan (lit "b") (lit "100.64.0.3/32").
Definition demo_key (epoch at_ : Z) : Track := mkTrack epoch (Some (mkInstalled epoch at_ at_ [])) 0 None.
Definition demo_shared (at_b : Z) (applied : option (list PeerPlan)) : Shared :=
  mkShared [] None true [(lit "a", demo_a); (lit "b", demo_b)] {[ lit "b" := demo_key 1 at_b ]} PORT true applied.
Definition demo_packet : Packet := mkPacket (V4 (from_be [100; 64; 0; 2])) (V4 (from_be [100; 64; 0; 1])) TCP 40000 22 false.
Definition calm : ModelWorld := mkModelWorld ∅ [].

Lemma required_pair_is_cut_off_witness :
  dropped (refresh true (demo_shared 1000 None) 1000 calm).2 (lit "PREROUTING") demo_packet.
Proof.
  destruct (refresh true (demo_shared 1000 None) 1000 calm) as [[reports s'] w'] eqn:Hr.
  assert (sh_applied_blocks s' = Some [demo_a]) as Happ.
  { change s' with (reports, s', w').1.2. rewrite <-Hr. by vm_compute. }
  destruct (required_pair_is_cut_off quiet_psk quiet_handshakes quiet_write quiet_read (demo_shared 1000 None) 1000 calm reports s' w' (lit "a") demo_a) as [_ Hdrop].
  - intros blocked v4 Hb. discriminate Hb.
  - exact Hr.
  - rewrite Happ. by vm_compute.
  - apply Forall_singleton. right. eexists. by vm_compute.
  - by left.
  - done.
  - by vm_compute.
  - destruct (Hdrop eq_refl (lit "100.64.0.2/32") demo_packet (lit "PREROUTING")) as [Hex|Hd]; [by left|by vm_compute..|by left| |exact Hd].
    by vm_compute in Hex.
Defined.

(** A failed installation has removed the old chain, but the agent remembers the old
    blocks as applied: when the blocked set is the old one again nothing is installed,
    and the peer is reported as blocked while nothing is dropped. *)
Definition busy : list str := base (lit "100.64.0.3/32") (lit "-s") [lit "-j"; lit "DROP"].
Definition first_refresh := refresh true (demo_shared 1000 None) 1000 (mkModelWorld ∅ [busy]).
Definition second_refresh := refresh true (demo_shared 0 (sh_applied_blocks first_refresh.1.2)) 1000 first_refresh.2.
Definition third_refresh := refresh true (demo_shared 1000 (sh_applied_blocks second_refresh.1.2)) 1000 second_refresh.2.

Lemma block_lost_after_failure :
  map rp_blocked third_refresh.1.1 = [true; false] ∧ sh_applied_blocks third_refresh.1.2 = Some [demo_a] ∧
  model_table third_refresh.2 (lit "iptables") BLOCK_TABLE !! lit "PREROUTING" = Some [] ∧
  model_table first_refresh.2 (lit "iptables") BLOCK_TABLE !! lit "PREROUTING" = Some [jump].
Proof. by vm_compute. Qed.

(** The exchange's port is open to every destination: a blocked peer reaches port
    51822 of a host behind this device. *)
Lemma foreign_port_passes :
  pq_chain (family_rules true (block_rules [demo_a]))
    (mkPacket (V4 (from_be [100; 64; 0; 2])) (V4 (from_be [192; 168; 1; 5])) TCP 40000 PORT false) = Some true.
Proof. by vm_compute. Qed.

End PqBlock.
