(* ===== verification/PqState.v ===== *)
(** * Epochs, keys and restarts of the post-quantum runtime

    Over every interleaving of an agent's operations the newest epoch of a peer never
    falls while the peer stays in the map, no installed key is newer than it, and an
    exchange begun later with an old epoch is refused; a restart keeps epochs and fresh
    keys.  Concrete runs show a session in flight that installs an epoch again, how a stranger's refusal stops an agent's exchanges for good,
    and a failed clearing that is never tried again. *)

From S2P Require Import Prelude Text Net Policy AclFilter AclProps CoordAcl AppConnectors ForwardFilter Ingress HeaderProps Pq PqExchange PqRuntime.

Module PqState.
Import Pq PqExchange PqRuntime.

(** ** Well-formed tracks *)

(** An installed key is at most as new as the newest epoch, which is a [u64]. *)
Definition track_ok (t : Track) : Prop :=
  is_u64 (t_last_epoch t) ∧ ∀ i, t_installed t = Some i → 0 ≤ in_epoch i ≤ t_last_epoch t.
Definition tracks_ok (m : gmap str Track) : Prop := map_Forall (λ _ t, track_ok t) m.

(** [m'] has no new peers, no new epochs and no new keys. *)
Definition tame (m m' : gmap str Track) : Prop :=
  ∀ k t', m' !! k = Some t' → ∃ t, m !! k = Some t ∧ t_last_epoch t' = t_last_epoch t ∧
    ∀ i', t_installed t' = Some i' → ∃ i, t_installed t = Some i ∧ in_epoch i' = in_epoch i.

(** The newest epoch of a peer that stays does not fall. *)
Definition advances (m m' : gmap str Track) : Prop :=
  ∀ k t t', m !! k = Some t → m' !! k = Some t' → t_last_epoch t ≤ t_last_epoch t'.

Lemma tame_refl m : tame m m.
Proof. intros k t Ht. exists t. split_and!; [done|done|]. intros i Hi. by exists i. Qed.

Lemma tame_trans m1 m2 m3 : tame m1 m2 → tame m2 m3 → tame m1 m3.
Proof.
  intros H12 H23 k t3 Ht3. destruct (H23 _ _ Ht3) as (t2 & Ht2 & -> & Hi3). destruct (H12 _ _ Ht2) as (t1 & Ht1 & -> & Hi2).
  exists t1. split_and!; [done|done|]. intros i3 H3. destruct (Hi3 _ H3) as (i2 & H2 & ->). destruct (Hi2 _ H2) as (i1 & H1 & ->). by exists i1.
Qed.

Lemma tame_ok m m' : tame m m' → tracks_ok m → tracks_ok m'.
Proof.
  intros Ht Hm k t' Hk. destruct (Ht _ _ Hk) as (t & Hk' & Hl & Hi). destruct (Hm _ _ Hk') as [Hu He]. split; [by rewrite Hl|].
  intros i' Hi'. destruct (Hi _ Hi') as (i & Hi0 & ->). rewrite Hl. by apply He.
Qed.

Lemma tame_advances m m' : tame m m' → advances m m'.
Proof. intros Ht k t t' Hk Hk'. destruct (Ht _ _ Hk') as (t0 & Hk0 & -> & _). by simplify_eq. Qed.

Lemma tame_insert m m' k t :
  tame m m' → (∃ t0, m !! k = Some t0 ∧ t_last_epoch t = t_last_epoch t0 ∧
    ∀ i', t_installed t = Some i' → ∃ i, t_installed t0 = Some i ∧ in_epoch i' = in_epoch i) → tame m (<[k := t]> m').
Proof.
  intros Ht Hk k' t' [[<- <-]|[_ Hk']]%lookup_insert_Some; [done|]. by apply Ht.
Qed.

Section states.
Context `{Crypto Message} `{Host W} `{!HashIter str}.

Lemma clear_one_tame device plans acc key : tame acc.1 (clear_one device plans acc key).1.
Proof using.
  destruct acc as [tracks w]. cbn [clear_one fst]. intros k t' Hk. apply lookup_alter_Some in Hk as [(-> & t & Ht & ->)|[_ Hk]].
  - exists t. split_and!; [done|done|]. by intros i [=].
  - by apply tame_refl.
Qed.

Lemma reinstall_tame known now m w l :
  (∀ e, e ∈ l → m !! e.1 = Some e.2) → tame m (foldl (reinstall_one known now) (m, w) l).1.
Proof using.
  intros Hl. assert (∀ acc, tame m acc.1 → tame m (foldl (reinstall_one known now) acc l).1) as Hgo; [|by apply Hgo, tame_refl].
  induction l as [|[key track] l IH]; intros [tracks w0] Hacc; cbn [foldl]; [done|]. apply IH; [intros e He; apply Hl; by right|].
  unfold reinstall_one. case_bool_decide; [done|]. destruct (t_installed track) as [i|] eqn:Hi; [|done].
  destruct (set_psk w0 key _) as [[u|e] w1]; cbn [fst]; [|done]. apply tame_insert; [done|]. exists track.
  split_and!; [by apply (Hl (key, track)); left|done|]. intros i' [= <-]. by exists i.
Qed.

Lemma revert_tame now handshakes m w l :
  (∀ e, e ∈ l → m !! e.1 = Some e.2) → tame m (foldl (revert_one now handshakes) (m, false, w) l).1.1.
Proof using.
  intros Hl. assert (∀ acc, tame m acc.1.1 → tame m (foldl (revert_one now handshakes) acc l).1.1) as Hgo; [|by apply Hgo, tame_refl].
  induction l as [|[key track] l IH]; intros [[tracks b] w0] Hacc; cbn [foldl]; [done|]. apply IH; [intros e He; apply Hl; by right|].
  unfold revert_one. destruct (t_installed track) as [i|] eqn:Hi; [|done]. destruct (is_stale _ _ _ _); cbn [fst]; [|done].
  apply tame_insert; [done|]. exists track. split_and!; [by apply (Hl (key, track)); left|done|]. by intros i' [=].
Qed.

Lemma revert_dom now handshakes l acc k :
  is_Some (acc.1.1 !! k) → is_Some ((foldl (revert_one now handshakes) acc l).1.1 !! k).
Proof using.
  revert acc. induction l as [|[key track] l IH]; intros [[tracks b] w0] Hk; cbn [foldl]; [done|]. apply IH.
  unfold revert_one. destruct (t_installed track); [|done]. destruct (is_stale _ _ _ _); cbn [fst]; [|done].
  apply lookup_insert_is_Some. destruct (decide (key = k)); [by left|by right].
Qed.

Lemma hash_iter_entries (m : gmap str Track) e : e ∈ hash_iter m → m !! e.1 = Some e.2.
Proof using. destruct e. by rewrite hash_iter_elem. Qed.

Lemma refresh_tracks device s now w : sh_tracks (refresh device s now w).1.2 = sh_tracks s.
Proof using. unfold refresh. case_bool_decide; [done|]. destruct device; [|done]. by destruct (set_blocked w _) as [[]]. Qed.

Lemma manage_tame r peers ip now w : tame (sh_tracks (rt_shared r)) (sh_tracks (rt_shared (manage r peers ip now w).1.2)).
Proof using.
  unfold manage. set (plans := plans_of peers).
  destruct (foldl (clear_one (rt_device r) plans) _ _) as [tracks w1] eqn:Hc.
  assert (tame (sh_tracks (rt_shared r)) tracks) as Hclear.
  { change tracks with (tracks, w1).1. rewrite <-Hc. generalize (to_clear (rt_shared r) plans). intros l.
    assert (∀ acc : gmap str Track * W, tame (sh_tracks (rt_shared r)) acc.1 →
      tame (sh_tracks (rt_shared r)) (foldl (clear_one (rt_device r) plans) acc l).1) as Hgo; [|by apply Hgo, tame_refl].
    induction l as [|key l IH]; intros acc Hacc; cbn [foldl]; [done|]. apply IH. eapply tame_trans; [exact Hacc|apply clear_one_tame]. }
  set (kept := filter _ tracks). assert (tame (sh_tracks (rt_shared r)) kept) as Hkept.
  { intros k t [Hk _]%map_lookup_filter_Some. by apply Hclear. }
  cbn [sh_tracks with_plans with_tracks].
  set (w2 := match to_clear (rt_shared r) plans with [] => w1 | _ => _ end).
  destruct (if rt_device r then _ else (kept, w2)) as [tracks3 w3] eqn:Hr.
  assert (tame (sh_tracks (rt_shared r)) tracks3) as H3.
  { change tracks3 with (tracks3, w3).1. rewrite <-Hr. destruct (rt_device r); [|done].
    eapply tame_trans; [exact Hkept|]. apply reinstall_tame. intros e. apply hash_iter_entries. }
  clear Hr Hc. unfold reports.
  match goal with |- context [refresh ?d (rt_shared ?r') now w3] => set (r1 := r') end.
  assert (sh_tracks (rt_shared r1) = tracks3) as Ht1.
  { subst r1. destruct (_ && (_ || _)); [unfold start_tasks; cbn; by destruct (rt_device r)|by destruct (negb _ && negb _)]. }
  destruct (refresh _ _ now w3) as [[out s'] w'] eqn:Hf. cbn [fst snd rt_shared with_shared].
  change s' with (out, s', w').1.2. by rewrite <-Hf, refresh_tracks, Ht1.
Qed.

(** ** The driver *)

(** [m'] keeps the peers of [m] with their epochs and keys, and may add empty ones. *)
Definition calm (m m' : gmap str Track) : Prop :=
  (∀ k, is_Some (m !! k) → is_Some (m' !! k)) ∧
  ∀ k t', m' !! k = Some t' → let t := default default_track (m !! k) in
    t_last_epoch t' = t_last_epoch t ∧ t_installed t' = t_installed t.

Lemma calm_lookup m m' k : calm m m' →
  t_last_epoch (default default_track (m' !! k)) = t_last_epoch (default default_track (m !! k)) ∧
  t_installed (default default_track (m' !! k)) = t_installed (default default_track (m !! k)).
Proof using.
  intros [Hdom Ht]. destruct (m' !! k) as [t'|] eqn:Hk'; [by apply Ht|]. destruct (m !! k) as [t|] eqn:Hk; [|done].
  destruct (Hdom k) as [x Hx]; [by eexists|congruence].
Qed.

Lemma calm_insert m m' k t :
  calm m m' → t_last_epoch t = t_last_epoch (default default_track (m !! k)) →
  t_installed t = t_installed (default default_track (m !! k)) → calm m (<[k := t]> m').
Proof using.
  intros [Hdom Ht] Hl Hi. split.
  - intros k' Hk'. destruct (decide (k' = k)) as [-> |Hne]; [by rewrite lookup_insert_eq|]. rewrite lookup_insert_ne //. by apply Hdom.
  - intros k' t' [[<- <-]|[_ Hk']]%lookup_insert_Some; [done|]. by apply Ht.
Qed.

Lemma calm_refl m : calm m m.
Proof using. split; [done|]. intros k t ->. done. Qed.

Lemma calm_ok m m' : calm m m' → tracks_ok m → tracks_ok m'.
Proof using.
  intros [_ Ht] Hm k t' Hk. destruct (Ht _ _ Hk) as [Hl Hi]. unfold track_ok. rewrite Hl Hi.
  destruct (m !! k) as [t|] eqn:Hk'; [by apply (Hm k)|]. split; [vm_compute; by split|done].
Qed.

Lemma calm_advances m m' : calm m m' → advances m m'.
Proof using. intros [_ Ht] k t t' Hk Hk'. destruct (Ht _ _ Hk') as [-> _]. by rewrite Hk. Qed.

(** A job belongs to a peer of the map that wants an exchange and that this side
    initiates to, and carries the epoch after the newest one. *)
Definition job_ok (s : Shared) (m : gmap str Track) (j : Job) : Prop :=
  ∃ k plan, (k, plan) ∈ sh_plans s ∧ j_key j = pl_key plan ∧ j_peer j = pl_raw_key plan ∧ j_host j ∈ pl_hosts plan ∧
    wants_exchange plan (sh_local_capable s) = true ∧ BTree.str_ltb (sh_own s) (pl_raw_key plan) = true ∧
    j_epoch j = u64_add (t_last_epoch (default default_track (m !! pl_key plan))) 1.

Lemma exchange_host_in plan host : exchange_host plan = Some host → host ∈ pl_hosts plan.
Proof using.
  unfold exchange_host. destruct (List.find is_ipv4 (pl_hosts plan)) as [ip|] eqn:Hf.
  - intros [= <-]. by apply find_elem in Hf as [? _].
  - destruct (pl_hosts plan) as [|ip ips]; [done|]. intros [= <-]. by left.
Qed.

Lemma plan_job_ok s now m acc e :
  e ∈ sh_plans s → calm m acc.1 ∧ Forall (job_ok s m) acc.2 →
  calm m (plan_job s now acc e).1 ∧ Forall (job_ok s m) (plan_job s now acc e).2.
Proof using.
  destruct acc as [tracks jobs], e as [k plan]. intros He [Hc Hj]. cbn [fst snd] in *. unfold plan_job. cbn [snd].
  destruct (negb (wants_exchange plan (sh_local_capable s))) eqn:Hw; [done|]. apply negb_false_iff in Hw.
  unfold bytes_geb. destruct (BTree.str_ltb (sh_own s) (pl_raw_key plan)) eqn:Hlt; cbn [negb orb]; [|done].
  destruct (exchange_host plan) as [host|] eqn:Hh; [|done]. destruct (calm_lookup m tracks (pl_key plan) Hc) as [Hl Hi].
  destruct (is_due now _); [|split; [by apply calm_insert|done]].
  destruct (_ <$> sh_secret s) as [[static|err]|]; cbn [fst snd]; (split; [by apply calm_insert|]); [|done|done].
  apply Forall_app. split; [done|]. constructor; [|done]. exists k, plan. cbn [j_key j_peer j_host j_epoch]. rewrite Hl.
  split_and!; try done. by apply exchange_host_in.
Qed.

Lemma plan_jobs_ok s now m l acc :
  (∀ e, e ∈ l → e ∈ sh_plans s) → calm m acc.1 ∧ Forall (job_ok s m) acc.2 →
  calm m (foldl (plan_job s now) acc l).1 ∧ Forall (job_ok s m) (foldl (plan_job s now) acc l).2.
Proof using.
  revert acc. induction l as [|e l IH]; intros acc Hl Hacc; cbn [foldl]; [done|].
  apply IH; [intros e' He'; apply Hl; by right|]. apply plan_job_ok; [apply Hl; by left|done].
Qed.

Lemma tick_ok s now w jobs s' w' :
  tick s now w = (jobs, s', w') →
  ∃ m, tame (sh_tracks s) m ∧ (∀ k, is_Some (sh_tracks s !! k) → is_Some (m !! k)) ∧ calm m (sh_tracks s') ∧ Forall (job_ok s m) jobs.
Proof using.
  unfold tick. destruct (foldl (revert_one now _) _ _) as [[m reverted] w1] eqn:Hr.
  match goal with |- context [foldl (plan_job ?s1 now)] => set (sm := s1) end.
  destruct (foldl (plan_job sm now) _ _) as [tracks jobs'] eqn:Hj.
  destruct (refresh true _ now _) as [[out s2] w2] eqn:Hf. intros [= <- <- <-]. exists m. split.
  - change m with (m, reverted, w1).1.1. rewrite <-Hr. apply revert_tame. intros e. apply hash_iter_entries.
  - split; [intros k Hk; change m with (m, reverted, w1).1.1; rewrite <-Hr; by apply revert_dom|]. change s2 with (out, s2, w2).1.2. rewrite <-Hf, refresh_tracks. cbn [sh_tracks with_tracks].
    destruct (plan_jobs_ok sm now m (sh_plans sm) (m, [])) as [Hc Hall]; [done|split; [apply calm_refl|constructor]|].
    change (sh_tracks sm) with m in Hj. rewrite Hj in Hc, Hall. done.
Qed.

(** ** Outcomes *)

Definition wf_outcome (o : Outcome) : Prop :=
  match o with Ok (epoch, _) => is_u64 epoch | Err (Rejected _ last_epoch) => is_u64 last_epoch | Err _ => True end.

Lemma default_ok m k : tracks_ok m → track_ok (default default_track (m !! k)).
Proof using. intros Hm. destruct (m !! k) as [t|] eqn:Hk; [by apply (Hm k)|]. split; [vm_compute; by split|done]. Qed.

Lemma insert_ok m k t :
  tracks_ok m → track_ok t → t_last_epoch (default default_track (m !! k)) ≤ t_last_epoch t →
  tracks_ok (<[k := t]> m) ∧ advances m (<[k := t]> m).
Proof using.
  intros Hm Ht Hle. split; [by apply map_Forall_insert_2|].
  intros k' t0 t' Hk Hk'. apply lookup_insert_Some in Hk' as [[<- <-]|[_ Hk']]; [by rewrite Hk in Hle|by simplify_eq].
Qed.

Lemma install_track_ok t epoch at_ ap psk : track_ok t → is_u64 epoch → track_ok (install_track t epoch at_ ap psk).
Proof using.
  intros [Hu _] He. unfold install_track, track_ok. cbn [t_last_epoch t_installed]. split; [mlia|]. intros i [= <-]. cbn. mlia.
Qed.

Lemma install_state_ok s key epoch psk at_ ap w :
  tracks_ok (sh_tracks s) → is_u64 epoch →
  tracks_ok (sh_tracks (install_state s key epoch psk at_ ap w).1) ∧ advances (sh_tracks s) (sh_tracks (install_state s key epoch psk at_ ap w).1).
Proof using.
  intros Hm He. cbn [install_state fst sh_tracks with_tracks]. apply insert_ok; [done|by apply install_track_ok, He; apply default_ok|].
  cbn [install_track t_last_epoch]. lia.
Qed.

Lemma outcome_ok s key o at_ ap w :
  tracks_ok (sh_tracks s) → wf_outcome o →
  tracks_ok (sh_tracks (record_initiator_outcome s key o at_ ap w).1) ∧
  advances (sh_tracks s) (sh_tracks (record_initiator_outcome s key o at_ ap w).1).
Proof using.
  intros Hm Ho. pose proof (default_ok _ key Hm) as [Hu Hi]. destruct o as [[epoch psk]|e]; cbn [record_initiator_outcome].
  - destruct (set_psk w key _) as [[u|err] w1]; cbn [fst sh_tracks with_tracks].
    + apply insert_ok; [done|by apply install_track_ok|cbn [install_track t_last_epoch]; lia].
    + split; [done|]. intros k t t' Hk Hk'. by simplify_eq.
  - cbn [fst sh_tracks with_tracks]. apply insert_ok; [done| |destruct e; cbn; lia].
    destruct e; cbn in *; (split; [cbn; mlia|]); intros i Hii; specialize (Hi i Hii); cbn in *; lia.
Qed.

(** ** The agent *)

(** What happens to an agent, in any order: operations under the lock are single
    steps; a responder writes the device before it takes the lock. *)
Inductive agent_step : Runtime * W → Runtime * W → Prop :=
| step_manage r w peers ip now out r' w' : manage r peers ip now w = (out, r', w') → agent_step (r, w) (r', w')
| step_tick r w now jobs s' w' :
    Drive ∈ rt_tasks r → tick (rt_shared r) now w = (jobs, s', w') → agent_step (r, w) (with_shared r s', w')
| step_outcome r w key o at_ ap s' w' :
    wf_outcome o → record_initiator_outcome (rt_shared r) key o at_ ap w = (s', w') → agent_step (r, w) (with_shared r s', w')
| step_device r w key psk : agent_step (r, w) (r, (install_device w key psk).2)
| step_install r w key epoch psk at_ ap s' w' :
    is_u64 epoch → install_state (rt_shared r) key epoch psk at_ ap w = (s', w') → agent_step (r, w) (with_shared r s', w')
| step_reports r w now out r' w' : reports r now w = (out, r', w') → agent_step (r, w) (r', w')
| step_clear r w : agent_step (r, w) (clear r w)
| step_stop r w : agent_step (r, w) (stop r, w)
| step_world r w w' : agent_step (r, w) (r, w').

Definition tracks_of (a : Runtime * W) : gmap str Track := sh_tracks (rt_shared a.1).

Lemma agent_step_ok a b : agent_step a b → tracks_ok (tracks_of a) → tracks_ok (tracks_of b) ∧ advances (tracks_of a) (tracks_of b).
Proof using.
  intros Hs. assert (∀ m, tracks_ok m → tracks_ok m ∧ advances m m) as Hid.
  { intros m Hm. split; [done|]. intros k t t' Hk Hk'. by simplify_eq. }
  destruct Hs as [r w peers ip now out r' w' Hs|r w now jobs s' w' _ Hs|r w key o at_ ap s' w' Ho Hs|r w key psk
    |r w key epoch psk at_ ap s' w' He Hs|r w now out r' w' Hs|r w|r w|r w w']; unfold tracks_of; cbn [fst]; try apply Hid; intros Hm.
  - pose proof (manage_tame r peers ip now w) as Ht. rewrite Hs in Ht. cbn [fst snd] in Ht. split; [by eapply tame_ok|by apply tame_advances].
  - apply tick_ok in Hs as (m & Ht & Hdom & Hc & _). cbn [rt_shared with_shared fst]. split; [eapply calm_ok; [done|by eapply tame_ok]|].
    intros k t t' H1 H2. destruct (Hdom k) as [t1 H3]; [by eexists|]. apply tame_advances in Ht. specialize (Ht _ _ _ H1 H3).
    apply calm_advances in Hc. specialize (Hc _ _ _ H3 H2). lia.
  - pose proof (outcome_ok _ key o at_ ap w Hm Ho) as Hok. by rewrite Hs in Hok.
  - pose proof (install_state_ok _ key epoch psk at_ ap w Hm He) as Hok. by rewrite Hs in Hok.
  - pose proof (refresh_tracks (rt_device r) (rt_shared r) now w) as Hf. unfold reports in Hs.
    destruct (refresh _ _ _ _) as [[out1 s1] w1]. injection Hs as <- <- <-. cbn [fst snd rt_shared with_shared] in *. rewrite Hf. by apply Hid.
Qed.

Lemma agent_run_ok a b : rtc agent_step a b → tracks_ok (tracks_of a) → tracks_ok (tracks_of b).
Proof using. induction 1 as [|a b c Hab _ IH]; [done|]. intros Ha. apply IH. by eapply agent_step_ok in Hab as [? _]. Qed.

(** The peer's track is there after the step. *)
Definition keeps (k : str) (a b : Runtime * W) : Prop := agent_step a b ∧ is_Some (tracks_of b !! k).

Lemma keeping_run k a b t :
  rtc (keeps k) a b → tracks_ok (tracks_of a) → tracks_of a !! k = Some t →
  ∃ t', tracks_of b !! k = Some t' ∧ t_last_epoch t ≤ t_last_epoch t'.
Proof using.
  intros Hrun. revert t. induction Hrun as [a|a b c [Hab [tb Hb]] _ IH]; intros t Ha Hk; [by exists t|].
  destruct (agent_step_ok _ _ Hab Ha) as [Hok Hadv]. destruct (IH tb Hok Hb) as (t' & Hk' & Hle). exists t'. split; [done|].
  specialize (Hadv _ _ _ Hk Hb). lia.
Qed.

(** A state file as the agent writes it. *)
Definition file_ok (w : W) : Prop :=
  ∀ peers, read_state w = Some peers → map_Forall (λ _ p, is_u64 (pp_last_epoch p) ∧ 0 ≤ pp_epoch p ≤ pp_last_epoch p) peers.

Lemma load_ok w now : file_ok w → tracks_ok (load_tracks w now).
Proof using.
  intros Hf. unfold load_tracks. destruct (read_state w) as [peers|] eqn:Hr; [|apply map_Forall_empty]. specialize (Hf _ Hr).
  intros k t Hk. apply lookup_fmap_Some in Hk as (p & <- & Hp). specialize (Hf _ _ Hp) as [Hu He]. split; [done|].
  unfold load_track. cbn [t_installed t_last_epoch]. intros i Hi. destruct (pp_psk p ≫= decode_key); cbn [mbind option_bind] in Hi; [|done].
  case_match; [|done]. by injection Hi as <-.
Qed.

Lemma accept_last_epoch s from ctx k' plan :
  accept_context s from = Ok ctx → List.find (λ e : str * PeerPlan, bool_decide (from ∈ pl_hosts e.2)) (sh_plans s) = Some (k', plan) →
  c_last_epoch ctx = from_option t_last_epoch 0 (sh_tracks s !! pl_key plan).
Proof using.
  unfold accept_context. intros Ha Hf. rewrite Hf in Ha. cbn [mbind option_bind snd] in Ha.
  destruct (wants_exchange plan _); cbn [ok_or result_bind] in Ha; [|done]. destruct (sh_secret s); cbn [ok_or result_bind] in Ha; [|done].
  destruct (static_agreement _ _); cbn [result_bind] in Ha; [|done]. by injection Ha as <-.
Qed.

(** [C17] From a state file that is absent or as the agent writes it, over every
    interleaving of peer maps, driver turns, exchanges on both sides and failures: once
    a key was installed for a peer, and while the peer stays in the map, every exchange
    begun afterwards uses a newer epoch.  A session whose context the listener takes
    after the installation refuses that and every older epoch, and the driver starts
    exchanges with newer epochs only, unless the epoch counter is at its end.  A
    session whose context was taken before is not covered
    ([session_in_flight_installs_again]). *)
Theorem later_exchange_is_newer pk device capable port now0 w0 r1 w1 k t i r2 w2 :
  file_ok w0 → rtc agent_step (with_options pk device capable port now0 w0, w0) (r1, w1) →
  sh_tracks (rt_shared r1) !! k = Some t → t_installed t = Some i →
  rtc (keeps k) (r1, w1) (r2, w2) →
  (∀ from ctx k' plan v epoch a b x ek secret seed,
    accept_context (rt_shared r2) from = Ok ctx →
    List.find (λ e : str * PeerPlan, bool_decide (from ∈ pl_hosts e.2)) (sh_plans (rt_shared r2)) = Some (k', plan) → pl_key plan = k →
    epoch ≤ in_epoch i →
    ∃ e, respond (c_own ctx) (c_peer ctx) (c_static_secret ctx) (c_last_epoch ctx) (Init v epoch a b x ek) secret seed = Err e) ∧
  (∀ now jobs s' w' j, tick (rt_shared r2) now w2 = (jobs, s', w') → j ∈ jobs → j_key j = k →
    in_epoch i < j_epoch j ∨ from_option t_last_epoch 0 (sh_tracks (rt_shared r2) !! k) = U64_MAX).
Proof using.
  intros Hfile Hrun Hk Hi Hkeep. pose proof (agent_run_ok _ _ Hrun (load_ok w0 now0 Hfile)) as Hok1. unfold tracks_of in Hok1. cbn [fst] in Hok1.
  destruct (keeping_run k _ _ t Hkeep Hok1 Hk) as (t2 & Hk2 & Hle). unfold tracks_of in Hk2. cbn [fst] in Hk2.
  destruct (Hok1 _ _ Hk) as [_ Hie]. specialize (Hie _ Hi).
  assert (tracks_ok (sh_tracks (rt_shared r2))) as Hok2.
  { apply (agent_run_ok (r1, w1) (r2, w2)); [|done]. clear -Hkeep. induction Hkeep as [|a b c [Hab _] _ IH]; [done|by eapply rtc_l]. }
  destruct (Hok2 _ _ Hk2) as [Hu2 _]. split.
  - intros from ctx k' plan v epoch a b x ek secret seed Ha Hf <- He.
    destruct (respond _ _ _ _ _ _ _) as [[rs resp]|e] eqn:Hr; [|by exists e]. exfalso.
    apply respond_ok in Hr as (e & ? & ? & ? & ? & ? & ? & [= _ <- _ _ _ _] & _ & _ & _ & Hlt & _).
    rewrite (accept_last_epoch _ _ _ _ _ Ha Hf) Hk2 in Hlt. cbn [from_option] in Hlt. lia.
  - intros now jobs s' w' j Ht Hj <-. rewrite Hk2. cbn [from_option].
    apply tick_ok in Ht as (m & Ht & Hdom & _ & Hjobs). apply (proj1 (Forall_forall _ _) Hjobs) in Hj as (k' & plan & _ & Hkey & _ & _ & _ & _ & ->).
    rewrite <-Hkey. destruct (Hdom (j_key j)) as [tm Hm]; [by eexists|]. rewrite Hm. cbn [default from_option id].
    destruct (Ht _ _ Hm) as (t3 & Hk3 & -> & _). assert (t3 = t2) as -> by congruence. destruct (decide (t_last_epoch t2 = U64_MAX)); [by right|left].
    unfold u64_add. rewrite Z.mod_small; mlia.
Qed.

(** ** Restarts *)

(** What a restart keeps of a track: the newest epoch, and the key within its lifetime. *)
Definition restarted (now : Z) (t : Track) : Track :=
  mkTrack (t_last_epoch t)
    (match t_installed t with
     | Some i => if is_fresh now i then Some (mkInstalled (in_epoch i) (in_at i) now (in_psk i)) else None
     | None => None
     end) 0 None.

Lemma restart_keeps_tracks `{!CryptoLaws C} now t :
  (∀ i, t_installed t = Some i → wf_bytes (in_psk i) ∧ len (in_psk i) = 32) →
  @load_track C now (@save_track C t) = restarted now t.
Proof using.
  intros Hi. unfold load_track, save_track, restarted. cbn [pp_last_epoch pp_epoch pp_at pp_psk].
  destruct (t_installed t) as [i|]; cbn [mbind option_bind fmap option_fmap option_map from_option]; [|done].
  destruct (Hi i eq_refl) as [Hw Hl]. rewrite decode_own_key //.
Qed.

(** ** A refusal from anyone *)

(** The initiator believes a refusal without any proof of who sent it. *)
Lemma refusal_unauthenticated st v reason last : initiator_finish st (Reject v reason last) = Err (Rejected (short_reason reason) last).
Proof using. done. Qed.

(** After one refusal with the largest epoch every later exchange of that peer starts
    with epoch 0, which every responder refuses, for as long as the peer stays. *)
Lemma refusal_ends_exchanges r w key reason at_ ap s' w' r2 w2 now jobs s3 w3 j :
  tracks_ok (sh_tracks (rt_shared r)) →
  record_initiator_outcome (rt_shared r) key (Err (Rejected reason U64_MAX)) at_ ap w = (s', w') →
  rtc (keeps key) (with_shared r s', w') (r2, w2) →
  tick (rt_shared r2) now w2 = (jobs, s3, w3) → j ∈ jobs → j_key j = key →
  j_epoch j = 0 ∧ ∀ own peer static last v a b x ek secret seed, 0 ≤ last →
    ∃ e, respond own peer static last (Init v (j_epoch j) a b x ek) secret seed = Err e.
Proof using.
  intros Hok Hrec Hrun Ht Hj Hkey. destruct (outcome_ok _ key (Err (Rejected reason U64_MAX)) at_ ap w Hok) as [Hok' _]; [cbn; mlia|].
  rewrite Hrec in Hok'. cbn [fst] in Hok'. injection Hrec as Hs' _.
  destruct (default_ok _ key Hok) as [Hu _].
  assert (∃ t, sh_tracks s' !! key = Some t ∧ t_last_epoch t = U64_MAX) as (t & Hk & Hl).
  { rewrite <-Hs'. cbn [sh_tracks with_tracks]. eexists. split; [apply lookup_insert_eq|]. cbn [t_last_epoch]. mlia. }
  destruct (keeping_run key _ _ t Hrun Hok' Hk) as (t2 & Hk2 & Hle). unfold tracks_of in Hk2. cbn [fst] in Hk2.
  assert (tracks_ok (sh_tracks (rt_shared r2))) as Hok2.
  { apply (agent_run_ok (with_shared r s', w') (r2, w2)); [|done]. clear -Hrun. induction Hrun as [|a b c [Hab _] _ IH]; [done|by eapply rtc_l]. }
  destruct (Hok2 _ _ Hk2) as [Hu2 _].
  apply tick_ok in Ht as (m & Htame & Hdom & _ & Hjobs). apply (proj1 (Forall_forall _ _) Hjobs) in Hj as (k' & plan & _ & Hpk & _ & _ & _ & _ & He).
  assert (j_epoch j = 0) as Hzero.
  { rewrite He -Hpk Hkey. destruct (Hdom key) as [tm Hm]; [by eexists|]. rewrite Hm. cbn [default from_option id].
    destruct (Htame _ _ Hm) as (t3 & Hk3 & -> & _). assert (t3 = t2) as -> by congruence.
    assert (t_last_epoch t2 = U64_MAX) as -> by mlia. by vm_compute. }
  split; [done|]. rewrite Hzero. intros own peer static last v a b x ek secret seed Hlast.
  destruct (respond _ _ _ _ _ _ _) as [[rs resp]|e] eqn:Hr; [|by exists e]. exfalso.
  apply respond_ok in Hr as (e & ? & ? & ? & ? & ? & ? & [= _ <- _ _ _ _] & _ & _ & _ & Hlt & _). lia.
Qed.

End states.

(** ** A model of the host, to evaluate runs on *)

(** The device's keys, the state file, and whether the device refuses changes. *)
Record Bench := mkBench { be_keys : gmap str bytes; be_file : option (gmap str PersistedPeer); be_busy : bool }.

#[export] Instance bench_host : Host Bench := {
  set_psk := λ w key psk,
    if be_busy w then (Err (lit "busy"), w)
    else (Ok (), mkBench (match psk with Some k => <[key := k]> (be_keys w) | None => delete key (be_keys w) end) (be_file w) false);
  latest_handshakes := λ _, Ok ∅;
  set_blocked := λ w _, (Ok true, w);
  enforces_blocks := true;
  write_state := λ w f, (Ok (), mkBench (be_keys w) (Some f) (be_busy w));
  read_state := be_file
}.
#[local] Existing Instance toy.

Definition demo_peer_key : str := text_of (x_public demo_wi).
Definition demo_peer : Peer :=
  mkPeer (lit "p") (lit "laptop") demo_peer_key None [lit "100.64.0.2/32"] [] [] None None (Some (mkPeerPq Prefer true true)).
Definition demo_bench : Bench :=
  mkBench ∅ (Some {[ demo_peer_key := mkPersistedPeer 5 5 900 (Some (text_of (num32 77))) ]}) false.
Definition demo_new : Runtime := with_options (Some demo_wr) true true PORT 1000 demo_bench.
Definition demo_managed : list PeerReport * Runtime * Bench := manage demo_new [demo_peer] None 1000 demo_bench.
Definition demo_track : Track := default default_track (sh_tracks (rt_shared demo_managed.1.2) !! demo_peer_key).
Definition demo_context : ResponderContext :=
  default (mkResponderContext [] [] [] 0) (result_ok (accept_context (rt_shared demo_managed.1.2) (V4 (from_be [100; 64; 0; 2])))).

Lemma later_exchange_is_newer_witness :
  ∃ e, respond (c_own demo_context) (c_peer demo_context) (c_static_secret demo_context) (c_last_epoch demo_context)
         (Init VERSION 5 [] [] [] []) [] [] = Err e.
Proof.
  destruct demo_managed as [[out r1] w1] eqn:Hm.
  assert (r1 = demo_managed.1.2) as Hr1 by (by rewrite Hm).
  refine (proj1 (later_exchange_is_newer (Some demo_wr) true true PORT 1000 demo_bench r1 w1 demo_peer_key demo_track
    (mkInstalled 5 900 1000 (num32 77)) r1 w1 _ _ _ _ _) (V4 (from_be [100; 64; 0; 2])) demo_context
    _ _ VERSION 5 [] [] [] [] [] [] _ _ _ _).
  - intros peers [= <-]. apply map_Forall_singleton. cbn. mlia.
  - apply rtc_once. eapply step_manage. exact Hm.
  - rewrite Hr1. by vm_compute.
  - by vm_compute.
  - apply rtc_refl.
  - rewrite Hr1. by vm_compute.
  - rewrite Hr1. vm_compute. reflexivity.
  - by vm_compute.
  - cbn. lia.
Defined.

(** The listener takes the newest epoch when a connection begins and the installation
    does not look at it again: of two sessions begun before either ends, both are
    answered and confirmed with epoch 1 and the second replaces the key the first
    installed, while a session begun in between refuses that epoch. *)
Definition fresh_agent : Shared := rt_shared (manage (with_options (Some demo_wr) true true PORT 1000 (mkBench ∅ None false)) [demo_peer] None 1000
  (mkBench ∅ None false)).1.2.
Definition context_of (s : Shared) : ResponderContext :=
  default (mkResponderContext [] [] [] 0) (result_ok (accept_context s (V4 (from_be [100; 64; 0; 2])))).
Definition answered (s : Shared) (secret seed : bytes) : result PqError (Responder * Message) :=
  let? (_, init) := honest_initiator demo_wi (x_public demo_wr) 1 secret seed in
  let c := context_of s in respond (c_own c) (c_peer c) (c_static_secret c) (c_last_epoch c) init (num32 17) (num32 19).
Definition confirmed (s : Shared) (secret seed : bytes) : result PqError bytes :=
  let? (st, _) := honest_initiator demo_wi (x_public demo_wr) 1 secret seed in
  let? (rs, resp) := answered s secret seed in
  let? (_, confirm) := initiator_finish st resp in
  responder_finish rs confirm.

Lemma session_in_flight_installs_again :
  let begun := fresh_agent in
  ∃ k1 k2, confirmed begun (num32 11) (num32 13) = Ok k1 ∧ confirmed begun (num32 23) (num32 29) = Ok k2 ∧ k1 ≠ k2 ∧
    let s1 := (install_state begun demo_peer_key 1 k1 1001 1001 (mkBench ∅ None false)).1 in
    let s2 := (install_state s1 demo_peer_key 1 k2 1002 1002 (mkBench ∅ None false)).1 in
    result_ok (answered s1 (num32 23) (num32 29)) = None ∧
    t_installed <$> sh_tracks s1 !! demo_peer_key = Some (Some (mkInstalled 1 1001 1001 k1)) ∧
    t_installed <$> sh_tracks s2 !! demo_peer_key = Some (Some (mkInstalled 1 1002 1002 k2)).
Proof.
  intros begun. eexists _, _. split; [vm_compute; reflexivity|]. split; [vm_compute; reflexivity|].
  split; [vm_compute; discriminate|]. split_and!; vm_compute; reflexivity.
Qed.

(** A clearing that fails is forgotten: the agent holds no key any more, the device
    keeps it, and no later turn of the driver tries again. *)
Definition stuck_shared : Shared :=
  mkShared [] None true [] {[ lit "a" := mkTrack 1 (Some (mkInstalled 1 0 0 [7])) 0 None ]} PORT true None.
Definition stuck_bench (busy : bool) : Bench := mkBench {[ lit "a" := [7] ]} None busy.

Lemma failed_clear_is_forgotten :
  let '(_, s1, w1) := tick stuck_shared 1000 (stuck_bench true) in
  let '(_, s2, w2) := tick s1 2000 (mkBench (be_keys w1) (be_file w1) false) in
  t_installed <$> sh_tracks s2 !! lit "a" = Some None ∧ be_keys w2 !! lit "a" = Some [7] ∧
  be_keys (tick stuck_shared 1000 (stuck_bench false)).2 !! lit "a" = None.
Proof. by vm_compute. Qed.

End PqState.
