(* ===== verification/PqPolicy.v ===== *)
(** * Post-quantum policy of an organisation

    [blaktail-coord/src/post_quantum.rs]: which pairs should or must use hybrid keys,
    its delivery in peer maps, the reports of agents and the change of the policy; and
    the proofs that both agents of a pair are told the same, that what an agent
    reports is accepted, and that a change is applied to the revision it was made for. *)

From S2P Require Import Prelude Text Net Policy AclFilter CoordAcl AppConnectors Ipam CoordRules ForwardFilter Ingress HeaderProps Pq PqExchange PqRuntime.

Module PostQuantum.
Import PqRuntime.

Definition CAPABILITY : str := lit "pq-psk".
Definition ALGORITHM : str := lit "ml-kem-768+x25519".
Definition STATES : list str :=
  [lit "classical"; lit "negotiating"; lit "established"; lit "degraded"; lit "required_not_established"].
Definition MAX_RULES : Z := 32.
Definition MAX_REPORTED_PEERS : Z := 2000.
Definition MAX_REASON_CHARS : Z := 64.

Inductive ApiError :=
| Unauthorized | Suspended | CredentialExpired | ForbiddenRole_ | CorruptData | NotFound | Database
| BadRequest (why : str) | Conflict (why : str).

(** ** Modes and rules *)

(** [#[derive(Ord)]] *)
Definition rank (m : Mode) : Z := match m with Off => 0 | Prefer => 1 | Require_ => 2 end.
Definition mode_max (a b : Mode) : Mode := if rank a <=? rank b then b else a.

Definition as_str (m : Mode) : str := match m with Off => lit "off" | Prefer => lit "prefer" | Require_ => lit "require" end.

(** [serde_json::from_value(Value::String(mode))] *)
Definition mode_of (s : str) : option Mode :=
  if seq_b s "off" then Some Off else if seq_b s "prefer" then Some Prefer else if seq_b s "require" then Some Require_ else None.

Record PairRule := mkPairRule { pr_tags : DeviceTag * DeviceTag; pr_mode : Mode }.

Record Policy := mkPolicy {
  po_mode : Mode;
  po_block_unestablished : bool;
  po_rules : list PairRule;
  po_revision : Z;
  po_updated_by : str;
  po_updated_at : Z
}.
Definition default_policy : Policy := mkPolicy Off true [] 0 [] 0.

Definition has_tag (tags : list DeviceTag) (t : DeviceTag) : bool := bool_decide (t ∈ tags).

Definition rule_matches (a b : list DeviceTag) (rule : PairRule) : bool :=
  let '(x, y) := pr_tags rule in (has_tag a x && has_tag b y) || (has_tag a y && has_tag b x).

(** [iter().max()] *)
Definition max_mode (modes : list Mode) : option Mode :=
  match modes with [] => None | m :: ms => Some (foldl mode_max m ms) end.

Definition mode_for (self : Policy) (a b : list DeviceTag) : Mode :=
  default (po_mode self) (max_mode (map pr_mode (List.filter (rule_matches a b) (po_rules self)))).

Definition is_inert (self : Policy) : bool :=
  bool_decide (po_mode self = Off) && forallb (λ rule, bool_decide (pr_mode rule = Off)) (po_rules self).

(** ** Tables *)

Record PolicyRow := mkPolicyRow {
  row_mode : str;
  row_block : Z;
  row_rules_json : str;
  row_revision : Z;
  row_updated_by : str;
  row_updated_at : Z
}.

Record PqNode := mkPqNode {
  pn_id : str;
  pn_org : str;
  pn_token_hash : str;
  pn_credential_expires_at : Z;
  pn_suspended : bool;
  pn_revoked : bool;
  pn_deleted : bool;
  pn_capabilities : list str
}.

Record StateRow := mkStateRow {
  st_org : str;
  st_node : str;
  st_peer : str;
  st_state : str;
  st_mode : str;
  st_algorithm : str;
  st_epoch : Z;
  st_last_rotation_at : option Z;
  st_blocked : Z;
  st_reason : str;
  st_reported_at : Z
}.

Record PqDb := mkPqDb {
  db_nodes : list PqNode;
  db_policies : gmap str PolicyRow;
  db_states : list StateRow;
  db_control : gmap str Z
}.

(** The peer of a map, as far as this module reads it. *)
Record MapPeer := mkMapPeer { mp_id : str; mp_tags : list DeviceTag; mp_pq : option PeerPq }.

Section coordinator.
Context (rules_to_json : list PairRule → str) (rules_from_json : str → option (list PairRule)).

Definition load_policy (db : PqDb) (org_id : str) : result ApiError Policy :=
  match db_policies db !! org_id with
  | None => Ok default_policy
  | Some row =>
      let? mode := ok_or (mode_of (row_mode row)) CorruptData in
      let? rules := ok_or (rules_from_json (row_rules_json row)) CorruptData in
      Ok (mkPolicy mode (negb (row_block row =? 0)) rules (row_revision row) (row_updated_by row) (row_updated_at row))
  end.

Definition capable_nodes (db : PqDb) (org_id : str) : list str :=
  map pn_id (List.filter (λ n, bool_decide (pn_org n = org_id) && negb (pn_revoked n) && negb (pn_deleted n)
                               && bool_decide (CAPABILITY ∈ pn_capabilities n)) (db_nodes db)).

Definition annotate (policy : Policy) (capable : list str) (source_tags : list DeviceTag) (peer : MapPeer) : MapPeer :=
  let mode := mode_for policy source_tags (mp_tags peer) in
  mkMapPeer (mp_id peer) (mp_tags peer)
    (if bool_decide (mode = Off) then None
     else Some (mkPeerPq mode (bool_decide (mp_id peer ∈ capable)) (po_block_unestablished policy))).

Definition annotate_peers (db : PqDb) (org_id : str) (source_tags : list DeviceTag) (peers : list MapPeer) :
    result ApiError (list MapPeer) :=
  let? policy := load_policy db org_id in
  if is_inert policy then Ok peers
  else Ok (map (annotate policy (capable_nodes db org_id) source_tags) peers).

(** ** Agent reports *)

Record PeerStateReport := mkPeerStateReport {
  ps_peer_id : str;
  ps_state : str;
  ps_mode : Mode;
  ps_algorithm : str;
  ps_epoch : Z;
  ps_last_rotation_at : option Z;
  ps_blocked : bool;
  ps_reason : str
}.

Definition validate (self : PeerStateReport) : result ApiError () :=
  let? _ := reject_if (negb (bool_decide (ps_state self ∈ STATES))) (BadRequest (lit "unknown post-quantum state")) in
  let? _ := reject_if (negb (bool_decide (ps_algorithm self = [])) && negb (bool_decide (ps_algorithm self = ALGORITHM)))
              (BadRequest (lit "unknown post-quantum algorithm")) in
  let? _ := reject_if ((MAX_REASON_CHARS <? len (chars (ps_reason self)))
                       || negb (forallb (λ c, is_ascii_lowercase c || (c =? 95)) (ps_reason self)))
              (BadRequest (lit "reason must be a short lowercase code")) in
  reject_if (2 ^ 63 - 1 <? ps_epoch self) (BadRequest (lit "epoch is out of range")).

(** The rows of a report: peers of the organisation, each once, never the reporter. *)
Fixpoint report_rows (org node : str) (org_nodes : list str) (at_ : Z) (seen : list str) (peers : list PeerStateReport) : list StateRow :=
  match peers with
  | [] => []
  | peer :: peers =>
      if bool_decide (ps_peer_id peer = node) || negb (bool_decide (ps_peer_id peer ∈ org_nodes))
         || bool_decide (ps_peer_id peer ∈ seen)
      then report_rows org node org_nodes at_ seen peers
      else mkStateRow org node (ps_peer_id peer) (ps_state peer) (as_str (ps_mode peer)) (ps_algorithm peer) (ps_epoch peer)
             (ps_last_rotation_at peer) (if ps_blocked peer then 1 else 0) (ps_reason peer) at_
           :: report_rows org node org_nodes at_ (ps_peer_id peer :: seen) peers
  end.

(** [token] is what [bearer] makes of the headers, [now] and [reported_at] its two
    readings of the clock. *)
Definition report_state (db : PqDb) (node_id : str) (token : result ApiError str) (peers : list PeerStateReport) (now reported_at : Z) :
    result ApiError PqDb :=
  let? _ := reject_if (MAX_REPORTED_PEERS <? len peers) (BadRequest (lit "too many peers in one report")) in
  let? _ := try_each validate peers in
  let? token := token in
  let? node := ok_or (List.find (λ n, bool_decide (pn_id n = node_id) && bool_decide (pn_token_hash n = token)
                                      && negb (pn_revoked n) && negb (pn_deleted n)) (db_nodes db)) Unauthorized in
  let? _ := reject_if (pn_suspended node) Suspended in
  let? _ := reject_if (pn_credential_expires_at node <=? now) CredentialExpired in
  let org := pn_org node in
  let org_nodes := map pn_id (List.filter (λ n, bool_decide (pn_org n = org)) (db_nodes db)) in
  Ok (mkPqDb (db_nodes db) (db_policies db)
        (List.filter (λ r, negb (bool_decide (st_node r = node_id))) (db_states db)
         ++ report_rows org node_id org_nodes reported_at [] peers)
        (db_control db)).

(** ** Changing the policy *)

Record PolicyUpdate := mkPolicyUpdate {
  pu_mode : Mode;
  pu_block_unestablished : bool;
  pu_rules : list PairRule;
  pu_expected_revision : option Z
}.

Definition tag_rank (t : DeviceTag) : Z := match t with Office => 0 | Ranger => 1 | Store => 2 end.
Definition sort_tags (rule : PairRule) : PairRule :=
  let '(x, y) := pr_tags rule in mkPairRule (if tag_rank y <? tag_rank x then (y, x) else (x, y)) (pr_mode rule).

(** The transaction reads [before] and writes to [db]; another one may have committed
    between the two. *)
Definition update_policy (before db : PqDb) (org_id : str) (role : Role) (email : str) (input : PolicyUpdate) (now : Z) :
    result ApiError (Policy * PqDb) :=
  let? _ := match require role ManageSecurity with Ok _ => Ok () | Err _ => Err ForbiddenRole_ end in
  let? _ := reject_if (MAX_RULES <? len (pu_rules input)) (BadRequest (lit "at most 32 tag-pair rules")) in
  let rules := map sort_tags (pu_rules input) in
  let? _ := reject_if (negb (bool_decide (NoDup (map pr_tags rules)))) (BadRequest (lit "each tag pair may have only one rule")) in
  let previous := db_policies before !! org_id in
  let revision := from_option row_revision 0 previous in
  let? _ := reject_if (match pu_expected_revision input with Some expected => negb (expected =? revision) | None => false end)
              (Conflict (lit "post-quantum policy changed since it was loaded; reload and try again")) in
  let next := revision + 1 in
  let row := mkPolicyRow (as_str (pu_mode input)) (if pu_block_unestablished input then 1 else 0) (rules_to_json rules) next email now in
  let? policies :=
    match db_policies db !! org_id with
    | Some live =>
        if row_revision live =? revision then Ok (<[org_id := row]> (db_policies db))
        else if previous then Err (Conflict (lit "post-quantum policy changed concurrently; reload and try again"))
        else Err Database
    | None =>
        if previous then Err (Conflict (lit "post-quantum policy changed concurrently; reload and try again"))
        else Ok (<[org_id := row]> (db_policies db))
    end in
  let? control := ok_or (db_control db !! org_id) NotFound in
  Ok (mkPolicy (pu_mode input) (pu_block_unestablished input) rules next email now,
      mkPqDb (db_nodes db) policies (db_states db) (<[org_id := control + 1]> (db_control db))).

End coordinator.

End PostQuantum.

Module PostQuantumProps.
Import PqRuntime PostQuantum.

(** ** The mode of a pair *)

Lemma rule_matches_sym a b rule : rule_matches a b rule = rule_matches b a rule.
Proof. unfold rule_matches. destruct (pr_tags rule) as [x y]. rewrite orb_comm (andb_comm (has_tag a y)) (andb_comm (has_tag a x)). done. Qed.

Lemma mode_for_sym policy a b : mode_for policy a b = mode_for policy b a.
Proof.
  unfold mode_for. do 3 f_equal. induction (po_rules policy) as [|r rules IH]; simpl; [done|]. rewrite rule_matches_sym IH. done.
Qed.

Lemma foldl_max m ms : rank m ≤ rank (foldl mode_max m ms) ∧ Forall (λ x, rank x ≤ rank (foldl mode_max m ms)) ms ∧ foldl mode_max m ms ∈ m :: ms.
Proof.
  revert m. induction ms as [|x ms IH]; intros m; cbn [foldl]; [split_and!; [done|done|by left]|].
  destruct (IH (mode_max m x)) as (Hm & Hall & Hin). unfold mode_max in *. destruct (Z.leb_spec (rank m) (rank x)); split_and!.
  - lia.
  - by constructor.
  - apply elem_of_cons in Hin as [-> |Hin]; [right; left|by right; right].
  - done.
  - constructor; [lia|done].
  - apply elem_of_cons in Hin as [-> |Hin]; [left|by right; right].
Qed.

(** The strongest of the matching rules, the organisation's mode where none matches. *)
Definition strongest (policy : Policy) (a b : list DeviceTag) (m : Mode) : Prop :=
  (∀ rule, rule ∈ po_rules policy → rule_matches a b rule = true → rank (pr_mode rule) ≤ rank m) ∧
  ((∃ rule, rule ∈ po_rules policy ∧ rule_matches a b rule = true ∧ pr_mode rule = m) ∨
   (m = po_mode policy ∧ ∀ rule, rule ∈ po_rules policy → rule_matches a b rule = false)).

Lemma mode_for_strongest policy a b : strongest policy a b (mode_for policy a b).
Proof.
  unfold strongest, mode_for. destruct (List.filter (rule_matches a b) (po_rules policy)) as [|r rs] eqn:Hf; cbn [map max_mode default from_option id].
  - assert (∀ rule, rule ∈ po_rules policy → rule_matches a b rule = false) as Hnone.
    { intros rule Hr. destruct (rule_matches a b rule) eqn:Hm; [|done]. assert (rule ∈ List.filter (rule_matches a b) (po_rules policy)) as Hin by (by apply filter_elem).
      rewrite Hf in Hin. by apply elem_of_nil in Hin. }
    split; [|by right]. intros rule Hr Hm. by rewrite Hnone in Hm.
  - destruct (foldl_max (pr_mode r) (map pr_mode rs)) as (Hm & Hall & Hin). split.
    + intros rule Hr Hmatch. assert (rule ∈ r :: rs) as Hrs by (rewrite <-Hf; by apply filter_elem).
      apply elem_of_cons in Hrs as [-> |Hrs]; [done|]. apply (proj1 (Forall_forall _ _) Hall). by apply list_elem_of_fmap_2.
    + left. change (pr_mode r :: map pr_mode rs) with (map pr_mode (r :: rs)) in Hin.
      apply list_elem_of_fmap in Hin as (rule & Heq & Hrule). rewrite <-Hf in Hrule. apply filter_elem in Hrule as [Hr Hmatch]. by exists rule.
Qed.

Lemma inert_off policy a b : is_inert policy = true → mode_for policy a b = Off.
Proof.
  unfold is_inert. intros [Hm Hr]%andb_true_iff. apply bool_decide_eq_true in Hm. destruct (mode_for_strongest policy a b) as [_ [(rule & Hin & _ & <-)|[-> _]]]; [|done].
  rewrite forallb_forall in Hr. apply list_elem_of_In in Hin. by apply Hr, bool_decide_eq_true in Hin.
Qed.

Section coordinator.
Context (rules_to_json : list PairRule → str) (rules_from_json : str → option (list PairRule)).

(** What a peer map says about a peer. *)
Lemma annotated db org policy ta peers out id tb q :
  load_policy rules_from_json db org = Ok policy → annotate_peers rules_from_json db org ta peers = Ok out →
  Forall (λ p, mp_pq p = None) peers → mkMapPeer id tb q ∈ out →
  default default_pq q = let m := mode_for policy ta tb in
    if bool_decide (m = Off) then default_pq else mkPeerPq m (bool_decide (id ∈ capable_nodes db org)) (po_block_unestablished policy).
Proof using.
  unfold annotate_peers. intros -> Ha Hnone Hin. cbn [result_bind] in Ha. cbv zeta. destruct (is_inert policy) eqn:Hi.
  - injection Ha as <-. rewrite inert_off // bool_decide_true //. apply (proj1 (Forall_forall _ _) Hnone) in Hin. cbn in Hin. by rewrite Hin.
  - injection Ha as <-. apply list_elem_of_fmap in Hin as (p & [= -> -> ->] & _). by case_bool_decide.
Qed.

(** [C18] Both agents of a pair are told the same: the mode each peer map gives for the
    other device is one and the same, the strongest of the matching tag-pair rules
    or else the organisation's mode; under a mode other than off they are told the
    same about blocking; and, agents being able exactly as they advertise, one of them
    wants an exchange exactly when the other does. *)
Theorem pair_is_told_the_same db org policy ta tb peers_a peers_b out_a out_b ida idb qa qb :
  load_policy rules_from_json db org = Ok policy →
  Forall (λ p, mp_pq p = None) peers_a → Forall (λ p, mp_pq p = None) peers_b →
  annotate_peers rules_from_json db org ta peers_a = Ok out_a → annotate_peers rules_from_json db org tb peers_b = Ok out_b →
  mkMapPeer idb tb qb ∈ out_a → mkMapPeer ida ta qa ∈ out_b →
  let at_a := default default_pq qb in
  let at_b := default default_pq qa in
  strongest policy ta tb (ppq_mode at_a) ∧ ppq_mode at_b = ppq_mode at_a ∧ ppq_block at_b = ppq_block at_a ∧
  ∀ plan_a plan_b, pl_pq plan_a = at_a → pl_pq plan_b = at_b →
    wants_exchange plan_a (bool_decide (ida ∈ capable_nodes db org)) = wants_exchange plan_b (bool_decide (idb ∈ capable_nodes db org)).
Proof using.
  intros Hp Hna Hnb Ha Hb Hina Hinb. cbv zeta. rewrite (annotated _ _ _ _ _ _ _ _ _ Hp Ha Hna Hina) (annotated _ _ _ _ _ _ _ _ _ Hp Hb Hnb Hinb).
  cbv zeta. rewrite (mode_for_sym policy tb ta). pose proof (mode_for_strongest policy ta tb) as Hs.
  case_bool_decide as Hoff; cbn [ppq_mode ppq_block default_pq].
  - rewrite Hoff in Hs. split_and!; [done|done|done|]. unfold wants_exchange. intros plan_a plan_b -> ->. done.
  - split_and!; [done|done|done|]. unfold wants_exchange. intros plan_a plan_b -> ->. cbn [ppq_mode ppq_capable].
    rewrite bool_decide_false //. cbn [negb andb]. apply andb_comm.
Qed.

(** ** Reports *)

(** The body an agent sends for a report. *)
Definition wire_report (r : PeerReport) : PeerStateReport :=
  mkPeerStateReport (rp_peer_id r) (rp_state r) (rp_mode r) (rp_algorithm r) (rp_epoch r) (rp_last_rotation_at r) (rp_blocked r) (rp_reason r).

Definition reasons : list str :=
  [[]; lit "policy_off"; lit "local_not_capable"; lit "peer_not_capable"; lit "rotation_failed"; lit "not_yet_established"; lit "block_not_supported_here"].

Lemma state_reason_known plan installed capable now :
  (state_reason plan installed capable now).1 ∈ STATES ∧ (state_reason plan installed capable now).2 ∈ reasons.
Proof using.
  unfold state_reason. destruct (ppq_mode (pl_pq plan)); repeat case_match; split; apply (bool_decide_eq_true_1 _); by vm_compute.
Qed.

(** What an agent reports passes the coordinator's validation. *)
Lemma reports_are_accepted plan track capable enforced now :
  (∀ t i, track = Some t → t_installed t = Some i → in_epoch i ≤ 2 ^ 63 - 1) →
  validate (wire_report (evaluate plan track capable enforced now)) = Ok ().
Proof using.
  intros He. destruct (state_reason_known plan (track ≫= t_installed) capable now) as [Hs Hr]. unfold evaluate.
  destruct (state_reason plan _ capable now) as [state reason]. cbn [fst snd] in Hs, Hr. cbv zeta.
  match goal with |- context [mkPeerReport _ _ _ _ _ _ _ ?y] => assert (y ∈ reasons) as Hwhy; [|set (why := y) in *] end.
  { case_match; [|done]. apply (bool_decide_eq_true_1 _). by vm_compute. }
  match goal with |- context [in_at <$> ?x] => assert (∀ i, x = Some i → in_epoch i ≤ 2 ^ 63 - 1) as Hshown; [|set (shown := x) in *] end.
  { intros i. case_match; [|done]. destruct track as [t|]; cbn [mbind option_bind]; [|done]. by apply He. }
  unfold validate, wire_report. cbn [ps_state ps_algorithm ps_reason ps_epoch rp_state rp_algorithm rp_reason rp_epoch].
  rewrite (bool_decide_true _ Hs). cbn [negb reject_if result_bind].
  assert (negb (bool_decide ((if shown then Pq.ALGORITHM else []) = [])) && negb (bool_decide ((if shown then Pq.ALGORITHM else []) = ALGORITHM)) = false) as ->
    by (by destruct shown). cbn [reject_if result_bind].
  assert ((MAX_REASON_CHARS <? len (chars why)) || negb (forallb (λ c, is_ascii_lowercase c || (c =? 95)) why) = false) as ->.
  { clear -Hwhy. unfold reasons in Hwhy. clearbody why. repeat (apply elem_of_cons in Hwhy as [-> |Hwhy]; [by vm_compute|]). by apply elem_of_nil in Hwhy. }
  cbn [reject_if result_bind]. apply reject_if_ok, Z.ltb_ge. destruct shown as [i|]; cbn [from_option]; [by apply Hshown|by vm_compute].
Qed.

(** ** Changes *)

Lemma sort_tags_matches a b rule : rule_matches a b (sort_tags rule) = rule_matches a b rule ∧ pr_mode (sort_tags rule) = pr_mode rule.
Proof using.
  destruct rule as [[x y] m]. unfold sort_tags, rule_matches. cbn [pr_tags pr_mode]. destruct (tag_rank y <? tag_rank x); cbn [pr_tags pr_mode]; [|done].
  split; [apply orb_comm|done].
Qed.

Lemma sorted_mode_for m rules a b bl rv by_ at_ :
  mode_for (mkPolicy m bl (map sort_tags rules) rv by_ at_) a b = mode_for (mkPolicy m true rules 0 [] 0) a b.
Proof using.
  unfold mode_for. cbn [po_rules po_mode]. do 2 f_equal. induction rules as [|r rules IH]; cbn [map List.filter]; [done|].
  destruct (sort_tags_matches a b r) as [-> Hm]. destruct (rule_matches a b r); cbn [map]; [by rewrite Hm IH|done].
Qed.

(** Whatever was committed between reading and writing, a change of the policy
    that succeeds was made by someone allowed to, replaces exactly the revision it was
    based on (and the one the editor saw), raises it by one, keeps at most one rule
    per tag pair, touches no other organisation, and is what is loaded afterwards. *)
Theorem policy_change_is_exact before db org role email input now policy db' :
  (∀ rules, rules_from_json (rules_to_json rules) = Some rules) →
  update_policy rules_to_json before db org role email input now = Ok (policy, db') →
  can role ManageSecurity = true ∧
  from_option row_revision 0 (db_policies db !! org) = po_revision policy - 1 ∧
  from_option row_revision 0 (db_policies before !! org) = po_revision policy - 1 ∧
  (∀ expected, pu_expected_revision input = Some expected → expected = po_revision policy - 1) ∧
  po_mode policy = pu_mode input ∧ po_block_unestablished policy = pu_block_unestablished input ∧
  NoDup (map pr_tags (po_rules policy)) ∧ len (po_rules policy) ≤ MAX_RULES ∧
  (∀ a b, mode_for policy a b = mode_for (mkPolicy (pu_mode input) true (pu_rules input) 0 [] 0) a b) ∧
  load_policy rules_from_json db' org = Ok policy ∧
  (∀ other, other ≠ org → load_policy rules_from_json db' other = load_policy rules_from_json db other).
Proof using.
  intros Hjson. unfold update_policy, require. destruct (can role ManageSecurity) eqn:Hcan; cbn [result_bind]; [|done].
  destruct (MAX_RULES <? len (pu_rules input)) eqn:Hlen; cbn [reject_if result_bind]; [done|].
  destruct (bool_decide (NoDup _)) eqn:Hnd; cbn [negb reject_if result_bind]; [|done].
  set (revision := from_option row_revision 0 (db_policies before !! org)).
  destruct (match pu_expected_revision input with Some _ => _ | None => _ end) eqn:Hexp; cbn [reject_if result_bind]; [done|].
  intros (policies & Hpol & Hrest)%bind_ok. apply bind_ok in Hrest as (control & _ & [= <- <-]).
  cbn [po_revision po_mode po_block_unestablished po_rules]. rewrite Z.add_simpl_r.
  assert (from_option row_revision 0 (db_policies db !! org) = revision ∧
    policies = <[org := mkPolicyRow (as_str (pu_mode input)) (if pu_block_unestablished input then 1 else 0)
      (rules_to_json (map sort_tags (pu_rules input))) (revision + 1) email now]> (db_policies db)) as [Hlive ->].
  { destruct (db_policies db !! org) as [live|].
    - destruct (Z.eqb_spec (row_revision live) revision) as [Heq|]; [injection Hpol as <-; by split|]. by destruct (db_policies before !! org).
    - unfold revision in *. destruct (db_policies before !! org); [done|]. injection Hpol as <-. by split. }
  split_and!; try done.
  - intros expected He. rewrite He in Hexp. apply negb_false_iff, Z.eqb_eq in Hexp. done.
  - by apply bool_decide_eq_true in Hnd.
  - apply Z.ltb_ge in Hlen. unfold len in *. by rewrite length_map.
  - intros a b. apply sorted_mode_for.
  - unfold load_policy. cbn [db_policies]. rewrite lookup_insert_eq. cbn [row_mode row_rules_json row_block row_revision row_updated_by row_updated_at].
    rewrite Hjson. assert (mode_of (as_str (pu_mode input)) = Some (pu_mode input)) as -> by (by destruct (pu_mode input); vm_compute).
    by destruct (pu_block_unestablished input).
  - intros other Hne. unfold load_policy. cbn [db_policies]. by rewrite lookup_insert_ne.
Qed.

End coordinator.

(** ** Examples *)

(** A text for rules, to evaluate policies on. *)
Definition tag_of (z : Z) : DeviceTag := if z =? 0 then Office else if z =? 1 then Ranger else Store.
Definition mode_at (z : Z) : Mode := if z =? 0 then Off else if z =? 1 then Prefer else Require_.
Fixpoint demo_rules_text (rules : list PairRule) : str :=
  match rules with
  | [] => []
  | r :: rules => tag_rank (pr_tags r).1 :: tag_rank (pr_tags r).2 :: rank (pr_mode r) :: demo_rules_text rules
  end.
Fixpoint demo_rules (text : str) : option (list PairRule) :=
  match text with
  | [] => Some []
  | x :: y :: m :: text => (mkPairRule (tag_of x, tag_of y) (mode_at m) ::.) <$> demo_rules text
  | _ => None
  end.

Lemma demo_rules_roundtrip rules : demo_rules (demo_rules_text rules) = Some rules.
Proof.
  induction rules as [|[[x y] m] rules IH]; [done|]. cbn [demo_rules_text demo_rules pr_tags pr_mode fst snd]. rewrite IH.
  by destruct x, y, m.
Qed.

Definition demo_org : str := lit "o".
Definition demo_node (id : str) (caps : list str) : PqNode := mkPqNode id demo_org [] 0 false false false caps.
Definition demo_db : PqDb :=
  mkPqDb [demo_node (lit "a") [lit "pq-psk"]; demo_node (lit "b") [lit "pq-psk"]]
    {[ demo_org := mkPolicyRow (lit "prefer") 1 (demo_rules_text [mkPairRule (Office, Store) Require_]) 3 (lit "x") 0 ]} []
    {[ demo_org := 7 ]}.
Definition demo_policy : Policy := mkPolicy Prefer true [mkPairRule (Office, Store) Require_] 3 (lit "x") 0.
Definition demo_entry : option PeerPq := Some (mkPeerPq Require_ true true).

Lemma pair_is_told_the_same_witness :
  strongest demo_policy [Store] [Office] Require_ ∧
  wants_exchange (mkPeerPlan [] [] [] (mkPeerPq Require_ true true) [] []) (bool_decide (lit "a" ∈ capable_nodes demo_db demo_org)) =
  wants_exchange (mkPeerPlan [] [] [] (mkPeerPq Require_ true true) [] []) (bool_decide (lit "b" ∈ capable_nodes demo_db demo_org)).
Proof.
  destruct (pair_is_told_the_same demo_rules demo_db demo_org demo_policy [Store] [Office]
    [mkMapPeer (lit "b") [Office] None] [mkMapPeer (lit "a") [Store] None]
    [mkMapPeer (lit "b") [Office] demo_entry] [mkMapPeer (lit "a") [Store] demo_entry] (lit "a") (lit "b") demo_entry demo_entry)
    as (Hs & _ & _ & Hw); [by vm_compute|by repeat constructor..|by vm_compute|by vm_compute|by left|by left|].
  split; [exact Hs|]. by apply Hw.
Defined.

Definition demo_update : PolicyUpdate := mkPolicyUpdate Require_ false [mkPairRule (Store, Ranger) Off] (Some 3).
Definition demo_changed : Policy * PqDb :=
  default (demo_policy, demo_db) (result_ok (update_policy demo_rules_text demo_db demo_db demo_org Owner (lit "y") demo_update 9)).

Lemma policy_change_is_exact_witness :
  po_revision demo_changed.1 = 4 ∧ load_policy demo_rules demo_changed.2 demo_org = Ok demo_changed.1.
Proof.
  destruct (policy_change_is_exact demo_rules_text demo_rules demo_db demo_db demo_org Owner (lit "y") demo_update 9 demo_changed.1 demo_changed.2
    demo_rules_roundtrip) as (_ & _ & Hrev & _ & _ & _ & _ & _ & _ & Hload & _); [by vm_compute|].
  split; [by vm_compute|exact Hload].
Defined.

End PostQuantumProps.
