(* ===== verification/Config.v ===== *)
(** * Configuration of the services

    [blaktail-config/src/lib.rs]: the configuration of coordinator, relay, agent and
    console, its overrides from the environment with the source of every value, secret
    references, validation, the redacted dump, and the plan of a reload.  The TOML and
    URL parsers, the tracing filter's grammar, SHA-256 and the file system are the
    class [ConfigHost].  Paths are those of Unix. *)

From S2P Require Import Prelude Text Net Policy Packet AclFilter CoordAcl Dns Json.

Module Config.

Definition SCHEMA_VERSION : Z := 1.

(** ** Services *)

Inductive Service := Coordinator | Relay | Agent | Console | All.
#[export] Instance Service_eq_dec : EqDecision Service.
Proof. solve_decision. Defined.

Definition service_text (s : Service) : str :=
  match s with
  | Coordinator => lit "coordinator" | Relay => lit "relay" | Agent => lit "agent" | Console => lit "console" | All => lit "all"
  end.

Definition parse_service (value : str) : option Service :=
  if seq_b value "coordinator" || seq_b value "coord" then Some Coordinator
  else if seq_b value "relay" then Some Relay
  else if seq_b value "agent" || seq_b value "blaktaild" then Some Agent
  else if seq_b value "console" then Some Console
  else if seq_b value "all" then Some All
  else None.

(** [matches!(service, section | Service::All)] *)
Definition selects (service section : Service) : bool := bool_decide (service = section) || bool_decide (service = All).

(** ** Secrets *)

Inductive SecretRef :=
| SFile (path : str) (fingerprint : option bytes)
| SEnvironment (name : str) (fingerprint : option bytes).
#[export] Instance SecretRef_eq_dec : EqDecision SecretRef.
Proof. solve_decision. Defined.

(** [Debug] and [Serialize] *)
Definition secret_text (r : SecretRef) : str :=
  match r with SFile _ _ => lit "<redacted:file>" | SEnvironment _ _ => lit "<redacted:environment>" end.

(** [Path::is_absolute] *)
Definition is_absolute (path : str) : bool := starts_with (lit "/") path.

(** Two [PathBuf]s are equal when their components are: the text of the components,
    without repeated separators, one at the end, and [.] other than in front. *)
Definition canonical_path (path : str) : str :=
  let pieces := Text.split 47 path in
  (if is_absolute path then lit "/" else if bool_decide (head pieces = Some (lit ".")) then lit "./" else [])
  ++ join (lit "/") (List.filter (λ c, negb (bool_decide (c = [])) && negb (seq_b c ".")) pieces).

Definition canonical_ref (r : SecretRef) : SecretRef :=
  match r with SFile path fp => SFile (canonical_path path) fp | SEnvironment name fp => SEnvironment name fp end.

(** The reading of a reference in a file, [Err] with the message shown. *)
Definition parse_secret (value : str) : result str SecretRef :=
  match strip_prefix (lit "file:") value with
  | None => Err (lit "secret references in configuration files must use file:/path")
  | Some path =>
      if bool_decide (trim path = []) then Err (lit "secret file path must not be empty")
      else if negb (is_absolute path) then Err (lit "secret file path must be absolute")
      else Ok (SFile path None)
  end.

(** ** Sections *)

Record DiagnosticsConfig := mkDiagnosticsConfig { log_filter : str; support_log_lines : Z }.
Definition default_diagnostics : DiagnosticsConfig := mkDiagnosticsConfig (lit "info") 200.

Record CoordinatorConfig := mkCoordinatorConfig {
  co_region : str;
  co_bind : str;
  co_metrics_bind : str;
  co_allow_public_metrics : bool;
  co_diagnostics_token : option SecretRef;
  co_database_backend : str;
  co_database : str;
  co_database_url : option SecretRef;
  co_database_storage : str;
  co_allow_unsafe_efs_sqlite : bool;
  co_tls_mode : str;
  co_tls_cert : str;
  co_tls_key : option SecretRef;
  co_auth_hmac_secret : option SecretRef;
  co_relay_auth_secret : option SecretRef;
  co_relays : list str;
  co_console_url : str
}.
Definition default_coordinator : CoordinatorConfig :=
  mkCoordinatorConfig [] (lit "0.0.0.0:8443") (lit "127.0.0.1:9701") false None (lit "sqlite") (lit "blaktail-coord.sqlite3") None
    (lit "local") false (lit "files") [] None None None [] [].

Record RelayConfig := mkRelayConfig {
  re_region : str;
  re_bind : str;
  re_metrics_bind : str;
  re_allow_public_metrics : bool;
  re_diagnostics_token : option SecretRef;
  re_auth_secret : option SecretRef;
  re_idle_seconds : Z;
  re_rate_per_second : Z;
  re_rate_burst : Z
}.
Definition default_relay : RelayConfig := mkRelayConfig [] (lit "0.0.0.0:3478") (lit "127.0.0.1:9702") false None None 120 100 200.

Record AgentConfig := mkAgentConfig {
  ag_state_dir : str;
  ag_coordinator_url : option str;
  ag_interface : str;
  ag_poll_seconds : Z;
  ag_advertised_routes : list str
}.
Definition default_agent : AgentConfig := mkAgentConfig (lit "/var/lib/blaktail") None (lit "blaktail0") 30 [].

Record ConsoleConfig := mkConsoleConfig {
  cn_region : str;
  cn_port : Z;
  cn_database_url : option SecretRef;
  cn_base_url : str;
  cn_trusted_origins : list str;
  cn_coordinator_url : str;
  cn_coordinator_ca_file : option str;
  cn_auth_secret : option SecretRef;
  cn_coordinator_auth_secret : option SecretRef
}.
Definition default_console : ConsoleConfig := mkConsoleConfig [] 3000 None [] [] [] None None None.

(** [deployment] has one field, its profile. *)
Record RootConfig := mkRootConfig {
  schema_version : Z;
  profile : str;
  diagnostics : DiagnosticsConfig;
  coordinator : CoordinatorConfig;
  relay : RelayConfig;
  agent : AgentConfig;
  console : ConsoleConfig
}.
Definition default_root : RootConfig :=
  mkRootConfig SCHEMA_VERSION (lit "production") default_diagnostics default_coordinator default_relay default_agent default_console.

Record Violation := mkViolation { v_field : str; v_message : str }.

Inductive ConfigError :=
| ReadError (path source : str)
| ParseError (path message : str)
| EnvironmentError (field message : str)
| Invalid (violations : list Violation)
| SecretError (field message : str)
| SupportOutput (path source : str)
| SupportConfirmation.

Definition violation_text (v : Violation) : str := v_field v ++ lit ": " ++ v_message v.

Definition error_text (e : ConfigError) : str :=
  match e with
  | ReadError path source => lit "could not read configuration file " ++ path ++ lit ": " ++ source
  | ParseError path message => lit "could not parse configuration file " ++ path ++ lit ": " ++ message
  | EnvironmentError field message => lit "configuration environment override " ++ field ++ lit ": " ++ message
  | Invalid vs => lit "configuration invalid:" ++ [10] ++ join [10] (map (λ v, lit "- " ++ violation_text v) vs)
  | SecretError field message => lit "could not read secret for " ++ field ++ lit ": " ++ message
  | SupportOutput path source => lit "support bundle output " ++ path ++ lit ": " ++ source
  | SupportConfirmation => lit "support bundle confirmation did not match preview digest"
  end.

(** A parsed TOML document: tables and everything else. *)
Inductive Toml := TLeaf | TTable (entries : list (str * Toml)).

Inductive UrlHost := Domain (name : str) | HostIp (ip : IpAddr).
Record Url := mkUrl {
  u_scheme : str;
  u_host : option UrlHost;
  u_host_str : option str;
  u_port : option Z;
  u_username : str;
  u_password : option str;
  u_path : str;
  u_query : option str;
  u_fragment : option str
}.

(** [toml_config] is the deserialisation into the structs, given the reading of a
    secret reference, its error the path and the message; [read_file] is [fs::read],
    [regular_file] the metadata. *)
Class ConfigHost := {
  toml_config : (str → result str SecretRef) → str → result (str * str) RootConfig;
  toml_value : str → option Toml;
  parse_url : str → option Url;
  log_filter_ok : str → bool;
  sha256 : bytes → bytes;
  read_file : str → result str bytes;
  regular_file : str → result str bool
}.

(** ** UTF-8 *)

Definition tail_byte (c : Z) : bool := (128 <=? c) && (c <=? 191).

(** [str::from_utf8]: one character of two, three or four bytes after its first. *)
Fixpoint utf8_ok (bs : bytes) : bool :=
  match bs with
  | [] => true
  | a :: r1 =>
      if a <=? 127 then utf8_ok r1
      else match r1 with
           | [] => false
           | b :: r2 =>
               if (194 <=? a) && (a <=? 223) then tail_byte b && utf8_ok r2
               else match r2 with
                    | [] => false
                    | c :: r3 =>
                        if (224 <=? a) && (a <=? 239) then
                          (if a =? 224 then (160 <=? b) && (b <=? 191) else if a =? 237 then (128 <=? b) && (b <=? 159) else tail_byte b)
                          && tail_byte c && utf8_ok r3
                        else match r3 with
                             | [] => false
                             | d :: r4 =>
                                 (240 <=? a) && (a <=? 244)
                                 && (if a =? 240 then (144 <=? b) && (b <=? 191) else if a =? 244 then (128 <=? b) && (b <=? 143) else tail_byte b)
                                 && tail_byte c && tail_byte d && utf8_ok r4
                             end
                    end
           end
  end.

(** ** Sources of values *)

Abbreviation Sources := (BTree.map_of str).
Abbreviation Environment := (BTree.map_of str).

Definition join_path (prefix key : str) : str := if bool_decide (prefix = []) then key else prefix ++ lit "." ++ key.

Fixpoint collect_json_paths (value : Value) (prefix : str) : list str :=
  match value with
  | JObject fields => flat_map (λ f : str * Value, collect_json_paths f.2 (join_path prefix f.1)) fields
  | _ => [prefix]
  end.

Fixpoint toml_paths (value : Toml) (prefix : str) : list str :=
  match value with
  | TTable entries => flat_map (λ f : str * Toml, toml_paths f.2 (join_path prefix f.1)) entries
  | TLeaf => [prefix]
  end.

Definition mark_toml_sources (value : Toml) (sources : Sources) : Sources :=
  foldl (λ m path, BTree.put path (lit "file") m) sources (toml_paths value []).

(** ** Serialisation *)

Definition secret_json (r : option SecretRef) : Value := match r with Some r => JString (secret_text r) | None => JNull end.
Definition list_json (l : list str) : Value := JArray (map JString l).
Definition opt_json (o : option str) : Value := match o with Some s => JString s | None => JNull end.
Definition num_json (n : Z) : Value := JNumber (dec n).

Definition coordinator_json (c : CoordinatorConfig) : Value := JObject
  [(lit "allow_public_metrics", JBool (co_allow_public_metrics c)); (lit "allow_unsafe_efs_sqlite", JBool (co_allow_unsafe_efs_sqlite c));
   (lit "auth_hmac_secret", secret_json (co_auth_hmac_secret c)); (lit "bind", JString (co_bind c));
   (lit "console_url", JString (co_console_url c)); (lit "database", JString (co_database c));
   (lit "database_backend", JString (co_database_backend c)); (lit "database_storage", JString (co_database_storage c));
   (lit "database_url", secret_json (co_database_url c)); (lit "diagnostics_token", secret_json (co_diagnostics_token c));
   (lit "metrics_bind", JString (co_metrics_bind c)); (lit "region", JString (co_region c));
   (lit "relay_auth_secret", secret_json (co_relay_auth_secret c)); (lit "relays", list_json (co_relays c));
   (lit "tls_cert", JString (co_tls_cert c)); (lit "tls_key", secret_json (co_tls_key c)); (lit "tls_mode", JString (co_tls_mode c))].

Definition relay_json (c : RelayConfig) : Value := JObject
  [(lit "allow_public_metrics", JBool (re_allow_public_metrics c)); (lit "auth_secret", secret_json (re_auth_secret c));
   (lit "bind", JString (re_bind c)); (lit "diagnostics_token", secret_json (re_diagnostics_token c));
   (lit "idle_seconds", num_json (re_idle_seconds c)); (lit "metrics_bind", JString (re_metrics_bind c));
   (lit "rate_burst", num_json (re_rate_burst c)); (lit "rate_per_second", num_json (re_rate_per_second c));
   (lit "region", JString (re_region c))].

Definition agent_json (c : AgentConfig) : Value := JObject
  [(lit "advertised_routes", list_json (ag_advertised_routes c)); (lit "coordinator_url", opt_json (ag_coordinator_url c));
   (lit "interface", JString (ag_interface c)); (lit "poll_seconds", num_json (ag_poll_seconds c));
   (lit "state_dir", JString (ag_state_dir c))].

Definition console_json (c : ConsoleConfig) : Value := JObject
  [(lit "auth_secret", secret_json (cn_auth_secret c)); (lit "base_url", JString (cn_base_url c));
   (lit "coordinator_auth_secret", secret_json (cn_coordinator_auth_secret c)); (lit "coordinator_ca_file", opt_json (cn_coordinator_ca_file c));
   (lit "coordinator_url", JString (cn_coordinator_url c)); (lit "database_url", secret_json (cn_database_url c));
   (lit "port", num_json (cn_port c)); (lit "region", JString (cn_region c)); (lit "trusted_origins", list_json (cn_trusted_origins c))].

(** [serde_json::to_value(&config)] *)
Definition root_fields (c : RootConfig) : list (str * Value) :=
  [(lit "agent", agent_json (agent c)); (lit "console", console_json (console c)); (lit "coordinator", coordinator_json (coordinator c));
   (lit "deployment", JObject [(lit "profile", JString (profile c))]);
   (lit "diagnostics", JObject [(lit "log_filter", JString (log_filter (diagnostics c)));
                                (lit "support_log_lines", num_json (support_log_lines (diagnostics c)))]);
   (lit "relay", relay_json (relay c)); (lit "schema_version", num_json (schema_version c))].

Definition default_sources (c : RootConfig) : Sources :=
  foldl (λ m path, BTree.put path (lit "default") m) [] (collect_json_paths (JObject (root_fields c)) []).

Definition select_service (fields : list (str * Value)) (service : Service) : list (str * Value) :=
  if bool_decide (service = All) then fields
  else List.filter (λ f : str * Value, seq_b f.1 "schema_version" || seq_b f.1 "deployment" || seq_b f.1 "diagnostics"
                                       || bool_decide (f.1 = service_text service)) fields.

Definition path_selected (path : str) (service : Service) : bool :=
  bool_decide (service = All) || seq_b path "schema_version" || starts_with (lit "deployment.") path
  || starts_with (lit "diagnostics.") path || starts_with (service_text service ++ lit ".") path.

(** ** Overrides from the environment *)

Definition env (e : Environment) (name : string) : option str :=
  v ← BTree.get (lit name) e; if bool_decide (v = []) then None else Some v.

Definition mark_env (s : Sources) (field name : string) : Sources := BTree.put (lit field) (lit "environment:" ++ lit name) s.

Definition env_error {A} (field : string) (message : str) : result ConfigError A := Err (EnvironmentError (lit field) message).

(** [set_string] and [set_path] *)
Definition set_string (target : str) (e : Environment) (name field : string) (s : Sources) : str * Sources :=
  match env e name with Some v => (v, mark_env s field name) | None => (target, s) end.

Definition set_bool (target : bool) (e : Environment) (name field : string) (s : Sources) : result ConfigError (bool * Sources) :=
  match env e name with
  | None => Ok (target, s)
  | Some v =>
      let v := to_ascii_lowercase v in
      if seq_b v "1" || seq_b v "true" || seq_b v "yes" then Ok (true, mark_env s field name)
      else if seq_b v "0" || seq_b v "false" || seq_b v "no" then Ok (false, mark_env s field name)
      else env_error field (lit name ++ lit " must be true or false")
  end.

Definition set_u64 (target : Z) (e : Environment) (name field : string) (s : Sources) : result ConfigError (Z * Sources) :=
  match env e name with
  | None => Ok (target, s)
  | Some v =>
      match parse_u64 v with
      | Some n => Ok (n, mark_env s field name)
      | None => env_error field (lit name ++ lit " must be an unsigned integer")
      end
  end.

(** [set_u32], and [set_usize] where a pointer has sixty-four bits. *)
Definition set_at_most (max target : Z) (e : Environment) (name field : string) (s : Sources) : result ConfigError (Z * Sources) :=
  let? (n, s) := set_u64 target e name field s in
  if n <=? max then Ok (n, s) else env_error field (lit name ++ lit " exceeds the supported range").
Definition set_u32 : Z → Environment → string → string → Sources → result ConfigError (Z * Sources) := set_at_most U32_MAX.
Definition set_usize : Z → Environment → string → string → Sources → result ConfigError (Z * Sources) := set_at_most U64_MAX.

Definition set_list (target : list str) (e : Environment) (name field : string) (s : Sources) : list str * Sources :=
  match env e name with
  | Some v => (List.filter (λ item, negb (bool_decide (item = []))) (map trim (split 44 v)), mark_env s field name)
  | None => (target, s)
  end.

(** [if let Some(value) = env(..) { target = Some(value); mark_env(..) }] *)
Definition set_option {A} (f : str → A) (target : option A) (e : Environment) (name field : string) (s : Sources) : option A * Sources :=
  match env e name with Some v => (Some (f v), mark_env s field name) | None => (target, s) end.

Definition file (path : str) : SecretRef := SFile path None.
Definition environment (name : string) : SecretRef := SEnvironment (lit name) None.

Definition set_secret (target : option SecretRef) (e : Environment) (value_name file_name field : string) (s : Sources)
    : result ConfigError (option SecretRef * Sources) :=
  match env e value_name, env e file_name with
  | Some _, Some _ => env_error field (lit value_name ++ lit " and " ++ lit file_name ++ lit " are ambiguous; set exactly one")
  | Some _, None => Ok (Some (environment value_name), mark_env s field value_name)
  | None, Some path => Ok (Some (file path), mark_env s field file_name)
  | None, None => Ok (target, s)
  end.

Abbreviation Applied := (λ A : Type, result ConfigError (A * Sources * list str)).

Definition apply_coordinator (c : CoordinatorConfig) (e : Environment) (s : Sources) (w : list str) : Applied CoordinatorConfig :=
  let '(region, s) := set_string (co_region c) e "BLAKTAIL_REGION" "coordinator.region" s in
  let '(bind, s) := set_string (co_bind c) e "BLAKTAIL_BIND" "coordinator.bind" s in
  let '(metrics_bind, s) := set_string (co_metrics_bind c) e "BLAKTAIL_COORD_METRICS_BIND" "coordinator.metrics_bind" s in
  let? (allow_public, s) :=
    set_bool (co_allow_public_metrics c) e "BLAKTAIL_COORD_ALLOW_PUBLIC_METRICS" "coordinator.allow_public_metrics" s in
  let? (token, s) := set_secret (co_diagnostics_token c) e "BLAKTAIL_COORD_DIAGNOSTICS_TOKEN" "BLAKTAIL_COORD_DIAGNOSTICS_TOKEN_FILE"
                       "coordinator.diagnostics_token" s in
  let '(backend, s) := set_string (co_database_backend c) e "BLAKTAIL_DATABASE_BACKEND" "coordinator.database_backend" s in
  let? (database, s, w) :=
    match env e "BLAKTAIL_DATABASE", env e "BLAKTAIL_DB_PATH" with
    | Some _, Some _ =>
        env_error "coordinator.database" (lit "BLAKTAIL_DATABASE and deprecated BLAKTAIL_DB_PATH are ambiguous; remove BLAKTAIL_DB_PATH")
    | Some path, None => Ok (path, mark_env s "coordinator.database" "BLAKTAIL_DATABASE", w)
    | None, Some path =>
        Ok (path, mark_env s "coordinator.database" "BLAKTAIL_DB_PATH",
            w ++ [lit "BLAKTAIL_DB_PATH is deprecated; use BLAKTAIL_DATABASE before schema v2"])
    | None, None => Ok (co_database c, s, w)
    end in
  let? (database_url, s) := set_secret (co_database_url c) e "BLAKTAIL_DATABASE_URL" "BLAKTAIL_DATABASE_URL_FILE" "coordinator.database_url" s in
  let '(storage, s) := set_string (co_database_storage c) e "BLAKTAIL_DATABASE_STORAGE" "coordinator.database_storage" s in
  let? (efs, s) :=
    set_bool (co_allow_unsafe_efs_sqlite c) e "BLAKTAIL_ALLOW_UNSAFE_EFS_SQLITE" "coordinator.allow_unsafe_efs_sqlite" s in
  let '(tls_mode, s) := set_string (co_tls_mode c) e "BLAKTAIL_TLS_MODE" "coordinator.tls_mode" s in
  let '(tls_cert, s) := set_string (co_tls_cert c) e "BLAKTAIL_TLS_CERT" "coordinator.tls_cert" s in
  let '(tls_key, s) := set_option file (co_tls_key c) e "BLAKTAIL_TLS_KEY" "coordinator.tls_key" s in
  let? (hmac, s) := set_secret (co_auth_hmac_secret c) e "BLAKTAIL_AUTH_HMAC_SECRET" "BLAKTAIL_AUTH_HMAC_SECRET_FILE"
                      "coordinator.auth_hmac_secret" s in
  let? (relay_auth, s) := set_secret (co_relay_auth_secret c) e "BLAKTAIL_RELAY_AUTH_SECRET" "BLAKTAIL_RELAY_AUTH_SECRET_FILE"
                            "coordinator.relay_auth_secret" s in
  let '(relays, s) := set_list (co_relays c) e "BLAKTAIL_RELAYS" "coordinator.relays" s in
  let '(console_url, s) := set_string (co_console_url c) e "BLAKTAIL_CONSOLE_URL" "coordinator.console_url" s in
  Ok (mkCoordinatorConfig region bind metrics_bind allow_public token backend database database_url storage efs tls_mode tls_cert
        tls_key hmac relay_auth relays console_url, s, w).

Definition apply_relay (c : RelayConfig) (e : Environment) (s : Sources) (w : list str) : Applied RelayConfig :=
  let '(region, s) := set_string (re_region c) e "BLAKTAIL_REGION" "relay.region" s in
  let '(bind, s) := set_string (re_bind c) e "BLAKTAIL_RELAY_BIND" "relay.bind" s in
  let '(metrics_bind, s) := set_string (re_metrics_bind c) e "BLAKTAIL_RELAY_METRICS_BIND" "relay.metrics_bind" s in
  let? (allow_public, s) := set_bool (re_allow_public_metrics c) e "BLAKTAIL_RELAY_ALLOW_PUBLIC_METRICS" "relay.allow_public_metrics" s in
  let? (token, s) := set_secret (re_diagnostics_token c) e "BLAKTAIL_RELAY_DIAGNOSTICS_TOKEN" "BLAKTAIL_RELAY_DIAGNOSTICS_TOKEN_FILE"
                       "relay.diagnostics_token" s in
  let? (auth, s) := set_secret (re_auth_secret c) e "BLAKTAIL_RELAY_AUTH_SECRET" "BLAKTAIL_RELAY_AUTH_SECRET_FILE" "relay.auth_secret" s in
  let? (idle, s) := set_u64 (re_idle_seconds c) e "BLAKTAIL_RELAY_IDLE_SECONDS" "relay.idle_seconds" s in
  let? (rate, s) := set_u32 (re_rate_per_second c) e "BLAKTAIL_RELAY_RATE_PER_SECOND" "relay.rate_per_second" s in
  let? (burst, s) := set_u32 (re_rate_burst c) e "BLAKTAIL_RELAY_RATE_BURST" "relay.rate_burst" s in
  Ok (mkRelayConfig region bind metrics_bind allow_public token auth idle rate burst, s, w).

Definition apply_agent (c : AgentConfig) (e : Environment) (s : Sources) (w : list str) : Applied AgentConfig :=
  let '(state_dir, s) := set_string (ag_state_dir c) e "BLAKTAIL_AGENT_STATE_DIR" "agent.state_dir" s in
  let '(url, s) := set_option id (ag_coordinator_url c) e "BLAKTAIL_AGENT_COORD_URL" "agent.coordinator_url" s in
  let? (url, s, w) :=
    match env e "BLAKTAIL_COORDINATOR_URL" with
    | None => Ok (url, s, w)
    | Some v =>
        if bool_decide (is_Some (env e "BLAKTAIL_AGENT_COORD_URL")) then
          env_error "agent.coordinator_url"
            (lit "BLAKTAIL_AGENT_COORD_URL and deprecated BLAKTAIL_COORDINATOR_URL are ambiguous; remove BLAKTAIL_COORDINATOR_URL")
        else Ok (Some v, mark_env s "agent.coordinator_url" "BLAKTAIL_COORDINATOR_URL",
                 w ++ [lit "BLAKTAIL_COORDINATOR_URL is deprecated; use BLAKTAIL_AGENT_COORD_URL before schema v2"])
    end in
  let '(interface, s) := set_string (ag_interface c) e "BLAKTAIL_AGENT_INTERFACE" "agent.interface" s in
  let? (poll, s) := set_u64 (ag_poll_seconds c) e "BLAKTAIL_AGENT_POLL_SECONDS" "agent.poll_seconds" s in
  let '(routes, s) := set_list (ag_advertised_routes c) e "BLAKTAIL_AGENT_ADVERTISE_ROUTES" "agent.advertised_routes" s in
  Ok (mkAgentConfig state_dir url interface poll routes, s, w).

Definition apply_console (c : ConsoleConfig) (e : Environment) (s : Sources) (w : list str) : Applied ConsoleConfig :=
  let '(region, s) := set_string (cn_region c) e "BLAKTAIL_REGION" "console.region" s in
  let? (port, s) :=
    match env e "PORT" with
    | None => Ok (cn_port c, s)
    | Some v =>
        match parse_u16 v with
        | Some port => Ok (port, mark_env s "console.port" "PORT")
        | None => env_error "console.port" (lit "PORT must be an integer from 1 to 65535")
        end
    end in
  let? (database_url, s) := set_secret (cn_database_url c) e "DATABASE_URL" "DATABASE_URL_FILE" "console.database_url" s in
  let '(base_url, s) := set_string (cn_base_url c) e "BETTER_AUTH_URL" "console.base_url" s in
  let '(origins, s) := set_list (cn_trusted_origins c) e "BETTER_AUTH_TRUSTED_ORIGINS" "console.trusted_origins" s in
  let '(coordinator_url, s) := set_string (cn_coordinator_url c) e "COORD_BASE_URL" "console.coordinator_url" s in
  let '(ca_file, s) := set_option id (cn_coordinator_ca_file c) e "NODE_EXTRA_CA_CERTS" "console.coordinator_ca_file" s in
  let? (auth, s) := set_secret (cn_auth_secret c) e "BETTER_AUTH_SECRET" "BETTER_AUTH_SECRET_FILE" "console.auth_secret" s in
  let? (coordinator_auth, s) := set_secret (cn_coordinator_auth_secret c) e "BLAKTAIL_AUTH_HMAC_SECRET" "BLAKTAIL_AUTH_HMAC_SECRET_FILE"
                                  "console.coordinator_auth_secret" s in
  Ok (mkConsoleConfig region port database_url base_url origins coordinator_url ca_file auth coordinator_auth, s, w).

(** A section is read from the environment only for the service that runs it. *)
Definition apply_section {A} (apply : A → Environment → Sources → list str → Applied A) (selected : bool) (c : A) (e : Environment)
    (s : Sources) (w : list str) : Applied A :=
  if selected then apply c e s w else Ok (c, s, w).

Definition apply_environment (c : RootConfig) (service : Service) (e : Environment) (s : Sources) : Applied RootConfig :=
  let '(profile', s) := set_string (profile c) e "BLAKTAIL_DEPLOYMENT_PROFILE" "deployment.profile" s in
  let '(filter, s) := set_string (log_filter (diagnostics c)) e "RUST_LOG" "diagnostics.log_filter" s in
  let? (lines, s) := set_usize (support_log_lines (diagnostics c)) e "BLAKTAIL_SUPPORT_LOG_LINES" "diagnostics.support_log_lines" s in
  let? (co, s, w) := apply_section apply_coordinator (selects service Coordinator) (coordinator c) e s [] in
  let? (re, s, w) := apply_section apply_relay (selects service Relay) (relay c) e s w in
  let? (ag, s, w) := apply_section apply_agent (selects service Agent) (agent c) e s w in
  let? (cn, s, w) := apply_section apply_console (selects service Console) (console c) e s w in
  Ok (mkRootConfig (schema_version c) profile' (mkDiagnosticsConfig filter lines) co re ag cn, s, w).

(** ** Loading *)

Record LoadedConfig := mkLoadedConfig {
  config : RootConfig;
  sources : Sources;
  warnings : list str;
  secret_environment : Environment;
  file_present : bool
}.

(** Trailing newlines and carriage returns, popped from the end. *)
Fixpoint drop_newlines (r : bytes) : bytes :=
  match r with c :: r' => if (c =? 10) || (c =? 13) then drop_newlines r' else r | [] => [] end.
Definition trim_secret_newlines (value : bytes) : bytes := reverse (drop_newlines (reverse value)).

(** The references of a section, in the order the code names them. *)
Definition coordinator_secrets (c : CoordinatorConfig) : list (option SecretRef) :=
  [co_diagnostics_token c; co_database_url c; co_tls_key c; co_auth_hmac_secret c; co_relay_auth_secret c].
Definition relay_secrets (c : RelayConfig) : list (option SecretRef) := [re_diagnostics_token c; re_auth_secret c].
Definition console_secrets (c : ConsoleConfig) : list (option SecretRef) :=
  [cn_database_url c; cn_auth_secret c; cn_coordinator_auth_secret c].
Definition secret_references (c : RootConfig) : list (option SecretRef) :=
  coordinator_secrets (coordinator c) ++ relay_secrets (relay c) ++ console_secrets (console c).

Definition take_secret_environment (c : RootConfig) (e : Environment) : Environment :=
  snd (foldl (λ st r, match r with
                      | Some (SEnvironment name _) =>
                          match BTree.get name st.1 with
                          | Some v => (List.filter (λ b : str * str, negb (bool_decide (b.1 = name))) st.1, BTree.put name v st.2)
                          | None => st
                          end
                      | _ => st
                      end) (e, []) (secret_references c)).

Section host.
Context `{H : ConfigHost}.

Definition safe_prefixes : list str :=
  [lit "unknown field"; lit "missing field"; lit "duplicate field"; lit "duplicate key"; lit "secret reference"; lit "secret file path"].

Definition parse_root_config (input : str) : result str RootConfig :=
  match toml_config parse_secret input with
  | Ok c => Ok c
  | Err (path, raw) =>
      let safe := if existsb (λ p, starts_with p raw) safe_prefixes then raw else lit "value has an invalid type or format" in
      Err (if bool_decide (path = []) || seq_b path "." then safe else path ++ lit ": " ++ safe)
  end.

(** [fs::read_to_string] *)
Definition read_to_string (path : str) : result str str :=
  let? bs := read_file path in
  if utf8_ok bs then Ok bs else Err (lit "stream did not contain valid UTF-8").

Definition read_root (path : str) (s : Sources) : result ConfigError (RootConfig * Sources) :=
  let? input := match read_to_string path with Ok i => Ok i | Err source => Err (ReadError path source) end in
  let? c := match parse_root_config input with Ok c => Ok c | Err message => Err (ParseError path message) end in
  let? value := ok_or (toml_value input) (ParseError path (lit "configuration source index could not be built")) in
  Ok (c, mark_toml_sources value s).

Definition fingerprint_secret (reference : option SecretRef) (e : Environment) : option SecretRef :=
  match reference with
  | None => None
  | Some (SFile path fp) =>
      match read_file path with
      | Ok bs => Some (SFile path (Some (sha256 (trim_secret_newlines bs))))
      | Err _ => Some (SFile path fp)
      end
  | Some (SEnvironment name fp) =>
      match BTree.get name e with
      | Some v => Some (SEnvironment name (Some (sha256 (trim_secret_newlines v))))
      | None => Some (SEnvironment name fp)
      end
  end.

Definition fingerprint_coordinator (c : CoordinatorConfig) (e : Environment) : CoordinatorConfig :=
  mkCoordinatorConfig (co_region c) (co_bind c) (co_metrics_bind c) (co_allow_public_metrics c) (fingerprint_secret (co_diagnostics_token c) e)
    (co_database_backend c) (co_database c) (fingerprint_secret (co_database_url c) e) (co_database_storage c)
    (co_allow_unsafe_efs_sqlite c) (co_tls_mode c) (co_tls_cert c) (fingerprint_secret (co_tls_key c) e)
    (fingerprint_secret (co_auth_hmac_secret c) e) (fingerprint_secret (co_relay_auth_secret c) e) (co_relays c) (co_console_url c).

Definition fingerprint_relay (c : RelayConfig) (e : Environment) : RelayConfig :=
  mkRelayConfig (re_region c) (re_bind c) (re_metrics_bind c) (re_allow_public_metrics c) (fingerprint_secret (re_diagnostics_token c) e)
    (fingerprint_secret (re_auth_secret c) e) (re_idle_seconds c) (re_rate_per_second c) (re_rate_burst c).

Definition fingerprint_console (c : ConsoleConfig) (e : Environment) : ConsoleConfig :=
  mkConsoleConfig (cn_region c) (cn_port c) (fingerprint_secret (cn_database_url c) e) (cn_base_url c) (cn_trusted_origins c)
    (cn_coordinator_url c) (cn_coordinator_ca_file c) (fingerprint_secret (cn_auth_secret c) e)
    (fingerprint_secret (cn_coordinator_auth_secret c) e).

Definition fingerprint_secrets (c : RootConfig) (service : Service) (e : Environment) : RootConfig :=
  mkRootConfig (schema_version c) (profile c) (diagnostics c)
    (if selects service Coordinator then fingerprint_coordinator (coordinator c) e else coordinator c)
    (if selects service Relay then fingerprint_relay (relay c) e else relay c)
    (agent c)
    (if selects service Console then fingerprint_console (console c) e else console c).

Definition load_with_environment (path : option str) (service : Service) (e : Environment) : result ConfigError LoadedConfig :=
  let c := default_root in
  let s := default_sources c in
  let? (c, s) := match path with Some path => read_root path s | None => Ok (c, s) end in
  let? (c, s, w) := apply_environment c service e s in
  let c := fingerprint_secrets c service e in
  Ok (mkLoadedConfig c s w (take_secret_environment c e) (bool_decide (is_Some path))).

Definition secret (loaded : LoadedConfig) (reference : SecretRef) (field : str) : result ConfigError bytes :=
  let? value :=
    match reference with
    | SFile path _ =>
        match read_file path with
        | Ok bs => Ok bs
        | Err error => Err (SecretError field (lit "file could not be read: " ++ error))
        end
    | SEnvironment name _ =>
        ok_or (BTree.get name (secret_environment loaded)) (SecretError field (lit "environment variable " ++ name ++ lit " is not set"))
    end in
  Ok (trim_secret_newlines value).

(** [SecretValue::as_str] *)
Definition as_str (value : bytes) (field : str) : result ConfigError str :=
  if utf8_ok value then Ok value else Err (SecretError field (lit "value is not valid UTF-8")).

End host.

(** The value that is printed: [json!] orders the three keys. *)
Definition redacted_dump (loaded : LoadedConfig) (service : Service) : Value := JObject
  [(lit "config", JObject (select_service (root_fields (config loaded)) service));
   (lit "effective_sources",
    JObject (map (λ b : str * str, (b.1, JString b.2)) (List.filter (λ b : str * str, path_selected b.1 service) (sources loaded))));
   (lit "warnings", list_json (warnings loaded))].

End Config.
