(* ===== verification/ConfigCheck.v ===== *)
(** * Validation and reload of the configuration

    [blaktail-config/src/lib.rs]: the violations a service reports before it starts,
    relay entries, the plan of a reload and its commit, and the table of the
    environment variables that are read.  A validator returns the violations it
    appends, in order. *)

From S2P Require Import Prelude Text Net Policy Packet AclFilter CoordAcl Dns Json Config.

Module ConfigCheck.
Import Config.

Definition when (b : bool) (field : str) (message : string) : list Violation := if b then [mkViolation field (lit message)] else [].

(** [format!("{field}[{index}]")] for every element *)
Definition validate_each (validate : str → str → list Violation) (field : string) (values : list str) : list Violation :=
  mjoin (imap (λ index value, validate value (lit field ++ lit "[" ++ dec (Z.of_nat index) ++ lit "]")) values).

Definition between (low high n : Z) : bool := (low <=? n) && (n <=? high).

(** ** Regions and addresses *)

Definition is_australian_region (region : str) : bool :=
  let r := to_ascii_lowercase (trim region) in
  seq_b r "ap-southeast-2" || seq_b r "australiaeast" || seq_b r "australiasoutheast" || seq_b r "australia-southeast1"
  || seq_b r "australia-southeast2".

Definition validate_region (region field : str) : list Violation :=
  when (negb (is_australian_region region)) field "must be an approved Australian cloud region".

Definition validate_bind (value field : str) (private_by_default public_allowed : bool) : list Violation :=
  match Dns.parse_socket_addr value with
  | None => [mkViolation field (lit "must be an IP socket address")]
  | Some address =>
      if Dns.rs_port address =? 0 then [mkViolation field (lit "port must not be zero")]
      else when (private_by_default && negb (is_loopback (Dns.rs_ip address)) && negb public_allowed) field
             "must bind to loopback unless explicit public metrics exposure is enabled"
  end.

Definition validate_cidr (value field : str) : list Violation :=
  match split_once 47 value with
  | None => [mkViolation field (lit "must be an IPv4 or IPv6 CIDR")]
  | Some (address, prefix) =>
      match parse_ip address with
      | None => [mkViolation field (lit "must contain a valid IP address")]
      | Some address =>
          match parse_u8 prefix with
          | None => [mkViolation field (lit "must contain a numeric prefix length")]
          | Some prefix =>
              let maximum := if is_ipv4 address then 32 else 128 in
              if maximum <? prefix then [mkViolation field (lit "prefix length must be at most " ++ dec maximum)] else []
          end
      end
  end.

(** ** Relay entries *)

Definition relay_entry_parts (entry : str) : str * option str :=
  let entry := trim entry in
  match split_once 59 entry with
  | Some (relay, option) =>
      (trim relay, url ← strip_prefix (lit "wss=") (trim option);
                   let url := trim url in if bool_decide (url = []) then None else Some url)
  | None => (entry, None)
  end.

Definition split_relay_entry (entry : str) : str * option str :=
  let entry := (relay_entry_parts entry).1 in
  match split_once 35 entry with
  | Some (endpoint, region) => (trim endpoint, Some (trim region))
  | None => (entry, None)
  end.

Definition relay_entry_wss (entry : str) : option str := (relay_entry_parts entry).2.

Section host.
Context `{H : ConfigHost}.

Definition url_host_is_loopback (url : Url) : bool :=
  match u_host url with
  | Some (Domain name) => seq_b name "localhost" || ends_with (lit ".localhost") name
  | Some (HostIp address) => is_loopback address
  | None => false
  end.

Definition has_credentials (url : Url) : bool := negb (bool_decide (u_username url = [])) || bool_decide (is_Some (u_password url)).

Definition validate_http_url (value field : str) : list Violation :=
  match parse_url value with
  | None => [mkViolation field (lit "must be a valid HTTP(S) URL")]
  | Some url =>
      when (bool_decide (u_host url = None)) field "must include a host"
      ++ when (bool_decide (u_port url = Some 0)) field "port must not be zero"
      ++ when (negb (seq_b (u_scheme url) "https") && negb (seq_b (u_scheme url) "http" && url_host_is_loopback url)) field
           "must use HTTPS except for a loopback development URL"
      ++ when (has_credentials url) field "must not include credentials"
      ++ when (bool_decide (is_Some (u_query url)) || bool_decide (is_Some (u_fragment url))) field "must not include a query or fragment"
  end.

Definition validate_origin (value field : str) : list Violation :=
  match validate_http_url value field with
  | v :: vs => v :: vs
  | [] =>
      match parse_url value with
      | None => []
      | Some url =>
          when (negb (seq_b (u_path url) "/") || bool_decide (is_Some (u_query url)) || bool_decide (is_Some (u_fragment url))
                || has_credentials url) field "must be an origin without credentials, path, query, or fragment"
      end
  end.

Definition origin (value : str) : option str :=
  url ← parse_url value;
  host ← u_host_str url;
  Some (u_scheme url ++ lit "://" ++ host ++ match u_port url with Some port => lit ":" ++ dec port | None => [] end).

Definition wss_ok (text : str) : bool :=
  match parse_url text with
  | Some url =>
      seq_b (u_scheme url) "wss" && match u_host_str url with Some host => negb (bool_decide (host = [])) | None => false end
      && negb (has_credentials url) && bool_decide (u_fragment url = None)
  | None => false
  end.

Definition udp_ok (text : str) : bool :=
  match parse_url text with
  | Some url =>
      bool_decide (is_Some (u_host url)) && match u_port url with Some port => 0 <? port | None => false end
      && negb (has_credentials url) && (bool_decide (u_path url = []) || seq_b (u_path url) "/")
      && bool_decide (u_query url = None) && bool_decide (u_fragment url = None)
  | None => false
  end.

Definition validate_relay_endpoint (entry field : str) : list Violation :=
  match split_once 59 entry with
  | Some (_, option) =>
      let valid := match relay_entry_wss entry with Some url => wss_ok url | None => false end in
      when (negb valid || negb (starts_with (lit "wss=") (trim option))) field
        "only a ;wss=wss://host/path fallback without credentials may follow the relay"
  | None => []
  end
  ++ (let '(value, region) := split_relay_entry entry in
      match region with
      | Some region =>
          when (negb (is_australian_region region)) field "declares a region that is not an approved Australian cloud region"
      | None => []
      end
      ++ when (negb (udp_ok (lit "udp://" ++ value))) field "must be a hostname or IP with a non-zero UDP port").

(** ** Secrets *)

(** The head that [validate_secret] and [validate_text_secret] share. *)
Definition with_secret (loaded : LoadedConfig) (reference : option SecretRef) (field : str) (k : bytes → list Violation) : list Violation :=
  match reference with
  | None => [mkViolation field (lit "secret reference is required")]
  | Some r =>
      if match r with SFile path _ => negb (is_absolute path) | SEnvironment _ _ => false end
      then [mkViolation field (lit "secret file path must be absolute")]
      else match secret loaded r field with
           | Ok value => k value
           | Err error => [mkViolation field (error_text error)]
           end
  end.

Definition too_short (minimum : Z) (field : str) : list Violation :=
  [mkViolation field (lit "secret must be at least " ++ dec minimum ++ lit " bytes")].

Definition validate_secret (loaded : LoadedConfig) (reference : option SecretRef) (field : str) (minimum : Z) : list Violation :=
  with_secret loaded reference field (λ value, if minimum <=? len value then [] else too_short minimum field).

Definition validate_text_secret (loaded : LoadedConfig) (reference : option SecretRef) (field : str) (minimum : Z) : list Violation :=
  with_secret loaded reference field (λ value,
    if len value <? minimum then too_short minimum field
    else when (negb (is_ok (as_str value field))) field "secret must contain valid UTF-8").

(** [fs::metadata(path)], the path being absolute *)
Definition validate_file (path field : str) (not_regular unreadable : string) : list Violation :=
  match regular_file path with
  | Ok regular => when (negb regular) field not_regular
  | Err error => [mkViolation field (lit unreadable ++ error)]
  end.

(** ** Sections *)

Definition validate_diagnostics (c : DiagnosticsConfig) : list Violation :=
  (if bool_decide (trim (log_filter c) = []) then [mkViolation (lit "diagnostics.log_filter") (lit "must not be empty")]
   else when (negb (log_filter_ok (log_filter c))) (lit "diagnostics.log_filter") "must be a valid tracing filter")
  ++ when (negb (between 1 500 (support_log_lines c))) (lit "diagnostics.support_log_lines") "must be between 1 and 500".

Definition validate_sqlite (loaded : LoadedConfig) : list Violation :=
  let c := coordinator (config loaded) in
  when (bool_decide (co_database c = [])) (lit "coordinator.database") "must not be empty"
  ++ when (bool_decide (is_Some (co_database_url c))) (lit "coordinator.database_url") "must not be set when database_backend is sqlite"
  ++ (if seq_b (co_database_storage c) "local" then
        when (co_allow_unsafe_efs_sqlite c) (lit "coordinator.allow_unsafe_efs_sqlite") "must be false when database_storage is local"
      else if seq_b (co_database_storage c) "efs" then
        when (negb (seq_b (profile (config loaded)) "e2e") || negb (co_allow_unsafe_efs_sqlite c)) (lit "coordinator.database_storage")
          "SQLite on EFS is allowed only for the explicit e2e profile with allow_unsafe_efs_sqlite=true; use local durable storage or PostgreSQL"
      else [mkViolation (lit "coordinator.database_storage") (lit "must be local or efs when database_backend is sqlite")]).

Definition validate_postgres (loaded : LoadedConfig) : list Violation :=
  let c := coordinator (config loaded) in
  let f := lit "coordinator.database_url" in
  validate_secret loaded (co_database_url c) f 12
  ++ match co_database_url c with
     | Some reference =>
         match secret loaded reference f with
         | Ok value =>
             match as_str value f with
             | Ok url =>
                 when (negb (starts_with (lit "postgres://") url || starts_with (lit "postgresql://") url)) f
                   "must use a postgres:// or postgresql:// URL"
             | Err error => [mkViolation f (error_text error)]
             end
         | Err _ => []
         end
     | None => []
     end
  ++ when (negb (seq_b (co_database_storage c) "network")) (lit "coordinator.database_storage")
       "must be network when database_backend is postgres"
  ++ when (co_allow_unsafe_efs_sqlite c) (lit "coordinator.allow_unsafe_efs_sqlite") "must be false when database_backend is postgres".

Definition validate_coordinator (loaded : LoadedConfig) : list Violation :=
  let c := coordinator (config loaded) in
  validate_region (co_region c) (lit "coordinator.region")
  ++ validate_bind (co_bind c) (lit "coordinator.bind") false false
  ++ validate_bind (co_metrics_bind c) (lit "coordinator.metrics_bind") true (co_allow_public_metrics c)
  ++ (if co_allow_public_metrics c || bool_decide (is_Some (co_diagnostics_token c))
      then validate_secret loaded (co_diagnostics_token c) (lit "coordinator.diagnostics_token") 32 else [])
  ++ (if seq_b (co_database_backend c) "sqlite" then validate_sqlite loaded
      else if seq_b (co_database_backend c) "postgres" then validate_postgres loaded
      else [mkViolation (lit "coordinator.database_backend") (lit "must be sqlite or postgres")])
  ++ when (negb (seq_b (co_tls_mode c) "files")) (lit "coordinator.tls_mode")
       "must be files; plaintext and implicit TLS modes are not supported"
  ++ (let f := lit "coordinator.tls_cert" in
      if bool_decide (co_tls_cert c = []) then [mkViolation f (lit "certificate file is required when tls_mode=files")]
      else if negb (is_absolute (co_tls_cert c)) then [mkViolation f (lit "certificate file path must be absolute")]
      else validate_file (co_tls_cert c) f "certificate path must be a regular file" "certificate file could not be read: ")
  ++ validate_secret loaded (co_tls_key c) (lit "coordinator.tls_key") 1
  ++ validate_secret loaded (co_auth_hmac_secret c) (lit "coordinator.auth_hmac_secret") 32
  ++ (if bool_decide (co_relays c = []) then []
      else validate_secret loaded (co_relay_auth_secret c) (lit "coordinator.relay_auth_secret") 32)
  ++ validate_each validate_relay_endpoint "coordinator.relays" (co_relays c)
  ++ validate_http_url (co_console_url c) (lit "coordinator.console_url").

Definition validate_relay (loaded : LoadedConfig) : list Violation :=
  let c := relay (config loaded) in
  validate_region (re_region c) (lit "relay.region")
  ++ validate_bind (re_bind c) (lit "relay.bind") false false
  ++ validate_bind (re_metrics_bind c) (lit "relay.metrics_bind") true (re_allow_public_metrics c)
  ++ (if re_allow_public_metrics c || bool_decide (is_Some (re_diagnostics_token c))
      then validate_secret loaded (re_diagnostics_token c) (lit "relay.diagnostics_token") 32 else [])
  ++ validate_secret loaded (re_auth_secret c) (lit "relay.auth_secret") 32
  ++ when (negb (between 10 86400 (re_idle_seconds c))) (lit "relay.idle_seconds") "must be between 10 and 86400"
  ++ when (negb (between 1 100000 (re_rate_per_second c))) (lit "relay.rate_per_second") "must be between 1 and 100000"
  ++ when ((re_rate_burst c <? re_rate_per_second c) || (1000000 <? re_rate_burst c)) (lit "relay.rate_burst")
       "must be at least rate_per_second and no more than 1000000".

Definition validate_agent (loaded : LoadedConfig) : list Violation :=
  let c := agent (config loaded) in
  when (bool_decide (ag_state_dir c = []) || negb (is_absolute (ag_state_dir c))) (lit "agent.state_dir") "must be an absolute path"
  ++ match ag_coordinator_url c with Some url => validate_http_url url (lit "agent.coordinator_url") | None => [] end
  ++ when (bool_decide (trim (ag_interface c) = []) || (15 <? len (ag_interface c))) (lit "agent.interface") "must contain 1 to 15 characters"
  ++ when (negb (between 1 3600 (ag_poll_seconds c))) (lit "agent.poll_seconds") "must be between 1 and 3600"
  ++ validate_each validate_cidr "agent.advertised_routes" (ag_advertised_routes c).

Definition validate_console_database (loaded : LoadedConfig) : list Violation :=
  let f := lit "console.database_url" in
  match cn_database_url (console (config loaded)) with
  | None => [mkViolation f (lit "secret reference is required")]
  | Some reference =>
      match secret loaded reference f with
      | Err error => [mkViolation f (error_text error)]
      | Ok value =>
          match as_str value f with
          | Err _ => [mkViolation f (lit "secret must contain valid UTF-8")]
          | Ok url =>
              match parse_url url with
              | Some url =>
                  when (negb (seq_b (u_scheme url) "postgres" || seq_b (u_scheme url) "postgresql")) f "must use postgres:// or postgresql://"
              | None => [mkViolation f (lit "must be a valid PostgreSQL URL")]
              end
          end
      end
  end.

Definition validate_console (loaded : LoadedConfig) : list Violation :=
  let c := console (config loaded) in
  validate_region (cn_region c) (lit "console.region")
  ++ when (cn_port c =? 0) (lit "console.port") "must not be zero"
  ++ validate_console_database loaded
  ++ validate_origin (cn_base_url c) (lit "console.base_url")
  ++ validate_http_url (cn_coordinator_url c) (lit "console.coordinator_url")
  ++ match cn_coordinator_ca_file c with
     | Some path =>
         let f := lit "console.coordinator_ca_file" in
         if bool_decide (path = []) || negb (is_absolute path) then [mkViolation f (lit "must be an absolute path")]
         else validate_file path f "CA path must be a regular file" "CA file could not be read: "
     | None => []
     end
  ++ when (bool_decide (cn_trusted_origins c = [])) (lit "console.trusted_origins") "must contain at least the console base origin"
  ++ validate_each validate_origin "console.trusted_origins" (cn_trusted_origins c)
  ++ (let base_origin := origin (cn_base_url c) in
      let includes_base := existsb (λ value, bool_decide (is_Some (origin value)) && bool_decide (origin value = base_origin)) (cn_trusted_origins c) in
      when (bool_decide (is_Some base_origin) && negb includes_base) (lit "console.trusted_origins") "must include console.base_url origin")
  ++ validate_text_secret loaded (cn_auth_secret c) (lit "console.auth_secret") 32
  ++ validate_text_secret loaded (cn_coordinator_auth_secret c) (lit "console.coordinator_auth_secret") 32.

Definition violations (loaded : LoadedConfig) (service : Service) : list Violation :=
  let c := config loaded in
  (if schema_version c =? SCHEMA_VERSION then []
   else [mkViolation (lit "schema_version") (lit "expected " ++ dec SCHEMA_VERSION ++ lit ", found " ++ dec (schema_version c))])
  ++ when (file_present loaded && negb (bool_decide (BTree.get (lit "schema_version") (sources loaded) = Some (lit "file"))))
       (lit "schema_version") "must be explicit in a configuration file"
  ++ when (negb (seq_b (profile c) "production" || seq_b (profile c) "development" || seq_b (profile c) "e2e")) (lit "deployment.profile")
       "must be production, development, or e2e"
  ++ validate_diagnostics (diagnostics c)
  ++ (if selects service Coordinator then validate_coordinator loaded else [])
  ++ (if selects service Relay then validate_relay loaded else [])
  ++ (if selects service Agent then validate_agent loaded else [])
  ++ (if selects service Console then validate_console loaded else []).

Definition validate (loaded : LoadedConfig) (service : Service) : result ConfigError unit :=
  match violations loaded service with [] => Ok tt | vs => Err (Invalid vs) end.

End host.

(** ** Reload *)

Inductive ReloadPlan := NoChange | Safe (fields : list str) | RestartRequired (fields : list str).

Definition changed {A} `{EqDecision A} (path : string) (current candidate : A) : list str :=
  if bool_decide (current = candidate) then [] else [lit path].

Definition changed_path (path : string) (current candidate : str) : list str :=
  changed path (canonical_path current) (canonical_path candidate).

Definition changed_ref (path : string) (current candidate : option SecretRef) : list str :=
  changed path (canonical_ref <$> current) (canonical_ref <$> candidate).

Definition coordinator_changes (a b : CoordinatorConfig) : list str :=
  changed "coordinator.region" (co_region a) (co_region b)
  ++ changed "coordinator.bind" (co_bind a) (co_bind b)
  ++ changed "coordinator.metrics_bind" (co_metrics_bind a) (co_metrics_bind b)
  ++ changed "coordinator.allow_public_metrics" (co_allow_public_metrics a) (co_allow_public_metrics b)
  ++ changed_ref "coordinator.diagnostics_token" (co_diagnostics_token a) (co_diagnostics_token b)
  ++ changed "coordinator.database_backend" (co_database_backend a) (co_database_backend b)
  ++ changed_path "coordinator.database" (co_database a) (co_database b)
  ++ changed_ref "coordinator.database_url" (co_database_url a) (co_database_url b)
  ++ changed "coordinator.database_storage" (co_database_storage a) (co_database_storage b)
  ++ changed "coordinator.allow_unsafe_efs_sqlite" (co_allow_unsafe_efs_sqlite a) (co_allow_unsafe_efs_sqlite b)
  ++ changed "coordinator.tls_mode" (co_tls_mode a) (co_tls_mode b)
  ++ changed_path "coordinator.tls_cert" (co_tls_cert a) (co_tls_cert b)
  ++ changed_ref "coordinator.tls_key" (co_tls_key a) (co_tls_key b)
  ++ changed_ref "coordinator.auth_hmac_secret" (co_auth_hmac_secret a) (co_auth_hmac_secret b)
  ++ changed_ref "coordinator.relay_auth_secret" (co_relay_auth_secret a) (co_relay_auth_secret b)
  ++ changed "coordinator.relays" (co_relays a) (co_relays b)
  ++ changed "coordinator.console_url" (co_console_url a) (co_console_url b).

Definition relay_changes (a b : RelayConfig) : list str :=
  changed "relay.region" (re_region a) (re_region b)
  ++ changed "relay.bind" (re_bind a) (re_bind b)
  ++ changed "relay.metrics_bind" (re_metrics_bind a) (re_metrics_bind b)
  ++ changed "relay.allow_public_metrics" (re_allow_public_metrics a) (re_allow_public_metrics b)
  ++ changed_ref "relay.diagnostics_token" (re_diagnostics_token a) (re_diagnostics_token b)
  ++ changed_ref "relay.auth_secret" (re_auth_secret a) (re_auth_secret b)
  ++ changed "relay.idle_seconds" (re_idle_seconds a) (re_idle_seconds b)
  ++ changed "relay.rate_per_second" (re_rate_per_second a) (re_rate_per_second b)
  ++ changed "relay.rate_burst" (re_rate_burst a) (re_rate_burst b).

Definition agent_changes (a b : AgentConfig) : list str :=
  changed_path "agent.state_dir" (ag_state_dir a) (ag_state_dir b)
  ++ changed "agent.coordinator_url" (ag_coordinator_url a) (ag_coordinator_url b)
  ++ changed "agent.interface" (ag_interface a) (ag_interface b)
  ++ changed "agent.poll_seconds" (ag_poll_seconds a) (ag_poll_seconds b)
  ++ changed "agent.advertised_routes" (ag_advertised_routes a) (ag_advertised_routes b).

Definition console_changes (a b : ConsoleConfig) : list str :=
  changed "console.region" (cn_region a) (cn_region b)
  ++ changed "console.port" (cn_port a) (cn_port b)
  ++ changed_ref "console.database_url" (cn_database_url a) (cn_database_url b)
  ++ changed "console.base_url" (cn_base_url a) (cn_base_url b)
  ++ changed "console.trusted_origins" (cn_trusted_origins a) (cn_trusted_origins b)
  ++ changed "console.coordinator_url" (cn_coordinator_url a) (cn_coordinator_url b)
  ++ changed "console.coordinator_ca_file" (canonical_path <$> cn_coordinator_ca_file a) (canonical_path <$> cn_coordinator_ca_file b)
  ++ changed_ref "console.auth_secret" (cn_auth_secret a) (cn_auth_secret b)
  ++ changed_ref "console.coordinator_auth_secret" (cn_coordinator_auth_secret a) (cn_coordinator_auth_secret b).

Definition diagnostics_changes (a b : DiagnosticsConfig) : list str :=
  changed "diagnostics.log_filter" (log_filter a) (log_filter b)
  ++ changed "diagnostics.support_log_lines" (support_log_lines a) (support_log_lines b).

Definition restart_fields (current candidate : RootConfig) (service : Service) : list str :=
  changed "schema_version" (schema_version current) (schema_version candidate)
  ++ changed "deployment.profile" (profile current) (profile candidate)
  ++ (if selects service Coordinator then coordinator_changes (coordinator current) (coordinator candidate) else [])
  ++ (if selects service Relay then relay_changes (relay current) (relay candidate) else [])
  ++ (if selects service Agent then agent_changes (agent current) (agent candidate) else [])
  ++ (if selects service Console then console_changes (console current) (console candidate) else [])
  ++ (if bool_decide (service = Console) then diagnostics_changes (diagnostics current) (diagnostics candidate) else []).

Definition reload_plan_for_service (current candidate : RootConfig) (service : Service) : ReloadPlan :=
  match restart_fields current candidate service with
  | [] =>
      match (if bool_decide (service = Console) then [] else diagnostics_changes (diagnostics current) (diagnostics candidate)) with
      | [] => NoChange
      | safe => Safe safe
      end
  | restart => RestartRequired restart
  end.

Definition reload_plan (current candidate : RootConfig) : ReloadPlan := reload_plan_for_service current candidate All.

(** [commit_safe_for_service], which runs under the write lock: the answer and the
    configuration the lock then holds. *)
Definition commit_safe_for_service (current candidate : RootConfig) (service : Service) : result ReloadPlan ReloadPlan * RootConfig :=
  let plan := reload_plan_for_service current candidate service in
  match plan with
  | NoChange => (Ok plan, current)
  | Safe _ =>
      (Ok plan, mkRootConfig (schema_version current) (profile current) (diagnostics candidate) (coordinator current) (relay current)
                  (agent current) (console current))
  | RestartRequired _ => (Err plan, current)
  end.

Definition commit_safe (current candidate : RootConfig) : result ReloadPlan ReloadPlan * RootConfig :=
  commit_safe_for_service current candidate All.

Definition configured_listeners (c : RootConfig) (service : Service) : list str :=
  (if selects service Coordinator
   then [lit "https " ++ co_bind (coordinator c); lit "private-http " ++ co_metrics_bind (coordinator c)] else [])
  ++ (if selects service Relay then [lit "udp " ++ re_bind (relay c); lit "private-http " ++ re_metrics_bind (relay c)] else []).

(** ** The variables *)

Definition ENVIRONMENT_OVERRIDES : list (string * string * bool) :=
  [("BLAKTAIL_CONFIG", "configuration file path", false);
   ("BLAKTAIL_DEPLOYMENT_PROFILE", "deployment.profile", false);
   ("RUST_LOG", "diagnostics.log_filter", false);
   ("BLAKTAIL_SUPPORT_LOG_LINES", "diagnostics.support_log_lines", false);
   ("BLAKTAIL_REGION", "coordinator.region, relay.region, console.region", false);
   ("BLAKTAIL_BIND", "coordinator.bind", false);
   ("BLAKTAIL_COORD_METRICS_BIND", "coordinator.metrics_bind", false);
   ("BLAKTAIL_COORD_ALLOW_PUBLIC_METRICS", "coordinator.allow_public_metrics", false);
   ("BLAKTAIL_COORD_DIAGNOSTICS_TOKEN", "coordinator.diagnostics_token", true);
   ("BLAKTAIL_COORD_DIAGNOSTICS_TOKEN_FILE", "coordinator.diagnostics_token", true);
   ("BLAKTAIL_DATABASE_BACKEND", "coordinator.database_backend", false);
   ("BLAKTAIL_DATABASE", "coordinator.database", false);
   ("BLAKTAIL_DB_PATH", "coordinator.database (deprecated)", false);
   ("BLAKTAIL_DATABASE_URL", "coordinator.database_url", true);
   ("BLAKTAIL_DATABASE_URL_FILE", "coordinator.database_url", true);
   ("BLAKTAIL_DATABASE_STORAGE", "coordinator.database_storage", false);
   ("BLAKTAIL_ALLOW_UNSAFE_EFS_SQLITE", "coordinator.allow_unsafe_efs_sqlite", false);
   ("BLAKTAIL_TLS_MODE", "coordinator.tls_mode", false);
   ("BLAKTAIL_TLS_CERT", "coordinator.tls_cert", false);
   ("BLAKTAIL_TLS_KEY", "coordinator.tls_key", true);
   ("BLAKTAIL_TLS_CERT_PEM", "container TLS certificate adapter", false);
   ("BLAKTAIL_TLS_KEY_PEM", "container TLS key adapter", true);
   ("BLAKTAIL_AUTH_HMAC_SECRET", "coordinator/console shared assertion secret", true);
   ("BLAKTAIL_AUTH_HMAC_SECRET_FILE", "coordinator/console shared assertion secret", true);
   ("BLAKTAIL_RELAY_AUTH_SECRET", "coordinator/relay capability secret", true);
   ("BLAKTAIL_RELAY_AUTH_SECRET_FILE", "coordinator/relay capability secret", true);
   ("BLAKTAIL_RELAYS", "coordinator.relays", false);
   ("BLAKTAIL_CONSOLE_URL", "coordinator.console_url", false);
   ("BLAKTAIL_RELAY_BIND", "relay.bind", false);
   ("BLAKTAIL_RELAY_METRICS_BIND", "relay.metrics_bind", false);
   ("BLAKTAIL_RELAY_ALLOW_PUBLIC_METRICS", "relay.allow_public_metrics", false);
   ("BLAKTAIL_RELAY_DIAGNOSTICS_TOKEN", "relay.diagnostics_token", true);
   ("BLAKTAIL_RELAY_DIAGNOSTICS_TOKEN_FILE", "relay.diagnostics_token", true);
   ("BLAKTAIL_RELAY_IDLE_SECONDS", "relay.idle_seconds", false);
   ("BLAKTAIL_RELAY_RATE_PER_SECOND", "relay.rate_per_second", false);
   ("BLAKTAIL_RELAY_RATE_BURST", "relay.rate_burst", false);
   ("BLAKTAIL_AGENT_STATE_DIR", "agent.state_dir", false);
   ("BLAKTAIL_AGENT_COORD_URL", "agent.coordinator_url", false);
   ("BLAKTAIL_COORDINATOR_URL", "agent.coordinator_url (deprecated)", false);
   ("BLAKTAIL_AGENT_INTERFACE", "agent.interface", false);
   ("BLAKTAIL_AGENT_POLL_SECONDS", "agent.poll_seconds", false);
   ("BLAKTAIL_AGENT_ADVERTISE_ROUTES", "agent.advertised_routes", false);
   ("DATABASE_URL", "console.database_url", true);
   ("DATABASE_URL_FILE", "console.database_url", true);
   ("BETTER_AUTH_URL", "console.base_url", false);
   ("PORT", "console.port", false);
   ("BETTER_AUTH_TRUSTED_ORIGINS", "console.trusted_origins", false);
   ("COORD_BASE_URL", "console.coordinator_url", false);
   ("NODE_EXTRA_CA_CERTS", "console.coordinator_ca_file", false);
   ("BETTER_AUTH_SECRET", "console.auth_secret", true);
   ("BETTER_AUTH_SECRET_FILE", "console.auth_secret", true)].

Definition supported (name : str) : bool := existsb (λ o : string * string * bool, seq_b name o.1.1) ENVIRONMENT_OVERRIDES.
Definition is_secret (name : str) : bool := existsb (λ o : string * string * bool, seq_b name o.1.1 && o.2) ENVIRONMENT_OVERRIDES.

(** [LoadedConfig::load], over the variables of the process. *)
Definition load `{H : ConfigHost} (vars : list (str * str)) (path : option str) (service : Service) : result ConfigError LoadedConfig :=
  load_with_environment path service
    (foldl (λ (e : Environment) (b : str * str), BTree.put b.1 b.2 e) [] (List.filter (λ b : str * str, supported b.1) vars)).

End ConfigCheck.
