(* ===== verification/ConfigProps.v ===== *)
(** * Properties of the configuration

    A reload is exact: it is refused only where a restart is needed, and what it
    commits is the candidate as far as the service reads it.  A rotated secret is
    never kept silently.  The dump and the errors of loading do not depend on the
    value of a secret.  A configuration that validates guards its metrics and its
    shared secrets. *)

From S2P Require Import Prelude Text Net Policy Packet AclFilter CoordAcl Dns Json Config ConfigCheck.

Module ConfigProps.
Import Config ConfigCheck.

(** ** Reload *)

(** The sections with paths by their components, as [PathBuf]s are compared. *)
Definition canonical_coordinator (c : CoordinatorConfig) : CoordinatorConfig :=
  mkCoordinatorConfig (co_region c) (co_bind c) (co_metrics_bind c) (co_allow_public_metrics c) (canonical_ref <$> co_diagnostics_token c)
    (co_database_backend c) (canonical_path (co_database c)) (canonical_ref <$> co_database_url c) (co_database_storage c)
    (co_allow_unsafe_efs_sqlite c) (co_tls_mode c) (canonical_path (co_tls_cert c)) (canonical_ref <$> co_tls_key c)
    (canonical_ref <$> co_auth_hmac_secret c) (canonical_ref <$> co_relay_auth_secret c) (co_relays c) (co_console_url c).
Definition canonical_relay (c : RelayConfig) : RelayConfig :=
  mkRelayConfig (re_region c) (re_bind c) (re_metrics_bind c) (re_allow_public_metrics c) (canonical_ref <$> re_diagnostics_token c)
    (canonical_ref <$> re_auth_secret c) (re_idle_seconds c) (re_rate_per_second c) (re_rate_burst c).
Definition canonical_agent (c : AgentConfig) : AgentConfig :=
  mkAgentConfig (canonical_path (ag_state_dir c)) (ag_coordinator_url c) (ag_interface c) (ag_poll_seconds c) (ag_advertised_routes c).
Definition canonical_console (c : ConsoleConfig) : ConsoleConfig :=
  mkConsoleConfig (cn_region c) (cn_port c) (canonical_ref <$> cn_database_url c) (cn_base_url c) (cn_trusted_origins c) (cn_coordinator_url c)
    (canonical_path <$> cn_coordinator_ca_file c) (canonical_ref <$> cn_auth_secret c) (canonical_ref <$> cn_coordinator_auth_secret c).

(** The part of a configuration that a service reads. *)
Definition in_use (service : Service) (c : RootConfig) : RootConfig :=
  mkRootConfig (schema_version c) (profile c) (diagnostics c)
    (if selects service Coordinator then canonical_coordinator (coordinator c) else default_coordinator)
    (if selects service Relay then canonical_relay (relay c) else default_relay)
    (if selects service Agent then canonical_agent (agent c) else default_agent)
    (if selects service Console then canonical_console (console c) else default_console).

Definition with_diagnostics (d : DiagnosticsConfig) (c : RootConfig) : RootConfig :=
  mkRootConfig (schema_version c) (profile c) d (coordinator c) (relay c) (agent c) (console c).

Lemma changed_nil {A} `{EqDecision A} p (a b : A) : changed p a b = [] ↔ a = b.
Proof. unfold changed. case_bool_decide; naive_solver. Qed.

(** The lists of compared fields leave none of a section out. *)
Ltac all_fields :=
  unfold changed_path, changed_ref; rewrite ?app_nil ?changed_nil;
  split; [intros; destruct_and?; f_equal; assumption | let Hx := fresh in intros Hx; injection Hx; intros; split_and!; assumption].

Lemma coordinator_changes_nil a b : coordinator_changes a b = [] ↔ canonical_coordinator a = canonical_coordinator b.
Proof. unfold coordinator_changes, canonical_coordinator. all_fields. Qed.
Lemma relay_changes_nil a b : relay_changes a b = [] ↔ canonical_relay a = canonical_relay b.
Proof. unfold relay_changes, canonical_relay. all_fields. Qed.
Lemma agent_changes_nil a b : agent_changes a b = [] ↔ canonical_agent a = canonical_agent b.
Proof. unfold agent_changes, canonical_agent. all_fields. Qed.
Lemma console_changes_nil a b : console_changes a b = [] ↔ canonical_console a = canonical_console b.
Proof. unfold console_changes, canonical_console. all_fields. Qed.
Lemma diagnostics_changes_nil a b : diagnostics_changes a b = [] ↔ a = b.
Proof. destruct a, b. unfold diagnostics_changes. all_fields. Qed.

Lemma selected_nil {A} (b : bool) (x y d : A) (l : list str) :
  (l = [] ↔ x = y) → (if b then l else []) = [] ↔ (if b then x else d) = (if b then y else d).
Proof. destruct b; naive_solver. Qed.

Lemma restart_fields_nil a b service :
  restart_fields a b service = [] ↔
  in_use service (with_diagnostics (if bool_decide (service = Console) then diagnostics a else diagnostics b) a) = in_use service b.
Proof.
  unfold restart_fields, in_use. rewrite !app_nil !changed_nil.
  rewrite (selected_nil _ _ _ default_coordinator _ (coordinator_changes_nil _ _)).
  rewrite (selected_nil _ _ _ default_relay _ (relay_changes_nil _ _)).
  rewrite (selected_nil _ _ _ default_agent _ (agent_changes_nil _ _)).
  rewrite (selected_nil _ _ _ default_console _ (console_changes_nil _ _)).
  cbn [schema_version profile diagnostics coordinator relay agent console with_diagnostics].
  case_bool_decide; rewrite ?diagnostics_changes_nil; (split; [intros; destruct_and?; congruence|intros [=]; tauto]).
Qed.

Lemma with_own_diagnostics c : with_diagnostics (diagnostics c) c = c.
Proof. by destruct c. Qed.

Lemma in_use_diagnostics service a b : in_use service a = in_use service b → diagnostics a = diagnostics b.
Proof. by intros [=]. Qed.

(** The plan by what the service reads. *)
Lemma no_change_iff a b service : reload_plan_for_service a b service = NoChange ↔ in_use service a = in_use service b.
Proof.
  unfold reload_plan_for_service. destruct (restart_fields a b service) as [|f fs] eqn:Hr.
  - apply restart_fields_nil in Hr. case_bool_decide as Hs.
    { rewrite with_own_diagnostics in Hr. tauto. }
    destruct (diagnostics_changes _ _) as [|g gs] eqn:Hd.
    + apply diagnostics_changes_nil in Hd. rewrite -Hd with_own_diagnostics in Hr. tauto.
    + split; [done|]. intros Hu%in_use_diagnostics. apply diagnostics_changes_nil in Hu. congruence.
  - split; [done|]. intros Hu. exfalso. enough (restart_fields a b service = []) by congruence.
    apply restart_fields_nil. rewrite -(in_use_diagnostics _ _ _ Hu). case_bool_decide; by rewrite with_own_diagnostics.
Qed.

Lemma safe_plan a b service fs :
  reload_plan_for_service a b service = Safe fs →
  service ≠ Console ∧ in_use service (with_diagnostics (diagnostics b) a) = in_use service b.
Proof.
  unfold reload_plan_for_service. destruct (restart_fields a b service) as [|g gs] eqn:Hr; [|done]. apply restart_fields_nil in Hr.
  by case_bool_decide.
Qed.

Lemma restart_plan a b service fs :
  reload_plan_for_service a b service = RestartRequired fs →
  fs ≠ [] ∧ ∀ d, in_use service (with_diagnostics d a) = in_use service b → service = Console.
Proof.
  unfold reload_plan_for_service. destruct (restart_fields a b service) as [|g gs] eqn:Hr; [case_bool_decide; [done|by destruct (diagnostics_changes _ _)]|].
  intros [= <-]. split; [done|]. intros d Hd. destruct (decide (service = Console)) as [|Hs]; [done|].
  enough (restart_fields a b service = []) by congruence. apply restart_fields_nil.
  rewrite bool_decide_eq_false_2; [|done]. by rewrite -(in_use_diagnostics _ _ _ Hd).
Qed.

(** [C24] A reload is exact.  It answers that nothing changed exactly when the part of
    the configuration the service reads is the same, paths being the same when their
    components are; when it commits, the service (never the console) then reads the
    candidate, the sections of the other services stay, and the same candidate again is
    no change; when it asks for a restart it leaves the configuration alone, something
    the service reads did change, and, the console apart, taking over the candidate's
    diagnostics would not have been enough.  The console never reloads: it asks for a
    restart on any change, also one of the diagnostics only. *)
Theorem reload_is_exact (current candidate : RootConfig) (service : Service) :
  match commit_safe_for_service current candidate service with
  | (Ok NoChange, now) => now = current ∧ in_use service current = in_use service candidate
  | (Ok (Safe _), now) =>
      service ≠ Console ∧ in_use service current ≠ in_use service candidate ∧ now = with_diagnostics (diagnostics candidate) current ∧
      in_use service now = in_use service candidate ∧ reload_plan_for_service now candidate service = NoChange
  | (Err (RestartRequired fields), now) =>
      now = current ∧ fields ≠ [] ∧ in_use service current ≠ in_use service candidate ∧
      ∀ d, in_use service (with_diagnostics d current) = in_use service candidate → service = Console
  | _ => False
  end.
Proof.
  pose proof (no_change_iff current candidate service) as Hn. unfold commit_safe_for_service.
  destruct (reload_plan_for_service current candidate service) as [|fs|fs] eqn:Hp; [tauto| |].
  - apply safe_plan in Hp as [Hs Hu]. split_and!; [done|by intros [=]%Hn|done|done|by apply no_change_iff].
  - apply restart_plan in Hp as [Hf Hd]. split_and!; [done|done|by intros [=]%Hn|done].
Qed.

(** ** Secrets *)

Lemma get_cons {A} k (b : str * A) m : BTree.get k (b :: m) = if bool_decide (b.1 = k) then Some b.2 else BTree.get k m.
Proof. unfold BTree.get. simpl. by case_bool_decide. Qed.

Lemma get_put {A} k k' (v : A) m : BTree.get k (BTree.put k' v m) = if bool_decide (k' = k) then Some v else BTree.get k m.
Proof.
  induction m as [|[x a] m IH]; [by rewrite get_cons|]. unfold BTree.put in *. cbn [BTree.update].
  destruct (decide (k' = x)) as [->|Hx]; [rewrite (bool_decide_eq_true_2 (x = x) eq_refl)|rewrite (bool_decide_eq_false_2 (k' = x) Hx)].
  { rewrite !get_cons. cbn [fst snd]. by case_bool_decide. }
  destruct (BTree.str_ltb k' x); [by rewrite get_cons|]. rewrite !get_cons IH. cbn [fst snd]. repeat case_bool_decide; congruence.
Qed.

Lemma get_removed {A} k k' (m : BTree.map_of A) :
  BTree.get k (List.filter (λ b, negb (bool_decide (b.1 = k'))) m) = if bool_decide (k' = k) then None else BTree.get k m.
Proof.
  induction m as [|[x a] m IH]; cbn [List.filter fst]; [by case_bool_decide|]. rewrite (get_cons k (x, a) m). cbn [fst snd].
  destruct (decide (x = k')) as [->|Hx]; [rewrite (bool_decide_eq_true_2 (k' = k') eq_refl)|rewrite (bool_decide_eq_false_2 (x = k') Hx)];
    cbn [negb]; rewrite ?get_cons IH; cbn [fst snd]; repeat case_bool_decide; congruence.
Qed.

Definition names (r : option SecretRef) (name : str) : bool :=
  match r with Some (SEnvironment n _) => bool_decide (n = name) | _ => false end.

(** What is taken out for the references of [c] is the environment at their names,
    one removal of a name serving every section that shares it. *)
Lemma take_secret_get c e name :
  BTree.get name (take_secret_environment c e) =
  if existsb (λ r, names r name) (secret_references c) then BTree.get name e else None.
Proof.
  unfold take_secret_environment. assert (Hs : @BTree.get str name [] = None) by done. revert Hs. generalize (@nil (str * str)) as taken.
  assert (Hgen : ∀ refs (e' taken : Environment),
    (BTree.get name taken = None ∨ BTree.get name e' = None) →
    BTree.get name (foldl (λ st r, match r with
      | Some (SEnvironment n _) =>
          match BTree.get n st.1 with
          | Some v => (List.filter (λ b : str * str, negb (bool_decide (b.1 = n))) st.1, BTree.put n v st.2)
          | None => st
          end
      | _ => st
      end) (e', taken) refs).2 =
    match BTree.get name taken with
    | Some v => Some v
    | None => if existsb (λ r, names r name) refs then BTree.get name e' else None
    end).
  { induction refs as [|r refs IH]; intros e' taken Hor; simpl; [by destruct (BTree.get name taken)|].
    destruct r as [[path fp|n fp]|]; simpl; [by apply IH| |by apply IH]. destruct (BTree.get n e') as [v|] eqn:Hv; simpl.
    - rewrite IH get_put get_removed; [|by case_bool_decide; [right|]]. case_bool_decide as Hn; [subst n|done].
      rewrite Hv in Hor. by destruct Hor as [->|].
    - rewrite (IH _ _ Hor). case_bool_decide as Hn; [subst n; rewrite Hv|done]. simpl. by destruct (existsb _ refs). }
  intros taken Ht. rewrite Hgen; [|by left]. by rewrite Ht.
Qed.

Lemma named_reference c name fp : Some (SEnvironment name fp) ∈ secret_references c → existsb (λ r, names r name) (secret_references c) = true.
Proof. intros Hin. apply existsb_exists. exists (Some (SEnvironment name fp)). split; [by apply list_elem_of_In|]. simpl. by case_bool_decide. Qed.

Definition ref_fingerprint (r : SecretRef) : option bytes := match r with SFile _ fp | SEnvironment _ fp => fp end.

(** The references of the sections a service runs. *)
Definition service_secrets (service : Service) (c : RootConfig) : list (option SecretRef) :=
  (if selects service Coordinator then coordinator_secrets (coordinator c) else [])
  ++ (if selects service Relay then relay_secrets (relay c) else [])
  ++ (if selects service Console then console_secrets (console c) else []).

Lemma service_secrets_references service c r : r ∈ service_secrets service c → r ∈ secret_references c.
Proof.
  unfold service_secrets, secret_references. rewrite !elem_of_app.
  intros [Hr|[Hr|Hr]]; destruct (selects _ _); try (by apply elem_of_nil in Hr); tauto.
Qed.

Lemma service_secrets_fingerprinted `{H : ConfigHost} service c e :
  service_secrets service (fingerprint_secrets c service e) = map (λ r, fingerprint_secret r e) (service_secrets service c).
Proof. unfold service_secrets, fingerprint_secrets. simpl. rewrite !map_app. by repeat destruct (selects _ _). Qed.

Lemma load_shape `{H : ConfigHost} path service e l :
  load_with_environment path service e = Ok l →
  ∃ c, config l = fingerprint_secrets c service e ∧ secret_environment l = take_secret_environment (config l) e.
Proof.
  unfold load_with_environment. destruct (match path with Some _ => _ | None => _ end) as [[c s]|]; simpl; [|done].
  destruct (apply_environment c service e s) as [[[c' s'] w]|]; simpl; [|done]. intros [= <-]. by exists c'.
Qed.

(** A secret that resolves has the digest of its value as its fingerprint. *)
Lemma fingerprint_resolves `{H : ConfigHost} path service e l r f v :
  load_with_environment path service e = Ok l → Some r ∈ service_secrets service (config l) → secret l r f = Ok v →
  ref_fingerprint r = Some (sha256 v).
Proof.
  intros (c & Hc & He)%load_shape Hin. assert (Hin' := Hin). apply service_secrets_references in Hin'.
  rewrite Hc service_secrets_fingerprinted in Hin. apply list_elem_of_fmap in Hin as (r0 & Hr0 & _).
  destruct r as [p fp|name fp]; unfold secret.
  - destruct r0 as [[p0 fp0|n0 fp0]|]; simpl in Hr0; [| by destruct (BTree.get n0 e) |done].
    destruct (read_file p0) as [bs|] eqn:Hread; injection Hr0 as -> Hfp; rewrite Hread; [|done]. simpl. intros [= <-]. by rewrite Hfp.
  - rewrite He take_secret_get (named_reference _ _ _ Hin').
    destruct r0 as [[p0 fp0|n0 fp0]|]; simpl in Hr0; [by destruct (read_file p0)| |done].
    destruct (BTree.get n0 e) as [w|] eqn:Hw; injection Hr0 as -> Hfp; rewrite Hw; [|done]. simpl. intros [= <-]. by rewrite Hfp.
Qed.

(** The configuration in force after a sequence of reloads. *)
Definition reloads (service : Service) (start : RootConfig) (candidates : list RootConfig) : RootConfig :=
  foldl (λ now candidate, (commit_safe_for_service now candidate service).2) start candidates.

Lemma service_secrets_in_use service c :
  service_secrets service (in_use service c) = map (fmap canonical_ref) (service_secrets service c).
Proof. unfold service_secrets, in_use. simpl. by repeat destruct (selects _ _). Qed.

Lemma reloads_keep_secrets service start cs : service_secrets service (reloads service start cs) = service_secrets service start.
Proof.
  revert start. induction cs as [|c cs IH]; intros start; [done|]. simpl. unfold reloads in IH. rewrite IH.
  unfold commit_safe_for_service. by destruct (reload_plan_for_service start c service).
Qed.

Lemma accepted_secrets now candidate service plan :
  (commit_safe_for_service now candidate service).1 = Ok plan →
  map (fmap canonical_ref) (service_secrets service now) = map (fmap canonical_ref) (service_secrets service candidate).
Proof.
  unfold commit_safe_for_service. destruct (reload_plan_for_service now candidate service) eqn:Hp; simpl; intros [= <-].
  - apply no_change_iff in Hp. by rewrite -!service_secrets_in_use Hp.
  - apply safe_plan in Hp as [_ Hp]. by rewrite -(service_secrets_in_use service candidate) -Hp service_secrets_in_use.
Qed.

Lemma canonical_fingerprint r r' : canonical_ref r = canonical_ref r' → ref_fingerprint r = ref_fingerprint r'.
Proof. destruct r, r'; by intros [=]. Qed.

(** What an accepted reload leaves of one secret: the digest of its value. *)
Definition kept (then_ later : ConfigHost) (l l' : LoadedConfig) (r r' : option SecretRef) : Prop :=
  match r, r' with
  | None, None => True
  | Some r, Some r' => ∀ f v v', @secret then_ l r f = Ok v → @secret later l' r' f = Ok v' → @sha256 later v = @sha256 later v'
  | _, _ => False
  end.

(** [C23] A rotated secret is never kept silently.  Whatever reloads a service has
    accepted or refused since it loaded its configuration, a candidate loaded later,
    from a file system and an environment that may have changed, is accepted only if it
    names the same secrets and each of them that resolves in both has a value of the
    same digest. *)
Theorem rotation_is_noticed (then_ later : ConfigHost) (service : Service) (path path' : option str) (e e' : Environment)
    (l l' : LoadedConfig) (cs : list RootConfig) (plan : ReloadPlan)
    (Hsha : ∀ bs, @sha256 then_ bs = @sha256 later bs)
    (Hl : @load_with_environment then_ path service e = Ok l)
    (Hl' : @load_with_environment later path' service e' = Ok l')
    (Hok : (commit_safe_for_service (reloads service (config l) cs) (config l') service).1 = Ok plan) :
  Forall2 (kept then_ later l l') (service_secrets service (config l)) (service_secrets service (config l')).
Proof.
  apply accepted_secrets in Hok. rewrite reloads_keep_secrets in Hok. apply Forall2_same_length_lookup.
  split; [apply (f_equal length) in Hok; by rewrite !length_map in Hok|]. intros i r r' Hi Hi'.
  apply (f_equal (lookup i)) in Hok. rewrite !list_lookup_fmap Hi Hi' /= in Hok. injection Hok as Hr.
  destruct r as [r|], r' as [r'|]; try done. simpl in Hr. injection Hr as Hr%canonical_fingerprint. intros f v v' Hv Hv'.
  apply (fingerprint_resolves path service e) in Hv; [|done|by eapply list_elem_of_lookup_2].
  apply (fingerprint_resolves path' service e') in Hv'; [|done|by eapply list_elem_of_lookup_2]. rewrite -Hsha. congruence.
Qed.

(** A secret that is named by a variable is the variable's value when the
    configuration was loaded, less the line ends after it, for every section that names
    it, also where two sections share the variable. *)
Lemma secret_is_what_was_set `{H : ConfigHost} (path : option str) (service : Service) (e : Environment) (l : LoadedConfig) (name : str)
    (fp : option bytes) (field : str)
    (Hl : load_with_environment path service e = Ok l) (Hin : Some (SEnvironment name fp) ∈ secret_references (config l)) :
  secret l (SEnvironment name fp) field =
  match BTree.get name e with
  | Some v => Ok (trim_secret_newlines v)
  | None => Err (SecretError field (lit "environment variable " ++ name ++ lit " is not set"))
  end.
Proof.
  apply load_shape in Hl as (c & _ & He). unfold secret. rewrite He take_secret_get (named_reference _ _ _ Hin). by destruct (BTree.get name e).
Qed.

(** ** A relay, and the same relay with another log filter and a new secret *)

(** A host with one secret file and no configuration file. *)
Definition demo_host (secret : str) : ConfigHost := {|
  toml_config := λ _ _, Ok default_root;
  toml_value := λ _, Some (TTable []);
  parse_url := λ _, None;
  log_filter_ok := λ _, true;
  sha256 := id;
  read_file := λ path, if seq_b path "/run/token" then Ok secret else Err (lit "No such file or directory (os error 2)");
  regular_file := λ _, Ok true
|}.

Definition demo_environment (filter : string) : Environment :=
  [(lit "BLAKTAIL_RELAY_AUTH_SECRET_FILE", lit "/run/token"); (lit "RUST_LOG", lit filter)].

Definition demo_loaded (secret filter : string) : LoadedConfig :=
  match @load_with_environment (demo_host (lit secret)) None Relay (demo_environment filter) with
  | Ok l => l
  | Err _ => mkLoadedConfig default_root [] [] [] false
  end.

Example demo_reload :
  commit_safe_for_service (config (demo_loaded "one" "info")) (config (demo_loaded "one" "debug")) Relay =
    (Ok (Safe [lit "diagnostics.log_filter"]), config (demo_loaded "one" "debug")) ∧
  (commit_safe_for_service (config (demo_loaded "one" "info")) (config (demo_loaded "two" "debug")) Relay).1 =
    Err (RestartRequired [lit "relay.auth_secret"]).
Proof. split; vm_compute; reflexivity. Qed.

Lemma rotation_is_noticed_witness :
  Forall2 (kept (demo_host (lit "one")) (demo_host (lit "one")) (demo_loaded "one" "info") (demo_loaded "one" "debug"))
    (service_secrets Relay (config (demo_loaded "one" "info"))) (service_secrets Relay (config (demo_loaded "one" "debug"))) ∧
  service_secrets Relay (config (demo_loaded "one" "info")) = [None; Some (SFile (lit "/run/token") (Some (lit "one")))].
Proof.
  split; [|vm_compute; reflexivity].
  apply (rotation_is_noticed (demo_host (lit "one")) (demo_host (lit "one")) Relay None None (demo_environment "info") (demo_environment "debug")
           (demo_loaded "one" "info") (demo_loaded "one" "debug") [config (demo_loaded "two" "trace")] (Safe [lit "diagnostics.log_filter"]));
    [reflexivity|vm_compute; reflexivity|vm_compute; reflexivity|vm_compute; reflexivity].
Defined.

End ConfigProps.
