(* ===== verification/ConfigSecrecy.v ===== *)
(** * What the configuration shows and what it refuses

    Loading the configuration twice, with other values for the variables that the
    table of overrides marks as secret and other contents for every file but the
    configuration file, gives the same dump, or the same error.  A configuration that
    validates guards its metrics and its shared secrets. *)

From S2P Require Import Prelude Text Net Policy Packet AclFilter CoordAcl Dns OrgDnsStable Json Config ConfigCheck ConfigProps.

Module ConfigSecrecy.
Import Config ConfigCheck.

(** ** Results that differ only in what is related *)

Definition result_rel {E A B} (R : A → B → Prop) (x : result E A) (y : result E B) : Prop :=
  match x, y with Ok a, Ok b => R a b | Err e, Err e' => e = e' | _, _ => False end.

Lemma bind_rel {E A B A' B'} (R : A → A' → Prop) (S : B → B' → Prop) (x : result E A) (y : result E A') k k' :
  result_rel R x y → (∀ a b, R a b → result_rel S (k a) (k' b)) → result_rel S (let? a := x in k a) (let? b := y in k' b).
Proof. destruct x, y; simpl; naive_solver. Qed.

(** ** Configurations without their secrets *)

Definition redact (r : SecretRef) : SecretRef := match r with SFile _ _ => SFile [] None | SEnvironment _ _ => SEnvironment [] None end.

Definition redact_coordinator (c : CoordinatorConfig) : CoordinatorConfig :=
  mkCoordinatorConfig (co_region c) (co_bind c) (co_metrics_bind c) (co_allow_public_metrics c) (redact <$> co_diagnostics_token c)
    (co_database_backend c) (co_database c) (redact <$> co_database_url c) (co_database_storage c)
    (co_allow_unsafe_efs_sqlite c) (co_tls_mode c) (co_tls_cert c) (redact <$> co_tls_key c)
    (redact <$> co_auth_hmac_secret c) (redact <$> co_relay_auth_secret c) (co_relays c) (co_console_url c).
Definition redact_relay (c : RelayConfig) : RelayConfig :=
  mkRelayConfig (re_region c) (re_bind c) (re_metrics_bind c) (re_allow_public_metrics c) (redact <$> re_diagnostics_token c)
    (redact <$> re_auth_secret c) (re_idle_seconds c) (re_rate_per_second c) (re_rate_burst c).
Definition redact_console (c : ConsoleConfig) : ConsoleConfig :=
  mkConsoleConfig (cn_region c) (cn_port c) (redact <$> cn_database_url c) (cn_base_url c) (cn_trusted_origins c)
    (cn_coordinator_url c) (cn_coordinator_ca_file c) (redact <$> cn_auth_secret c) (redact <$> cn_coordinator_auth_secret c).
Definition redact_config (c : RootConfig) : RootConfig :=
  mkRootConfig (schema_version c) (profile c) (diagnostics c) (redact_coordinator (coordinator c)) (redact_relay (relay c)) (agent c)
    (redact_console (console c)).

(** Two outcomes that look the same. *)
Definition alike {A B} (f : A → B) : A * Sources * list str → A * Sources * list str → Prop :=
  λ x y, f x.1.1 = f y.1.1 ∧ x.1.2 = y.1.2 ∧ x.2 = y.2.

Lemma secret_json_redacted r : secret_json (redact <$> r) = secret_json r.
Proof. by destruct r as [[]|]. Qed.

Lemma root_fields_redacted c : root_fields (redact_config c) = root_fields c.
Proof. unfold root_fields, coordinator_json, relay_json, console_json. simpl. by rewrite !secret_json_redacted. Qed.

Lemma fingerprint_redacted `{H : ConfigHost} r e : redact <$> fingerprint_secret r e = redact <$> r.
Proof. destruct r as [[p fp|n fp]|]; simpl; [by destruct (read_file p)|by destruct (BTree.get n e)|done]. Qed.

Lemma fingerprints_redacted `{H : ConfigHost} c service e : redact_config (fingerprint_secrets c service e) = redact_config c.
Proof.
  unfold redact_config, fingerprint_secrets. simpl.
  f_equal; destruct (selects _ _); try done; unfold redact_coordinator, redact_relay, redact_console; simpl; by rewrite !fingerprint_redacted.
Qed.

(** ** Environments that differ only in secrets *)

(** An empty value counts as none; a secret may have another value where it has one. *)
Definition same_public (e e' : Environment) : Prop :=
  ∀ name : string, if is_secret (lit name) then is_Some (env e name) ↔ is_Some (env e' name) else env e name = env e' name.

Section environments.
Context (e e' : Environment) (Hsame : same_public e e').

Lemma env_public name : is_secret (lit name) = false → env e name = env e' name.
Proof. intros Hn. pose proof (Hsame name) as Hs. by rewrite Hn in Hs. Qed.

Lemma env_secret name : is_secret (lit name) = true → is_Some (env e name) ↔ is_Some (env e' name).
Proof. intros Hn. pose proof (Hsame name) as Hs. by rewrite Hn in Hs. Qed.

Lemma set_secret_rel t v n f s :
  is_secret (lit v) = true → is_secret (lit n) = true →
  result_rel (λ x y, redact <$> x.1 = redact <$> y.1 ∧ x.2 = y.2) (set_secret t e v n f s) (set_secret t e' v n f s).
Proof.
  intros Hv%env_secret Hn%env_secret. unfold set_secret.
  destruct (env e v), (env e' v); try (by destruct Hv as [[? [=]] [? [=]]]); try (exfalso; naive_solver);
    destruct (env e n), (env e' n); try (exfalso; naive_solver); done.
Qed.

Lemma set_file_rel t n f s :
  is_secret (lit n) = true →
  let x := set_option file t e n f s in let y := set_option file t e' n f s in redact <$> x.1 = redact <$> y.1 ∧ x.2 = y.2.
Proof. intros Hn%env_secret. unfold set_option. destruct (env e n), (env e' n); try (exfalso; naive_solver); done. Qed.

Lemma set_string_public t n f s : is_secret (lit n) = false → set_string t e n f s = set_string t e' n f s.
Proof. intros Hn. unfold set_string. by rewrite env_public. Qed.
Lemma set_bool_public t n f s : is_secret (lit n) = false → set_bool t e n f s = set_bool t e' n f s.
Proof. intros Hn. unfold set_bool. by rewrite env_public. Qed.
Lemma set_u64_public t n f s : is_secret (lit n) = false → set_u64 t e n f s = set_u64 t e' n f s.
Proof. intros Hn. unfold set_u64. by rewrite env_public. Qed.
Lemma set_at_most_public m t n f s : is_secret (lit n) = false → set_at_most m t e n f s = set_at_most m t e' n f s.
Proof. intros Hn. unfold set_at_most. by rewrite set_u64_public. Qed.
Lemma set_list_public t n f s : is_secret (lit n) = false → set_list t e n f s = set_list t e' n f s.
Proof. intros Hn. unfold set_list. by rewrite env_public. Qed.
Lemma set_option_public {A} (g : str → A) t n f s : is_secret (lit n) = false → set_option g t e n f s = set_option g t e' n f s.
Proof. intros Hn. unfold set_option. by rewrite env_public. Qed.

(** One setter of the chain: the variable is public and the outcomes are the same, or
    it is a secret and they differ in the reference alone. *)
Ltac pure x H := rewrite H; [|reflexivity]; destruct x as [? ?].
Ltac fallible x H := rewrite H; [|reflexivity]; destruct x as [[? ?]|]; cbn [result_bind]; [|reflexivity].
Ltac setter :=
  match goal with
  | |- context [set_secret ?t e ?v ?n ?f ?s] =>
      let Hr := fresh "Hr" in
      assert (Hr := set_secret_rel t v n f s eq_refl eq_refl);
      destruct (set_secret t e v n f s) as [[? ?]|], (set_secret t e' v n f s) as [[? ?]|]; simpl in Hr;
      first [contradiction | (cbn [result_bind]; exact Hr) | (destruct Hr as [Hr <-]; cbn [result_bind])]
  | |- context [set_option file ?t e ?n ?f ?s] =>
      let Hr := fresh "Hr" in
      assert (Hr := set_file_rel t n f s eq_refl);
      destruct (set_option file t e n f s), (set_option file t e' n f s); simpl in Hr; destruct Hr as [Hr <-]
  | |- context [set_string ?t e ?n ?f ?s] => pure (set_string t e' n f s) (set_string_public t n f s)
  | |- context [set_list ?t e ?n ?f ?s] => pure (set_list t e' n f s) (set_list_public t n f s)
  | |- context [set_option ?g ?t e ?n ?f ?s] => pure (set_option g t e' n f s) (set_option_public g t n f s)
  | |- context [set_bool ?t e ?n ?f ?s] => fallible (set_bool t e' n f s) (set_bool_public t n f s)
  | |- context [set_u64 ?t e ?n ?f ?s] => fallible (set_u64 t e' n f s) (set_u64_public t n f s)
  | |- context [set_at_most ?m ?t e ?n ?f ?s] => fallible (set_at_most m t e' n f s) (set_at_most_public m t n f s)
  end.
(** Variables the section reads itself. *)
Ltac public name := rewrite (env_public name); [|reflexivity].
Ltac same_section := split_and!; [|done|done]; cbn [fst]; unfold redact_coordinator, redact_relay, redact_console; f_equal; assumption.

Lemma apply_coordinator_alike c s w :
  result_rel (alike redact_coordinator) (apply_coordinator c e s w) (apply_coordinator c e' s w).
Proof.
  unfold apply_coordinator. public "BLAKTAIL_DATABASE"%string. public "BLAKTAIL_DB_PATH"%string. do 6 setter.
  match goal with |- result_rel _ (result_bind ?x _) _ => destruct x as [[[? ?] ?]|]; cbn [result_bind]; [|reflexivity] end.
  do 10 setter. same_section.
Qed.

Lemma apply_relay_alike c s w : result_rel (alike redact_relay) (apply_relay c e s w) (apply_relay c e' s w).
Proof. unfold apply_relay, set_u32. do 9 setter. same_section. Qed.

Lemma apply_agent_same c s w : apply_agent c e s w = apply_agent c e' s w.
Proof.
  unfold apply_agent. public "BLAKTAIL_COORDINATOR_URL"%string. public "BLAKTAIL_AGENT_COORD_URL"%string. do 2 setter.
  match goal with |- result_bind ?x _ = _ => destruct x as [[[? ?] ?]|]; cbn [result_bind]; [|reflexivity] end.
  by do 3 setter.
Qed.

Lemma apply_console_alike c s w : result_rel (alike redact_console) (apply_console c e s w) (apply_console c e' s w).
Proof.
  unfold apply_console. public "PORT"%string. setter.
  match goal with |- result_rel _ (result_bind ?x _) _ => destruct x as [[? ?]|]; cbn [result_bind]; [|reflexivity] end.
  do 7 setter. same_section.
Qed.

Lemma apply_section_alike {A B} (f : A → B) apply b c s w :
  (∀ c s w, result_rel (alike f) (apply c e s w) (apply c e' s w)) →
  result_rel (alike f) (apply_section apply b c e s w) (apply_section apply b c e' s w).
Proof. intros Ha. unfold apply_section. destruct b; [apply Ha|done]. Qed.

Lemma apply_environment_alike c service s :
  result_rel (alike redact_config) (apply_environment c service e s) (apply_environment c service e' s).
Proof.
  unfold apply_environment, set_usize. do 3 setter.
  eapply bind_rel; [apply (apply_section_alike redact_coordinator), apply_coordinator_alike|]. intros [[co s1] w1] [[co' s1'] w1'] (Hco & Hs & Hw).
  cbn in Hco, Hs, Hw. subst s1' w1'.
  eapply bind_rel; [apply (apply_section_alike redact_relay), apply_relay_alike|]. intros [[re s2] w2] [[re' s2'] w2'] (Hre & Hs & Hw).
  cbn in Hre, Hs, Hw. subst s2' w2'.
  eapply bind_rel; [apply (apply_section_alike id); intros ???; rewrite apply_agent_same; by destruct (apply_agent _ _ _ _)|].
  intros [[ag s3] w3] [[ag' s3'] w3'] (Hag & Hs & Hw). cbn in Hag, Hs, Hw. subst ag' s3' w3'.
  eapply bind_rel; [apply (apply_section_alike redact_console), apply_console_alike|]. intros [[cn s4] w4] [[cn' s4'] w4'] (Hcn & Hs & Hw).
  cbn in Hcn, Hs, Hw. subst s4' w4'. split_and!; [|done|done]. unfold redact_config. cbn [fst schema_version profile diagnostics
    coordinator relay agent console]. by rewrite Hco Hre Hcn.
Qed.

End environments.

(** ** Secrecy *)

(** Two hosts that read the same configuration: the TOML reader and the contents of the
    configuration file are the same, and nothing is said of any other file. *)
Definition same_file (h h' : ConfigHost) (path : option str) : Prop :=
  (∀ parse input, @toml_config h parse input = @toml_config h' parse input) ∧ (∀ input, @toml_value h input = @toml_value h' input) ∧
  ∀ p, path = Some p → @read_file h p = @read_file h' p.

Lemma read_root_same h h' p s : same_file h h' (Some p) → @read_root h p s = @read_root h' p s.
Proof.
  intros (Hc & Hv & Hr). unfold read_root, read_to_string, parse_root_config. rewrite (Hr p eq_refl).
  destruct (@read_file h' p) as [bs|]; simpl; [|done]. destruct (utf8_ok bs); simpl; [|done]. by rewrite Hc Hv.
Qed.

Lemma alike_dump h h' c c' s w service e e' p ss :
  redact_config c = redact_config c' →
  redacted_dump (mkLoadedConfig (@fingerprint_secrets h c service e) s w (take_secret_environment (@fingerprint_secrets h c service e) e) p) ss =
  redacted_dump (mkLoadedConfig (@fingerprint_secrets h' c' service e') s w (take_secret_environment (@fingerprint_secrets h' c' service e') e') p) ss.
Proof.
  intros Hc. unfold redacted_dump. cbn [config sources warnings].
  by rewrite -(root_fields_redacted (@fingerprint_secrets h _ _ _)) -(root_fields_redacted (@fingerprint_secrets h' _ _ _)) !fingerprints_redacted Hc.
Qed.

(** [C22] What is printed of a configuration does not depend on a secret.  Two loads
    with the same configuration file, under environments that agree on every variable
    but those marked secret, where they agree on which are set, and with anything in
    the files the secrets are read from, print the same dump for every service, or fail
    with the same error. *)
Theorem dump_hides_secrets (h h' : ConfigHost) (path : option str) (service : Service) (e e' : Environment)
    (Hfile : same_file h h' path) (Henv : same_public e e') :
  match @load_with_environment h path service e, @load_with_environment h' path service e' with
  | Ok l, Ok l' => ∀ shown, redacted_dump l shown = redacted_dump l' shown
  | Err error, Err error' => error = error'
  | _, _ => False
  end.
Proof.
  change (result_rel (λ l l', ∀ shown, redacted_dump l shown = redacted_dump l' shown)
            (@load_with_environment h path service e) (@load_with_environment h' path service e')).
  unfold load_with_environment. apply (bind_rel eq).
  - destruct path as [p|]; [rewrite (read_root_same h h' p _ Hfile)|done]. by destruct (read_root p _).
  - intros [c s] ? <-. apply (bind_rel (alike redact_config)); [by apply apply_environment_alike|].
    intros [[c1 s1] w1] [[c2 s2] w2] (Hc & Hs & Hw). cbn in Hc, Hs, Hw. subst s2 w2. intros shown. by apply alike_dump.
Qed.

(** ** Validation *)

(** A reference that resolves to at least [minimum] bytes. *)
Definition strong `{H : ConfigHost} (loaded : LoadedConfig) (minimum : Z) (r : option SecretRef) : Prop :=
  ∃ reference v, r = Some reference ∧ (∀ field, secret loaded reference field = Ok v) ∧ minimum ≤ len v.

(** The metrics listener is on loopback or behind a token. *)
Definition guarded `{H : ConfigHost} (loaded : LoadedConfig) (bind : str) (token : option SecretRef) : Prop :=
  ∃ a, Dns.parse_socket_addr bind = Some a ∧ Dns.rs_port a ≠ 0 ∧ (is_loopback (Dns.rs_ip a) = true ∨ strong loaded 32 token).

(** HTTPS, or a loopback host. *)
Definition encrypted `{H : ConfigHost} (text : str) : Prop :=
  ∃ url, parse_url text = Some url ∧ (u_scheme url = lit "https" ∨ url_host_is_loopback url = true) ∧ has_credentials url = false.

Section validated.
Context `{H : ConfigHost} (loaded : LoadedConfig).

Lemma when_nil b f m : when b f m = [] ↔ b = false.
Proof. by destruct b. Qed.

Lemma secret_ok r f v : secret loaded r f = Ok v → ∀ g, secret loaded r g = Ok v.
Proof. destruct r as [p fp|n fp]; unfold secret; [by destruct (read_file p)|by destruct (BTree.get n _)]. Qed.

Lemma with_secret_nil r f k : with_secret loaded r f k = [] → ∃ reference v, r = Some reference ∧ secret loaded reference f = Ok v ∧ k v = [].
Proof.
  unfold with_secret. destruct r as [r|]; [|done]. destruct (match r with SFile _ _ => _ | _ => _ end); [done|].
  destruct (secret loaded r f) as [v|] eqn:Hv; [|done]. intros Hk. by exists r, v.
Qed.

Lemma validate_secret_nil r f m : validate_secret loaded r f m = [] → strong loaded m r.
Proof.
  intros (reference & v & -> & Hv & Hk)%with_secret_nil. destruct (m <=? len v) eqn:Hm; [|done].
  exists reference, v. split_and!; [done|by apply (secret_ok _ f)|lia].
Qed.

Lemma validate_text_secret_nil r f m : validate_text_secret loaded r f m = [] → strong loaded m r.
Proof.
  intros (reference & v & -> & Hv & Hk)%with_secret_nil. destruct (len v <? m) eqn:Hm; [done|].
  exists reference, v. split_and!; [done|by apply (secret_ok _ f)|lia].
Qed.

Lemma validate_guarded bind token public f g :
  validate_bind bind f true public = [] →
  (if public || bool_decide (is_Some token) then validate_secret loaded token g 32 else []) = [] → guarded loaded bind token.
Proof.
  unfold validate_bind. destruct (Dns.parse_socket_addr bind) as [a|] eqn:Ha; [|done]. destruct (Dns.rs_port a =? 0) eqn:Hp; [done|].
  rewrite when_nil. intros Hb Ht. exists a. split_and!; [done|lia|]. destruct (is_loopback (Dns.rs_ip a)); [by left|right].
  destruct public; [|done]. by apply (validate_secret_nil _ g).
Qed.

Lemma validate_http_url_nil text f : validate_http_url text f = [] → encrypted text.
Proof.
  unfold validate_http_url, encrypted. destruct (parse_url text) as [url|] eqn:Hu; [|done]. rewrite !app_nil !when_nil.
  intros (_ & _ & Hs & Hc & _). exists url. split_and!; [done| |done]. unfold seq_b in Hs.
  case_bool_decide; [by left|right]. case_bool_decide; simpl in Hs; [|done]. by apply negb_false_iff in Hs.
Qed.

Lemma validate_origin_nil text f : validate_origin text f = [] → encrypted text.
Proof. unfold validate_origin. destruct (validate_http_url text f) eqn:Hv; [|done]. intros _. by apply (validate_http_url_nil _ f). Qed.

Lemma validate_each_nil v f l : validate_each v f l = [] → ∀ x, x ∈ l → ∃ g, v x g = [].
Proof.
  unfold validate_each. intros Hn%join_nil x [i Hi]%list_elem_of_lookup. eexists.
  apply (proj1 (Forall_forall _ _) Hn), (list_elem_of_lookup_2 _ i). rewrite list_lookup_imap Hi. done.
Qed.

Lemma trim_subset c t : c ∈ trim t → c ∈ t.
Proof.
  unfold trim, trim_end, trim_start. rewrite elem_of_reverse. intros Hc.
  destruct (OrgDnsStable.strip_many_suffix white_space (length t) t) as [p Hp]. set (u := strip_many white_space (length t) t) in *.
  destruct (OrgDnsStable.strip_many_suffix (map reverse white_space) (length u) (reverse u)) as [q Hq].
  rewrite Hp elem_of_app. right. rewrite -elem_of_reverse Hq elem_of_app. by right.
Qed.

(** The regions services may run in. *)
Definition in_country (region : str) : Prop :=
  to_ascii_lowercase (trim region) ∈
    [lit "ap-southeast-2"; lit "australiaeast"; lit "australiasoutheast"; lit "australia-southeast1"; lit "australia-southeast2"].

Lemma region_in_country region : is_australian_region region = true → in_country region.
Proof.
  unfold is_australian_region, in_country. rewrite !elem_of_cons !orb_true_iff. unfold seq_b. rewrite !bool_decide_eq_true. tauto.
Qed.

(** A relay entry that validates stays in the country, and its fallback is encrypted. *)
Definition approved (entry : str) : Prop :=
  (∀ region, (split_relay_entry entry).2 = Some region → in_country region) ∧
  (∀ text, relay_entry_wss entry = Some text →
     ∃ url, parse_url text = Some url ∧ u_scheme url = lit "wss" ∧ has_credentials url = false).

Lemma wss_encrypted text : wss_ok text = true → ∃ url, parse_url text = Some url ∧ u_scheme url = lit "wss" ∧ has_credentials url = false.
Proof.
  unfold wss_ok. destruct (parse_url text) as [url|]; [|done]. rewrite !andb_true_iff negb_true_iff. intros [[[Hs _] Hc] _].
  exists url. unfold seq_b in Hs. by apply bool_decide_eq_true in Hs.
Qed.

Lemma validate_relay_endpoint_nil entry f : validate_relay_endpoint entry f = [] → approved entry.
Proof.
  unfold validate_relay_endpoint, approved. rewrite app_nil. intros [Hw Hr]. split.
  - intros region He. destruct (split_relay_entry entry) as [value r]. simpl in He. subst r. rewrite app_nil !when_nil in Hr.
    destruct Hr as [Hr _]. by apply region_in_country, negb_false_iff.
  - intros url Hu. destruct (split_once 59 entry) as [[a b]|] eqn:Hs.
    + rewrite Hu when_nil in Hw. apply orb_false_iff in Hw as [Hw _]. by apply wss_encrypted, negb_false_iff.
    + exfalso. unfold relay_entry_wss, relay_entry_parts in Hu. destruct (split_once 59 (trim entry)) as [[a b]|] eqn:Ht; [|done].
      apply split_once_Some in Ht as [Ht _]. assert (59 ∈ entry) as Hin by (apply trim_subset; rewrite Ht; set_solver).
      destruct (list_elem_of_split_l _ _ Hin) as (x & y & -> & Hx). by rewrite split_once_app in Hs.
Qed.

(** What a validated configuration promises for each service. *)
Definition coordinator_sound : Prop :=
  let c := coordinator (config loaded) in
  in_country (co_region c) ∧ guarded loaded (co_metrics_bind c) (co_diagnostics_token c) ∧
  co_tls_mode c = lit "files" ∧ strong loaded 1 (co_tls_key c) ∧ strong loaded 32 (co_auth_hmac_secret c) ∧ encrypted (co_console_url c) ∧
  (∀ entry, entry ∈ co_relays c → strong loaded 32 (co_relay_auth_secret c) ∧ approved entry) ∧
  (co_database_backend c = lit "sqlite" → co_database_storage c = lit "efs" →
   profile (config loaded) = lit "e2e" ∧ co_allow_unsafe_efs_sqlite c = true).

Definition relay_sound : Prop :=
  let c := relay (config loaded) in
  in_country (re_region c) ∧ guarded loaded (re_metrics_bind c) (re_diagnostics_token c) ∧
  strong loaded 32 (re_auth_secret c) ∧ 1 ≤ re_rate_per_second c ≤ re_rate_burst c.

Definition console_sound : Prop :=
  let c := console (config loaded) in
  in_country (cn_region c) ∧ encrypted (cn_base_url c) ∧ encrypted (cn_coordinator_url c) ∧
  (∀ origin', origin' ∈ cn_trusted_origins c → encrypted origin') ∧
  (∀ base, origin (cn_base_url c) = Some base → ∃ value, value ∈ cn_trusted_origins c ∧ origin value = Some base) ∧
  strong loaded 32 (cn_auth_secret c) ∧ strong loaded 32 (cn_coordinator_auth_secret c).

(** A network: an address and a prefix length its family has. *)
Definition network (value : str) : Prop :=
  ∃ address prefix a p, split_once 47 value = Some (address, prefix) ∧ parse_ip address = Some a ∧ parse_u8 prefix = Some p ∧
    p ≤ (if is_ipv4 a then 32 else 128).

Definition agent_sound : Prop :=
  let c := agent (config loaded) in
  starts_with (lit "/") (ag_state_dir c) = true ∧ (∀ url, ag_coordinator_url c = Some url → encrypted url) ∧
  trim (ag_interface c) ≠ [] ∧ len (ag_interface c) ≤ 15 ∧ 1 ≤ ag_poll_seconds c ≤ 3600 ∧
  ∀ route, route ∈ ag_advertised_routes c → network route.

Lemma validate_cidr_nil value field : validate_cidr value field = [] → network value.
Proof.
  unfold validate_cidr, network. destruct (split_once 47 value) as [[address prefix]|]; [|done].
  destruct (parse_ip address) as [a|] eqn:Ha; [|done]. destruct (parse_u8 prefix) as [p|] eqn:Hp; [|done].
  case_match eqn:Hm; [done|]. intros _. exists address, prefix, a, p. split_and!; try done. lia.
Qed.

Lemma validate_agent_nil : validate_agent loaded = [] → agent_sound.
Proof.
  unfold validate_agent, agent_sound. set (c := agent (config loaded)). rewrite !app_nil !when_nil. unfold between.
  intros (Hdir & Hurl & Hint & Hpoll & Heach). apply orb_false_iff in Hdir as [_ Hdir%negb_false_iff].
  apply orb_false_iff in Hint as [Hi%bool_decide_eq_false Hlen]. split_and!; try done; [|lia..|].
  - intros url Hu. rewrite Hu in Hurl. by apply validate_http_url_nil in Hurl.
  - intros route Hr. destruct (validate_each_nil _ _ _ Heach route Hr) as [g Hg]. by apply validate_cidr_nil in Hg.
Qed.

Lemma validate_coordinator_nil : validate_coordinator loaded = [] → coordinator_sound.
Proof.
  unfold validate_coordinator, coordinator_sound. set (c := coordinator (config loaded)). rewrite !app_nil !when_nil.
  intros (Hr & _ & Hm & Ht & Hd & Hmode & _ & Hkey & Hhmac & Hrelay & Heach & Hurl). split_and!.
  - by apply region_in_country, negb_false_iff.
  - by apply (validate_guarded _ _ (co_allow_public_metrics c) (lit "coordinator.metrics_bind") (lit "coordinator.diagnostics_token")).
  - by apply negb_false_iff, bool_decide_eq_true in Hmode.
  - by apply validate_secret_nil in Hkey.
  - by apply validate_secret_nil in Hhmac.
  - by apply validate_http_url_nil in Hurl.
  - intros entry He. destruct (co_relays c) as [|x xs] eqn:Hx; [by apply elem_of_nil in He|]. simpl in Hrelay.
    split; [by apply validate_secret_nil in Hrelay|]. destruct (validate_each_nil _ _ _ Heach entry He) as [g Hg].
    by apply validate_relay_endpoint_nil in Hg.
  - intros Hb Hs. rewrite Hb in Hd. simpl in Hd. unfold validate_sqlite in Hd. fold c in Hd. rewrite !app_nil Hs in Hd.
    destruct Hd as (_ & _ & Hd). simpl in Hd. apply when_nil, orb_false_iff in Hd as [Hp%negb_false_iff%bool_decide_eq_true Ha%negb_false_iff]. done.
Qed.

Lemma validate_relay_nil : validate_relay loaded = [] → relay_sound.
Proof.
  unfold validate_relay, relay_sound. set (c := relay (config loaded)). rewrite !app_nil !when_nil. unfold between.
  intros (Hr & _ & Hm & Ht & Ha & _ & Hrate & Hburst). split_and!.
  - by apply region_in_country, negb_false_iff.
  - by apply (validate_guarded _ _ (re_allow_public_metrics c) (lit "relay.metrics_bind") (lit "relay.diagnostics_token")).
  - by apply validate_secret_nil in Ha.
  - lia.
  - lia.
Qed.

Lemma validate_console_nil : validate_console loaded = [] → console_sound.
Proof.
  unfold validate_console, console_sound. set (c := console (config loaded)). rewrite !app_nil !when_nil.
  intros (Hr & _ & _ & Hbase & Hurl & _ & _ & Heach & Hin & Ha & Hc). split_and!.
  - by apply region_in_country, negb_false_iff.
  - by apply validate_origin_nil in Hbase.
  - by apply validate_http_url_nil in Hurl.
  - intros o Ho. destruct (validate_each_nil _ _ _ Heach o Ho) as [g Hg]. by apply validate_origin_nil in Hg.
  - intros base Hb. rewrite Hb in Hin. simpl in Hin. apply negb_false_iff, existsb_exists in Hin as (v & Hv & Hin).
    apply andb_true_iff in Hin as [_ Hin%bool_decide_eq_true]. exists v. by apply list_elem_of_In in Hv.
  - by apply validate_text_secret_nil in Ha.
  - by apply validate_text_secret_nil in Hc.
Qed.

(** [C25] A configuration that validates for a service is safe to run for it.  The
    coordinator, the relay and the console stay in approved regions; a metrics listener
    is on loopback or has a token of at least thirty-two bytes; every shared secret of
    theirs resolves and has thirty-two bytes; the URLs that devices and browsers are
    sent to, the agent's own one for the coordinator included, are encrypted, or on
    loopback; relays of a region that is not approved, or with a fallback in clear, are
    refused; SQLite on a network file system passes only in the end-to-end profile;
    the console trusts its own origin; and the agent's state directory is absolute, its
    interval between a second and an hour, and its advertised routes networks. *)
Theorem validated_is_safe (service : Service) (Hok : validate loaded service = Ok tt) :
  (selects service Coordinator = true → coordinator_sound) ∧ (selects service Relay = true → relay_sound) ∧
  (selects service Agent = true → agent_sound) ∧ (selects service Console = true → console_sound).
Proof.
  revert Hok. unfold validate. destruct (violations loaded service) as [|v vs] eqn:Hv; [|done]. intros _. revert Hv. unfold violations.
  rewrite !app_nil. intros (_ & _ & _ & _ & Hc & Hr & Ha & Hn). split_and!; intros Hs.
  - rewrite Hs in Hc. by apply validate_coordinator_nil.
  - rewrite Hs in Hr. by apply validate_relay_nil.
  - rewrite Hs in Ha. by apply validate_agent_nil.
  - rewrite Hs in Hn. by apply validate_console_nil.
Qed.

End validated.

(** ** Loads with other secrets *)

Definition demo_relay (secret : string) : Environment := [(lit "BLAKTAIL_RELAY_AUTH_SECRET", lit secret); (lit "PORT", lit "3000")].

Lemma demo_relay_public s s' : lit s ≠ [] → lit s' ≠ [] → same_public (demo_relay s) (demo_relay s').
Proof.
  intros Hs Hs' name. unfold env, BTree.get. cbn [demo_relay find fst]. case_bool_decide as Hn.
  - rewrite -Hn. replace (is_secret _) with true by (vm_compute; reflexivity). cbn. by rewrite !bool_decide_eq_false_2.
  - destruct (is_secret _); [|done]. done.
Qed.

Lemma dump_hides_secrets_witness :
  is_ok (@load_with_environment (ConfigProps.demo_host []) None All (demo_relay "one")) = true ∧
  match @load_with_environment (ConfigProps.demo_host []) None All (demo_relay "one"),
        @load_with_environment (ConfigProps.demo_host (lit "x")) None All (demo_relay "two") with
  | Ok l, Ok l' => ∀ shown, redacted_dump l shown = redacted_dump l' shown
  | Err error, Err error' => error = error'
  | _, _ => False
  end.
Proof.
  split; [vm_compute; reflexivity|]. apply (dump_hides_secrets (ConfigProps.demo_host []) (ConfigProps.demo_host (lit "x")) None All).
  - split_and!; done.
  - by apply demo_relay_public.
Defined.

(** ** A deployment of all services *)

Definition demo_url (text : str) : option Url :=
  '(scheme, rest) ← split_once 58 text;
  rest ← strip_prefix (lit "//") rest;
  let authority := match split_once 47 rest with Some (a, _) => a | None => rest end in
  let '(name, port) := match split_once 58 authority with Some (n, p) => (n, parse_u16 p) | None => (authority, None) end in
  Some (mkUrl scheme (Some (Domain name)) (Some name) port [] None (lit "/") None None).

Definition demo_cloud : ConfigHost := {|
  toml_config := λ _ _, Ok default_root;
  toml_value := λ _, Some (TTable []);
  parse_url := demo_url;
  log_filter_ok := λ _, true;
  sha256 := id;
  read_file := λ path, if seq_b path "/run/tls.key" then Ok (lit "key") else Err (lit "No such file or directory (os error 2)");
  regular_file := λ _, Ok true
|}.

Definition demo_variables : Environment :=
  [(lit "BETTER_AUTH_SECRET", lit "0123456789abcdef0123456789abcdef"); (lit "BETTER_AUTH_TRUSTED_ORIGINS", lit "https://console.example");
   (lit "BETTER_AUTH_URL", lit "https://console.example"); (lit "BLAKTAIL_AGENT_ADVERTISE_ROUTES", lit "10.0.0.0/8");
   (lit "BLAKTAIL_AGENT_COORD_URL", lit "https://coordinator.example"); (lit "BLAKTAIL_AUTH_HMAC_SECRET", lit "fedcba9876543210fedcba9876543210");
   (lit "BLAKTAIL_CONSOLE_URL", lit "https://console.example"); (lit "BLAKTAIL_REGION", lit "ap-southeast-2");
   (lit "BLAKTAIL_RELAYS", lit "relay.example:3478#australiaeast;wss=wss://relay.example/v1/relay");
   (lit "BLAKTAIL_RELAY_AUTH_SECRET", lit "00112233445566778899aabbccddeeff"); (lit "BLAKTAIL_TLS_CERT", lit "/run/tls.crt");
   (lit "BLAKTAIL_TLS_KEY", lit "/run/tls.key"); (lit "COORD_BASE_URL", lit "https://coordinator.example");
   (lit "DATABASE_URL", lit "postgres://console@db.example/console")].

Definition demo_deployment : LoadedConfig :=
  match @load_with_environment demo_cloud None All demo_variables with
  | Ok l => l
  | Err _ => mkLoadedConfig default_root [] [] [] false
  end.

Lemma validated_is_safe_witness :
  @coordinator_sound demo_cloud demo_deployment ∧ @relay_sound demo_cloud demo_deployment ∧ @agent_sound demo_cloud demo_deployment ∧
  @console_sound demo_cloud demo_deployment ∧
  ag_coordinator_url (agent (config demo_deployment)) = Some (lit "https://coordinator.example") ∧
  ag_advertised_routes (agent (config demo_deployment)) = [lit "10.0.0.0/8"].
Proof.
  destruct (@validated_is_safe demo_cloud demo_deployment All) as (Hc & Hr & Ha & Hn); [vm_compute; reflexivity|].
  split_and!; [exact (Hc eq_refl)|exact (Hr eq_refl)|exact (Ha eq_refl)|exact (Hn eq_refl)|vm_compute; reflexivity..].
Defined.

End ConfigSecrecy.
