(* ===== verification/PublicIngress.v ===== *)
(** * Administration of public ingress

    [blaktail-coord/src/public_ingress.rs] with [designations.rs]: the public routes of
    one organisation, who may change them and how, which of them an ingress device is
    given, the feed it polls, its reports and the console's view.  Rows are typed and
    scoped to the organisation; errors carry their cause instead of their text.  The
    clock and new identifiers are arguments. *)

From S2P Require Import Prelude Text Net FlowReport Policy AclFilter CoordAcl CoordForward AppConnectors CoordRules Resources Posture Topology.

Module PublicIngress.
Import Resources Posture Topology.

Definition CAP_PUBLIC_INGRESS : str := lit "public-ingress".
Definition MAX_CONFIG_WAIT_SECS : Z := 20.
Definition STALE_AFTER_SECS : Z := 30.
Definition ONLINE_WINDOW_SECS : Z := 90.
Definition MAX_ROUTES : Z := 32.
Definition ENABLE_PHRASE : str := lit "PUBLIC".
Definition TLS_MODES : list str := [lit "operator_files"; lit "acme_http01"].
Definition AUTH_MODES : list str := [lit "none"; lit "oidc"].
Definition RATE_RANGE : Z * Z := (1, 60000).
Definition BODY_RANGE : Z * Z := (0, 100 * 1024 * 1024).
Definition CONNECTION_RANGE : Z * Z := (1, 4096).
Definition RETENTION_RANGE : Z * Z := (1, 365).
Definition MAX_REASON : nat := 200.
Definition MAX_CONTACT : nat := 200.

Inductive ApiError :=
| FqdnLength | FqdnIsAddress | FqdnLabels | FqdnLabel (label : str) | FqdnTld | FqdnReserved (tld : str)
| BadDomain (domain : str) | TooManyDomains | BadNetwork (cidr : str) | TooManyNetworks | OutOfRange (name : str)
| BadContact | ConfirmEnable | NoContact | BadTls | BadAuth | ConfirmHost (fqdn : str) | IngressOff | TooManyRoutes
| NoSuchService | ServiceNotHttp | NoSuchDevice | NoTarget | DuplicateHost | BadReason | TooManyReports
| NotFound | PreconditionFailed | Forbidden | Unauthorized | Suspended | CredentialExpired.

(** ** Validation *)

(** [v.trim().trim_end_matches('.').to_ascii_lowercase()] *)
Definition host_name (raw : str) : str := to_ascii_lowercase (trim_end_matches 46 (trim raw)).

Definition label_char (c : Z) : bool := is_ascii_lowercase c || is_ascii_digit c || (c =? 45).

Definition valid_label (label : str) : bool :=
  negb (bool_decide (label = [])) && (length label <=? 63)%nat && forallb label_char label
  && negb (starts_with [45] label) && negb (ends_with [45] label).

Definition RESERVED : list str :=
  [lit "blaktail"; lit "local"; lit "localhost"; lit "internal"; lit "arpa"; lit "test"; lit "invalid"; lit "example"; lit "home";
   lit "lan"; lit "corp"].

Definition validate_fqdn (raw : str) : result ApiError str :=
  let fqdn := host_name raw in
  let? _ := reject_if (bool_decide (fqdn = []) || (253 <? length fqdn)%nat) FqdnLength in
  let? _ := reject_if (bool_decide (is_Some (parse_ip fqdn))) FqdnIsAddress in
  let labels := Text.split 46 fqdn in
  let? _ := reject_if (length labels <? 2)%nat FqdnLabels in
  let? _ := try_each (λ label, reject_if (negb (valid_label label)) (FqdnLabel label)) labels in
  let tld := default [] (last labels) in
  let? _ := reject_if (forallb is_ascii_digit tld) FqdnTld in
  let? _ := try_each (λ reserved, reject_if (bool_decide (tld = reserved)) (FqdnReserved reserved)) RESERVED in
  Ok fqdn.

(** [trim_start_matches('@')] *)
Fixpoint trim_ats (s : str) : str := match s with c :: r => if c =? 64 then trim_ats r else s | [] => [] end.

Definition domain_char (c : Z) : bool := label_char c || (c =? 46).

(** An empty entry is skipped; [sort] and [dedup] leave the ascending set. *)
Definition canonical_domain (raw : str) : result ApiError (option str) :=
  let domain := to_ascii_lowercase (trim_ats (trim raw)) in
  if bool_decide (domain = []) then Ok None
  else if negb (contains_char 46 domain) || negb (forallb domain_char domain) then Err (BadDomain domain)
  else Ok (Some domain).

Definition canonical_domains (domains : list str) : result ApiError (list str) :=
  let? out := try_collect canonical_domain domains in
  let out := BTree.extend [] (omap id out) in
  let? _ := reject_if (16 <? length out)%nat TooManyDomains in
  Ok out.

Definition canonical_cidr (raw : str) : result ApiError (option str) :=
  let cidr := trim raw in
  if bool_decide (cidr = []) then Ok None
  else
    let '(address, prefix) := default (cidr, []) (split_once 47 cidr) in
    let? address := ok_or (parse_ip address) (BadNetwork cidr) in
    let max := if is_ipv4 address then 32 else 128 in
    let? prefix := if bool_decide (prefix = []) then Ok max else ok_or (parse_uint 10 U32_MAX prefix) (BadNetwork cidr) in
    let? _ := reject_if (max <? prefix) (BadNetwork cidr) in
    let network := match address with
                   | V4 a => V4 (mask_value 32 prefix a)
                   | V6 a => V6 (mask_value 128 prefix a)
                   end in
    Ok (Some (show_ip network ++ lit "/" ++ dec prefix)).

Definition canonical_cidrs (cidrs : list str) : result ApiError (list str) :=
  let? out := try_collect canonical_cidr cidrs in
  let out := BTree.extend [] (omap id out) in
  let? _ := reject_if (64 <? length out)%nat TooManyNetworks in
  Ok out.

Definition in_range (name : string) (value : Z) (range : Z * Z) : result ApiError Z :=
  if (range.1 <=? value) && (value <=? range.2) then Ok value else Err (OutOfRange (lit name)).

Definition printable (value : str) (max : nat) : bool := (length (chars value) <=? max)%nat && negb (existsb is_control (chars value)).

(** ** Rows *)

Record Limits := mkLimits {
  rate_limit_per_minute : Z;
  max_body_bytes : Z;
  max_connections : Z;
  log_retention_days : Z
}.

Record StoredRoute := mkStoredRoute {
  r_id : Uuid;
  r_fqdn : str;
  r_service : option Uuid;
  r_node : Uuid;
  r_port : Z;
  r_tls : str;
  r_auth : str;
  r_domains : list str;
  r_sources : list str;
  r_limits : Limits;
  r_enabled : bool;
  r_emergency_at : option Z;
  r_emergency_by : option str;
  r_emergency_reason : option str;
  r_revision : Z;
  r_created_at : Z;
  r_updated_at : Z
}.

Record Settings := mkSettings { s_enabled : bool; s_contact : str; s_updated_at : option Z }.

(** A row of [org_services]. *)
Record ServiceRow := mkServiceRow { sv_id : Uuid; sv_target : Uuid; sv_port : Z; sv_protocol : str; sv_enabled : bool }.

Record RouteReport := mkRouteReport {
  rr_route : Uuid;
  rr_not_after : option Z;
  rr_source : option str;
  rr_error : option str
}.

(** A row of [public_ingress_nodes]. *)
Record IngressRow := mkIngressRow { ir_node : Uuid; ir_last_config : Z; ir_revision : Z; ir_reports : list RouteReport }.

Record Entry := mkEntry { en_user : str; en_action : str; en_target : str }.

(** The rows of one organisation that these handlers read and write. *)
Record Org := mkOrg {
  org_id : Uuid;
  settings_row : option Settings;
  routes : list StoredRoute;
  devices : list DeviceRow;
  checks : BTree.map_of StoredCheck;
  acl : Acl;
  services : list ServiceRow;
  designated : list Uuid;
  ingress_rows : list IngressRow;
  control_revision : Z;
  audit : list Entry
}.

Record Session := mkSession { se_user : str; se_email : str; se_role : Role }.

Definition load_settings (o : Org) : Settings := default (mkSettings false [] None) (settings_row o).

Definition fqdn_le (a b : StoredRoute) : bool := negb (BTree.str_ltb (r_fqdn b) (r_fqdn a)).
Fixpoint insert_by_fqdn (r : StoredRoute) (l : list StoredRoute) : list StoredRoute :=
  match l with [] => [r] | s :: l' => if fqdn_le r s then r :: l else s :: insert_by_fqdn r l' end.

(** [ORDER BY fqdn] *)
Definition load_routes (o : Org) : list StoredRoute := foldr insert_by_fqdn [] (routes o).

Definition load_route (o : Org) (id : Uuid) : result ApiError StoredRoute :=
  ok_or (List.find (λ r, bool_decide (r_id r = id)) (routes o)) NotFound.

Definition with_routes (o : Org) (rs : list StoredRoute) : Org :=
  mkOrg (org_id o) (settings_row o) rs (devices o) (checks o) (acl o) (services o) (designated o) (ingress_rows o) (control_revision o) (audit o).

(** [append_audit], then [bump_control_revision]: the end of every change. *)
Definition finish (o : Org) (session : Session) (action : string) (target : str) : Org :=
  mkOrg (org_id o) (settings_row o) (routes o) (devices o) (checks o) (acl o) (services o) (designated o) (ingress_rows o) (control_revision o + 1)
    (audit o ++ [mkEntry (se_user session) (lit action) target]).

(** ** Delivery *)

Inductive DeliveryState :=
| OrganisationDisabled | EmergencyDisabled | Disabled | TargetUnavailable | TargetUnsupported | TargetIsIngress | BlockedByPolicy
| DeliveryActive | IngressNotCapable | IngressNotDesignated | IngressOffline | NoIngressNode.
#[export] Instance DeliveryState_eq_dec : EqDecision DeliveryState.
Proof. solve_decision. Defined.

Definition overlay_ipv4 (allowed_ips : list str) : option str :=
  head (omap (λ cidr,
    let '(address, prefix) := default (cidr, lit "32") (split_once 47 cidr) in
    if seq_b prefix "32" then match parse_ip address with Some (V4 a) => Some (show_v4 a) | _ => None end else None) allowed_ips).

(** Not revoked, deleted, suspended or expired. *)
Definition device_active (at_ : Z) (d : DeviceRow) : bool :=
  active (d_node d) && negb (on_suspended (d_node d)) && (at_ <? on_expires (d_node d)).

Definition row_id (d : DeviceRow) : Uuid := on_id (d_node d).

(** [OrgView::load] at [at_] *)
Record OrgView := mkOrgView {
  w_enabled : bool;
  w_acl : Acl;
  w_inputs : Inputs;
  w_active : list (Uuid * option str);
  w_services : list ServiceRow;
  w_now : Z
}.

Definition load_view (o : Org) (at_ : Z) : OrgView :=
  mkOrgView (s_enabled (load_settings o)) (acl o) (load_inputs (checks o) (devices o) at_)
    (map (λ d, (row_id d, overlay_ipv4 (d_allowed_ips d))) (List.filter (device_active at_) (devices o)))
    (List.filter sv_enabled (services o)) at_.

Definition address_of (w : OrgView) (node : Uuid) : option str :=
  x ← List.find (λ x : Uuid * option str, bool_decide (x.1 = node)) (w_active w); x.2.

Definition target (w : OrgView) (route : StoredRoute) : result DeliveryState (Uuid * Z * str) :=
  let? (node, port) :=
    match r_service route with
    | Some service =>
        match List.find (λ s, bool_decide (sv_id s = service)) (w_services w) with
        | Some s => if seq_b (sv_protocol s) "http" then Ok (sv_target s, sv_port s) else Err TargetUnsupported
        | None => Err TargetUnavailable
        end
    | None => Ok (r_node route, r_port route)
    end in
  match address_of w node with
  | Some address => Ok (node, port, address)
  | None => Err TargetUnavailable
  end.

(** Policy lets the ingress open TCP connections to the port. *)
Definition policy_allows (w : OrgView) (ingress node : Uuid) (port : Z) : option bool :=
  _ ← facts_of (in_ctx (w_inputs w)) !! ingress;
  facts ← facts_of (in_ctx (w_inputs w)) !! node;
  source ← device_subject (w_inputs w) ingress;
  destination ← device_subject (w_inputs w) node;
  Some (decision (flow (w_acl w) (w_now w) source destination facts (Some AclTcp) (Some port))).

Definition state (w : OrgView) (route : StoredRoute) (ingress : Uuid) : DeliveryState :=
  if negb (w_enabled w) then OrganisationDisabled
  else if bool_decide (is_Some (r_emergency_at route)) then EmergencyDisabled
  else if negb (r_enabled route) then Disabled
  else match target w route with
       | Err e => e
       | Ok (node, port, _) =>
           if bool_decide (node = ingress) then TargetIsIngress
           else match policy_allows w ingress node port with
                | None => TargetUnavailable
                | Some true => DeliveryActive
                | Some false => BlockedByPolicy
                end
       end.

Record DeliveredRoute := mkDeliveredRoute {
  dr_id : Uuid;
  dr_fqdn : str;
  dr_address : str;
  dr_port : Z;
  dr_tls : str;
  dr_auth : str;
  dr_domains : list str;
  dr_sources : list str;
  dr_limits : Limits;
  dr_revision : Z
}.

Definition deliver (w : OrgView) (node_id : Uuid) (route : StoredRoute) : option DeliveredRoute :=
  if bool_decide (state w route node_id = DeliveryActive) then
    match target w route with
    | Ok (_, port, address) =>
        Some (mkDeliveredRoute (r_id route) (r_fqdn route) address port (r_tls route) (r_auth route) (r_domains route) (r_sources route)
                (r_limits route) (r_revision route))
    | Err _ => None
    end
  else None.

(** The view is loaded first, the routes after it. *)
Definition deliverable (w : OrgView) (rows : list StoredRoute) (node_id : Uuid) : list DeliveredRoute := omap (deliver w node_id) rows.

(** ** Changes from the console *)

Definition require (session : Session) (p : Permission) : result ApiError unit := reject_if (negb (can (se_role session) p)) Forbidden.

Record SettingsInput := mkSettingsInput { si_enabled : bool; si_contact : option str; si_confirm : option str }.

Definition put_settings (session : Session) (input : SettingsInput) (at_ : Z) (o : Org) : result ApiError Org :=
  let? _ := require session ManagePublicIngress in
  let current := load_settings o in
  let contact := match si_contact input with Some c => trim c | None => s_contact current end in
  let? _ := reject_if (negb (printable contact MAX_CONTACT)) BadContact in
  let? _ := if si_enabled input then
              let? _ := reject_if (negb (bool_decide (si_confirm input = Some ENABLE_PHRASE))) ConfirmEnable in
              reject_if (negb (contains_char 64 contact || starts_with (lit "https://") contact)) NoContact
            else Ok tt in
  let o := mkOrg (org_id o) (Some (mkSettings (si_enabled input) contact (Some at_))) (routes o) (devices o) (checks o) (acl o) (services o)
             (designated o) (ingress_rows o) (control_revision o) (audit o) in
  Ok (finish o session (match s_enabled current, si_enabled input with
                        | false, true => "public_ingress.enabled"
                        | true, false => "public_ingress.disabled"
                        | _, _ => "public_ingress.updated"
                        end) (org_id o)).

(** [designations::set] for this role *)
Definition designate_node (session : Session) (node_id : Uuid) (designate : bool) (o : Org) : result ApiError Org :=
  let? _ := require session ManagePublicIngress in
  let? _ := ok_or (List.find (λ d, bool_decide (row_id d = node_id) && active (d_node d)) (devices o)) NotFound in
  let held := bool_decide (node_id ∈ designated o) in
  if Bool.eqb held designate then Ok o
  else
    let now_designated := if designate then designated o ++ [node_id]
                          else List.filter (λ id, negb (bool_decide (id = node_id))) (designated o) in
    let o := mkOrg (org_id o) (settings_row o) (routes o) (devices o) (checks o) (acl o) (services o) now_designated (ingress_rows o)
               (control_revision o) (audit o) in
    Ok (finish o session (if designate then "node.role.designated" else "node.role.released") node_id).

Definition check_target (o : Org) (service_id node_id : option Uuid) (port : option Z) : result ApiError (option Uuid * Uuid * Z) :=
  match service_id, node_id, port with
  | Some service, None, None =>
      let? s := ok_or (List.find (λ s, bool_decide (sv_id s = service)) (services o)) NoSuchService in
      let? _ := reject_if (negb (seq_b (sv_protocol s) "http")) ServiceNotHttp in
      Ok (Some service, sv_target s, sv_port s)
  | None, Some node, Some port =>
      if port =? 0 then Err NoTarget
      else
        let? _ := ok_or (List.find (λ d, bool_decide (row_id d = node) && active (d_node d)) (devices o)) NoSuchDevice in
        Ok (None, node, port)
  | _, _, _ => Err NoTarget
  end.

Definition check_modes (tls auth : str) : result ApiError unit :=
  let? _ := reject_if (negb (bool_decide (tls ∈ TLS_MODES))) BadTls in
  reject_if (negb (bool_decide (auth ∈ AUTH_MODES))) BadAuth.

Definition check_limits (l : Limits) : result ApiError unit :=
  let? _ := in_range "rate_limit_per_minute" (rate_limit_per_minute l) RATE_RANGE in
  let? _ := in_range "max_body_bytes" (max_body_bytes l) BODY_RANGE in
  let? _ := in_range "max_connections" (max_connections l) CONNECTION_RANGE in
  let? _ := in_range "log_retention_days" (log_retention_days l) RETENTION_RANGE in
  Ok tt.

Record RouteInput := mkRouteInput {
  i_fqdn : str;
  i_confirm : str;
  i_service : option Uuid;
  i_node : option Uuid;
  i_port : option Z;
  i_tls : str;
  i_auth : str;
  i_domains : list str;
  i_sources : list str;
  i_limits : Limits
}.

Definition create_route (session : Session) (input : RouteInput) (at_ : Z) (id : Uuid) (o : Org) : result ApiError Org :=
  let? _ := require session ManagePublicIngress in
  let? fqdn := validate_fqdn (i_fqdn input) in
  let? _ := reject_if (negb (bool_decide (host_name (i_confirm input) = fqdn))) (ConfirmHost fqdn) in
  let tls := trim (i_tls input) in
  let auth := trim (i_auth input) in
  let? _ := check_modes tls auth in
  let? domains := canonical_domains (i_domains input) in
  let? sources := canonical_cidrs (i_sources input) in
  let? _ := check_limits (i_limits input) in
  let? _ := reject_if (negb (s_enabled (load_settings o))) IngressOff in
  let? _ := reject_if (MAX_ROUTES <=? len (routes o)) TooManyRoutes in
  let? (service, node, port) := check_target o (i_service input) (i_node input) (i_port input) in
  let? _ := reject_if (existsb (λ r, bool_decide (r_fqdn r = fqdn)) (routes o)) DuplicateHost in
  let r := mkStoredRoute id fqdn service node port tls auth domains sources (i_limits input) true None None None 1 at_ at_ in
  Ok (finish (with_routes o (routes o ++ [r])) session "public_route.created" id).

Record RoutePatch := mkRoutePatch {
  p_revision : Z;
  p_confirm : option str;
  p_enabled : option bool;
  p_tls : option str;
  p_auth : option str;
  p_domains : option (list str);
  p_sources : option (list str);
  p_rate : option Z;
  p_body : option Z;
  p_connections : option Z;
  p_retention : option Z
}.

Definition replace_route (r : StoredRoute) (rs : list StoredRoute) : list StoredRoute :=
  map (λ s, if bool_decide (r_id s = r_id r) then r else s) rs.

Definition is_live (r : StoredRoute) : bool := r_enabled r && bool_decide (r_emergency_at r = None).

Definition update_route (session : Session) (route_id : Uuid) (input : RoutePatch) (at_ : Z) (o : Org) : result ApiError Org :=
  let? _ := require session ManagePublicIngress in
  let? current := load_route o route_id in
  let? _ := reject_if (negb (p_revision input =? r_revision current)) PreconditionFailed in
  let was_live := is_live current in
  let enabled := default was_live (p_enabled input) in
  let tls := default (r_tls current) (trim <$> p_tls input) in
  let auth := default (r_auth current) (trim <$> p_auth input) in
  let? _ := check_modes tls auth in
  let? domains := match p_domains input with Some d => canonical_domains d | None => Ok (r_domains current) end in
  let? sources := match p_sources input with Some c => canonical_cidrs c | None => Ok (r_sources current) end in
  let limits := mkLimits (default (rate_limit_per_minute (r_limits current)) (p_rate input))
                  (default (max_body_bytes (r_limits current)) (p_body input))
                  (default (max_connections (r_limits current)) (p_connections input))
                  (default (log_retention_days (r_limits current)) (p_retention input)) in
  let? _ := check_limits limits in
  let widens := (enabled && negb was_live) || (seq_b (r_auth current) "oidc" && seq_b auth "none")
                || (negb (bool_decide (r_sources current = [])) && bool_decide (sources = [])) in
  let? _ := reject_if (widens && negb (bool_decide (host_name <$> p_confirm input = Some (r_fqdn current)))) (ConfirmHost (r_fqdn current)) in
  let? _ := reject_if (enabled && negb was_live && negb (s_enabled (load_settings o))) IngressOff in
  let clear := enabled && bool_decide (is_Some (r_emergency_at current)) in
  let r := mkStoredRoute (r_id current) (r_fqdn current) (r_service current) (r_node current) (r_port current) tls auth domains sources limits
             enabled (if clear then None else r_emergency_at current) (if clear then None else r_emergency_by current)
             (if clear then None else r_emergency_reason current) (r_revision current + 1) (r_created_at current) at_ in
  Ok (finish (with_routes o (replace_route r (routes o))) session
        (match was_live, enabled with
         | false, true => "public_route.enabled"
         | true, false => "public_route.disabled"
         | _, _ => "public_route.updated"
         end) route_id).

Definition coalesce {A} (o : option A) (a : A) : option A := match o with Some x => Some x | None => Some a end.

Definition emergency_disable (session : Session) (route_id : Uuid) (reason : str) (at_ : Z) (o : Org) : result ApiError Org :=
  let? _ := reject_if (negb (can (se_role session) ManageServices) && negb (can (se_role session) ManagePublicIngress)) Forbidden in
  let reason := trim reason in
  let? _ := reject_if (negb (printable reason MAX_REASON)) BadReason in
  let? c := load_route o route_id in
  let actor := if bool_decide (se_email session = []) then se_user session else se_email session in
  let r := mkStoredRoute (r_id c) (r_fqdn c) (r_service c) (r_node c) (r_port c) (r_tls c) (r_auth c) (r_domains c) (r_sources c) (r_limits c)
             false (coalesce (r_emergency_at c) at_) (coalesce (r_emergency_by c) actor) (coalesce (r_emergency_reason c) reason)
             (r_revision c + 1) (r_created_at c) at_ in
  Ok (finish (with_routes o (replace_route r (routes o))) session "public_route.emergency_disabled" route_id).

Definition delete_route (session : Session) (route_id : Uuid) (o : Org) : result ApiError Org :=
  let? _ := require session ManagePublicIngress in
  let? _ := load_route o route_id in
  Ok (finish (with_routes o (List.filter (λ r, negb (bool_decide (r_id r = route_id))) (routes o))) session "public_route.deleted" route_id).

(** ** The feed *)

Definition capable (n : OrgNode) : bool := existsb (λ c, bool_decide (c = CAP_PUBLIC_INGRESS)) (on_capabilities n).

(** [ingress_node], the token given by its hash *)
Definition ingress_node (node_id : Uuid) (token : str) (at_ : Z) (o : Org) : result ApiError unit :=
  let? d := ok_or (List.find (λ d, bool_decide (row_id d = node_id) && bool_decide (on_token_hash (d_node d) = token)
                                   && active (d_node d)) (devices o)) Unauthorized in
  let? _ := reject_if (on_suspended (d_node d)) Suspended in
  let? _ := reject_if (on_expires (d_node d) <=? at_) CredentialExpired in
  let? _ := reject_if (negb (capable (d_node d))) Forbidden in
  reject_if (negb (bool_decide (node_id ∈ designated o))) Forbidden.

Record IngressConfig := mkIngressConfig { cfg_revision : Z; cfg_stale_after : Z; cfg_routes : list DeliveredRoute }.

Definition upsert_ingress (row : IngressRow) (o : Org) : Org :=
  let others := List.filter (λ r, negb (bool_decide (ir_node r = ir_node row))) (ingress_rows o) in
  mkOrg (org_id o) (settings_row o) (routes o) (devices o) (checks o) (acl o) (services o) (designated o) (others ++ [row]) (control_revision o) (audit o).

Definition reports_of (o : Org) (node_id : Uuid) : list RouteReport :=
  default [] (ir_reports <$> List.find (λ r, bool_decide (ir_node r = node_id)) (ingress_rows o)).

(** One turn of the loop of [node_config]: sleep again, or answer with the revision
    read and whether it is a change; the row is written before the routes are read. *)
Inductive Turn := Sleep | Answer (revision : Z) (changed : bool).

Definition poll_turn (since : Z) (waited : bool) (o : Org) : Turn :=
  let changed := (since =? 0) || negb (control_revision o =? since) in
  if changed || waited then Answer (control_revision o) changed else Sleep.

Definition record_poll (node_id : Uuid) (revision at_ : Z) (o : Org) : Org :=
  upsert_ingress (mkIngressRow node_id at_ revision (reports_of o node_id)) o.

(** [wait] in seconds; the time waited so far in nanoseconds. *)
Definition waited_out (wait elapsed : Z) : bool := secs (Z.min wait MAX_CONFIG_WAIT_SECS) <=? elapsed.

Definition config_of (revision : Z) (w : OrgView) (rows : list StoredRoute) (node_id : Uuid) : IngressConfig :=
  mkIngressConfig revision STALE_AFTER_SECS (deliverable w rows node_id).

(** ** Reports *)

Definition clean_report (r : RouteReport) : RouteReport :=
  mkRouteReport (rr_route r) (rr_not_after r)
    (v ← rr_source r; if printable v 32 then Some (trim v) else None)
    ((λ v, concat (take MAX_REASON (List.filter (λ c, negb (is_control c)) (chars v)))) <$> rr_error r).

(** [node_report]: a first row takes the time of the report as its last poll. *)
Definition node_report (node_id : Uuid) (token : str) (reports : list RouteReport) (at_ : Z) (o : Org) : result ApiError Org :=
  let? _ := ingress_node node_id token at_ o in
  let? _ := reject_if (MAX_ROUTES <? len reports) TooManyReports in
  let known := map r_id (load_routes o) in
  let reports := map clean_report (List.filter (λ r, bool_decide (rr_route r ∈ known)) reports) in
  let row := match List.find (λ r, bool_decide (ir_node r = node_id)) (ingress_rows o) with
             | Some old => mkIngressRow node_id (ir_last_config old) (ir_revision old) reports
             | None => mkIngressRow node_id at_ 0 reports
             end in
  Ok (upsert_ingress row o).

(** ** The console *)

Record IngressNode := mkIngressNode { gn_id : Uuid; gn_capable : bool; gn_designated : bool; gn_last_config : option Z }.

Definition ingress_nodes (o : Org) : list IngressNode :=
  omap (λ d, let row := List.find (λ r, bool_decide (ir_node r = row_id d)) (ingress_rows o) in
             let n := mkIngressNode (row_id d) (capable (d_node d)) (bool_decide (row_id d ∈ designated o)) (ir_last_config <$> row) in
             if negb (active (d_node d)) || (negb (gn_capable n) && negb (gn_designated n) && bool_decide (gn_last_config n = None))
             then None else Some n) (devices o).

Definition node_online (at_ : Z) (n : IngressNode) : bool :=
  gn_capable n && gn_designated n && match gn_last_config n with Some seen => at_ - seen <=? ONLINE_WINDOW_SECS | None => false end.

Definition shown_state (w : OrgView) (at_ : Z) (route : StoredRoute) (n : IngressNode) : DeliveryState :=
  let s := if negb (gn_capable n) then IngressNotCapable
           else if negb (gn_designated n) then IngressNotDesignated
           else state w route (gn_id n) in
  if bool_decide (s = DeliveryActive) && negb (node_online at_ n) then IngressOffline else s.

Definition NIL : Uuid := lit "00000000-0000-0000-0000-000000000000".

Definition shown_status (w : OrgView) (at_ : Z) (nodes : list IngressNode) (route : StoredRoute) : DeliveryState :=
  let states := map (shown_state w at_ route) nodes in
  if existsb (λ s, bool_decide (s = DeliveryActive)) states then DeliveryActive
  else match states with
       | first :: _ => first
       | [] =>
           match state w route NIL with
           | (OrganisationDisabled | EmergencyDisabled | Disabled | TargetUnavailable | TargetUnsupported) as s => s
           | _ => NoIngressNode
           end
       end.

Definition workspace (session : Session) (at_ : Z) (o : Org) : result ApiError (list (StoredRoute * DeliveryState * list DeliveryState)) :=
  let? _ := require session ViewNetwork in
  let w := load_view o at_ in
  let nodes := ingress_nodes o in
  Ok (map (λ r, (r, shown_status w at_ nodes r, map (shown_state w at_ r) nodes)) (load_routes o)).

End PublicIngress.
