(* ===== verification/PublicIngressProps.v ===== *)
(** * Who opens a public route

    The operations of [PublicIngress] as steps on an organisation: what they keep, and
    what it takes to put a hostname on the Internet. *)

From S2P Require Import Prelude Text Net FlowReport Policy AclFilter CoordAcl CoordProps CoordForward AppConnectors CoordRules Resources Posture Topology RoutesProps OrgDnsProps Ingress PublicIngress.

Module PublicIngressProps.
Import Resources Posture Topology PublicIngress.

(** ** Operations *)

(** [Elsewhere] is what the rest of the coordinator does to the rows this component
    only reads, with or without a new revision. *)
Inductive Op :=
| PutSettings (s : Session) (input : SettingsInput)
| Designate (s : Session) (node : Uuid) (designate : bool)
| CreateRoute (s : Session) (input : RouteInput) (id : Uuid)
| UpdateRoute (s : Session) (id : Uuid) (input : RoutePatch)
| Emergency (s : Session) (id : Uuid) (reason : str)
| DeleteRoute (s : Session) (id : Uuid)
| Report (node : Uuid) (token : str) (reports : list RouteReport)
| Polled (node : Uuid) (revision : Z)
| Elsewhere (ds : list DeviceRow) (cs : BTree.map_of StoredCheck) (a : Acl) (ss : list ServiceRow) (bumps : nat).

Definition elsewhere (ds : list DeviceRow) (cs : BTree.map_of StoredCheck) (a : Acl) (ss : list ServiceRow) (bumps : nat) (o : Org) : Org :=
  mkOrg (org_id o) (settings_row o) (routes o) ds cs a ss (designated o) (ingress_rows o) (control_revision o + Z.of_nat bumps) (audit o).

Definition run (at_ : Z) (op : Op) (o : Org) : result ApiError Org :=
  match op with
  | PutSettings s input => put_settings s input at_ o
  | Designate s node d => designate_node s node d o
  | CreateRoute s input id => create_route s input at_ id o
  | UpdateRoute s id input => update_route s id input at_ o
  | Emergency s id reason => emergency_disable s id reason at_ o
  | DeleteRoute s id => delete_route s id o
  | Report node token reports => node_report node token reports at_ o
  | Polled node revision => Ok (record_poll node revision at_ o)
  | Elsewhere ds cs a ss bumps => Ok (elsewhere ds cs a ss bumps o)
  end.

(** A failed operation rolls its transaction back. *)
Definition step (at_ : Z) (op : Op) (o : Org) : Org := match run at_ op o with Ok o' => o' | Err _ => o end.

(** ** Reading the handlers *)

Lemma reject_ok {E} b (e : E) u : reject_if b e = Ok u → b = false.
Proof. by destruct b. Qed.

(** Peels the guards of a handler off a hypothesis that it succeeded. *)
Ltac peel H :=
  repeat (let g := fresh "g" in let Hg := fresh "Hg" in
          apply bind_ok in H as (g & Hg & H); try (apply reject_ok in Hg; clear g); cbv beta zeta in H).

Lemma load_route_ok o id r : load_route o id = Ok r → r ∈ routes o ∧ r_id r = id.
Proof. intros [Hin Hid]%ok_or_ok%find_some. apply bool_decide_eq_true in Hid. split; [by apply list_elem_of_In|done]. Qed.

Lemma replace_elem r rs x : x ∈ replace_route r rs → (x ∈ rs ∧ r_id x ≠ r_id r) ∨ (x = r ∧ ∃ s, s ∈ rs ∧ r_id s = r_id r).
Proof.
  unfold replace_route. intros (s & -> & Hs)%list_elem_of_fmap. case_bool_decide; [right|left]; [|done]. split; [done|by exists s].
Qed.

(** ** Opening *)

(** What the operator typed to confirm, and who it was. *)
Definition typed (op : Op) : option str :=
  match op with
  | CreateRoute _ input _ => Some (host_name (i_confirm input))
  | UpdateRoute _ _ input => host_name <$> p_confirm input
  | _ => None
  end.

Definition actor (op : Op) : option Session :=
  match op with
  | PutSettings s _ | Designate s _ _ | CreateRoute s _ _ | UpdateRoute s _ _ | Emergency s _ _ | DeleteRoute s _ => Some s
  | Report _ _ _ | Polled _ _ | Elsewhere _ _ _ _ _ => None
  end.

(** An owner's operation with the hostname typed out. *)
Definition confirms (op : Op) (host : str) : Prop :=
  typed op = Some host ∧ ∃ s, actor op = Some s ∧ can (se_role s) ManagePublicIngress = true.

Definition gated (r : StoredRoute) : bool := seq_b (r_auth r) "oidc".

(** The route was live before, under the same name and for the same target, and kept
    its identity gate and its restriction of client networks. *)
Definition kept_closed (o : Org) (r' : StoredRoute) : Prop :=
  ∃ r, r ∈ routes o ∧ r_id r = r_id r' ∧ r_fqdn r = r_fqdn r' ∧ is_live r = true ∧
       (r_service r, r_node r, r_port r) = (r_service r', r_node r', r_port r') ∧
       (gated r = true → gated r' = true) ∧ (r_sources r ≠ [] → r_sources r' ≠ []).

Lemma same_kept o r : r ∈ routes o → is_live r = true → kept_closed o r.
Proof. intros Hin Hl. by exists r. Qed.

(** ** The shape of a change *)

Lemma check_modes_ok tls auth u : check_modes tls auth = Ok u → tls ∈ TLS_MODES ∧ auth ∈ AUTH_MODES.
Proof.
  unfold check_modes. intros H. peel H. apply reject_ok in H. apply negb_false_iff, bool_decide_eq_true in Hg, H. done.
Qed.

Record created (session : Session) (input : RouteInput) (o : Org) (r : StoredRoute) : Prop := {
  cr_role : can (se_role session) ManagePublicIngress = true;
  cr_typed : host_name (i_confirm input) = r_fqdn r;
  cr_on : s_enabled (load_settings o) = true;
  cr_name : validate_fqdn (i_fqdn input) = Ok (r_fqdn r);
  cr_new : r_fqdn r ∉ map r_fqdn (routes o);
  cr_room : len (routes o) < MAX_ROUTES;
  cr_modes : r_tls r ∈ TLS_MODES ∧ r_auth r ∈ AUTH_MODES;
  cr_domains : canonical_domains (i_domains input) = Ok (r_domains r);
  cr_sources : canonical_cidrs (i_sources input) = Ok (r_sources r);
  cr_limits : check_limits (r_limits r) = Ok tt
}.

Lemma route_create_shape session input at_ id o o' :
  create_route session input at_ id o = Ok o' →
  ∃ r, o' = finish (with_routes o (routes o ++ [r])) session "public_route.created" id ∧ r_id r = id ∧ created session input o r.
Proof.
  unfold create_route. intros H. peel H. destruct g4 as [[service node] port]. peel H. injection H as <-. eexists. split; [reflexivity|].
  split; [done|]. apply negb_false_iff in Hg, Hg1, Hg6. apply bool_decide_eq_true in Hg1. constructor; simpl; try done.
  - intros (s & Hs & Hin)%list_elem_of_fmap. apply not_true_iff_false in Hg9. apply Hg9, existsb_exists. exists s.
    split; [by apply list_elem_of_In|]. by apply bool_decide_eq_true.
  - lia.
  - by apply (check_modes_ok _ _ g0).
  - by destruct g3.
Qed.

(** What a patch may change of a route, and what it may not open unconfirmed. *)
Record patched (session : Session) (input : RoutePatch) (o : Org) (c r : StoredRoute) : Prop := {
  pt_role : can (se_role session) ManagePublicIngress = true;
  pt_same : r_id r = r_id c ∧ r_fqdn r = r_fqdn c ∧ r_service r = r_service c ∧ r_node r = r_node c ∧ r_port r = r_port c;
  pt_confirmed : host_name <$> p_confirm input = Some (r_fqdn c) ∨
                 ((is_live r = true → is_live c = true) ∧ (gated c = true → gated r = true) ∧ (r_sources c ≠ [] → r_sources r ≠ []));
  pt_on : is_live r = true → is_live c = true ∨ s_enabled (load_settings o) = true;
  pt_revision : r_revision r = r_revision c + 1;
  pt_modes : r_tls r ∈ TLS_MODES ∧ r_auth r ∈ AUTH_MODES;
  pt_domains : r_domains r = r_domains c ∨ ∃ d, canonical_domains d = Ok (r_domains r);
  pt_sources : r_sources r = r_sources c ∨ ∃ d, canonical_cidrs d = Ok (r_sources r);
  pt_limits : check_limits (r_limits r) = Ok tt
}.

Lemma route_update_shape session id input at_ o o' :
  update_route session id input at_ o = Ok o' →
  ∃ c r action, o' = finish (with_routes o (replace_route r (routes o))) session action id ∧ c ∈ routes o ∧ r_id c = id ∧
    patched session input o c r.
Proof.
  unfold update_route. intros H. peel H. apply load_route_ok in Hg0 as [Hin Hid]. injection H as <-.
  apply check_modes_ok in Hg2. apply negb_false_iff in Hg. exists g. eexists. eexists. split; [reflexivity|]. split; [done|]. split; [done|].
  set (enabled := default (is_live g) (p_enabled input)) in *. constructor; simpl; try done.
  - apply andb_false_iff in Hg6 as [Hg6|Hg6]; [right|left; by apply negb_false_iff, bool_decide_eq_true in Hg6].
    apply orb_false_iff in Hg6 as [[Hl Ha]%orb_false_iff Hs]. split_and!.
    + unfold is_live at 1. simpl. destruct enabled; [|done]. by destruct (is_live g).
    + unfold gated. simpl. intros Hgate. rewrite Hgate in Ha. simpl in Ha. destruct Hg2 as [_ Hm]. unfold seq_b in *.
      apply bool_decide_eq_false in Ha. apply bool_decide_eq_true. unfold AUTH_MODES in Hm. set_solver.
    + intros Hne ->. rewrite bool_decide_eq_false_2 in Hs; [|done]. done.
  - unfold is_live at 1. simpl. destruct enabled; [|done]. destruct (is_live g); [by left|]. simpl in Hg7. intros _. right.
    by apply negb_false_iff in Hg7.
  - destruct (p_domains input) as [d|]; [right; by exists d|left; by injection Hg3].
  - destruct (p_sources input) as [d|]; [right; by exists d|left; by injection Hg4].
  - by destruct g3.
Qed.

Lemma emergency_shape session id reason at_ o o' :
  emergency_disable session id reason at_ o = Ok o' →
  ∃ c r, o' = finish (with_routes o (replace_route r (routes o))) session "public_route.emergency_disabled" id ∧ c ∈ routes o ∧ r_id c = id ∧
    r_id r = id ∧ r_fqdn r = r_fqdn c ∧ is_live r = false ∧ r_revision r = r_revision c + 1 ∧
    (r_tls r, r_auth r, r_domains r, r_sources r, r_limits r) = (r_tls c, r_auth c, r_domains c, r_sources c, r_limits c).
Proof.
  unfold emergency_disable. intros H. peel H. apply load_route_ok in Hg1 as [Hin Hid]. injection H as <-.
  exists g. eexists. split; [reflexivity|]. done.
Qed.

Lemma delete_shape session id o o' :
  delete_route session id o = Ok o' →
  o' = finish (with_routes o (List.filter (λ r, negb (bool_decide (r_id r = id))) (routes o))) session "public_route.deleted" id.
Proof. unfold delete_route. intros H. peel H. by injection H as <-. Qed.

(** The other operations leave the routes alone. *)
Lemma settings_shape session input at_ o o' :
  put_settings session input at_ o = Ok o' →
  routes o' = routes o ∧ control_revision o' = control_revision o + 1 ∧
  (s_enabled (load_settings o') = true →
   can (se_role session) ManagePublicIngress = true ∧ si_confirm input = Some ENABLE_PHRASE).
Proof.
  unfold put_settings. intros H. peel H. injection H as <-. simpl. split_and!; [done|done|]. intros He. rewrite He in Hg1.
  apply bind_ok in Hg1 as (u & Hc & _). apply reject_ok, negb_false_iff, bool_decide_eq_true in Hc. by apply negb_false_iff in Hg.
Qed.

Lemma designate_shape session node d o o' :
  designate_node session node d o = Ok o' →
  o' = o ∨ (routes o' = routes o ∧ settings_row o' = settings_row o ∧ control_revision o' = control_revision o + 1).
Proof.
  unfold designate_node. intros H. peel H. destruct (Bool.eqb _ _); injection H as <-; [by left|by right].
Qed.

Lemma report_shape node token reports at_ o o' :
  node_report node token reports at_ o = Ok o' →
  routes o' = routes o ∧ settings_row o' = settings_row o ∧ control_revision o' = control_revision o.
Proof. unfold node_report. intros H. peel H. by injection H as <-. Qed.

(** ** Nothing goes public by itself *)

(** A route that is live after an operation was live before and is no more open than
    it was, or an owner typed its name; and then it is on the Internet only if the
    organisation allows public ingress. *)
Lemma step_opens at_ op o r' :
  r' ∈ routes (step at_ op o) → is_live r' = true →
  kept_closed o r' ∨
  (confirms op (r_fqdn r') ∧ (s_enabled (load_settings o) = true ∨ ∃ r, r ∈ routes o ∧ r_fqdn r = r_fqdn r' ∧ is_live r = true)).
Proof.
  unfold step. destruct (run at_ op o) as [o'|] eqn:Hrun; [|intros; left; by apply same_kept]. intros Hin Hl.
  destruct op as [s i|s n d|s i id|s id i|s id rs|s id|n t rs|n rv|ds cs a ss b]; simpl in Hrun.
  - apply settings_shape in Hrun as [Hr _]. rewrite Hr in Hin. left. by apply same_kept.
  - apply designate_shape in Hrun as [-> |[Hr _]]; [|rewrite Hr in Hin]; left; by apply same_kept.
  - apply route_create_shape in Hrun as (r & -> & Hid & Hc). simpl in Hin. apply elem_of_app in Hin as [Hin|Hin]; [left; by apply same_kept|].
    apply list_elem_of_singleton in Hin as ->. right. destruct Hc. split; [|by left]. split; [simpl; by f_equal|]. by exists s.
  - apply route_update_shape in Hrun as (c & r & act & -> & Hc & Hid & [Hrole Hsame Hconf Hon _ _ _ _ _]).
    simpl in Hin. apply replace_elem in Hin as [[Hin _]|[-> _]]; [left; by apply same_kept|].
    destruct Hsame as (Hi & Hf & Hs & Hn & Hp). destruct Hconf as [Ht|(Hlive & Hgate & Hsrc)].
    + right. split; [split; [simpl; by rewrite Hf|by exists s]|]. destruct (Hon Hl) as [Hlc|]; [right; by exists c|by left].
    + left. exists c. split_and!; try done; [by apply Hlive|by rewrite Hs Hn Hp].
  - apply emergency_shape in Hrun as (c & r & -> & Hc & Hid & Hi & Hf & Hd & _). simpl in Hin.
    apply replace_elem in Hin as [[Hin _]|[-> _]]; [left; by apply same_kept|]. by rewrite Hd in Hl.
  - apply delete_shape in Hrun as ->. simpl in Hin. apply list_elem_of_In, filter_In in Hin as [Hin%list_elem_of_In _].
    left. by apply same_kept.
  - apply report_shape in Hrun as [Hr _]. rewrite Hr in Hin. left. by apply same_kept.
  - injection Hrun as <-. left. by apply same_kept.
  - injection Hrun as <-. left. by apply same_kept.
Qed.

(** A run of operations, each at its time. *)
Definition steps (o : Org) (ops : list (Z * Op)) : Org := foldl (λ o x, step x.1 x.2 o) o ops.

Definition host_live (o : Org) (host : str) : Prop := ∃ r, r ∈ routes o ∧ r_fqdn r = host ∧ is_live r = true.

(** [C12] Nothing goes public by itself.  If a hostname is live after any sequence of
    operations of the coordinator and was not before, then in one of them, at a moment
    when the organisation had public ingress switched on, a member whose role may
    manage public ingress typed exactly that hostname. *)
Theorem public_host_was_typed (o : Org) (ops : list (Z * Op)) (host : str)
    (Hbefore : ¬ host_live o host) (Hafter : host_live (steps o ops) host) :
  ∃ done x rest, ops = done ++ x :: rest ∧ confirms x.2 host ∧ s_enabled (load_settings (steps o done)) = true.
Proof.
  revert o Hbefore Hafter. induction ops as [|[at_ op] ops IH]; intros o Hb Ha; [done|]. cbn [steps foldl] in Ha.
  assert (host_live (step at_ op o) host ∨ ¬ host_live (step at_ op o) host) as [Hl|Hn].
  { destruct (existsb (λ r, bool_decide (r_fqdn r = host) && is_live r) (routes (step at_ op o))) eqn:He.
    - left. apply existsb_exists in He as (r & Hr & [Hf%bool_decide_eq_true Hv]%andb_true_iff). exists r. by apply list_elem_of_In in Hr.
    - right. intros (r & Hr & Hf & Hv). apply not_true_iff_false in He. apply He, existsb_exists. exists r.
      split; [by apply list_elem_of_In|]. by rewrite bool_decide_eq_true_2. }
  - exists [], (at_, op), ops. destruct Hl as (r & Hr & Hf & Hv). destruct (step_opens _ _ _ _ Hr Hv) as [Hk|[Hc Hon]].
    + destruct Hk as (r0 & Hr0 & _ & Hf0 & Hl0 & _). exfalso. apply Hb. exists r0. by rewrite Hf0.
    + rewrite Hf in Hc. split_and!; [done|done|]. destruct Hon as [|(r0 & Hr0 & Hf0 & Hl0)]; [done|]. exfalso. apply Hb. exists r0. by rewrite Hf0.
  - destruct (IH _ Hn Ha) as (pre & x & rest & -> & Hc & Hon). exists ((at_, op) :: pre), x, rest. done.
Qed.

(** ** Client networks *)

(** A network as it was written: an address and, after a slash, a prefix length. *)
Definition network_of (raw : str) : option (IpAddr * Z) :=
  let '(address, prefix) := default (trim raw, []) (split_once 47 (trim raw)) in
  a ← parse_ip address;
  let max := if is_ipv4 a then 32 else 128 in
  p ← (if bool_decide (prefix = []) then Some max else parse_uint 10 U32_MAX prefix);
  if p <=? max then Some (a, p) else None.

Definition covers (n : option (IpAddr * Z)) (client : IpAddr) : bool :=
  match n with Some (a, p) => Routes.cidr_contains a p client | None => false end.

Lemma masked_contains a p client :
  Routes.cidr_contains (match a with V4 b => V4 (mask_value 32 p b) | V6 b => V6 (mask_value 128 p b) end) p client = Routes.cidr_contains a p client.
Proof. destruct a as [b|b], client as [c|c]; simpl; try done; unfold mask_value; by rewrite -Z.land_assoc Z.land_diag. Qed.

(** A stored network is read by the ingress as the one that was written. *)
Lemma masked_wf a p : wf_ip a → 0 ≤ p ≤ (if is_ipv4 a then 32 else 128) →
  wf_ip (match a with V4 b => V4 (mask_value 32 p b) | V6 b => V6 (mask_value 128 p b) end).
Proof.
  intros Ha Hp. destruct a as [b|b]; simpl in *; unfold is_u32, is_u128 in *.
  - pose proof (mask_value_bound 32 p b Hp ltac:(unfold U32_MAX in *; lia)). lia.
  - pose proof (mask_value_bound 128 p b Hp ltac:(unfold U128_MAX in *; lia)). lia.
Qed.

Lemma canonical_cidr_read raw text :
  canonical_cidr raw = Ok (Some text) → ∃ n, Routes.parse_cidr text = Some n ∧ ∀ client, covers (Some n) client = covers (network_of raw) client.
Proof.
  unfold canonical_cidr, network_of. case_bool_decide as Hne; [done|]. destruct (default _ _) as [address prefix]. intros H. peel H.
  destruct (parse_ip address) as [a|] eqn:Ha; [|done]. injection Hg as <-. set (max := if is_ipv4 a then 32 else 128) in *.
  assert (Hpre : (if bool_decide (prefix = []) then Some max else parse_uint 10 U32_MAX prefix) = Some g0).
  { case_bool_decide; [by injection Hg0 as <-|by apply ok_or_ok in Hg0]. }
  assert (0 ≤ g0 ≤ max) as Hb.
  { split; [|lia]. case_bool_decide; [injection Hpre as <-; subst max; by destruct (is_ipv4 a)|].
    apply parse_uint_bound in Hpre; [lia|done|lia]. }
  injection H as <-.
  set (n := match a with V4 b => V4 (mask_value 32 g0 b) | V6 b => V6 (mask_value 128 g0 b) end). exists (n, g0). split.
  - unfold Routes.parse_cidr. change (lit "/") with [47]. cbn [app]. rewrite split_once_app; [|apply show_ip_no_slash]. simpl.
    apply parse_ip_wf in Ha. rewrite parse_show_ip; [|by apply masked_wf]. simpl. unfold parse_u8.
    assert (is_ipv4 n = is_ipv4 a) as Hf by (by destruct a). assert (max ≤ 128) by (subst max; by destruct (is_ipv4 a)).
    rewrite parse_uint_dec; [|unfold U8_MAX; lia]. simpl. rewrite Hf. fold max. by replace (g0 <=? max) with true by lia.
  - intros client. cbn [mbind option_bind]. fold max. rewrite Hpre. cbn [mbind option_bind]. replace (g0 <=? max) with true by lia. apply masked_contains.
Qed.

Lemma canonical_cidr_blank raw : canonical_cidr raw = Ok None ↔ trim raw = [].
Proof.
  unfold canonical_cidr. case_bool_decide; [done|]. split; [|done]. destruct (default _ _) as [address prefix]. intros Hx.
  apply bind_ok in Hx as (a & _ & Hx). apply bind_ok in Hx as (p & _ & Hx). by apply bind_ok in Hx as (u & _ & Hx).
Qed.

Lemma blank_covers raw client : trim raw = [] → covers (network_of raw) client = false.
Proof. unfold network_of. intros ->. done. Qed.

Lemma read_all texts nets client :
  mapM Routes.parse_cidr texts = Some nets →
  existsb (λ n, Routes.cidr_contains n.1 n.2 client) nets = existsb (λ t, covers (Routes.parse_cidr t) client) texts.
Proof.
  revert nets. induction texts as [|t texts IH]; intros nets; simpl; [by intros [= <-]|]. destruct (Routes.parse_cidr t) as [[a p]|]; [|done].
  simpl. destruct (mapM Routes.parse_cidr texts) as [ns|]; simpl; [|done]. intros [= <-]. simpl. by rewrite (IH ns).
Qed.

Lemma extend_nil xs : BTree.extend [] xs = [] ↔ xs = [].
Proof.
  split; [|by intros ->]. intros He. destruct xs as [|x xs]; [done|]. exfalso.
  assert (existsb (λ y, bool_decide (y = x)) (BTree.extend [] (x :: xs)) = true) as Hx.
  { rewrite existsb_extend. simpl. by rewrite bool_decide_eq_true_2. }
  by rewrite He in Hx.
Qed.

Lemma networks_read written out :
  Forall2 (λ x y, canonical_cidr x = Ok y) written out → is_Some (mapM Routes.parse_cidr (BTree.extend [] (omap id out))).
Proof.
  intros Hall. apply mapM_is_Some_2. apply Forall_forall. intros t Ht. apply RoutesProps.extend_elem in Ht as [Ht|Ht]; [by apply elem_of_nil in Ht|]. apply list_elem_of_omap in Ht as (x & Hx & Heq).
  unfold id in Heq. subst x. apply list_elem_of_lookup in Hx as [i Hi].
  destruct (Forall2_lookup_r _ _ _ _ _ Hall Hi) as (raw & _ & Hraw). apply canonical_cidr_read in Hraw as (n & Hn & _). by exists n.
Qed.

(** The ingress admits the clients the administrator named.  It reads every network
    the coordinator stores, a client is in one of them exactly when it is in one of
    those that were written, and the restriction is stored as empty, which admits
    everybody, only when nothing but blanks was written. *)
Theorem client_networks_agree (written stored : list str) (Hok : canonical_cidrs written = Ok stored) :
  ∃ nets, mapM Routes.parse_cidr stored = Some nets ∧
    (∀ client, existsb (λ n, Routes.cidr_contains n.1 n.2 client) nets = existsb (λ raw, covers (network_of raw) client) written) ∧
    (nets = [] ↔ Forall (λ raw, trim raw = []) written).
Proof.
  unfold canonical_cidrs in Hok. peel Hok. injection Hok as <-. apply try_collect_ok in Hg.
  destruct (networks_read _ _ Hg) as [nets Hnets].
  exists nets. split_and!; [done| |].
  - intros client. rewrite (read_all _ _ client Hnets) existsb_extend. simpl. clear Hnets Hg0 nets.
    induction Hg as [|raw y written ys Hy Hg IH]; [done|]. simpl. destruct y as [t|]; simpl; rewrite -IH.
    + apply canonical_cidr_read in Hy as (n & -> & Hn). by rewrite Hn.
    + apply canonical_cidr_blank in Hy. by rewrite blank_covers.
  - assert (nets = [] ↔ omap id g = []) as ->.
    { rewrite -extend_nil. apply mapM_Some_1, Forall2_length in Hnets. rewrite -!length_zero_iff_nil. lia. }
    clear Hnets Hg0 nets. induction Hg as [|raw y written ys Hy Hg IH]; [by split|]. rewrite Forall_cons -IH. simpl. destruct y as [t|]; simpl.
    + split; [done|]. intros [Hb _]. apply canonical_cidr_blank in Hb. congruence.
    + apply canonical_cidr_blank in Hy. tauto.
Qed.

Lemma client_networks_agree_witness :
  ∃ nets, mapM Routes.parse_cidr [lit "2001:db8::/32"; lit "203.0.113.0/24"] = Some nets ∧
    (∀ client, existsb (λ n, Routes.cidr_contains n.1 n.2 client) nets =
               existsb (λ raw, covers (network_of raw) client) [lit "203.0.113.77/24"; lit " "; lit "2001:db8::1/32"]) ∧
    (nets = [] ↔ Forall (λ raw, trim raw = []) [lit "203.0.113.77/24"; lit " "; lit "2001:db8::1/32"]).
Proof. apply client_networks_agree. vm_compute. reflexivity. Defined.

(** ** Stored routes *)

(** A name the Internet can have. *)
Definition public_name (f : str) : Prop :=
  to_ascii_lowercase f = f ∧ f ≠ [] ∧ (length f ≤ 253)%nat ∧ parse_ip f = None ∧ (2 ≤ length (Text.split 46 f))%nat ∧
  Forall (λ l, valid_label l = true) (Text.split 46 f) ∧ default [] (last (Text.split 46 f)) ∉ RESERVED.

(** The ranges of the limits. *)
Definition limits_fit (l : Limits) : Prop :=
  1 ≤ rate_limit_per_minute l ≤ 60000 ∧ 0 ≤ max_body_bytes l ≤ 104857600 ∧
  1 ≤ max_connections l ≤ 4096 ∧ 1 ≤ log_retention_days l ≤ 365.

Lemma in_range_fits name v r x : in_range name v r = Ok x → r.1 ≤ v ≤ r.2.
Proof. unfold in_range. destruct (_ && _) eqn:Hr; [|done]. intros _. to_prop. lia. Qed.

Lemma checked_limits_fit l : check_limits l = Ok tt → limits_fit l.
Proof.
  unfold check_limits, limits_fit. intros (x1 & H1%in_range_fits & H)%bind_ok.
  apply bind_ok in H as (x2 & H2%in_range_fits & H). apply bind_ok in H as (x3 & H3%in_range_fits & H).
  apply bind_ok in H as (x4 & H4%in_range_fits & _). cbn in *. lia.
Qed.

Record route_valid (r : StoredRoute) : Prop := {
  rv_name : public_name (r_fqdn r);
  rv_modes : r_tls r ∈ [lit "operator_files"; lit "acme_http01"] ∧ r_auth r ∈ [lit "none"; lit "oidc"];
  rv_limits : limits_fit (r_limits r);
  rv_domains : (length (r_domains r) ≤ 16)%nat;
  rv_sources : (length (r_sources r) ≤ 64)%nat ∧ is_Some (mapM Routes.parse_cidr (r_sources r))
}.

Record org_valid (o : Org) : Prop := {
  ov_routes : Forall route_valid (routes o);
  ov_names : NoDup (map r_fqdn (routes o));
  ov_ids : NoDup (map r_id (routes o));
  ov_room : len (routes o) ≤ 32
}.

Lemma validate_fqdn_public raw f : validate_fqdn raw = Ok f → public_name f.
Proof.
  unfold validate_fqdn. intros H. peel H. injection H as <-. apply orb_false_iff in Hg as [Hne Hlen].
  apply bool_decide_eq_false in Hne, Hg0. destruct g, g0. apply try_each_ok in Hg2, Hg4. unfold public_name. split_and!.
  - apply OrgDnsProps.lower_idem.
  - done.
  - apply Nat.ltb_ge in Hlen. done.
  - by apply eq_None_not_Some.
  - by apply Nat.ltb_ge in Hg1.
  - apply (Forall_impl _ _ _ Hg2). intros l Hl%reject_ok. by apply negb_false_iff in Hl.
  - intros Hin. apply (proj1 (Forall_forall _ _) Hg4) in Hin. apply reject_ok in Hin. by rewrite bool_decide_eq_true_2 in Hin.
Qed.

Lemma canonical_domains_room ds l : canonical_domains ds = Ok l → (length l ≤ 16)%nat.
Proof. unfold canonical_domains. intros H. peel H. injection H as <-. by apply Nat.ltb_ge in Hg0. Qed.

Lemma canonical_cidrs_read cs l : canonical_cidrs cs = Ok l → (length l ≤ 64)%nat ∧ is_Some (mapM Routes.parse_cidr l).
Proof.
  intros H. split.
  - unfold canonical_cidrs in H. peel H. injection H as <-. by apply Nat.ltb_ge in Hg0.
  - unfold canonical_cidrs in H. peel H. injection H as <-. by apply (networks_read cs), try_collect_ok.
Qed.

Lemma replace_fqdns r rs : (∀ s, s ∈ rs → r_id s = r_id r → r_fqdn s = r_fqdn r) → map r_fqdn (replace_route r rs) = map r_fqdn rs.
Proof.
  intros Hs. unfold replace_route. rewrite map_map. apply map_ext_in. intros s Hin%list_elem_of_In. case_bool_decide; [|done]. symmetry. by apply Hs.
Qed.

Lemma replace_ids r rs : map r_id (replace_route r rs) = map r_id rs.
Proof. unfold replace_route. rewrite map_map. apply map_ext. intros s. by case_bool_decide. Qed.

Lemma same_id_same o a b : NoDup (map r_id (routes o)) → a ∈ routes o → b ∈ routes o → r_id a = r_id b → a = b.
Proof.
  intros Hn [i Hi]%list_elem_of_lookup [j Hj]%list_elem_of_lookup Hid. enough (i = j) as -> by congruence.
  apply (NoDup_lookup _ i j (r_id a) Hn); rewrite list_lookup_fmap; [by rewrite Hi|by rewrite Hj Hid].
Qed.

(** Replacing a route by a valid one of the same id and name. *)
Lemma replace_valid o c r :
  org_valid o → c ∈ routes o → r_id r = r_id c → r_fqdn r = r_fqdn c → route_valid r → org_valid (with_routes o (replace_route r (routes o))).
Proof.
  intros [Hr Hn Hi Hm] Hc Hid Hf Hv. constructor; simpl.
  - apply Forall_forall. intros x [[Hx _]|[-> _]]%replace_elem; [|done]. by apply (proj1 (Forall_forall _ _) Hr).
  - rewrite replace_fqdns; [done|]. intros s Hs Heq. rewrite Hf. f_equal. apply (same_id_same o); [done|done|done|congruence].
  - by rewrite replace_ids.
  - unfold len, replace_route. by rewrite length_map.
Qed.

Lemma finish_valid o session action id : org_valid o → org_valid (finish o session action id).
Proof. by intros []. Qed.

Lemma routes_valid o o' : routes o' = routes o → org_valid o → org_valid o'.
Proof. intros Hr [H1 H2 H3 H4]. constructor; by rewrite Hr. Qed.

Lemma NoDup_filtered {A B} (f : A → B) p l : NoDup (map f l) → NoDup (map f (List.filter p l)).
Proof.
  induction l as [|x l IH]; simpl; intros Hn; [done|]. apply NoDup_cons in Hn as [Hx Hn]. destruct (p x); [|by apply IH]. simpl.
  apply NoDup_cons. split; [|by apply IH]. intros (y & Hy & [Hin _]%list_elem_of_In%filter_In)%list_elem_of_fmap. apply Hx. rewrite Hy.
  by apply list_elem_of_fmap_2, list_elem_of_In.
Qed.

(** [C13] Stored routes stay valid under every operation: a real public name in lower
    case, no name and no id twice, known modes, limits in their ranges, lists within
    their bounds, client networks the ingress can read, and no more routes than the
    organisation may have.  New ids are new, as random ones are. *)
Theorem public_routes_stay_valid (at_ : Z) (op : Op) (o : Org)
    (Hnew : match op with CreateRoute _ _ id => id ∉ map r_id (routes o) | _ => True end) (Hok : org_valid o) : org_valid (step at_ op o).
Proof.
  unfold step. destruct (run at_ op o) as [o'|] eqn:Hrun; [|done].
  destruct op as [s i|s n d|s i id|s id i|s id rs|s id|n t rs|n rv|ds cs a ss b]; simpl in Hrun.
  - apply settings_shape in Hrun as [Hr _]. by apply (routes_valid o).
  - apply designate_shape in Hrun as [-> |[Hr _]]; [done|by apply (routes_valid o)].
  - apply route_create_shape in Hrun as (r & -> & Hid & [_ _ _ Hname Hfresh Hroom Hmodes Hdom Hsrc Hlim]). apply finish_valid.
    destruct Hok as [Hr Hn Hi Hm]. constructor; simpl.
    + apply Forall_app. split; [done|]. constructor; [|done]. constructor; try done; [by apply (validate_fqdn_public (i_fqdn i))|by apply checked_limits_fit
        |by apply (canonical_domains_room (i_domains i))|by apply (canonical_cidrs_read (i_sources i))].
    + rewrite map_app. apply NoDup_app. split_and!; [done| |apply NoDup_singleton]. intros x Hx ->%list_elem_of_singleton. done.
    + rewrite map_app. apply NoDup_app. split_and!; [done| |apply NoDup_singleton]. intros x Hx ->%list_elem_of_singleton.
      by rewrite Hid in Hx.
    + unfold len in *. change MAX_ROUTES with 32 in Hroom. rewrite length_app. simpl. lia.
  - apply route_update_shape in Hrun as (c & r & act & -> & Hc & Hid & [_ Hsame _ _ _ Hmodes Hdom Hsrc Hlim]). apply finish_valid.
    destruct Hsame as (Hi & Hf & _). apply (replace_valid o c); try done.
    destruct Hok as [Hr _ _ _]. apply (proj1 (Forall_forall _ _) Hr) in Hc as [Hname _ _ Hd Hs]. constructor; try done.
    + by rewrite Hf.
    + by apply checked_limits_fit.
    + destruct Hdom as [-> |[d Hd']]; [done|by apply (canonical_domains_room d)].
    + destruct Hsrc as [-> |[d Hd']]; [done|by apply (canonical_cidrs_read d)].
  - apply emergency_shape in Hrun as (c & r & -> & Hc & Hid & Hi & Hf & _ & _ & [= Ht Ha Hd Hs Hl]). apply finish_valid.
    apply (replace_valid o c); try done; [congruence|]. destruct Hok as [Hr _ _ _].
    apply (proj1 (Forall_forall _ _) Hr) in Hc as [Hname Hmodes Hlim Hdom Hsrc]. constructor; rewrite ?Hf ?Ht ?Ha ?Hd ?Hs ?Hl; done.
  - apply delete_shape in Hrun as ->. apply finish_valid. destruct Hok as [Hr Hn Hi Hm]. constructor; simpl.
    + apply Forall_forall. intros x [Hx _]%list_elem_of_In%filter_In. apply (proj1 (Forall_forall _ _) Hr). by apply list_elem_of_In.
    + by apply NoDup_filtered.
    + by apply NoDup_filtered.
    + unfold len in *. pose proof (filter_length_le (λ r, negb (bool_decide (r_id r = id))) (routes o)). lia.
  - apply report_shape in Hrun as [Hr _]. by apply (routes_valid o).
  - injection Hrun as <-. by apply (routes_valid o).
  - injection Hrun as <-. by apply (routes_valid o).
Qed.

(** ** Delivery *)

(** A device is given a route exactly when its state is active; then its target is an
    active device other than the ingress, which policy lets the ingress reach. *)
Lemma deliver_iff w n r : is_Some (deliver w n r) ↔ state w r n = DeliveryActive.
Proof.
  unfold deliver. case_bool_decide as Hs; [|split; [by intros []|done]]. split; [done|]. intros _. revert Hs. unfold state.
  destruct (w_enabled w); [|done]. simpl. case_bool_decide; [done|]. destruct (r_enabled r); [|done]. simpl.
  destruct (target w r) as [[[m p] a]|e] eqn:Ht; [by eexists|]. intros ->. unfold target in Ht.
  destruct (r_service r); [destruct (List.find _ (w_services w)) as [sv|]; [destruct (seq_b _ _)|]|]; simpl in Ht; try done;
    by destruct (address_of _ _).
Qed.

Lemma delivered_target w n r d :
  deliver w n r = Some d → ∃ m, target w r = Ok (m, dr_port d, dr_address d) ∧ m ≠ n ∧ address_of w m = Some (dr_address d) ∧
  policy_allows w n m (dr_port d) = Some true.
Proof.
  intros Hd. assert (state w r n = DeliveryActive) as Hs by (apply deliver_iff; by exists d). unfold deliver in Hd.
  rewrite bool_decide_eq_true_2 in Hd; [|done]. destruct (target w r) as [[[m p] a]|] eqn:Ht; [|done]. injection Hd as <-. exists m.
  revert Hs. unfold state. rewrite Ht. destruct (w_enabled w); [|done]. simpl. case_bool_decide; [done|]. destruct (r_enabled r); [|done]. simpl.
  case_bool_decide; [done|]. destruct (policy_allows w n m p) as [[]|]; [|done|done]. intros _. split_and!; try done.
  unfold target in Ht. destruct (r_service r); [destruct (List.find _ (w_services w)) as [sv|]; [destruct (seq_b _ _)|]|]; simpl in Ht; try done;
    destruct (address_of _ _) eqn:Ha; try done; injection Ht as <- <- <-; done.
Qed.

(** The console calls a route active on a device exactly when the feed gives it to the
    device and the device has polled recently. *)
Lemma console_matches_feed o at_ n r :
  shown_state (load_view o at_) at_ r n = DeliveryActive ↔ node_online at_ n = true ∧ is_Some (deliver (load_view o at_) (gn_id n) r).
Proof.
  rewrite deliver_iff. unfold shown_state, node_online. destruct (gn_capable n), (gn_designated n); simpl; try (split; [done|by intros []]).
  destruct (match gn_last_config n with Some _ => _ | None => _ end); case_bool_decide as Hs; simpl; tauto || (split; [done|intros [? ?]; done]).
Qed.

(** ** An organisation with one ingress *)

Definition demo_device (id : string) (tags : list DeviceTag) (capabilities : list str) (address : string) : DeviceRow :=
  mkDeviceRow (mkOrgNode (lit id) (lit id) (lit "token") false false false None [] [] (Some 950) 5000 (subject_new Member tags) capabilities)
    (mkNodeFacts (lit id) None None None capabilities 900 (Some 900) 5000 None []) [lit address] None None.

Definition demo_org : Org :=
  mkOrg (lit "org") None [] [demo_device "app" [Office] [] "100.64.0.9/32"; demo_device "edge" [Office] [CAP_PUBLIC_INGRESS] "100.64.0.2/32"] []
    (mkAcl 1 SameTag [] [] [] [] [] [] None) [] [lit "edge"] [] 1 [].

Definition owner : Session := mkSession (lit "u-1") (lit "owner@example.org.au") Owner.
Definition helper : Session := mkSession (lit "u-2") [] NetworkAdmin.

Definition demo_limits : Limits := mkLimits 600 1024 16 30.

Definition demo_input (sources : list str) : RouteInput :=
  mkRouteInput (lit "App.example.org.au") (lit "app.example.org.au.") None (Some (lit "app")) (Some 8080) (lit "operator_files") (lit "oidc")
    [lit "example.org.au"] sources demo_limits.

Definition demo_open : list (Z * Op) :=
  [(1000, PutSettings owner (mkSettingsInput true (Some (lit "abuse@example.org.au")) (Some (lit "PUBLIC"))));
   (1001, CreateRoute owner (demo_input [lit "203.0.113.0/24"]) (lit "r-1"))].

Definition demo_host : str := lit "app.example.org.au".

Lemma demo_open_live : host_live (steps demo_org demo_open) demo_host.
Proof. eexists. split; [vm_compute; apply list_elem_of_here|]. split; vm_compute; reflexivity. Qed.

Lemma public_host_was_typed_witness :
  ∃ done x rest, demo_open = done ++ x :: rest ∧ confirms x.2 demo_host ∧ s_enabled (load_settings (steps demo_org done)) = true.
Proof.
  apply (public_host_was_typed demo_org demo_open demo_host); [|exact demo_open_live].
  intros (r & Hr & _). by apply elem_of_nil in Hr.
Defined.

Definition second_input : RouteInput :=
  mkRouteInput (lit "Wiki.example.org.au") (lit "wiki.example.org.au") None (Some (lit "app")) (Some 8081) (lit "acme_http01") (lit "none")
    [] [] demo_limits.

(** Two routes are created, then one is changed. *)
Definition demo_history : list (Z * Op) :=
  demo_open ++ [(1002, CreateRoute owner second_input (lit "r-2"));
                (1003, UpdateRoute owner (lit "r-1") (mkRoutePatch 1 None None None None None (Some [lit "198.51.100.0/24"]) None None None None))].

Lemma public_routes_stay_valid_witness :
  org_valid (steps demo_org demo_history) ∧ map r_id (routes (steps demo_org demo_history)) = [lit "r-1"; lit "r-2"] ∧
  map r_sources (routes (steps demo_org demo_history)) = [[lit "198.51.100.0/24"]; []].
Proof.
  split; [|by vm_compute]. unfold demo_history, demo_open, steps. cbn [app foldl fst snd].
  repeat (apply public_routes_stay_valid; [first [exact I|apply (bool_decide_eq_true_1 _); vm_compute; reflexivity]|]).
  constructor; try apply NoDup_nil_2; [constructor|vm_compute; discriminate].
Defined.

(** ** Widening that asks for nothing *)

(** A restriction to one network is replaced by all of IPv4 without the typed name. *)
Lemma wider_network_unconfirmed :
  let patch := mkRoutePatch 1 None None None None None (Some [lit "0.0.0.0/0"]) None None None None in
  let before := steps demo_org demo_open in let after := step 1002 (UpdateRoute owner (lit "r-1") patch) before in
  map r_sources (routes before) = [[lit "203.0.113.0/24"]] ∧ map r_sources (routes after) = [[lit "0.0.0.0/0"]] ∧
  map is_live (routes after) = [true] ∧ typed (UpdateRoute owner (lit "r-1") patch) = None ∧
  (∀ a, covers (Routes.parse_cidr (lit "0.0.0.0/0")) (V4 a) = true).
Proof.
  split_and!; try (vm_compute; reflexivity). intros a. replace (Routes.parse_cidr (lit "0.0.0.0/0")) with (Some (V4 0, 0)) by (vm_compute; reflexivity).
  simpl. by rewrite !Z.land_0_r.
Qed.

(** The list of email domains of a route behind sign-in is emptied without it, which
    admits every address the provider signs in. *)
Lemma dropped_domains_unconfirmed :
  let patch := mkRoutePatch 1 None None None None (Some []) None None None None None in
  let before := steps demo_org demo_open in let after := step 1002 (UpdateRoute owner (lit "r-1") patch) before in
  map r_domains (routes before) = [[lit "example.org.au"]] ∧ map r_domains (routes after) = [[]] ∧ map is_live (routes after) = [true] ∧
  typed (UpdateRoute owner (lit "r-1") patch) = None ∧
  Oidc.email_allowed (lit "anyone@elsewhere.net") [lit "example.org.au"] = false ∧ Oidc.email_allowed (lit "anyone@elsewhere.net") [] = true.
Proof. by vm_compute. Qed.

End PublicIngressProps.
