(* ===== verification/IngressFeed.v ===== *)
(** * The feed of a public ingress

    The coordinator's long poll ([node_config] of [public_ingress.rs]) and the client
    that follows it ([config_loop] of [blaktail-ingress/src/lib.rs], [poll] of
    [coord.rs]) as one system with a clock: operations of the coordinator, reads of the
    poll and what the ingress does interleave in any order.  The theorem bounds how
    long a route that was withdrawn can still be served. *)

From S2P Require Import Prelude Text Net Float64 Policy Ipam FlowReport AclFilter CoordAcl CoordForward AppConnectors CoordRules Resources Posture Topology Ingress IngressProps PublicIngress PublicIngressProps.

Module IngressFeed.
Import Resources Posture Topology PublicIngress PublicIngressProps.

(** ** The client *)

Definition LONG_POLL_WAIT_SECS : Z := 20.

(** The timeout of a request, which covers the body of the answer. *)
Definition POLL_TIMEOUT : Z := secs (LONG_POLL_WAIT_SECS + 8).

Inductive Poll := Changed (c : IngressConfig) | Unchanged | Refused | Failed.

(** The document as the ingress decodes it. *)
Definition as_config (d : DeliveredRoute) : Routes.RouteConfig :=
  Routes.mkRouteConfig (dr_id d) (dr_fqdn d) (dr_address d) (dr_port d) (dr_tls d) (dr_auth d) (dr_domains d) (dr_sources d)
    (rate_limit_per_minute (dr_limits d)) (max_body_bytes (dr_limits d)) (max_connections (dr_limits d)) (log_retention_days (dr_limits d))
    (dr_revision d).

Definition as_feed (c : IngressConfig) : Routes.IngressConfig :=
  Routes.mkIngressConfig (cfg_revision c) (cfg_stale_after c) (map as_config (cfg_routes c)).

Record Client := mkClient { table : Routes.RouteTable; since : Z; stale_after : Z }.

(** One turn of [config_loop] *)
Definition client_turn {HS : HashIter str} (now : Z) (poll : Poll) (c : Client) : Client :=
  match poll with
  | Changed config =>
      mkClient (Routes.apply (table c) now (as_feed config)).1 (cfg_revision config) (secs (Z.min (cfg_stale_after config) 30))
  | Unchanged => mkClient (Routes.confirm (table c) now (stale_after c)) (since c) (stale_after c)
  | Refused => mkClient (Routes.clear (table c)) 0 (stale_after c)
  | Failed => c
  end.

(** ** The system *)

(** Where a request is: sent, waiting in the coordinator since it was let in, about to
    read the organisation, about to read the routes, answered. *)
Inductive Phase := Asked | Waiting (started : Z) | Labelled (revision : Z) | Viewed (revision : Z) (w : OrgView) | Ready (p : Poll).
Record Flight := mkFlight { f_start : Z; f_since : Z; f_phase : Phase }.

(** [past] keeps every moment with the organisation as it then was. *)
Record Sys := mkSys { org : Org; now : Z; client : Client; flight : option Flight; past : list (Z * Org) }.

Section feed.
Context {HA : HashIter IpAddr} {HS : HashIter str} `{HeaderMapOps}.
Context (authority : str → option (str * option Z)) (gate : option (HeaderMap → str → list str → option str)).
Context (node token : str).

Inductive Event :=
| Pass (d : N)
| Change (op : Op)
| Handle (req : Proxy.Request) (ip : IpAddr) (sni : option str)
| Subscribe (h : nat)
| Release (h : nat)
| Request
| Authorise
| Turn
| ReadView
| ReadRoutes
| Receive
| Lose.

(** Seconds since the epoch *)
Definition clock (s : Sys) : Z := now s / secs 1.

Definition with_flight (s : Sys) (o : Org) (f : option Flight) : Sys := mkSys o (now s) (client s) f (past s).
Definition in_phase (f : Flight) (p : Phase) : option Flight := Some (mkFlight (f_start f) (f_since f) p).
Definition with_table (s : Sys) (t : Routes.RouteTable) : Sys :=
  mkSys (org s) (now s) (mkClient t (since (client s)) (stale_after (client s))) (flight s) (past s).

(** The effect of an event; one that cannot happen changes nothing. *)
Definition effect (e : Event) (s : Sys) : Sys :=
  match e, flight s with
  | Pass d, _ => mkSys (org s) (now s + Z.of_N d) (client s) (flight s) (past s)
  | Change op, _ => with_flight s (step (clock s) op (org s)) (flight s)
  | Handle req ip sni, _ => with_table s (Proxy.handle authority gate (table (client s)) (now s) req ip sni).1
  | Subscribe h, _ => with_table s (Routes.subscribe_revoked (table (client s)) h)
  | Release h, _ => with_table s (Proxy.release (table (client s)) h)
  | Request, None => with_flight s (org s) (Some (mkFlight (now s) (since (client s)) Asked))
  | Authorise, Some (mkFlight _ _ Asked as f) =>
      with_flight s (org s) (in_phase f (match ingress_node node token (clock s) (org s) with
                                         | Ok _ => Waiting (now s)
                                         | Err _ => Ready Refused
                                         end))
  | Turn, Some (mkFlight _ asked (Waiting started) as f) =>
      match poll_turn asked (waited_out LONG_POLL_WAIT_SECS (now s - started)) (org s) with
      | Sleep => s
      | Answer revision changed =>
          with_flight s (record_poll node revision (clock s) (org s)) (in_phase f (if changed then Labelled revision else Ready Unchanged))
      end
  | ReadView, Some (mkFlight _ _ (Labelled revision) as f) => with_flight s (org s) (in_phase f (Viewed revision (load_view (org s) (clock s))))
  | ReadRoutes, Some (mkFlight _ _ (Viewed revision w) as f) =>
      with_flight s (org s) (in_phase f (Ready (Changed (config_of revision w (load_routes (org s)) node))))
  | Receive, Some (mkFlight start _ (Ready p)) =>
      if now s <=? start + POLL_TIMEOUT then mkSys (org s) (now s) (client_turn (now s) p (client s)) None (past s) else s
  | Lose, Some _ => mkSys (org s) (now s) (client_turn (now s) Failed (client s)) None (past s)
  | _, _ => s
  end.

Definition remember (s : Sys) : Sys := mkSys (org s) (now s) (client s) (flight s) ((now s, org s) :: past s).
Definition fstep (s : Sys) (e : Event) : Sys := remember (effect e s).

Definition start (o : Org) (at_ : Z) (p : Routes.TargetPolicy) : Sys :=
  mkSys o at_ (mkClient (Routes.table_new p) 0 (secs 30)) None [(at_, o)].
Definition run (s : Sys) (es : list Event) : Sys := foldl fstep s es.

(** ** What an ingress serves comes from the feed *)

Definition served (t : Routes.RouteTable) (c : Routes.RouteConfig) : Prop :=
  ∃ name h l, Routes.routes t !! name = Some h ∧ Routes.store t !! h = Some l ∧ Routes.config l = c.

Lemma quiet_served t t' c : quiet t t' → served t' c → served t c.
Proof using.
  intros (Hs & _ & Hr & _) (name & h & l & Hn & Hl & Hc). rewrite Hr in Hn. specialize (Hs h). rewrite Hl in Hs. simpl in Hs.
  destruct (Routes.store t !! h) as [l'|] eqn:Hl'; [|done]. exists name, h, l'. split_and!; [done|done|]. apply (inj Some) in Hs.
  unfold static in Hs. congruence.
Qed.

(** What the loop of [apply] has put into the next table. *)
Definition from (rs : list Routes.RouteConfig) (acc : Routes.Applying) : Prop :=
  ∀ name h, Routes.ap_next acc !! name = Some h → ∃ l, Routes.ap_store acc !! h = Some l ∧ Routes.config l ∈ rs.

Lemma apply_route_from t at_ rs acc r :
  table_ok t → applying_ok t acc → from rs acc → from (r :: rs) (Routes.apply_route t at_ acc r).
Proof using.
  intros Ht Hok Hfrom.
  assert (∀ name h, Routes.ap_next acc !! name = Some h → ∃ l, Routes.ap_store acc !! h = Some l ∧ Routes.config l ∈ r :: rs) as Hweak.
  { intros name h Hn. destruct (Hfrom name h Hn) as (l & Hl & Hc). exists l. split; [done|by right]. }
  assert (∀ tg src, from (r :: rs) (Routes.mkApplying (Routes.ap_served acc ++ [to_ascii_lowercase (Routes.fqdn r)]) (Routes.ap_refused acc)
    (<[to_ascii_lowercase (Routes.fqdn r) := Routes.ap_handle acc]> (Routes.ap_next acc))
    (<[Routes.ap_handle acc := Routes.live_new r tg src at_]> (Routes.ap_store acc)) (S (Routes.ap_handle acc)))) as Hnew.
  { intros tg src name h. cbn [Routes.ap_next Routes.ap_store]. destruct (decide (name = to_ascii_lowercase (Routes.fqdn r))) as [->|Hne].
    - rewrite lookup_insert_eq. intros [= <-]. exists (Routes.live_new r tg src at_). rewrite lookup_insert_eq. split; [done|by left].
    - rewrite lookup_insert_ne; [|done]. intros Hn. destruct (Hweak name h Hn) as (l & Hl & Hc). exists l. split; [|done].
      rewrite lookup_insert_ne; [done|]. intros <-. pose proof (ap_handles _ _ Hok (Routes.ap_handle acc) (mk_is_Some _ _ Hl)). lia. }
  unfold Routes.apply_route. destruct (Routes.route_target _ r) as [tg|]; [|exact Hweak]. destruct (mapM Routes.parse_cidr _) as [src|]; [|exact Hweak].
  destruct (Routes.routes t !! _) as [h0|] eqn:Hh0; simpl; [|apply Hnew]. destruct (Routes.ap_store acc !! h0) as [old|] eqn:Hold; simpl; [|apply Hnew].
  destruct (bool_decide _ && bool_decide _) eqn:He; [|apply Hnew]. apply andb_true_iff in He as [He%bool_decide_eq_true _].
  intros name h. cbn [Routes.ap_next Routes.ap_store]. destruct (decide (name = to_ascii_lowercase (Routes.fqdn r))) as [->|Hne].
  - rewrite lookup_insert_eq. intros [= <-]. exists old. split; [done|]. rewrite He. by left.
  - rewrite lookup_insert_ne; [|done]. apply Hweak.
Qed.

Lemma apply_loop_from t at_ rs0 rs acc :
  table_ok t → applying_ok t acc → from rs0 acc → from (rev rs ++ rs0) (foldl (Routes.apply_route t at_) acc rs).
Proof using.
  intros Ht. revert rs0 acc. induction rs as [|r rs IH]; intros rs0 acc Hok Hf; [done|]. simpl. rewrite -app_assoc. simpl.
  apply IH; [by apply apply_route_ok|by apply apply_route_from].
Qed.

Lemma apply_served t at_ c x : table_ok t → served (Routes.apply t at_ c).1 x → x ∈ Routes.cfg_routes c.
Proof using.
  intros Ht (name & h & l & Hn & Hl & Hx). revert Hn Hl. cbn [Routes.apply fst Routes.routes Routes.store].
  set (acc0 := Routes.mkApplying [] [] ∅ (Routes.store t) (Routes.next_handle t)).
  assert (from (rev (Routes.cfg_routes c) ++ []) (foldl (Routes.apply_route t at_) acc0 (Routes.cfg_routes c))) as Hf.
  { apply apply_loop_from; [done|by apply apply_start_ok|]. intros n h'. cbn [Routes.ap_next]. by rewrite lookup_empty. }
  set (acc := foldl _ acc0 _) in *. intros Hn Hl. destruct (Hf name h Hn) as (l' & Hl' & Hin). rewrite app_nil_r in Hin.
  apply list_elem_of_In, in_rev, list_elem_of_In in Hin.
  pose proof (same_static_revoke (Routes.withdrawn t (Routes.ap_next acc)) (Routes.ap_store acc) h) as Hs.
  rewrite Hl Hl' in Hs. simpl in Hs. injection Hs as Hc _ _. by rewrite -Hx -Hc.
Qed.

(** ** Revisions *)

(** [o] came before [o'], and nothing was published between them if the revision is
    still the same. *)
Definition before (o o' : Org) : Prop :=
  control_revision o ≤ control_revision o' ∧
  (control_revision o = control_revision o' → routes o = routes o' ∧ settings_row o = settings_row o').

Lemma org_before_refl o : before o o.
Proof using. done. Qed.

Lemma org_before_trans a b c : before a b → before b c → before a c.
Proof using. intros [H1 H2] [H3 H4]. split; [lia|]. intros He. destruct H2 as [-> ->]; [lia|]. apply H4. lia. Qed.

(** Every change of a route or of the settings comes with a new revision. *)
Lemma step_before at_ op o : before o (step at_ op o).
Proof using.
  unfold step. destruct (PublicIngressProps.run at_ op o) as [o'|] eqn:Hrun; [|apply org_before_refl].
  destruct op as [s i|s n d|s i id|s id i|s id rs|s id|n t rs|n rv|ds cs a ss b]; simpl in Hrun.
  - apply settings_shape in Hrun as (_ & Hr & _). split; lia.
  - apply designate_shape in Hrun as [-> |(_ & _ & Hr)]; [apply org_before_refl|]. split; lia.
  - apply route_create_shape in Hrun as (r & -> & _). split; simpl; lia.
  - apply route_update_shape in Hrun as (c & r & act & -> & _). split; simpl; lia.
  - apply emergency_shape in Hrun as (c & r & -> & _). split; simpl; lia.
  - apply delete_shape in Hrun as ->. split; simpl; lia.
  - apply report_shape in Hrun as (Hr & Hs & Hv). split; [lia|by rewrite Hr Hs].
  - injection Hrun as <-. by split.
  - injection Hrun as <-. split; simpl; [lia|done].
Qed.

(** The route of a configuration is stored and live, with the same contents. *)
Definition live_row (o : Org) (c : Routes.RouteConfig) : Prop :=
  ∃ r, r ∈ routes o ∧ is_live r = true ∧ r_id r = Routes.id c ∧ r_fqdn r = Routes.fqdn c ∧ r_auth r = Routes.auth_mode c ∧
       r_domains r = Routes.allowed_email_domains c ∧ r_sources r = Routes.allowed_source_cidrs c ∧ r_revision r = Routes.revision c.

Definition switched_on (o : Org) : Prop := s_enabled (load_settings o) = true.

Lemma insert_elem r l x : x ∈ insert_by_fqdn r l ↔ x = r ∨ x ∈ l.
Proof using.
  clear authority gate node token.
  induction l as [|s l IH]; simpl; [by rewrite list_elem_of_singleton elem_of_nil; tauto|].
  destruct (fqdn_le r s); rewrite !elem_of_cons ?IH; tauto.
Qed.

Lemma load_routes_elem o r : r ∈ load_routes o ↔ r ∈ routes o.
Proof using.
  unfold load_routes. induction (routes o) as [|s l IH]; [done|]. simpl. by rewrite insert_elem elem_of_cons IH.
Qed.

(** What is delivered is live in the rows it was read from, and switched on in the view. *)
Lemma deliverable_live w o d : d ∈ deliverable w (load_routes o) node → w_enabled w = true ∧ live_row o (as_config d).
Proof using node.
  clear authority gate.
  unfold deliverable. intros (r & Hr%load_routes_elem & Hd)%list_elem_of_omap. unfold deliver in Hd.
  case_bool_decide as Hs; [|done]. destruct (PublicIngress.target w r) as [[[n p] a]|]; [|done]. injection Hd as <-. revert Hs. unfold state.
  destruct (w_enabled w); [|done]. simpl. case_bool_decide as He; [done|]. destruct (r_enabled r) eqn:Hen; [|done]. intros _.
  split; [done|]. exists r. split_and!; try done. unfold is_live. rewrite Hen bool_decide_eq_true_2; [done|]. by apply eq_None_not_Some.
Qed.

(** Over an unchanged revision, what was live still is. *)
Lemma before_live o o' c : before o o' → control_revision o' ≤ control_revision o → live_row o c → live_row o' c.
Proof using. intros [Hle Hsame] Hge. destruct Hsame as [Hr _]; [lia|]. unfold live_row. by rewrite Hr. Qed.

Lemma before_on o o' : before o o' → control_revision o' ≤ control_revision o → switched_on o → switched_on o'.
Proof using. intros [Hle Hsame] Hge. destruct Hsame as [_ Hr]; [lia|]. unfold switched_on, load_settings. by rewrite Hr. Qed.

(** ** The invariant *)

Definition LIMIT : Z := POLL_TIMEOUT + secs 30.

(** [o] is the organisation as it was at some moment not before [u]. *)
Definition seen (s : Sys) (u : Z) (o : Org) : Prop := ∃ v, (v, o) ∈ past s ∧ u ≤ v.

(** A view read after [u], and routes read after it, with at least the revision [label]. *)
Definition reading (s : Sys) (u label : Z) (o o' : Org) : Prop :=
  seen s u o ∧ seen s u o' ∧ before o (org s) ∧ before o' (org s) ∧ label ≤ control_revision o ∧ label ≤ control_revision o'.

Definition phase_ok (s : Sys) (u : Z) (p : Phase) : Prop :=
  match p with
  | Asked | Waiting _ | Ready (Refused | Failed) => True
  | Labelled revision => revision ≤ control_revision (org s)
  | Viewed revision w => ∃ o, reading s u revision o o ∧ (w_enabled w = true → switched_on o)
  | Ready Unchanged => ∃ o, seen s u o ∧ ∀ c, served (table (client s)) c → switched_on o ∧ live_row o c
  | Ready (Changed config) =>
      ∃ o o', reading s u (cfg_revision config) o o' ∧
              ∀ d, d ∈ cfg_routes config → switched_on o ∧ live_row o' (as_config d)
  end.

Record inv (s : Sys) : Prop := {
  i_table : table_ok (table (client s));
  i_now : (now s, org s) ∈ past s;
  i_content : ∀ c, served (table (client s)) c → ∃ u o o', reading s u (since (client s)) o o' ∧ switched_on o ∧ live_row o' c;
  i_fresh : ∀ until c, Routes.fresh_until (table (client s)) = Some until → served (table (client s)) c →
              ∃ o o', seen s (until - LIMIT) o ∧ seen s (until - LIMIT) o' ∧ switched_on o ∧ live_row o' c;
  i_flight : match flight s with
             | Some f => f_since f = since (client s) ∧ f_start f ≤ now s ∧ phase_ok s (f_start f) (f_phase f)
             | None => True
             end
}.

(** A later state with a longer past. *)
Definition later (s s' : Sys) : Prop := (∀ x, x ∈ past s → x ∈ past s') ∧ before (org s) (org s').

Lemma seen_later s s' u o : later s s' → seen s u o → seen s' u o.
Proof using. intros [Hp _] (v & Hv & Hu). exists v. split; [by apply Hp|done]. Qed.

Lemma reading_later s s' u l o o' : later s s' → reading s u l o o' → reading s' u l o o'.
Proof using.
  intros Hl (H1 & H2 & H3 & H4 & H5). split_and!; [by eapply seen_later|by eapply seen_later| | |apply H5..];
    (eapply org_before_trans; [eassumption|apply Hl]).
Qed.

Lemma phase_later s s' u p : later s s' → (∀ c, served (table (client s')) c → served (table (client s)) c) → phase_ok s u p → phase_ok s' u p.
Proof using.
  intros Hl Ht. destruct p as [|st|rv|rv w|[cfg| | |]]; simpl; try done.
  - destruct Hl as [_ [Hle _]]. lia.
  - intros (o & Ho & Hw). exists o. split; [by eapply reading_later|done].
  - intros (o & o' & Ho & Hd). exists o, o'. split; [by eapply reading_later|done].
  - intros (o & Ho & Hc). exists o. split; [by eapply seen_later|]. intros c Hs. by apply Hc, Ht.
Qed.

(** A change that leaves the client's routes alone, or shrinks them, and does not move
    the flight backwards. *)
Lemma inv_later s s' :
  inv s → later s s' → (now s', org s') ∈ past s' →
  since (client s') = since (client s) → table_ok (table (client s')) → (∀ c, served (table (client s')) c → served (table (client s)) c) →
  Routes.fresh_until (table (client s')) = Routes.fresh_until (table (client s)) →
  match flight s' with
  | Some f => f_since f = since (client s') ∧ f_start f ≤ now s' ∧ phase_ok s' (f_start f) (f_phase f)
  | None => True
  end → inv s'.
Proof using.
  intros [Ht Hn Hc Hf _] Hl Hn' Hs Hok Hserved Hu Hfl. constructor; try done.
  - intros c Hx. destruct (Hc c (Hserved c Hx)) as (u & o & o' & Hr & Hon & Hlive). exists u, o, o'. rewrite Hs.
    split; [by eapply reading_later|done].
  - intros til c Hu' Hx. rewrite Hu in Hu'. destruct (Hf til c Hu' (Hserved c Hx)) as (o & o' & H1 & H2 & H3). exists o, o'.
    split; [by eapply seen_later|]. split; [by eapply seen_later|done].
Qed.

Lemma later_remember s s' : (∀ x, x ∈ past s → x ∈ past s') → before (org s) (org s') → later s (remember s').
Proof using. intros Hp Hb. split; [|done]. intros x Hx. simpl. right. by apply Hp. Qed.

Lemma quiet_inv s t' : inv s → quiet (table (client s)) t' → inv (remember (with_table s t')).
Proof using.
  intros Hi Hq. assert (later s (remember (with_table s t'))) as Hl by (apply later_remember; [done|apply org_before_refl]).
  assert (∀ c, served t' c → served (table (client s)) c) as Hs by (intros c; by apply quiet_served).
  apply (inv_later s); try done; simpl; [by left|by eapply quiet_ok; [|apply Hi]|by destruct Hq as (_ & _ & _ & -> & _)|].
  destruct Hi as [_ _ _ _ Hf]. destruct (flight s) as [f|]; [|done]. destruct Hf as (H1 & H2 & H3). split_and!; [done|done|].
  by apply (phase_later s).
Qed.

(** A flight that moves on while the organisation stays, or only records the poll. *)
Lemma flight_inv s o f f' :
  inv s → flight s = Some f → before (org s) o → (f_start f', f_since f') = (f_start f, f_since f) →
  (later s (remember (with_flight s o (Some f'))) → phase_ok (remember (with_flight s o (Some f'))) (f_start f) (f_phase f')) →
  inv (remember (with_flight s o (Some f'))).
Proof using.
  intros Hi Hf Hb [= Hst Hsi] Hp. assert (later s (remember (with_flight s o (Some f')))) as Hl by (by apply later_remember).
  apply (inv_later s); try done; simpl; [by left|apply Hi|]. destruct Hi as [_ _ _ _ Hfl]. rewrite Hf in Hfl. destruct Hfl as (H1 & H2 & _).
  rewrite Hst Hsi. split_and!; [done|done|by apply Hp].
Qed.

(** The poll that finds the revision unchanged finds everything served still live. *)
Lemma unchanged_live s c :
  inv s → control_revision (org s) = since (client s) → served (table (client s)) c → switched_on (org s) ∧ live_row (org s) c.
Proof using.
  intros Hi Hr Hc. destruct (i_content s Hi c Hc) as (u & o & o' & (_ & _ & H1 & H2 & H3 & H4) & Hon & Hlive).
  split; [apply (before_on o); [done|lia|done]|apply (before_live o'); [done|lia|done]].
Qed.

Lemma record_poll_same n r at_ o : routes (record_poll n r at_ o) = routes o ∧ settings_row (record_poll n r at_ o) = settings_row o ∧
  control_revision (record_poll n r at_ o) = control_revision o.
Proof using. done. Qed.

(** Receiving an answer in time. *)
Lemma receive_inv s f p :
  inv s → flight s = Some f → f_phase f = Ready p → now s ≤ f_start f + POLL_TIMEOUT →
  inv (remember (mkSys (org s) (now s) (client_turn (now s) p (client s)) None (past s))).
Proof using HA H.
  intros Hi Hf Hp Hin. pose proof (i_flight s Hi) as Hfl. rewrite Hf in Hfl. destruct Hfl as (_ & _ & Hph). rewrite Hp in Hph.
  set (s' := remember _). assert (later s s') as Hl by (apply later_remember; [done|apply org_before_refl]).
  destruct p as [cfg| | |]; cbn [client_turn] in *.
  - destruct Hph as (o & o' & Hr & Hd).
    assert (∀ c, served (table (client s')) c → switched_on o ∧ live_row o' c) as Hserved.
    { intros c Hx. assert (c ∈ Routes.cfg_routes (as_feed cfg)) as Hc by (exact (apply_served (table (client s)) (now s) (as_feed cfg) c (i_table s Hi) Hx)).
      simpl in Hc. apply list_elem_of_fmap in Hc as (d & -> & Hd'). by apply Hd. }
    constructor; [|by left| | |done].
    + eapply (step_ok (λ _, None) None (λ _, True)); [by apply step_apply|apply Hi].
    + intros c Hc. exists (f_start f), o, o'. split; [by eapply reading_later|by apply Hserved].
    + intros til c [= <-] Hc. exists o, o'. destruct Hr as ((v & Hv & Hvu) & (v' & Hv' & Hvu') & _).
      assert (Z.min (cfg_stale_after cfg) 30 ≤ 30) by lia. unfold LIMIT.
      assert (secs (Z.min (cfg_stale_after cfg) 30) ≤ secs 30) by (unfold secs; lia).
      split; [exists v; split; [by right|lia]|]. split; [exists v'; split; [by right|lia]|by apply Hserved].
  - destruct Hph as (o & (v & Hv & Hvu) & Hc).
    assert (∀ c, served (table (client s')) c → served (table (client s)) c) as Hserved by done.
    constructor; [|by left| | |done].
    + eapply (step_ok (λ _, None) None (λ _, True)); [by apply step_confirm|apply Hi].
    + intros c Hx. destruct (i_content s Hi c (Hserved c Hx)) as (u & o1 & o2 & Hr & Hx'). exists u, o1, o2. split; [by eapply reading_later|done].
    + intros til c [= <-] Hx. exists o, o. assert (Z.min (stale_after (client s)) (secs 30) ≤ secs 30) by lia. unfold LIMIT.
      assert (seen s' (now s + Z.min (stale_after (client s)) (secs 30) - (POLL_TIMEOUT + secs 30)) o) by (exists v; split; [by right|lia]).
      split; [done|]. split; [done|]. by apply Hc.
  - constructor; [|by left| | |done].
    + eapply (step_ok (λ _, None) None (λ _, True)); [by apply step_clear|apply Hi].
    + intros c (name & h & l & Hn & _). simpl in Hn. by rewrite lookup_empty in Hn.
    + intros til c [=].
  - apply (inv_later s); try done; simpl; [by left|apply Hi].
Qed.

Lemma start_inv o at_ p : inv (start o at_ p).
Proof using.
  constructor; simpl; try done.
  - constructor; [intros n h Hn; by rewrite lookup_empty in Hn|intros h [r Hr]; by rewrite lookup_empty in Hr].
  - by left.
  - intros c (name & h & l & Hn & _). simpl in Hn. by rewrite lookup_empty in Hn.
Qed.

(** Nothing happens but that the moment is remembered. *)
Lemma idle_inv s : inv s → inv (remember s).
Proof using.
  intros Hi. assert (later s (remember s)) as Hl by (apply later_remember; [done|apply org_before_refl]).
  apply (inv_later s); try done; simpl; [by left|apply Hi|]. destruct Hi as [_ _ _ _ Hf]. destruct (flight s) as [f|]; [|done].
  destruct Hf as (H1 & H2 & H3). split_and!; [done|done|by apply (phase_later s)].
Qed.

Lemma turn_inv s u asked st :
  inv s → flight s = Some (mkFlight u asked (Waiting st)) → inv (remember (effect Turn s)).
Proof using HA H.
  intros Hi Hf. unfold effect. rewrite Hf. unfold poll_turn.
  destruct ((asked =? 0) || negb (control_revision (org s) =? asked)) eqn:Hch; simpl.
  - apply (flight_inv _ _ (mkFlight u asked (Waiting st))); try done. simpl. intros _. lia.
  - destruct (waited_out _ _); [|by apply idle_inv]. apply (flight_inv _ _ (mkFlight u asked (Waiting st))); try done.
    intros Hl. pose proof (i_flight s Hi) as Hfl. rewrite Hf in Hfl. destruct Hfl as (Has & Hst & _). cbn in Has, Hst.
    apply orb_false_iff in Hch as [_ Hch%negb_false_iff%Z.eqb_eq]. eexists. split; [exists (now s); split; [by left|done]|].
    intros c Hc. destruct (unchanged_live s c Hi) as [Hon Hlive]; [congruence|exact Hc|]. exact (conj Hon Hlive).
Qed.

Lemma fstep_inv s e : inv s → inv (fstep s e).
Proof using HA H.
  intros Hi. unfold fstep. pose proof (i_flight s Hi) as Hfl. destruct e as [d|op|req ip sni|h|h| | | | | | |]; cbn [effect].
  - set (s' := mkSys _ _ _ _ _). assert (later s (remember s')) as Hl by (apply later_remember; [done|apply org_before_refl]).
    apply (inv_later s); try done; simpl; [by left|apply Hi|]. destruct (flight s) as [f|]; [|done]. destruct Hfl as (H1 & H2 & H3).
    split_and!; [done|lia|by apply (phase_later s)].
  - assert (later s (remember (with_flight s (step (clock s) op (org s)) (flight s)))) as Hl by (apply later_remember; [done|apply step_before]).
    apply (inv_later s); try done; simpl; [by left|apply Hi|]. destruct (flight s) as [f|]; [|done]. destruct Hfl as (H1 & H2 & H3).
    split_and!; [done|done|by apply (phase_later s)].
  - apply quiet_inv; [done|apply handle_quiet].
  - apply quiet_inv; [done|]. split_and!; [by apply same_static_alter|done..].
  - apply quiet_inv; [done|]. by apply quiet_update.
  - destruct (flight s) as [f|] eqn:Hf; [by apply idle_inv|].
    set (s' := with_flight s _ _). assert (later s (remember s')) as Hl by (apply later_remember; [done|apply org_before_refl]).
    apply (inv_later s); try done; simpl; [by left|apply Hi].
  - destruct (flight s) as [[u asked [|st|rv|rv w|p]]|] eqn:Hf; try (by apply idle_inv).
    apply (flight_inv _ _ (mkFlight u asked Asked)); try done. intros _. simpl. by destruct (ingress_node _ _ _ _).
  - destruct (flight s) as [[u asked [|st|rv|rv w|p]]|] eqn:Hf; try (by apply idle_inv).
    pose proof (turn_inv s u asked st Hi Hf) as Ht. unfold effect in Ht. by rewrite Hf in Ht.
  - destruct (flight s) as [[u asked [|st|rv|rv w|p]]|] eqn:Hf; try (by apply idle_inv).
    apply (flight_inv _ _ (mkFlight u asked (Labelled rv))); try done. intros Hl. simpl. destruct Hfl as (_ & Hst & Hrv). cbn in Hst, Hrv.
    assert (seen (remember (with_flight s (org s) (in_phase (mkFlight u asked (Labelled rv)) (Viewed rv (load_view (org s) (clock s)))))) u (org s)) as Hseen
      by (exists (now s); split; [by left|done]).
    exists (org s). done.
  - destruct (flight s) as [[u asked [|st|rv|rv w|p]]|] eqn:Hf; try (by apply idle_inv).
    apply (flight_inv _ _ (mkFlight u asked (Viewed rv w))); try done. intros Hl. destruct Hfl as (_ & Hst & o & Hr & Hw). cbn in Hst.
    set (s' := remember _) in *. exists o, (org s). split.
    + apply (reading_later s s') in Hr; [|done]. destruct Hr as (H1 & _ & H3 & _ & H5 & _). split_and!; try done.
      * exists (now s). split; [by left|done].
      * destruct H3 as [Hle _]. change (rv ≤ control_revision (org s)). change (control_revision o ≤ control_revision (org s)) in Hle. lia.
    + intros d Hd. apply deliverable_live in Hd as [Hen Hlive]. split; [by apply Hw|done].
  - destruct (flight s) as [[u asked [|st|rv|rv w|p]]|] eqn:Hf; try (by apply idle_inv).
    destruct (now s <=? u + POLL_TIMEOUT) eqn:Hin; [|by apply idle_inv]. by apply (receive_inv s (mkFlight u asked (Ready p))); [..|simpl; lia].
  - destruct (flight s) as [f|] eqn:Hf; [|by apply idle_inv]. set (s' := mkSys _ _ _ _ _).
    assert (later s (remember s')) as Hl by (apply later_remember; [done|apply org_before_refl]).
    apply (inv_later s); try done; simpl; [by left|apply Hi].
Qed.

Lemma run_inv s es : inv s → inv (run s es).
Proof using HA H. revert s. induction es as [|e es IH]; intros s Hi; [done|]. simpl. by apply IH, fstep_inv. Qed.

(** [C11] A route that an ingress serves was live less than fifty-eight seconds ago.
    Whatever the coordinator, the network and clients do in between, in whatever order
    the poll reads revision, organisation and routes: when the ingress finds a route
    for a host, then at a moment within the last fifty-eight seconds (the request's
    timeout and the half minute after which the table goes stale) the coordinator
    stored that route as enabled and not stopped in an emergency, with the same
    identity gate and client networks, and at such a moment public ingress was
    switched on for the organisation. *)
Theorem served_route_was_live (o : Org) (at_ : Z) (p : Routes.TargetPolicy) (es : list Event) (host : str) (h : nat)
    (Hget : Routes.get (table (client (run (start o at_ p) es))) (now (run (start o at_ p) es)) host = Some h) :
  let s := run (start o at_ p) es in
  ∃ l u o1 v o2, Routes.store (table (client s)) !! h = Some l ∧
    (u, o1) ∈ past s ∧ now s < u + secs 58 ∧ live_row o1 (Routes.config l) ∧
    (v, o2) ∈ past s ∧ now s < v + secs 58 ∧ switched_on o2.
Proof using HA H.
  intros s. fold s in Hget. pose proof (run_inv _ es (start_inv o at_ p)) as Hi. fold s in Hi. unfold Routes.get, Routes.is_fresh in Hget.
  destruct (Routes.fresh_until (table (client s))) as [til|] eqn:Hu; [|done]. destruct (now s <? til) eqn:Hlt; [|done]. simpl in Hget.
  destruct (ok_serves _ (i_table s Hi) _ _ Hget) as (l & Hl & _).
  destruct (i_fresh s Hi til (Routes.config l) Hu) as (o2 & o1 & (v & Hv & Hvt) & (u & Hu' & Hut) & Hon & Hlive).
  { by exists (to_ascii_lowercase host), h, l. }
  exists l, u, o1, v, o2. unfold LIMIT, POLL_TIMEOUT, LONG_POLL_WAIT_SECS, secs in *. split_and!; try done; lia.
Qed.

End feed.

(** ** Runs *)

(** Header maps as lists, to evaluate the definitions on. *)
#[local] Instance demo_headers : HeaderMapOps := {
  HeaderMap := list (str * str);
  entries h := h;
  remove h n := List.filter (λ e, negb (bool_decide (e.1 = n))) h;
  insert h n v := List.filter (λ e, negb (bool_decide (e.1 = n))) h ++ [(n, v)];
  header_name n := Some (to_ascii_lowercase n);
  visible _ := true;
  valid_value _ := true
}.

Definition demo_run (es : list Event) : Sys :=
  run (λ s, Some (s, None)) None (lit "edge") (lit "token") (start (steps demo_org demo_open) (secs 1010) Routes.default_policy) es.

Definition demo_get (es : list Event) (host : str) : option nat := Routes.get (table (client (demo_run es))) (now (demo_run es)) host.

(** Up to the answer, and the whole poll. *)
Definition answered : list Event := [Request; Authorise; Turn; ReadView; ReadRoutes].

Lemma served_route_was_live_witness :
  let s := demo_run (answered ++ [Receive; Pass 29000000000]) in
  ∃ l u o1 v o2, Routes.store (table (client s)) !! 0%nat = Some l ∧
    (u, o1) ∈ past s ∧ now s < u + secs 58 ∧ live_row o1 (Routes.config l) ∧
    (v, o2) ∈ past s ∧ now s < v + secs 58 ∧ switched_on o2.
Proof. apply (served_route_was_live _ _ _ _ _ _ _ _ demo_host). vm_compute. reflexivity. Defined.

Definition stop : Event := Change (Emergency helper (lit "r-1") (lit "incident")).

(** The documented half minute is not the bound: an answer that was on its way when
    the route was stopped starts a new one when it arrives. *)
Lemma stopped_route_served_longer :
  map is_live (routes (org (demo_run (answered ++ [stop])))) = [false] ∧
  demo_get (answered ++ [stop; Pass 28000000000; Receive; Pass 29000000000]) demo_host = Some 0%nat ∧
  demo_get (answered ++ [stop; Pass 28000000000; Receive; Pass 30000000000]) demo_host = None.
Proof. by vm_compute. Qed.

(** A held poll is answered with the routes after the device was released: the
    designation is checked once, before the wait. *)
Lemma released_ingress_is_answered :
  let es := answered ++ [Receive; Request; Authorise; Turn; Change (Designate owner (lit "edge") false); Turn; ReadView; ReadRoutes; Receive] in
  designated (org (demo_run es)) = [] ∧ demo_get es demo_host = Some 0%nat ∧ since (client (demo_run es)) = control_revision (org (demo_run es)) ∧
  demo_get (es ++ [Request; Authorise; Receive]) demo_host = None.
Proof. by vm_compute. Qed.

End IngressFeed.
